(* ===== verification/_CoqProject ===== *)
-Q . S2P
Prelude.v
Controls.v
Modes.v
EventStore.v
Supersession.v
Randomization.v
Trackers.v
Response.v
ResponsePosters.v
Discovered.v
Timers.v
ProcState.v
CurrentControls.v
Dispatcher.v
DeviceSpec.v
Registry.v
Relay.v
Posting.v
Fallback.v
Processor.v
ProcFrame.v
Evolution.v
Lifecycle.v
CalmRuns.v
Endings.v
CommsLoss.v
Polls.v
FallbackProps.v
DeviceProps.v
DispatchProps.v
Returns.v
Timebase.v
Polling.v
Subscriptions.v
SubscriptionProps.v
Notifications.v
NotificationProps.v
NotifyServer.v
NotifyProps.v
Recovery.v
RecoveryProps.v
LinkProps.v
Retry.v
Intervals.v
IntervalProps.v
HistoryProps.v
HistoryEvents.v
HistoryEventProps.v
DnsWire.v
DnsSd.v
DnsSdProps.v
Tariff.v
Scaling.v
Mirror.v
MirrorProps.v
Metering.v
MeteringProps.v
DerResources.v
DerResourceProps.v
Coordinator.v
CoordinatorProps.v
Http.v
Walk.v
WalkProps.v
SunspecDevice.v
SunspecMeter.v
SunspecCore.v
SunspecLaws.v
SunspecLimits.v
SunspecProps.v
SunspecConvert.v
SunspecConvertProps.v
DerModels.v
DerModelsProps.v
