(* ===== verification/Prelude.v ===== *)
(** * py20305: a verification of the core of an IEEE 2030.5 client

    py20305 is an IEEE 2030.5 (CSIP and CSIP-AUS) client.  It discovers the
    resources of a utility server, polls the DERControls of the programs its
    devices are enrolled in, applies them to the devices through connectors,
    and reports back to the server what became of each.  This library models
    the part that decides all of that, the event engine (src/py20305/events/
    with the state and the data it works on); the way from a decision to a
    device, which is the translation of controls into connector calls, the
    dispatcher and the registry of connectors, down to the registers that the
    SunSpec connector writes (src/py20305/connectors/); what drives the engine
    from the client's side, which is discovery with its refreshes, the server's
    clock, the poll scheduler, the subscriptions with the listener for and the
    handling of notifications, the detection of and the recovery from lost
    communications, and the retry policy; what goes back to the server about the
    devices, which is the telemetry (src/py20305/telemetry/); and three parts
    beside it: pricing, the energy history of the devices and the search for a
    server by DNS-SD, with the responder a server may run.
    Paths below are relative to src/py20305/ in the repository.

    ** The program's parts and how they interact

    Discovery (client/discovery.py) walks the server from its DeviceCapability and
    fills a [DiscoveredState] (client/state.py): end devices, programs with their
    controls and default, and the program/device mapping; polls walk parts of it
    again.
    After each poll the client calls [EventProcessor.process_controls]
    (events/processor.py) for a program.  The processor
    - draws each control's randomized timing ([RandomizationCache],
      events/randomization.py);
    - keeps one mutable [EventRecord] per mRID in the [EventStore]
      (events/state_machine.py);
    - schedules asyncio timers ([EventTimerManager], events/timers.py) that
      call back when an event starts and ends;
    - decides which of two overlapping events wins on a device
      ([compute_supersession], events/supersession.py);
    - applies a control to the devices through a [ControlDispatcher]
      (events/dispatch.py) and, when an event ends, writes the default control
      of the best remaining program or disables the modes nobody holds any
      more, with the help of [ActiveModeTracker] (events/active_modes.py) and
      [DdercTracker] (events/dderc.py);
    - posts status responses ([post_der_response] and [ResponseTracker],
      events/response.py; modes_bitmask.py; server_profile.py), each at most
      once;
    - relays every change to the connectors and to the audit trail;
    - opts out of every running event on loss of communications, in a state
      shared with the client (events/comms_loss.py).

    A dispatched control goes to [ConnectorDispatcher]
    (connectors/dispatcher.py).  It refuses meters, asks the command gate who
    may command the device, translates the control into calls of update methods
    (connectors/modes.py), finds the device's connector in the registry
    (connectors/registry.py, which constructs it on first use, on a worker
    thread), calls the methods the connector implements, and keeps a record of
    every write.  One of the connectors is the SunSpec one
    (connectors/sunspec/connector.py): it converts a control to the terms of the
    Modbus core (connectors/sunspec/_ieee2030_5.py), which reads and writes the
    registers of the device through the pysunspec2 client
    (connectors/sunspec/_modbus.py, _meter.py), and it converts back what it
    reads: readings, nameplate, settings and status.

    The client drives polls by [PollScheduler] (client/polling.py), one loop and
    one lock per resource, at the server's rates (client/poll_rate.py);
    subscriptions suppress polls down to a heartbeat.  [SubscriptionManager]
    (subscription/manager.py) keeps the table of subscriptions, renews them and
    reconciles it with what discovery wants and with what the server lists;
    [NotificationServer] (subscription/notification_server.py) answers the
    server's notifications and hands each to a task; the client (client/csip_client.py) computes what is wanted, routes each
    notification to a poll, a fetch or a rediscovery, and rediscovers again when
    a notification arrives meanwhile.  Requests are repeated by
    [with_retry] (client/retry.py).  The server's clock, per function set
    assignment or global, is kept by [Timebase] (client/timebase.py), which the
    processor asks for the time and which a poll of the server's Time resources
    keeps up.  A probe (csip_client.py) watches for how long the server has been
    silent, enters the mode of lost communications and recovers from it; an
    operator can simulate an outage (client/comm_loss_simulation.py), which a
    gate in front of every request enforces.

    [TelemetryManager] (telemetry/manager.py) registers a MirrorUsagePoint for
    every device and posts its readings, LogEvents for its alarms and its
    availability; telemetry/mup.py decides under which mRID and with which
    ReadingType a reading (connectors/reading.py) is registered, and the value
    posted for it.  [DerResourceManager] (telemetry/der_resource_manager.py) PUTs
    what a device can do and how it is set, in bodies that telemetry/der_status.py,
    der_capability.py, der_settings.py and der_availability.py build;
    [TelemetryCoordinator] (telemetry/coordinator.py) starts and restarts both
    managers with what discovery finds; telemetry/scale_factor.py and
    telemetry/scaling.py turn a connector's numbers into values with a power of
    ten.  Requests and lists of pages go through client/http.py.

    Pricing is a second processor on the same primitives: [TariffProcessor]
    (events/tariff.py) acknowledges tariff intervals and relays the price in
    effect.  Readings of the devices are integrated into intervals
    (history/intervals.py), which a writer thread stores (history/database.py)
    and queries merge with what is still in memory; the same database keeps the
    audit records of the processor, the responses it posted and the writes of the
    dispatcher (history/events.py, history/writes.py).  Before any of that, a client
    without a configured server looks for one by DNS-SD
    (client/dnssd/discovery.py), whose messages client/dnssd/wire.py encodes and
    decodes, and which a responder (client/dnssd/advertise.py) answers.

    ** Files

    Data and components, each with its operations, invariant and lemmas:
    - [Prelude]: Python dicts (association lists in insertion order), the
      error-and-state monad of the coroutines, the relational reasoning over
      it ([guar], [rel_bind], [rel_for_each]), the hint databases, bytes, bits;
    - [Controls]: models/csipaus/elements.py, the DERControl data of
      models/sep/sep.py, events/modes_bitmask.py;
    - [Modes]: connectors/modes.py and the update methods of connectors/base.py;
    - [EventStore]: events/state_machine.py;
    - [Supersession]: events/supersession.py;
    - [Randomization]: events/randomization.py;
    - [Trackers]: events/active_modes.py (Module [ActiveModes]) and
      events/dderc.py (Module [Dderc]);
    - [Response], [ResponsePosters]: events/response.py and server_profile.py,
      sequentially and with concurrent callers as a step relation;
    - [Discovered]: client/state.py;
    - [Timers]: events/timers.py.

    The processor, events/processor.py:
    - [ProcState]: the objects it holds, its environment (class [Env]), the
      atomic calls ([Call], [exec]) and its lookups;
    - [Relay]: schedule relay, json_form.py as far as it enters, audit trail;
    - [Posting]: the response fan-outs;
    - [Fallback]: the end of an event on the devices, the initial default;
    - [Processor]: all handlers, timer callbacks and the poll.

    From the processor to the devices:
    - [Dispatcher]: connectors/dispatcher.py, with its environment as the class
      [DispEnv]; [perform] carries out one action of the processor's log;
    - [DeviceSpec]: the abstract device, a map from control elements to the last
      command acknowledged for them, its step for every action, and the lemmas
      by which the dispatcher refines it;
    - [DeviceProps]: the theorems about devices, alone and behind the engine;
    - [Registry]: connectors/registry.py, the callers of [aresolve] as a step
      relation;
    - [CurrentControls]: events/current_controls.py.

    The SunSpec connector, connectors/sunspec/:
    - [SunspecDevice]: values, errors, and the interface of the pysunspec2 client
      (class [Sunspec2]);
    - [SunspecMeter]: _meter.py, with the calibration of a meter's power sign;
    - [SunspecCore]: _modbus.py, its reads and its controls;
    - [SunspecLaws]: what is relied on of the client ([DeviceLaws], [Reliable]),
      and two devices that satisfy it;
    - [SunspecLimits], [SunspecProps]: the limits that share registers, what a
      refused control leaves;
    - [SunspecConvert], [SunspecConvertProps]: _ieee2030_5.py and connector.py,
      and their theorems.

    Theorems about whole operations:
    - [ProcFrame]: which kinds of atomic call each coroutine makes;
    - [Evolution]: what holds under any interleaving;
    - [Lifecycle], [CalmRuns]: undisturbed operations, their lifecycle steps and
      what they emit;
    - [Endings], [CommsLoss], [Polls], [FallbackProps], [DispatchProps]: who is
      told of an end, loss of communications, the rules of a poll, the modes of
      a device at the end of an event, the outcome of a dispatch;
    - [Returns]: every undisturbed operation returns.

    Beside the engine:
    - [Timebase]: client/timebase.py;
    - [Polling]: client/polling.py and client/poll_rate.py, the loops and the
      callers as a step relation;
    - [Subscriptions], [SubscriptionProps]: subscription/manager.py and its
      theorems;
    - [Notifications], [NotificationProps]: the part of client/csip_client.py
      that subscribes, handles notifications and rediscovers;
    - [NotifyServer], [NotifyProps]: subscription/notification_server.py, the
      requests, handlers, suspensions and stops as a step relation;
    - [Walk], [WalkProps]: client/discovery.py, and the polls of client/csip_client.py
      that refresh what it has found;
    - [Recovery]: the part of client/csip_client.py that polls the time (Module
      [Clocks]), judges the errors of polls and the health of the link ([Health],
      with client/http.py), enters and leaves the mode of lost communications
      ([Loss]) and opens and closes simulated outages ([Window]), and
      client/comm_loss_simulation.py ([Gate]); [RecoveryProps], [LinkProps]: its
      theorems;
    - [Retry]: client/retry.py; [Http]: statuses and the pages of lists in
      client/http.py;
    - [Scaling]: telemetry/scale_factor.py and telemetry/scaling.py;
    - [Mirror], [MirrorProps]: connectors/reading.py and telemetry/mup.py;
    - [Metering], [MeteringProps]: telemetry/manager.py and
      telemetry/log_events.py;
    - [DerResources], [DerResourceProps]: telemetry/der_resource_manager.py, its
      cycles as a step relation with the server's store;
    - [Coordinator], [CoordinatorProps]: telemetry/coordinator.py over the class
      [Manages], which [Metering] and [DerResources] satisfy;
    - [DerModels], [DerModelsProps]: telemetry/der_status.py, der_capability.py,
      der_settings.py and der_availability.py;
    - [Intervals]: the recording and the queries of history/intervals.py and the
      write queue of history/database.py; [IntervalProps]: buckets as a monoid,
      recording for one device; [HistoryProps]: the invariant of the whole, the
      reference integral and the theorems;
    - [HistoryEvents], [HistoryEventProps]: history/events.py and
      history/writes.py, their tables, queries and the summary of an event;
    - [Tariff]: events/tariff.py and [post_price_response];
    - [DnsWire]: client/dnssd/wire.py, without TXT records and addresses, which
      are in [DnsSd]; [DnsSd], [DnsSdProps]: client/dnssd/discovery.py and
      client/dnssd/advertise.py.

    ** How code becomes definitions

    A coroutine is a computation [Comp Exn Proc A] of the state of the
    processor and everything it shares; it returns a value or an exception,
    and the state either way.  Event records are objects: the store, a timer
    and a running handler hold the same reference ([loc], an index into a list
    of records), and the model keeps that sharing.  At every await the
    environment's [interfere] runs (any function of the state: other handlers,
    discovery, the client), the await count [p_tick] advances, and the await
    may raise [CancelledError]; clocks, random draws, the outcome of each POST
    and dispatch, the readiness of the discovered state, the connectors'
    answers and the server profile are functions of that count.  What leaves
    the processor (POSTs, dispatches, relays, audit records, notifications to
    the event history) is appended to a log in order.

    Choices worth knowing:
    - Python sets are [gset]; where the code iterates over one, the model takes
      the order of [elements].  No theorem depends on that order.
    - [asyncio.gather] over dispatches emits all of them, then awaits;
      dispatches that are reported as they settle are taken in an order the
      environment chooses.  The POSTs of one fan-out run one after the other;
      their concurrency is the subject of [ResponsePosters].
    - Clocks and random draws are functions of the number of awaits (and of the
      scope or the mRID), so a clock does not move between two awaits.
    - A program object read before an await may be refreshed in place during
      it; [held_program] gives its content later on.
    - Python integers are unbounded, so [Z] is exact.  The bitmaps and mRIDs
      are bytes of fixed width.  Instants inside a timer are in milliseconds.
    - The XML binding is generated code: a base is a finite map from the
      field names of the binding to values, which the engine never inspects and
      the translation walks, plus the extension elements.  The element names
      that the xsdata library keeps for a model are a parameter ([Binding]).
    - The dispatcher has a monad of its own, [Comp DExn Disp A]; the gate, the
      connectors and the registry answer as functions of the number of awaits.
      The processor's theorems hold for any dispatcher; [DeviceProps] performs
      the log of the processor with the modelled one.
    - [snake_case] runs the two regular expressions of the source, greedy
      matching and backtracking included, since the methods' names depend on it.
    - Retry delays are rationals (the floats they stand for are powers of two
      times a quarter); the scheduler and the timebase count milliseconds.

    - The subscription manager has a monad of its own, [SM]; subscriptions are
      objects, since a renewal holds one across a request.  What the server
      answers and what other tasks do to the table at each request are
      functions of the number of requests ([SubEnv]).  URIs and hrefs are
      strings; sleeps and ages are milliseconds.
    - A rediscovery pass is an arbitrary function of the client's state, so the
      loop around it is shown to end whatever a pass does.
    - Times and powers of the energy history are floats in the source and
      integers here, in any unit that divides the interval: its rounding is not
      modelled.  A bucket is an object its device, a query's copy and the write
      that stores it share; other tables' batches go through the same queue.
    - The answers of the server in [Walk] are functions of the number of requests
      and of the href; a walk or a refresh runs in one piece.  [Steady] says that
      lists do not change meanwhile, [Readable] which failures discovery copes
      with.  [wp] is total correctness: the walk returns, and then.
    - A float of a connector is the decimal number its [str] shows ([Float] of
      [Scaling]): mantissa and exponent, exact.
    - LFDIs and mRIDs are lists of hexadecimal digits.  SHA-256 is a parameter of
      [Mirror]; a theorem that needs it not to collide says for which two texts.
    - A metering cycle runs in one piece: the scheduler never runs two of one
      device at once, and its state has no other writer than starts and stops.
      [Cycle] holds what the device and the server answer in it.
    - The cycles of [DerResources] are cut at their awaits.  A PUT reaches the
      server before it is answered, or never; its answer may be lost and its cycle
      cancelled at any await, and [dm_lost] (not a variable of the program) has
      the hrefs of the PUTs taken without an answer.
    - pysunspec2 is the class [Sunspec2]: points with a cached raw and scaled
      value, reads and writes that may fail.  The floats of [SunspecDevice] are
      exact rationals, with the overflow to infinity kept.  Text in the place of
      a number is not converted.
    - pydantic, the XML parsers of notifications, the clock and the sockets of
      DNS-SD are classes too ([Pydantic], [NotifyXml], [Python], [Network]).
      Addresses are their packed bytes, and a discovery's replies are given as
      the list of datagrams that arrive in its window.
    - A step of [NotifyServer] is what runs between two awaits; any order of
      steps may occur.  A start, a stop or a restart of [Coordinator] has no
      await in it.
    - A request passes the gate of a simulated outage in one step and is counted
      until it ends; arming waits for those under way.
    - A rediscovery knows which task called it: cancelling all polls cancels the
      caller when that is a poll.

    Fuel: [integrate] gets one round per interval, and [integrate_spec] shows
    that [rounds] are enough.  [renewal_task] takes the number of its rounds,
    since it runs until it is cancelled.  [rediscovery_loop] takes the number of
    passes that the source allows.  [wait_loop] takes the number of sleeps, and [timer_fires_on_time]
    gives a number that is enough.  [reserve] (waiting for another caller's
    POST) and [each_control] (iterating over a list that may grow during an
    await) take the environment's [patience]; when it is used up the handler
    is [Blocked], which stands for a coroutine that is still waiting.  The
    theorems hold for every patience, and [operations_return] shows that an
    undisturbed operation never gets there.  [read_name_loop] takes a number of
    rounds, and [read_name_bounded] shows that the one [read_name] gives it is
    enough for every message.  [with_retry] takes the number of attempts, and
    [retry_ends_within_allowance] shows that the sum of the two allowances is
    enough.  [clamp_loop], [strip] and [ndigits] of [Scaling] get a round per
    digit ([size]), which [float_to_int_accurate] relies on.  [get_pages] takes
    the number of requests, and [list_read_to_its_end] shows that one more than
    the items of the list is enough.  [decimal_at] of [SunspecConvert] gets 1100
    rounds, more than the places a finite float has.  The polls of an adopted
    curve are the rounds the source allows.  The loops over TXT records and over
    UTF-8 get the length of their input, of which every round takes some.

    ** What the theorems show

    - Under any interference that keeps it ([Evolution]): components stay
      well-formed, records keep their identity, what is recorded about devices
      only grows, nothing emitted is taken back, on every exception path.
    - Lifecycle ([Lifecycle]): scheduled, active, completed, or cancelled or
      superseded from a live state; terminal states are final for undisturbed
      operations, and a concrete interleaving shows where that ends.
    - Supersession equals the comparison of all pairs, and what each result
      says ([Supersession]).
    - Responses: under any interleaving, lost answers and pruning, posted again
      only when unacknowledged or forgotten, claims always released,
      termination ([ResponsePosters]); every dispatch failure has a code the
      server's edition knows, bitmaps are exact ([Response]); who is told what
      ([DispatchProps], [Endings], [Polls]).
    - Devices at the end of an event: modes held by others are spared, released
      modes are covered by a default or disabled ([FallbackProps], [Trackers]),
      down to the settings the device has acknowledged ([DeviceProps]).
    - The dispatcher refines the abstract device; nothing but what an action
      commands is written, a refused control writes nothing, a relay reaches
      each group of connectors once ([DeviceProps]); the translation is well
      typed ([Modes]).
    - The SunSpec connector, on a link that does not fail: a generation limit holds in watts whatever other
      limits do to the register it is a percentage of; limits that share registers
      leave the lowest in force and nothing else changed; WMax comes back as it
      was ([SunspecLimits]); on any link, a refused control has changed nothing ([SunspecProps]);
      readings of one read are distinct, and the parts of shared writes are the
      last accepted ones ([SunspecConvertProps]).
    - A connector is constructed once however many callers race for it, as long
      as none is cancelled ([Registry]).
    - The timebase agrees with a definition over the whole history of
      observations ([Timebase]); callbacks of one poll never overlap and a
      suppressed poll has a heartbeat, shutdown included: a [cancel_all] signals
      and, at some later time, clears ([Polling]); retries end ([Retry]).
    - Subscriptions: reconciliation leaves exactly the wanted ones that the
      server accepts, with no request too many; what a checkpoint restores
      ([SubscriptionProps]).  Rediscovery ends, and covers what arrives meanwhile
      ([NotificationProps]).  A suspended listener is quiet ([NotifyProps]).
    - Discovery finds exactly the programs the server assigns to each device, and
      its refreshes follow what the server lists, as far as it can be read
      ([WalkProps]).
    - Lost communications: the mode follows the contact, a simulated outage is
      silent once its requests have drained and always ends ([LinkProps]); a poll
      of the time reaches every scope and raises what the recovery must see
      ([RecoveryProps]).
    - Telemetry: a registration only grows, settles, and outside one profile an
      mRID stands for one ReadingType ([MirrorProps]); readings follow it and
      alarms are reported as they occur, over any cycles and answers
      ([MeteringProps]); a PUT is left out only when the server holds what it
      would carry or took an earlier one without an answer
      ([DerResourceProps]); numbers keep their value up to the last digit
      ([Scaling]); a DERStatus holds values of its schema only, what the
      SunSpec connector reads always makes a DERStatus and a DERCapability with
      the device's registers in them, and modes reported as enabled are reported
      as supported ([DerModelsProps]); a restart follows discovery
      ([CoordinatorProps]).  A list is read to its end ([Http]).
    - The energy history: while the queue drops no batch of it, no write fails
      and the limit has room, what a query returns is the integral of the
      readings, defined without buckets, batches and tables, and a query beside the
      recording and the writing counts every reading once ([HistoryProps]).
      The summary of an event tells the course its trail describes, and the
      writes listed for an event are those it applied or caused
      ([HistoryEventProps]).
    - Loss of communications, removal by the server, expiry on arrival,
      successive events ([CommsLoss], [Polls]).
    - Timing: randomization bounds and stability, timers ([Randomization],
      [Timers]).
    - Relay on change only ([Relay]); the device mapping ([Discovered]).
    - Every undisturbed operation returns, or raises for the one reason it is
      shown to have, the timer of a pruned event, and leaves nothing claimed
      ([Returns]).
    - Pricing: the interval in effect, each acknowledgement exactly once
      ([Tariff]).
    - DNS messages: what is encoded is decoded, and decoding ends within bounds
      on every input ([DnsWire]); a server that answers is found, whatever else
      arrives every server returned is usable, and the rate of the responder is
      bounded ([DnsSdProps]).

    These theorems pin down behaviour that is probably not intended:
    [wind_down_fallback_never_runs], [completed_then_cancelled],
    [default_withheld_after_primacy_rise], [completed_event_runs_again],
    [second_bitmap_modes_outlive_event], [cancelled_caller_constructs_twice],
    [clear_modes_matches_wrong_methods], [empty_walk_repeats],
    [backward_pointer_loops], [checkpoint_roundtrip] (its last part),
    [renumbering_loses_subscriptions], [subscription_expires_before_renewal],
    [rediscovery_undoes_cancellation], [cancelled_controls_not_polled],
    [rediscovery_from_poll_ends_polling], [probe_never_recovers],
    [float_multiplier_ignored], [small_floats_vanish],
    [signed_load_totals_share_mrid], [repeated_digit_loses_reading],
    [restart_after_reset_forgets], [lost_answer_leaves_old_settings],
    [stop_during_put_keeps_record], [rate_limited_write_not_retried],
    [fallback_programs_pruned], [unassigned_device_keeps_program],
    [curve_fault_withholds_controls], [unmapped_ref_type_accepted],
    [hostile_instance_aborts_discovery], [hostile_question_stops_responder],
    [announcement_not_counted], [infinite_status_stops_build],
    [xsi_type_never_rejects], [stop_leaves_handler_running],
    [rerun_summarized_as_nothing], [long_trail_stays_active] and
    [timer_of_pruned_event].

    ** Not modelled

    The generated XML binding and the XML layer, beyond the fields the parts above
    use; sessions, TLS and the exchange of a request; the command line, the REST
    API and configuration, which wire the parts together and check their inputs;
    the presentation of the energy history with its baselines; connectors other than the SunSpec one; the cycle of
    DERStatus, which PUTs what [DerModels] builds without a record; the contents
    of observer records; the client's start-up; sockets.  Log messages,
    diagnostics and the exceptions an audit sink could raise are left out.
    pysunspec2, pydantic, xsdata, lxml, aiohttp and SQLite are third-party code
    and enter as parameters where a part relies on them. *)

From stdpp Require Export base gmap strings list fin_maps sorting.
From Stdlib Require Export ZArith Lia.

#[global] Open Scope Z_scope.

(** ** Notation scope and hint databases of the development *)

Declare Scope py_scope.
Delimit Scope py_scope with py.

Create HintDb py.
Create HintDb guar.

(** Python [bytes] and [str] values.  Both are Rocq strings: a [string] is a
    sequence of 8-bit characters, so it is exactly a byte sequence. *)
Abbreviation bytes := string (only parsing).

(** ** Python dictionaries

    A Python [dict] iterates in insertion order, and the event engine depends
    on that order (supersession breaks ties by it), so a dictionary is an
    association list.  Updating a present key keeps its position; a new key
    goes last. *)

Abbreviation dict K V := (list (K * V)) (only parsing).

Section Dict.
Context {K V : Type} `{EqDecision K}.

Fixpoint dict_get (k : K) (d : dict K V) : option V :=
  match d with
  | [] => None
  | (k', v) :: d' => if decide (k = k') then Some v else dict_get k d'
  end.

Fixpoint dict_set (k : K) (v : V) (d : dict K V) : dict K V :=
  match d with
  | [] => [(k, v)]
  | (k', v') :: d' =>
      if decide (k = k') then (k', v) :: d' else (k', v') :: dict_set k v d'
  end.

Fixpoint dict_del (k : K) (d : dict K V) : dict K V :=
  match d with
  | [] => []
  | (k', v') :: d' =>
      if decide (k = k') then dict_del k d' else (k', v') :: dict_del k d'
  end.

Definition dict_keys (d : dict K V) : list K := d.*1.
Definition dict_values (d : dict K V) : list V := d.*2.

Definition dict_mem (k : K) (d : dict K V) : bool :=
  match dict_get k d with Some _ => true | None => false end.

(** [del d[k]]: raises [KeyError] ([None]) when the key is absent. *)
Definition dict_del_key (k : K) (d : dict K V) : option (dict K V) :=
  if dict_mem k d then Some (dict_del k d) else None.

Definition dict_wf (d : dict K V) : Prop := NoDup (dict_keys d).

Lemma dict_get_set (k k' : K) (v : V) (d : dict K V) :
  dict_get k' (dict_set k v d) = if decide (k' = k) then Some v else dict_get k' d.
Proof.
  induction d as [|[k0 v0] d IH]; simpl.
  - repeat case_decide; congruence.
  - repeat (case_decide; simpl); try congruence; rewrite IH; case_decide; congruence.
Qed.

Lemma dict_get_set_eq (k : K) (v : V) (d : dict K V) : dict_get k (dict_set k v d) = Some v.
Proof. rewrite dict_get_set. by case_decide. Qed.

Lemma dict_get_set_ne (k k' : K) (v : V) (d : dict K V) :
  k' ≠ k → dict_get k' (dict_set k v d) = dict_get k' d.
Proof. intros. rewrite dict_get_set. by case_decide. Qed.

Lemma dict_get_del (k k' : K) (d : dict K V) :
  dict_get k' (dict_del k d) = if decide (k' = k) then None else dict_get k' d.
Proof.
  induction d as [|[k0 v0] d IH]; simpl.
  - by case_decide.
  - repeat (case_decide; simpl); try congruence; rewrite ?IH; repeat case_decide; congruence.
Qed.

Lemma dict_get_None (k : K) (d : dict K V) : dict_get k d = None ↔ k ∉ dict_keys d.
Proof.
  unfold dict_keys. induction d as [|[k0 v0] d IH]; simpl.
  - split; [intros _; apply not_elem_of_nil | done].
  - rewrite not_elem_of_cons, <- IH. destruct (decide (k = k0)); intuition congruence.
Qed.

Lemma dict_get_elem (k : K) (v : V) (d : dict K V) : dict_get k d = Some v → (k, v) ∈ d.
Proof.
  induction d as [|[k0 v0] d IH]; simpl; [done|].
  case_decide; intros; simplify_eq; [left | right; auto].
Qed.

Lemma dict_elem_get (k : K) (v : V) (d : dict K V) :
  dict_wf d → (k, v) ∈ d → dict_get k d = Some v.
Proof.
  unfold dict_wf, dict_keys. induction d as [|[k0 v0] d IH]; simpl.
  - by rewrite elem_of_nil.
  - rewrite NoDup_cons, elem_of_cons. intros [Hn Hd] [?|Hin]; simplify_eq; case_decide;
      simplify_eq; auto.
    exfalso. apply Hn. apply list_elem_of_fmap. by exists (k0, v).
Qed.

Lemma dict_mem_spec (k : K) (d : dict K V) : dict_mem k d = true ↔ k ∈ dict_keys d.
Proof.
  unfold dict_mem. pose proof (dict_get_None k d) as H.
  destruct (dict_get k d) eqn:E; split; try done.
  - intros _. apply dict_get_elem in E. apply list_elem_of_fmap. by exists (k, v).
  - intros Hin. exfalso. by apply H.
Qed.

Lemma dict_set_keys (k : K) (v : V) (d : dict K V) :
  dict_keys (dict_set k v d) = if dict_mem k d then dict_keys d else dict_keys d ++ [k].
Proof.
  unfold dict_mem, dict_keys. induction d as [|[k0 v0] d IH]; [done|]. cbn.
  case_decide; cbn; [done|]. f_equal. rewrite IH. by destruct (dict_get k d).
Qed.

Lemma dict_set_wf (k : K) (v : V) (d : dict K V) : dict_wf d → dict_wf (dict_set k v d).
Proof.
  unfold dict_wf. rewrite dict_set_keys. destruct (dict_mem k d) eqn:E; [done|].
  intros H. apply NoDup_app. split; [done|]. split.
  - intros x Hx ->%list_elem_of_singleton. apply dict_mem_spec in Hx. congruence.
  - apply NoDup_singleton.
Qed.

Lemma dict_keys_sublist (d d' : dict K V) :
  sublist d d' → sublist (dict_keys d) (dict_keys d').
Proof. unfold dict_keys. induction 1; cbn; by constructor. Qed.

Lemma dict_del_sublist (k : K) (d : dict K V) : sublist (dict_del k d) d.
Proof. induction d as [|[k0 v0] d IH]; simpl; [done|]. case_decide; by constructor. Qed.

Lemma dict_del_wf (k : K) (d : dict K V) : dict_wf d → dict_wf (dict_del k d).
Proof. intros H. eapply sublist_NoDup; [exact H|]. apply dict_keys_sublist, dict_del_sublist. Qed.

Lemma dict_del_keys (k k' : K) (d : dict K V) :
  k' ∈ dict_keys (dict_del k d) ↔ k' ∈ dict_keys d ∧ k' ≠ k.
Proof.
  unfold dict_keys. induction d as [|[k0 v0] d IH]; simpl.
  - rewrite elem_of_nil. naive_solver.
  - case_decide; simpl; rewrite !elem_of_cons, IH; naive_solver.
Qed.

Lemma dict_set_elem (k k' : K) (v v' : V) (d : dict K V) :
  (k', v') ∈ dict_set k v d → (k', v') = (k, v) ∨ (k', v') ∈ d.
Proof.
  induction d as [|[k0 v0] d IH]; simpl.
  - intros ?%list_elem_of_singleton. by left.
  - case_decide; rewrite !elem_of_cons; naive_solver.
Qed.

Lemma dict_del_elem (k k' : K) (v : V) (d : dict K V) :
  (k', v) ∈ dict_del k d ↔ (k', v) ∈ d ∧ k' ≠ k.
Proof.
  induction d as [|[k0 v0] d IH]; simpl.
  - rewrite elem_of_nil. naive_solver.
  - case_decide; rewrite ?elem_of_cons, IH, ?elem_of_cons; naive_solver.
Qed.

Lemma dict_set_new_elem (k k' : K) (v v' : V) (d : dict K V) :
  k ∉ dict_keys d → (k', v') ∈ dict_set k v d ↔ (k', v') ∈ d ∨ (k' = k ∧ v' = v).
Proof.
  unfold dict_keys. induction d as [|[k0 v0] d IH]; simpl; intros Hf.
  - rewrite list_elem_of_singleton, elem_of_nil. naive_solver.
  - apply not_elem_of_cons in Hf as [Hne Hf].
    rewrite decide_False by done. rewrite !elem_of_cons, IH by done. naive_solver.
Qed.

Lemma dict_set_new (k : K) (v : V) (d : dict K V) : k ∉ dict_keys d → dict_set k v d = d ++ [(k, v)].
Proof.
  unfold dict_keys. induction d as [|[k0 v0] d IH]; simpl; intros Hf; [done|].
  apply not_elem_of_cons in Hf as [Hne Hf]. rewrite decide_False by done. by rewrite IH.
Qed.

(** One entry of a dict changes. *)
Lemma dict_middle (a b : dict K V) (k : K) (v v' : V) :
  dict_wf (a ++ (k, v) :: b) →
  dict_get k (a ++ (k, v) :: b) = Some v ∧ dict_set k v' (a ++ (k, v) :: b) = a ++ (k, v') :: b.
Proof.
  unfold dict_wf, dict_keys. induction a as [|[k0 v0] a IH]; simpl.
  - intros _. by rewrite !decide_True by done.
  - intros [Hk Hnd]%NoDup_cons. assert (k ≠ k0) as Hne.
    { intros ->. apply Hk. rewrite fmap_app. apply elem_of_app. right. by left. }
    rewrite !decide_False by done. by destruct (IH Hnd) as [-> ->].
Qed.

Lemma dict_filter_wf (P : K * V → Prop) `{∀ x, Decision (P x)} (d : dict K V) :
  dict_wf d → dict_wf (filter P d).
Proof. intros H'. eapply sublist_NoDup; [exact H'|]. apply dict_keys_sublist, sublist_filter. Qed.
End Dict.

Lemma elem_of_dict_set_keys {K V} `{EqDecision K} (k k' : K) (v : V) (d : dict K V) :
  k' ∈ dict_keys (dict_set k v d) ↔ k' = k ∨ k' ∈ dict_keys d.
Proof.
  rewrite dict_set_keys. destruct (dict_mem k d) eqn:E.
  - apply dict_mem_spec in E. naive_solver.
  - rewrite elem_of_app, list_elem_of_singleton. naive_solver.
Qed.

Arguments dict_keys : simpl never.
Arguments dict_values : simpl never.
Arguments dict_mem : simpl never.
Arguments dict_get : simpl never.
Arguments dict_set : simpl never.
Arguments dict_del : simpl never.

#[export] Hint Resolve dict_set_wf dict_del_wf dict_filter_wf : py.

Lemma Forall_filter_keep {A} (P Q : A → Prop) `{∀ x, Decision (Q x)} (l : list A) :
  Forall P l → Forall P (filter Q l).
Proof. rewrite !Forall_forall. intros Hl x [_ Hx]%list_elem_of_filter. auto. Qed.

Lemma filter_none {A} (P : A → Prop) `{∀ x, Decision (P x)} (l : list A) :
  (∀ x, x ∈ l → ¬ P x) → filter P l = [].
Proof.
  induction l as [|x l IH]; intros Hl; [done|]. rewrite filter_cons, decide_False.
  - apply IH. intros y Hy. apply Hl. by right.
  - apply Hl. left.
Qed.

Lemma filter_all {A} (P : A → Prop) `{∀ x, Decision (P x)} (l : list A) :
  (∀ x, x ∈ l → P x) → filter P l = l.
Proof.
  induction l as [|x l IH]; intros Hl; [done|]. rewrite filter_cons, decide_True.
  - f_equal. apply IH. intros y Hy. apply Hl. by right.
  - apply Hl. left.
Qed.

(** ** The error-state monad

    A Python coroutine that reads and mutates shared objects and may raise: it
    maps a state to a raised exception or a value, and the state it leaves
    behind.  A raise keeps the mutations made before it, as in Python. *)

Definition Comp (E S A : Type) : Type := S → (E + A) * S.

Definition ret {E S A} (a : A) : Comp E S A := λ s, (inr a, s).
Definition raise {E S A} (e : E) : Comp E S A := λ s, (inl e, s).
Definition bind {E S A B} (m : Comp E S A) (f : A → Comp E S B) : Comp E S B :=
  λ s, match m s with
       | (inl e, s') => (inl e, s')
       | (inr a, s') => f a s'
       end.
Definition get {E S A} (f : S → A) : Comp E S A := λ s, (inr (f s), s).
Definition modify {E S} (f : S → S) : Comp E S unit := λ s, (inr tt, f s).

Notation "x <- m ;; k" := (bind m (λ x, k))
  (at level 91, m at next level, right associativity) : py_scope.
Notation "m ;;; k" := (bind m (λ _, k)) (at level 91, right associativity) : py_scope.

#[global] Open Scope py_scope.

Definition when {E S} (b : bool) (m : Comp E S unit) : Comp E S unit :=
  if b then m else ret tt.

(** [for x in l: f(x)], for a loop body that does not leave the function. *)
Fixpoint for_each {E S A} (l : list A) (f : A → Comp E S unit) : Comp E S unit :=
  match l with
  | [] => ret tt
  | x :: l' => f x ;;; for_each l' f
  end.

(** The list [[f(x) for x in l]]. *)
Fixpoint map_each {E S A B} (l : list A) (f : A → Comp E S B) : Comp E S (list B) :=
  match l with
  | [] => ret []
  | x :: l' => y <- f x ;; ys <- map_each l' f ;; ret (y :: ys)
  end.

(** A loop whose body may [return] from the function: [true] means returned. *)
Fixpoint for_until {E S A} (l : list A) (f : A → Comp E S bool) : Comp E S bool :=
  match l with
  | [] => ret false
  | x :: l' => stop <- f x ;; if (stop : bool) then ret true else for_until l' f
  end.

(** ** Guarantees

    [guar R m]: whatever state [m] starts in, the state it leaves (normally or
    by a raise) is related to it by [R].  For a preorder [R] this composes, so
    a guarantee of a whole handler is assembled from its statements'. *)

Definition guar {E S A} (R : relation S) (m : Comp E S A) : Prop := ∀ s, R s (m s).2.

Section Guar.
Context {E S : Type} (R : relation S) `{!PreOrder R}.

Lemma guar_ret {A} (a : A) : guar R (ret a : Comp E S A).
Proof. intros s. simpl. reflexivity. Qed.

Lemma guar_raise {A} (e : E) : guar R (raise e : Comp E S A).
Proof. intros s. simpl. reflexivity. Qed.

Lemma guar_get {A} (f : S → A) : guar R (get f : Comp E S A).
Proof. intros s. simpl. reflexivity. Qed.

Lemma guar_bind {A B} (m : Comp E S A) (f : A → Comp E S B) :
  guar R m → (∀ a, guar R (f a)) → guar R (bind m f).
Proof.
  intros Hm Hf s. unfold bind. specialize (Hm s). destruct (m s) as [[e|a] s']; simpl in *.
  - done.
  - etrans; [exact Hm | apply Hf].
Qed.

Lemma guar_modify (f : S → S) : (∀ s, R s (f s)) → guar R (modify f : Comp E S unit).
Proof. intros H s. apply H. Qed.

Lemma guar_when (b : bool) (m : Comp E S unit) : guar R m → guar R (when b m).
Proof. destruct b; [done|]. intros _. apply guar_ret. Qed.

Lemma guar_for_each {A} (l : list A) (f : A → Comp E S unit) :
  (∀ x, x ∈ l → guar R (f x)) → guar R (for_each l f).
Proof.
  induction l as [|x l IH]; intros H; simpl; [apply guar_ret|].
  apply guar_bind; [apply H; left | intros _; apply IH; intros; apply H; by right].
Qed.

Lemma guar_map_each {A B} (l : list A) (f : A → Comp E S B) :
  (∀ x, x ∈ l → guar R (f x)) → guar R (map_each l f).
Proof.
  induction l as [|x l IH]; intros H; simpl; [apply guar_ret|].
  apply guar_bind; [apply H; left | intros y].
  apply guar_bind; [apply IH; intros; apply H; by right | intros; apply guar_ret].
Qed.

Lemma guar_for_until {A} (l : list A) (f : A → Comp E S bool) :
  (∀ x, x ∈ l → guar R (f x)) → guar R (for_until l f).
Proof.
  induction l as [|x l IH]; intros H; simpl; [apply guar_ret|].
  apply guar_bind; [apply H; left | intros [|]; [apply guar_ret|]].
  apply IH; intros; apply H; by right.
Qed.
End Guar.

(** [guar_bind] from one starting state, for a first statement that is only
    known to behave there. *)
Lemma guar_bind_from {E S A B} (R : relation S) `{!PreOrder R} (m : Comp E S A)
    (f : A → Comp E S B) (s : S) :
  R s (m s).2 → (∀ a, guar R (f a)) → R s (bind m f s).2.
Proof.
  intros Hm Hf. unfold bind. destruct (m s) as [[e|a] s']; cbn in *; [done|].
  etrans; [exact Hm|apply Hf].
Qed.

(** The same, keeping how the first statement ended. *)
Lemma rel_bind {E S A B} (R : relation S) `{!PreOrder R} (m : Comp E S A) (f : A → Comp E S B)
    (s : S) :
  R s (m s).2 → (∀ a s1, m s = (inr a, s1) → R s1 (f a s1).2) → R s (bind m f s).2.
Proof.
  intros Hm Hf. unfold bind. destruct (m s) as [[e|a] s'] eqn:E'; cbn in *; [done|].
  etrans; [exact Hm|by apply Hf].
Qed.

(** A sequence returns when both of its parts do. *)
Lemma bind_inr {E S A B} (m : Comp E S A) (f : A → Comp E S B) (s s' : S) (b : B) :
  bind m f s = (inr b, s') ↔ ∃ a s1, m s = (inr a, s1) ∧ f a s1 = (inr b, s').
Proof.
  unfold bind. destruct (m s) as [[e|a] s1]; split; [done|naive_solver|eauto|].
  intros (a' & s1' & [= <- <-] & H). done.
Qed.

(** A loop from [s], whose iterations start in states related to [s]. *)
Lemma rel_for_each {E S A} (R : relation S) `{!PreOrder R} (l : list A) (f : A → Comp E S unit)
    (s : S) :
  (∀ x s1, x ∈ l → R s s1 → R s1 (f x s1).2) → R s (for_each l f s).2.
Proof.
  assert (∀ s0, R s s0 → (∀ x s1, x ∈ l → R s s1 → R s1 (f x s1).2) → R s0 (for_each l f s0).2)
    as H; [|by apply H].
  induction l as [|x l IH]; intros s0 H0 Hf; cbn [for_each ret snd]; [done|].
  apply rel_bind; [done|apply Hf; [left|done]|]. intros [] s1 H1.
  apply IH; [|intros y s2 Hy; apply Hf; by right].
  etrans; [exact H0|]. specialize (Hf x s0 ltac:(left) H0). by rewrite H1 in Hf.
Qed.

(** What each iteration of a finished loop established, and [R] keeps, holds at
    its end. *)
Lemma map_each_post {E S A B} (R : relation S) `{!PreOrder R} (P : A → S → Prop) (l : list A)
    (f : A → Comp E S B) (s s' : S) (ys : list B) :
  (∀ x, guar R (f x)) → (∀ x s1 s2, R s1 s2 → P x s1 → P x s2) →
  (∀ x s1 y s2, x ∈ l → R s s1 → f x s1 = (inr y, s2) → P x s2) →
  map_each l f s = (inr ys, s') → ∀ x, x ∈ l → P x s'.
Proof.
  intros Hg Hk Hp.
  assert (∀ s0 ys, R s s0 → map_each l f s0 = (inr ys, s') → ∀ x, x ∈ l → P x s') as H; [|by apply H].
  induction l as [|x l IH]; intros s0 zs H0 Hrun y Hy; [by apply elem_of_nil in Hy|].
  cbn [map_each] in Hrun. unfold bind in Hrun.
  destruct (f x s0) as [[e|b] s1] eqn:H1; [done|].
  assert (R s0 s1) as H01 by (specialize (Hg x s0); by rewrite H1 in Hg).
  destruct (map_each l f s1) as [[e|bs] s2] eqn:H2; [done|]. injection Hrun as _ <-.
  apply elem_of_cons in Hy as [->|Hy].
  - eapply Hk; [|eapply Hp; [left|exact H0|exact H1]].
    pose proof (guar_map_each R l f (λ x _, Hg x) s1) as Hm. by rewrite H2 in Hm.
  - eapply (IH ltac:(intros; eapply Hp; [by right|done..]) s1); [by etrans|done..].
Qed.

Lemma map_each_length {E S A B} (l : list A) (f : A → Comp E S B) (s s' : S) (ys : list B) :
  map_each l f s = (inr ys, s') → length ys = length l.
Proof.
  revert s s' ys. induction l as [|x l IH]; intros s s' ys; cbn [map_each]; [by intros [= <- <-]|].
  unfold bind. destruct (f x s) as [[e|b] s1]; [done|].
  destruct (map_each l f s1) as [[e|bs] s2] eqn:H2; [done|]. intros [= <- <-]. cbn. f_equal. by eapply IH.
Qed.

Lemma guar_end {E S A} (R : relation S) (m : Comp E S A) s a s1 :
  guar R m → m s = (inr a, s1) → R s s1.
Proof. intros Hm Hs. specialize (Hm s). by rewrite Hs in Hm. Qed.

Lemma guar_mono {E S A} (R R' : relation S) (m : Comp E S A) :
  (∀ s s', R s s' → R' s s') → guar R m → guar R' m.
Proof. intros H Hm s. apply H, Hm. Qed.

(** One structural step of a guarantee proof; leaves come from the database. *)
Ltac guar_step :=
  match goal with
  | |- guar _ (bind _ _) => apply guar_bind; [apply _| |intro]
  | |- guar _ (ret _) => apply guar_ret; apply _
  | |- guar _ (raise _) => apply guar_raise; apply _
  | |- guar _ (get _) => apply guar_get; apply _
  | |- guar _ (when _ _) => apply guar_when; [apply _|]
  | |- guar _ (for_each _ _) => apply guar_for_each; [apply _|intros ? _]
  | |- guar _ (map_each _ _) => apply guar_map_each; [apply _|intros ? _]
  | |- guar _ (for_until _ _) => apply guar_for_until; [apply _|intros ? _]
  | |- guar _ (match ?x with _ => _ end) => destruct x
  | |- guar _ _ => solve [eauto with guar typeclass_instances]
  end.
Ltac guar_auto := intros; repeat guar_step.

(** ** Bytes as numbers

    A byte is a [Z] in [0, 256).  [be_bytes n z] is [z.to_bytes(n, "big")] for
    a [z] in range, [be_int] is [int.from_bytes(_, "big")]. *)

Definition is_byte (b : Z) : Prop := 0 <= b < 256.

Fixpoint be_bytes (n : nat) (z : Z) : list Z :=
  match n with
  | O => []
  | S n' => Z.shiftr z (8 * Z.of_nat n') `mod` 256 :: be_bytes n' z
  end.

Definition be_int (l : list Z) : Z := foldl (λ acc b, acc * 256 + b) 0 l.

Lemma length_be_bytes (n : nat) (z : Z) : length (be_bytes n z) = n.
Proof. induction n; simpl; congruence. Qed.

Lemma be_bytes_is_byte (n : nat) (z : Z) : Forall is_byte (be_bytes n z).
Proof.
  induction n; simpl; constructor; [|done]. unfold is_byte. apply Z.mod_pos_bound. lia.
Qed.

Lemma foldl_be_int (l : list Z) (a : Z) :
  foldl (λ acc b, acc * 256 + b) a l = a * 256 ^ Z.of_nat (length l) + be_int l.
Proof.
  unfold be_int. revert a. induction l as [|b l IH]; intros a; simpl foldl.
  - simpl. lia.
  - rewrite IH, (IH (0 * 256 + b)). simpl length. rewrite Nat2Z.inj_succ, Z.pow_succ_r by lia. lia.
Qed.

Lemma be_int_cons (b : Z) (l : list Z) :
  be_int (b :: l) = b * 256 ^ Z.of_nat (length l) + be_int l.
Proof. unfold be_int at 1. simpl foldl. apply foldl_be_int. Qed.

Lemma be_int_be_bytes_mod (n : nat) (z : Z) :
  be_int (be_bytes n z) = z `mod` 256 ^ Z.of_nat n.
Proof.
  induction n as [|n IH].
  - simpl. change (256 ^ Z.of_nat 0) with 1. by rewrite Z.mod_1_r.
  - simpl be_bytes. rewrite be_int_cons, length_be_bytes, IH.
    rewrite Z.shiftr_div_pow2 by lia.
    replace (2 ^ (8 * Z.of_nat n)) with (256 ^ Z.of_nat n)
      by (rewrite Z.pow_mul_r by lia; done).
    rewrite Nat2Z.inj_succ, Z.pow_succ_r by lia.
    assert (0 < 256 ^ Z.of_nat n) by (apply Z.pow_pos_nonneg; lia).
    rewrite (Z.mul_comm 256), Z.rem_mul_r by lia. lia.
Qed.

Lemma be_int_be_bytes (n : nat) (z : Z) :
  0 <= z < 256 ^ Z.of_nat n → be_int (be_bytes n z) = z.
Proof. intros. rewrite be_int_be_bytes_mod. by apply Z.mod_small. Qed.

(** ** Folds that set bits

    [bitmask |= 1 << pos] over the entries of a table that a test selects. *)

Definition bits_of (l : list Z) : Z := foldr (λ b m, Z.lor (Z.shiftl 1 b) m) 0 l.

Lemma testbit_bits_of (l : list Z) (i : Z) :
  Forall (λ b, 0 <= b) l → 0 <= i → Z.testbit (bits_of l) i = bool_decide (i ∈ l).
Proof.
  induction 1 as [|b l Hb Hl IH]; intros Hi; cbn [bits_of foldr].
  - rewrite Z.bits_0. symmetry. apply bool_decide_eq_false, not_elem_of_nil.
  - fold (bits_of l). rewrite Z.lor_spec, IH by done.
    rewrite Z.shiftl_spec by done.
    destruct (decide (i = b)) as [->|Hne].
    + rewrite Z.sub_diag. simpl. symmetry. apply bool_decide_eq_true. left.
    + replace (Z.testbit 1 (i - b)) with false.
      * simpl. apply bool_decide_ext. rewrite elem_of_cons. naive_solver.
      * symmetry. destruct (Z.lt_ge_cases i b) as [Hlt|Hge].
        -- apply Z.testbit_neg_r. lia.
        -- change 1 with (2 ^ 0). apply Z.pow2_bits_false. lia.
Qed.

Lemma bits_of_bound (l : list Z) (n : Z) :
  0 <= n → Forall (λ b, 0 <= b < n) l → 0 <= bits_of l < 2 ^ n.
Proof.
  intros Hn. induction 1 as [|b l Hb Hl IH]; cbn [bits_of foldr].
  - split; [lia | apply Z.pow_pos_nonneg; lia].
  - fold (bits_of l). rewrite Z.shiftl_1_l.
    assert (2 ^ b < 2 ^ n) by (apply Z.pow_lt_mono_r; lia).
    assert (0 < 2 ^ b) by (apply Z.pow_pos_nonneg; lia).
    split; [apply Z.lor_nonneg; lia|].
    destruct (Z.eq_dec (Z.lor (2 ^ b) (bits_of l)) 0) as [->|Hne]; [lia|].
    apply Z.log2_lt_pow2; [|].
    + assert (0 <= Z.lor (2 ^ b) (bits_of l)) by (apply Z.lor_nonneg; lia). lia.
    + rewrite Z.log2_lor by lia. apply Z.max_lub_lt.
      * by apply Z.log2_lt_pow2.
      * destruct (Z.eq_dec (bits_of l) 0) as [->|]; [simpl; lia|].
        apply Z.log2_lt_pow2; lia.
Qed.

Lemma land_bound (a b n : Z) : 0 <= n → 0 <= a < 2 ^ n → 0 <= b → 0 <= Z.land a b < 2 ^ n.
Proof.
  intros Hn Ha Hb. assert (0 <= Z.land a b) by (apply Z.land_nonneg; lia). split; [done|].
  destruct (Z.eq_dec (Z.land a b) 0) as [->|Hne]; [lia|].
  destruct (Z.eq_dec a 0) as [->|Ha0]; [by rewrite Z.land_0_l in Hne|].
  apply Z.log2_lt_pow2; [lia|].
  eapply Z.le_lt_trans; [apply Z.log2_land; lia|].
  apply Z.min_lt_iff. left. apply Z.log2_lt_pow2; lia.
Qed.

(** ** Hexadecimal text: [bytes.hex()] *)

Definition hex_digit (n : nat) : Ascii.ascii :=
  Ascii.ascii_of_nat (if (n <? 10)%nat then 48 + n else 87 + n)%nat.

Fixpoint hex (b : bytes) : string :=
  match b with
  | EmptyString => EmptyString
  | String c b' =>
      let n := Ascii.nat_of_ascii c in
      String (hex_digit (n / 16)) (String (hex_digit (n mod 16)) (hex b'))
  end.

(** [sorted] on text. *)
Definition string_le (a b : string) : Prop := String.leb a b = true.

#[export] Instance string_le_dec a b : Decision (string_le a b).
Proof. unfold string_le. apply _. Defined.

Definition sorted_strings (l : list string) : list string := merge_sort string_le l.

(** [dict.fromkeys(l)]: each entry once, in order of first appearance. *)
Fixpoint unique (l : list string) : list string :=
  match l with
  | [] => []
  | x :: l' => x :: filter (λ y, y ≠ x) (unique l')
  end.

Lemma elem_of_unique (x : string) (l : list string) : x ∈ unique l ↔ x ∈ l.
Proof.
  induction l as [|y l IH]; cbn; [done|].
  rewrite !elem_of_cons, list_elem_of_filter, IH. destruct (decide (x = y)); naive_solver.
Qed.

Lemma NoDup_unique (l : list string) : NoDup (unique l).
Proof.
  induction l as [|y l IH]; cbn; [constructor|]. constructor; [|by apply NoDup_filter].
  rewrite list_elem_of_filter. naive_solver.
Qed.
