(* ===== verification/Controls.v ===== *)
(** * The DERControl data the event engine reads

    - the CSIP-AUS envelope limits carried as extension elements
      (models/csipaus/elements.py);
    - [DERControlBase], [DERControl] and [DefaultDERControl] as the engine sees
      them (models/sep/sep.py);
    - the mode tables and bitmaps of events/modes_bitmask.py;
    - [compared_mode_keys] of events/supersession.py and [_default_without] of
      events/processor.py, which both work on the base's modes. *)

From S2P Require Import Prelude.
From Stdlib Require Import Ascii.

(** ** Reading integers from text: Python's [int(raw.strip())] on ASCII text *)

Definition is_space (c : ascii) : bool :=
  let n := nat_of_ascii c in
  ((9 <=? n) && (n <=? 13) || (28 <=? n) && (n <=? 32))%nat.

Fixpoint lstrip (s : string) : string :=
  match s with
  | EmptyString => EmptyString
  | String c s' => if is_space c then lstrip s' else s
  end.

Fixpoint string_rev (s acc : string) : string :=
  match s with
  | EmptyString => acc
  | String c s' => string_rev s' (String c acc)
  end.

Definition strip (s : string) : string :=
  string_rev (lstrip (string_rev (lstrip s) EmptyString)) EmptyString.

Definition digit_of (c : ascii) : option Z :=
  let n := Z.of_nat (nat_of_ascii c) in
  if (48 <=? n) && (n <=? 57) then Some (n - 48) else None.

(** The digits of a literal; one underscore may stand between two digits. *)
Fixpoint digits_value (acc : Z) (after_digit : bool) (s : string) : option Z :=
  match s with
  | EmptyString => if after_digit then Some acc else None
  | String c s' =>
      match digit_of c with
      | Some d => digits_value (acc * 10 + d) true s'
      | None => if Ascii.eqb c "_"%char && after_digit then digits_value acc false s' else None
      end
  end.

Definition py_int (s : string) : option Z :=
  match strip s with
  | String "+"%char s' => digits_value 0 false s'
  | String "-"%char s' => Z.opp <$> digits_value 0 false s'
  | s' => digits_value 0 false s'
  end.

(** ** CSIP-AUS envelope limits *)

Definition DOE_LIMIT_NAMES : list string :=
  ["opModExpLimW"; "opModImpLimW"; "opModGenLimW"; "opModLoadLimW"].

(** A child of a generic element: its qualified name and its text. *)
Record ElementChild := { child_qname : option string; child_text : option string }.

(** An entry of [other_element]: a typed limit model (its [Meta.name], value and
    multiplier) or a generic element (a qualified name and children). *)
Inductive Element :=
  | TypedElement (meta_name : option string) (value : option Z) (multiplier : option Z)
  | AnyElement (qname : option string) (children : list ElementChild).

(** The part of a string after its last ["}"]. *)
Fixpoint after_last_brace (s best : string) : string :=
  match s with
  | EmptyString => best
  | String c s' => after_last_brace s' (if Ascii.eqb c "}"%char then s' else best)
  end.

Definition local_name (qname : option string) : option string :=
  q ← qname; Some (after_last_brace q q).

Definition doe_element_name (elem : Element) : option string :=
  match elem with
  | TypedElement name _ _ => name
  | AnyElement qname _ => local_name qname
  end.

(** The loop over the children of a generic element. *)
Definition read_child (found : option Z * Z) (child : ElementChild) : option Z * Z :=
  match t ← child_text child; py_int t with
  | None => found
  | Some number =>
      match local_name (child_qname child) with
      | Some "value" => (Some number, found.2)
      | Some "multiplier" => (found.1, number)
      | _ => found
      end
  end.

Definition doe_value_multiplier (elem : Element) : option (Z * Z) :=
  match elem with
  | TypedElement _ (Some v) m => Some (v, default 0 m)
  | TypedElement _ None _ => None
  | AnyElement _ children =>
      match foldl read_child (None, 0) children with
      | (Some v, m) => Some (v, m)
      | (None, _) => None
      end
  end.

(** ** DERControlBase *)

(** A parsed value that is not [None]: the engine tests presence only, the
    connectors receive its content ([Modes]).  [FModel] is an object of the
    generated binding: its type and its attributes that are not [None]. *)
Inductive FieldVal :=
  | FBool (b : bool)
  | FInt (z : Z)
  | FStr (s : string)
  | FBytes (b : bytes)
  | FList (l : list FieldVal)
  | FModel (type_name : string) (attrs : list (string * FieldVal)).

(** [base_fields] holds the fields that are not [None]. *)
Record DercontrolBase := {
  base_fields : dict string FieldVal;
  other_element : list Element;
}.

#[export] Instance FieldVal_eq_dec : EqDecision FieldVal.
Proof.
  unfold EqDecision, Decision. fix IH 1. intros x y.
  assert (∀ a b : list FieldVal, {a = b} + {a ≠ b}) as IHl
    by (fix IHl 1; intros [|u a] [|v b]; [by left|by right|by right|];
        destruct (IH u v), (IHl a b); [left|right|right|right]; congruence).
  assert (∀ a b : list (string * FieldVal), {a = b} + {a ≠ b}) as IHa
    by (fix IHa 1; intros [|[n u] a] [|[m v] b]; [by left|by right|by right|];
        destruct (decide (n = m)), (IH u v), (IHa a b); (left; congruence) || (right; congruence)).
  destruct x as [b|z|s|b|l|n a], y as [b'|z'|s'|b'|l'|n' a']; try (right; discriminate).
  - destruct (decide (b = b')); [left|right]; congruence.
  - destruct (decide (z = z')); [left|right]; congruence.
  - destruct (decide (s = s')); [left|right]; congruence.
  - destruct (decide (b = b')); [left|right]; congruence.
  - destruct (IHl l l'); [left|right]; congruence.
  - destruct (decide (n = n')), (IHa a a'); [left|right|right|right]; congruence.
Defined.
#[export] Instance ElementChild_eq_dec : EqDecision ElementChild.
Proof. solve_decision. Defined.
#[export] Instance Element_eq_dec : EqDecision Element.
Proof. solve_decision. Defined.
#[export] Instance DercontrolBase_eq_dec : EqDecision DercontrolBase.
Proof. solve_decision. Defined.

(** [getattr(base, name, None) is not None] *)
Definition has_field (base : DercontrolBase) (name : string) : bool :=
  dict_mem name (base_fields base).

(** [DercontrolBase.model_fields], in declaration order. *)
Definition DercontrolBase_model_fields : list string :=
  ["op_mod_connect"; "op_mod_delta_var"; "op_mod_delta_w"; "op_mod_energize";
   "op_mod_fixed_pfabsorb_w"; "op_mod_fixed_pfinject_w"; "op_mod_fixed_v"; "op_mod_fixed_var";
   "op_mod_fixed_w"; "op_mod_freq_droop"; "op_mod_freq_watt"; "op_mod_grid_connect_permit";
   "op_mod_hfrtmay_trip"; "op_mod_hfrtmust_trip"; "op_mod_hvrtmay_trip";
   "op_mod_hvrtmomentary_cessation"; "op_mod_hvrtmust_trip"; "op_mod_island_permit";
   "op_mod_lfrtmay_trip"; "op_mod_lfrtmust_trip"; "op_mod_lvrtmay_trip";
   "op_mod_lvrtmomentary_cessation"; "op_mod_lvrtmust_trip"; "op_mod_max_lim_pct_vaabsorb";
   "op_mod_max_lim_pct_vainject"; "op_mod_max_lim_pct_var_absorb";
   "op_mod_max_lim_pct_var_inject"; "op_mod_max_lim_pct_wabsorb"; "op_mod_max_lim_var_absorb";
   "op_mod_max_lim_var_inject"; "op_mod_max_lim_w"; "op_mod_max_lim_wabsorb";
   "op_mod_max_lim_winject"; "op_mod_target_v"; "op_mod_target_var"; "op_mod_target_w";
   "op_mod_volt_var"; "op_mod_volt_watt"; "op_mod_watt_pf"; "op_mod_watt_var"; "ramp_tms";
   "dercontrol_base_r2_3"; "other_element"; "any_attributes"].

(** Every limit a base carries, by element name; a repeated name keeps the last. *)
Definition add_limit (out : dict string (Z * Z)) (elem : Element) : dict string (Z * Z) :=
  match doe_element_name elem with
  | Some name =>
      if decide (name ∈ DOE_LIMIT_NAMES) then
        match doe_value_multiplier elem with
        | Some vm => dict_set name vm out
        | None => out
        end
      else out
  | None => out
  end.

Definition doe_limits (base : DercontrolBase) : dict string (Z * Z) :=
  foldl add_limit [] (other_element base).

(** ** The mode tables and bitmaps *)

Definition FIELD_TO_BIT : dict string Z :=
  [("op_mod_connect", 2); ("op_mod_energize", 3); ("op_mod_fixed_pfabsorb_w", 4);
   ("op_mod_fixed_pfinject_w", 5); ("op_mod_fixed_var", 6); ("op_mod_fixed_w", 7);
   ("op_mod_freq_droop", 8); ("op_mod_freq_watt", 9); ("op_mod_hfrtmay_trip", 10);
   ("op_mod_hfrtmust_trip", 11); ("op_mod_hvrtmay_trip", 12);
   ("op_mod_hvrtmomentary_cessation", 13); ("op_mod_hvrtmust_trip", 14);
   ("op_mod_lfrtmay_trip", 15); ("op_mod_lfrtmust_trip", 16); ("op_mod_lvrtmay_trip", 17);
   ("op_mod_lvrtmomentary_cessation", 18); ("op_mod_lvrtmust_trip", 19);
   ("op_mod_max_lim_w", 20); ("op_mod_target_var", 21); ("op_mod_target_w", 22);
   ("op_mod_volt_var", 23); ("op_mod_volt_watt", 24); ("op_mod_watt_pf", 25);
   ("op_mod_watt_var", 26); ("op_mod_delta_var", 27); ("op_mod_delta_w", 28);
   ("op_mod_fixed_v", 29); ("op_mod_grid_connect_permit", 30); ("op_mod_island_permit", 31)].

Definition FIELD_TO_BIT2 : dict string Z :=
  [("op_mod_max_lim_pct_vaabsorb", 0); ("op_mod_max_lim_pct_vainject", 1);
   ("op_mod_max_lim_pct_var_absorb", 2); ("op_mod_max_lim_pct_var_inject", 3);
   ("op_mod_max_lim_pct_wabsorb", 4); ("op_mod_max_lim_var_absorb", 5);
   ("op_mod_max_lim_var_inject", 6); ("op_mod_max_lim_wabsorb", 7);
   ("op_mod_max_lim_winject", 8); ("op_mod_target_v", 9)].

(** The loop [for field, bit in table: if getattr(base, field): mask |= 1 << bit]. *)
Definition table_mask (table : dict string Z) (base : DercontrolBase) : Z :=
  bits_of (filter (λ fb, has_field base fb.1 = true) table).*2.

Definition build_modes_responded (base : DercontrolBase) : list Z :=
  be_bytes 4 (table_mask FIELD_TO_BIT base).

Definition build_modes_responded2 (base : DercontrolBase) (allowed : Z) : option (list Z) :=
  let bitmask := Z.land (table_mask FIELD_TO_BIT2 base) allowed in
  if bitmask =? 0 then None else Some (be_bytes 4 bitmask).

Definition get_active_mode_names (base : DercontrolBase) : gset string :=
  list_to_set (filter (λ n, has_field base n = true) FIELD_TO_BIT.*1)
  ∪ list_to_set (dict_keys (doe_limits base)).

(** ** The modes supersession compares *)

Definition EXCLUDED_FIELDS : list string := ["op_mod_connect"; "op_mod_energize"].

Definition not_compared (name : string) : bool :=
  bool_decide (name ∈ EXCLUDED_FIELDS)
  || String.prefix "dercontrol_base_" name || String.prefix "other_element" name
  || String.prefix "any_attributes" name.

Definition compared_mode_keys (base : DercontrolBase) : gset string :=
  list_to_set
    (filter (λ n, not_compared n = false ∧ has_field base n = true) DercontrolBase_model_fields).

(** ** DERControl and DefaultDERControl *)

Record EventStatus := { current_status : Z; status_date_time : option Z }.

Record Dercontrol := {
  m_rid : bytes;
  dercontrol_base : DercontrolBase;
  interval_start : Z;
  interval_duration : Z;
  randomize_start : option Z;
  randomize_duration : option Z;
  event_status : option EventStatus;
  creation_time : option Z;
  response_required : option (list Z);
  reply_to : option string;
}.

(** [dd_settings]: the [set*] fields beside the base, those that are not [None]. *)
Record DefaultDercontrol := {
  dd_mrid : bytes;
  dd_base : DercontrolBase;
  dd_settings : dict string FieldVal;
}.

#[export] Instance EventStatus_eq_dec : EqDecision EventStatus.
Proof. solve_decision. Defined.
#[export] Instance Dercontrol_eq_dec : EqDecision Dercontrol.
Proof. solve_decision. Defined.
#[export] Instance DefaultDercontrol_eq_dec : EqDecision DefaultDercontrol.
Proof. solve_decision. Defined.

(** The default with [modes] taken out: base modes by field name, the CSIP-AUS
    limits by element name. *)
Definition keeps_element (modes : gset string) (elem : Element) : Prop :=
  match doe_element_name elem with
  | Some n => n ∉ modes
  | None => True
  end.

#[export] Instance keeps_element_dec modes elem : Decision (keeps_element modes elem).
Proof. unfold keeps_element. destruct (doe_element_name elem); apply _. Defined.

Definition default_without (dderc : DefaultDercontrol) (modes : gset string)
    : DefaultDercontrol :=
  let base := dd_base dderc in
  {| dd_mrid := dd_mrid dderc;
     dd_base :=
       {| base_fields :=
            filter (λ fv, ¬ (fv.1 ∈ modes ∧ fv.1 ∈ DercontrolBase_model_fields)) (base_fields base);
          other_element := filter (keeps_element modes) (other_element base) |};
     dd_settings := dd_settings dderc |}.

(** ** Properties *)

Lemma has_field_elem (base : DercontrolBase) (n : string) :
  has_field base n = true ↔ n ∈ dict_keys (base_fields base).
Proof. apply dict_mem_spec. Qed.

Lemma add_limit_keys (out : dict string (Z * Z)) (elem : Element) (n : string) :
  n ∈ dict_keys (add_limit out elem) ↔
  n ∈ dict_keys out ∨
  (doe_element_name elem = Some n ∧ n ∈ DOE_LIMIT_NAMES ∧ is_Some (doe_value_multiplier elem)).
Proof.
  unfold add_limit. destruct (doe_element_name elem) as [m|] eqn:Em; [|naive_solver].
  case_decide as Hin; [|naive_solver].
  destruct (doe_value_multiplier elem) as [vm|] eqn:Ev.
  - rewrite dict_set_keys. destruct (dict_mem m out) eqn:Emem.
    + apply dict_mem_spec in Emem. naive_solver.
    + rewrite elem_of_app, list_elem_of_singleton. naive_solver.
  - split; [auto|]. intros [?|(?&?&[? [=]])]; done.
Qed.

Lemma doe_limits_keys_aux (l : list Element) (out : dict string (Z * Z)) (n : string) :
  n ∈ dict_keys (foldl add_limit out l) ↔
  n ∈ dict_keys out ∨
  ∃ e, e ∈ l ∧ doe_element_name e = Some n ∧ n ∈ DOE_LIMIT_NAMES ∧
       is_Some (doe_value_multiplier e).
Proof.
  revert out. induction l as [|e l IH]; intros out; cbn [foldl].
  - split; [auto|]. intros [?|(e & He & _)]; [done|]. by apply not_elem_of_nil in He.
  - rewrite IH, add_limit_keys. setoid_rewrite elem_of_cons. naive_solver.
Qed.

(** A limit is listed exactly when some element carries that name and a value. *)
Lemma doe_limits_keys (base : DercontrolBase) (n : string) :
  n ∈ dict_keys (doe_limits base) ↔
  ∃ e, e ∈ other_element base ∧ doe_element_name e = Some n ∧ n ∈ DOE_LIMIT_NAMES ∧
       is_Some (doe_value_multiplier e).
Proof.
  unfold doe_limits. rewrite doe_limits_keys_aux. split; [|auto].
  intros [H|H]; [|done]. by apply not_elem_of_nil in H.
Qed.

Lemma active_mode_names_spec (base : DercontrolBase) (n : string) :
  n ∈ get_active_mode_names base ↔
  (n ∈ FIELD_TO_BIT.*1 ∧ n ∈ dict_keys (base_fields base)) ∨ n ∈ dict_keys (doe_limits base).
Proof.
  unfold get_active_mode_names.
  rewrite elem_of_union, !elem_of_list_to_set, list_elem_of_filter, has_field_elem. naive_solver.
Qed.

Lemma FIELD_TO_BIT_model_fields (n : string) :
  n ∈ FIELD_TO_BIT.*1 → n ∈ DercontrolBase_model_fields.
Proof.
  assert (Forall (λ n, n ∈ DercontrolBase_model_fields) FIELD_TO_BIT.*1) as H
    by (apply (bool_decide_unpack _); vm_compute; exact I).
  rewrite Forall_forall in H. apply H.
Qed.

Lemma default_without_fields (d : DefaultDercontrol) (modes : gset string) (n : string) :
  n ∈ dict_keys (base_fields (dd_base (default_without d modes))) ↔
  n ∈ dict_keys (base_fields (dd_base d)) ∧ ¬ (n ∈ modes ∧ n ∈ DercontrolBase_model_fields).
Proof.
  unfold dict_keys, default_without. cbn [dd_base base_fields].
  rewrite !list_elem_of_fmap. setoid_rewrite list_elem_of_filter. naive_solver.
Qed.

Lemma default_without_limits (d : DefaultDercontrol) (modes : gset string) (n : string) :
  n ∈ dict_keys (doe_limits (dd_base (default_without d modes))) ↔
  n ∈ dict_keys (doe_limits (dd_base d)) ∧ n ∉ modes.
Proof.
  rewrite !doe_limits_keys. unfold default_without. cbn [dd_base other_element].
  setoid_rewrite list_elem_of_filter. unfold keeps_element. split.
  - intros (e & [Hk He] & Hn & Hd & Hv). rewrite Hn in Hk. eauto 10.
  - intros [(e & He & Hn & Hd & Hv) Hm]. exists e. rewrite Hn. auto.
Qed.

(** A default sent without [modes] sets exactly the modes it had, less those. *)
Lemma default_without_modes (d : DefaultDercontrol) (modes : gset string) :
  get_active_mode_names (dd_base (default_without d modes)) =
  get_active_mode_names (dd_base d) ∖ modes.
Proof.
  apply set_eq. intros n.
  rewrite elem_of_difference, !active_mode_names_spec, default_without_fields,
    default_without_limits.
  pose proof (FIELD_TO_BIT_model_fields n). naive_solver.
Qed.

Lemma table_mask_bit (table : dict string Z) (base : DercontrolBase) (i : Z) :
  Forall (λ fb, 0 <= fb.2) table → 0 <= i →
  Z.testbit (table_mask table base) i = true ↔
  ∃ f, (f, i) ∈ table ∧ has_field base f = true.
Proof.
  intros Ht Hi. unfold table_mask. rewrite testbit_bits_of; [|  | done].
  - rewrite bool_decide_eq_true, list_elem_of_fmap. setoid_rewrite list_elem_of_filter.
    split; [intros ([f b] & -> & ? & ?); eauto | intros (f & ? & ?); by exists (f, i)].
  - by apply Forall_fmap, Forall_filter_keep.
Qed.

Lemma table_mask_bound (table : dict string Z) (base : DercontrolBase) (n : Z) :
  0 <= n → Forall (λ fb, 0 <= fb.2 < n) table → 0 <= table_mask table base < 2 ^ n.
Proof. intros Hn Ht. apply bits_of_bound; [done|]. by apply Forall_fmap, Forall_filter_keep. Qed.

Lemma FIELD_TO_BIT_range : Forall (λ fb : string * Z, 0 <= fb.2 < 32) FIELD_TO_BIT.
Proof. unfold FIELD_TO_BIT. repeat constructor; simpl; lia. Qed.

Lemma FIELD_TO_BIT2_range : Forall (λ fb : string * Z, 0 <= fb.2 < 10) FIELD_TO_BIT2.
Proof. unfold FIELD_TO_BIT2. repeat constructor; simpl; lia. Qed.

(** The bitmap fits the four bytes it is written in, and its bits are the set modes. *)
Lemma modes_responded_bits (base : DercontrolBase) (i : Z) :
  0 <= i →
  Z.testbit (be_int (build_modes_responded base)) i = true ↔
  ∃ f, (f, i) ∈ FIELD_TO_BIT ∧ has_field base f = true.
Proof.
  intros Hi. unfold build_modes_responded. rewrite be_int_be_bytes.
  - apply table_mask_bit; [|done]. eapply Forall_impl; [apply FIELD_TO_BIT_range|]. simpl. lia.
  - apply (table_mask_bound _ _ 32); [lia | apply FIELD_TO_BIT_range].
Qed.

(** The second bitmap never claims a bit outside [allowed], nor a mode not set. *)
Lemma modes_responded2_bits (base : DercontrolBase) (allowed : Z) (l : list Z) (i : Z) :
  0 <= allowed → 0 <= i → build_modes_responded2 base allowed = Some l →
  Z.testbit (be_int l) i = true ↔
  Z.testbit allowed i = true ∧ ∃ f, (f, i) ∈ FIELD_TO_BIT2 ∧ has_field base f = true.
Proof.
  intros Ha Hi. unfold build_modes_responded2. destruct (_ =? _) eqn:E; [done|]. intros Hl.
  apply (inj Some) in Hl as <-.
  pose proof (table_mask_bound FIELD_TO_BIT2 base 10 ltac:(lia) FIELD_TO_BIT2_range) as Hb.
  rewrite be_int_be_bytes.
  - rewrite Z.land_spec, andb_true_iff, table_mask_bit; [naive_solver| |done].
    eapply Forall_impl; [apply FIELD_TO_BIT2_range|]. simpl. lia.
  - apply (land_bound _ _ 32); [lia| |done]. lia.
Qed.
