(* ===== verification/Modes.v ===== *)
(** * Control elements and connector methods (connectors/modes.py)

    The table that takes each DERControlBase element to the connector method
    [update_<element in snake case>], the plain data a connector receives for a
    parsed value ([element_value]), and the translation of a control or a
    default control into method calls.  [BaseConnector]'s method names
    (connectors/base.py) are here too, since a connector that inherits one of
    them does not implement the mode. *)

From S2P Require Import Prelude Controls.
From Stdlib Require Import Ascii.

(** ** Snake case: the two substitutions of [snake_case], then [lower()] *)

Definition is_upper (c : ascii) : bool :=
  let n := nat_of_ascii c in ((65 <=? n) && (n <=? 90))%nat.
Definition is_lower (c : ascii) : bool :=
  let n := nat_of_ascii c in ((97 <=? n) && (n <=? 122))%nat.
Definition is_digit (c : ascii) : bool :=
  let n := nat_of_ascii c in ((48 <=? n) && (n <=? 57))%nat.

Definition test_at (p : ascii → bool) (s : list ascii) (i : nat) : bool :=
  match s !! i with Some c => p c | None => false end.

Fixpoint run_of (p : ascii → bool) (s : list ascii) : nat :=
  match s with c :: s' => if p c then S (run_of p s') else O | [] => O end.

(** [([A-Z]+)([A-Z][a-z])] at the start of [s]: the length of the first group,
    tried from the longest run down. *)
Fixpoint backtrack (k : nat) (s : list ascii) : option nat :=
  match k with
  | O => None
  | S k' => if test_at is_upper s k && test_at is_lower s (S k) then Some k else backtrack k' s
  end.

(** [re.sub(r"([A-Z]+)([A-Z][a-z])", r"\1_\2", s)]; a match uses up at least three
    characters, so [fuel] need not exceed the length. *)
Fixpoint sub_capitals (fuel : nat) (s : list ascii) : list ascii :=
  match fuel, s with
  | S fuel', c :: s' =>
      match backtrack (run_of is_upper s) s with
      | Some k => take k s ++ "_"%char :: take 2 (drop k s) ++ sub_capitals fuel' (drop (k + 2) s)
      | None => c :: sub_capitals fuel' s'
      end
  | _, _ => s
  end.

(** [re.sub(r"([a-z0-9])([A-Z])", r"\1_\2", s)] *)
Fixpoint sub_words (s : list ascii) : list ascii :=
  match s with
  | c1 :: ((c2 :: s'') as s') =>
      if (is_lower c1 || is_digit c1) && is_upper c2 then c1 :: "_"%char :: c2 :: sub_words s''
      else c1 :: sub_words s'
  | _ => s
  end.

Definition to_lower (c : ascii) : ascii :=
  if is_upper c then ascii_of_nat (nat_of_ascii c + 32) else c.

Definition snake_case (element : string) : string :=
  let s := String.list_ascii_of_string element in
  String.string_of_list_ascii (to_lower <$> sub_words (sub_capitals (length s) s)).

(** ** The dispatch table *)

Inductive ValueKind := CURVE | VALUE | DOE_LIMIT.

Record ControlElement := { element : string; ce_field : string; ce_kind : ValueKind }.

Definition method (e : ControlElement) : string := "update_" +:+ snake_case (element e).
Definition control (e : ControlElement) : string := snake_case (element e).

Definition elem_value (el f : string) : ControlElement :=
  {| element := el; ce_field := f; ce_kind := VALUE |}.
Definition elem_curve (el f : string) : ControlElement :=
  {| element := el; ce_field := f; ce_kind := CURVE |}.
Definition elem_limit (el : string) : ControlElement :=
  {| element := el; ce_field := ""; ce_kind := DOE_LIMIT |}.

Definition CONTROL_ELEMENTS : list ControlElement :=
  [elem_value "opModConnect" "op_mod_connect";
   elem_value "opModEnergize" "op_mod_energize";
   elem_value "opModDeltaVar" "op_mod_delta_var";
   elem_value "opModDeltaW" "op_mod_delta_w";
   elem_value "opModFixedPFAbsorbW" "op_mod_fixed_pfabsorb_w";
   elem_value "opModFixedPFInjectW" "op_mod_fixed_pfinject_w";
   elem_value "opModFixedV" "op_mod_fixed_v";
   elem_value "opModFixedVar" "op_mod_fixed_var";
   elem_value "opModFixedW" "op_mod_fixed_w";
   elem_value "opModFreqDroop" "op_mod_freq_droop";
   elem_curve "opModFreqWatt" "op_mod_freq_watt";
   elem_value "opModGridConnectPermit" "op_mod_grid_connect_permit";
   elem_curve "opModHFRTMayTrip" "op_mod_hfrtmay_trip";
   elem_curve "opModHFRTMustTrip" "op_mod_hfrtmust_trip";
   elem_curve "opModHVRTMayTrip" "op_mod_hvrtmay_trip";
   elem_curve "opModHVRTMomentaryCessation" "op_mod_hvrtmomentary_cessation";
   elem_curve "opModHVRTMustTrip" "op_mod_hvrtmust_trip";
   elem_value "opModIslandPermit" "op_mod_island_permit";
   elem_curve "opModLFRTMayTrip" "op_mod_lfrtmay_trip";
   elem_curve "opModLFRTMustTrip" "op_mod_lfrtmust_trip";
   elem_curve "opModLVRTMayTrip" "op_mod_lvrtmay_trip";
   elem_curve "opModLVRTMomentaryCessation" "op_mod_lvrtmomentary_cessation";
   elem_curve "opModLVRTMustTrip" "op_mod_lvrtmust_trip";
   elem_value "opModMaxLimPctVAAbsorb" "op_mod_max_lim_pct_vaabsorb";
   elem_value "opModMaxLimPctVAInject" "op_mod_max_lim_pct_vainject";
   elem_value "opModMaxLimPctVarAbsorb" "op_mod_max_lim_pct_var_absorb";
   elem_value "opModMaxLimPctVarInject" "op_mod_max_lim_pct_var_inject";
   elem_value "opModMaxLimPctWAbsorb" "op_mod_max_lim_pct_wabsorb";
   elem_value "opModMaxLimVarAbsorb" "op_mod_max_lim_var_absorb";
   elem_value "opModMaxLimVarInject" "op_mod_max_lim_var_inject";
   elem_value "opModMaxLimW" "op_mod_max_lim_w";
   elem_value "opModMaxLimWAbsorb" "op_mod_max_lim_wabsorb";
   elem_value "opModMaxLimWInject" "op_mod_max_lim_winject";
   elem_value "opModTargetV" "op_mod_target_v";
   elem_value "opModTargetVar" "op_mod_target_var";
   elem_value "opModTargetW" "op_mod_target_w";
   elem_curve "opModVoltVar" "op_mod_volt_var";
   elem_curve "opModVoltWatt" "op_mod_volt_watt";
   elem_curve "opModWattPF" "op_mod_watt_pf";
   elem_curve "opModWattVar" "op_mod_watt_var"].

Definition DOE_ELEMENTS : list ControlElement :=
  [elem_limit "opModExpLimW"; elem_limit "opModImpLimW"; elem_limit "opModGenLimW";
   elem_limit "opModLoadLimW"].

Definition DEFAULT_CONTROL_ELEMENTS : list ControlElement :=
  [elem_value "setESDelay" "set_esdelay";
   elem_value "setESHighFreq" "set_eshigh_freq";
   elem_value "setESHighVolt" "set_eshigh_volt";
   elem_value "setESLowFreq" "set_eslow_freq";
   elem_value "setESLowVolt" "set_eslow_volt";
   elem_value "setESRampTms" "set_esramp_tms";
   elem_value "setESRandomDelay" "set_esrandom_delay";
   elem_value "setGradW" "set_grad_w";
   elem_value "setSoftGradW" "set_soft_grad_w"].

Definition ALL_ELEMENTS : list ControlElement :=
  CONTROL_ELEMENTS ++ DOE_ELEMENTS ++ DEFAULT_CONTROL_ELEMENTS.

Definition METHOD_BY_ELEMENT : dict string string := (λ e, (element e, method e)) <$> ALL_ELEMENTS.

Definition ELEMENT_BY_MODE : dict string ControlElement :=
  ((λ e, (ce_field e, e)) <$> CONTROL_ELEMENTS) ++ ((λ e, (element e, e)) <$> DOE_ELEMENTS).

(** [BaseConnector]'s no-op methods, in declaration order (connectors/base.py). *)
Definition BaseConnector_methods : list string :=
  ["update_op_mod_connect"; "update_op_mod_energize"; "update_op_mod_delta_var";
   "update_op_mod_delta_w"; "update_op_mod_fixed_pf_absorb_w"; "update_op_mod_fixed_pf_inject_w";
   "update_op_mod_fixed_v"; "update_op_mod_fixed_var"; "update_op_mod_fixed_w";
   "update_op_mod_freq_droop"; "update_op_mod_freq_watt"; "update_op_mod_grid_connect_permit";
   "update_op_mod_hfrt_may_trip"; "update_op_mod_hfrt_must_trip"; "update_op_mod_hvrt_may_trip";
   "update_op_mod_hvrt_momentary_cessation"; "update_op_mod_hvrt_must_trip";
   "update_op_mod_island_permit"; "update_op_mod_lfrt_may_trip"; "update_op_mod_lfrt_must_trip";
   "update_op_mod_lvrt_may_trip"; "update_op_mod_lvrt_momentary_cessation";
   "update_op_mod_lvrt_must_trip"; "update_op_mod_max_lim_pct_va_absorb";
   "update_op_mod_max_lim_pct_va_inject"; "update_op_mod_max_lim_pct_var_absorb";
   "update_op_mod_max_lim_pct_var_inject"; "update_op_mod_max_lim_pct_w_absorb";
   "update_op_mod_max_lim_var_absorb"; "update_op_mod_max_lim_var_inject";
   "update_op_mod_max_lim_w"; "update_op_mod_max_lim_w_absorb"; "update_op_mod_max_lim_w_inject";
   "update_op_mod_target_v"; "update_op_mod_target_var"; "update_op_mod_target_w";
   "update_op_mod_volt_var"; "update_op_mod_volt_watt"; "update_op_mod_watt_pf";
   "update_op_mod_watt_var"; "update_op_mod_exp_lim_w"; "update_op_mod_imp_lim_w";
   "update_op_mod_gen_lim_w"; "update_op_mod_load_lim_w"; "update_set_es_delay";
   "update_set_es_high_freq"; "update_set_es_high_volt"; "update_set_es_low_freq";
   "update_set_es_low_volt"; "update_set_es_ramp_tms"; "update_set_es_random_delay";
   "update_set_grad_w"; "update_set_soft_grad_w"].

(** ** Plain data: what a connector receives *)

Inductive Plain :=
  | PBool (b : bool)
  | PInt (z : Z)
  | PStr (s : string)
  | PList (l : list Plain)
  | PDict (d : list (string * Plain)).

Abbreviation Params := (dict string Plain) (only parsing).

Definition DISABLED : Params := [("enabled", PBool false)].

(** [bytes.hex().upper()] *)
Definition hex_digit (n : nat) : ascii := ascii_of_nat (if (n <? 10)%nat then 48 + n else 55 + n).
Fixpoint hex_upper (b : bytes) : string :=
  match b with
  | EmptyString => EmptyString
  | String c b' =>
      String (hex_digit (nat_of_ascii c / 16)) (String (hex_digit (nat_of_ascii c mod 16)) (hex_upper b'))
  end.

(** [getattr(obj, attribute, None)] *)
Definition get_attr (name : string) (obj : FieldVal) : option FieldVal :=
  match obj with FModel _ attrs => dict_get name attrs | _ => None end.

Definition SKIPPED_FIELDS : list string := ["other_element"; "any_attributes"; "disabled"].

Fixpoint string_suffix (suf s : string) : bool :=
  bool_decide (suf = s) ||
  (match s with EmptyString => false | String _ s' => string_suffix suf s' end).

Definition is_content_field (var : string * string) : Prop :=
  (var.1 ∉ SKIPPED_FIELDS) ∧ string_suffix "_r2_3" var.1 = false.

(** The metadata of the generated binding: the variables of a model type, as
    attribute and element name, which the third-party [XmlContext] reads. *)
Class Binding := { all_vars : string → list (string * string) }.

Section Translation.
Context {B : Binding}.

Definition xml_names (model_type : string) : list (string * string) :=
  filter is_content_field (all_vars model_type).

(** One round of the loop over a model's content fields; [values] are the plain
    forms of its attributes, [None] for an empty list. *)
Definition add_content (values : list (string * option Plain)) (out : dict string Plain)
    (var : string * string) : dict string Plain :=
  match dict_get var.1 values with
  | Some (Some v) => dict_set var.2 v out
  | _ => out
  end.

Definition unwrap_value (out : dict string Plain) : Plain :=
  match out with [("value", v)] => v | _ => PDict out end.

Definition is_empty_list (v : FieldVal) : bool := match v with FList [] => true | _ => false end.

Fixpoint element_value (obj : FieldVal) : Plain :=
  match obj with
  | FBool b => PBool b
  | FInt z => PInt z
  | FStr s => PStr s
  | FBytes b => PStr (hex_upper b)
  | FList l => PList (map element_value l)
  | FModel ty attrs =>
      let values :=
        map (λ av, (av.1, if is_empty_list av.2 then None else Some (element_value av.2))) attrs in
      unwrap_value (foldl (add_content values) [] (xml_names ty))
  end.

Definition find_curve (href : option FieldVal) (curves : list FieldVal) : option FieldVal :=
  head (filter (λ c, get_attr "href" c = href) curves).

Definition is_disabled (v : FieldVal) : bool :=
  bool_decide (get_attr "disabled" v = Some (FBool true)).

Definition enabled_with (v : Plain) : Params := [("enabled", PBool true); ("value", v)].

Definition element_params (e : ControlElement) (base : DercontrolBase) (curves : list FieldVal)
    : option Params :=
  match ce_kind e with
  | DOE_LIMIT =>
      vm ← dict_get (element e) (doe_limits base);
      Some (enabled_with (PDict [("value", PInt vm.1); ("multiplier", PInt vm.2)]))
  | kind =>
      v ← dict_get (ce_field e) (base_fields base);
      Some (if is_disabled v then DISABLED
            else match kind with
                 | CURVE =>
                     match find_curve (get_attr "href" v) curves with
                     | Some curve => enabled_with (element_value curve)
                     | None => DISABLED
                     end
                 | _ => enabled_with (element_value v)
                 end)
  end.

(** [params.get("enabled")] as a truth value; the entry is always a bool. *)
Definition params_enabled (p : Params) : bool :=
  match dict_get "enabled" p with Some (PBool b) => b | _ => false end.

Definition add_ramp (base : DercontrolBase) (p : Params) : Params :=
  match dict_get "ramp_tms" (base_fields base) with
  | Some ramp => if params_enabled p then dict_set "rampTms" (element_value ramp) p else p
  | None => p
  end.

Definition translate_controls (base : DercontrolBase) (curves : list FieldVal)
    : list (string * Params) :=
  omap (λ e, (λ p, (method e, p)) <$> (add_ramp base <$> element_params e base curves))
       (CONTROL_ELEMENTS ++ DOE_ELEMENTS).

Definition translate_default_controls (dderc : DefaultDercontrol) (curves : list FieldVal)
    : list (string * Params) :=
  translate_controls (dd_base dderc) curves ++
  omap (λ e, (λ p, (method e, p)) <$>
             ((λ v, enabled_with (element_value v)) <$> dict_get (ce_field e) (dd_settings dderc)))
       DEFAULT_CONTROL_ELEMENTS.
End Translation.

(** ** Properties of the table *)

(** The values of a table that some entries of a list provide, under keys that
    tell the entries apart. *)
Lemma dict_get_omap_table {A V} (key : A → string) (f : A → option V) (l : list A) (e : A) :
  NoDup (key <$> l) → e ∈ l →
  dict_get (key e) (omap (λ x, (λ p, (key x, p)) <$> f x) l) = f e.
Proof.
  induction l as [|x l IH]; cbn [fmap list_fmap omap list_omap]; [by intros _ ?%elem_of_nil|].
  intros [Hx Hl]%NoDup_cons [->|He]%elem_of_cons.
  - destruct (f x) as [p|] eqn:Ef; cbn [fmap option_fmap option_map].
    + unfold dict_get. by rewrite decide_True.
    + apply dict_get_None. intros ([k v] & Hk & (y & Hy & Hin)%list_elem_of_omap)%list_elem_of_fmap.
      cbn in Hk. destruct (f y) as [q|]; [|done]. injection Hin as <- _.
      apply Hx. rewrite Hk. by apply list_elem_of_fmap_2.
  - assert (key e ≠ key x) as Hne by (intros E; apply Hx; rewrite <- E; by apply list_elem_of_fmap_2).
    destruct (f x) as [p|]; cbn [fmap option_fmap option_map]; [|by apply IH].
    change (dict_get (key e) ((key x, p) :: ?d)) with (if decide (key e = key x) then Some p else dict_get (key e) d).
    rewrite decide_False by done. by apply IH.
Qed.

Lemma omap_table_keys {A V} (key : A → string) (f : A → option V) (l : list A) :
  sublist (omap (λ x, (λ p, (key x, p)) <$> f x) l).*1 (key <$> l).
Proof.
  induction l as [|x l IH]; cbn [fmap list_fmap omap list_omap]; [done|].
  destruct (f x); cbn [fmap option_fmap option_map]; by constructor.
Qed.

Lemma base_elements_methods_NoDup : NoDup (method <$> CONTROL_ELEMENTS ++ DOE_ELEMENTS).
Proof. apply (bool_decide_unpack _). vm_compute. exact I. Qed.

(** [METHOD_BY_ELEMENT] names exactly the methods [BaseConnector] declares, each once. *)
Lemma methods_are_declared : dict_values METHOD_BY_ELEMENT = BaseConnector_methods.
Proof. vm_compute. reflexivity. Qed.

Lemma declared_methods_NoDup : NoDup BaseConnector_methods.
Proof. apply (bool_decide_unpack _). vm_compute. exact I. Qed.

Lemma all_elements_methods : method <$> ALL_ELEMENTS = BaseConnector_methods.
Proof. vm_compute. reflexivity. Qed.

Lemma element_by_mode_wf : dict_wf ELEMENT_BY_MODE.
Proof. apply (bool_decide_unpack _). vm_compute. exact I. Qed.

Lemma element_by_mode_elem (mode : string) (e : ControlElement) :
  dict_get mode ELEMENT_BY_MODE = Some e → e ∈ CONTROL_ELEMENTS ++ DOE_ELEMENTS.
Proof.
  intros H%dict_get_elem. unfold ELEMENT_BY_MODE in H.
  apply elem_of_app in H as [H|H]; apply list_elem_of_fmap in H as (e' & [= _ ->] & H);
    apply elem_of_app; auto.
Qed.

(** Two modes of the table never share a connector method. *)
Lemma element_by_mode_method_inj (m m' : string) (e e' : ControlElement) :
  dict_get m ELEMENT_BY_MODE = Some e → dict_get m' ELEMENT_BY_MODE = Some e' →
  method e = method e' → m = m'.
Proof.
  assert (Forall (λ me, Forall (λ me', method me.2 = method me'.2 → me.1 = me'.1) ELEMENT_BY_MODE)
            ELEMENT_BY_MODE) as H by (apply (bool_decide_unpack _); vm_compute; exact I).
  rewrite Forall_forall in H. intros H1%dict_get_elem H2%dict_get_elem.
  specialize (H _ H1). rewrite Forall_forall in H. by apply (H _ H2).
Qed.

(** Every mode the event engine tracks has an element. *)
Lemma tracked_modes_have_elements (base : DercontrolBase) (mode : string) :
  mode ∈ get_active_mode_names base → ∃ e, dict_get mode ELEMENT_BY_MODE = Some e.
Proof.
  assert (Forall (λ n, is_Some (dict_get n ELEMENT_BY_MODE)) (FIELD_TO_BIT.*1 ++ DOE_LIMIT_NAMES))
    as H by (apply (bool_decide_unpack _); vm_compute; exact I).
  rewrite Forall_forall in H. intros Hm. apply active_mode_names_spec in Hm.
  apply H. apply elem_of_app. destruct Hm as [[Hm _]|Hm]; [by left|right].
  apply doe_limits_keys in Hm. naive_solver.
Qed.

Section TranslationProps.
Context {B : Binding}.

(** A control sets an element when translation yields parameters for it. *)
Definition sets_element (base : DercontrolBase) (e : ControlElement) : bool :=
  match ce_kind e with
  | DOE_LIMIT => dict_mem (element e) (doe_limits base)
  | _ => dict_mem (ce_field e) (base_fields base)
  end.

Lemma element_params_set (e : ControlElement) (base : DercontrolBase) (curves : list FieldVal) :
  is_Some (element_params e base curves) ↔ sets_element base e = true.
Proof.
  unfold element_params, sets_element, dict_mem.
  destruct (ce_kind e); destruct (dict_get _ _); cbn; split; try done; try (intros [? [=]]); eauto.
Qed.

(** A tracked mode of a base is an element it sets. *)
Lemma tracked_mode_set (base : DercontrolBase) (mode : string) (e : ControlElement) :
  mode ∈ get_active_mode_names base → dict_get mode ELEMENT_BY_MODE = Some e →
  sets_element base e = true.
Proof.
  assert (Forall (λ me, match ce_kind me.2 with
                        | DOE_LIMIT => element me.2 = me.1 ∧ me.1 ∉ FIELD_TO_BIT.*1
                        | _ => ce_field me.2 = me.1 ∧ me.1 ∉ DOE_LIMIT_NAMES
                        end) ELEMENT_BY_MODE) as H.
  { unfold ELEMENT_BY_MODE. rewrite Forall_app. split; apply Forall_fmap.
    - repeat constructor; cbn [fst snd ce_kind ce_field elem_value elem_curve];
        apply (bool_decide_unpack _); vm_compute; exact I.
    - repeat constructor; cbn [fst snd ce_kind element elem_limit];
        apply (bool_decide_unpack _); vm_compute; exact I. }
  intros Hm He%dict_get_elem. rewrite Forall_forall in H. specialize (H _ He). cbn in H.
  apply active_mode_names_spec in Hm. unfold sets_element.
  assert (mode ∈ dict_keys (doe_limits base) → mode ∈ DOE_LIMIT_NAMES) as Hdoe
    by (intros Hk%doe_limits_keys; naive_solver).
  destruct (ce_kind e), H as [<- Hno]; apply dict_mem_spec; naive_solver.
Qed.

(** *** Lookups in a translation *)

#[local] Opaque CONTROL_ELEMENTS DOE_ELEMENTS DEFAULT_CONTROL_ELEMENTS method.

Lemma translate_controls_lookup (base : DercontrolBase) (curves : list FieldVal)
    (e : ControlElement) :
  e ∈ CONTROL_ELEMENTS ++ DOE_ELEMENTS →
  dict_get (method e) (translate_controls base curves) =
  add_ramp base <$> element_params e base curves.
Proof.
  intros He. apply (dict_get_omap_table method (λ e, add_ramp base <$> element_params e base curves));
    [apply base_elements_methods_NoDup|done].
Qed.

Lemma dict_get_app {V} (k : string) (d d' : dict string V) :
  dict_get k (d ++ d') = match dict_get k d with Some v => Some v | None => dict_get k d' end.
Proof.
  induction d as [|[k0 v0] d IH]; [done|]. cbn [app]. unfold dict_get. case_decide; [done|].
  exact IH.
Qed.

Lemma dict_get_sublist_None {V} (k : string) (d : dict string V) (l : list string) :
  sublist (dict_keys d) l → k ∉ l → dict_get k d = None.
Proof.
  intros Hs Hk. apply dict_get_None. intros H. apply Hk.
  eapply elem_of_submseteq; [exact H|by apply sublist_submseteq].
Qed.

Lemma default_setting_not_base (e : ControlElement) :
  e ∈ DEFAULT_CONTROL_ELEMENTS → method e ∉ method <$> CONTROL_ELEMENTS ++ DOE_ELEMENTS.
Proof.
  assert (Forall (λ e, method e ∉ method <$> CONTROL_ELEMENTS ++ DOE_ELEMENTS)
            DEFAULT_CONTROL_ELEMENTS) as H by (apply (bool_decide_unpack _); vm_compute; exact I).
  rewrite Forall_forall in H. apply H.
Qed.

Lemma translate_default_lookup (d : DefaultDercontrol) (curves : list FieldVal)
    (e : ControlElement) :
  e ∈ CONTROL_ELEMENTS ++ DOE_ELEMENTS →
  dict_get (method e) (translate_default_controls d curves) =
  add_ramp (dd_base d) <$> element_params e (dd_base d) curves.
Proof.
  intros He. unfold translate_default_controls. rewrite dict_get_app, translate_controls_lookup by done.
  destruct (element_params e (dd_base d) curves) as [p|]; cbn [fmap option_fmap option_map]; [done|].
  eapply dict_get_sublist_None; [apply omap_table_keys|].
  intros (e' & Hm & He')%list_elem_of_fmap. apply (default_setting_not_base e' He').
  rewrite <- Hm. by apply list_elem_of_fmap_2.
Qed.

Lemma translate_default_setting (d : DefaultDercontrol) (curves : list FieldVal)
    (e : ControlElement) :
  e ∈ DEFAULT_CONTROL_ELEMENTS →
  dict_get (method e) (translate_default_controls d curves) =
  (λ v, enabled_with (element_value v)) <$> dict_get (ce_field e) (dd_settings d).
Proof.
  intros He. unfold translate_default_controls. rewrite dict_get_app.
  replace (dict_get (method e) (translate_controls (dd_base d) curves)) with (@None Params).
  - apply (dict_get_omap_table method (λ e, (λ v, enabled_with (element_value v)) <$>
             dict_get (ce_field e) (dd_settings d))); [|done].
    apply (bool_decide_unpack _). vm_compute. exact I.
  - symmetry. eapply dict_get_sublist_None; [apply omap_table_keys|].
    by apply default_setting_not_base.
Qed.

(** *** The shape of a translation *)

(** The parameters of one call: a withdrawal, or a value with an optional ramp. *)
Inductive call_params : Params → Prop :=
  | withdraws : call_params DISABLED
  | applies v : call_params (enabled_with v)
  | applies_ramped v ramp : call_params (enabled_with v ++ [("rampTms", ramp)]).

Lemma element_params_shape (e : ControlElement) (base : DercontrolBase) (curves : list FieldVal)
    (p : Params) :
  element_params e base curves = Some p → p = DISABLED ∨ ∃ v, p = enabled_with v.
Proof.
  unfold element_params.
  destruct (ce_kind e); destruct (dict_get _ _) as [v|]; cbn; try done;
    repeat case_match; intros [= <-]; eauto.
Qed.

Lemma add_ramp_shape (base : DercontrolBase) (p : Params) :
  p = DISABLED ∨ (∃ v, p = enabled_with v) → call_params (add_ramp base p).
Proof.
  unfold add_ramp. intros Hp. destruct (dict_get "ramp_tms" (base_fields base)) as [r|].
  - destruct Hp as [->|[v ->]]; [apply withdraws|apply applies_ramped].
  - destruct Hp as [->|[v ->]]; constructor.
Qed.

Lemma translated_call (base : DercontrolBase) (curves : list FieldVal) (m : string) (p : Params) :
  (m, p) ∈ translate_controls base curves →
  ∃ e q, e ∈ CONTROL_ELEMENTS ++ DOE_ELEMENTS ∧ m = method e ∧
         element_params e base curves = Some q ∧ p = add_ramp base q.
Proof.
  unfold translate_controls. intros (e & He & Hp)%list_elem_of_omap.
  destruct (element_params e base curves) as [q|] eqn:Eq; cbn [fmap option_fmap option_map] in Hp; [|done].
  injection Hp as <- <-. exists e, q. auto.
Qed.

Lemma translate_default_methods (d : DefaultDercontrol) (curves : list FieldVal) :
  sublist (translate_default_controls d curves).*1 BaseConnector_methods.
Proof.
  assert (BaseConnector_methods =
          (method <$> CONTROL_ELEMENTS ++ DOE_ELEMENTS) ++ (method <$> DEFAULT_CONTROL_ELEMENTS)) as ->
    by (vm_compute; reflexivity).
  unfold translate_default_controls. rewrite fmap_app. apply sublist_app; apply omap_table_keys.
Qed.

Lemma translate_methods (base : DercontrolBase) (curves : list FieldVal) :
  sublist (translate_controls base curves).*1 (method <$> CONTROL_ELEMENTS ++ DOE_ELEMENTS).
Proof. apply omap_table_keys. Qed.

(** Translating a default control (whose calls begin with those of
    [translate_controls] on its base) is well typed: every call names a method
    [BaseConnector] declares, in the order they are declared and each at most
    once, and its parameters are either exactly [{"enabled": False}] or
    [enabled], [value] and, only then, [rampTms]. *)
Theorem translation_well_typed (d : DefaultDercontrol) (curves : list FieldVal) :
  sublist (translate_default_controls d curves).*1 BaseConnector_methods ∧
  NoDup (translate_default_controls d curves).*1 ∧
  Forall (λ call, call_params call.2) (translate_default_controls d curves) ∧
  translate_controls (dd_base d) curves `prefix_of` translate_default_controls d curves.
Proof.
  pose proof (translate_default_methods d curves) as Hs. repeat split.
  - exact Hs.
  - eapply sublist_NoDup; [apply declared_methods_NoDup|exact Hs].
  - apply Forall_forall. intros [m p] [H|H]%elem_of_app.
    + apply translated_call in H as (e & q & _ & _ & Hq & ->).
      by eapply add_ramp_shape, element_params_shape.
    + apply list_elem_of_omap in H as (e & _ & H).
      destruct (dict_get _ _) as [v|]; [|done]. injection H as _ <-. constructor.
  - by eexists.
Qed.
End TranslationProps.
