(* ===== verification/EventStore.v ===== *)
(** * Event records and the event store (events/state_machine.py)

    An [EventRecord] is a mutable object that the store, the timers and the
    running handlers share by reference.  The model keeps the objects in a heap
    (a list; a reference is an index) and the store maps an mRID to a
    reference, so a handler that still holds a record the store has pruned
    keeps reading and writing that record. *)

From S2P Require Import Prelude Controls.

Inductive EventState := SCHEDULED | ACTIVE | COMPLETED | CANCELLED | SUPERSEDED.

#[export] Instance EventState_eq_dec : EqDecision EventState.
Proof. solve_decision. Defined.

Record EventRecord := mkRecord {
  r_mrid : bytes;
  r_derc : Dercontrol;
  r_program : string;
  r_primacy : Z;
  r_state : EventState;
  r_start : Z;
  r_duration : Z;
  r_status_time : Z;
  r_creation : Z;
  r_superseded : gset string;
  r_superseded_modes : gmap string (gset string);
  r_rejected : gset string;
  r_applied : gset string;
  r_applied_local : gset string;
  r_rejected_local : gset string;
  r_opted_out : bool;
}.

(** The object's fields are assigned one at a time. *)
Definition set_derc (v : Dercontrol) (r : EventRecord) : EventRecord :=
  {| r_mrid := r_mrid r;
     r_derc := v;
     r_program := r_program r;
     r_primacy := r_primacy r;
     r_state := r_state r;
     r_start := r_start r;
     r_duration := r_duration r;
     r_status_time := r_status_time r;
     r_creation := r_creation r;
     r_superseded := r_superseded r;
     r_superseded_modes := r_superseded_modes r;
     r_rejected := r_rejected r;
     r_applied := r_applied r;
     r_applied_local := r_applied_local r;
     r_rejected_local := r_rejected_local r;
     r_opted_out := r_opted_out r |}.

Definition set_state (v : EventState) (r : EventRecord) : EventRecord :=
  {| r_mrid := r_mrid r;
     r_derc := r_derc r;
     r_program := r_program r;
     r_primacy := r_primacy r;
     r_state := v;
     r_start := r_start r;
     r_duration := r_duration r;
     r_status_time := r_status_time r;
     r_creation := r_creation r;
     r_superseded := r_superseded r;
     r_superseded_modes := r_superseded_modes r;
     r_rejected := r_rejected r;
     r_applied := r_applied r;
     r_applied_local := r_applied_local r;
     r_rejected_local := r_rejected_local r;
     r_opted_out := r_opted_out r |}.

Definition set_status_time (v : Z) (r : EventRecord) : EventRecord :=
  {| r_mrid := r_mrid r;
     r_derc := r_derc r;
     r_program := r_program r;
     r_primacy := r_primacy r;
     r_state := r_state r;
     r_start := r_start r;
     r_duration := r_duration r;
     r_status_time := v;
     r_creation := r_creation r;
     r_superseded := r_superseded r;
     r_superseded_modes := r_superseded_modes r;
     r_rejected := r_rejected r;
     r_applied := r_applied r;
     r_applied_local := r_applied_local r;
     r_rejected_local := r_rejected_local r;
     r_opted_out := r_opted_out r |}.

Definition set_creation (v : Z) (r : EventRecord) : EventRecord :=
  {| r_mrid := r_mrid r;
     r_derc := r_derc r;
     r_program := r_program r;
     r_primacy := r_primacy r;
     r_state := r_state r;
     r_start := r_start r;
     r_duration := r_duration r;
     r_status_time := r_status_time r;
     r_creation := v;
     r_superseded := r_superseded r;
     r_superseded_modes := r_superseded_modes r;
     r_rejected := r_rejected r;
     r_applied := r_applied r;
     r_applied_local := r_applied_local r;
     r_rejected_local := r_rejected_local r;
     r_opted_out := r_opted_out r |}.

Definition set_superseded (v : gset string) (r : EventRecord) : EventRecord :=
  {| r_mrid := r_mrid r;
     r_derc := r_derc r;
     r_program := r_program r;
     r_primacy := r_primacy r;
     r_state := r_state r;
     r_start := r_start r;
     r_duration := r_duration r;
     r_status_time := r_status_time r;
     r_creation := r_creation r;
     r_superseded := v;
     r_superseded_modes := r_superseded_modes r;
     r_rejected := r_rejected r;
     r_applied := r_applied r;
     r_applied_local := r_applied_local r;
     r_rejected_local := r_rejected_local r;
     r_opted_out := r_opted_out r |}.

Definition set_superseded_modes (v : gmap string (gset string)) (r : EventRecord) : EventRecord :=
  {| r_mrid := r_mrid r;
     r_derc := r_derc r;
     r_program := r_program r;
     r_primacy := r_primacy r;
     r_state := r_state r;
     r_start := r_start r;
     r_duration := r_duration r;
     r_status_time := r_status_time r;
     r_creation := r_creation r;
     r_superseded := r_superseded r;
     r_superseded_modes := v;
     r_rejected := r_rejected r;
     r_applied := r_applied r;
     r_applied_local := r_applied_local r;
     r_rejected_local := r_rejected_local r;
     r_opted_out := r_opted_out r |}.

Definition set_rejected (v : gset string) (r : EventRecord) : EventRecord :=
  {| r_mrid := r_mrid r;
     r_derc := r_derc r;
     r_program := r_program r;
     r_primacy := r_primacy r;
     r_state := r_state r;
     r_start := r_start r;
     r_duration := r_duration r;
     r_status_time := r_status_time r;
     r_creation := r_creation r;
     r_superseded := r_superseded r;
     r_superseded_modes := r_superseded_modes r;
     r_rejected := v;
     r_applied := r_applied r;
     r_applied_local := r_applied_local r;
     r_rejected_local := r_rejected_local r;
     r_opted_out := r_opted_out r |}.

Definition set_applied (v : gset string) (r : EventRecord) : EventRecord :=
  {| r_mrid := r_mrid r;
     r_derc := r_derc r;
     r_program := r_program r;
     r_primacy := r_primacy r;
     r_state := r_state r;
     r_start := r_start r;
     r_duration := r_duration r;
     r_status_time := r_status_time r;
     r_creation := r_creation r;
     r_superseded := r_superseded r;
     r_superseded_modes := r_superseded_modes r;
     r_rejected := r_rejected r;
     r_applied := v;
     r_applied_local := r_applied_local r;
     r_rejected_local := r_rejected_local r;
     r_opted_out := r_opted_out r |}.

Definition set_applied_local (v : gset string) (r : EventRecord) : EventRecord :=
  {| r_mrid := r_mrid r;
     r_derc := r_derc r;
     r_program := r_program r;
     r_primacy := r_primacy r;
     r_state := r_state r;
     r_start := r_start r;
     r_duration := r_duration r;
     r_status_time := r_status_time r;
     r_creation := r_creation r;
     r_superseded := r_superseded r;
     r_superseded_modes := r_superseded_modes r;
     r_rejected := r_rejected r;
     r_applied := r_applied r;
     r_applied_local := v;
     r_rejected_local := r_rejected_local r;
     r_opted_out := r_opted_out r |}.

Definition set_rejected_local (v : gset string) (r : EventRecord) : EventRecord :=
  {| r_mrid := r_mrid r;
     r_derc := r_derc r;
     r_program := r_program r;
     r_primacy := r_primacy r;
     r_state := r_state r;
     r_start := r_start r;
     r_duration := r_duration r;
     r_status_time := r_status_time r;
     r_creation := r_creation r;
     r_superseded := r_superseded r;
     r_superseded_modes := r_superseded_modes r;
     r_rejected := r_rejected r;
     r_applied := r_applied r;
     r_applied_local := r_applied_local r;
     r_rejected_local := v;
     r_opted_out := r_opted_out r |}.

Definition set_opted_out (v : bool) (r : EventRecord) : EventRecord :=
  {| r_mrid := r_mrid r;
     r_derc := r_derc r;
     r_program := r_program r;
     r_primacy := r_primacy r;
     r_state := r_state r;
     r_start := r_start r;
     r_duration := r_duration r;
     r_status_time := r_status_time r;
     r_creation := r_creation r;
     r_superseded := r_superseded r;
     r_superseded_modes := r_superseded_modes r;
     r_rejected := r_rejected r;
     r_applied := r_applied r;
     r_applied_local := r_applied_local r;
     r_rejected_local := r_rejected_local r;
     r_opted_out := v |}.

Definition r_end (r : EventRecord) : Z := r_start r + r_duration r.

(** A reference to a record object. *)
Abbreviation loc := nat (only parsing).

Record EventStore := mkStore {
  objs : list EventRecord;      (* every record object created so far *)
  events : dict bytes loc;      (* EventStore._events *)
}.

Definition empty_store : EventStore := mkStore [] [].

(** Object creation: [EventRecord(...)]. *)
Definition alloc (r : EventRecord) (st : EventStore) : loc * EventStore :=
  (length (objs st), mkStore (objs st ++ [r]) (events st)).

(** Attribute access and assignment through a reference. *)
Definition deref (st : EventStore) (l : loc) : option EventRecord := objs st !! l.
Definition update (l : loc) (f : EventRecord → EventRecord) (st : EventStore) : EventStore :=
  mkStore (alter f l (objs st)) (events st).

Arguments deref : simpl never.
Arguments update : simpl never.
Arguments alloc : simpl never.

Definition upsert (l : loc) (st : EventStore) : EventStore :=
  match deref st l with
  | Some r => mkStore (objs st) (dict_set (r_mrid r) l (events st))
  | None => st
  end.

Definition store_get (mrid : bytes) (st : EventStore) : option loc := dict_get mrid (events st).

Definition loc_test (p : EventRecord → bool) (st : EventStore) (l : loc) : bool :=
  match deref st l with Some r => p r | None => false end.

Definition by_state (s : EventState) (st : EventStore) : list loc :=
  filter (λ l, loc_test (λ r, bool_decide (r_state r = s)) st l = true) (dict_values (events st)).

(** Raises [KeyError] ([None]) when the mRID is not in the store. *)
Definition transition (mrid : bytes) (new_state : EventState) (st : EventStore)
    : option EventStore :=
  match store_get mrid st with
  | Some l => Some (update l (set_state new_state) st)
  | None => None
  end.

Definition is_live (s : EventState) : bool :=
  match s with SCHEDULED | ACTIVE => true | _ => false end.

Definition all_active_states (st : EventStore) : list loc :=
  filter (λ l, loc_test (λ r, is_live (r_state r)) st l = true) (dict_values (events st)).

Definition is_expired (now grace : Z) (st : EventStore) (ml : bytes * loc) : bool :=
  loc_test (λ r, r_end r + grace <? now) st ml.2.

Definition PRUNE_GRACE : Z := 60.

Definition prune_expired (now grace : Z) (st : EventStore) : list bytes * EventStore :=
  ((filter (λ ml, is_expired now grace st ml = true) (events st)).*1,
   mkStore (objs st) (filter (λ ml, is_expired now grace st ml = false) (events st))).

(** ** Well-formed stores: one entry per mRID, naming an object of that mRID *)

Record store_wf (st : EventStore) : Prop := {
  wf_keys : dict_wf (events st);
  wf_objs : ∀ m l, (m, l) ∈ events st → ∃ r, deref st l = Some r ∧ r_mrid r = m;
}.

(** ** The lifecycle of an event *)

Inductive lifecycle_step : EventState → EventState → Prop :=
  | step_activate : lifecycle_step SCHEDULED ACTIVE
  | step_complete : lifecycle_step ACTIVE COMPLETED
  | step_cancel s : is_live s = true → lifecycle_step s CANCELLED
  | step_supersede s : is_live s = true → lifecycle_step s SUPERSEDED.

Abbreviation lifecycle := (rtc lifecycle_step).

(** ** Lemmas *)

Lemma deref_update (l l' : loc) f st :
  deref (update l f st) l' = if decide (l = l') then f <$> deref st l' else deref st l'.
Proof.
  unfold deref, update. cbn. case_decide; subst.
  - apply list_lookup_alter_eq.
  - by apply list_lookup_alter_ne.
Qed.

Lemma deref_alloc r st : deref (alloc r st).2 (alloc r st).1 = Some r.
Proof. unfold deref, alloc. cbn. by apply list_lookup_middle. Qed.

Lemma deref_alloc_old r st (l : loc) r0 :
  deref st l = Some r0 → deref (alloc r st).2 l = Some r0.
Proof. unfold deref, alloc. cbn. intros. by apply lookup_app_l_Some. Qed.

Lemma update_wf (l : loc) f st :
  (∀ r, r_mrid (f r) = r_mrid r) → store_wf st → store_wf (update l f st).
Proof.
  intros Hf [Hk Ho]. constructor; [done|]. intros m l' Hin.
  destruct (Ho m l' Hin) as (r & Hr & Hm). rewrite deref_update.
  case_decide; [|eauto]. rewrite Hr. cbn. eexists. split; [done|]. by rewrite Hf.
Qed.

Lemma alloc_wf r st : store_wf st → store_wf (alloc r st).2.
Proof.
  intros [Hk Ho]. constructor; [done|]. intros m l Hin.
  destruct (Ho m l Hin) as (r0 & Hr & Hm). eauto using deref_alloc_old.
Qed.

Lemma upsert_wf (l : loc) st : store_wf st → store_wf (upsert l st).
Proof.
  intros [Hk Ho]. unfold upsert. destruct (deref st l) as [r|] eqn:E; [|done].
  constructor; cbn; [auto with py|]. intros m l' Hin.
  apply dict_set_elem in Hin as [[= -> ->]|Hin]; [|by apply Ho]. eauto.
Qed.

Lemma transition_wf mrid s st st' : store_wf st → transition mrid s st = Some st' → store_wf st'.
Proof.
  unfold transition. destruct (store_get mrid st); [|done].
  intros Hwf [= <-]. by apply update_wf.
Qed.

Lemma prune_wf now grace st : store_wf st → store_wf (prune_expired now grace st).2.
Proof.
  intros [Hk Ho]. constructor; cbn; [auto with py|].
  intros m l [_ Hin]%list_elem_of_filter. by apply Ho.
Qed.

#[export] Hint Resolve update_wf alloc_wf upsert_wf transition_wf prune_wf : py.

Lemma store_get_deref mrid l st :
  store_wf st → store_get mrid st = Some l → ∃ r, deref st l = Some r ∧ r_mrid r = mrid.
Proof. intros Hwf H. by apply (wf_objs _ Hwf), dict_get_elem. Qed.

(** The record stored under an mRID. *)
Definition lookup_record (st : EventStore) (mrid : bytes) : option EventRecord :=
  l ← store_get mrid st; deref st l.

Lemma store_get_prune mrid now grace st (l : loc) r :
  store_wf st → store_get mrid st = Some l → deref st l = Some r →
  store_get mrid (prune_expired now grace st).2 =
  if r_end r + grace <? now then None else Some l.
Proof.
  intros Hwf Hg Hr. pose proof (prune_wf now grace st Hwf) as [Hk' _].
  unfold store_get in *. cbn in *.
  destruct (r_end r + grace <? now) eqn:E.
  - apply dict_get_None. unfold dict_keys. rewrite list_elem_of_fmap.
    intros ([m l'] & -> & [Hne Hin]%list_elem_of_filter). cbn in *.
    apply (dict_elem_get _ _ _ (wf_keys _ Hwf)) in Hin. assert (l' = l) as -> by congruence.
    unfold is_expired, loc_test in Hne. cbn in Hne. rewrite Hr in Hne. congruence.
  - apply dict_elem_get; [done|]. apply list_elem_of_filter. split; [|by apply dict_get_elem].
    unfold is_expired, loc_test. cbn. by rewrite Hr.
Qed.

Lemma elem_of_all_active st (l : loc) :
  l ∈ all_active_states st ↔
  ∃ m r, (m, l) ∈ events st ∧ deref st l = Some r ∧ is_live (r_state r) = true.
Proof.
  unfold all_active_states. rewrite list_elem_of_filter. unfold dict_values, loc_test.
  rewrite list_elem_of_fmap. split.
  - intros [Ht ([m l'] & -> & Hin)]. cbn in *. destruct (deref st l') eqn:E; [|done]. eauto 10.
  - intros (m & r & Hin & Hr & Hl). rewrite Hr. split; [done|]. by exists (m, l).
Qed.

Lemma lifecycle_terminal s s' : is_live s = false → lifecycle s s' → s' = s.
Proof.
  intros Hs Hr. destruct Hr as [|s s1 s' Hstep _]; [done|].
  destruct Hstep; simplify_eq/=; congruence.
Qed.

(** ** Sample events for the witnesses *)

Definition sample_base (fields : list string) : DercontrolBase :=
  {| base_fields := (λ f, (f, FInt 5000)) <$> fields; other_element := [] |}.

(** A control that asks for every response, with no randomization. *)
Definition sample_control (mrid : bytes) (fields : list string) (start duration : Z)
    : Dercontrol :=
  {| m_rid := mrid; dercontrol_base := sample_base fields; interval_start := start;
     interval_duration := duration; randomize_start := None; randomize_duration := None;
     event_status := Some {| current_status := 0; status_date_time := Some 0 |};
     creation_time := Some 1; response_required := Some [7]; reply_to := Some "/rsp" |}.

Definition sample_record (mrid : bytes) (program : string) (primacy : Z) (state : EventState)
    (fields : list string) (start duration : Z) : EventRecord :=
  {| r_mrid := mrid; r_derc := sample_control mrid fields start duration; r_program := program;
     r_primacy := primacy; r_state := state; r_start := start; r_duration := duration;
     r_status_time := 0; r_creation := 1; r_superseded := ∅; r_superseded_modes := ∅;
     r_rejected := ∅; r_applied := ∅; r_applied_local := ∅; r_rejected_local := ∅;
     r_opted_out := false |}.
