(* ===== verification/Supersession.v ===== *)
(** * Supersession between events (events/supersession.py)

    [compute_supersession] compares each event only with the later events of
    the programs that reach a common device, found through two indexes.  The
    reference [all_pairs_supersession] compares every pair; the two return the
    same results in the same order. *)

From stdpp Require Import sorting.
From S2P Require Import Prelude Controls EventStore.

Record SupersessionResult := {
  superseded_mrid : bytes;
  superseding_mrid : bytes;
  affected_devices : gset string;
  superseded_program_href : string;
  superseding_program_href : string;
  affected_modes : gset string;
}.

Definition time_overlaps (a b : EventRecord) : bool :=
  (r_start a <? r_end b) && (r_start b <? r_end a).

(** [creation_time or server_status_time]: zero is falsy. *)
Definition tie_time (r : EventRecord) : Z :=
  if r_creation r =? 0 then r_status_time r else r_creation r.

(** [(winner, loser)] *)
Definition pick_winner (a b : EventRecord) : EventRecord * EventRecord :=
  if r_primacy a <? r_primacy b then (a, b)
  else if r_primacy b <? r_primacy a then (b, a)
  else if tie_time b <=? tie_time a then (a, b)
  else (b, a).

Abbreviation device_map := (dict string (gset string)) (only parsing).

Definition devices_of (p2d : device_map) (program : string) : gset string :=
  default ∅ (dict_get program p2d).

(** The body of the inner loop for one pair, after the [checked] test. *)
Definition judge_pair (p2d : device_map) (a b : EventRecord) : option SupersessionResult :=
  if negb (time_overlaps a b) then None
  else
    let params_a := compared_mode_keys (dercontrol_base (r_derc a)) in
    let params_b := compared_mode_keys (dercontrol_base (r_derc b)) in
    let overlap := params_a ∩ params_b in
    if bool_decide (params_a ≠ params_b) && bool_decide (overlap = ∅) then None
    else
      let '(winner, loser) := pick_winner a b in
      let affected := devices_of p2d (r_program winner) ∩ devices_of p2d (r_program loser) in
      if bool_decide (affected = ∅) then None
      else Some {| superseded_mrid := r_mrid loser;
                   superseding_mrid := r_mrid winner;
                   affected_devices := affected;
                   superseded_program_href := r_program loser;
                   superseding_program_href := r_program winner;
                   affected_modes := overlap |}.

(** ** The indexed algorithm *)

(** [programs_on]: the programs that reach each device. *)
Definition add_program (program : string) (on : gmap string (gset string)) (device : string)
    : gmap string (gset string) :=
  <[device := {[program]} ∪ default ∅ (on !! device)]> on.

Definition programs_on (p2d : device_map) : gmap string (gset string) :=
  foldl (λ on pd, foldl (add_program pd.1) on (elements pd.2)) ∅ p2d.

Definition programs_sharing (p2d : device_map) (program : string) : gset string :=
  match dict_get program p2d with
  | None => ∅
  | Some devices => ⋃ ((λ d, default ∅ (programs_on p2d !! d)) <$> elements devices)
  end.

(** [indices_of]: the positions of each program's events, in order. *)
Fixpoint index_events (index : nat) (events : list EventRecord) (acc : dict string (list nat))
    : dict string (list nat) :=
  match events with
  | [] => acc
  | e :: rest =>
      index_events (S index) rest
        (dict_set (r_program e) (default [] (dict_get (r_program e) acc) ++ [index]) acc)
  end.

Definition indices_of (events : list EventRecord) : dict string (list nat) :=
  index_events 0 events [].

(** [bisect.bisect_right] on a sorted list: how many entries are at most [x]. *)
Definition bisect_right (l : list nat) (x : nat) : nat := length (filter (λ y, (y <= x)%nat) l).

Definition later_indices (p2d : device_map) (events : list EventRecord) (i : nat)
    (a : EventRecord) : list nat :=
  merge_sort le
    (mjoin ((λ program,
              let indices := default [] (dict_get program (indices_of events)) in
              drop (bisect_right indices i) indices)
            <$> elements (programs_sharing p2d (r_program a)))).

(** [min] and [max] of two byte strings. *)
Definition bytes_min (a b : bytes) : bytes := if String.ltb b a then b else a.
Definition bytes_max (a b : bytes) : bytes := if String.ltb a b then b else a.
Definition pair_key (a b : EventRecord) : bytes * bytes :=
  (bytes_min (r_mrid a) (r_mrid b), bytes_max (r_mrid a) (r_mrid b)).

Abbreviation sup_acc := (list SupersessionResult * gset (bytes * bytes))%type (only parsing).

Definition compare_one (p2d : device_map) (events : list EventRecord) (a : EventRecord)
    (acc : sup_acc) (j : nat) : sup_acc :=
  match events !! j with
  | None => acc
  | Some b =>
      let key := pair_key a b in
      if bool_decide (key ∈ acc.2) then acc
      else (match judge_pair p2d a b with
            | Some r => acc.1 ++ [r]
            | None => acc.1
            end, {[key]} ∪ acc.2)
  end.

Definition compare_later (p2d : device_map) (events : list EventRecord)
    (acc : sup_acc) (ia : nat * EventRecord) : sup_acc :=
  foldl (compare_one p2d events ia.2) acc (later_indices p2d events ia.1 ia.2).

Definition compute_supersession (events : list EventRecord) (p2d : device_map)
    : list SupersessionResult :=
  (foldl (compare_later p2d events) ([], ∅) (imap (λ i a, (i, a)) events)).1.

(** ** The reference: every pair, in list order *)

Fixpoint all_pairs_supersession (events : list EventRecord) (p2d : device_map)
    : list SupersessionResult :=
  match events with
  | [] => []
  | a :: rest => omap (judge_pair p2d a) rest ++ all_pairs_supersession rest p2d
  end.

(** ** The indexes *)

Lemma add_program_spec p p' d l on :
  p' ∈ default ∅ (foldl (add_program p) on l !! d) ↔
  p' ∈ default ∅ (on !! d) ∨ (p' = p ∧ d ∈ l).
Proof.
  revert on. induction l as [|d0 l IH]; intros on; cbn [foldl].
  - rewrite elem_of_nil. naive_solver.
  - rewrite IH. unfold add_program. rewrite elem_of_cons, lookup_insert.
    case_decide; subst; cbn; set_solver.
Qed.

Lemma programs_on_spec p d (p2d : device_map) :
  p ∈ default ∅ (programs_on p2d !! d) ↔ ∃ ds, (p, ds) ∈ p2d ∧ d ∈ ds.
Proof.
  assert (∀ on, p ∈ default ∅ (foldl (λ on pd, foldl (add_program pd.1) on (elements pd.2))
                                 on p2d !! d) ↔
                p ∈ default ∅ (on !! d) ∨ ∃ ds, (p, ds) ∈ p2d ∧ d ∈ ds) as H.
  { induction p2d as [|[q ds] p2d IH]; intros on; cbn [foldl].
    - setoid_rewrite elem_of_nil. naive_solver.
    - rewrite IH, add_program_spec. cbn. rewrite elem_of_elements.
      setoid_rewrite elem_of_cons. naive_solver. }
  unfold programs_on. rewrite H, lookup_empty. cbn. set_solver.
Qed.

Lemma programs_sharing_spec q p (p2d : device_map) :
  dict_wf p2d →
  q ∈ programs_sharing p2d p ↔ devices_of p2d p ∩ devices_of p2d q ≠ ∅.
Proof.
  intros Hwf. unfold programs_sharing, devices_of.
  destruct (dict_get p p2d) as [dp|] eqn:Ep; cbn; [|set_solver].
  rewrite elem_of_union_list. split.
  - intros (X & (d & -> & Hd%elem_of_elements)%list_elem_of_fmap & Hq).
    apply programs_on_spec in Hq as (dq & Hin & Hdq).
    apply (dict_elem_get _ _ _ Hwf) in Hin. rewrite Hin. cbn. set_solver.
  - intros [d Hd]%set_choose_L. apply elem_of_intersection in Hd as [Hdp Hdq].
    exists (default ∅ (programs_on p2d !! d)). split.
    + apply list_elem_of_fmap. exists d. split; [done|]. by apply elem_of_elements.
    + apply programs_on_spec. destruct (dict_get q p2d) as [dq|] eqn:Eq; cbn in Hdq; [|set_solver].
      exists dq. split; [by apply dict_get_elem | done].
Qed.

(** The positions of the events that satisfy [P], counting from [k]. *)
Section Positions.
Context (P : EventRecord → Prop) `{∀ e, Decision (P e)}.

Fixpoint positions (k : nat) (events : list EventRecord) : list nat :=
  match events with
  | [] => []
  | e :: rest => if decide (P e) then k :: positions (S k) rest else positions (S k) rest
  end.

Lemma elem_of_positions k events i :
  i ∈ positions k events ↔ (k <= i)%nat ∧ ∃ e, events !! (i - k)%nat = Some e ∧ P e.
Proof.
  revert k. induction events as [|e rest IH]; intros k; cbn.
  - rewrite elem_of_nil. split; [done|]. intros (? & ? & ? & _). done.
  - assert (i ∈ positions (S k) rest ↔
            (k < i)%nat ∧ ∃ e', (e :: rest) !! (i - k)%nat = Some e' ∧ P e') as Hrest.
    { rewrite IH. split; intros [Hle (e' & He & Hp)]; (split; [lia|]); exists e';
        (split; [|done]); replace (i - k)%nat with (S (i - S k)) in * by lia; done. }
    destruct (decide (P e)) as [Hp|Hp]; [rewrite elem_of_cons|]; rewrite Hrest.
    + split; [intros [->|[? ?]]|intros [Hle ?]].
      * split; [lia|]. exists e. by rewrite Nat.sub_diag.
      * split; [lia|done].
      * destruct (decide (i = k)); [by left|right]. split; [lia|done].
    + split; intros [Hle (e' & He & Hp')]; (split; [|by eauto]); [lia|].
      destruct (decide (i = k)) as [->|]; [|lia]. rewrite Nat.sub_diag in He. by simplify_eq/=.
Qed.

Lemma positions_sorted k events : StronglySorted lt (positions k events).
Proof.
  revert k. induction events as [|e rest IH]; intros k; cbn; [constructor|].
  case_decide; [|apply IH]. constructor; [apply IH|].
  apply Forall_forall. intros i [Hi _]%elem_of_positions. lia.
Qed.

Lemma omap_positions pre events :
  omap (λ j, (pre ++ events) !! j) (positions (length pre) events) = filter P events.
Proof.
  revert pre. induction events as [|e rest IH]; intros pre; [done|]. cbn [positions].
  replace (S (length pre)) with (length (pre ++ [e])) by (rewrite length_app; cbn; lia).
  rewrite filter_cons. replace (pre ++ e :: rest) with ((pre ++ [e]) ++ rest)
    by by rewrite <- app_assoc.
  destruct (decide (P e)); [|apply IH].
  assert (((pre ++ [e]) ++ rest) !! length pre = Some e) as He
    by (rewrite <- app_assoc; by apply list_lookup_middle).
  cbn [omap list_omap]. by rewrite He, IH.
Qed.
End Positions.

Lemma index_events_spec k events acc p :
  default [] (dict_get p (index_events k events acc)) =
  default [] (dict_get p acc) ++ positions (λ e, r_program e = p) k events.
Proof.
  revert k acc. induction events as [|e rest IH]; intros k acc; cbn.
  - by rewrite app_nil_r.
  - rewrite IH, dict_get_set. destruct (decide (r_program e = p)) as [<-|Hne].
    + rewrite decide_True by done. cbn. by rewrite <- app_assoc.
    + by rewrite decide_False by done.
Qed.

Lemma indices_of_spec events p :
  default [] (dict_get p (indices_of events)) = positions (λ e, r_program e = p) 0 events.
Proof. unfold indices_of. by rewrite index_events_spec. Qed.

Lemma strictly_sorted_NoDup (l : list nat) : StronglySorted lt l → NoDup l.
Proof.
  induction 1 as [|x l Hs IH Hall]; constructor; [|done]. rewrite Forall_forall in Hall.
  intros Hx%Hall. lia.
Qed.

Lemma strictly_sorted_le (l : list nat) : StronglySorted lt l → StronglySorted le l.
Proof.
  induction 1 as [|x l Hs IH Hall]; constructor; [done|].
  eapply Forall_impl; [exact Hall|]. intros. lia.
Qed.

Lemma drop_bisect_right l i :
  StronglySorted lt l → drop (bisect_right l i) l = filter (λ y, (i < y)%nat) l.
Proof.
  unfold bisect_right. induction 1 as [|x l Hs IH Hall]; [done|].
  rewrite Forall_forall in Hall.
  rewrite (filter_cons (λ y, (y <= i)%nat)), (filter_cons (λ y, (i < y)%nat)).
  destruct (decide (x <= i)%nat) as [Hle|Hgt].
  - rewrite (decide_False (P := (i < x)%nat)) by lia. apply IH.
  - rewrite (decide_True (P := (i < x)%nat)) by lia.
    rewrite filter_none, filter_all; [done| |].
    + intros y Hy%Hall. lia.
    + intros y Hy%Hall. lia.
Qed.

Lemma elem_of_later p2d events i a j :
  j ∈ later_indices p2d events i a ↔
  (i < j)%nat ∧ ∃ b, events !! j = Some b ∧ r_program b ∈ programs_sharing p2d (r_program a).
Proof.
  unfold later_indices. rewrite merge_sort_Permutation, list_elem_of_join.
  setoid_rewrite list_elem_of_fmap. split.
  - intros (l & Hj & (p & -> & Hp%elem_of_elements)).
    rewrite indices_of_spec, drop_bisect_right in Hj by apply positions_sorted.
    apply list_elem_of_filter in Hj as [Hij (_ & b & Hb & <-)%elem_of_positions].
    rewrite Nat.sub_0_r in Hb. eauto.
  - intros (Hij & b & Hb & Hp). eexists.
    split; [|exists (r_program b); split; [done|]; by apply elem_of_elements].
    rewrite indices_of_spec, drop_bisect_right by apply positions_sorted.
    apply list_elem_of_filter. split; [done|]. apply elem_of_positions.
    split; [lia|]. rewrite Nat.sub_0_r. eauto.
Qed.

Lemma later_NoDup p2d events i a : NoDup (later_indices p2d events i a).
Proof.
  unfold later_indices. rewrite merge_sort_Permutation.
  assert (NoDup (elements (programs_sharing p2d (r_program a)))) as Hnd by apply NoDup_elements.
  induction Hnd as [|p ps Hp Hnd IH]; cbn; [constructor|].
  apply NoDup_app. split; [|split; [|done]].
  - rewrite indices_of_spec, drop_bisect_right by apply positions_sorted.
    apply NoDup_filter. apply strictly_sorted_NoDup, positions_sorted.
  - intros j Hj Hj'.
    rewrite indices_of_spec, drop_bisect_right in Hj by apply positions_sorted.
    apply list_elem_of_filter in Hj as [_ (_ & b & Hb & <-)%elem_of_positions].
    apply list_elem_of_join in Hj' as (l & Hj' & (q & -> & Hq)%list_elem_of_fmap).
    rewrite indices_of_spec, drop_bisect_right in Hj' by apply positions_sorted.
    apply list_elem_of_filter in Hj' as [_ (_ & b' & Hb' & <-)%elem_of_positions].
    congruence.
Qed.

Lemma later_sorted p2d events i a : StronglySorted le (later_indices p2d events i a).
Proof. apply Sorted_StronglySorted, Sorted_merge_sort; apply _. Qed.

(** The events at the later positions are the tail's events of sharing programs. *)
Lemma later_events p2d pre a suf :
  omap (λ j, (pre ++ a :: suf) !! j)
       (later_indices p2d (pre ++ a :: suf) (length pre) a) =
  filter (λ b, r_program b ∈ programs_sharing p2d (r_program a)) suf.
Proof.
  set (events := pre ++ a :: suf).
  assert (later_indices p2d events (length pre) a =
          positions (λ b, r_program b ∈ programs_sharing p2d (r_program a))
                    (length (pre ++ [a])) suf) as ->.
  { apply (StronglySorted_unique le).
    - apply later_sorted.
    - apply strictly_sorted_le, positions_sorted.
    - apply NoDup_Permutation; [apply later_NoDup | apply strictly_sorted_NoDup, positions_sorted|].
      intros j. rewrite elem_of_later, elem_of_positions, length_app. cbn [length].
      unfold events. split; intros [Hlt (b & Hb & Hs)]; (split; [lia|]); exists b; (split; [|done]).
      + rewrite lookup_app_r in Hb by lia.
        replace (j - length pre)%nat with (S (j - (length pre + 1))) in Hb by lia. done.
      + rewrite lookup_app_r by lia.
        replace (j - length pre)%nat with (S (j - (length pre + 1))) by lia. done. }
  unfold events. replace (pre ++ a :: suf) with ((pre ++ [a]) ++ suf) by by rewrite <- app_assoc.
  apply omap_positions.
Qed.

(** ** Pairs are compared once *)

Lemma pair_key_inj a b c d :
  pair_key a b = pair_key c d →
  (r_mrid a = r_mrid c ∧ r_mrid b = r_mrid d) ∨ (r_mrid a = r_mrid d ∧ r_mrid b = r_mrid c).
Proof.
  unfold pair_key, bytes_min, bytes_max. intros [= H1 H2].
  pose proof (String.compare_antisym (r_mrid a) (r_mrid b)) as Hab.
  pose proof (String.compare_antisym (r_mrid c) (r_mrid d)) as Hcd.
  unfold String.ltb in *. rewrite Hab in *. rewrite Hcd in *.
  destruct (r_mrid b ?= r_mrid a)%string eqn:E1, (r_mrid d ?= r_mrid c)%string eqn:E2; cbn in *;
    try (apply String.compare_eq_iff in E1); try (apply String.compare_eq_iff in E2);
    intuition congruence.
Qed.

Section Equivalence.
Context (p2d : device_map) (events : list EventRecord).
Hypothesis p2d_wf : dict_wf p2d.
Hypothesis mrids_distinct : NoDup (r_mrid <$> events).

Lemma mrid_position i j a b :
  events !! i = Some a → events !! j = Some b → r_mrid a = r_mrid b → i = j.
Proof.
  intros Ha Hb E. eapply (NoDup_lookup _ i j (r_mrid a)); [exact mrids_distinct| |].
  - by rewrite list_lookup_fmap, Ha.
  - rewrite list_lookup_fmap, Hb. cbn. by rewrite E.
Qed.

Lemma compare_one_fold a js acc :
  NoDup js →
  (∀ j b, j ∈ js → events !! j = Some b → pair_key a b ∉ acc.2) →
  let acc' := foldl (compare_one p2d events a) acc js in
  acc'.1 = acc.1 ++ omap (judge_pair p2d a) (omap (λ j, events !! j) js) ∧
  ∀ k, k ∈ acc'.2 → k ∈ acc.2 ∨ ∃ j b, j ∈ js ∧ events !! j = Some b ∧ k = pair_key a b.
Proof.
  intros Hnd. revert acc. induction Hnd as [|j js Hj Hnd IH]; intros acc Hacc; cbn [foldl].
  { split; [by rewrite app_nil_r | auto]. }
  assert (∀ b, events !! j = Some b → ∀ j' b', j' ∈ js → events !! j' = Some b' →
               pair_key a b' ≠ pair_key a b) as Hother.
  { intros b Hb j' b' Hj' Hb' Heq. apply pair_key_inj in Heq.
    assert (j = j') as ->; [|done]. eapply mrid_position; [done..|]. naive_solver congruence. }
  destruct (IH (compare_one p2d events a acc j)) as [IH1 IH2].
  { intros j' b' Hj' Hb'. unfold compare_one. destruct (events !! j) as [b|] eqn:Eb.
    - rewrite bool_decide_false by (apply (Hacc j); [left|done]). cbn.
      specialize (Hacc j' b' ltac:(by right) Hb'). specialize (Hother b eq_refl j' b' Hj' Hb').
      set_solver.
    - apply (Hacc j'); [by right|done]. }
  cbn zeta in *. split.
  - rewrite IH1. unfold compare_one. cbn [omap list_omap]. destruct (events !! j) as [b|] eqn:Eb; [|done].
    rewrite bool_decide_false by (apply (Hacc j); [left|done]). cbn.
    destruct (judge_pair p2d a b); [by rewrite <- app_assoc | done].
  - intros k Hk%IH2. destruct Hk as [Hk|(j' & b' & ? & ? & ?)]; [|right; exists j', b'; set_solver].
    unfold compare_one in Hk. destruct (events !! j) as [b|] eqn:Eb; [|auto].
    rewrite bool_decide_false in Hk by (apply (Hacc j); [left|done]). cbn in Hk.
    apply elem_of_union in Hk as [->%elem_of_singleton|?]; [|auto].
    right. exists j, b. set_solver.
Qed.

(** No device in common, no result. *)
Lemma judge_needs_sharing a b r :
  judge_pair p2d a b = Some r → r_program b ∈ programs_sharing p2d (r_program a).
Proof.
  intros H. apply programs_sharing_spec; [done|]. revert H. unfold judge_pair, pick_winner.
  repeat case_match; simplify_eq; try done;
    match goal with H : bool_decide (_ = ∅) = false |- _ => apply bool_decide_eq_false in H end;
    set_solver.
Qed.

Lemma judge_filter_sharing a (l : list EventRecord) :
  omap (judge_pair p2d a) (filter (λ b, r_program b ∈ programs_sharing p2d (r_program a)) l) =
  omap (judge_pair p2d a) l.
Proof.
  induction l as [|b l IH]; [done|]. rewrite filter_cons. cbn [omap list_omap]. case_decide as Hs.
  - cbn [omap list_omap]. by rewrite IH.
  - destruct (judge_pair p2d a b) eqn:E; [|done]. by apply judge_needs_sharing in E.
Qed.

Lemma compare_later_fold pre suf acc :
  events = pre ++ suf →
  (∀ k, k ∈ acc.2 → ∃ i j a b, (i < length pre)%nat ∧ (i < j)%nat ∧
     events !! i = Some a ∧ events !! j = Some b ∧ k = pair_key a b) →
  (foldl (compare_later p2d events) acc (imap (λ i a, ((length pre + i)%nat, a)) suf)).1 =
  acc.1 ++ all_pairs_supersession suf p2d.
Proof.
  revert pre acc. induction suf as [|a suf IH]; intros pre acc Hev Hacc.
  { cbn. by rewrite app_nil_r. }
  rewrite imap_cons. cbn [foldl all_pairs_supersession]. rewrite Nat.add_0_r.
  assert (events !! length pre = Some a) as Ha by (subst; by apply list_lookup_middle).
  destruct (compare_one_fold a (later_indices p2d events (length pre) a) acc) as [H1 H2].
  { apply later_NoDup. }
  { intros j b Hj Hb Hin. apply elem_of_later in Hj as [Hlt _].
    destruct (Hacc _ Hin) as (i' & j' & a' & b' & Hi' & Hij & Ha' & Hb' & Heq).
    apply pair_key_inj in Heq as [[E1 E2]|[E1 E2]].
    - assert (length pre = i') by (eapply mrid_position; eauto). lia.
    - assert (length pre = j') by (eapply mrid_position; eauto).
      assert (j = i') by (eapply mrid_position; eauto). lia. }
  cbn zeta in H1, H2. specialize (IH (pre ++ [a]) (compare_later p2d events acc (length pre, a))).
  rewrite length_app in IH. cbn [length] in IH.
  rewrite (imap_ext ((λ i x, ((length pre + i)%nat, x)) ∘ S) (λ i x, ((length pre + 1 + i)%nat, x)))
    by (intros; cbn; f_equal; lia).
  rewrite IH.
  - unfold compare_later at 1. cbn [fst snd]. rewrite H1, <- app_assoc. f_equal. f_equal.
    rewrite Hev, later_events. apply judge_filter_sharing.
  - by rewrite <- app_assoc.
  - intros k Hk. apply H2 in Hk as [Hk|(j & b & Hj & Hb & ->)].
    + destruct (Hacc _ Hk) as (i' & j' & a' & b' & ? & ?). exists i', j', a', b'. split; [lia|done].
    + apply elem_of_later in Hj as [Hlt _]. exists (length pre), j, a, b. split; [lia|done].
Qed.

Lemma compute_supersession_all_pairs :
  compute_supersession events p2d = all_pairs_supersession events p2d.
Proof.
  unfold compute_supersession. pose proof (compare_later_fold [] events ([], ∅) eq_refl) as H.
  cbn [length Nat.add fst] in H. rewrite H; [done|]. set_solver.
Qed.
End Equivalence.

(** ** What a result says *)

Lemma elem_of_all_pairs r events p2d :
  r ∈ all_pairs_supersession events p2d ↔
  ∃ i j a b, (i < j)%nat ∧ events !! i = Some a ∧ events !! j = Some b ∧
             judge_pair p2d a b = Some r.
Proof.
  induction events as [|e events IH]; cbn [all_pairs_supersession].
  - rewrite elem_of_nil. split; [done|]. intros (i & j & a & b & _ & Ha & _). done.
  - rewrite elem_of_app, IH, list_elem_of_omap. split.
    + intros [(b & [k Hk]%list_elem_of_lookup & Hj)|(i & j & a & b & Hlt & Ha & Hb & Hj)].
      * exists 0%nat, (S k), e, b. split; [lia|done].
      * exists (S i), (S j), a, b. split; [lia|done].
    + intros (i & j & a & b & Hlt & Ha & Hb & Hj). destruct i as [|i], j as [|j]; try lia.
      * left. simplify_eq/=. exists b. split; [|done]. apply list_elem_of_lookup. eauto.
      * right. exists i, j, a, b. split; [lia|done].
Qed.

Lemma pick_winner_order a b w l :
  pick_winner a b = (w, l) →
  ((w, l) = (a, b) ∨ (w, l) = (b, a)) ∧ r_primacy w <= r_primacy l ∧
  (r_primacy w = r_primacy l → tie_time l <= tie_time w).
Proof. unfold pick_winner. repeat case_match; intros [= <- <-]; split; auto; lia. Qed.

(** The pairs [judge_pair] reports, and what it reports about them. *)
Lemma judge_pair_spec p2d a b r :
  judge_pair p2d a b = Some r ↔
  ∃ w l, pick_winner a b = (w, l) ∧ time_overlaps a b = true ∧
    (compared_mode_keys (dercontrol_base (r_derc a)) = compared_mode_keys (dercontrol_base (r_derc b))
     ∨ compared_mode_keys (dercontrol_base (r_derc a))
       ∩ compared_mode_keys (dercontrol_base (r_derc b)) ≠ ∅) ∧
    devices_of p2d (r_program w) ∩ devices_of p2d (r_program l) ≠ ∅ ∧
    r = {| superseded_mrid := r_mrid l; superseding_mrid := r_mrid w;
           affected_devices := devices_of p2d (r_program w) ∩ devices_of p2d (r_program l);
           superseded_program_href := r_program l; superseding_program_href := r_program w;
           affected_modes := compared_mode_keys (dercontrol_base (r_derc a))
                             ∩ compared_mode_keys (dercontrol_base (r_derc b)) |}.
Proof.
  unfold judge_pair. destruct (pick_winner a b) as [w l].
  destruct (time_overlaps a b); cbn [negb].
  2: { split; [done|]. by intros (? & ? & _ & [=] & _). }
  set (ka := compared_mode_keys _). set (kb := compared_mode_keys _).
  assert (bool_decide (ka ≠ kb) && bool_decide (ka ∩ kb = ∅) = false ↔ ka = kb ∨ ka ∩ kb ≠ ∅) as Hm.
  { rewrite andb_false_iff, !bool_decide_eq_false. destruct (decide (ka = kb)); tauto. }
  destruct (_ && _) eqn:E.
  { split; [done|]. intros (? & ? & _ & _ & Hc & _). by apply Hm in Hc. }
  pose proof (proj1 Hm eq_refl) as Hk. clear E Hm. case_bool_decide as Hd; split.
  - done.
  - intros (w' & l' & [= <- <-] & _ & _ & Hd' & _). by destruct Hd'.
  - intros [= <-]. exists w, l. auto.
  - intros (w' & l' & [= <- <-] & _ & _ & _ & ->). done.
Qed.

(** C2: [compute_supersession], which looks only at the later events of
    programs sharing a device and skips pairs it has seen, returns the results
    of comparing every pair of events, in the same order, whenever the events
    have distinct mRIDs (as the store's do). *)
Theorem supersession_equals_all_pairs (events : list EventRecord) (p2d : device_map) :
  dict_wf p2d → NoDup (r_mrid <$> events) →
  compute_supersession events p2d = all_pairs_supersession events p2d.
Proof. apply compute_supersession_all_pairs. Qed.

Definition sample_p2d : device_map :=
  [("/derp/1", {["/edev/1"; "/edev/2"]}); ("/derp/2", {["/edev/2"]}); ("/derp/3", {["/edev/3"]})].

Definition sample_events : list EventRecord :=
  [sample_record "A1" "/derp/1" 2 ACTIVE ["op_mod_fixed_w"] 100 50;
   sample_record "B2" "/derp/2" 1 ACTIVE ["op_mod_fixed_w"; "op_mod_connect"] 120 50;
   sample_record "C3" "/derp/3" 0 ACTIVE ["op_mod_fixed_w"] 100 50;
   sample_record "D4" "/derp/1" 2 SCHEDULED ["op_mod_max_lim_w"] 110 10].

Lemma supersession_equals_all_pairs_witness :
  compute_supersession sample_events sample_p2d = all_pairs_supersession sample_events sample_p2d ∧
  length (compute_supersession sample_events sample_p2d) = 1%nat.
Proof.
  split.
  - apply supersession_equals_all_pairs; apply (bool_decide_unpack _); vm_compute; exact I.
  - vm_compute. reflexivity.
Defined.

(** Every reported supersession is between two of the events that overlap
    in time and share compared modes (or set the same ones), names the devices
    both programs reach, and its winner has the lower primacy number, or on
    equal primacy a creation time no older than the loser's; and every such
    pair is reported. *)
Theorem supersession_results (events : list EventRecord) (p2d : device_map)
    (r : SupersessionResult) :
  dict_wf p2d → NoDup (r_mrid <$> events) →
  r ∈ compute_supersession events p2d ↔
  ∃ i j a b w l,
    (i < j)%nat ∧ events !! i = Some a ∧ events !! j = Some b ∧ pick_winner a b = (w, l) ∧
    (r_primacy w < r_primacy l ∨ r_primacy w = r_primacy l ∧ tie_time l <= tie_time w) ∧
    time_overlaps a b = true ∧
    (compared_mode_keys (dercontrol_base (r_derc a)) = compared_mode_keys (dercontrol_base (r_derc b))
     ∨ compared_mode_keys (dercontrol_base (r_derc a))
       ∩ compared_mode_keys (dercontrol_base (r_derc b)) ≠ ∅) ∧
    devices_of p2d (r_program w) ∩ devices_of p2d (r_program l) ≠ ∅ ∧
    r = {| superseded_mrid := r_mrid l; superseding_mrid := r_mrid w;
           affected_devices := devices_of p2d (r_program w) ∩ devices_of p2d (r_program l);
           superseded_program_href := r_program l; superseding_program_href := r_program w;
           affected_modes := compared_mode_keys (dercontrol_base (r_derc a))
                             ∩ compared_mode_keys (dercontrol_base (r_derc b)) |}.
Proof.
  intros Hwf Hnd. rewrite compute_supersession_all_pairs, elem_of_all_pairs by done. split.
  - intros (i & j & a & b & Hlt & Ha & Hb & Hj).
    apply judge_pair_spec in Hj as (w & l & Hw & Ht & Hm & Hd & Hr).
    exists i, j, a, b, w, l. destruct (pick_winner_order _ _ _ _ Hw) as (_ & Hp & Htie).
    repeat (split; [done || lia|]). done.
  - intros (i & j & a & b & w & l & Hlt & Ha & Hb & Hw & _ & Ht & Hm & Hd & Hr).
    exists i, j, a, b. rewrite judge_pair_spec. eauto 20.
Qed.

Lemma supersession_results_witness :
  Exists (λ r, superseding_mrid r = "B2" ∧ superseded_mrid r = "A1")
    (compute_supersession sample_events sample_p2d).
Proof.
  apply Exists_exists. eexists. split.
  - apply supersession_results; [apply (bool_decide_unpack _); vm_compute; exact I .. |].
    exists 0%nat, 1%nat. do 4 eexists.
    split; [lia|]. split; [reflexivity|]. split; [reflexivity|]. split; [reflexivity|].
    split; [left; reflexivity|]. split; [reflexivity|].
    split; [right; apply (bool_decide_unpack _); vm_compute; exact I|].
    split; [apply (bool_decide_unpack _); vm_compute; exact I|]. reflexivity.
  - split; reflexivity.
Defined.
