(* ===== verification/Randomization.v ===== *)
(** * Per-mRID randomization of event timing (events/randomization.py)

    [random.randint] is the environment's: [randint i m] is what the [i]-th
    draw of a call returns for [random.randint(0, m)]. *)

From S2P Require Import Prelude Controls.

Record RandCache := mkRand {
  rc_cache : dict bytes (Z * Z);   (* mRID -> (start_offset, duration_offset) *)
  rc_expiry : dict bytes Z;        (* mRID -> effective end *)
}.

Definition empty_rand : RandCache := mkRand [] [].

Definition compute_offset (randint : Z → Z) (value : option Z) : Z :=
  match value with
  | None => 0
  | Some raw =>
      if raw =? 0 then 0
      else
        let magnitude := Z.abs raw in
        let sign := if 0 <? raw then 1 else -1 in
        sign * randint magnitude
  end.

(** [get_offsets] reads only the event's mRID and randomization fields. *)
Definition get_offsets (randint : nat → Z → Z) (mrid : bytes) (rand_start rand_duration : option Z)
    (start duration : Z) (rc : RandCache) : (Z * Z) * RandCache :=
  match dict_get mrid (rc_cache rc) with
  | Some offsets => (offsets, rc)
  | None =>
      let start_offset := compute_offset (randint 0%nat) rand_start in
      let dur_offset := compute_offset (randint 1%nat) rand_duration in
      ((start_offset, dur_offset),
       mkRand (dict_set mrid (start_offset, dur_offset) (rc_cache rc))
              (dict_set mrid (start + start_offset + duration + dur_offset) (rc_expiry rc)))
  end.

Definition RAND_GRACE : Z := 10.

(** The deletion loop; [None] is the [KeyError] of a missing key. *)
Fixpoint delete_entries (expired : list bytes) (rc : RandCache) : option RandCache :=
  match expired with
  | [] => Some rc
  | mrid :: rest =>
      c ← dict_del_key mrid (rc_cache rc);
      e ← dict_del_key mrid (rc_expiry rc);
      delete_entries rest (mkRand c e)
  end.

Definition rand_prune (now grace : Z) (rc : RandCache) : option RandCache :=
  delete_entries (filter (λ me, me.2 + grace < now) (rc_expiry rc)).*1 rc.

Definition override_start_offset (mrid : bytes) (new_start_offset raw_start raw_duration : Z)
    (rc : RandCache) : RandCache :=
  match dict_get mrid (rc_cache rc) with
  | None => rc
  | Some (_, dur_offset) =>
      mkRand (dict_set mrid (new_start_offset, dur_offset) (rc_cache rc))
             (dict_set mrid (raw_start + new_start_offset + raw_duration + dur_offset)
                       (rc_expiry rc))
  end.

(** ** Invariant: the two dictionaries hold the same mRIDs *)

Record rand_wf (rc : RandCache) : Prop := {
  rand_cache_wf : dict_wf (rc_cache rc);
  rand_expiry_wf : dict_wf (rc_expiry rc);
  rand_same_keys : ∀ m, m ∈ dict_keys (rc_cache rc) ↔ m ∈ dict_keys (rc_expiry rc);
}.

Lemma get_offsets_wf randint mrid rs rd s d rc :
  rand_wf rc → rand_wf (get_offsets randint mrid rs rd s d rc).2.
Proof.
  intros [Hc He Hk]. unfold get_offsets. destruct (dict_get mrid (rc_cache rc)); [done|].
  constructor; cbn; auto with py. intros m. rewrite !elem_of_dict_set_keys, Hk. done.
Qed.

Lemma override_wf mrid o s d rc : rand_wf rc → rand_wf (override_start_offset mrid o s d rc).
Proof.
  intros [Hc He Hk]. unfold override_start_offset.
  destruct (dict_get mrid (rc_cache rc)) as [[? ?]|]; [|done].
  constructor; cbn; auto with py. intros m. rewrite !elem_of_dict_set_keys, Hk. done.
Qed.

Lemma delete_entries_ok ms rc :
  rand_wf rc → NoDup ms → (∀ m, m ∈ ms → m ∈ dict_keys (rc_expiry rc)) →
  ∃ rc', delete_entries ms rc = Some rc' ∧ rand_wf rc' ∧
    (∀ m, dict_get m (rc_cache rc') = if decide (m ∈ ms) then None else dict_get m (rc_cache rc)) ∧
    (∀ m, dict_get m (rc_expiry rc') = if decide (m ∈ ms) then None else dict_get m (rc_expiry rc)).
Proof.
  intros Hwf Hnd. revert rc Hwf. induction Hnd as [|m ms Hm Hnd IH]; intros rc Hwf Hin.
  - exists rc. split; [done|]. split; [done|].
    split; intros; rewrite decide_False by apply not_elem_of_nil; done.
  - cbn [delete_entries]. destruct Hwf as [Hc He Hk].
    assert (m ∈ dict_keys (rc_expiry rc)) as Hme by (apply Hin; left).
    assert (m ∈ dict_keys (rc_cache rc)) as Hmc by (by apply Hk).
    unfold dict_del_key. apply dict_mem_spec in Hme as ->. apply dict_mem_spec in Hmc as ->. cbn.
    destruct (IH (mkRand (dict_del m (rc_cache rc)) (dict_del m (rc_expiry rc))))
      as (rc' & -> & Hwf' & Hg1 & Hg2).
    + constructor; cbn; auto with py. intros m'. rewrite !dict_del_keys, Hk. done.
    + intros m' Hm'. cbn. apply dict_del_keys. split; [apply Hin; by right|]. congruence.
    + exists rc'. split; [done|]. split; [done|].
      split; intros m'; rewrite ?Hg1, ?Hg2; cbn; rewrite dict_get_del;
        repeat case_decide; set_solver.
Qed.

Lemma rand_prune_ok now grace rc :
  rand_wf rc →
  ∃ rc', rand_prune now grace rc = Some rc' ∧ rand_wf rc' ∧
    ∀ m e, dict_get m (rc_expiry rc) = Some e →
      dict_get m (rc_cache rc') = (if e + grace <? now then None else dict_get m (rc_cache rc)).
Proof.
  intros Hwf. unfold rand_prune.
  set (ms := (filter _ _).*1).
  assert (∀ m e, dict_get m (rc_expiry rc) = Some e → m ∈ ms ↔ e + grace < now) as Hms.
  { intros m e He. unfold ms. rewrite list_elem_of_fmap. setoid_rewrite list_elem_of_filter. split.
    - intros ([m' e'] & -> & Hlt & Hin). cbn in *.
      apply (dict_elem_get _ _ _ (rand_expiry_wf _ Hwf)) in Hin. congruence.
    - intros Hlt. exists (m, e). split; [done|]. split; [done|]. by apply dict_get_elem. }
  destruct (delete_entries_ok ms rc) as (rc' & Hd & Hwf' & Hg & _).
  - done.
  - apply (dict_filter_wf (λ me : bytes * Z, me.2 + grace < now)), Hwf.
  - intros m. unfold ms. rewrite list_elem_of_fmap. setoid_rewrite list_elem_of_filter.
    intros ([m' e'] & -> & _ & Hin). apply list_elem_of_fmap. by exists (m', e').
  - exists rc'. split; [done|]. split; [done|]. intros m e He. rewrite Hg.
    specialize (Hms m e He). destruct (Z.ltb_spec (e + grace) now); case_decide; try done; naive_solver lia.
Qed.

(** ** Properties *)

Lemma compute_offset_range (randint : Z → Z) (value : option Z) :
  (∀ m, 0 <= m → 0 <= randint m <= m) →
  Z.min 0 (default 0 value) <= compute_offset randint value <= Z.max 0 (default 0 value).
Proof.
  intros Hr. destruct value as [v|]; cbn; [|lia].
  specialize (Hr (Z.abs v) ltac:(lia)).
  destruct (Z.eqb_spec v 0); [lia|]. destruct (Z.ltb_spec 0 v); lia.
Qed.

Lemma get_offsets_cached randint mrid rs rd s d rc o :
  dict_get mrid (rc_cache rc) = Some o → (get_offsets randint mrid rs rd s d rc).1 = o.
Proof. intros H. unfold get_offsets. by rewrite H. Qed.

Lemma get_offsets_stores randint mrid rs rd s d rc :
  dict_get mrid (rc_cache (get_offsets randint mrid rs rd s d rc).2) =
  Some (get_offsets randint mrid rs rd s d rc).1.
Proof.
  unfold get_offsets. destruct (dict_get mrid (rc_cache rc)) eqn:E; [done|].
  apply dict_get_set_eq.
Qed.

Section Determinism.
Context (randint : nat → Z → Z).
Hypothesis randint_range : ∀ i m, 0 <= m → 0 <= randint i m <= m.

(** The offsets drawn for a new event lie between zero and the event's
    randomization value, with its sign; every later call for that mRID,
    whatever it draws and however often the cache is pruned while the
    event's effective end is not more than the grace past, returns the same
    offsets, and pruning never raises [KeyError]. *)
Theorem offsets_in_range_and_stable (mrid : bytes) (rs rd : option Z) (start duration : Z)
    (rc : RandCache) (now : Z) :
  rand_wf rc → dict_get mrid (rc_cache rc) = None →
  let '((so, dof), rc1) := get_offsets randint mrid rs rd start duration rc in
  Z.min 0 (default 0 rs) <= so <= Z.max 0 (default 0 rs) ∧
  Z.min 0 (default 0 rd) <= dof <= Z.max 0 (default 0 rd) ∧
  ∃ rc2, rand_prune now RAND_GRACE rc1 = Some rc2 ∧
    (now <= start + so + duration + dof + RAND_GRACE →
     ∀ randint' rs' rd' start' duration',
       (get_offsets randint' mrid rs' rd' start' duration' rc2).1 = (so, dof)).
Proof.
  intros Hwf Hnew. pose proof (get_offsets_wf randint mrid rs rd start duration rc Hwf) as Hwf1.
  unfold get_offsets in *. rewrite Hnew in *. cbn [snd] in Hwf1.
  split; [apply compute_offset_range; intros; by apply randint_range|]. split; [apply compute_offset_range; intros; by apply randint_range|].
  destruct (rand_prune_ok now RAND_GRACE _ Hwf1) as (rc2 & Hp & _ & Hget).
  exists rc2. split; [done|]. intros Hnow randint' rs' rd' s' d'.
  apply get_offsets_cached. erewrite Hget; [|cbn; apply dict_get_set_eq].
  rewrite (proj2 (Z.ltb_ge _ _)) by lia. cbn. apply dict_get_set_eq.
Qed.
End Determinism.

Lemma offsets_in_range_and_stable_witness :
  let '((so, dof), _) := get_offsets (λ _ m, m) "E1" (Some (-60)) (Some 30) 1000 600 empty_rand in
  so = -60 ∧ dof = 30 ∧ Z.min 0 (-60) <= so <= Z.max 0 (-60).
Proof.
  assert (rand_wf empty_rand) as Hwf by (split; [constructor|constructor|done]).
  pose proof (offsets_in_range_and_stable (λ _ m, m) ltac:(intros; lia) "E1" (Some (-60)) (Some 30)
                1000 600 empty_rand 1500 Hwf eq_refl) as H.
  vm_compute in H |- *. destruct H as (H & _). repeat split; try reflexivity; apply H.
Defined.
