(* ===== verification/Trackers.v ===== *)
(** * Mode ownership and default-control trackers

    [ActiveModeTracker] (events/active_modes.py) records which event provides
    which modes on each device; [DdercTracker] (events/dderc.py) records which
    default is in place on each device. *)

From S2P Require Import Prelude.

(** ** ActiveModeTracker *)

Module ActiveModes.

(** device href -> mRID -> modes *)
Abbreviation registry := (dict string (dict bytes (gset string))) (only parsing).

Definition device_events (dev : string) (reg : registry) : dict bytes (gset string) :=
  default [] (dict_get dev reg).

Definition register (dev : string) (mrid : bytes) (modes : gset string) (reg : registry)
    : registry :=
  dict_set dev (dict_set mrid modes (device_events dev reg)) reg.

Definition union_modes (d : dict bytes (gset string)) : gset string := ⋃ (dict_values d).

Definition unregister (dev : string) (mrid : bytes) (reg : registry)
    : gset string * registry :=
  match dict_get dev reg with
  | None => (∅, reg)
  | Some events =>
      let owned := default ∅ (dict_get mrid events) in
      let events' := dict_del mrid events in
      let reg' := dict_set dev events' reg in
      if decide (owned = ∅) then (∅, reg')
      else (owned ∖ union_modes events', reg')
  end.

Definition covered (dev : string) (excluding : bytes) (reg : registry) : gset string :=
  union_modes (filter (λ me, me.1 ≠ excluding) (device_events dev reg)).

Definition covered_among (dev : string) (mrids : gset bytes) (reg : registry) : gset string :=
  union_modes (filter (λ me, me.1 ∈ mrids) (device_events dev reg)).

Definition clear (_ : registry) : registry := [].

(** The modes an event holds on a device. *)
Definition owned_by (dev : string) (mrid : bytes) (reg : registry) : gset string :=
  default ∅ (dict_get mrid (device_events dev reg)).

Lemma elem_of_union_modes (d : dict bytes (gset string)) (n : string) :
  n ∈ union_modes d ↔ ∃ m ms, (m, ms) ∈ d ∧ n ∈ ms.
Proof.
  unfold union_modes, dict_values. rewrite elem_of_union_list.
  setoid_rewrite list_elem_of_fmap. split.
  - intros (X & ([m ms] & -> & Hin) & Hn). eauto.
  - intros (m & ms & Hin & Hn). exists ms. split; [|done]. by exists (m, ms).
Qed.

Lemma dict_del_filter {V} (m : bytes) (d : dict bytes V) :
  dict_del m d = filter (λ me, me.1 ≠ m) d.
Proof.
  induction d as [|[k v] d IH]; [done|]. rewrite filter_cons. cbn [dict_del fst].
  unfold dict_del; fold (dict_del m d). rewrite IH. repeat case_decide; congruence.
Qed.

Lemma elem_of_covered (dev : string) (excl : bytes) (reg : registry) (n : string) :
  dict_wf (device_events dev reg) →
  n ∈ covered dev excl reg ↔ ∃ m, m ≠ excl ∧ n ∈ owned_by dev m reg.
Proof.
  intros Hwf. unfold covered, owned_by. rewrite elem_of_union_modes.
  setoid_rewrite list_elem_of_filter. split.
  - intros (m & ms & [Hne Hin] & Hn). exists m. split; [done|].
    by rewrite (dict_elem_get _ _ _ Hwf Hin).
  - intros (m & Hne & Hn). destruct (dict_get m _) as [ms|] eqn:E; cbn in Hn; [|set_solver].
    exists m, ms. split; [|done]. split; [done|]. by apply dict_get_elem.
Qed.

Lemma unregister_released (dev : string) (mrid : bytes) (reg : registry) :
  (unregister dev mrid reg).1 = owned_by dev mrid reg ∖ covered dev mrid reg.
Proof.
  unfold unregister, owned_by, covered, device_events.
  destruct (dict_get dev reg) as [evs|] eqn:E; cbn; [|set_solver].
  rewrite dict_del_filter. case_decide as He; cbn; [|done]. rewrite He. set_solver.
Qed.

Lemma unregister_device_events (dev dev' : string) (mrid : bytes) (reg : registry) :
  device_events dev' (unregister dev mrid reg).2 =
  if decide (dev' = dev) then dict_del mrid (device_events dev reg) else device_events dev' reg.
Proof.
  unfold unregister, device_events. destruct (dict_get dev reg) as [evs|] eqn:E.
  - case_decide; cbn; rewrite dict_get_set; case_decide; done.
  - cbn. case_decide; [|done]. subst. by rewrite E.
Qed.

Lemma unregister_owned (dev dev' : string) (mrid mrid' : bytes) (reg : registry) :
  owned_by dev' mrid' (unregister dev mrid reg).2 =
  if decide (dev' = dev ∧ mrid' = mrid) then ∅ else owned_by dev' mrid' reg.
Proof.
  unfold owned_by. rewrite unregister_device_events.
  destruct (decide (dev' = dev)) as [->|]; [|rewrite decide_False; naive_solver].
  rewrite dict_get_del. repeat case_decide; naive_solver.
Qed.

Lemma register_owned (dev dev' : string) (mrid mrid' : bytes) (ms : gset string)
    (reg : registry) :
  owned_by dev' mrid' (register dev mrid ms reg) =
  if decide (dev' = dev ∧ mrid' = mrid) then ms else owned_by dev' mrid' reg.
Proof.
  unfold owned_by, register, device_events. rewrite dict_get_set.
  destruct (decide (dev' = dev)) as [->|].
  - cbn. rewrite dict_get_set. repeat case_decide; naive_solver.
  - rewrite decide_False by naive_solver. done.
Qed.

(** Every device's table has one entry per event. *)
Definition registry_wf (reg : registry) : Prop := ∀ dev, dict_wf (device_events dev reg).

Lemma register_wf dev mrid ms reg : registry_wf reg → registry_wf (register dev mrid ms reg).
Proof.
  intros H dev'. unfold register, device_events. rewrite dict_get_set.
  case_decide; cbn; [|apply H]. apply dict_set_wf, H.
Qed.

Lemma unregister_wf dev mrid reg : registry_wf reg → registry_wf (unregister dev mrid reg).2.
Proof.
  intros H dev'. rewrite unregister_device_events. case_decide; [|apply H]. apply dict_del_wf, H.
Qed.

Lemma registry_wf_nil : registry_wf [].
Proof. intros dev. constructor. Qed.

#[export] Hint Resolve register_wf unregister_wf registry_wf_nil : py.

(** Events of a device ending one after the other: what each releases. *)
Fixpoint unregister_all (dev : string) (mrids : list bytes) (reg : registry)
    : list (gset string) * registry :=
  match mrids with
  | [] => ([], reg)
  | m :: rest =>
      let '(released, reg') := unregister dev m reg in
      let '(later, reg'') := unregister_all dev rest reg' in (released :: later, reg'')
  end.

Lemma elem_of_released dev m reg n :
  registry_wf reg →
  n ∈ (unregister dev m reg).1 ↔
  n ∈ owned_by dev m reg ∧ ∀ m', m' ≠ m → n ∉ owned_by dev m' reg.
Proof.
  intros Hwf. rewrite unregister_released, elem_of_difference, elem_of_covered by apply Hwf.
  split; intros [Ho Hn]; (split; [done|]).
  - intros m' Hm' Hin. apply Hn. eauto.
  - intros (m' & Hm' & Hin). by apply (Hn m').
Qed.

Lemma unregister_owned_same dev m m' reg :
  owned_by dev m' (unregister dev m reg).2 = if decide (m' = m) then ∅ else owned_by dev m' reg.
Proof. rewrite unregister_owned. by repeat case_decide; naive_solver. Qed.

(** A mode is released by the last of the ending events to hold it, if no
    other event holds it. *)
Lemma unregister_all_spec dev mrids reg n :
  registry_wf reg → NoDup mrids →
  let rel := (unregister_all dev mrids reg).1 in
  (∀ i j A B, rel !! i = Some A → rel !! j = Some B → n ∈ A → n ∈ B → i = j) ∧
  ((∃ A, A ∈ rel ∧ n ∈ A) ↔
   (∃ m, m ∈ mrids ∧ n ∈ owned_by dev m reg) ∧
   (∀ m, m ∉ mrids → n ∉ owned_by dev m reg)).
Proof.
  intros Hwf Hnd. revert reg Hwf. induction Hnd as [|m mrids Hm Hnd IH]; intros reg Hwf; cbn.
  { split; [by intros i j A B ?|]. split; [intros (A & HA & _)|intros [(m & Hm & _) _]];
      by apply elem_of_nil in HA || by apply elem_of_nil in Hm. }
  destruct (unregister dev m reg) as [R reg'] eqn:Hu.
  assert (reg' = (unregister dev m reg).2) as -> by (by rewrite Hu).
  assert (R = (unregister dev m reg).1) as HR by (by rewrite Hu). clear Hu.
  destruct (IH _ (unregister_wf dev m reg Hwf)) as [Hone Hiff].
  destruct (unregister_all dev mrids (unregister dev m reg).2) as [later reg2]. cbn in *.
  pose proof (λ m', unregister_owned_same dev m m' reg) as Hown.
  assert (n ∈ R → ¬ ∃ A, A ∈ later ∧ n ∈ A) as Hexcl.
  { rewrite HR, elem_of_released by done. intros [_ Hno] HA. apply Hiff in HA as [(m' & Hm' & Hin) _].
    rewrite Hown in Hin. case_decide; [by apply not_elem_of_empty in Hin|]. by apply (Hno m'). }
  split.
  - intros [|i] [|j] A B HA HB HnA HnB; cbn in *; simplify_eq; try done.
    + exfalso. apply Hexcl; [done|]. exists B. split; [by eapply list_elem_of_lookup_2|done].
    + exfalso. apply Hexcl; [done|]. exists A. split; [by eapply list_elem_of_lookup_2|done].
    + f_equal. by eapply Hone.
  - split.
    + intros (A & [->|HA]%elem_of_cons & Hn).
      * rewrite HR, elem_of_released in Hn by done. destruct Hn as [Ho Hno]. split; [set_solver|].
        intros m' Hm'. apply Hno. set_solver.
      * destruct (proj1 Hiff) as [(m' & Hm' & Hin) Hno]; [by exists A|].
        rewrite Hown in Hin. case_decide; [by apply not_elem_of_empty in Hin|]. split; [set_solver|].
        intros m0 Hm0. specialize (Hno m0). rewrite Hown in Hno. case_decide; set_solver.
    + intros [(m' & Hm' & Hin) Hno]. 
      destruct (decide (Exists (λ m0, n ∈ owned_by dev m0 reg) mrids)) as [Hex|Hnex];
        rewrite Exists_exists in *.
      * destruct Hex as (m0 & Hm0 & Hin0). destruct (proj2 Hiff) as (A & HA & Hn).
        { split; [exists m0; rewrite Hown, decide_False by (by intros ->); done|].
          intros m1 Hm1. rewrite Hown. case_decide; [set_solver|]. apply Hno. set_solver. }
        exists A. split; [by right|done].
      * exists R. split; [left|]. rewrite HR, elem_of_released by done.
        assert (m' = m) as -> by set_solver. split; [done|]. intros m0 Hm0 Hin0. 
        destruct (decide (m0 ∈ mrids)); [by apply Hnex; exists m0|]. apply (Hno m0); set_solver.
Qed.
End ActiveModes.

(** ** DdercTracker *)

Module Dderc.

Record DdercEntry := { entry_mrid : bytes; entry_primacy : Z }.

(** (lfdi, derp_path) -> entry *)
Abbreviation tracker := (dict (bytes * string) DdercEntry) (only parsing).

Definition should_apply (lfdi : bytes) (derp_path : string) (primacy : Z) (t : tracker) : bool :=
  match dict_get (lfdi, derp_path) t with
  | None => true
  | Some existing => primacy <=? entry_primacy existing
  end.

(** Another program's higher-priority default is already on the device. *)
Definition outranked (lfdi : bytes) (derp_path : string) (primacy : Z)
    (ke : (bytes * string) * DdercEntry) : bool :=
  bool_decide (ke.1.1 = lfdi) && negb (bool_decide (ke.1.2 = derp_path))
  && (entry_primacy ke.2 <? primacy).

Definition should_apply_initial (lfdi : bytes) (derp_path : string) (mrid : bytes) (primacy : Z)
    (t : tracker) : bool :=
  if existsb (outranked lfdi derp_path primacy) t then false
  else match dict_get (lfdi, derp_path) t with
       | None => true
       | Some existing =>
           if primacy <? entry_primacy existing then true
           else (primacy =? entry_primacy existing) && negb (bool_decide (mrid = entry_mrid existing))
       end.

Definition record_application (lfdi : bytes) (derp_path : string) (mrid : bytes) (primacy : Z)
    (t : tracker) : tracker :=
  dict_set (lfdi, derp_path) {| entry_mrid := mrid; entry_primacy := primacy |} t.

Definition clear_devices (lfdis : gset bytes) (t : tracker) : tracker :=
  filter (λ ke, ke.1.1 ∉ lfdis) t.

Definition clear (_ : tracker) : tracker := [].

(** A default just recorded is not applied again by the initial pass. *)
Lemma recorded_not_reapplied lfdi path mrid primacy t :
  should_apply_initial lfdi path mrid primacy (record_application lfdi path mrid primacy t) = false.
Proof.
  unfold should_apply_initial. destruct (existsb _ _); [done|].
  unfold record_application. rewrite dict_get_set_eq. cbn.
  rewrite Z.ltb_irrefl, Z.eqb_refl, bool_decide_true by done. done.
Qed.

Lemma cleared_allows lfdi path mrid primacy (lfdis : gset bytes) t :
  lfdi ∈ lfdis → should_apply_initial lfdi path mrid primacy (clear_devices lfdis t) = true.
Proof.
  intros Hin. unfold should_apply_initial.
  assert (existsb (outranked lfdi path primacy) (clear_devices lfdis t) = false) as ->.
  { apply not_true_is_false. intros ([[l p] e] & Hke & Ho)%existsb_exists.
    apply list_elem_of_In, list_elem_of_filter in Hke as [Hn _]. unfold outranked in Ho. cbn in *.
    rewrite !andb_true_iff, bool_decide_eq_true in Ho. naive_solver. }
  assert (dict_get (lfdi, path) (clear_devices lfdis t) = None) as ->; [|done].
  apply dict_get_None. unfold dict_keys, clear_devices. rewrite list_elem_of_fmap.
  intros (ke & Heq & [Hn _]%list_elem_of_filter). rewrite <- Heq in Hn. done.
Qed.

(** ** Passes over the programs of a device *)

Record Offer := { of_path : string; of_mrid : bytes; of_primacy : Z }.

(** One program's turn: its default is applied, successfully, if it should be. *)
Definition take_turn (lfdi : bytes) (t : tracker) (o : Offer) : tracker :=
  if should_apply_initial lfdi (of_path o) (of_mrid o) (of_primacy o) t
  then record_application lfdi (of_path o) (of_mrid o) (of_primacy o) t else t.

Definition initial_pass (lfdi : bytes) (offers : list Offer) (t : tracker) : tracker :=
  foldl (take_turn lfdi) t offers.

Definition is_outranked (lfdi : bytes) (path : string) (primacy : Z) (t : tracker) : Prop :=
  ∃ q e, dict_get (lfdi, q) t = Some e ∧ q ≠ path ∧ entry_primacy e < primacy.

Lemma outranked_spec lfdi path primacy t :
  dict_wf t → existsb (outranked lfdi path primacy) t = true ↔ is_outranked lfdi path primacy t.
Proof.
  intros Hwf. rewrite existsb_exists. unfold outranked, is_outranked. split.
  - intros ([[l q] e] & Hin%list_elem_of_In & Ho). cbn in Ho.
    rewrite !andb_true_iff, negb_true_iff, bool_decide_eq_true, bool_decide_eq_false, Z.ltb_lt in Ho.
    destruct Ho as [[-> Hq] Hp]. exists q, e. split_and!; [by apply dict_elem_get|done..].
  - intros (q & e & Hg & Hq & Hp). exists ((lfdi, q), e).
    split; [by apply list_elem_of_In, dict_get_elem|]. cbn.
    rewrite !andb_true_iff, negb_true_iff, bool_decide_eq_true, bool_decide_eq_false, Z.ltb_lt. done.
Qed.

(** The other reason not to apply: this program's own entry. *)
Definition own_blocks (lfdi : bytes) (o : Offer) (t : tracker) : Prop :=
  ∃ e, dict_get (lfdi, of_path o) t = Some e ∧
    (entry_primacy e < of_primacy o ∨ entry_primacy e = of_primacy o ∧ of_mrid o = entry_mrid e).

Lemma not_applied_spec lfdi o t :
  dict_wf t →
  should_apply_initial lfdi (of_path o) (of_mrid o) (of_primacy o) t = false ↔
  is_outranked lfdi (of_path o) (of_primacy o) t ∨ own_blocks lfdi o t.
Proof.
  intros Hwf. rewrite <- outranked_spec by done. unfold should_apply_initial, own_blocks.
  destruct (existsb _ t); [naive_solver|]. destruct (dict_get (lfdi, of_path o) t) as [e|].
  - destruct (Z.ltb_spec (of_primacy o) (entry_primacy e)).
    + split; [done|]. intros [|(e' & [= <-] & ?)]; [done|lia].
    + rewrite andb_false_iff, Z.eqb_neq, negb_false_iff, bool_decide_eq_true. split.
      * intros [Hn|Hm]; right; exists e; (split; [done|]);
          [left; lia|destruct (decide (entry_primacy e = of_primacy o)); [by right|left; lia]].
      * intros [|(e' & [= <-] & [?|[? ?]])]; [done|left; lia|by right].
  - split; [done|]. intros [|(? & ? & _)]; done.
Qed.

Lemma take_turn_wf lfdi o t : dict_wf t → dict_wf (take_turn lfdi t o).
Proof. unfold take_turn. destruct (should_apply_initial _ _ _ _ _); [apply dict_set_wf|done]. Qed.

(** A turn never raises the primacy recorded for a program. *)
Lemma take_turn_lowers lfdi o t q e :
  dict_wf t → dict_get (lfdi, q) t = Some e →
  ∃ e', dict_get (lfdi, q) (take_turn lfdi t o) = Some e' ∧ entry_primacy e' <= entry_primacy e ∧
    (q ≠ of_path o → e' = e).
Proof.
  intros Hwf Hg. unfold take_turn. destruct (should_apply_initial _ _ _ _ t) eqn:Hs.
  - unfold record_application. rewrite dict_get_set. case_decide as Hk; [|eauto with lia].
    injection Hk as ->. eexists. split; [done|]. cbn. split; [|done].
    destruct (Z.le_gt_cases (of_primacy o) (entry_primacy e)) as [|Hgt]; [done|].
    assert (own_blocks lfdi o t) as Hb by (exists e; split; [done|left; lia]).
    assert (should_apply_initial lfdi (of_path o) (of_mrid o) (of_primacy o) t = false) as Hf
      by (apply not_applied_spec; auto). congruence.
  - eauto with lia.
Qed.

(** A program not applied stays so through another program's turn. *)
Lemma take_turn_keeps_blocked lfdi o o' t :
  dict_wf t → of_path o ≠ of_path o' →
  should_apply_initial lfdi (of_path o) (of_mrid o) (of_primacy o) t = false →
  should_apply_initial lfdi (of_path o) (of_mrid o) (of_primacy o) (take_turn lfdi t o') = false.
Proof.
  intros Hwf Hne. rewrite !not_applied_spec by auto using take_turn_wf.
  intros [(q & e & Hg & Hq & Hp)|(e & Hg & Hb)].
  - destruct (take_turn_lowers lfdi o' t q e Hwf Hg) as (e' & Hg' & Hle & _).
    left. exists q, e'. split_and!; [done..|lia].
  - destruct (take_turn_lowers lfdi o' t _ e Hwf Hg) as (e' & Hg' & _ & He).
    right. exists e. by rewrite He in Hg'.
Qed.

(** After its own turn a program has nothing left to apply. *)
Lemma take_turn_blocks lfdi o t :
  dict_wf t →
  should_apply_initial lfdi (of_path o) (of_mrid o) (of_primacy o) (take_turn lfdi t o) = false.
Proof.
  intros Hwf. unfold take_turn. destruct (should_apply_initial _ _ _ _ t) eqn:Hs; [|done].
  apply recorded_not_reapplied.
Qed.

Lemma initial_pass_blocks lfdi offers t o :
  dict_wf t → NoDup (of_path <$> offers) →
  o ∈ offers ∨ should_apply_initial lfdi (of_path o) (of_mrid o) (of_primacy o) t = false ∧
    of_path o ∉ of_path <$> offers →
  should_apply_initial lfdi (of_path o) (of_mrid o) (of_primacy o) (initial_pass lfdi offers t) = false.
Proof.
  revert t. induction offers as [|o' offers IH]; intros t Hwf Hnd Ho; cbn [initial_pass foldl].
  - destruct Ho as [?%elem_of_nil|[? _]]; done.
  - apply NoDup_cons in Hnd as [Hn Hnd]. apply IH; [by apply take_turn_wf|done|].
    destruct Ho as [[->|Hin]%elem_of_cons|[Hb Hp]]; [right|by left|right].
    + split; [by apply take_turn_blocks|done].
    + apply not_elem_of_cons in Hp as [Hne Hp]. split; [by apply take_turn_keeps_blocked|done].
Qed.
End Dderc.

(** When the events of a device end one after the other, in any order,
    each mode any of them held is released exactly once, by the last of them
    to end that held it, unless an event that has not ended still holds it, in
    which case none of them releases it. *)
Theorem modes_released_once (dev : string) (mrids : list bytes) (reg : ActiveModes.registry)
    (n : string) :
  ActiveModes.registry_wf reg → NoDup mrids →
  let released := (ActiveModes.unregister_all dev mrids reg).1 in
  (∀ i j A B, released !! i = Some A → released !! j = Some B → n ∈ A → n ∈ B → i = j) ∧
  ((∃ A, A ∈ released ∧ n ∈ A) ↔
   (∃ m, m ∈ mrids ∧ n ∈ ActiveModes.owned_by dev m reg) ∧
   (∀ m, m ∉ mrids → n ∉ ActiveModes.owned_by dev m reg)).
Proof. apply ActiveModes.unregister_all_spec. Qed.

Lemma modes_released_once_witness :
  let reg := ActiveModes.register "/a" "E2" {["op_mod_fixed_w"; "op_mod_volt_var"]}
               (ActiveModes.register "/a" "E1" {["op_mod_fixed_w"]} []) in
  (ActiveModes.unregister_all "/a" ["E1"; "E2"] reg).1 = [∅; {["op_mod_fixed_w"; "op_mod_volt_var"]}] ∧
  ∃ A, A ∈ (ActiveModes.unregister_all "/a" ["E1"; "E2"] reg).1 ∧ "op_mod_fixed_w" ∈ A.
Proof.
  cbn zeta. split; [vm_compute; reflexivity|].
  apply (modes_released_once "/a" ["E1"; "E2"] _ "op_mod_fixed_w").
  - apply ActiveModes.register_wf, ActiveModes.register_wf, ActiveModes.registry_wf_nil.
  - apply (bool_decide_unpack _). vm_compute. exact I.
  - split.
    + exists "E1". split; [left|]. apply (bool_decide_unpack _). vm_compute. exact I.
    + intros m Hm. rewrite ActiveModes.register_owned, decide_False by (intros [_ ->]; apply Hm; right; left).
      rewrite ActiveModes.register_owned, decide_False by (intros [_ ->]; apply Hm; left). set_solver.
Defined.

(** The passes that put the default in place settle.  Once every program
    of a device has had its turn, whatever was recorded before, another pass
    over the same programs, whole or in part and in any order, applies no
    default again. *)
Theorem default_passes_settle (lfdi : bytes) (offers again : list Dderc.Offer) (t : Dderc.tracker) :
  dict_wf t → NoDup (Dderc.of_path <$> offers) → again ⊆ offers →
  let settled := Dderc.initial_pass lfdi offers t in
  Dderc.initial_pass lfdi again settled = settled.
Proof.
  intros Hwf Hnd Hsub. cbn zeta. induction again as [|o again IH]; [done|].
  unfold Dderc.initial_pass at 1. cbn [foldl]. unfold Dderc.take_turn at 2.
  rewrite Dderc.initial_pass_blocks by (auto; left; apply Hsub; left).
  apply IH. intros x Hx. apply Hsub. by right.
Qed.

Lemma default_passes_settle_witness :
  let p := {| Dderc.of_path := "/p"; Dderc.of_mrid := "D1"; Dderc.of_primacy := 2 |} in
  let q := {| Dderc.of_path := "/q"; Dderc.of_mrid := "D2"; Dderc.of_primacy := 1 |} in
  let settled := Dderc.initial_pass "A" [p; q] [] in
  dict_keys settled = [("A", "/p"); ("A", "/q")] ∧
  Dderc.initial_pass "A" [q; p; q] settled = settled.
Proof.
  cbn zeta. split; [vm_compute; reflexivity|]. apply default_passes_settle.
  - apply NoDup_nil_2.
  - apply (bool_decide_unpack _). vm_compute. exact I.
  - set_solver.
Defined.
