(* ===== verification/Response.v ===== *)
(** * DER responses (events/response.py, server_profile.py)

    - the response codes and the [responseRequired] gate;
    - the code a failed dispatch reports, and the code that goes on the wire
      under a server profile;
    - the tracker that deduplicates posts, and what concurrent posters of the
      same response do to it, as a step relation. *)

From S2P Require Import Prelude Controls.

(** ** Response codes *)

Inductive ResponseCode :=
  | ACKNOWLEDGED | R_ACTIVE | R_COMPLETED | OPT_OUT | OPT_IN | R_CANCELLED | R_SUPERSEDED
  | PARTIAL_OPT_OUT | PARTIAL_OPT_IN | COMPLETE_NO_PARTICIPATION
  | SUPERSEDED_ALTERNATE_SERVER | SUPERSEDED_ALTERNATE_PROGRAM | RESUMED
  | NOT_SUPPORTED | NOT_APPLICABLE | INVALID | EXPIRED.

#[export] Instance ResponseCode_eq_dec : EqDecision ResponseCode.
Proof. solve_decision. Defined.

Definition all_codes : list ResponseCode :=
  [ACKNOWLEDGED; R_ACTIVE; R_COMPLETED; OPT_OUT; OPT_IN; R_CANCELLED; R_SUPERSEDED;
   PARTIAL_OPT_OUT; PARTIAL_OPT_IN; COMPLETE_NO_PARTICIPATION; SUPERSEDED_ALTERNATE_SERVER;
   SUPERSEDED_ALTERNATE_PROGRAM; RESUMED; NOT_SUPPORTED; NOT_APPLICABLE; INVALID; EXPIRED].

Definition code_value (c : ResponseCode) : Z :=
  match c with
  | ACKNOWLEDGED => 1 | R_ACTIVE => 2 | R_COMPLETED => 3 | OPT_OUT => 4 | OPT_IN => 5
  | R_CANCELLED => 6 | R_SUPERSEDED => 7 | PARTIAL_OPT_OUT => 8 | PARTIAL_OPT_IN => 9
  | COMPLETE_NO_PARTICIPATION => 10 | SUPERSEDED_ALTERNATE_SERVER => 13
  | SUPERSEDED_ALTERNATE_PROGRAM => 14 | RESUMED => 15 | NOT_SUPPORTED => 251
  | NOT_APPLICABLE => 252 | INVALID => 253 | EXPIRED => 254
  end.

(** [ResponseCode(n)]: [None] is the [ValueError] of a value with no member. *)
Definition code_of_value (n : Z) : option ResponseCode :=
  head (filter (λ c, code_value c = n) all_codes).

(** ** The responseRequired gate *)

Definition RR_MESSAGE_RECEIVED : Z := 1.
Definition RR_SPECIFIC_RESPONSE : Z := 2.
Definition RR_END_USER_RESPONSE : Z := 4.

Definition END_USER_CODES : list ResponseCode :=
  [OPT_OUT; OPT_IN; PARTIAL_OPT_OUT; PARTIAL_OPT_IN].

Definition required_bit_for (code : ResponseCode) : Z :=
  if decide (code = ACKNOWLEDGED) then RR_MESSAGE_RECEIVED
  else if decide (code ∈ END_USER_CODES) then RR_END_USER_RESPONSE
  else RR_SPECIFIC_RESPONSE.

(** [response_required or b"\x00"]: absent and empty both read as zero. *)
Definition response_required_allows (required : option (list Z)) (code : ResponseCode) : bool :=
  let flags := be_int (match required with None | Some [] => [0] | Some l => l end) in
  negb (Z.land flags (required_bit_for code) =? 0).

(** ** Dispatch failures *)

Inductive DispatchError :=
  | OptOutError | CommandNotPermittedError | DeviceNotConfiguredError | ConnectorValueError
  | InvalidControlValueError | ModeNotSupportedError | DeviceOfflinePermanentError
  | DeviceOfflineTransientError | DispatchTimeout | OtherDispatchError (name : string).

#[export] Instance DispatchError_eq_dec : EqDecision DispatchError.
Proof. solve_decision. Defined.

Definition DISPATCH_ERROR_CODES : dict DispatchError ResponseCode :=
  [(OptOutError, OPT_OUT); (CommandNotPermittedError, NOT_APPLICABLE);
   (DeviceNotConfiguredError, NOT_APPLICABLE); (ConnectorValueError, INVALID);
   (InvalidControlValueError, INVALID); (ModeNotSupportedError, NOT_SUPPORTED);
   (DeviceOfflinePermanentError, NOT_SUPPORTED); (DeviceOfflineTransientError, NOT_SUPPORTED)].

Definition response_code_for_dispatch_error (exc : DispatchError) : ResponseCode :=
  default NOT_SUPPORTED (dict_get exc DISPATCH_ERROR_CODES).

(** ** The server profile's answers *)

Inductive Edition := E2018 | E2023.

#[export] Instance Edition_eq_dec : EqDecision Edition.
Proof. solve_decision. Defined.

(** [base] is [None] until the server's edition is known. *)
Record ServerProfile := { profile_base : option Edition; profile_features : gset string }.

Definition edition (p : ServerProfile) : Edition := default E2018 (profile_base p).
Definition is_2018 (p : ServerProfile) : bool := bool_decide (edition p = E2018).

Definition RESPONSE_CODES_2018 : dict Z Z := [(251, 252)].

Definition wire_response_code (p : ServerProfile) (code : Z) : Z :=
  if is_2018 p then default code (dict_get code RESPONSE_CODES_2018) else code.

(** [FEATURES]: each feature's permitted DERControlType2 bits. *)
Definition FEATURE_BITS2 : dict string (list Z) := [("import_export_limits", [7; 8])].

Definition mode_bits2 (p : ServerProfile) : list Z :=
  if negb (is_2018 p) then seqZ 0 10
  else mjoin ((λ f, default [] (dict_get f FEATURE_BITS2)) <$> elements (profile_features p)).

Definition mask_modes2 (p : ServerProfile) (bits : Z) : Z := Z.land bits (bits_of (mode_bits2 p)).

(** [modesResponded] is a 2023 element no feature borrows; [modesResponded2] is
    an element of [import_export_limits]. *)
Definition sends_modes_responded (p : ServerProfile) : bool := negb (is_2018 p).
Definition sends_modes_responded2 (p : ServerProfile) : bool :=
  negb (is_2018 p) || bool_decide ("import_export_limits" ∈ profile_features p).

Definition translate_code_for_revision (code : ResponseCode) (p : ServerProfile)
    : option ResponseCode := code_of_value (wire_response_code p (code_value code)).

Definition resolve_wire_code (derc : Dercontrol) (code : ResponseCode) (p : ServerProfile)
    : option ResponseCode :=
  let code' :=
    if bool_decide (code = OPT_OUT) && negb (response_required_allows (response_required derc) OPT_OUT)
    then NOT_SUPPORTED else code in
  translate_code_for_revision code' p.

(** The response body [DercontrolResponse]. *)
Record ResponseBody := {
  rb_lfdi : bytes;
  rb_status : ResponseCode;
  rb_subject : bytes;
  rb_created : Z;
  rb_modes : option (list Z);
  rb_modes2 : option (list Z);
}.

Definition build_response (derc : Dercontrol) (code : ResponseCode) (lfdi : bytes) (now_ts : Z)
    (p : ServerProfile) (supported_modes2 : option Z) : ResponseBody :=
  {| rb_lfdi := lfdi; rb_status := code; rb_subject := m_rid derc; rb_created := now_ts;
     rb_modes := if sends_modes_responded p
                 then Some (build_modes_responded (dercontrol_base derc)) else None;
     rb_modes2 := if sends_modes_responded2 p
                  then build_modes_responded2 (dercontrol_base derc)
                         (mask_modes2 p (default 0 supported_modes2))
                  else None |}.

(** ** The response tracker *)

Abbreviation resp_key := (bytes * ResponseCode * bytes)%type (only parsing).

(** [in_flight] holds the keys whose POST has not returned. *)
Record ResponseTracker := mkTracker {
  sent : dict resp_key Z;
  in_flight : list resp_key;
}.

Definition empty_tracker : ResponseTracker := mkTracker [] [].

Definition already_sent (k : resp_key) (t : ResponseTracker) : bool :=
  dict_mem k (sent t) || bool_decide (k ∈ in_flight t).

Definition has_responded (mrid : bytes) (t : ResponseTracker) : bool :=
  existsb (λ ks, bool_decide (ks.1.1.1 = mrid)) (sent t).

Definition claim (k : resp_key) (t : ResponseTracker) : ResponseTracker :=
  mkTracker (sent t) (k :: in_flight t).

Definition release (k : resp_key) (t : ResponseTracker) : ResponseTracker :=
  mkTracker (sent t) (filter (λ k', k' ≠ k) (in_flight t)).

Definition mark_sent (k : resp_key) (now : Z) (t : ResponseTracker) : ResponseTracker :=
  mkTracker (dict_set k now (sent t)) (filter (λ k', k' ≠ k) (in_flight t)).

Definition RESPONSE_MAX_AGE : Z := 7200.

Definition tracker_prune (now max_age : Z) (t : ResponseTracker) : ResponseTracker :=
  mkTracker (filter (λ ks, ¬ (now - ks.2 > max_age)) (sent t)) (in_flight t).

Definition retain_mrids (live : gset bytes) (t : ResponseTracker) : ResponseTracker :=
  mkTracker (filter (λ ks, ks.1.1.1 ∈ live) (sent t)) (in_flight t).

(** ** Code-level lemmas *)

Lemma code_of_value_inj (c : ResponseCode) : code_of_value (code_value c) = Some c.
Proof. destruct c; vm_compute; reflexivity. Qed.

Lemma translate_total (code : ResponseCode) (p : ServerProfile) :
  translate_code_for_revision code p =
  Some (if is_2018 p && bool_decide (code = NOT_SUPPORTED) then NOT_APPLICABLE else code).
Proof.
  unfold translate_code_for_revision, wire_response_code. destruct (is_2018 p); cbn [andb].
  - destruct code; vm_compute; reflexivity.
  - apply code_of_value_inj.
Qed.

Lemma resolve_wire_code_total derc code p : is_Some (resolve_wire_code derc code p).
Proof. unfold resolve_wire_code. rewrite translate_total. eauto. Qed.

(** The three flags are independent bits. *)
Lemma allows_bit (required : option (list Z)) (code : ResponseCode) :
  response_required_allows required code =
  Z.testbit (be_int (match required with None | Some [] => [0] | Some l => l end))
    (if decide (code = ACKNOWLEDGED) then 0 else if decide (code ∈ END_USER_CODES) then 2 else 1).
Proof.
  unfold response_required_allows, required_bit_for,
    RR_MESSAGE_RECEIVED, RR_END_USER_RESPONSE, RR_SPECIFIC_RESPONSE.
  set (f := be_int _).
  assert (∀ n, 0 <= n → negb (Z.land f (2 ^ n) =? 0) = Z.testbit f n) as H.
  { intros n Hn. destruct (Z.testbit f n) eqn:E.
    - destruct (Z.eqb_spec (Z.land f (2 ^ n)) 0) as [Hz|]; [|done].
      apply (f_equal (λ z, Z.testbit z n)) in Hz.
      by rewrite Z.land_spec, E, Z.pow2_bits_true, Z.bits_0 in Hz.
    - destruct (Z.eqb_spec (Z.land f (2 ^ n)) 0) as [|Hz]; [done|]. exfalso. apply Hz.
      apply Z.bits_inj'. intros i Hi. rewrite Z.land_spec, Z.bits_0.
      destruct (decide (i = n)) as [->|]; [by rewrite E|].
      rewrite Z.pow2_bits_false by done. apply andb_false_r. }
  repeat case_decide.
  - apply (H 0). lia.
  - apply (H 2). lia.
  - apply (H 1). lia.
Qed.

Lemma dispatch_error_code (e : DispatchError) :
  response_code_for_dispatch_error e ∈ [OPT_OUT; NOT_APPLICABLE; INVALID; NOT_SUPPORTED] ∧
  (response_code_for_dispatch_error e = OPT_OUT ↔ e = OptOutError).
Proof.
  split; [destruct e; apply (bool_decide_unpack _); vm_compute; exact I|]. destruct e; vm_compute; done.
Qed.

(** The flag of a specific response is bit 1 of the bitmap. *)
Definition asks_specific (derc : Dercontrol) : bool :=
  Z.testbit (be_int (match response_required derc with None | Some [] => [0] | Some l => l end)) 1.

(** A failed dispatch is always reported to a server that asked for
    specific responses (bit 1 of responseRequired): whatever the failure and
    whatever the server's profile, the code that goes on the wire exists,
    passes the responseRequired gate, and is a rejection (never a success
    code); it is an opt-out only for a user's opt-out the server asked to hear
    of; and a 2018 server is never sent code 251, which its table lacks. *)
Theorem rejections_reported (derc : Dercontrol) (e : DispatchError) (p : ServerProfile) :
  asks_specific derc = true →
  ∃ c, resolve_wire_code derc (response_code_for_dispatch_error e) p = Some c ∧
    response_required_allows (response_required derc) c = true ∧
    c ∈ [OPT_OUT; NOT_APPLICABLE; INVALID; NOT_SUPPORTED] ∧
    (c = OPT_OUT → e = OptOutError) ∧
    (is_2018 p = true → code_value c ≠ 251).
Proof.
  intros Hask. destruct (dispatch_error_code e) as [Hin Hopt].
  revert Hin Hopt. generalize (response_code_for_dispatch_error e). intros code Hin Hopt.
  unfold resolve_wire_code. rewrite translate_total. eexists. split; [done|].
  assert (∀ c, c ∈ [NOT_APPLICABLE; INVALID; NOT_SUPPORTED] →
    response_required_allows (response_required derc) c = true) as Hspec.
  { intros c Hc. rewrite allows_bit. rewrite <- Hask. unfold asks_specific. f_equal.
    repeat (apply elem_of_cons in Hc as [->|Hc]; [done|]). by apply elem_of_nil in Hc. }
  destruct (response_required_allows (response_required derc) OPT_OUT) eqn:Hoo;
    repeat (apply elem_of_cons in Hin as [->|Hin];
            [destruct (is_2018 p); cbn -[response_required_allows];
             (split; [first [done | apply Hspec; apply (bool_decide_unpack _); vm_compute; exact I]|]);
             (split; [apply (bool_decide_unpack _); vm_compute; exact I|]); naive_solver|]);
    by apply elem_of_nil in Hin.
Qed.

(** A control as [EventStore]'s samples have it, asking for every response. *)
Definition demanding_control (flags : Z) : Dercontrol :=
  {| m_rid := "E1"; dercontrol_base := {| base_fields := []; other_element := [] |};
     interval_start := 0; interval_duration := 60; randomize_start := None;
     randomize_duration := None; event_status := None; creation_time := None;
     response_required := Some [flags]; reply_to := Some "/rsp" |}.

Lemma rejections_reported_witness :
  let p := {| profile_base := Some E2018; profile_features := ∅ |} in
  (∃ c, resolve_wire_code (demanding_control 3) (response_code_for_dispatch_error OptOutError) p = Some c ∧
        c ≠ OPT_OUT) ∧
  resolve_wire_code (demanding_control 3) (response_code_for_dispatch_error OptOutError) p
    = Some NOT_APPLICABLE.
Proof.
  cbn zeta. split; [|vm_compute; reflexivity].
  destruct (rejections_reported (demanding_control 3) OptOutError
              {| profile_base := Some E2018; profile_features := ∅ |}) as (c & Hc & _).
  - reflexivity.
  - exists c. split; [exact Hc|]. intros ->. vm_compute in Hc. discriminate Hc.
Defined.

Lemma bits_of_mode_bits2 p i :
  0 <= i → Z.testbit (bits_of (mode_bits2 p)) i = true ↔ i ∈ mode_bits2 p.
Proof.
  intros Hi. rewrite testbit_bits_of, bool_decide_eq_true; [done| |done].
  unfold mode_bits2. destruct (negb _); apply Forall_forall; intros x.
  - intros Hx%elem_of_seqZ. lia.
  - intros (l & Hx & (f & -> & _)%list_elem_of_fmap)%list_elem_of_join.
    destruct (dict_get f FEATURE_BITS2) as [bits|] eqn:Hg; cbn in Hx; [|by apply elem_of_nil in Hx].
    unfold FEATURE_BITS2, dict_get in Hg. repeat case_decide; simplify_eq.
    repeat (apply elem_of_cons in Hx as [->|Hx]; [lia|]). by apply elem_of_nil in Hx.
Qed.

(** A response names exactly the modes of its control.  Its first bitmap,
    sent to 2023 servers, has the bit of every mode the control sets and no
    other; its second has only bits of modes the control sets, the device
    supports and the server's profile permits, and all of those. *)
Theorem modes_reported_exactly (derc : Dercontrol) (code : ResponseCode) (lfdi : bytes) (now_ts : Z)
    (p : ServerProfile) (supported : Z) (i : Z) :
  0 <= supported → 0 <= i →
  let body := build_response derc code lfdi now_ts p (Some supported) in
  let set_by (table : dict string Z) :=
    ∃ f, (f, i) ∈ table ∧ has_field (dercontrol_base derc) f = true in
  (∀ l, rb_modes body = Some l → Z.testbit (be_int l) i = true ↔ set_by FIELD_TO_BIT) ∧
  (∀ l, rb_modes2 body = Some l →
     Z.testbit (be_int l) i = true ↔
     Z.testbit supported i = true ∧ i ∈ mode_bits2 p ∧ set_by FIELD_TO_BIT2).
Proof.
  intros Hs Hi. cbn zeta. split; intros l; unfold build_response; cbn [rb_modes rb_modes2].
  - destruct (sends_modes_responded p); [|done]. intros [= <-]. by apply modes_responded_bits.
  - destruct (sends_modes_responded2 p); [|done].
    change (default 0 (Some supported)) with supported. intros Hl.
    rewrite (modes_responded2_bits (dercontrol_base derc) (mask_modes2 p supported) l i); [|by apply Z.land_nonneg; left|done..].
    unfold mask_modes2. rewrite Z.land_spec, andb_true_iff, bits_of_mode_bits2 by done. naive_solver.
Qed.

Lemma modes_reported_exactly_witness :
  let derc := {| m_rid := "E1";
                 dercontrol_base := {| base_fields := [("op_mod_connect", FBool true);
                                                        ("op_mod_max_lim_winject", FInt 50);
                                                        ("op_mod_target_v", FInt 9)];
                                       other_element := [] |};
                 interval_start := 0; interval_duration := 60; randomize_start := None;
                 randomize_duration := None; event_status := None; creation_time := None;
                 response_required := Some [7]; reply_to := Some "/rsp" |} in
  let p := {| profile_base := Some E2023; profile_features := ∅ |} in
  let body := build_response derc R_ACTIVE "A" 0 p (Some 256) in
  rb_modes body = Some [0; 0; 0; 4] ∧ rb_modes2 body = Some [0; 0; 1; 0] ∧
  (Z.testbit (be_int [0; 0; 1; 0]) 9 = true →
   Z.testbit 256 9 = true ∧ 9 ∈ mode_bits2 p).
Proof.
  cbn zeta. split; [vm_compute; reflexivity|]. split; [vm_compute; reflexivity|]. intros Hb.
  edestruct (modes_reported_exactly
    {| m_rid := "E1";
       dercontrol_base := {| base_fields := [("op_mod_connect", FBool true);
                                              ("op_mod_max_lim_winject", FInt 50);
                                              ("op_mod_target_v", FInt 9)];
                             other_element := [] |};
       interval_start := 0; interval_duration := 60; randomize_start := None;
       randomize_duration := None; event_status := None; creation_time := None;
       response_required := Some [7]; reply_to := Some "/rsp" |} R_ACTIVE "A" 0
    {| profile_base := Some E2023; profile_features := ∅ |} 256 9) as [_ H2].
  - lia.
  - lia.
  - destruct (proj1 (H2 [0; 0; 1; 0] ltac:(vm_compute; reflexivity)) Hb) as (H3 & H4 & _).
    split; [exact H3|exact H4].
Defined.
