(* ===== verification/ResponsePosters.v ===== *)
(** * Concurrent posters of one response (events/response.py)

    The per-device fan-out runs [post_der_response] concurrently.  Each caller
    runs [ResponseTracker.reserve] until it owns the key or learns that the
    response was acknowledged, then posts, and ends by [mark_sent] or, in the
    [finally], [release].  Between two awaits a caller is atomic; the step
    relation interleaves the callers at every await.  A future is an index
    into a list of results ([None]: pending).

    What the server takes is apart from what the client learns: while a POST
    is under way the server may take the response, more than once when the
    HTTP layer retries, and the POST may still end without an answer.  The
    tracker forgets acknowledged responses by [prune] (age, the event
    processor's) and [retain_mrids] (liveness, the tariff processor's), at
    any time between two steps.  A log of the POSTs issued, taken,
    acknowledged, left unacknowledged and forgotten records the course. *)

From S2P Require Import Prelude.

Section Posters.
Context {K : Type} `{Countable K}.

(** Where a caller stands. *)
Inductive pc :=
  | AtReserve                    (* at the top of the [while True] *)
  | Waiting (f : nat)            (* awaiting another caller's future *)
  | Posting (f : nat)            (* owns the key; POST under way *)
  | Posted                       (* POST acknowledged *)
  | Duplicate                    (* reserve returned False *)
  | Failed.                      (* no acknowledgement, or the caller was cancelled *)

(** What happens to the response of a key. *)
Inductive entry :=
  | Issued (k : K)               (* a caller claimed the key and posts *)
  | Taken (k : K)                (* the server took the response *)
  | Acked (k : K) (at_ : Z)      (* the POST returned: [mark_sent] *)
  | Unacked (k : K)              (* it raised or was cancelled: [release] *)
  | Forgot (k : K).              (* [prune] or [retain_mrids] dropped the key *)

#[export] Instance entry_eq_dec : EqDecision entry.
Proof. solve_decision. Defined.

Record caller := { c_key : K; c_pc : pc }.

Record posters := {
  p_sent : gmap K Z;                      (* ResponseTracker._sent *)
  p_flight : gmap K nat;                  (* ResponseTracker._in_flight *)
  p_futures : list (option bool);         (* results of the futures made so far *)
  p_callers : list caller;
  p_log : list entry;                     (* newest first *)
}.

(** Whether the server has taken the response since its POST was issued. *)
Fixpoint taken_since (k : K) (l : list entry) : bool :=
  match l with
  | [] => false
  | Taken k' :: l => if decide (k' = k) then true else taken_since k l
  | Issued k' :: l => if decide (k' = k) then false else taken_since k l
  | _ :: l => taken_since k l
  end.

Definition set_pc (i : nat) (p : pc) (cs : list caller) : list caller :=
  alter (λ c, {| c_key := c_key c; c_pc := p |}) i cs.

(** [future.set_result(b)] unless it is done. *)
Definition resolve (f : option nat) (b : bool) (futs : list (option bool))
    : list (option bool) :=
  match f with
  | Some f => alter (λ r, match r with None => Some b | Some _ => r end) f futs
  | None => futs
  end.

(** [reserve], up to its next await: return False, claim, or wait. *)
Definition reserve_step (i : nat) (k : K) (s : posters) : posters :=
  if decide (is_Some (p_sent s !! k)) then
    {| p_sent := p_sent s; p_flight := p_flight s; p_futures := p_futures s;
       p_callers := set_pc i Duplicate (p_callers s); p_log := p_log s |}
  else match p_flight s !! k with
  | None =>
      let f := length (p_futures s) in
      {| p_sent := p_sent s; p_flight := <[k := f]> (p_flight s);
         p_futures := p_futures s ++ [None];
         p_callers := set_pc i (Posting f) (p_callers s);
         p_log := Issued k :: p_log s |}
  | Some f =>
      {| p_sent := p_sent s; p_flight := p_flight s; p_futures := p_futures s;
         p_callers := set_pc i (Waiting f) (p_callers s); p_log := p_log s |}
  end.

(** The POST returned: [mark_sent]. *)
Definition mark_sent_step (i : nat) (k : K) (now : Z) (s : posters) : posters :=
  {| p_sent := <[k := now]> (p_sent s); p_flight := delete k (p_flight s);
     p_futures := resolve (p_flight s !! k) true (p_futures s);
     p_callers := set_pc i Posted (p_callers s); p_log := Acked k now :: p_log s |}.

(** The POST raised or was cancelled, whether or not the server took it:
    [release] in the [finally]. *)
Definition release_step (i : nat) (k : K) (s : posters) : posters :=
  {| p_sent := p_sent s; p_flight := delete k (p_flight s);
     p_futures := resolve (p_flight s !! k) false (p_futures s);
     p_callers := set_pc i Failed (p_callers s); p_log := Unacked k :: p_log s |}.

Definition move (i : nat) (p : pc) (s : posters) : posters :=
  {| p_sent := p_sent s; p_flight := p_flight s; p_futures := p_futures s;
     p_callers := set_pc i p (p_callers s); p_log := p_log s |}.

(** The server takes the response of a POST under way. *)
Definition take_step (k : K) (s : posters) : posters :=
  {| p_sent := p_sent s; p_flight := p_flight s; p_futures := p_futures s;
     p_callers := p_callers s; p_log := Taken k :: p_log s |}.

(** Drop the entries of [_sent] that [keep] does not keep. *)
Definition forget_step (keep : K → Z → bool) (s : posters) : posters :=
  {| p_sent := filter (λ kt, keep kt.1 kt.2 = true) (p_sent s);
     p_flight := p_flight s; p_futures := p_futures s; p_callers := p_callers s;
     p_log := (Forgot <$>
                (map_to_list (filter (λ kt, keep kt.1 kt.2 = false) (p_sent s))).*1)
              ++ p_log s |}.

(** [prune]: entries older than [max_age] go. *)
Definition prune_keeps (now max_age : Z) (_ : K) (ts : Z) : bool := negb (max_age <? now - ts).

(** [retain_mrids]: keys of no live event go. *)
Definition retain_keeps (live : K → bool) (k : K) (_ : Z) : bool := live k.

Inductive poster_step : posters → posters → Prop :=
  | ps_reserve s i k :
      p_callers s !! i = Some {| c_key := k; c_pc := AtReserve |} →
      poster_step s (reserve_step i k s)
  | ps_woken_landed s i k f :
      p_callers s !! i = Some {| c_key := k; c_pc := Waiting f |} →
      p_futures s !! f = Some (Some true) → poster_step s (move i Duplicate s)
  | ps_woken_failed s i k f :
      p_callers s !! i = Some {| c_key := k; c_pc := Waiting f |} →
      p_futures s !! f = Some (Some false) → poster_step s (move i AtReserve s)
  | ps_wait_cancelled s i k f :
      p_callers s !! i = Some {| c_key := k; c_pc := Waiting f |} →
      poster_step s (move i Failed s)
  | ps_acked s i k f now :
      p_callers s !! i = Some {| c_key := k; c_pc := Posting f |} →
      taken_since k (p_log s) = true →
      poster_step s (mark_sent_step i k now s)
  | ps_post_failed s i k f :
      p_callers s !! i = Some {| c_key := k; c_pc := Posting f |} →
      poster_step s (release_step i k s).

(** What happens between two steps of the callers. *)
Inductive outside_step : posters → posters → Prop :=
  | os_taken s i k f :
      p_callers s !! i = Some {| c_key := k; c_pc := Posting f |} →
      outside_step s (take_step k s)
  | os_prune s now max_age : outside_step s (forget_step (prune_keeps now max_age) s)
  | os_retain s live : outside_step s (forget_step (retain_keeps live) s).

(** A run with [n] steps of callers, interleaved with the rest. *)
Inductive run : nat → posters → posters → Prop :=
  | run_nil s : run 0 s s
  | run_caller n s1 s2 s3 : poster_step s1 s2 → run n s2 s3 → run (S n) s1 s3
  | run_outside n s1 s2 s3 : outside_step s1 s2 → run n s2 s3 → run n s1 s3.

Definition start (keys : list K) : posters :=
  {| p_sent := ∅; p_flight := ∅; p_futures := [];
     p_callers := (λ k, {| c_key := k; c_pc := AtReserve |}) <$> keys; p_log := [] |}.

Definition reachable (keys : list K) (s : posters) : Prop := ∃ n, run n (start keys) s.

Definition finished (c : caller) : Prop :=
  match c_pc c with Posted | Duplicate | Failed => True | _ => False end.

(** ** The course of one response *)

(** Free, on its way, or held in [_sent]: what the log says of a key. *)
Inductive log_status := Free | InPost | Held (at_ : Z).

Fixpoint status_of (k : K) (l : list entry) : log_status :=
  match l with
  | [] => Free
  | Issued k' :: l => if decide (k' = k) then InPost else status_of k l
  | Taken _ :: l => status_of k l
  | Acked k' t :: l => if decide (k' = k) then Held t else status_of k l
  | Unacked k' :: l => if decide (k' = k) then Free else status_of k l
  | Forgot k' :: l => if decide (k' = k) then Free else status_of k l
  end.

(** Each entry comes at a status of its key that allows it. *)
Fixpoint log_ok (l : list entry) : Prop :=
  match l with
  | [] => True
  | e :: l =>
      log_ok l ∧
      match e with
      | Issued k => status_of k l = Free
      | Taken k | Unacked k => status_of k l = InPost
      | Acked k _ => status_of k l = InPost ∧ taken_since k l = true
      | Forgot k => ∃ t, status_of k l = Held t
      end
  end.

Lemma log_ok_suffix (l1 l2 : list entry) : log_ok (l1 ++ l2) → log_ok l2.
Proof. induction l1 as [|e l1 IH]; cbn; [done|]. intros [Hl _]. auto. Qed.

(** A response on its way comes free only unacknowledged or forgotten. *)
Lemma freed_by (k : K) (l1 l2 : list entry) :
  status_of k (l1 ++ Issued k :: l2) = Free → Unacked k ∈ l1 ∨ Forgot k ∈ l1.
Proof.
  induction l1 as [|e l1 IH]; cbn; [by rewrite decide_True|].
  destruct e; repeat case_decide; subst; rewrite ?elem_of_cons; try done; tauto.
Qed.

(** What is acknowledged stays so until it is forgotten. *)
Lemma held_until_forgotten (k : K) (t : Z) (l1 l2 : list entry) :
  log_ok (l1 ++ Acked k t :: l2) → Forgot k ∉ l1 → status_of k (l1 ++ Acked k t :: l2) = Held t.
Proof.
  induction l1 as [|e l1 IH]; cbn; [by rewrite decide_True|].
  intros [Hl He] Hn. rewrite not_elem_of_cons in Hn. destruct Hn as [Hne Hn].
  specialize (IH Hl Hn). destruct e; repeat case_decide; subst; try done;
    by destruct_and?; congruence.
Qed.

Lemma acked_was_taken (k : K) (t : Z) (l : list entry) :
  log_ok l → Acked k t ∈ l → Taken k ∈ l.
Proof.
  assert (∀ l, taken_since k l = true → Taken k ∈ l) as Hts.
  { induction l0 as [|e l0 IH]; cbn; [done|].
    destruct e; repeat case_decide; subst; rewrite ?elem_of_cons; try done; tauto. }
  induction l as [|e l IH]; cbn; [by intros _ ?%elem_of_nil|].
  intros [Hl He] [<-|Hin]%elem_of_cons; apply elem_of_cons; right; [|auto].
  by apply Hts, He.
Qed.

(** Dropping held keys from the log's end. *)
Lemma forgotten_ok (ks : list K) (l : list entry) :
  log_ok l → NoDup ks → (∀ k, k ∈ ks → ∃ t, status_of k l = Held t) →
  log_ok ((Forgot <$> ks) ++ l) ∧
  ∀ k, status_of k ((Forgot <$> ks) ++ l) = if decide (k ∈ ks) then Free else status_of k l.
Proof.
  intros Hl. induction ks as [|k ks IH]; intros Hnd Hks.
  - split; [done|]. intros k. by rewrite decide_False by apply not_elem_of_nil.
  - apply NoDup_cons in Hnd as [Hk Hnd].
    destruct IH as [IH1 IH2]; [done|intros; apply Hks; by right|]. cbn. split.
    + split; [done|]. rewrite IH2, decide_False by done. apply Hks. by left.
    + intros k'. case_decide as E.
      * subst. by rewrite decide_True by left.
      * rewrite IH2. repeat case_decide; set_solver.
Qed.

(** ** The invariant *)

Record posters_inv (s : posters) : Prop := {
  (* a posting caller owns the pending future registered for its key *)
  inv_posting : ∀ i k f, p_callers s !! i = Some {| c_key := k; c_pc := Posting f |} →
    p_flight s !! k = Some f ∧ p_futures s !! f = Some None;
  inv_unique : ∀ i j k f g,
    p_callers s !! i = Some {| c_key := k; c_pc := Posting f |} →
    p_callers s !! j = Some {| c_key := k; c_pc := Posting g |} → i = j;
  inv_flight : ∀ k f, p_flight s !! k = Some f →
    p_sent s !! k = None ∧ ∃ i, p_callers s !! i = Some {| c_key := k; c_pc := Posting f |};
  inv_waiting : ∀ i k f, p_callers s !! i = Some {| c_key := k; c_pc := Waiting f |} →
    (p_futures s !! f = Some None ∧ p_flight s !! k = Some f) ∨
    (p_futures s !! f = Some (Some true) ∧ ∃ t, Acked k t ∈ p_log s) ∨
    p_futures s !! f = Some (Some false);
  inv_duplicate : ∀ i k, p_callers s !! i = Some {| c_key := k; c_pc := Duplicate |} →
    ∃ t, Acked k t ∈ p_log s;
  (* the tracker is what the log says *)
  inv_status : ∀ k, status_of k (p_log s) =
    match p_flight s !! k, p_sent s !! k with
    | Some _, _ => InPost
    | None, Some t => Held t
    | None, None => Free
    end;
  inv_log : log_ok (p_log s);
  (* a future belongs to one key *)
  inv_injective : ∀ k k' f, p_flight s !! k = Some f → p_flight s !! k' = Some f → k = k';
}.

Lemma set_pc_lookup (i j : nat) (p : pc) (cs : list caller) (k : K) (q : pc) :
  set_pc i p cs !! j = Some {| c_key := k; c_pc := q |} →
  (j = i ∧ q = p ∧ ∃ q0, cs !! i = Some {| c_key := k; c_pc := q0 |}) ∨
  (j ≠ i ∧ cs !! j = Some {| c_key := k; c_pc := q |}).
Proof.
  unfold set_pc. destruct (decide (i = j)) as [<-|Hne].
  - rewrite list_lookup_alter_eq. destruct (cs !! i) as [[k0 q0]|]; cbn; [|done].
    intros [= -> ->]. left. eauto.
  - rewrite list_lookup_alter_ne by done. auto.
Qed.

Lemma set_pc_lookup_ne (i j : nat) (p : pc) (cs : list caller) :
  i ≠ j → set_pc i p cs !! j = cs !! j.
Proof. intros. unfold set_pc. by apply list_lookup_alter_ne. Qed.

Definition is_posting (p : pc) : bool := match p with Posting _ => true | _ => false end.

Lemma inv_move (s : posters) (i : nat) (k : K) (p0 p : pc) :
  posters_inv s → p_callers s !! i = Some {| c_key := k; c_pc := p0 |} →
  is_posting p0 = false → is_posting p = false →
  (∀ f, p = Waiting f →
    (p_futures s !! f = Some None ∧ p_flight s !! k = Some f) ∨
    (p_futures s !! f = Some (Some true) ∧ ∃ t, Acked k t ∈ p_log s) ∨
    p_futures s !! f = Some (Some false)) →
  (p = Duplicate → ∃ t, Acked k t ∈ p_log s) →
  posters_inv (move i p s).
Proof.
  intros [I1 I2 I3 I4 I5 I6 I7 I8] Hi Hp0 Hp Hw Hd. constructor; cbn; [..|done|done|done].
  - intros j k' f [(-> & <- & _)|[Hne Hj]]%set_pc_lookup; [done|]. eauto.
  - intros j1 j2 k' f g Hj1 Hj2.
    apply set_pc_lookup in Hj1 as [(-> & <- & _)|[Hne1 Hj1]]; [done|].
    apply set_pc_lookup in Hj2 as [(-> & <- & _)|[Hne2 Hj2]]; [done|]. eauto.
  - intros k' f Hf. destruct (I3 k' f Hf) as [Hs (j & Hj)]. split; [done|].
    exists j. rewrite set_pc_lookup_ne; [done|]. intros <-. rewrite Hi in Hj. by simplify_eq.
  - intros j k' f [(-> & E & q0 & Hq)|[Hne Hj]]%set_pc_lookup; [|eauto].
    rewrite Hi in Hq. simplify_eq. eauto.
  - intros j k' [(-> & E & q0 & Hq)|[Hne Hj]]%set_pc_lookup; [|eauto].
    rewrite Hi in Hq. simplify_eq. eauto.
Qed.

Lemma inv_claim (s : posters) (i : nat) (k : K) :
  posters_inv s → p_callers s !! i = Some {| c_key := k; c_pc := AtReserve |} →
  p_sent s !! k = None → p_flight s !! k = None →
  posters_inv
    {| p_sent := p_sent s; p_flight := <[k := length (p_futures s)]> (p_flight s);
       p_futures := p_futures s ++ [None];
       p_callers := set_pc i (Posting (length (p_futures s))) (p_callers s);
       p_log := Issued k :: p_log s |}.
Proof.
  intros [I1 I2 I3 I4 I5 I6 I7 I8] Hi Hsent Hfree.
  assert (∀ j k' f, p_callers s !! j = Some {| c_key := k'; c_pc := Posting f |} → k' ≠ k) as Hpk.
  { intros j k' f Hj ->. apply I1 in Hj as [? _]. congruence. }
  assert (∀ f o, p_futures s !! f = Some o → (p_futures s ++ [None]) !! f = Some o) as Hfut
    by (intros; by apply lookup_app_l_Some).
  constructor; cbn.
  - intros j k' f [(-> & E & q0 & Hq)|[Hne Hj]]%set_pc_lookup.
    + rewrite Hi in Hq. simplify_eq. rewrite lookup_insert_eq.
      split; [done|]. by apply list_lookup_middle.
    + rewrite lookup_insert_ne by (intros <-; by eapply Hpk). destruct (I1 _ _ _ Hj). auto.
  - intros j1 j2 k' f g Hj1 Hj2.
    apply set_pc_lookup in Hj1 as [(-> & E1 & q1 & Hq1)|[Hne1 Hj1]];
      apply set_pc_lookup in Hj2 as [(-> & E2 & q2 & Hq2)|[Hne2 Hj2]]; [done| | |eauto].
    + rewrite Hi in Hq1. simplify_eq. by apply Hpk in Hj2.
    + rewrite Hi in Hq2. simplify_eq. by apply Hpk in Hj1.
  - intros k' f Hf. destruct (decide (k' = k)) as [->|Hne].
    + rewrite lookup_insert_eq in Hf. simplify_eq. split; [done|]. exists i.
      unfold set_pc. rewrite list_lookup_alter_eq, Hi. done.
    + rewrite lookup_insert_ne in Hf by done. destruct (I3 _ _ Hf) as [Hs (j & Hj)].
      split; [done|]. exists j. rewrite set_pc_lookup_ne; [done|].
      intros <-. rewrite Hi in Hj. by simplify_eq.
  - intros j k' f [(-> & E & q0 & Hq)|[Hne Hj]]%set_pc_lookup; [done|].
    destruct (I4 _ _ _ Hj) as [[? Hf]|[[? [t Ht]]|?]]; [left|right; left|right; right]; auto.
    + split; [auto|]. rewrite lookup_insert_ne; [done|]. congruence.
    + split; [auto|]. exists t. by right.
  - intros j k' [(-> & E & q0 & Hq)|[Hne Hj]]%set_pc_lookup; [done|].
    destruct (I5 _ _ Hj) as [t Ht]. exists t. by right.
  - intros k'. rewrite lookup_insert. repeat case_decide; [done|]. apply I6.
  - split; [done|]. by rewrite I6, Hfree, Hsent.
  - assert (∀ k0 f0, p_flight s !! k0 = Some f0 → f0 ≠ length (p_futures s)) as Hold.
    { intros k0 f0 H0 ->. destruct (I3 _ _ H0) as [_ (j & Hj)]. apply I1 in Hj as [_ Hj].
      apply lookup_lt_Some in Hj. lia. }
    intros k1 k2 f. rewrite !lookup_insert. repeat case_decide; intros; simplify_eq; eauto.
    + exfalso. by eapply Hold.
    + exfalso. by eapply Hold.
Qed.

(** The end of a POST: its future resolves to [b] and its key is freed. *)
Lemma inv_finish (s : posters) (i : nat) (k : K) (f : nat) (b : bool) (now : Z) (p : pc) :
  posters_inv s → p_callers s !! i = Some {| c_key := k; c_pc := Posting f |} →
  p = (if b then Posted else Failed) → (b = true → taken_since k (p_log s) = true) →
  posters_inv
    {| p_sent := (if b then <[k := now]> (p_sent s) else p_sent s); p_flight := delete k (p_flight s);
       p_futures := resolve (p_flight s !! k) b (p_futures s);
       p_callers := set_pc i p (p_callers s);
       p_log := (if b then Acked k now else Unacked k) :: p_log s |}.
Proof.
  intros [I1 I2 I3 I4 I5 I6 I7 I8] Hi Hp Htk. destruct (I1 _ _ _ Hi) as [Hk Hf]. rewrite Hk. cbn.
  assert (p_sent s !! k = None) as Hks by (by apply (I3 _ _ Hk)).
  assert (∀ k' t l, Acked k' t ∈ p_log s → Acked k' t ∈ l :: p_log s) as Hold by (intros; by right).
  assert (is_posting p = false ∧ p ≠ Duplicate ∧ ∀ g, p ≠ Waiting g) as (Hnp & Hnd & Hnw)
    by (subst; by destruct b).
  set (upd := λ r : option bool, match r with None => Some b | Some _ => r end).
  assert (∀ g, g ≠ f → alter upd f (p_futures s) !! g = p_futures s !! g) as Hother
    by (intros; by apply list_lookup_alter_ne).
  assert (alter upd f (p_futures s) !! f = Some (Some b)) as Hthis
    by (rewrite list_lookup_alter_eq, Hf; done).
  constructor; cbn.
  - intros j k' g [(-> & <- & _)|[Hne Hj]]%set_pc_lookup; [done|].
    destruct (I1 _ _ _ Hj) as [Hk' Hg].
    assert (k' ≠ k) by (intros ->; by apply Hne, (I2 _ _ _ _ _ Hj Hi)).
    rewrite lookup_delete_ne by done. split; [done|]. rewrite Hother; [done|]. intros ->. eauto.
  - intros j1 j2 k' g1 g2 Hj1 Hj2.
    apply set_pc_lookup in Hj1 as [(-> & <- & _)|[_ Hj1]]; [done|].
    apply set_pc_lookup in Hj2 as [(-> & <- & _)|[_ Hj2]]; [done|]. eauto.
  - intros k' g [Hne Hg]%lookup_delete_Some. destruct (I3 _ _ Hg) as [Hs (j & Hj)].
    split; [destruct b; [rewrite lookup_insert_ne by done|]; done|]. exists j. rewrite set_pc_lookup_ne; [done|].
    intros <-. rewrite Hi in Hj. by simplify_eq.
  - intros j k' g [(-> & E & _)|[Hne Hj]]%set_pc_lookup; [by destruct (Hnw g)|].
    destruct (decide (g = f)) as [->|Hgf].
    + rewrite Hthis. destruct (I4 _ _ _ Hj) as [[_ Hk']|[[? _]|?]]; [|congruence|congruence].
      assert (k' = k) as -> by eauto. destruct b; [right; left|auto].
      split; [done|]. exists now. by left.
    + rewrite Hother by done. destruct (I4 _ _ _ Hj) as [[? Hk']|[[? [t Ht]]|?]].
      * left. split; [done|]. rewrite lookup_delete_ne; [done|]. congruence.
      * right. left. eauto.
      * auto.
  - intros j k' [(-> & E & _)|[Hne Hj]]%set_pc_lookup; [done|].
    apply I5 in Hj as [t Ht]. eauto.
  - intros k'. destruct b; cbn; case_decide as E; subst.
    + by rewrite lookup_delete_eq, lookup_insert_eq.
    + rewrite lookup_delete_ne, lookup_insert_ne by done. apply I6.
    + by rewrite lookup_delete_eq, Hks.
    + rewrite lookup_delete_ne by done. apply I6.
  - split; [done|]. destruct b; [split; [|by apply Htk]|]; by rewrite I6, Hk.
  - intros k1 k2 g [_ H1]%lookup_delete_Some [_ H2]%lookup_delete_Some. eauto.
Qed.

Lemma start_inv (keys : list K) : posters_inv (start keys).
Proof.
  assert (∀ i k p, p_callers (start keys) !! i = Some {| c_key := k; c_pc := p |} → p = AtReserve)
    as Hall.
  { intros i k p. cbn. rewrite list_lookup_fmap. destruct (keys !! i); cbn; congruence. }
  constructor; cbn.
  - intros i k f Hi%Hall. done.
  - intros i j k f g Hi%Hall. done.
  - intros k f. by rewrite lookup_empty.
  - intros i k f Hi%Hall. done.
  - intros i k Hi%Hall. done.
  - intros k. by rewrite !lookup_empty.
  - done.
  - intros k k' f. by rewrite lookup_empty.
Qed.

(** What a filter of [_sent] leaves out was held, so the log may forget it. *)
Lemma forget_log (s : posters) (keep : K → Z → bool) :
  posters_inv s → let s' := forget_step keep s in
  log_ok (p_log s') ∧
  (∀ k, status_of k (p_log s') =
     match p_flight s !! k, p_sent s' !! k with
     | Some _, _ => InPost
     | None, Some t => Held t
     | None, None => Free
     end).
Proof.
  intros Hinv. set (gone := filter (λ kt, keep kt.1 kt.2 = false) (p_sent s)).
  assert (∀ k, k ∈ (map_to_list gone).*1 ↔ is_Some (gone !! k)) as Hgone.
  { intros k. rewrite list_elem_of_fmap. split.
    - intros ([k0 t] & -> & Hin%elem_of_map_to_list). eauto.
    - intros [t Ht]. exists (k, t). by rewrite elem_of_map_to_list. }
  assert (∀ k t, p_sent s !! k = Some t → p_flight s !! k = None) as Hfree.
  { intros k t Ht. destruct (p_flight s !! k) eqn:E; [|done].
    apply (inv_flight _ Hinv) in E as [E _]. congruence. }
  destruct (forgotten_ok (map_to_list gone).*1 (p_log s)) as [Hok Hst];
    [apply (inv_log _ Hinv)|apply NoDup_fst_map_to_list| |].
  { intros k [t [Ht _]%map_lookup_filter_Some]%Hgone. exists t.
    by rewrite (inv_status _ Hinv), (Hfree _ _ Ht), Ht. }
  split; [done|]. intros k. cbn. fold gone. rewrite Hst, (inv_status _ Hinv), map_lookup_filter.
  case_decide as E; rewrite Hgone in E; unfold gone in E; rewrite map_lookup_filter in E.
  - destruct (p_sent s !! k) as [t|] eqn:Es; cbn in *; [|by destruct E].
    rewrite (Hfree _ _ Es). destruct (keep k t); cbn in *; [by destruct E|done].
  - destruct (p_flight s !! k); [done|]. destruct (p_sent s !! k) as [t|]; cbn in *; [|done].
    destruct (keep k t); cbn in *; [done|]. destruct E. eauto.
Qed.

Lemma inv_forget (s : posters) (keep : K → Z → bool) :
  posters_inv s → posters_inv (forget_step keep s).
Proof.
  intros Hinv. destruct (forget_log s keep Hinv) as [Hok Hst].
  destruct Hinv as [I1 I2 I3 I4 I5 I6 I7 I8].
  assert (∀ k t, Acked k t ∈ p_log s → Acked k t ∈ p_log (forget_step keep s)) as Hold
    by (intros; apply elem_of_app; by right).
  constructor; [done|done| | | |done|done|done].
  - intros k f Hf. destruct (I3 _ _ Hf) as [Hs Hi]. split; [|done].
    apply map_lookup_filter_None. by left.
  - intros i k f Hi. destruct (I4 _ _ _ Hi) as [?|[[? [t Ht]]|?]]; eauto 6.
  - intros i k Hi. destruct (I5 _ _ Hi) as [t Ht]. eauto.
Qed.

Lemma outside_inv (s s' : posters) : posters_inv s → outside_step s s' → posters_inv s'.
Proof.
  intros Hinv Hstep. destruct Hstep as [s i k f Hi| |]; [|by apply inv_forget..].
  destruct Hinv as [I1 I2 I3 I4 I5 I6 I7 I8]. destruct (I1 _ _ _ Hi) as [Hf _].
  assert (∀ k' t, Acked k' t ∈ p_log s → Acked k' t ∈ Taken k :: p_log s) as Hold
    by (intros; by right).
  constructor; cbn; try done.
  - intros j k' g Hj. destruct (I4 _ _ _ Hj) as [?|[[? [t Ht]]|?]]; eauto 6.
  - intros j k' Hj. destruct (I5 _ _ Hj) as [t Ht]. eauto.
  - split; [done|]. by rewrite I6, Hf.
Qed.

Lemma held_acked (s : posters) (k : K) :
  posters_inv s → is_Some (p_sent s !! k) → ∃ t, Acked k t ∈ p_log s.
Proof.
  intros Hinv [t Ht]. exists t. pose proof (inv_status _ Hinv k) as Hst. rewrite Ht in Hst.
  destruct (p_flight s !! k) eqn:E; [apply (inv_flight _ Hinv) in E as [E _]; congruence|].
  revert Hst. clear. induction (p_log s) as [|e l IH]; cbn; [done|].
  destruct e; repeat case_decide; subst; rewrite ?elem_of_cons; try done; auto.
  intros [= ->]. by left.
Qed.

Lemma step_inv (s s' : posters) : posters_inv s → poster_step s s' → posters_inv s'.
Proof.
  intros Hinv Hstep. destruct Hstep as [s i k Hi|s i k f Hi Hf|s i k f Hi Hf|s i k f Hi|s i k f now Hi Htk|s i k f Hi].
  - unfold reserve_step. case_decide as Hs.
    + eapply (inv_move s i k AtReserve Duplicate); eauto; [done|]. intros _.
      by apply held_acked.
    + destruct (p_flight s !! k) as [f|] eqn:Ef.
      * eapply (inv_move s i k AtReserve (Waiting f)); eauto; [|done].
        intros g [= <-]. left. split; [|done].
        destruct (inv_flight _ Hinv _ _ Ef) as [_ (j & Hj)]. by apply (inv_posting _ Hinv _ _ _ Hj).
      * apply inv_claim; [done..|by apply eq_None_not_Some|done].
  - eapply inv_move; eauto; [done|]. intros _.
    destruct (inv_waiting _ Hinv _ _ _ Hi) as [[? _]|[[_ ?]|?]]; [congruence|done|congruence].
  - eapply inv_move; eauto; done.
  - eapply inv_move; eauto; done.
  - exact (inv_finish s i k f true now Posted Hinv Hi eq_refl (λ _, Htk)).
  - exact (inv_finish s i k f false 0 Failed Hinv Hi eq_refl ltac:(done)).
Qed.

Lemma run_posters_inv (n : nat) (s s' : posters) : posters_inv s → run n s s' → posters_inv s'.
Proof.
  intros Hinv Hr. induction Hr as [|n s1 s2 s3 Hs Hr IH|n s1 s2 s3 Hs Hr IH]; [done| |];
    apply IH; [by eapply step_inv|by eapply outside_inv].
Qed.

Lemma reachable_inv (keys : list K) (s : posters) : reachable keys s → posters_inv s.
Proof. intros [n Hr]. eapply run_posters_inv, Hr. apply start_inv. Qed.

(** ** Progress and termination *)

Lemma finished_dec (c : caller) : finished c ∨ ¬ finished c.
Proof. destruct c as [k []]; cbn; auto. Qed.

Lemma unfinished_can_step (s : posters) (i : nat) (c : caller) :
  posters_inv s → p_callers s !! i = Some c → ¬ finished c → ∃ s', poster_step s s'.
Proof.
  intros Hinv Hi Hnf. destruct c as [k p]. destruct p as [|f|f| | |]; try by destruct Hnf.
  - eexists. by eapply ps_reserve.
  - destruct (inv_waiting _ Hinv _ _ _ Hi) as [[Hp Hf]|[[Hf _]|Hf]].
    + destruct (inv_flight _ Hinv _ _ Hf) as [_ (j & Hj)]. eexists. by eapply ps_post_failed.
    + eexists. by eapply ps_woken_landed.
    + eexists. by eapply ps_woken_failed.
  - eexists. by eapply ps_post_failed.
Qed.

Definition weight (s : posters) (c : caller) : nat :=
  match c_pc c with
  | AtReserve => 2
  | Waiting f => if decide (p_futures s !! f = Some None) then 1 else 3
  | Posting _ => 1
  | _ => 0
  end.

Definition live_count (c : caller) : nat :=
  match c_pc c with Posted | Duplicate | Failed => 0 | _ => 1 end.

Definition measure (s : posters) : nat :=
  sum_list_with live_count (p_callers s) * (4 * length (p_callers s))
  + sum_list_with (weight s) (p_callers s).

Lemma sum_alter (g g' : caller → nat) (h : caller → caller) (i : nat) (cs : list caller) (c : caller) :
  cs !! i = Some c → (∀ j d, j ≠ i → cs !! j = Some d → g' d = g d) →
  (sum_list_with g' (alter h i cs) + g c = sum_list_with g cs + g' (h c))%nat.
Proof.
  revert i. induction cs as [|d cs IH]; intros [|i]; cbn; [done|done| |]; intros Hc Hext.
  - simplify_eq.
    assert (sum_list_with g' cs = sum_list_with g cs) as ->; [|lia].
    clear IH. assert (∀ j d, cs !! j = Some d → g' d = g d) as Hall
      by (intros j d Hj; by apply (Hext (S j) d)).
    clear Hext. induction cs as [|d cs IH]; cbn; [done|].
    rewrite (Hall 0%nat d eq_refl), IH; [done|]. intros j d' Hj. by apply (Hall (S j) d').
  - rewrite (Hext 0%nat d) by done. rewrite <- Nat.add_assoc, (IH i Hc); [lia|].
    intros j d' Hne Hj. apply (Hext (S j) d'); [lia|done].
Qed.

Lemma weight_bound (s : posters) (cs : list caller) :
  (sum_list_with (weight s) cs <= 3 * length cs)%nat.
Proof.
  induction cs as [|[k p] cs IH]; cbn; [lia|].
  assert (weight s {| c_key := k; c_pc := p |} <= 3)%nat; [|lia].
  unfold weight. cbn. destruct p; try lia. case_decide; lia.
Qed.

Lemma length_set_pc i p cs : length (set_pc i p cs) = length cs.
Proof. apply length_alter. Qed.

(** A step that ends a caller decreases the measure whatever it wakes. *)
Lemma measure_finish (s s' : posters) (i : nat) (c : caller) (p : pc) :
  p_callers s !! i = Some c → p_callers s' = set_pc i p (p_callers s) →
  live_count c = 1%nat → live_count {| c_key := c_key c; c_pc := p |} = 0%nat →
  (measure s' < measure s)%nat.
Proof.
  intros Hi Hcs Hc Hp. unfold measure. pose proof (weight_bound s' (p_callers s')) as Hw.
  rewrite Hcs in *. rewrite length_set_pc in *.
  pose proof (sum_alter live_count live_count
                (λ c, {| c_key := c_key c; c_pc := p |}) i (p_callers s) c Hi ltac:(done)) as Hl.
  fold (set_pc i p (p_callers s)) in Hl. cbn beta in Hl. rewrite Hc, Hp in Hl.
  assert (0 < length (p_callers s))%nat by (apply lookup_lt_Some in Hi; lia). nia.
Qed.

(** A step that moves one caller to a lighter place, waking nobody. *)
Lemma measure_move (s s' : posters) (i : nat) (c : caller) (p : pc) :
  p_callers s !! i = Some c → p_callers s' = set_pc i p (p_callers s) →
  live_count c = 1%nat → live_count {| c_key := c_key c; c_pc := p |} = 1%nat →
  (∀ j d, j ≠ i → p_callers s !! j = Some d → weight s' d = weight s d) →
  (weight s' {| c_key := c_key c; c_pc := p |} < weight s c)%nat →
  (measure s' < measure s)%nat.
Proof.
  intros Hi Hcs Hc Hp Hext Hlt. unfold measure. rewrite Hcs, length_set_pc.
  pose proof (sum_alter live_count live_count
                (λ c, {| c_key := c_key c; c_pc := p |}) i (p_callers s) c Hi ltac:(done)) as Hl.
  pose proof (sum_alter (weight s) (weight s')
                (λ c, {| c_key := c_key c; c_pc := p |}) i (p_callers s) c Hi Hext) as Hw.
  fold (set_pc i p (p_callers s)) in Hl, Hw. cbn beta in Hl, Hw. rewrite Hc, Hp in Hl. nia.
Qed.

Lemma step_measure (s s' : posters) :
  posters_inv s → poster_step s s' → (measure s' < measure s)%nat.
Proof.
  intros Hinv Hstep. destruct Hstep as [s i k Hi|s i k f Hi Hf|s i k f Hi Hf|s i k f Hi|s i k f now Hi Htk|s i k f Hi].
  - unfold reserve_step. case_decide as Hs; [by eapply measure_finish|].
    destruct (p_flight s !! k) as [f|] eqn:Ef.
    + eapply (measure_move _ _ i _ (Waiting f)); [done..|].
      destruct (inv_flight _ Hinv _ _ Ef) as [_ (j & Hj)].
      apply (inv_posting _ Hinv) in Hj as [_ Hj]. unfold weight. cbn.
      rewrite decide_True by done. lia.
    + eapply (measure_move _ _ i _ (Posting (length (p_futures s)))); [done..| |cbn; lia].
      intros j [k' p] Hne Hj. unfold weight. cbn. destruct p as [|g|g| | |]; try done.
      assert (is_Some (p_futures s !! g)) as [o Ho]
        by (destruct (inv_waiting _ Hinv _ _ _ Hj) as [[-> _]|[[-> _]| ->]]; eauto).
      rewrite (lookup_app_l_Some _ _ _ _ Ho), Ho. done.
  - by eapply measure_finish.
  - eapply (measure_move _ _ i _ AtReserve); [done..|]. unfold weight. cbn.
    rewrite decide_False by congruence. lia.
  - by eapply measure_finish.
  - by eapply measure_finish.
  - by eapply measure_finish.
Qed.

Lemma outside_measure (s s' : posters) : outside_step s s' → measure s' = measure s.
Proof. by destruct 1. Qed.

Lemma run_measure (n : nat) (s s' : posters) :
  posters_inv s → run n s s' → (n + measure s' <= measure s)%nat.
Proof.
  intros Hinv Hn. induction Hn as [|n x y z Hxy Hyz IH|n x y z Hxy Hyz IH]; [lia| |].
  - pose proof (step_measure _ _ Hinv Hxy). specialize (IH (step_inv _ _ Hinv Hxy)). lia.
  - rewrite <- (outside_measure _ _ Hxy). apply IH. by eapply outside_inv.
Qed.
End Posters.
Arguments pc : clear implicits.
Arguments caller : clear implicits.
Arguments entry : clear implicits.
Arguments posters _ {_ _}.

(** ** Properties *)

Section Properties.
Context {K : Type} `{Countable K}.

(** C10: whatever the interleaving of concurrent posters, whatever the server
    takes, whichever answers are lost and whenever the tracker prunes, no two
    callers ever post one response at the same time; between two POSTs of one
    response the earlier one ended unacknowledged or the tracker forgot it;
    once a POST of it is acknowledged, the client issues, and the server
    takes and acknowledges, none again until the tracker has forgotten it;
    and a caller that gives up as a duplicate does so only when the server
    has taken and acknowledged that response. *)
Theorem responses_posted_once (keys : list K) (s : posters K) :
  reachable keys s →
  (∀ i j k f g, p_callers s !! i = Some {| c_key := k; c_pc := Posting f |} →
                p_callers s !! j = Some {| c_key := k; c_pc := Posting g |} → i = j) ∧
  (∀ k l1 l2 l3, p_log s = l1 ++ Issued k :: l2 ++ Issued k :: l3 →
     Unacked k ∈ l2 ∨ Forgot k ∈ l2) ∧
  (∀ k t e l1 l2 l3, p_log s = l1 ++ e :: l2 ++ Acked k t :: l3 →
     e = Issued k ∨ e = Taken k ∨ (∃ t', e = Acked k t') → Forgot k ∈ l2) ∧
  (∀ i k, p_callers s !! i = Some {| c_key := k; c_pc := Duplicate |} →
     Taken k ∈ p_log s ∧ ∃ t, Acked k t ∈ p_log s).
Proof.
  intros Hinv%reachable_inv. pose proof (inv_log _ Hinv) as Hlog.
  split; [apply (inv_unique _ Hinv)|]. split; [|split].
  - intros k l1 l2 l3 E. rewrite E in Hlog. apply log_ok_suffix in Hlog as [_ Hlog].
    by eapply freed_by.
  - intros k t e l1 l2 l3 E He. rewrite E in Hlog. apply log_ok_suffix in Hlog as [Hok He'].
    destruct (decide (Forgot k ∈ l2)) as [|Hn]; [done|].
    pose proof (held_until_forgotten k t l2 l3 Hok Hn) as Hh.
    destruct He as [->|[->|[t' ->]]]; destruct_and?; congruence.
  - intros i k Hi. destruct (inv_duplicate _ Hinv _ _ Hi) as [t Ht].
    split; [|eauto]. by eapply acked_was_taken.
Qed.

(** Claims are never leaked and callers never deadlock: once every caller
    has ended no key is left in flight, and while one has not, some caller
    can take a step. *)
Theorem claims_released_and_progress (keys : list K) (s : posters K) :
  reachable keys s →
  (Forall finished (p_callers s) → p_flight s = ∅) ∧
  (¬ Forall finished (p_callers s) → ∃ s', poster_step s s').
Proof.
  intros Hinv%reachable_inv. split.
  - intros Hfin. apply map_eq. intros k. rewrite lookup_empty.
    destruct (p_flight s !! k) as [f|] eqn:E; [|done].
    destruct (inv_flight _ Hinv _ _ E) as [_ (i & Hi)].
    rewrite Forall_lookup in Hfin. by apply Hfin in Hi.
  - intros Hnot. assert (∃ i c, p_callers s !! i = Some c ∧ ¬ finished c) as (i & c & Hi & Hc).
    { clear Hinv. induction (p_callers s) as [|c cs IH]; [by destruct Hnot|].
      destruct (finished_dec c) as [Hc|Hc]; [|by exists 0%nat, c].
      destruct IH as (i & c' & Hi & Hc'); [|by exists (S i), c'].
      intros Hcs. apply Hnot. by constructor. }
    by eapply unfinished_can_step.
Qed.

(** [reserve]'s wait loop terminates: any run of [n] concurrent callers
    takes at most [4 n^2 + 2 n] steps of theirs. *)
Theorem posters_terminate (keys : list K) (n : nat) (s : posters K) :
  run n (start keys) s →
  (n <= 4 * length keys * length keys + 2 * length keys)%nat.
Proof.
  intros Hn. pose proof (run_measure n _ _ (start_inv keys) Hn) as Hm.
  assert (measure (start keys) = 4 * length keys * length keys + 2 * length keys)%nat; [|lia].
  unfold measure.
  change (p_callers (start keys)) with ((λ k, {| c_key := k; c_pc := AtReserve |}) <$> keys).
  rewrite length_fmap. clear Hn Hm.
  assert (∀ s0 : posters K,
    sum_list_with (weight s0) ((λ k, {| c_key := k; c_pc := AtReserve |}) <$> keys)
    = 2 * length keys ∧
    sum_list_with live_count ((λ k, {| c_key := k; c_pc := AtReserve |}) <$> keys)
    = length keys)%nat as Hs.
  { intros s0. induction keys as [|k keys [IH1 IH2]]; [done|].
    split; [change (2 + sum_list_with (weight s0) ((λ k, {| c_key := k; c_pc := AtReserve |}) <$> keys)
                    = 2 * S (length keys))%nat | cbn]; lia. }
  destruct (Hs (start keys)) as [Hs1 Hs2]. rewrite Hs1, Hs2. lia.
Qed.
End Properties.

(** Two callers of the same response: the server takes the first POST, whose
    answer is lost while the second caller waits; the second caller posts it
    again and is acknowledged; the tracker prunes two hours later. *)
Definition retry_end : posters string :=
  let s1 := reserve_step 1 "rsp" (reserve_step 0 "rsp" (start ["rsp"; "rsp"])) in
  let s2 := move 1 AtReserve (release_step 0 "rsp" (take_step "rsp" s1)) in
  let s3 := mark_sent_step 1 "rsp" 100 (take_step "rsp" (reserve_step 1 "rsp" s2)) in
  forget_step (prune_keeps 7301 7200) s3.

Lemma retry_run : run 6 (start ["rsp"; "rsp"]) retry_end.
Proof.
  eapply run_caller; [eapply (ps_reserve _ 0); vm_compute; reflexivity|].
  eapply run_caller; [eapply (ps_reserve _ 1); vm_compute; reflexivity|].
  eapply run_outside; [eapply (os_taken _ 0); vm_compute; reflexivity|].
  eapply run_caller; [eapply (ps_post_failed _ 0); vm_compute; reflexivity|].
  eapply run_caller; [eapply (ps_woken_failed _ 1); vm_compute; reflexivity|].
  eapply run_caller; [eapply (ps_reserve _ 1); vm_compute; reflexivity|].
  eapply run_outside; [eapply (os_taken _ 1); vm_compute; reflexivity|].
  eapply run_caller; [eapply (ps_acked _ 1 _ _ 100); vm_compute; reflexivity|].
  eapply run_outside; [eapply (os_prune _ 7301 7200)|].
  vm_compute. apply run_nil.
Qed.

Lemma retry_reachable : reachable ["rsp"; "rsp"] retry_end.
Proof. exists 6%nat. apply retry_run. Qed.

Lemma responses_posted_once_witness :
  p_log retry_end = [Forgot "rsp"; Acked "rsp" 100; Taken "rsp"; Issued "rsp";
                     Unacked "rsp"; Taken "rsp"; Issued "rsp"] ∧
  (Unacked "rsp" ∈ [Unacked "rsp"; Taken "rsp"] ∨ Forgot "rsp" ∈ [Unacked "rsp"; Taken "rsp"]).
Proof.
  assert (p_log retry_end = [Forgot "rsp"; Acked "rsp" 100; Taken "rsp"; Issued "rsp";
                             Unacked "rsp"; Taken "rsp"; Issued "rsp"]) as E by reflexivity.
  split; [exact E|].
  exact (proj1 (proj2 (responses_posted_once ["rsp"; "rsp"] retry_end retry_reachable))
           "rsp" [Forgot "rsp"; Acked "rsp" 100; Taken "rsp"] [Unacked "rsp"; Taken "rsp"] [] E).
Defined.

Lemma claims_released_and_progress_witness :
  Forall finished (p_callers retry_end) ∧ p_flight retry_end = ∅.
Proof.
  assert (Forall finished (p_callers retry_end)) as Hf by (vm_compute; repeat constructor).
  split; [exact Hf|].
  exact (proj1 (claims_released_and_progress ["rsp"; "rsp"] retry_end retry_reachable) Hf).
Defined.

Lemma posters_terminate_witness : (6 <= 4 * 2 * 2 + 2 * 2)%nat.
Proof. exact (posters_terminate ["rsp"; "rsp"] 6 retry_end retry_run). Defined.
