(* ===== verification/Discovered.v ===== *)
(** * Discovered resource state (client/state.py)

    The containers discovery fills and the event engine reads, with the
    bidirectional program/device mapping and its invariant. *)

From S2P Require Import Prelude Controls.

Record EndDeviceState := { ed_href : string; ed_lfdi : bytes }.

Record DerProgramState := {
  ps_href : string;
  ps_primacy : Z;
  ps_default : option DefaultDercontrol;
  ps_controls : list Dercontrol;
  ps_curves : list FieldVal;               (* the DERCurves, as parsed *)
  ps_fsa : option string;                  (* discovered_from_fsa_href *)
  ps_controls_complete : bool;
  ps_control_list_link : option string;    (* program.dercontrol_list_link.href *)
  ps_default_link : option string;         (* program.default_dercontrol_link.href *)
}.

(** ** DeviceMapping *)

Record DeviceMapping := mkMapping {
  program_to_devices : dict string (list string);
  device_to_programs : dict string (list string);
}.

Definition empty_mapping : DeviceMapping := mkMapping [] [].

Definition devices_in (m : DeviceMapping) (p : string) : list string :=
  default [] (dict_get p (program_to_devices m)).
Definition programs_in (m : DeviceMapping) (d : string) : list string :=
  default [] (dict_get d (device_to_programs m)).

Definition mapping_add (program_href device_href : string) (m : DeviceMapping) : DeviceMapping :=
  let programs := programs_in m device_href in
  if decide (program_href ∈ programs) then
    (* setdefault has already created the device's entry *)
    mkMapping (program_to_devices m) (dict_set device_href programs (device_to_programs m))
  else
    mkMapping
      (dict_set program_href (devices_in m program_href ++ [device_href]) (program_to_devices m))
      (dict_set device_href (programs ++ [program_href]) (device_to_programs m)).

(** [list.remove(x)] with its [ValueError] suppressed: drops the first [x]. *)
Fixpoint remove_first (x : string) (l : list string) : list string :=
  match l with
  | [] => []
  | y :: l' => if decide (x = y) then l' else y :: remove_first x l'
  end.

Definition forget_program (program_href : string) (d2p : dict string (list string))
    (dev_href : string) : dict string (list string) :=
  match dict_get dev_href d2p with
  | Some progs => dict_set dev_href (remove_first program_href progs) d2p
  | None => d2p
  end.

Definition mapping_remove_program (program_href : string) (m : DeviceMapping) : DeviceMapping :=
  mkMapping (dict_del program_href (program_to_devices m))
            (foldl (forget_program program_href) (device_to_programs m) (devices_in m program_href)).

(** ** ResourceVersionCache *)

Definition is_unchanged (path : string) (mrid : bytes) (version : Z)
    (versions : dict string (bytes * Z)) : bool * dict string (bytes * Z) :=
  if bool_decide (dict_get path versions = Some (mrid, version)) then (true, versions)
  else (false, dict_set path (mrid, version) versions).

(** ** DiscoveredState: what the event engine uses of it *)

Record DiscoveredState := mkDisc {
  end_devices : dict string EndDeviceState;
  der_programs : dict string DerProgramState;
  device_mapping : DeviceMapping;
}.

Definition empty_disc : DiscoveredState := mkDisc [] [] empty_mapping.

(** [clear()], on the fields modelled here. *)
Definition disc_clear (_ : DiscoveredState) : DiscoveredState := empty_disc.

Definition programs_from_fsa (fsa_href : string) (s : DiscoveredState) : list string :=
  (filter (λ hp, ps_fsa hp.2 = Some fsa_href) (der_programs s)).*1.

(** A link names the resource; an absent or empty link names nothing. *)
Definition link_is (link : option string) (resource_href : string) : bool :=
  match link with
  | Some h => negb (bool_decide (h = "")) && bool_decide (h = resource_href)
  | None => false
  end.

Definition find_program_for_resource (resource_href : string) (s : DiscoveredState)
    : option string :=
  head (filter (λ hp, link_is (ps_control_list_link hp.2) resource_href
                      || link_is (ps_default_link hp.2) resource_href = true)
               (der_programs s)).*1.

(** ** The mapping invariant *)

Record mapping_wf (m : DeviceMapping) : Prop := {
  map_symmetric : ∀ p d, d ∈ devices_in m p ↔ p ∈ programs_in m d;
  map_devices_once : ∀ p, NoDup (devices_in m p);
  map_programs_once : ∀ d, NoDup (programs_in m d);
}.

Lemma mapping_empty_wf : mapping_wf empty_mapping.
Proof. split; [|constructor|constructor]. intros p d. by rewrite !elem_of_nil. Qed.

Lemma NoDup_snoc {A} (l : list A) (x : A) : NoDup l → x ∉ l → NoDup (l ++ [x]).
Proof.
  intros Hl Hx. apply NoDup_app. split; [done|]. split; [|apply NoDup_singleton].
  intros y Hy ->%list_elem_of_singleton. done.
Qed.

Lemma mapping_add_lookup p d m p' :
  devices_in (mapping_add p d m) p' =
  if decide (p' = p ∧ p ∉ programs_in m d) then devices_in m p ++ [d] else devices_in m p'.
Proof.
  unfold mapping_add. destruct (decide (p ∈ programs_in m d)).
  - rewrite decide_False by tauto. done.
  - unfold devices_in at 1. cbn. rewrite dict_get_set. repeat case_decide; try tauto; done.
Qed.

Lemma mapping_add_programs p d m d' :
  programs_in (mapping_add p d m) d' =
  if decide (d' = d ∧ p ∉ programs_in m d) then programs_in m d ++ [p] else programs_in m d'.
Proof.
  unfold mapping_add. destruct (decide (p ∈ programs_in m d)).
  - rewrite decide_False by tauto. unfold programs_in at 1. cbn. rewrite dict_get_set.
    case_decide; [by subst|done].
  - unfold programs_in at 1. cbn. rewrite dict_get_set. repeat case_decide; try tauto; done.
Qed.

Lemma mapping_add_wf p d m : mapping_wf m → mapping_wf (mapping_add p d m).
Proof.
  intros [Hs Hd Hp]. split.
  - intros p' d'. rewrite mapping_add_lookup, mapping_add_programs.
    destruct (decide (p ∈ programs_in m d)); [rewrite !decide_False by tauto; apply Hs|].
    specialize (Hs p' d').
    repeat case_decide; destruct_and?; subst; rewrite ?elem_of_app, ?list_elem_of_singleton;
      intuition congruence.
  - intros p'. rewrite mapping_add_lookup. case_decide; [|done].
    apply NoDup_snoc; [done|]. rewrite Hs. tauto.
  - intros d'. rewrite mapping_add_programs. case_decide; [|done]. apply NoDup_snoc; [apply Hp|tauto].
Qed.

Lemma elem_of_remove_first x y l : NoDup l → y ∈ remove_first x l ↔ y ∈ l ∧ y ≠ x.
Proof.
  induction 1 as [|z l Hz Hnd IH]; cbn; [rewrite elem_of_nil; tauto|].
  case_decide; rewrite !elem_of_cons; [|rewrite IH]; naive_solver.
Qed.

Lemma remove_first_NoDup x l : NoDup l → NoDup (remove_first x l).
Proof.
  induction 1 as [|z l Hz Hnd IH]; cbn; [constructor|]. case_decide; [done|].
  constructor; [|done]. rewrite elem_of_remove_first by done. tauto.
Qed.

Lemma forget_programs_lookup p d2p devs d :
  NoDup devs →
  default [] (dict_get d (foldl (forget_program p) d2p devs)) =
  if decide (d ∈ devs) then remove_first p (default [] (dict_get d d2p))
  else default [] (dict_get d d2p).
Proof.
  intros Hnd. revert d2p. induction Hnd as [|d0 devs Hd0 Hnd IH]; intros d2p; cbn [foldl].
  - by rewrite decide_False by apply not_elem_of_nil.
  - rewrite IH. unfold forget_program.
    destruct (dict_get d0 d2p) as [progs|] eqn:E; rewrite ?dict_get_set.
    + destruct (decide (d = d0)) as [->|].
      * rewrite decide_False by done. rewrite decide_True by left. by rewrite E.
      * repeat case_decide; set_solver.
    + destruct (decide (d = d0)) as [->|].
      * rewrite decide_False by done. rewrite decide_True by left. by rewrite E.
      * repeat case_decide; set_solver.
Qed.

Lemma mapping_remove_lookup p m p' :
  devices_in (mapping_remove_program p m) p' = if decide (p' = p) then [] else devices_in m p'.
Proof. unfold devices_in at 1. cbn. rewrite dict_get_del. by case_decide. Qed.

Lemma mapping_remove_programs p m d :
  mapping_wf m →
  programs_in (mapping_remove_program p m) d = remove_first p (programs_in m d).
Proof.
  intros Hwf. unfold programs_in at 1. cbn.
  rewrite forget_programs_lookup by apply (map_devices_once _ Hwf).
  case_decide as Hd; [done|]. fold (programs_in m d).
  rewrite (map_symmetric _ Hwf) in Hd. generalize dependent (programs_in m d). clear.
  induction l as [|q l IH]; intros Hq; [done|]. cbn. rewrite decide_False by set_solver.
  f_equal. apply IH. set_solver.
Qed.

Lemma mapping_remove_wf p m : mapping_wf m → mapping_wf (mapping_remove_program p m).
Proof.
  intros Hwf. split.
  - intros p' d. rewrite mapping_remove_lookup, mapping_remove_programs by done.
    rewrite elem_of_remove_first by apply (map_programs_once _ Hwf).
    rewrite <- (map_symmetric _ Hwf). case_decide; set_solver.
  - intros p'. rewrite mapping_remove_lookup. case_decide; [constructor|].
    apply (map_devices_once _ Hwf).
  - intros d. rewrite mapping_remove_programs by done.
    apply remove_first_NoDup, (map_programs_once _ Hwf).
Qed.

Inductive MappingOp := OpAdd (program device : string) | OpRemoveProgram (program : string).

Definition apply_op (m : DeviceMapping) (op : MappingOp) : DeviceMapping :=
  match op with
  | OpAdd p d => mapping_add p d m
  | OpRemoveProgram p => mapping_remove_program p m
  end.

(** After any sequence of [add] and [remove_program] calls the two
    directions of the mapping agree and no list holds an entry twice; an [add]
    makes the pair present, and a [remove_program] leaves the program no
    device and no device the program. *)
Theorem mapping_consistent (ops : list MappingOp) (p d : string) :
  let m := foldl apply_op empty_mapping ops in
  mapping_wf m ∧ d ∈ devices_in (mapping_add p d m) p ∧
  devices_in (mapping_remove_program p m) p = [] ∧
  p ∉ programs_in (mapping_remove_program p m) d.
Proof.
  cbn zeta. assert (mapping_wf (foldl apply_op empty_mapping ops)) as Hwf.
  { generalize mapping_empty_wf. generalize empty_mapping. induction ops as [|op ops IH]; [done|].
    intros m Hm. cbn. apply IH. destruct op; [by apply mapping_add_wf|by apply mapping_remove_wf]. }
  split; [done|]. repeat split.
  - rewrite mapping_add_lookup. case_decide as Hc.
    + apply elem_of_app. right. by apply list_elem_of_singleton.
    + apply (map_symmetric _ Hwf). destruct (decide (p ∈ programs_in (foldl apply_op empty_mapping ops) d)); tauto.
  - rewrite mapping_remove_lookup. by case_decide.
  - rewrite mapping_remove_programs by done.
    rewrite elem_of_remove_first by apply (map_programs_once _ Hwf). tauto.
Qed.
