(* ===== verification/Timers.v ===== *)
(** * Event timers (events/timers.py)

    [_wait_and_fire]'s adaptive wait and the table of scheduled timers.  Time
    is kept in milliseconds: a timer sleeps 1000, 100 or 20 ms, and reads a
    clock that returns whole seconds. *)

From S2P Require Import Prelude EventStore.

Inductive TimerKind := Activation | Completion | WindDown.

#[export] Instance TimerKind_eq_dec : EqDecision TimerKind.
Proof. solve_decision. Defined.

(** A scheduled task: what it will call, on which record, and when. *)
Record Timer := { tm_kind : TimerKind; tm_record : loc; tm_target : Z }.

#[export] Instance Timer_eq_dec : EqDecision Timer.
Proof. solve_decision. Defined.

(** [EventTimerManager._tasks].  A task that has run stays listed until
    [cancel] pops its mRID. *)
Abbreviation timer_table := (dict bytes (list Timer)) (only parsing).

Definition ACTIVATION_LEAD : Z := 0.
Definition COMPLETION_LEAD : Z := 0.

Definition add_task (mrid : bytes) (t : Timer) (tasks : timer_table) : timer_table :=
  dict_set mrid (default [] (dict_get mrid tasks) ++ [t]) tasks.

Definition schedule_activation (l : loc) (r : EventRecord) (tasks : timer_table) : timer_table :=
  add_task (r_mrid r)
    {| tm_kind := Activation; tm_record := l; tm_target := r_start r - ACTIVATION_LEAD |} tasks.

Definition schedule_completion (l : loc) (r : EventRecord) (tasks : timer_table) : timer_table :=
  add_task (r_mrid r)
    {| tm_kind := Completion; tm_record := l; tm_target := r_end r - COMPLETION_LEAD |} tasks.

(** The target is anchored to the local clock, [local_now]. *)
Definition schedule_delayed_callback (l : loc) (r : EventRecord) (local_now delay : Z)
    (tasks : timer_table) : timer_table :=
  add_task (r_mrid r)
    {| tm_kind := WindDown; tm_record := l; tm_target := local_now + delay |} tasks.

Definition has_pending (mrid : bytes) (tasks : timer_table) : bool := dict_mem mrid tasks.

Definition timers_cancel (mrid : bytes) (tasks : timer_table) : timer_table := dict_del mrid tasks.

Definition timers_cancel_all (_ : timer_table) : timer_table := [].

(** A timer that comes due calls back only while the record is not in a
    terminal state. *)
Definition fires (r : EventRecord) : bool :=
  match r_state r with CANCELLED | SUPERSEDED | COMPLETED => false | _ => true end.

(** ** The wait loop *)

Definition sleep_time (remaining : Z) : Z :=
  if 10 <? remaining then 1000 else if 1 <? remaining then 100 else 20.

Inductive wait_result := Due (at_ms : Z) | ShutDown.

(** [clock t] is [now_fn()] at [t] ms; [shutdown t] whether the shutdown event
    is set by then.  [None]: the fuel ran out. *)
Fixpoint wait_loop (fuel : nat) (clock : Z → Z) (shutdown : Z → bool) (target t : Z)
    : option wait_result :=
  if shutdown t then Some ShutDown
  else
    let remaining := target - clock t in
    if remaining <=? 0 then Some (Due t)
    else match fuel with
    | O => None
    | S fuel' =>
        let t' := t + sleep_time remaining in
        if shutdown t' then Some ShutDown else wait_loop fuel' clock shutdown target t'
    end.

(** A clock that runs with the timer: [offset] ms at time 0, whole seconds. *)
Definition steady_clock (offset t : Z) : Z := (offset + t) / 1000.

(** [lia] with division by constants, in this file. *)
Ltac Zify.zify_post_hook ::= Z.div_mod_to_equations.

Lemma wait_loop_due fuel clock target t :
  target - clock t <= 0 → wait_loop fuel clock (λ _, false) target t = Some (Due t).
Proof. intros H. destruct fuel; cbn; by rewrite (proj2 (Z.leb_le _ _) H). Qed.

Lemma wait_loop_sleep fuel clock target t :
  target - clock t > 0 →
  wait_loop (S fuel) clock (λ _, false) target t =
  wait_loop fuel clock (λ _, false) target (t + sleep_time (target - clock t)).
Proof.
  intros H. destruct (Z.leb_spec (target - clock t) 0) as [|E]; [lia|]. cbn [wait_loop].
  apply Z.leb_gt in E. by rewrite E.
Qed.

Lemma wait_loop_precise fuel offset target t :
  1000 * target - (offset + t) <= 20 * Z.of_nat fuel →
  1000 * target - (offset + t) > -20 →
  ∃ t', wait_loop fuel (steady_clock offset) (λ _, false) target t = Some (Due t') ∧
    t <= t' ∧ 1000 * target <= offset + t' < 1000 * target + 20.
Proof.
  revert t. induction fuel as [|fuel IH]; intros t Hf Ht;
    (destruct (Z.le_gt_cases (target - steady_clock offset t) 0) as [Hd|Hd];
     [exists t; split; [by apply wait_loop_due|]; unfold steady_clock in Hd; lia|]).
  - unfold steady_clock in Hd. lia.
  - rewrite wait_loop_sleep by lia. set (dt := sleep_time _).
    assert (20 <= dt ∧ (1000 * target - (offset + t) - dt > -20)) as [Hdt Hr].
    { unfold dt, sleep_time, steady_clock in *.
      destruct (Z.ltb_spec 10 (target - (offset + t) / 1000)); [lia|].
      destruct (Z.ltb_spec 1 (target - (offset + t) / 1000)); lia. }
    destruct (IH (t + dt)) as (t' & Ht' & Hle & Hlo & Hhi); [lia|lia|].
    exists t'. split; [done|]. lia.
Qed.

(** With a clock that advances with the sleeps, a timer started [n] ms
    before its target (any [n]) fires: never before the clock reads the target
    second, and less than 20 ms after the target instant (or at once, when the
    target is already past); the wait takes at most [n / 20 + 1] sleeps. *)
Theorem timer_fires_on_time (offset target t : Z) :
  let due_in := 1000 * target - (offset + t) in
  ∃ t', wait_loop (Z.to_nat (due_in / 20 + 1)) (steady_clock offset) (λ _, false) target t
        = Some (Due t') ∧
    t <= t' ∧ target <= steady_clock offset t' ∧
    (0 <= due_in → t' < t + due_in + 20) ∧ (due_in <= 0 → t' = t).
Proof.
  cbn zeta. destruct (Z.le_gt_cases (1000 * target - (offset + t)) 0) as [Hpast|Hfuture].
  - exists t. rewrite wait_loop_due by (unfold steady_clock; lia).
    unfold steady_clock. repeat split; lia.
  - destruct (wait_loop_precise (Z.to_nat ((1000 * target - (offset + t)) / 20 + 1)) offset target t)
      as (t' & -> & Hle & Hlo & Hhi); [lia|lia|].
    exists t'. unfold steady_clock. repeat split; lia.
Qed.
