(* ===== verification/ProcState.v ===== *)
(** * The event processor's state and environment (events/processor.py)

    The objects an [EventProcessor] holds, what it reads from outside, and the
    atomic calls it makes on its components.

    A handler is a coroutine: between two awaits it runs alone, and at an await
    anything else may run.  [await] therefore applies [interfere], which the
    environment chooses anew at every await; [tick] counts the awaits, and all
    that the outside decides (the clock, the outcome of a POST or a dispatch)
    is a function of it. *)

From S2P Require Import Prelude Controls EventStore Supersession Randomization Trackers.
From S2P Require Import Response Discovered Timers.

(** ** What the processor emits *)

(** A device, named by its server-side href or by its local LFDI. *)
Inductive Target := ByHref (href : string) | ByLfdi (lfdi : string).

Inductive CommandOrigin := IEEE2030_5 | DDERC_REAPPLY | COMMS_LOSS | EVENT_END.

(** How a POST ended. *)
Inductive PostOutcome := PostOk | PostFailed | PostCancelled.

(** [_resolve_watts]: a whole number of watts, or the fraction [v / 10^k]. *)
Inductive Watts := WholeWatts (w : Z) | FractionWatts (v : Z) (k : Z).

Record DoeLimit := { doe_value : Z; doe_multiplier : Z; doe_watts : Watts }.

(** The JSON form of a base (json_form.py): its fields and its envelope limits. *)
Record BaseJson := {
  json_fields : gmap string FieldVal;
  json_limits : gmap string (Z * option Z);
}.

(** A relayed payload, by stream: its ["control_base"] entry. *)
Inductive Payload := PBase (b : BaseJson) | PEnvelope (limits : dict string DoeLimit).

Inductive Stream := StreamControl | StreamDoe | StreamBaseline.

Record ScheduleNotification := {
  sn_stream : Stream;
  sn_transition : string;
  sn_status : option EventState;
  sn_current_status : option Z;
  sn_mrid : string;
  sn_program : string;
  sn_primacy : Z;
  sn_start : option Z;
  sn_duration : option Z;
  sn_end : option Z;
  sn_lfdis : list string;
  sn_randomization : option Z * option Z;
  sn_payload : Payload;
}.

(** What an audit record says besides the transition itself. *)
Inductive AuditDetails :=
  | NoDetails
  | DispatchOutcomes (applied rejected : list string)
  | SupersededWhole (by_mrid : bytes)
  | SupersededPart (by_mrid : bytes) (lfdis : list string) (modes : list (string * list string)).

Record AuditTransition := {
  au_mrid : bytes;
  au_program : string;
  au_from : option string;
  au_to : string;
  au_start : Z;
  au_duration : Z;
  au_primacy : Z;
  au_lfdis : list string;
  au_at : Z;
  au_control : option Dercontrol;
  au_details : AuditDetails;
}.

Inductive Action :=
  | Post (path : string) (body : ResponseBody) (outcome : PostOutcome)
  | ResponseNotified (k : resp_key) (at_ts : Z) (posted : bool)
  | ApplyControl (t : Target) (derc : Dercontrol) (curves : list FieldVal)
  | ApplyDefault (t : Target) (dderc : DefaultDercontrol) (curves : list FieldVal)
      (origin : CommandOrigin) (cause : option bytes)
  | DisableModes (t : Target) (modes : gset string) (cause : bytes)
  | ClearControl (t : Target) (cause : bytes)
  | Relay (n : ScheduleNotification)
  | Audit (a : AuditTransition)
  | AuditLateDispatch (mrid : bytes) (label : string) (error : option DispatchError) (at_ts : Z).

(** The content signature of a relayed notification. *)
Record ContentSig := {
  sig_mrid : string;
  sig_status : option EventState;
  sig_start : option Z;
  sig_duration : option Z;
  sig_lfdis : list string;
  sig_randomization : option Z * option Z;
  sig_base : Payload;
}.

Abbreviation snapshot_key := (Stream * string)%type (only parsing).

#[export] Instance Target_eq_dec : EqDecision Target.
Proof. solve_decision. Defined.
#[export] Instance Stream_eq_dec : EqDecision Stream.
Proof. solve_decision. Defined.
#[export] Instance Watts_eq_dec : EqDecision Watts.
Proof. solve_decision. Defined.
#[export] Instance DoeLimit_eq_dec : EqDecision DoeLimit.
Proof. solve_decision. Defined.
#[export] Instance BaseJson_eq_dec : EqDecision BaseJson.
Proof. solve_decision. Defined.
#[export] Instance Payload_eq_dec : EqDecision Payload.
Proof. solve_decision. Defined.
#[export] Instance ContentSig_eq_dec : EqDecision ContentSig.
Proof. solve_decision. Defined.

(** ** The processor's objects *)

Record CommsLossState := { loss_active : bool; resume_after_epoch : option Z }.

Record Proc := mkProc {
  p_store : EventStore;
  p_rand : RandCache;
  p_tracker : ResponseTracker;
  p_dderc : Dderc.tracker;
  p_modes : ActiveModes.registry;
  p_timers : timer_table;
  p_snapshots : dict snapshot_key ContentSig;
  p_loss : CommsLossState;                       (* shared with the client *)
  p_seen : dict bytes string;                    (* _audit_unstored_seen *)
  p_closed : bool;
  p_disc : DiscoveredState;                      (* shared with discovery *)
  p_log : list Action;                           (* what has been emitted, in order *)
  p_tick : nat;                                  (* awaits so far *)
}.

Definition set_store v s := mkProc v (p_rand s) (p_tracker s) (p_dderc s) (p_modes s)
  (p_timers s) (p_snapshots s) (p_loss s) (p_seen s) (p_closed s) (p_disc s) (p_log s) (p_tick s).
Definition set_rand v s := mkProc (p_store s) v (p_tracker s) (p_dderc s) (p_modes s)
  (p_timers s) (p_snapshots s) (p_loss s) (p_seen s) (p_closed s) (p_disc s) (p_log s) (p_tick s).
Definition set_tracker v s := mkProc (p_store s) (p_rand s) v (p_dderc s) (p_modes s)
  (p_timers s) (p_snapshots s) (p_loss s) (p_seen s) (p_closed s) (p_disc s) (p_log s) (p_tick s).
Definition set_dderc v s := mkProc (p_store s) (p_rand s) (p_tracker s) v (p_modes s)
  (p_timers s) (p_snapshots s) (p_loss s) (p_seen s) (p_closed s) (p_disc s) (p_log s) (p_tick s).
Definition set_modes v s := mkProc (p_store s) (p_rand s) (p_tracker s) (p_dderc s) v
  (p_timers s) (p_snapshots s) (p_loss s) (p_seen s) (p_closed s) (p_disc s) (p_log s) (p_tick s).
Definition set_timers v s := mkProc (p_store s) (p_rand s) (p_tracker s) (p_dderc s) (p_modes s)
  v (p_snapshots s) (p_loss s) (p_seen s) (p_closed s) (p_disc s) (p_log s) (p_tick s).
Definition set_snapshots v s := mkProc (p_store s) (p_rand s) (p_tracker s) (p_dderc s) (p_modes s)
  (p_timers s) v (p_loss s) (p_seen s) (p_closed s) (p_disc s) (p_log s) (p_tick s).
Definition set_loss v s := mkProc (p_store s) (p_rand s) (p_tracker s) (p_dderc s) (p_modes s)
  (p_timers s) (p_snapshots s) v (p_seen s) (p_closed s) (p_disc s) (p_log s) (p_tick s).
Definition set_seen v s := mkProc (p_store s) (p_rand s) (p_tracker s) (p_dderc s) (p_modes s)
  (p_timers s) (p_snapshots s) (p_loss s) v (p_closed s) (p_disc s) (p_log s) (p_tick s).
Definition set_closed v s := mkProc (p_store s) (p_rand s) (p_tracker s) (p_dderc s) (p_modes s)
  (p_timers s) (p_snapshots s) (p_loss s) (p_seen s) v (p_disc s) (p_log s) (p_tick s).
Definition set_disc v s := mkProc (p_store s) (p_rand s) (p_tracker s) (p_dderc s) (p_modes s)
  (p_timers s) (p_snapshots s) (p_loss s) (p_seen s) (p_closed s) v (p_log s) (p_tick s).
Definition set_log v s := mkProc (p_store s) (p_rand s) (p_tracker s) (p_dderc s) (p_modes s)
  (p_timers s) (p_snapshots s) (p_loss s) (p_seen s) (p_closed s) (p_disc s) v (p_tick s).
Definition set_tick v s := mkProc (p_store s) (p_rand s) (p_tracker s) (p_dderc s) (p_modes s)
  (p_timers s) (p_snapshots s) (p_loss s) (p_seen s) (p_closed s) (p_disc s) (p_log s) v.

(** A processor as constructed, on what discovery has found. *)
Definition new_proc (disc : DiscoveredState) : Proc :=
  mkProc empty_store empty_rand empty_tracker [] [] [] []
    {| loss_active := false; resume_after_epoch := None |} [] false disc [] 0.

(** ** The environment *)

Class Env := {
  interfere : nat → Proc → Proc;                     (* what runs during the n-th await *)
  timebase_now : nat → option string → Z;            (* the server clock, per FSA scope *)
  local_now : nat → Z;                               (* the local clock *)
  randint : nat → bytes → nat → Z → Z;               (* random.randint(0, m), for an mRID *)
  state_ready : nat → bool;                          (* no rediscovery in progress *)
  post_outcome : nat → string → ResponseBody → PostOutcome;
  future_result : nat → resp_key → bool;             (* another caller's POST landed *)
  dispatch_result : nat → Action → option DispatchError;
  settle_order : nat → list string → list string;    (* the order dispatches finish in *)
  settle_order_perm : ∀ n l, settle_order n l ≡ₚ l;
  group_lookup : nat → string → option (list string);
  takes_controls : string → bool;
  supported_modes2_hook : option (nat → string → option Z);
  profile : nat → ServerProfile;
  has_observer : bool;                               (* an event history is attached *)
  audit_enabled : bool;
  audit_keeps_history : bool;
  wire_name : string → string;                       (* the XML binding's element names *)
  (* the content, at a later await, of a program object read earlier: a refresh
     rewrites its control list and its default in place *)
  held_program : nat → DerProgramState → DerProgramState;
  task_cancelled : nat → bool;                       (* the await raises CancelledError *)
  patience : nat;                                    (* rounds before a wait counts as blocked *)
}.

(** ** Exceptions a handler can raise *)

Inductive Exn :=
  | KeyError
  | ValueError
  | CancelledError
  | Blocked        (* still waiting, or still iterating over a growing list *)
  | NoObject.      (* a reference to no object: never raised from well-formed states *)

Abbreviation M A := (Comp Exn Proc A) (only parsing).

(** ** Atomic calls *)

(** An assignment to a field of a record. *)
Inductive RecordWrite :=
  | WDerc (d : Dercontrol)
  | WStatusTime (z : Z)
  | WCreation (z : Z)
  | WSuperseded (devs : gset string)
  | WSupersededModes (dev : string) (modes : gset string)
  | WRejected (dev : string)
  | WApplied (dev : string)
  | WAppliedLocal (lfdi : string)
  | WRejectedLocal (lfdi : string)
  | WOptedOut.

Definition write_record (w : RecordWrite) (r : EventRecord) : EventRecord :=
  match w with
  | WDerc d => set_derc d r
  | WStatusTime z => set_status_time z r
  | WCreation z => set_creation z r
  | WSuperseded devs => set_superseded (r_superseded r ∪ devs) r
  | WSupersededModes dev modes =>
      set_superseded_modes
        (<[dev := default ∅ (r_superseded_modes r !! dev) ∪ modes]> (r_superseded_modes r)) r
  | WRejected dev => set_rejected ({[dev]} ∪ r_rejected r) r
  | WApplied dev => set_applied ({[dev]} ∪ r_applied r) r
  | WAppliedLocal lfdi => set_applied_local ({[lfdi]} ∪ r_applied_local r) r
  | WRejectedLocal lfdi => set_rejected_local ({[lfdi]} ∪ r_rejected_local r) r
  | WOptedOut => set_opted_out true r
  end.

Inductive Call :=
  | CEmit (a : Action)
  | CWrite (l : loc) (w : RecordWrite)
  | CTransition (mrid : bytes) (new_state : EventState)
  | CCreate (r : EventRecord)
  | CUpsert (l : loc)
  | CPrune (now : Z)
  | CGetOffsets (derc : Dercontrol)
  | COverride (mrid : bytes) (off raw_start raw_duration : Z)
  | CRandPrune (now : Z)
  | CClaim (k : resp_key)
  | CMarkSent (k : resp_key) (now : Z)
  | CRelease (k : resp_key)
  | CTrackerPrune (now : Z)
  | CClearDevices (lfdis : gset bytes)
  | CRecordApplication (lfdi : bytes) (path : string) (mrid : bytes) (primacy : Z)
  | CRegister (dev : string) (mrid : bytes) (modes : gset string)
  | CUnregister (dev : string) (mrid : bytes)
  | CSchedule (kind : TimerKind) (l : loc) (delay : Z)
  | CTimersCancel (mrid : bytes)
  | CTimersCancelAll
  | CSnapshot (k : snapshot_key) (c : ContentSig)
  | CSnapshotPop (k : snapshot_key)
  | CResumeAfter (epoch : Z)
  | CSeen (mrid : bytes) (program : string)
  | CForgetSeen (mrid : bytes)
  | CClose
  | CAwait.

Section Exec.
Context {E : Env}.

Definition offsets_of (derc : Dercontrol) (s : Proc) : (Z * Z) * RandCache :=
  get_offsets (randint (p_tick s) (m_rid derc)) (m_rid derc) (randomize_start derc) (randomize_duration derc)
    (interval_start derc) (interval_duration derc) (p_rand s).

Definition schedule (kind : TimerKind) (l : loc) (delay : Z) (s : Proc) : timer_table :=
  match deref (p_store s) l with
  | None => p_timers s
  | Some r =>
      match kind with
      | Activation => schedule_activation l r (p_timers s)
      | Completion => schedule_completion l r (p_timers s)
      | WindDown => schedule_delayed_callback l r (local_now (p_tick s)) delay (p_timers s)
      end
  end.

Definition exec (c : Call) (s : Proc) : Proc :=
  match c with
  | CEmit a => set_log (p_log s ++ [a]) s
  | CWrite l w => set_store (update l (write_record w) (p_store s)) s
  | CTransition mrid st => set_store (default (p_store s) (transition mrid st (p_store s))) s
  | CCreate r => set_store (alloc r (p_store s)).2 s
  | CUpsert l => set_store (upsert l (p_store s)) s
  | CPrune now => set_store (prune_expired now PRUNE_GRACE (p_store s)).2 s
  | CGetOffsets derc => set_rand (offsets_of derc s).2 s
  | COverride mrid off rs rd => set_rand (override_start_offset mrid off rs rd (p_rand s)) s
  | CRandPrune now => set_rand (default (p_rand s) (rand_prune now RAND_GRACE (p_rand s))) s
  | CClaim k => set_tracker (claim k (p_tracker s)) s
  | CMarkSent k now => set_tracker (mark_sent k now (p_tracker s)) s
  | CRelease k => set_tracker (release k (p_tracker s)) s
  | CTrackerPrune now => set_tracker (tracker_prune now RESPONSE_MAX_AGE (p_tracker s)) s
  | CClearDevices lfdis => set_dderc (Dderc.clear_devices lfdis (p_dderc s)) s
  | CRecordApplication lfdi path mrid prim =>
      set_dderc (Dderc.record_application lfdi path mrid prim (p_dderc s)) s
  | CRegister dev mrid modes => set_modes (ActiveModes.register dev mrid modes (p_modes s)) s
  | CUnregister dev mrid => set_modes (ActiveModes.unregister dev mrid (p_modes s)).2 s
  | CSchedule kind l delay => set_timers (schedule kind l delay s) s
  | CTimersCancel mrid => set_timers (timers_cancel mrid (p_timers s)) s
  | CTimersCancelAll => set_timers (timers_cancel_all (p_timers s)) s
  | CSnapshot k c => set_snapshots (dict_set k c (p_snapshots s)) s
  | CSnapshotPop k => set_snapshots (dict_del k (p_snapshots s)) s
  | CResumeAfter epoch =>
      set_loss {| loss_active := loss_active (p_loss s); resume_after_epoch := Some epoch |} s
  | CSeen mrid program => set_seen (dict_set mrid program (p_seen s)) s
  | CForgetSeen mrid => set_seen (dict_del mrid (p_seen s)) s
  | CClose => set_closed true s
  | CAwait => set_tick (S (p_tick s)) (interfere (p_tick s) s)
  end.

Definition do (c : Call) : M unit := modify (exec c).
Definition await : M unit :=
  cancelled <- get (λ s, task_cancelled (p_tick s)) ;;
  do CAwait ;;; if (cancelled : bool) then raise CancelledError else ret tt.

Definition read (l : loc) : M EventRecord := λ s,
  match deref (p_store s) l with
  | Some r => (inr r, s)
  | None => (inl NoObject, s)
  end.

(** [int(self._timebase.now(scope))] *)
Definition now (scope : option string) : M Z := get (λ s, timebase_now (p_tick s) scope).

(** [EventStore.transition], which raises for an unknown mRID. *)
Definition store_transition (mrid : bytes) (st : EventState) : M unit :=
  known <- get (λ s, store_get mrid (p_store s)) ;;
  match known with
  | Some _ => do (CTransition mrid st)
  | None => raise KeyError
  end.

(** [if self._closed: return], around the rest of a handler. *)
Definition unless_closed (rest : M unit) : M unit :=
  closed <- get p_closed ;; if (closed : bool) then ret tt else rest.

(** ** Lookups in the discovered state *)

Definition program_devices (program : string) (s : Proc) : list string :=
  devices_in (device_mapping (p_disc s)) program.

Definition unique_devices (program : string) (s : Proc) : list string :=
  unique (program_devices program s).

Definition get_device_lfdi (dev : string) (s : Proc) : option bytes :=
  ed_lfdi <$> dict_get dev (end_devices (p_disc s)).

Definition get_any_lfdi (s : Proc) : option bytes :=
  ed_lfdi <$> head (dict_values (end_devices (p_disc s))).

Definition program_state (program : string) (s : Proc) : option DerProgramState :=
  dict_get program (der_programs (p_disc s)).

Definition fsa_scope (program : string) (s : Proc) : option string :=
  ps ← program_state program s; ps_fsa ps.

(** The clock of a program's FSA. *)
Definition now_for (program : string) : M Z :=
  scope <- get (fsa_scope program) ;; now scope.

(** [None]: dispatch 1-to-1 by href. *)
Definition group_local_lfdis (program : string) (s : Proc) : option (list string) :=
  match group_lookup (p_tick s) program with
  | None | Some [] => None
  | Some lfdis => Some (filter (λ l, takes_controls l = true) lfdis)
  end.

Definition lfdi_or_href (s : Proc) (dev : string) : string :=
  match get_device_lfdi dev s with Some lfdi => hex lfdi | None => dev end.

Definition affected_lfdis_for_program (program : string) (exclude : gset string) (s : Proc)
    : list string :=
  match group_local_lfdis program s with
  | Some local => local
  | None => omap (λ dev, hex <$> get_device_lfdi dev s)
                 (filter (λ dev, dev ∉ exclude) (program_devices program s))
  end.

(** The records in the [ACTIVE] state that are not opted out. *)
Definition running_events (s : Proc) : list loc :=
  filter (λ l, loc_test (λ r, negb (r_opted_out r)) (p_store s) l = true)
         (by_state ACTIVE (p_store s)).
End Exec.
