(* ===== verification/CurrentControls.v ===== *)
(** * The tracker of current controls (events/current_controls.py)

    Per device, the connector methods last dispatched and their parameters.  Its
    keys are method names, while [clear_modes] is given DERControlBase field
    names and matches them as substrings; the last theorem shows where the two
    vocabularies part. *)

From S2P Require Import Prelude Controls Modes.

Abbreviation tracker := (dict string (dict string Params)) (only parsing).

Definition cc_update (device : string) (dispatched : list (string * Params)) (t : tracker) : tracker :=
  let dev := default [] (dict_get device t) in
  dict_set device (foldl (λ d mp, dict_set mp.1 mp.2 d) dev dispatched) t.

(** [m in k] on text *)
Fixpoint contains (m k : string) : bool :=
  String.prefix m k || (match k with EmptyString => false | String _ k' => contains m k' end).

Definition cc_clear_modes (device : string) (modes : gset string) (t : tracker) : tracker :=
  match dict_get device t with
  | None => t
  | Some dev =>
      dict_set device
        (filter (λ kp, ¬ Exists (λ m, contains m kp.1 = true) (elements modes)) dev) t
  end.

Definition cc_clear_device (device : string) (t : tracker) : tracker := dict_del device t.

Definition cc_active_modes (device : string) (t : tracker) : dict string Params :=
  default [] (dict_get device t).

Definition cc_has_changes (device : string) (t : tracker) : bool :=
  match dict_get device t with Some (_ :: _) => true | _ => false end.

Lemma fold_set_get (m : string) (calls : list (string * Params)) (d : dict string Params) :
  NoDup calls.*1 →
  dict_get m (foldl (λ d mp, dict_set mp.1 mp.2 d) d calls) =
  match dict_get m calls with Some p => Some p | None => dict_get m d end.
Proof.
  revert d. induction calls as [|[k p] calls IH]; intros d; cbn [foldl fmap list_fmap]; [done|].
  intros [Hk Hn]%NoDup_cons. cbn [fst snd] in *. rewrite IH, dict_get_set by done.
  change (dict_get m ((k, p) :: calls)) with (if decide (m = k) then Some p else dict_get m calls).
  case_decide; [subst m|done]. apply dict_get_None in Hk. by rewrite Hk.
Qed.

(** After a control is dispatched, the tracker holds its calls and keeps the
    other modes of the device, and every other device. *)
Lemma cc_update_spec {B : Binding} (device other m : string) (base : DercontrolBase)
    (curves : list FieldVal) (t : tracker) :
  dict_get m (cc_active_modes device (cc_update device (translate_controls base curves) t)) =
    match dict_get m (translate_controls base curves) with
    | Some p => Some p
    | None => dict_get m (cc_active_modes device t)
    end ∧
  (other ≠ device →
   cc_active_modes other (cc_update device (translate_controls base curves) t) = cc_active_modes other t).
Proof.
  unfold cc_active_modes, cc_update. split.
  - rewrite dict_get_set_eq. apply fold_set_get.
    eapply sublist_NoDup; [apply base_elements_methods_NoDup|apply translate_methods].
  - intros Hne. by rewrite dict_get_set_ne.
Qed.

(** Clearing [op_mod_max_lim_w] also clears opModMaxLimWAbsorb, and clearing
    [op_mod_fixed_pfabsorb_w] leaves its own opModFixedPFAbsorbW behind. *)
Theorem clear_modes_matches_wrong_methods :
  let calls := (λ e, (method e, DISABLED)) <$>
    [elem_value "opModMaxLimW" "op_mod_max_lim_w"; elem_value "opModMaxLimWAbsorb" "op_mod_max_lim_wabsorb";
     elem_value "opModFixedPFAbsorbW" "op_mod_fixed_pfabsorb_w"] in
  let t := cc_update "/a" calls [] in
  (cc_active_modes "/a" (cc_clear_modes "/a" {["op_mod_max_lim_w"]} t)).*1 =
    ["update_op_mod_fixed_pf_absorb_w"] ∧
  (cc_active_modes "/a" (cc_clear_modes "/a" {["op_mod_fixed_pfabsorb_w"]} t)).*1 = calls.*1.
Proof. vm_compute. auto. Qed.
