(* ===== verification/Dispatcher.v ===== *)
(** * The connector dispatcher (connectors/dispatcher.py)

    [ConnectorDispatcher] implements the interface the event engine dispatches
    through: it resolves a device to its connector, asks the command gate,
    calls one connector method per control element and records every write.

    Connectors, the registry, the gate, the role table and the resolver of hrefs
    are supplied from outside; [DispEnv] gives their answers, which may change
    from one await to the next ([ds_tick] counts the awaits).  What leaves the
    dispatcher is appended to a log in order.  Exceptions are those of
    [Response.DispatchError], plus cancellation, which [except Exception] does
    not catch. *)

From S2P Require Import Prelude Controls Modes Response ProcState.

(** ** Connectors *)

(** A function object: [BaseConnector]'s own for a name, or another. *)
Inductive Fn := BaseFn (name : string) | OwnFn (id : nat).

#[export] Instance Fn_eq_dec : EqDecision Fn.
Proof. solve_decision. Defined.

Record Connector := {
  cn_id : nat;                              (* id(connector) *)
  cn_name : string;
  cn_class : nat;                           (* type(connector) *)
  class_attr : string → option Fn;          (* getattr(type(connector), name, None) *)
  inst_attr : string → option Fn;           (* getattr(connector, name, None) *)
  class_dir : list string;                  (* the callable names of dir(type(connector)) *)
  native_clear : bool;                      (* callable(connector.clear_control) *)
  relay_group : option string;
  stated_modes2 : option (option Z);        (* supported_modes2(): absent or raised, or its int *)
}.

Definition base_attr (name : string) : option Fn :=
  if decide (name ∈ BaseConnector_methods) then Some (BaseFn name) else None.

(** [BY_DESIGN]: the inherited no-op; [OFFER_MISSING]: nothing resolves. *)
Inductive Support := Bound (f : Fn) | BY_DESIGN | OFFER_MISSING.

Definition control_support (c : Connector) (method_name : string) : Support :=
  let bound := match inst_attr c method_name with Some f => Bound f | None => OFFER_MISSING end in
  match class_attr c method_name with
  | Some own => if decide (Some own = base_attr method_name) then BY_DESIGN else bound
  | None => bound
  end.

Definition implements (c : Connector) (method_name : string) : bool :=
  match control_support c method_name with Bound _ => true | _ => false end.

Definition unused_update_methods (dir : list string) : list string :=
  sorted_strings
    (filter (λ n, String.prefix "update_" n = true ∧ (n ∉ dict_values METHOD_BY_ELEMENT) ∧
                  n ∉ BaseConnector_methods) dir).

(** *** The modes a connector can apply, as DERControlType2 bits *)

Definition MODES2_BIT_OF_ELEMENT : dict string Z :=
  [("opModMaxLimPctVAAbsorb", 0); ("opModMaxLimPctVAInject", 1); ("opModMaxLimPctVarAbsorb", 2);
   ("opModMaxLimPctVarInject", 3); ("opModMaxLimPctWAbsorb", 4); ("opModMaxLimVarAbsorb", 5);
   ("opModMaxLimVarInject", 6); ("opModMaxLimWAbsorb", 7); ("opModMaxLimWInject", 8);
   ("opModTargetV", 9)].

Definition implemented_modes2 (c : Connector) : Z :=
  bits_of (filter (λ eb, implements c ("update_" +:+ snake_case eb.1) = true)
             MODES2_BIT_OF_ELEMENT).*2.

Definition modes_supported2 (c : Connector) : Z :=
  match stated_modes2 c with
  | Some (Some value) => Z.land value 0x3FF
  | _ => implemented_modes2 c
  end.

(** ** What the dispatcher emits *)

Inductive Outcome := Refused | Failed | Applied.

(** A write as the operations history and the telemetry keep it. *)
Record WriteRecord := {
  w_label : string;
  w_control : string;
  w_params : Params;
  w_outcome : Outcome;
  w_lfdi : option string;
  w_origin : string;
  w_applied_mrid : option bytes;
  w_cause_mrid : option bytes;
  w_error : option DispatchError;
}.

Inductive Report :=
  | UnresolvedHref (device_href : string)
  | NoConnector (lfdi : string)
  | NotCommanding (lfdi control origin : string)
  | UnimplementedMode (identifier method_name : string)
  | ResolveFailed (lfdi : string)
  | NotifyFailed (lfdi : string).

(** How a call of a connector ended. *)
Inductive CallResult := CallOk | CallRaised (e : DispatchError) | CallCancelled.

Inductive Effect :=
  | Called (c : Connector) (method_name : string) (params : Params) (r : CallResult)
  | Kept (w : WriteRecord) (at_ts : Z)
  | Telemetered (w : WriteRecord) (connector : nat)
  | Commanded (lfdi control : string) (params : Params) (origin : string) (at_ts : Z)
      (error : option DispatchError)
  | Reported (r : Report)
  | ResolvedReport (lfdi : string)
  | WarnedUnused (connector_class : nat) (names : list string)
  | Notified (c : Connector) (lfdi : string) (raised : option DispatchError).

(** ** State and environment *)

Record Disp := mkDisp {
  ds_missing : gset string;               (* _missing_connector_reported *)
  ds_checked : gset nat;                  (* _checked_connector_classes *)
  ds_log : list Effect;
  ds_tick : nat;
}.

Inductive DExn := Raised (e : DispatchError) | Cancelled.

Class DispEnv := {
  de_binding :: Binding;
  lfdi_resolver : nat → string → option string;
  get_connector : nat → string → DExn + option nat;      (* the registry's proxy, by number *)
  aresolve : nat → nat → DExn + Connector;
  constructed : nat → nat → option Connector;             (* None also for a foreign proxy *)
  role_of : option (string → string);                     (* None: the registry keeps no roles *)
  may_command : nat → string → string → bool;
  call_result : nat → Connector → string → Params → CallResult;
  notify_result : nat → Connector → CallResult;
  wall_clock : nat → Z;
  has_history : bool;
  has_telemetry : bool;
}.

Abbreviation D A := (Comp DExn Disp A) (only parsing).

Definition emit (e : Effect) : D unit :=
  modify (λ s, mkDisp (ds_missing s) (ds_checked s) (ds_log s ++ [e]) (ds_tick s)).
Definition set_missing (f : gset string → gset string) : D unit :=
  modify (λ s, mkDisp (f (ds_missing s)) (ds_checked s) (ds_log s) (ds_tick s)).
Definition set_checked (f : gset nat → gset nat) : D unit :=
  modify (λ s, mkDisp (ds_missing s) (f (ds_checked s)) (ds_log s) (ds_tick s)).
Definition tick : D unit :=
  modify (λ s, mkDisp (ds_missing s) (ds_checked s) (ds_log s) (S (ds_tick s))).

Definition lift {A} (r : DExn + A) : D A :=
  match r with inl e => raise e | inr a => ret a end.

(** [try: m; except Exception: ...], which lets a cancellation through. *)
Definition attempt {A} (m : D A) : D (DispatchError + A) := λ s,
  match m s with
  | (inl (Raised e), s') => (inr (inl e), s')
  | (inl Cancelled, s') => (inl Cancelled, s')
  | (inr a, s') => (inr (inr a), s')
  end.

(** Text in a condition: [None] and [""] are false. *)
Definition truthy (s : option string) : bool :=
  match s with Some (String _ _) => true | _ => false end.

Definition origin_name (o : CommandOrigin) : string :=
  match o with
  | IEEE2030_5 => "ieee2030_5"
  | DDERC_REAPPLY => "dderc_reapply"
  | COMMS_LOSS => "comms_loss"
  | EVENT_END => "event_end"
  end.

(** [lfdi or device_href or "<unknown>"] *)
Definition label_of (lfdi device_href : option string) : string :=
  match lfdi, device_href with
  | Some (String _ _ as l), _ => l
  | _, Some (String _ _ as h) => h
  | _, _ => "<unknown>"
  end.

Definition remove_prefix (pre s : string) : string :=
  if String.prefix pre s then String.substring (String.length pre) (String.length s - String.length pre) s
  else s.

Definition METER_ROLES : list string := ["site_meter"; "der_meter"].

(** The withdrawal calls. *)
Definition DISABLE_CALLS : list (string * Params) :=
  (λ e, (method e, DISABLED)) <$> CONTROL_ELEMENTS ++ DOE_ELEMENTS.

Definition KEPT_AT_EVENT_END : list string :=
  ["opModConnect"; "opModEnergize"; "opModGridConnectPermit"; "opModIslandPermit"].

Definition FIELD_DISABLE_CALLS : dict string (string * Params) :=
  (λ me, (me.1, (method me.2, DISABLED))) <$>
  filter (λ me : string * ControlElement, element me.2 ∉ KEPT_AT_EVENT_END) ELEMENT_BY_MODE.

(** ** Operations *)

Section Operations.
Context {E : DispEnv}.

Definition clock : D Z := get (λ s, wall_clock (ds_tick s)).
Definition resolve_lfdi (device_href : string) : D (option string) :=
  get (λ s, lfdi_resolver (ds_tick s) device_href).

Definition takes_controls (lfdi : option string) : bool :=
  match lfdi with
  | None => true
  | Some l =>
      bool_decide (match role_of with Some f => f l | None => "der" end ∉ METER_ROLES)
  end.

Definition refuse_meter (lfdi : option string) : D unit :=
  if takes_controls lfdi then ret tt else raise (Raised DeviceNotConfiguredError).

Definition skips_meter (lfdi : option string) : bool := negb (takes_controls lfdi).

Definition warn_unused_update_methods (c : Connector) : D unit :=
  checked <- get (λ s, bool_decide (cn_class c ∈ ds_checked s)) ;;
  if (checked : bool) then ret tt
  else
    set_checked (λ cs, {[cn_class c]} ∪ cs) ;;;
    let unused := unused_update_methods (class_dir c) in
    match unused with [] => ret tt | _ => emit (WarnedUnused (cn_class c) unused) end.

Definition resolve_connector_by_lfdi (lfdi : string) : D (option Connector) :=
  found <- get (λ s, get_connector (ds_tick s) lfdi) ;;
  proxy <- lift found ;;
  reported <- get (λ s, bool_decide (lfdi ∈ ds_missing s)) ;;
  match proxy with
  | Some px =>
      (if (reported : bool)
       then set_missing (λ m, m ∖ {[lfdi]}) ;;; emit (ResolvedReport lfdi)
       else ret tt) ;;;
      r <- get (λ s, aresolve (ds_tick s) px) ;;
      tick ;;;
      c <- lift r ;;
      warn_unused_update_methods c ;;;
      ret (Some c)
  | None =>
      if (reported : bool) then ret None
      else
        set_missing (λ m, {[lfdi]} ∪ m) ;;; emit (Reported (NoConnector lfdi)) ;;; ret None
  end.

Definition resolve_connector (device_href : string) : D (option Connector) :=
  lfdi <- resolve_lfdi device_href ;;
  match lfdi with
  | None => emit (Reported (UnresolvedHref device_href)) ;;; ret None
  | Some l => resolve_connector_by_lfdi l
  end.

(** The bits reported for a device, which never constructs its connector. *)
Definition supported_modes2 (lfdi : string) : D (option Z) :=
  found <- get (λ s, get_connector (ds_tick s) lfdi) ;;
  proxy <- lift found ;;
  match proxy with
  | None => ret None
  | Some px =>
      c <- get (λ s, constructed (ds_tick s) px) ;;
      ret (modes_supported2 <$> c)
  end.

(** *** One write *)

Definition keep_write (w : WriteRecord) (at_ts : Z) : D unit :=
  when has_history (emit (Kept w at_ts)).
Definition record_write (w : WriteRecord) (c : Connector) : D unit :=
  when has_telemetry (emit (Telemetered w (cn_id c))).

(** The call itself, logged with its outcome. *)
Definition call_method (c : Connector) (method_name : string) (params : Params) : D unit :=
  r <- get (λ s, call_result (ds_tick s) c method_name params) ;;
  tick ;;; emit (Called c method_name params r) ;;;
  match r with
  | CallOk => ret tt
  | CallRaised e => raise (Raised e)
  | CallCancelled => raise Cancelled
  end.

Definition apply_one (c : Connector) (method_name : string) (params : Params)
    (lfdi : option string) (origin label : string) (applied_mrid cause_mrid : option bytes)
    : D bool :=
  let control := remove_prefix "update_" method_name in
  let entry outcome error :=
    {| w_label := label; w_control := control; w_params := params; w_outcome := outcome;
       w_lfdi := lfdi; w_origin := origin; w_applied_mrid := applied_mrid;
       w_cause_mrid := cause_mrid; w_error := error |} in
  let l := default "" lfdi in
  allowed <- get (λ s, negb (truthy lfdi) || may_command (ds_tick s) l origin) ;;
  if negb (allowed : bool) then
    emit (Reported (NotCommanding l control origin)) ;;;
    at_ts <- clock ;;
    keep_write (entry Refused None) at_ts ;;;
    record_write (entry Refused None) c ;;;
    ret false
  else
    issued_at <- clock ;;
    r <- attempt (call_method c method_name params) ;;
    match r with
    | inl e =>
        keep_write (entry Failed (Some e)) issued_at ;;;
        when (truthy lfdi) (emit (Commanded l control params origin issued_at (Some e))) ;;;
        record_write (entry Failed (Some e)) c ;;;
        raise (Raised e)
    | inr _ =>
        keep_write (entry Applied None) issued_at ;;;
        record_write (entry Applied None) c ;;;
        when (truthy lfdi) (emit (Commanded l control params origin issued_at None)) ;;;
        ret true
    end.

(** *** Applying a control *)

(** One translated call: [true] when the gate refused it. *)
Definition apply_translated (c : Connector) (lfdi device_href : option string) (origin : string)
    (applied cause : option bytes) (call : string * Params) : D bool :=
  let label := label_of lfdi device_href in
  match control_support c call.1 with
  | Bound _ =>
      ok <- apply_one c call.1 call.2 lfdi origin label applied cause ;; ret (negb ok)
  | BY_DESIGN => ret false
  | OFFER_MISSING => emit (Reported (UnimplementedMode label call.1)) ;;; ret false
  end.

Definition apply_control_to_connector (connector : option Connector) (derc : Dercontrol)
    (curves : list FieldVal) (lfdi device_href : option string) (origin : string) : D unit :=
  match connector with
  | None => ret tt
  | Some c =>
      refused <- map_each (translate_controls (dercontrol_base derc) curves)
        (apply_translated c lfdi device_href origin (Some (m_rid derc)) (Some (m_rid derc))) ;;
      if existsb id refused then raise (Raised CommandNotPermittedError) else ret tt
  end.

Definition apply_control (device_href : string) (derc : Dercontrol) (curves : list FieldVal)
    (origin : string) : D unit :=
  l0 <- resolve_lfdi device_href ;;
  refuse_meter l0 ;;;
  connector <- resolve_connector device_href ;;
  lfdi <- resolve_lfdi device_href ;;
  apply_control_to_connector connector derc curves lfdi (Some device_href) origin.

Definition apply_control_by_lfdi (lfdi : string) (derc : Dercontrol) (curves : list FieldVal)
    (origin : string) : D unit :=
  refuse_meter (Some lfdi) ;;;
  connector <- resolve_connector_by_lfdi lfdi ;;
  apply_control_to_connector connector derc curves (Some lfdi) None origin.

(** One named control, for a caller that names it. *)
Definition apply_operation (lfdi control : string) (params : Params) (origin : string) : D unit :=
  refuse_meter (Some lfdi) ;;;
  connector <- resolve_connector_by_lfdi lfdi ;;
  match connector with
  | None => raise (Raised (OtherDispatchError "ConnectorError"))
  | Some c =>
      let method_name := "update_" +:+ control in
      if implements c method_name then
        applied <- apply_one c method_name params (Some lfdi) origin lfdi None None ;;
        if (applied : bool) then ret tt else raise (Raised CommandNotPermittedError)
      else raise (Raised (OtherDispatchError "ConnectorError"))
  end.

(** *** The default control *)

Definition apply_default_control_to_connector (connector : option Connector)
    (dderc : DefaultDercontrol) (curves : list FieldVal) (lfdi device_href : option string)
    (origin : string) (cause : option bytes) : D unit :=
  match connector with
  | None => ret tt
  | Some c =>
      map_each (translate_default_controls dderc curves)
        (apply_translated c lfdi device_href origin (Some (dd_mrid dderc)) cause) ;;;
      ret tt
  end.

Definition apply_default_control (device_href : string) (dderc : DefaultDercontrol)
    (curves : list FieldVal) (origin : string) (cause : option bytes) : D unit :=
  l0 <- resolve_lfdi device_href ;;
  if skips_meter l0 then ret tt
  else
    connector <- resolve_connector device_href ;;
    lfdi <- resolve_lfdi device_href ;;
    apply_default_control_to_connector connector dderc curves lfdi (Some device_href) origin cause.

Definition apply_default_control_by_lfdi (lfdi : string) (dderc : DefaultDercontrol)
    (curves : list FieldVal) (origin : string) (cause : option bytes) : D unit :=
  if skips_meter (Some lfdi) then ret tt
  else
    connector <- resolve_connector_by_lfdi lfdi ;;
    apply_default_control_to_connector connector dderc curves (Some lfdi) None origin cause.

(** *** Withdrawal at the end of an event *)

(** [calls.setdefault(method, params)] for each mode that has a withdrawal call. *)
Definition add_disable_call (calls : dict string Params) (mode : string) : dict string Params :=
  match dict_get mode FIELD_DISABLE_CALLS with
  | Some mp => if dict_mem mp.1 calls then calls else dict_set mp.1 mp.2 calls
  | None => calls
  end.

Definition disable_calls (modes : gset string) : dict string Params :=
  foldl add_disable_call [] (sorted_strings (elements modes)).

Definition disable_one (c : Connector) (lfdi : option string) (label : string)
    (origin : CommandOrigin) (cause : option bytes) (call : string * Params) : D unit :=
  if implements c call.1
  then apply_one c call.1 call.2 lfdi (origin_name origin) label None cause ;;; ret tt
  else ret tt.

Definition disable_modes_on_connector (connector : option Connector) (modes : gset string)
    (lfdi : option string) (label : string) (cause : option bytes) : D unit :=
  match connector with
  | None => ret tt
  | Some c => for_each (disable_calls modes) (disable_one c lfdi label EVENT_END cause)
  end.

Definition disable_modes (device_href : string) (modes : gset string) (cause : option bytes)
    : D unit :=
  l0 <- resolve_lfdi device_href ;;
  if skips_meter l0 then ret tt
  else
    connector <- resolve_connector device_href ;;
    lfdi <- resolve_lfdi device_href ;;
    disable_modes_on_connector connector modes lfdi device_href cause.

Definition disable_modes_by_lfdi (lfdi : string) (modes : gset string) (cause : option bytes)
    : D unit :=
  if skips_meter (Some lfdi) then ret tt
  else
    connector <- resolve_connector_by_lfdi lfdi ;;
    disable_modes_on_connector connector modes (Some lfdi) lfdi cause.

(** *** Clearing a device *)

Definition clear_control_on_connector (connector : option Connector) (lfdi : option string)
    (label : string) (cause : option bytes) : D unit :=
  match connector with
  | None => ret tt
  | Some c =>
      if native_clear c then
        apply_one c "clear_control" [] lfdi (origin_name COMMS_LOSS) label None cause ;;; ret tt
      else for_each DISABLE_CALLS (disable_one c lfdi label COMMS_LOSS cause)
  end.

Definition clear_control (device_href : string) (cause : option bytes) : D unit :=
  l0 <- resolve_lfdi device_href ;;
  if skips_meter l0 then ret tt
  else
    connector <- resolve_connector device_href ;;
    lfdi <- resolve_lfdi device_href ;;
    clear_control_on_connector connector lfdi device_href cause.

Definition clear_control_by_lfdi (lfdi : string) (cause : option bytes) : D unit :=
  if skips_meter (Some lfdi) then ret tt
  else
    connector <- resolve_connector_by_lfdi lfdi ;;
    clear_control_on_connector connector (Some lfdi) lfdi cause.

(** *** Schedule relay *)

Inductive RelayGroup := GroupName (n : string) | GroupId (id : nat).

(** [getattr(connector, "relay_group", None) or id(connector)] *)
Definition group_of (c : Connector) : RelayGroup :=
  if truthy (relay_group c) then GroupName (default "" (relay_group c)) else GroupId (cn_id c).

#[export] Instance RelayGroup_eq_dec : EqDecision RelayGroup.
Proof. solve_decision. Defined.

Fixpoint relay_targets (lfdis : list string) (seen : list RelayGroup)
    : D (list (string * Connector)) :=
  match lfdis with
  | [] => ret []
  | lfdi :: rest =>
      r <- attempt (resolve_connector_by_lfdi lfdi) ;;
      match r with
      | inl _ => emit (Reported (ResolveFailed lfdi)) ;;; relay_targets rest seen
      | inr None => relay_targets rest seen
      | inr (Some c) =>
          if decide (group_of c ∈ seen) then relay_targets rest seen
          else
            targets <- relay_targets rest (group_of c :: seen) ;;
            ret ((lfdi, c) :: targets)
      end
  end.

Definition notify_one (target : string * Connector) : D unit :=
  r <- get (λ s, notify_result (ds_tick s) target.2) ;;
  tick ;;;
  match r with
  | CallOk => emit (Notified target.2 target.1 None)
  | CallRaised e => emit (Notified target.2 target.1 (Some e)) ;;; emit (Reported (NotifyFailed target.1))
  | CallCancelled => raise Cancelled
  end.

Definition relay_schedule_notification (lfdis : list string) : D unit :=
  targets <- relay_targets lfdis [] ;;
  for_each targets notify_one.

(** ** The interface the event engine dispatches through *)

Definition perform (a : Action) : D unit :=
  match a with
  | ApplyControl (ByHref h) derc curves => apply_control h derc curves (origin_name IEEE2030_5)
  | ApplyControl (ByLfdi l) derc curves => apply_control_by_lfdi l derc curves (origin_name IEEE2030_5)
  | ApplyDefault (ByHref h) dderc curves o cause =>
      apply_default_control h dderc curves (origin_name o) cause
  | ApplyDefault (ByLfdi l) dderc curves o cause =>
      apply_default_control_by_lfdi l dderc curves (origin_name o) cause
  | DisableModes (ByHref h) modes cause => disable_modes h modes (Some cause)
  | DisableModes (ByLfdi l) modes cause => disable_modes_by_lfdi l modes (Some cause)
  | ClearControl (ByHref h) cause => clear_control h (Some cause)
  | ClearControl (ByLfdi l) cause => clear_control_by_lfdi l (Some cause)
  | Relay n => relay_schedule_notification (sn_lfdis n)
  | _ => ret tt
  end.
End Operations.
