(* ===== verification/DeviceSpec.v ===== *)
(** * What a dispatch means for a device

    The abstract specification of the dispatcher: a device holds, per control
    element, the parameters it last acknowledged, and each action of the event
    engine changes exactly the elements it commands.  [perform_refines] relates
    the dispatcher's calls to it, and the theorems at the end follow the actions
    of the engine down to the settings of a device. *)

From S2P Require Import Prelude Controls Modes Response ProcState Dispatcher.

#[export] Instance ValueKind_eq_dec : EqDecision ValueKind.
Proof. solve_decision. Defined.
#[export] Instance ControlElement_eq_dec : EqDecision ControlElement.
Proof. solve_decision. Defined.

(** ** Acknowledged settings *)

(** The setting of [e] on the device behind [c] that an effect acknowledges.  A
    connector's own [clear_control] withdraws every control element it has. *)
Definition ack (c : Connector) (e : ControlElement) (eff : Effect) : option Params :=
  match eff with
  | Called c' m p CallOk =>
      if decide (cn_id c' = cn_id c) then
        if decide (m = method e) then Some p
        else if decide (m = "clear_control" ∧ e ∈ CONTROL_ELEMENTS ++ DOE_ELEMENTS ∧
                        implements c' (method e) = true) then Some DISABLED
        else None
      else None
  | _ => None
  end.

Definition settle (c : Connector) (e : ControlElement) (cur : option Params) (eff : Effect)
    : option Params :=
  match ack c e eff with Some p => Some p | None => cur end.

Definition setting (c : Connector) (e : ControlElement) (log : list Effect) : option Params :=
  foldl (settle c e) None log.

(** ** The abstract device *)

(** What an action commands for an element. *)
Definition mode_of (e : ControlElement) : string :=
  match ce_kind e with DOE_LIMIT => element e | _ => ce_field e end.

Section Spec.
Context {B : Binding}.

Definition commanded (a : Action) (e : ControlElement) : option Params :=
  match a with
  | ApplyControl _ derc curves =>
      if decide (e ∈ CONTROL_ELEMENTS ++ DOE_ELEMENTS)
      then add_ramp (dercontrol_base derc) <$> element_params e (dercontrol_base derc) curves
      else None
  | ApplyDefault _ d curves _ _ =>
      if decide (e ∈ CONTROL_ELEMENTS ++ DOE_ELEMENTS)
      then add_ramp (dd_base d) <$> element_params e (dd_base d) curves
      else (λ v, enabled_with (element_value v)) <$> dict_get (ce_field e) (dd_settings d)
  | DisableModes _ modes _ =>
      if decide (e ∈ CONTROL_ELEMENTS ++ DOE_ELEMENTS ∧ mode_of e ∈ modes ∧
                 element e ∉ KEPT_AT_EVENT_END)
      then Some DISABLED else None
  | ClearControl _ _ =>
      if decide (e ∈ CONTROL_ELEMENTS ++ DOE_ELEMENTS) then Some DISABLED else None
  | _ => None
  end.

Definition target_of (a : Action) : option Target :=
  match a with
  | ApplyControl t _ _ | ApplyDefault t _ _ _ _ | DisableModes t _ _ | ClearControl t _ => Some t
  | _ => None
  end.

Definition origin_of (a : Action) : CommandOrigin :=
  match a with
  | ApplyDefault _ _ _ o _ => o
  | DisableModes _ _ _ => EVENT_END
  | ClearControl _ _ => COMMS_LOSS
  | _ => IEEE2030_5
  end.
End Spec.

(** ** Reasoning about what an operation adds to the log *)

Definition adds (Q : Effect → Prop) (s s' : Disp) : Prop :=
  ∃ new, ds_log s' = ds_log s ++ new ∧ Forall Q new.

#[export] Instance adds_preorder Q : PreOrder (adds Q).
Proof.
  split.
  - intros s. exists []. by rewrite app_nil_r.
  - intros s1 s2 s3 (n1 & E1 & H1) (n2 & E2 & H2). exists (n1 ++ n2).
    rewrite E2, E1, app_assoc. split; [done|]. by apply Forall_app.
Qed.

(** An effect that says nothing of [e] on [c], or acknowledges [t]. *)
Definition acks_at_most (c : Connector) (e : ControlElement) (t : option Params) (eff : Effect)
    : Prop := ack c e eff = None ∨ (is_Some t ∧ ack c e eff = t).

Lemma settle_at_most c e t cur log :
  Forall (acks_at_most c e t) log →
  foldl (settle c e) cur log = cur ∨ (is_Some t ∧ foldl (settle c e) cur log = t).
Proof.
  revert cur. induction log as [|eff log IH]; intros cur; cbn [foldl]; [auto|].
  intros [Heff Hlog]%Forall_cons. destruct (IH (settle c e cur eff) Hlog) as [->|H]; [|by right].
  unfold settle. destruct Heff as [->|[[p ->] ->]]; [by left|right]. by split.
Qed.

Lemma adds_setting c e t s s' :
  adds (acks_at_most c e t) s s' →
  setting c e (ds_log s') = setting c e (ds_log s) ∨ (is_Some t ∧ setting c e (ds_log s') = t).
Proof.
  intros (new & -> & Hnew). unfold setting. rewrite foldl_app. by apply settle_at_most.
Qed.

Lemma adds_setting_none c e s s' :
  adds (acks_at_most c e None) s s' → setting c e (ds_log s') = setting c e (ds_log s).
Proof. intros [H|[[? [=]] _]]%adds_setting. done. Qed.

Lemma adds_setting_keeps c e p s s' :
  adds (acks_at_most c e (Some p)) s s' → setting c e (ds_log s) = Some p →
  setting c e (ds_log s') = Some p.
Proof. intros [H|[_ H]]%adds_setting; congruence. Qed.

Lemma guar_emit (Q : Effect → Prop) eff : Q eff → guar (adds Q) (emit eff).
Proof. intros H s. exists [eff]. by rewrite Forall_singleton. Qed.
Lemma guar_set_missing Q f : guar (adds Q) (set_missing f).
Proof. intros s. exists []. by rewrite app_nil_r. Qed.
Lemma guar_set_checked Q f : guar (adds Q) (set_checked f).
Proof. intros s. exists []. by rewrite app_nil_r. Qed.
Lemma guar_tick Q : guar (adds Q) tick.
Proof. intros s. exists []. by rewrite app_nil_r. Qed.
Lemma guar_lift {A} Q (r : DExn + A) : guar (adds Q) (lift r).
Proof. destruct r; unfold lift; guar_auto. Qed.
Lemma guar_attempt {A} (R : relation Disp) (m : Comp DExn Disp A) : guar R m → guar R (attempt m).
Proof. intros H s. unfold attempt. specialize (H s). by destruct (m s) as [[[e|]|a] s']. Qed.

#[export] Hint Resolve guar_set_missing guar_set_checked guar_tick guar_lift guar_attempt : guar.

(** Effects other than calls of a connector. *)
Definition quiet (eff : Effect) : Prop := match eff with Called _ _ _ _ => False | _ => True end.

Section Emissions.
Context {E : DispEnv} (Q : Effect → Prop) (HQ : ∀ eff, quiet eff → Q eff).

Lemma guar_emit_quiet eff : quiet eff → guar (adds Q) (emit eff).
Proof using HQ. auto using guar_emit. Qed.

#[local] Hint Resolve guar_emit_quiet : guar.
#[local] Hint Extern 1 (quiet _) => exact I : guar.

Lemma guar_keep_write w ts : guar (adds Q) (keep_write w ts).
Proof using HQ. unfold keep_write. guar_auto. Qed.
Lemma guar_record_write w c : guar (adds Q) (record_write w c).
Proof using HQ. unfold record_write. guar_auto. Qed.
#[local] Hint Resolve guar_keep_write guar_record_write : guar.

Lemma guar_warn_unused c : guar (adds Q) (warn_unused_update_methods c).
Proof using HQ. unfold warn_unused_update_methods. guar_auto. Qed.
#[local] Hint Resolve guar_warn_unused : guar.

Lemma guar_resolve_by_lfdi lfdi : guar (adds Q) (resolve_connector_by_lfdi lfdi).
Proof using HQ. unfold resolve_connector_by_lfdi. guar_auto. Qed.
#[local] Hint Resolve guar_resolve_by_lfdi : guar.

Lemma guar_resolve href : guar (adds Q) (resolve_connector href).
Proof using HQ. unfold resolve_connector, resolve_lfdi. guar_auto. Qed.

Lemma guar_refuse_meter lfdi : guar (adds Q) (refuse_meter lfdi).
Proof using. unfold refuse_meter. guar_auto. Qed.

(** A write adds its one call, which [Q] has to allow, and records. *)
Lemma guar_apply_one c m p lfdi origin label applied cause :
  (∀ r, Q (Called c m p r)) → guar (adds Q) (apply_one c m p lfdi origin label applied cause).
Proof using HQ.
  intros Hc. unfold apply_one, call_method, clock. guar_auto. apply guar_attempt.
  guar_auto. by apply guar_emit.
Qed.

Lemma guar_apply_translated c lfdi href origin applied cause call :
  (implements c call.1 = true → ∀ r, Q (Called c call.1 call.2 r)) →
  guar (adds Q) (apply_translated c lfdi href origin applied cause call).
Proof using HQ.
  unfold apply_translated, implements. intros Hc.
  destruct (control_support c call.1); guar_auto. apply guar_apply_one; auto.
Qed.

Lemma guar_disable_one c lfdi label origin cause call :
  (implements c call.1 = true → ∀ r, Q (Called c call.1 call.2 r)) →
  guar (adds Q) (disable_one c lfdi label origin cause call).
Proof using HQ.
  unfold disable_one. intros Hc. destruct (implements c call.1); guar_auto.
  apply guar_apply_one; auto.
Qed.

Lemma guar_relay lfdis : guar (adds Q) (relay_schedule_notification lfdis).
Proof using HQ.
  unfold relay_schedule_notification, notify_one. guar_auto.
  generalize (@nil RelayGroup). induction lfdis as [|l lfdis IH]; intros seen; cbn [relay_targets].
  - guar_auto.
  - repeat (apply IH || guar_step).
Qed.
End Emissions.

(** ** The calls of an action *)

Lemma method_inj (e e' : ControlElement) :
  e ∈ ALL_ELEMENTS → e' ∈ ALL_ELEMENTS → method e = method e' → e = e'.
Proof.
  intros He He' Hm.
  assert (∀ l : list ControlElement, NoDup (method <$> l) → e ∈ l → e' ∈ l → e = e') as H.
  { induction l as [|x l IH]; [by intros _ ?%elem_of_nil|].
    rewrite fmap_cons. intros [Hx Hl]%NoDup_cons. rewrite !elem_of_cons.
    intros [->|H1] [->|H2]; [done|exfalso; apply Hx..|by apply IH].
    - rewrite Hm. by apply list_elem_of_fmap_2.
    - rewrite <- Hm. by apply list_elem_of_fmap_2. }
  apply (H ALL_ELEMENTS); [|done..].
  rewrite all_elements_methods. apply declared_methods_NoDup.
Qed.

Lemma base_element_all (e : ControlElement) :
  e ∈ CONTROL_ELEMENTS ++ DOE_ELEMENTS → e ∈ ALL_ELEMENTS.
Proof. unfold ALL_ELEMENTS. rewrite !elem_of_app. tauto. Qed.

Lemma method_declared (e : ControlElement) : e ∈ ALL_ELEMENTS → method e ∈ BaseConnector_methods.
Proof. intros He. rewrite <- all_elements_methods. by apply list_elem_of_fmap_2. Qed.

Lemma clear_control_undeclared : "clear_control" ∉ BaseConnector_methods.
Proof. apply (bool_decide_unpack _). vm_compute. exact I. Qed.

Lemma mode_of_spec (mode : string) (e : ControlElement) :
  dict_get mode ELEMENT_BY_MODE = Some e ↔ e ∈ CONTROL_ELEMENTS ++ DOE_ELEMENTS ∧ mode_of e = mode.
Proof.
  assert (Forall (λ me : string * ControlElement, mode_of me.2 = me.1) ELEMENT_BY_MODE) as H
    by (apply (bool_decide_unpack _); vm_compute; exact I).
  assert (Forall (λ e, dict_get (mode_of e) ELEMENT_BY_MODE = Some e) (CONTROL_ELEMENTS ++ DOE_ELEMENTS))
    as H' by (apply (bool_decide_unpack _); vm_compute; exact I).
  rewrite Forall_forall in H. rewrite Forall_forall in H'. split.
  - intros He. split; [by eapply element_by_mode_elem|]. by apply dict_get_elem, H in He.
  - intros [He <-]. by apply H'.
Qed.

Lemma field_disable_call (mode : string) (mp : string * Params) :
  dict_get mode FIELD_DISABLE_CALLS = Some mp ↔
  ∃ e, dict_get mode ELEMENT_BY_MODE = Some e ∧ element e ∉ KEPT_AT_EVENT_END ∧
       mp = (method e, DISABLED).
Proof.
  assert (dict_wf FIELD_DISABLE_CALLS) as Hwf by (apply (bool_decide_unpack _); vm_compute; exact I).
  pose proof element_by_mode_wf as Hwf'. split.
  - intros H%dict_get_elem. unfold FIELD_DISABLE_CALLS in H.
    apply list_elem_of_fmap in H as ([m e] & [= -> ->] & [Hk He]%list_elem_of_filter).
    exists e. split; [by apply dict_elem_get|done].
  - intros (e & He & Hk & ->). apply dict_elem_get; [done|]. unfold FIELD_DISABLE_CALLS.
    apply list_elem_of_fmap. exists (mode, e). split; [done|].
    apply list_elem_of_filter. split; [done|]. by apply dict_get_elem.
Qed.

#[local] Opaque CONTROL_ELEMENTS DOE_ELEMENTS DEFAULT_CONTROL_ELEMENTS ELEMENT_BY_MODE method
  FIELD_DISABLE_CALLS BaseConnector_methods.

(** The calls that withdraw a set of modes: one per method. *)
Lemma disable_calls_keys (l : list string) (calls : dict string Params) (m : string) :
  m ∈ dict_keys (foldl add_disable_call calls l) ↔
  m ∈ dict_keys calls ∨ ∃ mode, mode ∈ l ∧ dict_get mode FIELD_DISABLE_CALLS = Some (m, DISABLED).
Proof.
  revert calls. induction l as [|x l IH]; intros calls; cbn [foldl].
  - split; [auto|]. intros [H|(? & H%elem_of_nil & _)]; done.
  - rewrite IH.
    assert (m ∈ dict_keys (add_disable_call calls x) ↔
            m ∈ dict_keys calls ∨ dict_get x FIELD_DISABLE_CALLS = Some (m, DISABLED)) as ->.
    { unfold add_disable_call. destruct (dict_get x FIELD_DISABLE_CALLS) as [mp|] eqn:Ex; [|naive_solver].
      apply field_disable_call in Ex as (e & _ & _ & ->). cbn [fst snd].
      destruct (dict_mem (method e) calls) eqn:Em.
      - apply dict_mem_spec in Em. naive_solver.
      - rewrite elem_of_dict_set_keys. naive_solver. }
    setoid_rewrite elem_of_cons. naive_solver.
Qed.

Lemma disable_calls_params (l : list string) (calls : dict string Params) :
  Forall (λ mp, mp.2 = DISABLED) calls → Forall (λ mp, mp.2 = DISABLED) (foldl add_disable_call calls l).
Proof.
  revert calls. induction l as [|x l IH]; intros calls Hc; cbn [foldl]; [done|]. apply IH.
  unfold add_disable_call. destruct (dict_get x FIELD_DISABLE_CALLS) as [mp|] eqn:Ex; [|done].
  apply field_disable_call in Ex as (e & _ & _ & ->). cbn [fst snd].
  destruct (dict_mem (method e) calls); [done|].
  apply Forall_forall. intros [m q] [[= -> ->]|H]%dict_set_elem; [done|].
  rewrite Forall_forall in Hc. by apply (Hc _ H).
Qed.

Lemma disable_calls_spec (modes : gset string) (m : string) (p : Params) :
  (m, p) ∈ disable_calls modes ↔
  p = DISABLED ∧ ∃ e, e ∈ CONTROL_ELEMENTS ++ DOE_ELEMENTS ∧ m = method e ∧ mode_of e ∈ modes ∧
                      element e ∉ KEPT_AT_EVENT_END.
Proof.
  pose proof (disable_calls_params (sorted_strings (elements modes)) [] ltac:(constructor)) as Hp.
  rewrite Forall_forall in Hp.
  pose proof (disable_calls_keys (sorted_strings (elements modes)) [] m) as Hk.
  assert (∀ x, x ∈ sorted_strings (elements modes) ↔ x ∈ modes) as Hs.
  { intros x. unfold sorted_strings. by rewrite merge_sort_Permutation, elem_of_elements. }
  fold (disable_calls modes) in Hk, Hp. split.
  - intros H. pose proof (Hp _ H) as Hd. cbn in Hd. split; [done|].
    assert (m ∈ dict_keys (disable_calls modes)) as [H'|(mode & Hm & He)]%Hk
      by (apply list_elem_of_fmap; by exists (m, p)); [by apply elem_of_nil in H'|].
    apply field_disable_call in He as (e & (He & <-)%mode_of_spec & Hkept & [= ->]).
    exists e. rewrite <- Hs. auto.
  - intros (-> & e & He & -> & Hm & Hkept).
    assert (method e ∈ dict_keys (disable_calls modes)) as ([m' q] & Heq & H)%list_elem_of_fmap.
    { apply Hk. right. exists (mode_of e). rewrite Hs. split; [done|].
      apply field_disable_call. exists e. split; [by apply mode_of_spec|done]. }
    cbn in Heq. subst m'. pose proof (Hp _ H) as Hd. cbn in Hd. by subst q.
Qed.

(** ** Calls, element by element *)

Lemma update_call_at_most c c' e t m p r :
  m ∈ BaseConnector_methods → (cn_id c' = cn_id c → m = method e → t = Some p) →
  acks_at_most c e t (Called c' m p r).
Proof.
  intros Hm Ht. unfold acks_at_most, ack. destruct r; [|by left..].
  case_decide as Hid; [|by left]. case_decide as He.
  - right. rewrite (Ht Hid He). by split.
  - rewrite decide_False; [by left|]. intros [-> _]. by apply clear_control_undeclared.
Qed.

Section Calls.
Context {E : DispEnv}.

(** What an action wants for an element of the device behind [c]. *)
Definition wanted (a : Action) (c : Connector) (e : ControlElement) : option Params :=
  if implements c (method e) then commanded a e else None.

(** The calls an action makes, on the connector it resolves. *)
Definition action_calls (a : Action) (c : Connector) : list (string * Params) :=
  match a with
  | ApplyControl _ derc curves => translate_controls (dercontrol_base derc) curves
  | ApplyDefault _ d curves _ _ => translate_default_controls d curves
  | DisableModes _ modes _ => disable_calls modes
  | ClearControl _ _ => if native_clear c then [] else DISABLE_CALLS
  | _ => []
  end.

Lemma base_element_cases (e : ControlElement) :
  e ∈ ALL_ELEMENTS →
  (e ∈ CONTROL_ELEMENTS ++ DOE_ELEMENTS ∧ e ∉ DEFAULT_CONTROL_ELEMENTS) ∨
  (e ∉ CONTROL_ELEMENTS ++ DOE_ELEMENTS ∧ e ∈ DEFAULT_CONTROL_ELEMENTS).
Proof.
  intros He. assert (∀ e, e ∈ DEFAULT_CONTROL_ELEMENTS → e ∉ CONTROL_ELEMENTS ++ DOE_ELEMENTS) as H.
  { intros x Hx Hx'. apply (default_setting_not_base x Hx). by apply list_elem_of_fmap_2. }
  unfold ALL_ELEMENTS in He. rewrite app_assoc in He.
  apply elem_of_app in He as [He|He]; [left|right]; split; auto. intros H'. by apply (H e H').
Qed.

(** The calls of an action carry exactly what it commands. *)
Lemma dict_get_calls (calls : list (string * Params)) (l : list string) (m : string) (p : Params) :
  NoDup l → sublist (dict_keys calls) l → (m, p) ∈ calls ↔ dict_get m calls = Some p.
Proof.
  intros Hl Hs. split; [|apply dict_get_elem]. apply dict_elem_get.
  unfold dict_wf. by eapply sublist_NoDup.
Qed.

Lemma method_in_base (e : ControlElement) :
  e ∈ ALL_ELEMENTS → method e ∈ method <$> CONTROL_ELEMENTS ++ DOE_ELEMENTS →
  e ∈ CONTROL_ELEMENTS ++ DOE_ELEMENTS.
Proof.
  intros He (e' & Hm & He')%list_elem_of_fmap.
  rewrite (method_inj e e'); auto using base_element_all.
Qed.

Lemma control_calls_spec (base : DercontrolBase) (cs : list FieldVal) (e : ControlElement)
    (p : Params) :
  e ∈ ALL_ELEMENTS →
  (method e, p) ∈ translate_controls base cs ↔
  (if decide (e ∈ CONTROL_ELEMENTS ++ DOE_ELEMENTS)
   then add_ramp base <$> element_params e base cs else None) = Some p.
Proof.
  intros He. rewrite (dict_get_calls _ _ _ _ base_elements_methods_NoDup (translate_methods base cs)).
  case_decide as Hb; [by rewrite translate_controls_lookup|].
  rewrite (dict_get_sublist_None _ _ _ (translate_methods base cs)); [done|].
  intros H. by apply Hb, method_in_base.
Qed.

Lemma default_calls_spec (d : DefaultDercontrol) (cs : list FieldVal) (e : ControlElement)
    (p : Params) :
  e ∈ ALL_ELEMENTS →
  (method e, p) ∈ translate_default_controls d cs ↔
  (if decide (e ∈ CONTROL_ELEMENTS ++ DOE_ELEMENTS)
   then add_ramp (dd_base d) <$> element_params e (dd_base d) cs
   else (λ v, enabled_with (element_value v)) <$> dict_get (ce_field e) (dd_settings d)) = Some p.
Proof.
  intros He.
  rewrite (dict_get_calls _ _ _ _ declared_methods_NoDup (translate_default_methods d cs)).
  case_decide as Hb; [by rewrite translate_default_lookup|].
  rewrite translate_default_setting; [done|]. by destruct (base_element_cases e He) as [[]|[]].
Qed.

Lemma disable_calls_element (modes : gset string) (e : ControlElement) (p : Params) :
  e ∈ ALL_ELEMENTS →
  (method e, p) ∈ disable_calls modes ↔
  (if decide (e ∈ CONTROL_ELEMENTS ++ DOE_ELEMENTS ∧ mode_of e ∈ modes ∧
              element e ∉ KEPT_AT_EVENT_END) then Some DISABLED else None) = Some p.
Proof.
  intros He. rewrite disable_calls_spec. split.
  - intros (-> & e' & He' & Hm & Hmode & Hk).
    assert (e = e') as -> by (apply method_inj; auto using base_element_all).
    by rewrite decide_True.
  - case_decide as Hb; [|done]. intros [= <-]. split; [done|]. exists e. tauto.
Qed.

Lemma clear_calls_spec (e : ControlElement) (p : Params) :
  e ∈ ALL_ELEMENTS →
  (method e, p) ∈ DISABLE_CALLS ↔
  (if decide (e ∈ CONTROL_ELEMENTS ++ DOE_ELEMENTS) then Some DISABLED else None) = Some p.
Proof.
  intros He. unfold DISABLE_CALLS. split.
  - intros (e' & Heq & He')%list_elem_of_fmap.
    pose proof (f_equal snd Heq) as Hp. apply (f_equal fst) in Heq. cbn [fst snd] in Hp, Heq.
    assert (e = e') as -> by (apply method_inj; auto using base_element_all).
    by rewrite decide_True, Hp.
  - case_decide as Hb; [|done]. intros [= <-]. apply list_elem_of_fmap. by exists e.
Qed.
End Calls.

(** ** Any action, in any environment

    Whatever the registry, the gate and the connectors do, an action leaves an
    element of a device at the setting it had or at the one it commands. *)

Section AnyEnvironment.
Context {E : DispEnv} (c : Connector) (e : ControlElement) (He : e ∈ ALL_ELEMENTS).
Hypothesis Hid : ∀ n px c', aresolve n px = inr c' → cn_id c' = cn_id c → c' = c.

Definition resolved (c' : Connector) : Prop := ∃ n px, aresolve n px = inr c'.

Lemma resolve_by_lfdi_result lfdi s c' s1 :
  resolve_connector_by_lfdi lfdi s = (inr (Some c'), s1) → resolved c'.
Proof using.
  unfold resolve_connector_by_lfdi. intros (? & ? & _ & H)%bind_inr.
  apply bind_inr in H as (proxy & s2 & _ & H). apply bind_inr in H as (reported & s3 & _ & H).
  destruct proxy as [px|]; [|destruct reported; [done|]].
  - apply bind_inr in H as (? & s4 & _ & H). apply bind_inr in H as (r & s5 & [= <- <-] & H).
    apply bind_inr in H as (? & s6 & _ & H). apply bind_inr in H as (c0 & s7 & Hl & H).
    apply bind_inr in H as (? & s8 & _ & [= <- _]). exists (ds_tick s4), px.
    unfold lift in Hl. destruct (aresolve (ds_tick s4) px); [done|]. by injection Hl as <-.
  - apply bind_inr in H as (? & ? & _ & H). by apply bind_inr in H as (? & ? & _ & [=]).
Qed.

Lemma resolve_result href s c' s1 :
  resolve_connector href s = (inr (Some c'), s1) → resolved c'.
Proof using.
  unfold resolve_connector, resolve_lfdi, bind, get.
  destruct (lfdi_resolver (ds_tick s) href); [apply resolve_by_lfdi_result|done].
Qed.

Lemma call_allowed a (calls : list (string * Params)) c' call :
  resolved c' →
  (∀ p, (method e, p) ∈ calls → commanded a e = Some p) →
  Forall (λ m, m ∈ BaseConnector_methods) (dict_keys calls) →
  call ∈ calls → implements c' call.1 = true →
  ∀ r, acks_at_most c e (wanted a c e) (Called c' call.1 call.2 r).
Proof using Hid.
  intros (n & px & Hr) Hcmd Hm Hcall Himp r. destruct call as [m p]. cbn [fst snd] in *.
  apply update_call_at_most.
  - rewrite Forall_forall in Hm. apply Hm, list_elem_of_fmap. by exists (m, p).
  - intros Hi ->. apply Hid in Hr; [subst c'|done]. unfold wanted. rewrite Himp. by apply Hcmd.
Qed.

Lemma sublist_declared (l : list string) :
  sublist l BaseConnector_methods → Forall (λ m, m ∈ BaseConnector_methods) l.
Proof using.
  intros H. apply Forall_forall. intros m Hm. eapply elem_of_submseteq; [exact Hm|].
  by apply sublist_submseteq.
Qed.

Lemma base_methods_declared :
  sublist (method <$> CONTROL_ELEMENTS ++ DOE_ELEMENTS) BaseConnector_methods.
Proof using.
  rewrite <- all_elements_methods. unfold ALL_ELEMENTS. rewrite app_assoc, (fmap_app _ (_ ++ _)).
  by apply sublist_inserts_r.
Qed.

Lemma disable_calls_declared modes :
  Forall (λ m, m ∈ BaseConnector_methods) (dict_keys (disable_calls modes)).
Proof using.
  apply Forall_forall. intros m ([m' p] & -> & H)%list_elem_of_fmap.
  apply disable_calls_spec in H as (_ & e' & He' & -> & _). by apply method_declared, base_element_all.
Qed.

Lemma DISABLE_CALLS_declared : Forall (λ m, m ∈ BaseConnector_methods) (dict_keys DISABLE_CALLS).
Proof using.
  apply sublist_declared. unfold dict_keys, DISABLE_CALLS. rewrite <- list_fmap_compose.
  apply base_methods_declared.
Qed.

(** The bodies that run once a connector is resolved. *)
Abbreviation R a := (adds (acks_at_most c e (wanted a c e))) (only parsing).

Lemma quiet_at_most t eff : quiet eff → acks_at_most c e t eff.
Proof using. by destruct eff; [|left..]. Qed.

Lemma translated_calls_at_most {A} a calls c' lfdi href origin applied cause (k : list bool → A) :
  resolved c' → (∀ p, (method e, p) ∈ calls → commanded a e = Some p) →
  sublist (dict_keys calls) BaseConnector_methods →
  guar (R a) (flags <- map_each calls (apply_translated c' lfdi href origin applied cause) ;; ret (k flags)).
Proof using Hid.
  intros Hr Hc Hm. apply guar_bind; [apply _| |guar_auto]. apply guar_map_each; [apply _|].
  intros call Hcall. apply guar_apply_translated; [apply quiet_at_most|]. intros Hi r.
  by eapply call_allowed; [done|done|apply sublist_declared|done|].
Qed.

Lemma disable_calls_at_most a calls c' lfdi label origin cause :
  resolved c' → (∀ p, (method e, p) ∈ calls → commanded a e = Some p) →
  Forall (λ m, m ∈ BaseConnector_methods) (dict_keys calls) →
  guar (R a) (for_each calls (disable_one c' lfdi label origin cause)).
Proof using Hid.
  intros Hr Hc Hm. apply guar_for_each; [apply _|]. intros call Hcall.
  apply guar_disable_one; [apply quiet_at_most|]. intros Hi r. by eapply call_allowed.
Qed.

Lemma apply_body_at_most t derc curves c' lfdi href origin :
  resolved c' →
  guar (R (ApplyControl t derc curves))
    (apply_control_to_connector (Some c') derc curves lfdi href origin).
Proof using He Hid.
  intros Hr. unfold apply_control_to_connector.
  apply guar_bind; [apply _| |intro; destruct (existsb id _); guar_auto].
  apply guar_map_each; [apply _|]. intros call Hcall.
  apply guar_apply_translated; [apply quiet_at_most|]. intros Hi r.
  eapply call_allowed; [done| |apply sublist_declared; etrans;
    [apply translate_methods|apply base_methods_declared]|exact Hcall|done].
  intros p. cbn [commanded]. by apply control_calls_spec.
Qed.

Lemma default_body_at_most t d curves o k c' lfdi href origin cause :
  resolved c' →
  guar (R (ApplyDefault t d curves o k))
    (apply_default_control_to_connector (Some c') d curves lfdi href origin cause).
Proof using He Hid.
  intros Hr. apply (translated_calls_at_most _ _ _ _ _ _ _ _ (λ _, tt)); [done| |].
  - intros p. cbn [commanded]. by apply default_calls_spec.
  - apply translate_default_methods.
Qed.

Lemma disable_body_at_most t modes k c' lfdi label cause :
  resolved c' →
  guar (R (DisableModes t modes k)) (disable_modes_on_connector (Some c') modes lfdi label cause).
Proof using He Hid.
  intros Hr. apply disable_calls_at_most; [done| |apply disable_calls_declared].
  intros p. cbn [commanded]. by apply disable_calls_element.
Qed.

Lemma clear_body_at_most t k c' lfdi label cause :
  resolved c' →
  guar (R (ClearControl t k)) (clear_control_on_connector (Some c') lfdi label cause).
Proof using He Hid.
  intros Hr. unfold clear_control_on_connector. destruct (native_clear c').
  - apply guar_bind; [apply _| |guar_auto]. apply guar_apply_one; [apply quiet_at_most|].
    intros r. unfold acks_at_most, ack, wanted. destruct r; [|by left..].
    case_decide as Hi; [|by left]. rewrite decide_False.
    2:{ intros Hm. apply clear_control_undeclared. rewrite Hm. by apply method_declared. }
    case_decide as H; [right|by left]. destruct H as (_ & Hb & Himp), Hr as (n & px & Hr).
    apply Hid in Hr; [subst c'|done]. rewrite Himp. cbn [commanded].
    rewrite decide_True by done. by split.
  - apply disable_calls_at_most; [done| |apply DISABLE_CALLS_declared].
    intros p. cbn [commanded]. by apply clear_calls_spec.
Qed.

(** The two ways into a body: by href and by LFDI. *)
Lemma by_href_at_most a (m : option Connector → option string → D unit) href :
  (∀ lfdi, m None lfdi = ret tt) → (∀ c' lfdi, resolved c' → guar (R a) (m (Some c') lfdi)) →
  guar (R a) (connector <- resolve_connector href ;; lfdi <- resolve_lfdi href ;; m connector lfdi).
Proof using.
  intros Hn Hm s. apply rel_bind; [apply _|apply guar_resolve, quiet_at_most|].
  intros [c'|] s1 Hs.
  - unfold resolve_lfdi. apply guar_bind; [apply _|guar_auto|]. intros lfdi.
    apply Hm. by eapply resolve_result.
  - unfold resolve_lfdi, bind, get. rewrite Hn. reflexivity.
Qed.

Lemma by_lfdi_at_most a (m : option Connector → D unit) lfdi :
  m None = ret tt → (∀ c', resolved c' → guar (R a) (m (Some c'))) →
  guar (R a) (connector <- resolve_connector_by_lfdi lfdi ;; m connector).
Proof using.
  intros Hn Hm s. apply rel_bind; [apply _|apply guar_resolve_by_lfdi, quiet_at_most|].
  intros [c'|] s1 Hs; [|by rewrite Hn].
  apply Hm. by eapply resolve_by_lfdi_result.
Qed.

Lemma perform_at_most a : guar (R a) (perform a).
Proof using He Hid.
  assert (∀ m : D unit, guar (R a) m → ∀ l, guar (R a) (if skips_meter l then ret tt else m)) as Hskip
    by (intros m Hm l; destruct (skips_meter l); [guar_auto|done]).
  destruct a as [| |[h|l] derc curves|[h|l] d curves o k|[h|l] ms k|[h|l] k|n| |]; cbn [perform];
    try guar_auto.
  - unfold apply_control, resolve_lfdi at 1. apply guar_bind; [apply _|guar_auto|intros l0].
    apply guar_bind; [apply _|apply guar_refuse_meter|intros _].
    apply by_href_at_most; [done|]. intros. by apply apply_body_at_most.
  - unfold apply_control_by_lfdi. apply guar_bind; [apply _|apply guar_refuse_meter|intros _].
    apply (by_lfdi_at_most _ (λ co, apply_control_to_connector co derc curves (Some l) None _)); [done|].
    intros. by apply apply_body_at_most.
  - unfold apply_default_control, resolve_lfdi at 1.
    apply guar_bind; [apply _|guar_auto|intros l0]. apply Hskip.
    apply by_href_at_most; [done|]. intros. by apply default_body_at_most.
  - apply Hskip.
    apply (by_lfdi_at_most _ (λ co, apply_default_control_to_connector co d curves (Some l) None _ k)); [done|].
    intros. by apply default_body_at_most.
  - unfold disable_modes, resolve_lfdi at 1. apply guar_bind; [apply _|guar_auto|intros l0]. apply Hskip.
    apply by_href_at_most; [done|]. intros. by apply disable_body_at_most.
  - apply Hskip.
    apply (by_lfdi_at_most _ (λ co, disable_modes_on_connector co ms (Some l) l (Some k))); [done|].
    intros. by apply disable_body_at_most.
  - unfold clear_control, resolve_lfdi at 1. apply guar_bind; [apply _|guar_auto|intros l0]. apply Hskip.
    apply by_href_at_most; [done|]. intros. by apply clear_body_at_most.
  - apply Hskip.
    apply (by_lfdi_at_most _ (λ co, clear_control_on_connector co (Some l) l (Some k))); [done|].
    intros. by apply clear_body_at_most.
  - apply guar_relay, quiet_at_most.
Qed.
End AnyEnvironment.

(** ** Refinement, when the surroundings hold still

    The registry, the resolver and the gate answer the same throughout, and no
    connector call fails.  Then an action changes a device exactly as the
    specification says. *)

Record stable_env {E : DispEnv} (hrefs : string → option string)
    (conns : string → option (nat * Connector)) (gate : string → string → bool) : Prop := {
  st_hrefs : ∀ n h, lfdi_resolver n h = hrefs h;
  st_registry : ∀ n l, get_connector n l = inr (fst <$> conns l);
  st_resolve : ∀ n l px c, conns l = Some (px, c) → aresolve n px = inr c;
  st_gate : ∀ n l o, may_command n l o = gate l o;
  st_calls : ∀ n c m p, call_result n c m p = CallOk;
  st_named : ∀ l pc, conns l = Some pc → l ≠ "";
  st_ids : ∀ l l' px px' c c', conns l = Some (px, c) → conns l' = Some (px', c') →
             cn_id c = cn_id c' → c = c';
}.

Section Abstract.
Context {E : DispEnv} (hrefs : string → option string)
  (conns : string → option (nat * Connector)) (gate : string → string → bool).

Definition target_lfdi (t : Target) : option string :=
  match t with ByLfdi l => Some l | ByHref h => hrefs h end.

Definition device_of (t : Target) : option (string * Connector) :=
  l ← target_lfdi t; pc ← conns l; Some (l, pc.2).

(** Whether an action reaches the device behind [c]: addressed to it, not a
    meter, and its origin holds the command role. *)
Definition reaches (a : Action) (c : Connector) : bool :=
  match t ← target_of a; device_of t with
  | Some (l, c') =>
      bool_decide (cn_id c' = cn_id c) && takes_controls (Some l) && gate l (origin_name (origin_of a))
  | None => false
  end.

(** One step of the abstract device: its elements take what is commanded, as far
    as the device has them. *)
Definition spec_step (c : Connector) (d : ControlElement → option Params) (a : Action)
    : ControlElement → option Params :=
  λ e, if reaches a c
       then match wanted a c e with Some p => Some p | None => d e end
       else d e.

(** The control is refused as a whole: for a meter, and when the gate denies the
    origin and the device has one of its modes. *)
Definition spec_result (a : Action) : option DispatchError :=
  match a with
  | ApplyControl t derc curves =>
      if negb (takes_controls (target_lfdi t)) then Some DeviceNotConfiguredError
      else match device_of t with
           | Some (l, c) =>
               if negb (gate l (origin_name IEEE2030_5)) &&
                  existsb (λ call, implements c call.1) (translate_controls (dercontrol_base derc) curves)
               then Some CommandNotPermittedError else None
           | None => None
           end
  | _ => None
  end.
End Abstract.

(** The state after performing a list of actions, each error kept apart as
    [gather(..., return_exceptions=True)] does. *)
Fixpoint perform_all {E : DispEnv} (acts : list Action) (s : Disp) : Disp :=
  match acts with
  | [] => s
  | a :: acts' => perform_all acts' (perform a s).2
  end.

(** *** One write *)

Lemma setting_app c e log new : setting c e (log ++ new) = foldl (settle c e) (setting c e log) new.
Proof. apply foldl_app. Qed.

Lemma adds_quiet_setting c e s s' : adds quiet s s' → setting c e (ds_log s') = setting c e (ds_log s).
Proof.
  intros (new & -> & H). rewrite setting_app. generalize (setting c e (ds_log s)).
  induction H as [|eff new Heff _ IH]; intros cur; [done|]. cbn [foldl]. rewrite IH.
  by destruct eff.
Qed.

Section Stable.
Context {E : DispEnv} {hrefs : string → option string}
  {conns : string → option (nat * Connector)} {gate : string → string → bool}
  (St : stable_env hrefs conns gate).

Lemma apply_one_stable c m p l o label ap ca s :
  l ≠ "" →
  ∃ s', apply_one c m p (Some l) o label ap ca s = (inr (gate l o), s') ∧
    ∀ c' e, setting c' e (ds_log s') =
            if gate l o then settle c' e (setting c' e (ds_log s)) (Called c m p CallOk)
            else setting c' e (ds_log s).
Proof using St.
  intros Hl. assert (truthy (Some l) = true) as Ht by by destruct l.
  unfold apply_one. change (default "" (Some l)) with l. rewrite Ht. cbn [negb orb].
  unfold bind at 1, get at 1. rewrite (st_gate _ _ _ St).
  destruct (gate l o) eqn:Eg; cbn [negb].
  - assert (attempt (call_method c m p) s =
            (inr (inr tt), mkDisp (ds_missing s) (ds_checked s) (ds_log s ++ [Called c m p CallOk]) (S (ds_tick s))))
      as Hcall by (unfold attempt, call_method, bind, get; cbn; by rewrite (st_calls _ _ _ St)).
    unfold clock, get, bind. rewrite Hcall.
    unfold keep_write, record_write, when, emit.
    destruct has_history, has_telemetry; (eexists; split; [reflexivity|]);
      intros c' e; cbn [ds_log]; rewrite <- ?app_assoc; rewrite setting_app; reflexivity.
  - unfold bind, clock, get, keep_write, record_write, when, emit.
    destruct has_history, has_telemetry; (eexists; split; [reflexivity|]);
      intros c' e; apply adds_quiet_setting; eexists; cbn [ds_log];
      (split; [by rewrite <- ?app_assoc|repeat constructor]).
Qed.

(** *** The loops over the calls of an action *)

Definition as_calls (c : Connector) (calls : list (string * Params)) : list Effect :=
  (λ call, Called c call.1 call.2 CallOk) <$> filter (λ call, implements c call.1 = true) calls.

Lemma translated_calls_stable c l href o ap ca calls s :
  l ≠ "" →
  ∃ flags s', map_each calls (apply_translated c (Some l) href o ap ca) s = (inr flags, s') ∧
    existsb id flags = negb (gate l o) && existsb (λ call, implements c call.1) calls ∧
    ∀ c' e, setting c' e (ds_log s') =
            if gate l o then foldl (settle c' e) (setting c' e (ds_log s)) (as_calls c calls)
            else setting c' e (ds_log s).
Proof using St.
  intros Hl. revert s. induction calls as [|[m p] calls IH]; intros s.
  { exists [], s. cbn. split; [done|]. rewrite andb_false_r. split; [done|]. by destruct (gate l o). }
  assert (∃ b s1, apply_translated c (Some l) href o ap ca (m, p) s = (inr b, s1) ∧
    b = negb (gate l o) && implements c m ∧
    ∀ c' e, setting c' e (ds_log s1) =
            if gate l o && implements c m
            then settle c' e (setting c' e (ds_log s)) (Called c m p CallOk)
            else setting c' e (ds_log s)) as (b & s1 & Hb & -> & Hs1).
  { unfold apply_translated, implements. cbn [fst snd]. destruct (control_support c m).
    - destruct (apply_one_stable c m p l o (label_of (Some l) href) ap ca s Hl) as (s1 & Hrun & Hset).
      exists (negb (gate l o)), s1. unfold bind. rewrite Hrun, !andb_true_r. auto.
    - exists false, s. by rewrite !andb_false_r.
    - eexists _, _. split; [reflexivity|]. rewrite !andb_false_r. split; [done|].
      intros c' e. cbn [ds_log]. by rewrite setting_app. }
  destruct (IH s1) as (flags & s' & Hrun & Hf & Hset).
  eexists _, s'. cbn [map_each]. unfold bind. rewrite Hb, Hrun. split; [reflexivity|].
  cbn [existsb]. rewrite Hf. unfold as_calls. rewrite filter_cons. cbn [fst]. split.
  - unfold id. by destruct (gate l o), (implements c m), (existsb _ calls).
  - intros c' e. rewrite Hset, Hs1. destruct (gate l o); [|done]. cbn [andb].
    destruct (implements c m); [by rewrite decide_True|by rewrite decide_False].
Qed.

Lemma disable_calls_stable c l label o ca calls s :
  l ≠ "" →
  ∃ s', for_each calls (disable_one c (Some l) label o ca) s = (inr tt, s') ∧
    ∀ c' e, setting c' e (ds_log s') =
            if gate l (origin_name o)
            then foldl (settle c' e) (setting c' e (ds_log s)) (as_calls c calls)
            else setting c' e (ds_log s).
Proof using St.
  intros Hl. revert s. induction calls as [|[m p] calls IH]; intros s.
  { exists s. split; [done|]. intros. by destruct (gate l _). }
  cbn [for_each]. unfold as_calls. rewrite filter_cons. cbn [fst].
  unfold disable_one at 1, bind at 1. cbn [fst snd]. destruct (implements c m) eqn:Ei.
  - destruct (apply_one_stable c m p l (origin_name o) label None ca s Hl) as (s1 & Hrun & Hset).
    destruct (IH s1) as (s' & Hrun' & Hset'). exists s'. unfold bind. rewrite Hrun. cbn.
    split; [exact Hrun'|]. intros c' e. rewrite Hset', Hset. rewrite decide_True by done.
    by destruct (gate l (origin_name o)).
  - rewrite decide_False by done. apply IH.
Qed.

(** The settings after the calls of an action on a connector. *)
Lemma settle_calls c c' e (calls : list (string * Params)) cur :
  NoDup (dict_keys calls) → Forall (λ m, m ∈ BaseConnector_methods) (dict_keys calls) →
  foldl (settle c' e) cur (as_calls c calls) =
  match (if decide (cn_id c = cn_id c')
         then if implements c (method e) then dict_get (method e) calls else None else None) with
  | Some p => Some p | None => cur end.
Proof using.
  unfold dict_keys, as_calls. revert cur.
  induction calls as [|[m p] calls IH]; intros cur; cbn [fmap list_fmap].
  { intros _ _. rewrite filter_nil. cbn. by repeat case_match. }
  intros [Hm Hn]%NoDup_cons [Hd Hds]%Forall_cons. cbn [fst] in *. rewrite filter_cons. cbn [fst].
  assert (dict_get (method e) ((m, p) :: calls) =
          if decide (method e = m) then Some p else dict_get (method e) calls) as -> by done.
  assert (settle c' e cur (Called c m p CallOk) =
          if decide (cn_id c = cn_id c') then if decide (m = method e) then Some p else cur else cur) as Hset.
  { unfold settle, ack. case_decide; [|done]. case_decide; [done|]. rewrite decide_False; [done|].
    intros [-> _]. by apply clear_control_undeclared. }
  destruct (decide (method e = m)) as [<-|Hne].
  - assert (dict_get (method e) calls = None) as Hnone by by apply dict_get_None.
    destruct (implements c (method e)) eqn:Ei.
    + rewrite decide_True by done. cbn [fmap list_fmap foldl fst snd]. rewrite Hset, IH by done.
      rewrite Hnone. repeat case_decide; done.
    + rewrite decide_False by done. by rewrite IH.
  - destruct (implements c m) eqn:Ei.
    + rewrite decide_True by done. cbn [fmap list_fmap foldl fst snd]. rewrite Hset, IH by done.
      rewrite (decide_False (P := m = method e)) by congruence. by destruct (decide (cn_id c = cn_id c')).
    + rewrite decide_False by done. by rewrite IH.
Qed.

(** *** Getting to the connector *)

Lemma warn_unused_quiet c s : ∃ s1, warn_unused_update_methods c s = (inr tt, s1) ∧ adds quiet s s1.
Proof using.
  pose proof (guar_warn_unused quiet (λ _ H, H) c s) as H.
  assert (∃ s1, warn_unused_update_methods c s = (inr tt, s1)) as [s1 Hs1].
  { unfold warn_unused_update_methods, bind, get. destruct (bool_decide _); [by eexists|].
    cbn. destruct (unused_update_methods (class_dir c)); by eexists. }
  exists s1. split; [done|]. by rewrite Hs1 in H.
Qed.

#[local] Arguments warn_unused_update_methods : simpl never.

Lemma resolve_by_lfdi_stable l s :
  ∃ s1, resolve_connector_by_lfdi l s = (inr (snd <$> conns l), s1) ∧ adds quiet s s1.
Proof using St.
  pose proof (guar_resolve_by_lfdi quiet (λ _ H, H) l s) as Hq.
  assert (∃ s1, resolve_connector_by_lfdi l s = (inr (snd <$> conns l), s1)) as [s1 Hs1].
  { unfold resolve_connector_by_lfdi, bind, get.
    rewrite (st_registry _ _ _ St). destruct (conns l) as [[px c]|] eqn:Ec; cbn [fmap option_fmap option_map].
    - unfold lift, ret. cbn [fst]. destruct (bool_decide _); cbn; rewrite (st_resolve _ _ _ St _ _ _ _ Ec);
        match goal with |- context [warn_unused_update_methods ?x ?y] =>
          destruct (warn_unused_quiet x y) as (s2 & -> & _) end; by eexists.
    - unfold lift, ret. destruct (bool_decide _); by eexists. }
  exists s1. split; [done|]. by rewrite Hs1 in Hq.
Qed.

(** What an action does with a connector in hand. *)
Definition body (a : Action) (co : option Connector) (lfdi href : option string) (label : string)
    : D unit :=
  match a with
  | ApplyControl _ derc curves =>
      apply_control_to_connector co derc curves lfdi href (origin_name IEEE2030_5)
  | ApplyDefault _ d curves o k =>
      apply_default_control_to_connector co d curves lfdi href (origin_name o) k
  | DisableModes _ modes k => disable_modes_on_connector co modes lfdi label (Some k)
  | ClearControl _ k => clear_control_on_connector co lfdi label (Some k)
  | _ => ret tt
  end.

Definition is_control (a : Action) : bool := match a with ApplyControl _ _ _ => true | _ => false end.

Lemma body_none a lfdi href label : body a None lfdi href label = ret tt.
Proof using. by destruct a. Qed.

Definition href_of (t : Target) : option string := match t with ByHref h => Some h | ByLfdi _ => None end.
Definition name_of (t : Target) : string := match t with ByHref h => h | ByLfdi l => l end.

(** An action addressed to a device, step by step. *)
Lemma perform_steps a t s :
  target_of a = Some t →
  if takes_controls (target_lfdi hrefs t) then
    match device_of hrefs conns t with
    | Some (l, c) =>
        ∃ s1, adds quiet s s1 ∧ perform a s = body a (Some c) (Some l) (href_of t) (name_of t) s1
    | None => ∃ s1, adds quiet s s1 ∧ perform a s = (inr tt, s1)
    end
  else perform a s =
       (if is_control a then inl (Raised DeviceNotConfiguredError) else inr tt, s).
Proof using St.
  assert (∀ h s, lfdi_resolver (ds_tick s) h = hrefs h) as Hh by (intros; apply (st_hrefs _ _ _ St)).
  assert (∀ l s0, match conns l with
     | Some pc => ∃ s1, adds quiet s0 s1 ∧ ∀ (k : option Connector → D unit),
         (co <- resolve_connector_by_lfdi l ;; k co) s0 = k (Some pc.2) s1
     | None => ∃ s1, adds quiet s0 s1 ∧ ∀ (k : option Connector → D unit),
         (co <- resolve_connector_by_lfdi l ;; k co) s0 = k None s1 end) as Hl.
  { intros l s0. destruct (resolve_by_lfdi_stable l s0) as (s1 & Hr & Hq).
    destruct (conns l) as [pc|]; exists s1; (split; [done|]); intros k; unfold bind; by rewrite Hr. }
  intros Ht. destruct t as [h|l]; cbn [target_lfdi href_of name_of].
  - assert (perform a s =
      if takes_controls (hrefs h)
      then (co <- resolve_connector h ;; lfdi <- resolve_lfdi h ;; body a co lfdi (Some h) h) s
      else (if is_control a then inl (Raised DeviceNotConfiguredError) else inr tt, s)) as ->.
    { destruct a; cbn in Ht; try done; injection Ht as ->; cbn [perform body is_control];
        unfold apply_control, apply_default_control, disable_modes, clear_control, resolve_lfdi at 1,
          skips_meter, refuse_meter, bind at 1, get at 1; rewrite Hh;
        by destruct (takes_controls (hrefs h)). }
    destruct (takes_controls (hrefs h)); [|done]. unfold device_of. cbn [target_lfdi].
    unfold resolve_connector, resolve_lfdi, bind, get. rewrite Hh. destruct (hrefs h) as [l|] eqn:Eh.
    + cbn [mbind option_bind]. specialize (Hl l s). unfold bind in Hl.
      destruct (conns l) as [pc|]; destruct Hl as (s1 & Hq & Hk); cbn [mbind option_bind];
        exists s1; (split; [done|]).
      * rewrite (Hk (λ co s', body a co (lfdi_resolver (ds_tick s') h) (Some h) h s')), Hh, Eh. done.
      * rewrite (Hk (λ co s', body a co (lfdi_resolver (ds_tick s') h) (Some h) h s')). by rewrite body_none.
    + cbn. eexists. split; [|by rewrite body_none]. eexists. split; [done|]. by repeat constructor.
  - assert (perform a s =
      if takes_controls (Some l)
      then (co <- resolve_connector_by_lfdi l ;; body a co (Some l) None l) s
      else (if is_control a then inl (Raised DeviceNotConfiguredError) else inr tt, s)) as ->.
    { destruct a; cbn in Ht; try done; injection Ht as ->; cbn [perform body is_control];
        unfold apply_control_by_lfdi, apply_default_control_by_lfdi, disable_modes_by_lfdi,
          clear_control_by_lfdi, skips_meter, refuse_meter, bind at 1;
        by destruct (takes_controls (Some l)). }
    destruct (takes_controls (Some l)); [|done]. unfold device_of. cbn [target_lfdi mbind option_bind].
    specialize (Hl l s). destruct (conns l) as [pc|]; destruct Hl as (s1 & Hq & Hk);
      cbn [mbind option_bind]; exists s1; (split; [done|]); rewrite Hk; [done|]. by rewrite body_none.
Qed.

(** *** The settings after an action *)

Lemma wanted_calls a c e (calls : list (string * Params)) :
  NoDup (dict_keys calls) → (∀ p, (method e, p) ∈ calls ↔ commanded a e = Some p) →
  (if implements c (method e) then dict_get (method e) calls else None) = wanted a c e.
Proof using.
  intros Hn Hc. unfold wanted. destruct (implements c (method e)); [|done].
  destruct (commanded a e) as [p|] eqn:Ec.
  - apply dict_elem_get; [done|]. by apply Hc.
  - destruct (dict_get (method e) calls) as [p|] eqn:Ed; [|done].
    apply dict_get_elem, Hc in Ed. congruence.
Qed.

Lemma disable_calls_NoDup modes : NoDup (dict_keys (disable_calls modes)).
Proof using.
  unfold disable_calls.
  assert (∀ l calls, dict_wf calls → dict_wf (foldl add_disable_call calls l)) as H;
    [|apply H, NoDup_nil_2].
  induction l as [|x l IH]; intros calls Hc; cbn [foldl]; [done|]. apply IH.
  unfold add_disable_call. destruct (dict_get x FIELD_DISABLE_CALLS) as [mp|]; [|done].
  destruct (dict_mem mp.1 calls); [done|]. by apply dict_set_wf.
Qed.

Lemma DISABLE_CALLS_NoDup : NoDup (dict_keys DISABLE_CALLS).
Proof using.
  unfold dict_keys, DISABLE_CALLS. rewrite <- list_fmap_compose. apply base_elements_methods_NoDup.
Qed.

(** The settings of [e] on the device behind [c'], after the calls on [c]. *)
Definition after_calls (a : Action) (c c' : Connector) (l : string) (e : ControlElement)
    (cur : option Params) : option Params :=
  if gate l (origin_name (origin_of a)) then
    match (if decide (cn_id c = cn_id c') then wanted a c e else None) with
    | Some p => Some p | None => cur end
  else cur.

Lemma body_stable a c l href label s :
  l ≠ "" → is_Some (target_of a) →
  ∃ s', body a (Some c) (Some l) href label s =
        (match a with
         | ApplyControl _ derc curves =>
             if negb (gate l (origin_name IEEE2030_5)) &&
                existsb (λ call, implements c call.1) (translate_controls (dercontrol_base derc) curves)
             then inl (Raised CommandNotPermittedError) else inr tt
         | _ => inr tt
         end, s') ∧
    ∀ c' e, e ∈ ALL_ELEMENTS →
      setting c' e (ds_log s') = after_calls a c c' l e (setting c' e (ds_log s)).
Proof using St.
  intros Hl [t Ht]. unfold after_calls.
  assert (∀ calls, NoDup (dict_keys calls) → Forall (λ m, m ∈ BaseConnector_methods) (dict_keys calls) →
    ∀ e, (∀ p, (method e, p) ∈ calls ↔ commanded a e = Some p) → ∀ c' cur,
    foldl (settle c' e) cur (as_calls c calls) =
    match (if decide (cn_id c = cn_id c') then wanted a c e else None) with
    | Some p => Some p | None => cur end) as Hfold.
  { intros calls Hn Hd e Hc c' cur. rewrite settle_calls by done. case_decide; [|done].
    by rewrite (wanted_calls a). }
  destruct a as [| |t0 derc curves|t0 d curves o k|t0 modes k|t0 k| | |]; try done;
    cbn [body origin_of].
  - unfold apply_control_to_connector.
    destruct (translated_calls_stable c l href (origin_name IEEE2030_5) (Some (m_rid derc))
      (Some (m_rid derc)) (translate_controls (dercontrol_base derc) curves) s Hl)
      as (flags & s' & Hrun & Hf & Hset).
    exists s'. unfold bind. rewrite Hrun, Hf. split; [by destruct (_ && _)|].
    intros c' e He. rewrite Hset. destruct (gate l _); [|done]. apply Hfold.
    + eapply sublist_NoDup; [apply base_elements_methods_NoDup|apply translate_methods].
    + apply sublist_declared. etrans; [apply translate_methods|apply base_methods_declared].
    + intros p. by apply control_calls_spec.
  - unfold apply_default_control_to_connector.
    destruct (translated_calls_stable c l href (origin_name o) (Some (dd_mrid d)) k
      (translate_default_controls d curves) s Hl) as (flags & s' & Hrun & _ & Hset).
    exists s'. unfold bind. rewrite Hrun. split; [done|].
    intros c' e He. rewrite Hset. destruct (gate l _); [|done]. apply Hfold.
    + eapply sublist_NoDup; [apply declared_methods_NoDup|apply translate_default_methods].
    + apply sublist_declared, translate_default_methods.
    + intros p. by apply default_calls_spec.
  - unfold disable_modes_on_connector.
    destruct (disable_calls_stable c l label EVENT_END (Some k) (disable_calls modes) s Hl)
      as (s' & Hrun & Hset).
    exists s'. split; [done|]. intros c' e He. rewrite Hset. destruct (gate l _); [|done].
    apply Hfold; [apply disable_calls_NoDup|apply disable_calls_declared|].
    intros p. by apply disable_calls_element.
  - unfold clear_control_on_connector. destruct (native_clear c).
    + destruct (apply_one_stable c "clear_control" [] l (origin_name COMMS_LOSS) label None (Some k) s Hl)
        as (s' & Hrun & Hset).
      exists s'. unfold bind. rewrite Hrun. split; [done|]. intros c' e He. rewrite Hset.
      destruct (gate l _); [|done]. unfold settle, ack, wanted. cbn [commanded].
      case_decide; [|done]. rewrite decide_False.
      2:{ intros Hm. apply clear_control_undeclared. rewrite Hm. by apply method_declared. }
      destruct (implements c (method e)).
      * destruct (decide (e ∈ CONTROL_ELEMENTS ++ DOE_ELEMENTS));
          [by rewrite decide_True|by rewrite decide_False by tauto].
      * rewrite decide_False; [done|]. by intros (_ & _ & [=]).
    + destruct (disable_calls_stable c l label COMMS_LOSS (Some k) DISABLE_CALLS s Hl)
        as (s' & Hrun & Hset).
      exists s'. split; [done|]. intros c' e He. rewrite Hset. destruct (gate l _); [|done].
      apply Hfold; [apply DISABLE_CALLS_NoDup|apply DISABLE_CALLS_declared|].
      intros p. by apply clear_calls_spec.
Qed.

Lemma device_of_conns t l c : device_of hrefs conns t = Some (l, c) → ∃ px, conns l = Some (px, c).
Proof using.
  unfold device_of. destruct (target_lfdi hrefs t) as [l0|]; cbn; [|done].
  destruct (conns l0) as [[px c0]|] eqn:Ec; cbn; [|done]. intros [= <- <-]. by exists px.
Qed.

(** One action refines one step of the abstract device, on every device. *)
Lemma perform_refines a t c s :
  target_of a = Some t → (∃ l px, conns l = Some (px, c)) →
  (perform a s).1 = match spec_result hrefs conns gate a with
                    | Some err => inl (Raised err) | None => inr tt end ∧
  ∀ e, e ∈ ALL_ELEMENTS →
    setting c e (ds_log (perform a s).2) =
    spec_step hrefs conns gate c (λ e, setting c e (ds_log s)) a e.
Proof using St.
  intros Ht (lc & pxc & Hc). pose proof (perform_steps a t s Ht) as Hsteps.
  unfold spec_step, reaches. rewrite Ht. cbn [mbind option_bind].
  destruct (device_of hrefs conns t) as [[l c']|] eqn:Ed.
  - assert (target_lfdi hrefs t = Some l) as Htl.
    { unfold device_of in Ed. destruct (target_lfdi hrefs t) as [l0|]; cbn in Ed; [|done].
      destruct (conns l0); cbn in Ed; [|done]. by injection Ed as <-. }
    destruct (device_of_conns t l c' Ed) as [px Hl].
    rewrite Htl in Hsteps. destruct (takes_controls (Some l)) eqn:Etc.
    + destruct Hsteps as (s1 & Hq & ->).
      destruct (body_stable a c' l (href_of t) (name_of t) s1 (st_named _ _ _ St _ _ Hl)
        (ex_intro _ t Ht)) as (s' & -> & Hset). cbn [fst snd]. split.
      * destruct a; cbn in Ht; try done; injection Ht as ->; cbn [spec_result]; [|done..].
        rewrite Htl, Etc, Ed. cbn [negb]. by destruct (_ && _).
      * intros e He. rewrite Hset, (adds_quiet_setting _ _ _ _ Hq) by done. unfold after_calls.
        rewrite andb_true_r. case_decide as Hid.
        -- rewrite (bool_decide_true _ Hid). cbn [andb].
           by rewrite (st_ids _ _ _ St _ _ _ _ _ _ Hl Hc Hid).
        -- rewrite (bool_decide_false _ Hid). cbn [andb]. by destruct (gate l _).
    + rewrite Hsteps. cbn [fst snd]. split; [|intros e _; by rewrite andb_false_r].
      destruct a; cbn in Ht; try done; injection Ht as ->; cbn [spec_result is_control]; [|done..].
      by rewrite Htl, Etc.
  - destruct (takes_controls (target_lfdi hrefs t)) eqn:Etc.
    + destruct Hsteps as (s1 & Hq & ->). cbn [fst snd]. split; [|intros; by apply adds_quiet_setting].
      destruct a; cbn in Ht; try done; injection Ht as ->; cbn [spec_result]; [|done..].
      by rewrite Etc, Ed.
    + rewrite Hsteps. cbn [fst snd]. split; [|done].
      destruct a; cbn in Ht; try done; injection Ht as ->; cbn [spec_result is_control]; [|done..].
      by rewrite Etc.
Qed.

(** An action without a device leaves every setting alone. *)
Lemma perform_other a s c e :
  target_of a = None → setting c e (ds_log (perform a s).2) = setting c e (ds_log s).
Proof using.
  intros Ht. apply adds_quiet_setting. destruct a; cbn in Ht; try done; cbn [perform];
    try (apply guar_ret; apply _). by apply guar_relay.
Qed.

Lemma perform_all_refines acts c s e :
  (∃ l px, conns l = Some (px, c)) → e ∈ ALL_ELEMENTS →
  setting c e (ds_log (perform_all acts s)) =
  foldl (spec_step hrefs conns gate c) (λ e, setting c e (ds_log s)) acts e.
Proof using St.
  intros Hc He.
  assert (∀ (d d' : ControlElement → option Params), (∀ e, e ∈ ALL_ELEMENTS → d e = d' e) → ∀ acts e, e ∈ ALL_ELEMENTS →
    foldl (spec_step hrefs conns gate c) d acts e = foldl (spec_step hrefs conns gate c) d' acts e) as Hext.
  { intros d d' Hd acts'. revert d d' Hd. induction acts' as [|a acts' IH]; intros d d' Hd e0 He0; [auto|].
    cbn [foldl]. apply IH; [|done]. intros e1 He1. unfold spec_step. by rewrite (Hd e1 He1). }
  revert s. induction acts as [|a acts IH]; intros s; [done|]. cbn [perform_all foldl].
  rewrite IH. apply Hext; [|done]. intros e0 He0. destruct (target_of a) as [t|] eqn:Ht.
  - by apply (perform_refines a t c s Ht Hc).
  - rewrite (perform_other a s c e0 Ht). unfold spec_step, reaches. by rewrite Ht.
Qed.
End Stable.
