(* ===== verification/Registry.v ===== *)
(** * The connector registry (connectors/registry.py)

    [ConnectorConfigRegistry] maps a device's LFDI, whatever its case, to one
    [LazyConnectorProxy], which constructs the connector on first use.  The
    construction runs on a worker thread, behind a lock per proxy; the callers
    of [aresolve] are tasks of a state machine whose steps lie between awaits.
    Instants are in milliseconds of the monotonic clock. *)

From S2P Require Import Prelude Modes.

(** ** Lookup *)

(** [str.lower()] on ASCII text. *)
Fixpoint lower (s : string) : string :=
  match s with EmptyString => EmptyString | String c s' => String (to_lower c) (lower s') end.

(** A device's configuration: its role, when the model has one, and whether its
    type names a connector this package or a resolver knows. *)
Record DeviceConfig := { dc_role : option string; dc_known : bool }.

Record Registry := { rg_configs : dict string DeviceConfig; rg_proxies : dict string nat }.

Definition new_registry (devices : list (string * DeviceConfig)) : Registry :=
  {| rg_configs := foldl (λ d lc, dict_set lc.1 lc.2 d) [] devices; rg_proxies := [] |}.

Definition canonical_lfdi (r : Registry) (lfdi : string) : option string :=
  if dict_mem lfdi (rg_configs r) then Some lfdi
  else head (filter (λ stored, lower stored = lower lfdi) (dict_keys (rg_configs r))).

Definition registry_role_of (r : Registry) (lfdi : string) : string :=
  match canonical_lfdi r lfdi with
  | None => "der"
  | Some c => default "der" (cfg ← dict_get c (rg_configs r); dc_role cfg)
  end.

Inductive RegistryError := ConnectorRegistryError.

(** The proxy's number, freshly numbered when it is built; the registry. *)
Definition get_connector (lfdi : string) (r : Registry) : (RegistryError + option nat) * Registry :=
  match canonical_lfdi r lfdi with
  | None => (inr None, r)
  | Some c =>
      match dict_get c (rg_proxies r) with
      | Some px => (inr (Some px), r)
      | None =>
          if default false (dc_known <$> dict_get c (rg_configs r)) then
            let px := length (rg_proxies r) in
            (inr (Some px), {| rg_configs := rg_configs r; rg_proxies := dict_set c px (rg_proxies r) |})
          else (inl ConnectorRegistryError, r)
      end
  end.

(** ** The lazy proxy *)

Definition PERMANENT_FAILURE_TTL : Z := 300 * 1000.

(** How a construction ends: a connector (by identity), or an exception that is
    permanent or not. *)
Inductive Built := Instance_ (id : nat) | Failed_ (permanent : bool) (error : string).

(** Where a caller of [aresolve] is. *)
Inductive Caller :=
  | Waits                            (* for the lock *)
  | Constructs                       (* its worker thread runs the factory *)
  | HasResult (b : Built)            (* the thread has ended, the caller has not resumed *)
  | Got (id : nat)
  | Raises (error : string)
  | Gone.                            (* cancelled *)

Record Proxy := mkProxy {
  px_instance : option nat;
  px_failure : option (string * Z);      (* the cached failure and when *)
  px_lock : option nat;                  (* the caller that holds it *)
  px_callers : list Caller;
  px_threads : list nat;                 (* factory runs in progress, by caller *)
  px_started : list Z;                   (* when the factory was started, latest first *)
}.

Definition new_proxy : Proxy := mkProxy None None None [] [] [].

Definition set_caller (i : nat) (c : Caller) (p : Proxy) : Proxy :=
  mkProxy (px_instance p) (px_failure p) (px_lock p) (<[i := c]> (px_callers p)) (px_threads p)
    (px_started p).
Definition set_lock (l : option nat) (p : Proxy) : Proxy :=
  mkProxy (px_instance p) (px_failure p) l (px_callers p) (px_threads p) (px_started p).
Definition set_failure (f : option (string * Z)) (p : Proxy) : Proxy :=
  mkProxy (px_instance p) f (px_lock p) (px_callers p) (px_threads p) (px_started p).

(** [_check_cached_permanent_failure]: the error to re-raise, and the cache. *)
Definition check_cached_failure (now : Z) (p : Proxy) : option string * Proxy :=
  match px_failure p with
  | None => (None, p)
  | Some (e, at_ts) =>
      if now - at_ts <? PERMANENT_FAILURE_TTL then (Some e, p) else (None, set_failure None p)
  end.

(** With the lock in hand: the second check, then the worker thread. *)
Definition enter_lock (i : nat) (now : Z) (p : Proxy) : Proxy :=
  match px_instance p with
  | Some id => set_caller i (Got id) p
  | None =>
      match check_cached_failure now p with
      | (Some e, p') => set_caller i (Raises e) p'
      | (None, p') =>
          let p' := set_caller i Constructs p' in
          mkProxy (px_instance p') (px_failure p') (Some i) (px_callers p') (i :: px_threads p')
            (now :: px_started p')
      end
  end.

(** A new caller, up to its first await. *)
Definition aresolve_start (now : Z) (p : Proxy) : Proxy :=
  let i := length (px_callers p) in
  let add c p := mkProxy (px_instance p) (px_failure p) (px_lock p) (px_callers p ++ [c]) (px_threads p)
                   (px_started p) in
  match px_instance p with
  | Some id => add (Got id) p
  | None =>
      match check_cached_failure now p with
      | (Some e, p') => add (Raises e) p'
      | (None, p') =>
          match px_lock p' with
          | None => enter_lock i now (add Waits p')
          | Some _ => add Waits p'
          end
      end
  end.

(** [resolve] on the worker thread has run the factory: the proxy keeps the
    instance, or a permanent failure. *)
Definition thread_ends (i : nat) (now : Z) (b : Built) (p : Proxy) : Proxy :=
  let callers := alter (λ c, match c with Constructs => HasResult b | _ => c end) i (px_callers p) in
  let threads := filter (λ j, j ≠ i) (px_threads p) in
  match b with
  | Instance_ id => mkProxy (Some id) (px_failure p) (px_lock p) callers threads (px_started p)
  | Failed_ permanent e =>
      mkProxy (px_instance p) (if permanent then Some (e, now) else px_failure p) (px_lock p)
        callers threads (px_started p)
  end.

(** The caller resumes with the outcome of its thread and lets the lock go. *)
Definition caller_result (b : Built) : Caller :=
  match b with Instance_ id => Got id | Failed_ _ e => Raises e end.

Definition resumes (i : nat) (b : Built) (p : Proxy) : Proxy :=
  set_lock None (set_caller i (caller_result b) p).

(** A caller is cancelled: it unwinds and lets the lock go.  A thread it started
    goes on, since [asyncio.to_thread] cannot stop it. *)
Definition cancel_caller (i : nat) (p : Proxy) : Proxy :=
  let p' := set_caller i Gone p in
  if decide (px_lock p = Some i) then set_lock None p' else p'.

(** Steps without cancellation. *)
Inductive pstep : Proxy → Proxy → Prop :=
  | pstep_start p now : pstep p (aresolve_start now p)
  | pstep_grant p i now :
      px_callers p !! i = Some Waits → px_lock p = None → pstep p (enter_lock i now p)
  | pstep_thread p i now b :
      px_callers p !! i = Some Constructs → i ∈ px_threads p → pstep p (thread_ends i now b p)
  | pstep_resume p i b :
      px_callers p !! i = Some (HasResult b) → pstep p (resumes i b p).

(** Steps with cancellation: a thread may outlive its caller. *)
Inductive pstep_any : Proxy → Proxy → Prop :=
  | pany_step p p' : pstep p p' → pstep_any p p'
  | pany_cancel p i c :
      px_callers p !! i = Some c → c = Waits ∨ c = Constructs → pstep_any p (cancel_caller i p)
  | pany_orphan p i now b :
      px_callers p !! i = Some Gone → i ∈ px_threads p → pstep_any p (thread_ends i now b p).

(** ** Lookup: one proxy per device, whatever the spelling *)

Lemma canonical_configured r lfdi c :
  canonical_lfdi r lfdi = Some c → c ∈ dict_keys (rg_configs r) ∧ lower c = lower lfdi.
Proof.
  unfold canonical_lfdi. destruct (dict_mem lfdi (rg_configs r)) eqn:E.
  - intros [= <-]. by apply dict_mem_spec in E.
  - intros H. destruct (filter _ _) as [|x l] eqn:Ef; [done|]. injection H as ->.
    assert (c ∈ c :: l) as Hc by left. rewrite <- Ef in Hc. by apply list_elem_of_filter in Hc as [? ?].
Qed.

(** The proxy found for one spelling is the one found for every spelling that
    names the same device, from then on. *)
Lemma same_proxy_any_spelling r r' l l' px :
  get_connector l r = (inr (Some px), r') → canonical_lfdi r l' = canonical_lfdi r l →
  get_connector l' r' = (inr (Some px), r').
Proof.
  unfold get_connector. destruct (canonical_lfdi r l) as [c|]; [|done].
  destruct (dict_get c (rg_proxies r)) as [px'|] eqn:Ep.
  - intros [= <- <-] ->. by rewrite Ep.
  - destruct (default _ _); [|done]. intros [= <- <-] Hc.
    change (canonical_lfdi {| rg_configs := rg_configs r; rg_proxies := _ |} l') with (canonical_lfdi r l').
    rewrite Hc. cbn [rg_proxies]. by rewrite dict_get_set_eq.
Qed.

(** ** The invariant of a proxy without cancellation *)

Definition holds_lock (c : Caller) : Prop :=
  match c with Constructs | HasResult _ => True | _ => False end.

Definition has_id (c : Caller) : option nat :=
  match c with Got id | HasResult (Instance_ id) => Some id | _ => None end.

Record proxy_wf (p : Proxy) : Prop := {
  pw_lock : ∀ i c, px_callers p !! i = Some c → holds_lock c → px_lock p = Some i;
  pw_held : ∀ i, px_lock p = Some i → ∃ c, px_callers p !! i = Some c ∧ holds_lock c;
  pw_threads : ∀ i, i ∈ px_threads p ↔ px_callers p !! i = Some Constructs;
  pw_ids : ∀ i c id, px_callers p !! i = Some c → has_id c = Some id → px_instance p = Some id;
  pw_built : px_instance p ≠ None → px_threads p = [];
}.

Lemma proxy_wf_new : proxy_wf new_proxy.
Proof.
  split; cbn; try done.
  intros i. by rewrite elem_of_nil.
Qed.

Lemma check_cached_keeps now p o p' :
  check_cached_failure now p = (o, p') →
  px_instance p' = px_instance p ∧ px_lock p' = px_lock p ∧ px_callers p' = px_callers p ∧
  px_threads p' = px_threads p ∧ px_started p' = px_started p.
Proof. unfold check_cached_failure. repeat case_match; intros [= <- <-]; auto. Qed.

(** Changes that keep lock, threads and instance, and one caller's step outside
    the lock. *)
Lemma proxy_wf_callers p p' :
  proxy_wf p →
  px_lock p' = px_lock p → px_threads p' = px_threads p → px_instance p' = px_instance p →
  (∀ i c, px_callers p' !! i = Some c → px_callers p !! i = Some c ∨
     (¬ holds_lock c ∧ px_lock p ≠ Some i ∧ ∀ id, has_id c = Some id → px_instance p = Some id)) →
  (∀ i c, px_callers p !! i = Some c → holds_lock c → px_callers p' !! i = Some c) →
  proxy_wf p'.
Proof.
  intros [Hl Hh Ht Hi Hb] El Et Ei Hback Hfwd. split; rewrite ?El, ?Et, ?Ei.
  - intros i c [H|(Hn & _)]%Hback Hc; [by eapply Hl|done].
  - intros i (c & Hc & Hk)%Hh. eauto.
  - intros i. rewrite Ht. split; [intros H; by apply Hfwd|].
    intros [H|(Hn & _)]%Hback; [done|]. by cbn in Hn.
  - intros i c id [H|(_ & _ & H)]%Hback Hc; [by eapply Hi|auto].
  - done.
Qed.

Lemma lookup_set_caller i c p j :
  px_callers (set_caller i c p) !! j =
  if decide (i = j) then (λ _, c) <$> px_callers p !! j else px_callers p !! j.
Proof.
  cbn [set_caller px_callers]. rewrite list_lookup_insert. case_decide as H.
  - destruct H as [-> Hlt]. rewrite decide_True by done. by apply lookup_lt_is_Some in Hlt as [? ->].
  - case_decide as Hij; [subst j|done]. rewrite lookup_ge_None_2; [done|].
    destruct (decide (i < length (px_callers p))%nat); [tauto|lia].
Qed.

(** A free lock means nobody is constructing. *)
Lemma free_lock p : proxy_wf p → px_lock p = None →
  px_threads p = [] ∧ ∀ i c, px_callers p !! i = Some c → ¬ holds_lock c.
Proof.
  intros [Hl Hh Ht Hi Hb] Hfree.
  assert (∀ i c, px_callers p !! i = Some c → ¬ holds_lock c) as Hno
    by (intros i c Hc Hk; specialize (Hl i c Hc Hk); congruence).
  split; [|done]. destruct (px_threads p) as [|i l]; [done|].
  assert (px_callers p !! i = Some Constructs) as Hc by (apply Ht; left). by apply Hno in Hc.
Qed.

(** One caller that does not hold the lock, and will not, changes. *)
Lemma proxy_wf_set p i c0 c :
  proxy_wf p → px_callers p !! i = Some c0 → ¬ holds_lock c0 → ¬ holds_lock c →
  (∀ id, has_id c = Some id → px_instance p = Some id) → proxy_wf (set_caller i c p).
Proof.
  intros Hwf Hi H0 Hc Hid. apply (proxy_wf_callers p); [done..| |].
  - intros j c'. rewrite lookup_set_caller. case_decide as Hij; [subst j|auto].
    rewrite Hi. intros [= <-]. right. split; [done|]. split; [|done].
    intros Hl. destruct (pw_held _ Hwf _ Hl) as (c1 & ? & ?). by simplify_eq.
  - intros j c' Hj Hk. rewrite lookup_set_caller. case_decide; [|done]. by simplify_eq.
Qed.

Lemma enter_lock_wf p i now :
  proxy_wf p → px_callers p !! i = Some Waits → px_lock p = None → proxy_wf (enter_lock i now p).
Proof.
  intros Hwf Hi Hfree. unfold enter_lock. destruct (px_instance p) as [id|] eqn:Ein.
  { apply (proxy_wf_set p i Waits); [done|done|cbn; tauto|cbn; tauto|]. by intros id' [= <-]. }
  destruct (check_cached_failure now p) as [[e|] p'] eqn:Ec;
    destruct (check_cached_keeps _ _ _ _ Ec) as (E1 & E2 & E3 & E4 & E5).
  - assert (proxy_wf p') as Hwf'
      by (apply (proxy_wf_callers p); rewrite ?E3; auto).
    apply (proxy_wf_set p' i Waits); [done|by rewrite E3|cbn; tauto|cbn; tauto|done].
  - destruct (free_lock p Hwf Hfree) as [Hthreads Hno].
    assert (∀ j c, px_callers (set_caller i Constructs p') !! j = Some c →
              (j = i ∧ c = Constructs) ∨ (j ≠ i ∧ px_callers p !! j = Some c)) as Hlook.
    { intros j c. rewrite lookup_set_caller, E3. case_decide as Hij; [subst j|auto].
      rewrite Hi. intros [= <-]. auto. }
    assert (px_callers (set_caller i Constructs p') !! i = Some Constructs) as Hself
      by (by rewrite lookup_set_caller, decide_True, E3, Hi).
    split; cbn [px_lock px_callers px_threads px_instance px_started]; change (px_threads (set_caller i Constructs p')) with (px_threads p');
      change (px_instance (set_caller i Constructs p')) with (px_instance p');
      rewrite ?E1, ?E4, ?Hthreads, ?Ein.
    + intros j c [[-> ->]|[_ Hj]]%Hlook Hk; [done|]. by apply Hno in Hj.
    + intros j [= <-]. eexists. split; [exact Hself|done].
    + intros j. rewrite list_elem_of_singleton. split; [intros ->; exact Hself|].
      intros [[-> _]|[_ Hj]]%Hlook; [done|]. by apply Hno in Hj.
    + intros j c id [[-> ->]|[_ Hj]]%Hlook Hid; [done|].
      rewrite <- Ein. by eapply (pw_ids _ Hwf).
    + done.
Qed.

Lemma aresolve_start_wf p now : proxy_wf p → proxy_wf (aresolve_start now p).
Proof.
  intros Hwf. unfold aresolve_start.
  assert (∀ c q, proxy_wf q → ¬ holds_lock c → (∀ id, has_id c = Some id → px_instance q = Some id) →
    proxy_wf (mkProxy (px_instance q) (px_failure q) (px_lock q) (px_callers q ++ [c]) (px_threads q) (px_started q)))
    as Hadd.
  { intros c q Hq Hc Hid. apply (proxy_wf_callers q); [done..| |].
    - intros i c'. cbn. rewrite lookup_app_Some. intros [H|[Hge H]]; [auto|right].
      apply list_lookup_singleton_Some in H as [Hi <-]. split; [done|]. split; [|done].
      intros Hl. destruct (pw_held _ Hq _ Hl) as (c1 & H1%lookup_lt_Some & _). lia.
    - intros i c' H _. cbn. by apply lookup_app_l_Some. }
  destruct (px_instance p) as [id|] eqn:Ein.
  { rewrite <- Ein. apply Hadd; [done|cbn; tauto|]. by intros id' [= <-]. }
  destruct (check_cached_failure now p) as [[e|] p'] eqn:Ec;
    destruct (check_cached_keeps _ _ _ _ Ec) as (E1 & E2 & E3 & E4 & E5);
    assert (proxy_wf p') as Hwf' by (apply (proxy_wf_callers p); rewrite ?E3; auto).
  - apply Hadd; [done|cbn; tauto|done].
  - destruct (px_lock p') eqn:El.
    + rewrite <- El. apply Hadd; [done|cbn; tauto|done].
    + rewrite <- El. apply enter_lock_wf; [apply Hadd; [done|cbn; tauto|done]| |done].
      cbn. rewrite <- E3. rewrite lookup_app_r by lia. by rewrite Nat.sub_diag.
Qed.

Lemma thread_ends_wf p i now b :
  proxy_wf p → px_callers p !! i = Some Constructs → proxy_wf (thread_ends i now b p).
Proof.
  intros Hwf Hi. destruct Hwf as [Hl Hh Ht Hid Hb].
  assert (px_lock p = Some i) as Hlock by (by eapply Hl).
  assert (px_instance p = None) as Hnone.
  { destruct (px_instance p); [|done]. assert (i ∈ px_threads p) as Hin by (by apply Ht).
    rewrite Hb in Hin by done. by apply elem_of_nil in Hin. }
  set (callers := alter (λ c, match c with Constructs => HasResult b | _ => c end) i (px_callers p)).
  assert (∀ j c, callers !! j = Some c →
            (j = i ∧ c = HasResult b) ∨ (j ≠ i ∧ px_callers p !! j = Some c)) as Hlook.
  { intros j c. unfold callers. rewrite list_lookup_alter. case_decide as Hij; [subst j|auto].
    rewrite Hi. intros [= <-]. auto. }
  assert (callers !! i = Some (HasResult b)) as Hself
    by (unfold callers; by rewrite list_lookup_alter, decide_True, Hi).
  assert (∀ j, px_callers p !! j = Some Constructs → j = i) as Honly.
  { intros j Hj. assert (px_lock p = Some j) by (by eapply Hl). congruence. }
  assert (filter (λ j, j ≠ i) (px_threads p) = []) as Hthreads.
  { apply filter_none. intros j Hj%Ht Hne. by apply Hne, Honly. }
  assert (∀ j c id, callers !! j = Some c → has_id c = Some id → b = Instance_ id) as Hids.
  { intros j c id [[-> ->]|[Hne Hj]]%Hlook Hc; [by destruct b; [injection Hc as ->|]|].
    assert (px_instance p = Some id) by (by eapply Hid). congruence. }
  assert (∀ j, j ∈ [] ↔ callers !! j = Some Constructs) as Hnoc.
  { intros j. rewrite elem_of_nil. split; [done|]. intros [[_ [=]]|[Hne Hj]]%Hlook. by apply Hne, Honly. }
  unfold thread_ends. fold callers.
  destruct b as [id|perm e]; split; cbn [px_lock px_callers px_threads px_instance]; rewrite ?Hthreads; try done.
  - intros j c [[-> ->]|[Hne Hj]]%Hlook Hk; [done|]. by eapply Hl.
  - intros j [= <-]%(eq_trans (eq_sym Hlock)). by eexists.
  - intros j c id' Hj Hc. assert (Instance_ id = Instance_ id') as [= ->] by (by eapply Hids). done.
  - intros j c [[-> ->]|[Hne Hj]]%Hlook Hk; [done|]. by eapply Hl.
  - intros j [= <-]%(eq_trans (eq_sym Hlock)). by eexists.
  - intros j c id' Hj Hc. by assert (Failed_ perm e = Instance_ id') by (by eapply Hids).
Qed.

Lemma resumes_wf p i b :
  proxy_wf p → px_callers p !! i = Some (HasResult b) → proxy_wf (resumes i b p).
Proof.
  intros [Hl Hh Ht Hid Hb] Hi. assert (px_lock p = Some i) as Hlock by (by eapply Hl).
  assert (∀ j c, px_callers (set_caller i (caller_result b) p) !! j = Some c →
            (j = i ∧ c = caller_result b) ∨ (j ≠ i ∧ px_callers p !! j = Some c)) as Hlook.
  { intros j c. rewrite lookup_set_caller. case_decide as Hij; [subst j|auto].
    rewrite Hi. intros [= <-]. auto. }
  assert (∀ j c, px_callers p !! j = Some c → holds_lock c → j = i) as Honly.
  { intros j c Hj Hk. assert (px_lock p = Some j) by (by eapply Hl). congruence. }
  split; unfold resumes; cbn [set_lock px_lock px_callers px_threads px_instance];
    change (px_threads (set_caller i (caller_result b) p)) with (px_threads p);
    change (px_instance (set_caller i (caller_result b) p)) with (px_instance p).
  - intros j c [[-> ->]|[Hne Hj]]%Hlook Hk; [by destruct b|]. by edestruct Hne; eauto.
  - done.
  - intros j. rewrite Ht. split.
    + intros Hj. assert (j = i) as -> by (by eapply Honly). by rewrite Hi in Hj.
    + intros [[-> Hr]|[Hne Hj]]%Hlook; [by destruct b|done].
  - intros j c id [[-> ->]|[Hne Hj]]%Hlook Hc; [|by eapply Hid].
    apply (Hid i (HasResult b)); [done|]. by destruct b.
  - done.
Qed.

Lemma pstep_wf p p' : proxy_wf p → pstep p p' → proxy_wf p'.
Proof.
  intros Hwf Hs. destruct Hs; eauto using aresolve_start_wf, enter_lock_wf, thread_ends_wf, resumes_wf.
Qed.

Lemma rtc_proxy_wf p : rtc pstep new_proxy p → proxy_wf p.
Proof.
  intros H. remember new_proxy as p0 eqn:E. assert (proxy_wf p0) as H0 by (subst; apply proxy_wf_new).
  clear E. induction H; eauto using pstep_wf.
Qed.

(** ** When the factory is started *)

Lemma check_cached_expired now p p' :
  check_cached_failure now p = (None, p') →
  ∀ e t, px_failure p = Some (e, t) → PERMANENT_FAILURE_TTL <= now - t.
Proof.
  unfold check_cached_failure. destruct (px_failure p) as [[e t]|]; [|done].
  destruct (now - t <? _) eqn:E; [done|]. intros _ e' t' [= <- <-]. apply Z.ltb_ge in E. lia.
Qed.

Lemma enter_lock_starts i now p :
  px_started (enter_lock i now p) = px_started p ∨
  (px_started (enter_lock i now p) = now :: px_started p ∧ px_instance p = None ∧
   ∀ e t, px_failure p = Some (e, t) → PERMANENT_FAILURE_TTL <= now - t).
Proof.
  unfold enter_lock. destruct (px_instance p) eqn:Ein; [by left|].
  destruct (check_cached_failure now p) as [[e|] p'] eqn:Ec;
    destruct (check_cached_keeps _ _ _ _ Ec) as (_ & _ & _ & _ & E5).
  - left. by rewrite <- E5.
  - right. cbn. rewrite E5. split; [done|]. split; [done|]. by eapply check_cached_expired.
Qed.

Lemma pstep_starts p p' :
  pstep p p' →
  px_started p' = px_started p ∨
  ∃ now, px_started p' = now :: px_started p ∧ px_instance p = None ∧
         ∀ e t, px_failure p = Some (e, t) → PERMANENT_FAILURE_TTL <= now - t.
Proof.
  intros Hs. destruct Hs as [p now|p i now Hc Hl|p i now b Hc Hi|p i b Hc].
  - unfold aresolve_start. destruct (px_instance p) eqn:Ein; [by left|].
    destruct (check_cached_failure now p) as [[e|] p'] eqn:Ec;
      destruct (check_cached_keeps _ _ _ _ Ec) as (E1 & _ & _ & _ & E5); [by left|].
    destruct (px_lock p'); [by left|].
    match goal with |- context [enter_lock ?i now ?q] =>
      destruct (enter_lock_starts i now q) as [H|(H & H1 & H2)] end;
      [left; by rewrite H|right; exists now]. cbn in H |- *. rewrite H. split; [by rewrite E5|].
    split; [done|]. by eapply check_cached_expired.
  - destruct (enter_lock_starts i now p) as [H|(H & H1 & H2)]; [by left|right; eauto].
  - left. by destruct b.
  - by left.
Qed.

Lemma pstep_instance p p' id :
  proxy_wf p → pstep p p' → px_instance p = Some id → px_instance p' = Some id.
Proof.
  intros Hwf Hs Hid. destruct Hs as [p now|p i now Hc Hl|p i now b Hc Hi|p i b Hc].
  - unfold aresolve_start. by rewrite Hid.
  - unfold enter_lock. by rewrite Hid.
  - exfalso. rewrite (pw_built _ Hwf) in Hi by congruence. by apply elem_of_nil in Hi.
  - done.
Qed.

(** However many callers race for a connector that does not exist yet, and
    as long as none of them is cancelled: the factory never runs twice at once,
    everyone who gets a connector gets the same one, once it exists it is never
    constructed again, and after a permanent failure the device is left alone
    for 300 s. *)
Theorem connector_constructed_once (p : Proxy) :
  rtc pstep new_proxy p →
  (∀ i j, px_callers p !! i = Some Constructs → px_callers p !! j = Some Constructs → i = j) ∧
  (∀ i j a b, px_callers p !! i = Some (Got a) → px_callers p !! j = Some (Got b) → a = b) ∧
  (∀ p', pstep p p' →
     (∀ id, px_instance p = Some id → px_instance p' = Some id ∧ px_started p' = px_started p) ∧
     (px_started p' ≠ px_started p → ∃ now, px_started p' = now :: px_started p ∧
        ∀ e t, px_failure p = Some (e, t) → PERMANENT_FAILURE_TTL <= now - t)).
Proof.
  intros Hwf%rtc_proxy_wf. split_and!.
  - intros i j Hi Hj.
    pose proof (pw_lock _ Hwf i _ Hi I). pose proof (pw_lock _ Hwf j _ Hj I). congruence.
  - intros i j a b Hi Hj.
    pose proof (pw_ids _ Hwf i _ a Hi eq_refl). pose proof (pw_ids _ Hwf j _ b Hj eq_refl). congruence.
  - intros p' Hs. pose proof (pstep_starts _ _ Hs) as Hst. split.
    + intros id Hid. split; [by eapply pstep_instance|].
      destruct Hst as [?|(now & _ & Hn & _)]; [done|congruence].
    + intros Hne. destruct Hst as [?|(now & H & _ & Hf)]; [done|eauto].
Qed.

Lemma connector_constructed_once_witness :
  let p := thread_ends 0 5000 (Instance_ 7) (aresolve_start 1500 (aresolve_start 1000 new_proxy)) in
  px_callers p = [HasResult (Instance_ 7); Waits] ∧
  px_started (enter_lock 1 6000 (resumes 0 (Instance_ 7) p)) = px_started p ∧ px_started p = [1000].
Proof.
  cbn zeta.
  set (p := resumes 0 (Instance_ 7)
              (thread_ends 0 5000 (Instance_ 7) (aresolve_start 1500 (aresolve_start 1000 new_proxy)))).
  assert (rtc pstep new_proxy p) as Hr.
  { eapply rtc_l; [apply (pstep_start _ 1000)|]. eapply rtc_l; [apply (pstep_start _ 1500)|].
    eapply rtc_l; [apply (pstep_thread _ 0 5000 (Instance_ 7)); [reflexivity|]|].
    - apply (bool_decide_unpack _). vm_compute. exact I.
    - eapply rtc_l; [apply (pstep_resume _ 0 (Instance_ 7)); reflexivity|]. apply rtc_refl. }
  split; [vm_compute; reflexivity|]. split; [|vm_compute; reflexivity].
  apply (proj2 (proj2 (connector_constructed_once p Hr)) (enter_lock 1 6000 p)
           (pstep_grant p 1 6000 eq_refl eq_refl)) with (id := 7%nat).
  reflexivity.
Defined.

(** ** A cancelled caller *)

(** The first caller's dispatch is cancelled while its thread scans the device;
    a second caller comes while the scan goes on. *)
Definition raced : Proxy := aresolve_start 3000 (cancel_caller 0 (aresolve_start 1000 new_proxy)).

Definition raced_end : Proxy :=
  thread_ends 0 9000 (Instance_ 1) (resumes 1 (Instance_ 2) (thread_ends 1 8000 (Instance_ 2) raced)).

(** Cancellation breaks it, since a worker thread cannot be stopped: the
    lock is released with the factory still running, the next caller starts it
    a second time beside the first, and in the end the proxy holds a connector
    other than the one it has handed out. *)
Theorem cancelled_caller_constructs_twice :
  rtc pstep_any new_proxy raced_end ∧
  length (px_threads raced) = 2%nat ∧
  px_callers raced_end !! 1%nat = Some (Got 2) ∧ px_instance raced_end = Some 1%nat.
Proof.
  split; [|vm_compute; auto].
  eapply rtc_l; [apply pany_step, (pstep_start _ 1000)|].
  eapply rtc_l; [apply (pany_cancel _ 0 Constructs); [reflexivity|by right]|].
  eapply rtc_l; [apply pany_step, (pstep_start _ 3000)|].
  eapply rtc_l; [apply pany_step, (pstep_thread _ 1 8000 (Instance_ 2)); [reflexivity|]|].
  { apply (bool_decide_unpack _). vm_compute. exact I. }
  eapply rtc_l; [apply pany_step, (pstep_resume _ 1 (Instance_ 2)); reflexivity|].
  eapply rtc_l; [apply (pany_orphan _ 0 9000 (Instance_ 1)); [reflexivity|]|apply rtc_refl].
  apply (bool_decide_unpack _). vm_compute. exact I.
Qed.
