(* ===== verification/Relay.v ===== *)
(** * Schedule relay and audit trail (events/processor.py, json_form.py)

    The informational side of the processor: the notifications relayed to the
    connectors, with their fire-on-change deduplication, and the lifecycle
    records handed to the audit trail. *)

From S2P Require Import Prelude Controls EventStore Response Discovered ProcState.

(** ** The JSON form of a DERControlBase (json_form.py) *)

Fixpoint ends_with (suffix s : string) : bool :=
  String.eqb suffix s || match s with EmptyString => false | String _ s' => ends_with suffix s' end.

(** Field names are lower case already. *)
Definition is_xsd_internal (key : string) : bool :=
  bool_decide (key ∈ ["other_element"; "any_attributes"]) || ends_with "_r2_3" key.

Definition filter_xsd_internals (d : dict string FieldVal) : dict string FieldVal :=
  filter (λ kv, is_xsd_internal kv.1 = false ∧ String.prefix "_" kv.1 = false) d.

Definition DOE_CONTROL_KEYS : dict string string :=
  [("opModExpLimW", "op_mod_exp_lim_w"); ("opModImpLimW", "op_mod_imp_lim_w");
   ("opModGenLimW", "op_mod_gen_lim_w"); ("opModLoadLimW", "op_mod_load_lim_w")].

(** A typed limit keeps an absent multiplier absent; a generic one reads 0. *)
Definition json_value_multiplier (elem : Element) : option (Z * option Z) :=
  match elem with
  | TypedElement _ (Some v) m => Some (v, m)
  | _ => vm ← doe_value_multiplier elem; Some (vm.1, Some vm.2)
  end.

Definition merge_doe_control (out : gmap string (Z * option Z)) (elem : Element)
    : gmap string (Z * option Z) :=
  match key ← dict_get (default "" (doe_element_name elem)) DOE_CONTROL_KEYS;
        vm ← json_value_multiplier elem; Some (key, vm) with
  | Some (key, vm) => <[key := vm]> out
  | None => out
  end.

Definition serialize_base (base : DercontrolBase) : BaseJson :=
  {| json_fields := list_to_map (filter_xsd_internals (base_fields base));
     json_limits := foldl merge_doe_control ∅ (other_element base) |}.

(** ** Envelope limits in watts *)

Definition resolve_watts (value multiplier : Z) : Watts :=
  if 0 <=? multiplier then WholeWatts (value * 10 ^ multiplier)
  else if value mod 10 ^ (- multiplier) =? 0 then WholeWatts (value / 10 ^ (- multiplier))
  else FractionWatts value (- multiplier).

Definition extract_doe_envelope (base : DercontrolBase) : dict string DoeLimit :=
  (λ nvm, (nvm.1, {| doe_value := nvm.2.1; doe_multiplier := nvm.2.2;
                     doe_watts := resolve_watts nvm.2.1 nvm.2.2 |})) <$> doe_limits base.

Definition content_sig (n : ScheduleNotification) : ContentSig :=
  {| sig_mrid := sn_mrid n; sig_status := sn_status n; sig_start := sn_start n;
     sig_duration := sn_duration n; sig_lfdis := sorted_strings (sn_lfdis n);
     sig_randomization := sn_randomization n; sig_base := sn_payload n |}.

(** The lower-case name of a state. *)
Definition state_value (st : EventState) : string :=
  match st with
  | SCHEDULED => "scheduled" | ACTIVE => "active" | COMPLETED => "completed"
  | CANCELLED => "cancelled" | SUPERSEDED => "superseded"
  end.

Section Relay.
Context {E : Env}.

Definition emit_relay (n : ScheduleNotification) (dedup : bool) (key : snapshot_key) : M unit :=
  last <- get (λ s, dict_get key (p_snapshots s)) ;;
  if dedup && bool_decide (last = Some (content_sig n)) then ret tt
  else do (CSnapshot key (content_sig n)) ;;; do (CEmit (Relay n)).

Definition control_notification (r : EventRecord) (transition : string) (s : Proc)
    : ScheduleNotification :=
  let derc := r_derc r in
  {| sn_stream := StreamControl; sn_transition := transition;
     sn_status := Some (r_state r); sn_current_status := current_status <$> event_status derc;
     sn_mrid := hex (r_mrid r); sn_program := r_program r; sn_primacy := r_primacy r;
     sn_start := Some (r_start r); sn_duration := Some (r_duration r); sn_end := Some (r_end r);
     sn_lfdis := affected_lfdis_for_program (r_program r) (r_superseded r) s;
     sn_randomization := (randomize_start derc, randomize_duration derc);
     sn_payload := PBase (serialize_base (dercontrol_base derc)) |}.

Definition doe_notification (n : ScheduleNotification) (envelope : dict string DoeLimit)
    : ScheduleNotification :=
  {| sn_stream := StreamDoe; sn_transition := sn_transition n; sn_status := sn_status n;
     sn_current_status := sn_current_status n; sn_mrid := sn_mrid n; sn_program := sn_program n;
     sn_primacy := sn_primacy n; sn_start := sn_start n; sn_duration := sn_duration n;
     sn_end := sn_end n; sn_lfdis := sn_lfdis n; sn_randomization := sn_randomization n;
     sn_payload := PEnvelope envelope |}.

Definition relay_control_event (l : loc) (transition : string) : M unit :=
  r <- read l ;;
  n <- get (control_notification r transition) ;;
  let dedup := bool_decide (transition = "updated") in
  emit_relay n dedup (StreamControl, sn_mrid n) ;;;
  let envelope := extract_doe_envelope (dercontrol_base (r_derc r)) in
  match envelope with
  | [] => ret tt
  | _ => emit_relay (doe_notification n envelope) dedup (StreamDoe, sn_mrid n)
  end.

Definition relay_default_baseline (program : string) (ps : DerProgramState) : M unit :=
  match ps_default ps with
  | None => ret tt
  | Some dderc =>
      let key := (StreamBaseline, program) in
      first <- get (λ s, negb (dict_mem key (p_snapshots s))) ;;
      lfdis <- get (affected_lfdis_for_program program ∅) ;;
      emit_relay
        {| sn_stream := StreamBaseline;
           sn_transition := if (first : bool) then "default_added" else "default_updated";
           sn_status := None; sn_current_status := None; sn_mrid := hex (dd_mrid dderc);
           sn_program := program; sn_primacy := ps_primacy ps; sn_start := None;
           sn_duration := None; sn_end := None; sn_lfdis := lfdis;
           sn_randomization := (None, None);
           sn_payload := PBase (serialize_base (dd_base dderc)) |}
        true key
  end.

(** ** The audit trail *)

Definition lfdis_for_hrefs (hrefs : gset string) (s : Proc) : list string :=
  lfdi_or_href s <$> elements hrefs.

Definition wire_mode_names (modes : gset string) : list string :=
  sorted_strings (wire_name <$> elements modes).

(** The record as the trail reads it; [details] is evaluated on the way. *)
Definition audit_transition (r : EventRecord) (from_state : option string) (to_state : string)
    (details : Proc → AuditDetails) : M unit :=
  if negb audit_enabled then ret tt
  else
    let from' := if r_opted_out r && negb (String.eqb to_state "opted_out")
                 then Some "opted_out" else from_state in
    at_ts <- now_for (r_program r) ;;
    lfdis <- get (affected_lfdis_for_program (r_program r) ∅) ;;
    d <- get details ;;
    do (CEmit (Audit
      {| au_mrid := r_mrid r; au_program := r_program r; au_from := from'; au_to := to_state;
         au_start := r_start r; au_duration := r_duration r; au_primacy := r_primacy r;
         au_lfdis := lfdis; au_at := at_ts;
         au_control := if bool_decide (from' = None) && audit_keeps_history
                       then Some (r_derc r) else None;
         au_details := d |})).

Definition audit_outcomes (r : EventRecord) (s : Proc) : AuditDetails :=
  if bool_decide (r_applied_local r = ∅) && bool_decide (r_rejected_local r = ∅)
  then DispatchOutcomes (lfdis_for_hrefs (r_applied r) s) (lfdis_for_hrefs (r_rejected r) s)
  else DispatchOutcomes (elements (r_applied_local r)) (elements (r_rejected_local r)).

Definition audit_activation (r : EventRecord) (from_state : option string) : M unit :=
  audit_transition r from_state (state_value ACTIVE) (audit_outcomes r).

Definition audit_supersession (r : EventRecord) (superseded_by : bytes) (part : bool) (s : Proc)
    : AuditDetails :=
  if negb part then SupersededWhole superseded_by
  else match group_local_lfdis (r_program r) s with
  | None =>
      SupersededPart superseded_by (lfdis_for_hrefs (r_superseded r) s)
        ((λ dm, (lfdi_or_href s dm.1, wire_mode_names dm.2)) <$>
           map_to_list (r_superseded_modes r))
  | Some local =>
      let modes := ⋃ (map_to_list (r_superseded_modes r)).*2 in
      SupersededPart superseded_by local
        (if bool_decide (modes = ∅) then [] else (λ lfdi, (lfdi, wire_mode_names modes)) <$> local)
  end.

Definition audit_unstored (derc : Dercontrol) (program : string) (primacy start duration : Z)
    (to_state : string) : M unit :=
  if negb audit_enabled then ret tt
  else
    let mrid := m_rid derc in
    seen <- get (λ s, dict_mem mrid (p_seen s)) ;;
    if (seen : bool) then ret tt
    else
      do (CSeen mrid program) ;;;
      audit_transition
        {| r_mrid := mrid; r_derc := derc; r_program := program; r_primacy := primacy;
           r_state := CANCELLED; r_start := start; r_duration := duration; r_status_time := 0;
           r_creation := 0; r_superseded := ∅; r_superseded_modes := ∅; r_rejected := ∅;
           r_applied := ∅; r_applied_local := ∅; r_rejected_local := ∅; r_opted_out := false |}
        None to_state (λ _, NoDetails).

(** The done-callback of a dispatch that outlived the activation ceiling. *)
Definition log_late_dispatch (label : string) (cancelled : bool)
    (error : option DispatchError) (l : loc) : M unit :=
  if cancelled then ret tt
  else if negb audit_enabled then ret tt
  else
    r <- read l ;;
    at_ts <- now_for (r_program r) ;;
    name <- get (λ s, lfdi_or_href s label) ;;
    do (CEmit (AuditLateDispatch (r_mrid r) name error at_ts)).
End Relay.

(** ** Fire on change *)

Section FireOnChange.
Context {E : Env}.

(** The control notification and, for a control with an envelope, the [doe] one. *)
Definition relayed (r : EventRecord) (transition : string) (s : Proc) : list ScheduleNotification :=
  let n := control_notification r transition s in
  n :: match extract_doe_envelope (dercontrol_base (r_derc r)) with
       | [] => []
       | envelope => [doe_notification n envelope]
       end.

Definition relay_key (n : ScheduleNotification) : snapshot_key := (sn_stream n, sn_mrid n).

(** Every notification's content is the last one relayed under its key. *)
Definition up_to_date (ns : list ScheduleNotification) (s : Proc) : Prop :=
  Forall (λ n, dict_get (relay_key n) (p_snapshots s) = Some (content_sig n)) ns.

Lemma emit_relay_run n dedup key s :
  ∃ s', emit_relay n dedup key s = (inr tt, s') ∧
    p_store s' = p_store s ∧ p_disc s' = p_disc s ∧ p_tick s' = p_tick s ∧
    dict_get key (p_snapshots s') = Some (content_sig n) ∧
    (∀ k, k ≠ key → dict_get k (p_snapshots s') = dict_get k (p_snapshots s)) ∧
    (dict_get key (p_snapshots s) = Some (content_sig n) → dedup = true → s' = s) ∧
    (dict_get key (p_snapshots s) ≠ Some (content_sig n) ∨ dedup = false →
     p_log s' = p_log s ++ [Relay n]) ∧
    p_log s `prefix_of` p_log s'.
Proof.
  unfold emit_relay, bind, get. destruct (dedup && bool_decide _) eqn:Hb.
  - apply andb_true_iff in Hb as [-> Hb%bool_decide_eq_true]. exists s. split_and!; try done.
    intros [Hn|?]; [by destruct (Hn Hb)|done].
  - exists (exec (CEmit (Relay n)) (exec (CSnapshot key (content_sig n)) s)).
    split_and!; try done; cbn.
    + apply dict_get_set_eq.
    + intros k Hk. by apply dict_get_set_ne.
    + intros Hg ->. rewrite Hg in Hb. cbn in Hb. by rewrite bool_decide_true in Hb.
    + by apply prefix_app_r.
Qed.

Lemma control_notification_frame r tr s s' :
  p_disc s' = p_disc s → p_tick s' = p_tick s →
  control_notification r tr s' = control_notification r tr s.
Proof.
  intros Hd Ht. unfold control_notification, affected_lfdis_for_program, group_local_lfdis,
    get_device_lfdi, program_devices. by rewrite Hd, Ht.
Qed.

(** The signature does not cover the transition's name. *)
Lemma up_to_date_transition r tr tr' s s0 :
  up_to_date (relayed r tr s) s0 → up_to_date (relayed r tr' s) s0.
Proof.
  unfold up_to_date, relayed. destruct (extract_doe_envelope _) as [|e es].
  - rewrite !Forall_singleton. exact id.
  - rewrite !Forall_cons. intros (H1 & H2 & _). split; [exact H1|]. split; [exact H2|constructor].
Qed.

Lemma relay_run l r tr s :
  deref (p_store s) l = Some r →
  ∃ s', relay_control_event l tr s = (inr tt, s') ∧ p_store s' = p_store s ∧
    p_disc s' = p_disc s ∧ p_tick s' = p_tick s ∧ up_to_date (relayed r tr s) s' ∧
    (tr = "updated" → up_to_date (relayed r tr s) s → s' = s) ∧
    (dict_get (StreamControl, hex (r_mrid r)) (p_snapshots s) ≠
       Some (content_sig (control_notification r tr s)) →
     Relay (control_notification r tr s) ∈ p_log s').
Proof.
  intros Hr. unfold relay_control_event, read, bind at 1. rewrite Hr. unfold bind at 1, get at 1.
  set (n := control_notification r tr s). unfold bind.
  destruct (emit_relay_run n (bool_decide (tr = "updated")) (StreamControl, sn_mrid n) s)
    as (s1 & -> & Hst1 & Hd1 & Ht1 & Hg1 & _ & Hsame1 & Hlog1 & _).
  assert (∀ log, p_log s1 `prefix_of` log →
    dict_get (StreamControl, hex (r_mrid r)) (p_snapshots s) ≠ Some (content_sig n) → Relay n ∈ log)
    as Hrelay.
  { intros log [suf ->] Hne. rewrite Hlog1 by (by left). rewrite !elem_of_app, list_elem_of_singleton. auto. }
  unfold relayed, up_to_date. fold n.
  destruct (extract_doe_envelope (dercontrol_base (r_derc r))) as [|e es].
  - exists s1. split_and!; try done.
    + by apply Forall_singleton.
    + intros Htr Hup. apply (proj1 (Forall_singleton _ _)) in Hup.
      apply Hsame1; [exact Hup|]. by apply bool_decide_eq_true.
    + by apply Hrelay.
  - destruct (emit_relay_run (doe_notification n (e :: es)) (bool_decide (tr = "updated"))
                (StreamDoe, sn_mrid n) s1)
      as (s2 & -> & Hst2 & Hd2 & Ht2 & Hg2 & Hoth2 & Hsame2 & _ & Hpre2).
    exists s2. split_and!; try congruence.
    + apply Forall_cons. split; [|by apply Forall_singleton]. by rewrite Hoth2.
    + intros Htr [Hup Hup2]%Forall_cons. apply (proj1 (Forall_singleton _ _)) in Hup2.
      apply (bool_decide_eq_true (tr = "updated")) in Htr.
      assert (s1 = s) as -> by (by apply Hsame1). by apply Hsame2.
    + by apply Hrelay.
Qed.

(** After any relay of an event, relaying it as "updated" with nothing
    changed emits nothing and changes nothing, for the control stream and for
    the envelope projection alike; and an "updated" relay of a content that
    differs from the last one relayed does go out. *)
Theorem updates_relayed_on_change (l : loc) (r : EventRecord) (tr : string) (s : Proc) :
  deref (p_store s) l = Some r →
  let s1 := (relay_control_event l tr s).2 in
  relay_control_event l "updated" s1 = (inr tt, s1) ∧
  (dict_get (StreamControl, hex (r_mrid r)) (p_snapshots s) ≠
     Some (content_sig (control_notification r "updated" s)) →
   Relay (control_notification r "updated" s) ∈ p_log (relay_control_event l "updated" s).2).
Proof.
  intros Hr. cbn zeta. split.
  - destruct (relay_run l r tr s Hr) as (s1 & -> & Hst & Hd & Ht & Hup & _). cbn [snd].
    destruct (relay_run l r "updated" s1) as (s2 & -> & _ & _ & _ & _ & Hsame & _); [by rewrite Hst|].
    rewrite Hsame; [done..|]. apply (up_to_date_transition r tr).
    unfold relayed in *. by rewrite (control_notification_frame r tr s s1).
  - destruct (relay_run l r "updated" s Hr) as (s1 & -> & _ & _ & _ & _ & _ & Hrelay). exact Hrelay.
Qed.
End FireOnChange.
