(* ===== verification/Posting.v ===== *)
(** * Posting responses (events/response.py, events/processor.py)

    One POST under the tracker's reservation, and the fan-outs of the event
    processor: to every device of a program, to named devices, and to the
    devices an event was running on. *)

From S2P Require Import Prelude Controls EventStore Response Discovered ProcState.

Section Posting.
Context {E : Env}.

(** [ResponseTracker.reserve]: [true], the caller must post.  A caller that
    finds the key claimed waits for that POST; [fuel] bounds the rounds. *)
Fixpoint reserve (fuel : nat) (k : resp_key) : M bool :=
  sent_already <- get (λ s, dict_mem k (sent (p_tracker s))) ;;
  if (sent_already : bool) then ret false
  else
    claimed <- get (λ s, bool_decide (k ∈ in_flight (p_tracker s))) ;;
    if negb claimed then do (CClaim k) ;;; ret true
    else match fuel with
    | O => raise Blocked
    | S fuel' =>
        landed <- get (λ s, future_result (p_tick s) k) ;;
        await ;;; if (landed : bool) then ret false else reserve fuel' k
    end.

Definition notify (k : resp_key) (at_ts : Z) (posted : bool) : M unit :=
  when has_observer (do (CEmit (ResponseNotified k at_ts posted))).

Definition post_der_response (derc : Dercontrol) (code : ResponseCode) (lfdi : bytes)
    (now_ts : Z) (supported : option Z) : M unit :=
  prof <- get (λ s, profile (p_tick s)) ;;
  match resolve_wire_code derc code prof with
  | None => raise ValueError
  | Some code =>
      if negb (response_required_allows (response_required derc) code) then ret tt
      else match reply_to derc with
      | None | Some "" => ret tt
      | Some path =>
          let k := (m_rid derc, code, lfdi) in
          mine <- reserve patience k ;;
          if negb mine then ret tt
          else
            prof <- get (λ s, profile (p_tick s)) ;;
            let body := build_response derc code lfdi now_ts prof supported in
            outcome <- get (λ s, post_outcome (p_tick s) path body) ;;
            do CAwait ;;;
            do (CEmit (Post path body outcome)) ;;;
            match outcome with
            | PostOk => do (CMarkSent k now_ts) ;;; notify k now_ts true
            | PostFailed => notify k now_ts false ;;; do (CRelease k)
            | PostCancelled => do (CRelease k) ;;; raise CancelledError
            end
      end
  end.

Definition supported_modes2 (lfdi : bytes) : M (option Z) :=
  prof <- get (λ s, profile (p_tick s)) ;;
  if negb (sends_modes_responded2 prof) then ret None
  else match supported_modes2_hook with
  | None => ret None
  | Some hook => answer <- get (λ s, hook (p_tick s) (hex lfdi)) ;; await ;;; ret answer
  end.

(** The call both fan-outs make for one device. *)
Definition post_to_lfdi (derc : Dercontrol) (code : ResponseCode) (lfdi : bytes) : M unit :=
  now_ts <- now None ;;
  supported <- supported_modes2 lfdi ;;
  post_der_response derc code lfdi now_ts supported.

Definition post_to_device (derc : Dercontrol) (code : ResponseCode) (dev : string) : M unit :=
  lfdi <- get (get_device_lfdi dev) ;;
  match lfdi with
  | Some lfdi => post_to_lfdi derc code lfdi
  | None => ret tt
  end.

(** [exclude] is the record whose [superseded_devices] set is passed: the set
    itself is shared, so what joins it during a POST is excluded as well. *)
Definition excluded (exclude : option loc) (dev : string) : M bool :=
  match exclude with
  | None => ret false
  | Some l => r <- read l ;; ret (bool_decide (dev ∈ r_superseded r))
  end.

(** [record.superseded_devices or None] *)
Definition exclusion (l : loc) (r : EventRecord) : option loc :=
  if decide (r_superseded r = ∅) then None else Some l.

Definition post_response (derc : Dercontrol) (code : ResponseCode) (program : string)
    (exclude : option loc) : M unit :=
  devices <- get (program_devices program) ;;
  match devices with
  | [] =>
      match exclude with
      | Some _ => ret tt
      | None =>
          lfdi <- get get_any_lfdi ;;
          match lfdi with Some lfdi => post_to_lfdi derc code lfdi | None => ret tt end
      end
  | _ =>
      for_each devices (λ dev,
        skip <- excluded exclude dev ;;
        if (skip : bool) then ret tt else post_to_device derc code dev)
  end.

Definition post_response_for_devices (derc : Dercontrol) (code : ResponseCode)
    (devs : gset string) : M unit :=
  for_each (elements devs) (post_to_device derc code).

Definition post_started_device_lifecycle (l : loc) (code : ResponseCode) : M unit :=
  r <- read l ;;
  if bool_decide (r_applied r = ∅) && bool_decide (r_rejected r = ∅)
  then post_response (r_derc r) code (r_program r) (exclusion l r)
  else
    let audience := r_applied r ∖ r_superseded r in
    if decide (audience = ∅) then ret tt
    else post_response_for_devices (r_derc r) code audience.
End Posting.
