(* ===== verification/Fallback.v ===== *)
(** * Falling back to the default control (events/processor.py)

    What happens on the devices when an event ends: the modes it held are
    released, the best program's DefaultDERControl is written without the modes
    a running event holds, and the modes no default carries are disabled.  Also
    the initial pass that puts the default in place where no event runs. *)

From S2P Require Import Prelude Controls EventStore Trackers Response Discovered Timers ProcState.

Section Fallback.
Context {E : Env}.

(** What a write made for [devices] of a program touches. *)
Definition reach_of (program : string) (devices : list string) (s : Proc) : gset string :=
  match group_local_lfdis program s with
  | Some lfdis => list_to_set (String.append "lfdi:" <$> lfdis)
  | None => list_to_set (String.append "href:" <$> devices)
  end.

Definition running_records (s : Proc) : list EventRecord :=
  omap (deref (p_store s)) (running_events s).

(** The modes one running event holds on what [reach] touches. *)
Definition modes_held_by (reach : gset string) (s : Proc) (r : EventRecord) : gset string :=
  let devices := program_devices (r_program r) s in
  if decide (reach ∩ reach_of (r_program r) devices s = ∅) then ∅
  else
    let grouped := bool_decide (is_Some (group_local_lfdis (r_program r) s)) in
    ⋃ ((λ dev, ActiveModes.covered_among dev {[r_mrid r]} (p_modes s)) <$>
         filter (λ dev, grouped || bool_decide (String.append "href:" dev ∈ reach) = true)
                devices).

Definition modes_running_in (reach : gset string) (active : list EventRecord) (s : Proc)
    : gset string :=
  ⋃ (modes_held_by reach s <$> active).

(** An event controls a device it was neither superseded nor rejected on. *)
Definition controls_device (dev : string) (s : Proc) (r : EventRecord) : bool :=
  bool_decide (dev ∈ program_devices (r_program r) s)
  && negb (bool_decide (dev ∈ r_superseded r)) && negb (bool_decide (dev ∈ r_rejected r)).

Definition device_has_other_active (dev : string) (exclude : bytes) (active : list EventRecord)
    (s : Proc) : bool :=
  existsb (λ r, negb (bool_decide (r_mrid r = exclude)) && controls_device dev s r) active.

(** The first program of least primacy that has a default and the device. *)
Definition better_default (s : Proc) (dev : string) (best : option DerProgramState)
    (pd : string * list string) : option DerProgramState :=
  if decide (dev ∈ pd.2) then
    match program_state pd.1 s with
    | None => best
    | Some derp =>
        match ps_default derp, best with
        | None, _ => best
        | Some _, None => Some derp
        | Some _, Some b => if ps_primacy derp <? ps_primacy b then Some derp else best
        end
    end
  else best.

Definition best_dderc_program_for_device (dev : string) (s : Proc) : option DerProgramState :=
  foldl (better_default s dev) None (program_to_devices (device_mapping (p_disc s))).

(** ** Deciding *)

(** Release one device's modes; [true] when it needs the fallback. *)
Definition release_device (r : EventRecord) (owned : gset string) (active : list EventRecord)
    (dev : string) : M (string * gset string * bool) :=
  released <- get (λ s, (ActiveModes.unregister dev (r_mrid r) (p_modes s)).1) ;;
  do (CUnregister dev (r_mrid r)) ;;;
  other <- get (device_has_other_active dev (r_mrid r) active) ;;
  let taken_over :=
    bool_decide (dev ∈ r_superseded r)
    && bool_decide (owned ⊆ default ∅ (r_superseded_modes r !! dev)) && other in
  ret (dev, released,
       if taken_over then false
       else if bool_decide (released = ∅) then negb other else true).

Record DefaultTarget := {
  dt_dev : string;
  dt_lfdi : bytes;
  dt_program : DerProgramState;
  dt_default : DefaultDercontrol;
  dt_partial : bool;
}.

Record FallbackPlan := {
  fp_defaults : list DefaultTarget;
  fp_withdraw : list (string * gset string);
  fp_clear : list string;
  fp_default_modes : gset string;
}.

Definition no_plan : FallbackPlan :=
  {| fp_defaults := []; fp_withdraw := []; fp_clear := []; fp_default_modes := ∅ |}.

Definition plan_without_default (clear_if_no_dderc : bool) (dev : string)
    (released : gset string) (plan : FallbackPlan) : FallbackPlan :=
  if clear_if_no_dderc then
    {| fp_defaults := fp_defaults plan; fp_withdraw := fp_withdraw plan;
       fp_clear := fp_clear plan ++ [dev]; fp_default_modes := fp_default_modes plan |}
  else if decide (released = ∅) then plan
  else {| fp_defaults := fp_defaults plan; fp_withdraw := fp_withdraw plan ++ [(dev, released)];
          fp_clear := fp_clear plan; fp_default_modes := fp_default_modes plan |}.

Definition plan_with_default (active : list EventRecord) (s : Proc) (dev : string) (lfdi : bytes)
    (best : DerProgramState) (dderc : DefaultDercontrol) (released : gset string)
    (plan : FallbackPlan) : FallbackPlan :=
  let carried := get_active_mode_names (dd_base dderc) in
  let held := modes_running_in (reach_of (ps_href best) [dev] s) active s in
  let taken := carried ∩ held in
  let effective := if decide (taken = ∅) then dderc else default_without dderc taken in
  let written := carried ∖ taken in
  let uncovered := released ∖ written in
  let emptied := negb (bool_decide (carried = ∅)) && bool_decide (written = ∅) in
  {| fp_defaults :=
       if negb emptied && Dderc.should_apply lfdi (ps_href best) (ps_primacy best) (p_dderc s)
       then fp_defaults plan ++
            [{| dt_dev := dev; dt_lfdi := lfdi; dt_program := best; dt_default := effective;
                dt_partial := negb (bool_decide (taken = ∅)) |}]
       else fp_defaults plan;
     fp_withdraw := if decide (uncovered = ∅) then fp_withdraw plan
                    else fp_withdraw plan ++ [(dev, uncovered)];
     fp_clear := fp_clear plan;
     fp_default_modes := fp_default_modes plan ∪ written |}.

Definition plan_device (active : list EventRecord) (clear_if_no_dderc : bool) (s : Proc)
    (plan : FallbackPlan) (dr : string * gset string) : FallbackPlan :=
  match get_device_lfdi dr.1 s with
  | None => plan
  | Some lfdi =>
      match best_dderc_program_for_device dr.1 s with
      | None => plan_without_default clear_if_no_dderc dr.1 dr.2 plan
      | Some best =>
          match ps_default best with
          | None => plan            (* not reached: the best program has a default *)
          | Some dderc => plan_with_default active s dr.1 lfdi best dderc dr.2 plan
          end
      end
  end.

(** ** Dispatching *)

(** Start every call, then wait for all of them; a failure is a result. *)
Definition gather (acts : list Action) : M (list (option DispatchError)) :=
  results <- get (λ s, dispatch_result (p_tick s) <$> acts) ;;
  for_each acts (λ a, do (CEmit a)) ;;; await ;;; ret results.

Definition all_ok (results : list (option DispatchError)) : bool :=
  forallb (λ r, negb (bool_decide (is_Some r))) results.

(** The writes of one default target, fanned out under a group lookup. *)
Definition default_calls (mrid : bytes) (origin : CommandOrigin)
    (pl : DefaultTarget * option (list string)) : list Action :=
  let '(t, locals) := pl in
  match locals with
  | Some lfdis =>
      (λ lfdi, ApplyDefault (ByLfdi lfdi) (dt_default t) (ps_curves (dt_program t)) origin
                 (Some mrid)) <$> lfdis
  | None => [ApplyDefault (ByHref (dt_dev t)) (dt_default t) (ps_curves (dt_program t)) origin
               (Some mrid)]
  end.

(** Attribute the results to the targets, [n] each, and record the successes. *)
Fixpoint attribute_defaults (plans : list (DefaultTarget * option (list string)))
    (results : list (option DispatchError)) : M unit :=
  match plans with
  | [] => ret tt
  | (t, locals) :: rest =>
      let n := match locals with Some lfdis => length lfdis | None => 1%nat end in
      (if all_ok (take n results) && negb (dt_partial t) then
         prim <- get (λ s, ps_primacy (held_program (p_tick s) (dt_program t))) ;;
         do (CRecordApplication (dt_lfdi t) (ps_href (dt_program t)) (dd_mrid (dt_default t)) prim)
       else ret tt) ;;;
      attribute_defaults rest (drop n results)
  end.

Definition dispatch_defaults (mrid : bytes) (targets : list DefaultTarget) : M unit :=
  plans <- get (λ s, (λ t, (t, group_local_lfdis (ps_href (dt_program t)) s)) <$> targets) ;;
  origin <- get (λ s, if loss_active (p_loss s) then COMMS_LOSS else DDERC_REAPPLY) ;;
  results <- gather (mjoin (default_calls mrid origin <$> plans)) ;;
  attribute_defaults plans results.

Definition withdraw_calls (r : EventRecord) (all_devices : list string) (plan : FallbackPlan)
    (s : Proc) : list Action :=
  match group_local_lfdis (r_program r) s with
  | Some lfdis =>
      let still_needed :=
        fp_default_modes plan
        ∪ ⋃ ((λ dev, ActiveModes.covered dev (r_mrid r) (p_modes s)) <$> all_devices) in
      let modes := ⋃ (fp_withdraw plan).*2 ∖ still_needed in
      if decide (modes = ∅) then []
      else (λ lfdi, DisableModes (ByLfdi lfdi) modes (r_mrid r)) <$> unique lfdis
  | None => (λ dm, DisableModes (ByHref dm.1) dm.2 (r_mrid r)) <$> fp_withdraw plan
  end.

Definition clear_calls (r : EventRecord) (devs : list string) (s : Proc) : list Action :=
  match group_local_lfdis (r_program r) s with
  | Some lfdis => (λ lfdi, ClearControl (ByLfdi lfdi) (r_mrid r)) <$> unique lfdis
  | None => (λ dev, ClearControl (ByHref dev) (r_mrid r)) <$> unique devs
  end.

Definition apply_dderc_fallback (l : loc) (clear_if_no_dderc : bool) : M unit :=
  r <- read l ;;
  all_devices <- get (unique_devices (r_program r)) ;;
  let owned := compared_mode_keys (dercontrol_base (r_derc r)) in
  active <- get running_records ;;
  released <- map_each all_devices (release_device r owned active) ;;
  let needs := (filter (λ x : string * gset string * bool, x.2 = true) released).*1 in
  match needs with
  | [] => ret tt
  | _ =>
      plan <- get (λ s, foldl (plan_device active clear_if_no_dderc s) no_plan needs) ;;
      (match fp_defaults plan with
       | [] => ret tt
       | targets => dispatch_defaults (r_mrid r) targets
       end) ;;;
      (match fp_withdraw plan with
       | [] => ret tt
       | _ => calls <- get (withdraw_calls r all_devices plan) ;; gather calls ;;; ret tt
       end) ;;;
      (match fp_clear plan with
       | [] => ret tt
       | devs => calls <- get (clear_calls r devs) ;; gather calls ;;; ret tt
       end)
  end.

(** ** The initial pass *)

Definition winding_down (program : string) (s : Proc) : bool :=
  existsb (λ l, loc_test (λ r, bool_decide (r_program r = program)
                               && has_pending (r_mrid r) (p_timers s)) (p_store s) l)
          (by_state CANCELLED (p_store s)).

(** The devices the default may be written to, with their LFDIs. *)
Definition initial_targets (program : string) (ps : DerProgramState) (mrid : bytes)
    (active : list EventRecord) (s : Proc) : list (string * bytes) :=
  omap (λ dev,
    if existsb (controls_device dev s) active then None
    else
      lfdi ← get_device_lfdi dev s;
      if Dderc.should_apply_initial lfdi program mrid (ps_primacy ps) (p_dderc s)
      then Some (dev, lfdi) else None)
    (unique_devices program s).

Fixpoint attribute_initial (program : string) (ps : DerProgramState) (mrid : bytes) (n : nat)
    (targets : list (string * bytes)) (results : list (option DispatchError)) : M unit :=
  match targets with
  | [] => ret tt
  | (_, lfdi) :: rest =>
      (if all_ok (take n results) then
         prim <- get (λ s, ps_primacy (held_program (p_tick s) ps)) ;;
         do (CRecordApplication lfdi program mrid prim)
       else ret tt) ;;;
      attribute_initial program ps mrid n rest (drop n results)
  end.

Definition initial_calls (locals : option (list string)) (dderc : DefaultDercontrol)
    (curves : list FieldVal) (target : string * bytes) : list Action :=
  match locals with
  | Some lfdis => (λ lfdi, ApplyDefault (ByLfdi lfdi) dderc curves DDERC_REAPPLY None) <$> lfdis
  | None => [ApplyDefault (ByHref target.1) dderc curves DDERC_REAPPLY None]
  end.

Definition dispatch_initial (program : string) (ps : DerProgramState)
    (default_control : DefaultDercontrol) (targets : list (string * bytes)) : M unit :=
  active <- get running_records ;;
  held <- get (λ s, modes_running_in (reach_of program targets.*1 s) active s) ;;
  let carried := get_active_mode_names (dd_base default_control) in
  let taken := carried ∩ held in
  if negb (bool_decide (carried = ∅)) && bool_decide (carried ∖ taken = ∅) then ret tt
  else
    let dderc := if decide (taken = ∅) then default_control
                 else default_without default_control taken in
    locals <- get (group_local_lfdis program) ;;
    results <- gather (mjoin (initial_calls locals dderc (ps_curves ps) <$> targets)) ;;
    let n := match locals with Some lfdis => length lfdis | None => 1%nat end in
    attribute_initial program ps (dd_mrid default_control) n targets results.

Definition apply_initial_dderc (program : string) : M unit :=
  found <- get (program_state program) ;;
  match found with
  | None => ret tt
  | Some ps =>
      match ps_default ps with
      | None => ret tt
      | Some dderc =>
          wait <- get (winding_down program) ;;
          if (wait : bool) then ret tt
          else
            devices <- get (unique_devices program) ;;
            match devices with
            | [] => ret tt
            | _ =>
                active <- get running_records ;;
                targets <- get (initial_targets program ps (dd_mrid dderc) active) ;;
                match targets with
                | [] => ret tt
                | _ => dispatch_initial program ps dderc targets
                end
            end
      end
  end.
End Fallback.
