(* ===== verification/Processor.v ===== *)
(** * The event processor's handlers (events/processor.py)

    [process_controls] (one poll of a program), the timer callbacks, the
    cancellation, supersession and dispatch paths, program removal, shutdown
    and loss of communications.  Each definition is one coroutine of the class;
    its statements keep the source's order, awaits included. *)

From S2P Require Import Prelude Controls EventStore Supersession Randomization Trackers.
From S2P Require Import Response Discovered Timers ProcState Relay Posting Fallback.

Section Processor.
Context {E : Env}.

(** ** Dispatching a control *)

(** [respond] of [_apply_and_respond]: report one device by its outcome. *)
Definition respond (l : loc) (dev : string) (failure : option DispatchError) : M unit :=
  match failure with
  | None =>
      do (CWrite l (WApplied dev)) ;;;
      r <- read l ;; post_response_for_devices (r_derc r) R_ACTIVE {[dev]}
  | Some e =>
      do (CWrite l (WRejected dev)) ;;;
      r <- read l ;;
      do (CUnregister dev (r_mrid r)) ;;;
      post_response_for_devices (r_derc r) (response_code_for_dispatch_error e) {[dev]}
  end.

(** Every sub-device failed, or the group has none that takes controls. *)
Definition group_outcome (locals : list string) (failures : list (option DispatchError))
    : option DispatchError :=
  let failed := omap id failures in
  match locals with
  | [] => Some DeviceNotConfiguredError
  | _ => if bool_decide (length failed = length failures) then head failed else None
  end.

Definition dispatch_by_lfdi_group (l : loc) (r : EventRecord) (locals targets : list string)
    (curves : list FieldVal)
    : M (list (string * option DispatchError)) :=
  failures <- gather ((λ lfdi, ApplyControl (ByLfdi lfdi) (r_derc r) curves) <$> locals) ;;
  for_each (zip locals failures) (λ lf : string * option DispatchError,
    do (CWrite l (match lf.2 with None => WAppliedLocal lf.1 | Some _ => WRejectedLocal lf.1 end))) ;;;
  let aggregate := group_outcome locals failures in
  for_each targets (λ dev, respond l dev aggregate) ;;;
  ret ((λ dev, (dev, aggregate)) <$> targets).

(** All dispatches start together; each device is reported as its own settles. *)
Definition dispatch_each (l : loc) (r : EventRecord) (targets : list string)
    (curves : list FieldVal)
    : M (list (string * option DispatchError)) :=
  let call dev := ApplyControl (ByHref dev) (r_derc r) curves in
  t <- get p_tick ;;
  for_each targets (λ dev, do (CEmit (call dev))) ;;;
  map_each (settle_order t targets) (λ dev,
    let failure := dispatch_result t (call dev) in
    await ;;; respond l dev failure ;;; ret (dev, failure)).

Definition apply_control_to_devices (l : loc) : M (list (string * option DispatchError)) :=
  r <- read l ;;
  devices <- get (unique_devices (r_program r)) ;;
  ps <- get (program_state (r_program r)) ;;
  let curves := match ps with Some ps => ps_curves ps | None => [] end in
  let targets := filter (λ dev, dev ∉ r_superseded r) devices in
  match targets with
  | [] => ret []
  | _ =>
      let active_modes := get_active_mode_names (dercontrol_base (r_derc r)) in
      for_each targets (λ dev, do (CRegister dev (r_mrid r) active_modes)) ;;;
      locals <- get (group_local_lfdis (r_program r)) ;;
      match locals with
      | Some lfdis => dispatch_by_lfdi_group l r lfdis targets curves
      | None => dispatch_each l r targets curves
      end
  end.

Definition apply_and_respond (l : loc) : M unit :=
  outcomes <- apply_control_to_devices l ;;
  match outcomes with
  | [] => r <- read l ;; post_response (r_derc r) R_ACTIVE (r_program r) (exclusion l r)
  | _ => ret tt
  end.

(** ** Supersession *)

Definition build_program_device_map (s : Proc) : dict string (gset string) :=
  (λ pd, (pd.1, list_to_set pd.2)) <$> program_to_devices (device_mapping (p_disc s)).

Definition is_terminal (st : EventState) : bool := negb (is_live st).

(** The state an audit record reports an event in. *)
Definition audit_state (r : EventRecord) : string :=
  if r_opted_out r then "opted_out" else state_value (r_state r).

(** The end of the loop body, once every device of the program is superseded. *)
Definition supersede_fully (l : loc) (by_mrid : bytes) : M unit :=
  r <- read l ;;
  let was_active := bool_decide (r_state r = ACTIVE) in
  store_transition (r_mrid r) SUPERSEDED ;;;
  do (CTimersCancel (r_mrid r)) ;;;
  relay_control_event l "superseded" ;;;
  r' <- read l ;;
  audit_transition r' (Some (state_value (r_state r))) "superseded"
    (audit_supersession r' by_mrid false) ;;;
  when was_active (apply_dderc_fallback l false).

Definition supersede_on (dm : dict string (gset string)) (res : SupersessionResult) (l : loc)
    (r : EventRecord) : M unit :=
  let newly := affected_devices res ∖ r_superseded r in
  do (CWrite l (WSuperseded (affected_devices res))) ;;;
  post_response_for_devices (r_derc r) R_SUPERSEDED (newly ∖ r_rejected r) ;;;
  (if decide (affected_modes res = ∅) then ret tt
   else for_each (elements (affected_devices res))
          (λ dev, do (CWrite l (WSupersededModes dev (affected_modes res))))) ;;;
  r' <- read l ;;
  let devices := default ∅ (dict_get (r_program r') dm) in
  let fully := negb (bool_decide (devices = ∅)) && bool_decide (devices ⊆ r_superseded r') in
  when (negb (bool_decide (newly = ∅)) && negb fully)
    (audit_transition r' (Some (audit_state r')) (audit_state r')
       (audit_supersession r' (superseding_mrid res) true)) ;;;
  when fully (supersede_fully l (superseding_mrid res)).

(** The body of the loop over the results. *)
Definition supersede_one (dm : dict string (gset string)) (res : SupersessionResult) : M unit :=
  loser <- get (λ s, store_get (superseded_mrid res) (p_store s)) ;;
  match loser with
  | None => ret tt
  | Some l =>
      r <- read l ;;
      if is_terminal (r_state r) then ret tt
      else
        winner <- get (λ s, store_get (superseding_mrid res) (p_store s)) ;;
        match winner with
        | None => ret tt
        | Some w =>
            rw <- read w ;;
            if bool_decide (r_state rw = SCHEDULED) && bool_decide (r_state r = ACTIVE)
            then ret tt                    (* deferred until the winner starts *)
            else supersede_on dm res l r
        end
  end.

Definition live_records (s : Proc) : list EventRecord :=
  omap (deref (p_store s)) (all_active_states (p_store s)).

Definition run_supersession : M unit :=
  events <- get live_records ;;
  if (length events <? 2)%nat then ret tt
  else
    dm <- get build_program_device_map ;;
    for_each (compute_supersession events dm) (supersede_one dm).

(** ** Cancellation *)

Definition cancellation_wind_down (derc : Dercontrol) : Z :=
  Z.max (Z.abs (default 0 (randomize_start derc))) (Z.abs (default 0 (randomize_duration derc))).

Definition handle_cancellation (l : loc) : M unit :=
  r <- read l ;;
  let was_active := bool_decide (r_state r = ACTIVE) in
  store_transition (r_mrid r) CANCELLED ;;;
  do (CTimersCancel (r_mrid r)) ;;;
  relay_control_event l "cancelled" ;;;
  r' <- read l ;;
  audit_transition r' (Some (state_value (r_state r))) "cancelled" (λ _, NoDetails) ;;;
  post_started_device_lifecycle l R_CANCELLED ;;;
  when was_active
    (r'' <- read l ;;
     let wind_down := cancellation_wind_down (r_derc r'') in
     if 0 <? wind_down then do (CSchedule WindDown l wind_down)
     else apply_dderc_fallback l false).

(** ** Loss of communications *)

Definition raise_boundary (epoch : Z) : M unit :=
  boundary <- get (λ s, default 0 (resume_after_epoch (p_loss s))) ;;
  do (CResumeAfter (Z.max boundary epoch)).

Definition opt_out_event (l : loc) (from_state : option string) : M unit :=
  do (CWrite l WOptedOut) ;;;
  r <- read l ;;
  audit_transition r from_state "opted_out" (λ _, NoDetails) ;;;
  raise_boundary (r_end r) ;;;
  do (CTimersCancel (r_mrid r)) ;;;
  apply_dderc_fallback l true.

Definition latest_end (rs : list EventRecord) : Z :=
  match rs with
  | [] => 0
  | r :: rest => foldl Z.max (r_end r) (r_end <$> rest)
  end.

Definition enter_comms_loss : M unit :=
  active <- get running_events ;;
  match active with
  | [] => ret tt
  | _ =>
      rs <- map_each active read ;;
      raise_boundary (latest_end rs) ;;;
      for_each active (λ l,
        do (CWrite l WOptedOut) ;;;
        r <- read l ;;
        do (CTimersCancel (r_mrid r)) ;;;
        audit_transition r (Some (state_value ACTIVE)) "opted_out" (λ _, NoDetails)) ;;;
      for_each active (λ l, apply_dderc_fallback l true)
  end.

(** ** New events *)

Definition handle_new_scheduled (l : loc) : M unit :=
  r <- read l ;;
  post_response (r_derc r) ACKNOWLEDGED (r_program r) None ;;;
  unless_closed
    (do (CSchedule Activation l 0) ;;;
     relay_control_event l "scheduled" ;;;
     r' <- read l ;; audit_transition r' None "scheduled" (λ _, NoDetails)).

Definition handle_late_discovery (l : loc) : M unit :=
  lost <- get (λ s, loss_active (p_loss s)) ;;
  if (lost : bool) then opt_out_event l None
  else
    r <- read l ;;
    post_response (r_derc r) ACKNOWLEDGED (r_program r) None ;;;
    unless_closed
      (run_supersession ;;;
       unless_closed
         (apply_and_respond l ;;;
          unless_closed
            (relay_control_event l "active" ;;;
             r' <- read l ;;
             audit_activation r' None ;;;
             do (CSchedule Completion l 0)))).

(** ** Timer callbacks *)

(** [if not self._state_ready.is_set(): await self._state_ready.wait()] *)
Definition wait_state_ready : M unit :=
  ready <- get (λ s, state_ready (p_tick s)) ;; when (negb ready) await.

Definition on_activation (l : loc) : M unit :=
  wait_state_ready ;;;
  r <- read l ;;
  if negb (bool_decide (r_state r = SCHEDULED)) then ret tt
  else
    store_transition (r_mrid r) ACTIVE ;;;
    lost <- get (λ s, loss_active (p_loss s)) ;;
    if (lost : bool) then opt_out_event l (Some (state_value SCHEDULED))
    else
      run_supersession ;;;
      unless_closed
        (apply_and_respond l ;;;
         unless_closed
           (relay_control_event l "active" ;;;
            r' <- read l ;;
            audit_activation r' (Some (state_value SCHEDULED)) ;;;
            do (CSchedule Completion l 0))).

Definition on_completion (l : loc) : M unit :=
  wait_state_ready ;;;
  r <- read l ;;
  if negb (bool_decide (r_state r = ACTIVE)) then ret tt
  else
    store_transition (r_mrid r) COMPLETED ;;;
    relay_control_event l "completed" ;;;
    r' <- read l ;;
    audit_transition r' (Some (state_value ACTIVE)) "completed" (λ _, NoDetails) ;;;
    post_started_device_lifecycle l R_COMPLETED ;;;
    apply_dderc_fallback l false.

(** The end of [_wait_and_fire]: the check before the callback, and the
    [except] clauses that keep its exception. *)
Definition swallow (m : M unit) : M unit := λ s, (inr tt, (m s).2).

Definition timer_callback (t : Timer) : M unit :=
  r <- read (tm_record t) ;;
  if negb (fires r) then ret tt
  else match tm_kind t with
  | Activation => on_activation (tm_record t)
  | Completion => on_completion (tm_record t)
  | WindDown => apply_dderc_fallback (tm_record t) false
  end.

Definition fire_timer (t : Timer) : M unit := swallow (timer_callback t).

(** ** One poll of a program *)

Definition find_successive_predecessor (program : string) (raw_start : Z) (s : Proc)
    : option EventRecord :=
  head (filter (λ r, r_program r = program ∧
                     interval_start (r_derc r) + interval_duration (r_derc r) = raw_start)
               (live_records s)).

Definition is_server_cancelled (derc : Dercontrol) : bool :=
  match event_status derc with Some es => current_status es =? 2 | None => false end.

(** The randomized offsets, with rule m) applied to the start. *)
Definition effective_offsets (program : string) (derc : Dercontrol) : M (Z * Z) :=
  offs <- get (λ s, (offsets_of derc s).1) ;;
  do (CGetOffsets derc) ;;;
  pred <- get (find_successive_predecessor program (interval_start derc)) ;;
  match pred with
  | None => ret offs
  | Some p =>
      let new_start_off := r_end p - interval_start derc in
      if new_start_off =? offs.1 then ret offs
      else
        do (COverride (m_rid derc) new_start_off (interval_start derc) (interval_duration derc)) ;;;
        ret (new_start_off, offs.2)
  end.

Definition server_status_time (derc : Dercontrol) : Z :=
  default 0 (es ← event_status derc; status_date_time es).

(** A control already tracked; [true] when the handler must return. *)
Definition refresh_existing (l : loc) (derc : Dercontrol) : M bool :=
  do (CWrite l (WDerc derc)) ;;;
  do (CWrite l (WStatusTime (server_status_time derc))) ;;;
  (match creation_time derc with Some t => do (CWrite l (WCreation t)) | None => ret tt end) ;;;
  r <- read l ;;
  if is_server_cancelled derc && is_live (r_state r)
  then handle_cancellation l ;;; get p_closed
  else relay_control_event l "updated" ;;; ret false.

Definition create_record (r : EventRecord) : M loc :=
  l <- get (λ s, length (objs (p_store s))) ;; do (CCreate r) ;;; ret l.

Definition new_record (program : string) (primacy : Z) (derc : Dercontrol) (st : EventState)
    (start duration : Z) : EventRecord :=
  {| r_mrid := m_rid derc; r_derc := derc; r_program := program; r_primacy := primacy;
     r_state := st; r_start := start; r_duration := duration;
     r_status_time := server_status_time derc; r_creation := default 0 (creation_time derc);
     r_superseded := ∅; r_superseded_modes := ∅; r_rejected := ∅; r_applied := ∅;
     r_applied_local := ∅; r_rejected_local := ∅; r_opted_out := false |}.

(** A control in force or still to come: store it and start its lifecycle. *)
Definition admit_event (program : string) (primacy : Z) (derc : Dercontrol) (now start duration : Z)
    : M bool :=
  let st := if start <=? now then ACTIVE else SCHEDULED in
  if is_server_cancelled derc then
    let r := new_record program primacy derc CANCELLED start duration in
    l <- create_record r ;;
    do (CUpsert l) ;;;
    audit_transition r None "cancelled" (λ _, NoDetails) ;;;
    relay_control_event l "cancelled" ;;;
    post_response derc R_CANCELLED program None ;;;
    get p_closed
  else
    l <- create_record (new_record program primacy derc st start duration) ;;
    do (CUpsert l) ;;;
    lfdis <- get (λ s, list_to_set (omap (λ dev, get_device_lfdi dev s)
                                         (program_devices program s)) : gset bytes) ;;
    (if decide (lfdis = ∅) then ret tt else do (CClearDevices lfdis)) ;;;
    (match st with
     | SCHEDULED => handle_new_scheduled l
     | _ => handle_late_discovery l
     end) ;;;
    get p_closed.

(** A control not yet tracked. *)
Definition new_event (program : string) (primacy : Z) (derc : Dercontrol) (now start duration : Z)
    : M bool :=
  resume <- get (λ s, resume_after_epoch (p_loss s)) ;;
  if (match resume with Some b => start <=? b | None => false end) then
    audit_unstored derc program primacy start duration "skipped" ;;; ret false
  else if start + duration <? now then
    responded <- get (λ s, has_responded (m_rid derc) (p_tracker s)) ;;
    if (responded : bool) then ret false
    else
      audit_unstored derc program primacy start duration "expired" ;;;
      post_response derc EXPIRED program None ;;;
      get p_closed
  else admit_event program primacy derc now start duration.

(** The body of the loop over the controls; [true] when the handler returns. *)
Definition process_control (program : string) (primacy now : Z) (derc : Dercontrol) : M bool :=
  offs <- effective_offsets program derc ;;
  let start := interval_start derc + offs.1 in
  let duration := interval_duration derc + offs.2 in
  existing <- get (λ s, store_get (m_rid derc) (p_store s)) ;;
  match existing with
  | Some l => refresh_existing l derc
  | None => new_event program primacy derc now start duration
  end.

(** [for derc in derp_state.der_controls]: by index, over the list as it is
    when the loop comes round. *)
Fixpoint each_control (fuel i : nat) (ps : DerProgramState) (f : Dercontrol → M bool) : M bool :=
  next <- get (λ s, ps_controls (held_program (p_tick s) ps) !! i) ;;
  match next with
  | None => ret false
  | Some derc =>
      match fuel with
      | O => raise Blocked
      | S fuel' => stop <- f derc ;; if (stop : bool) then ret true
                                     else each_control fuel' (S i) ps f
      end
  end.

(** Rule p): an event its program no longer serves, before its end, is
    cancelled; only on a complete fetch. *)
Definition reconcile_removed (program : string) (now : Z) (ps : DerProgramState) : M bool :=
  current <- get (λ s, held_program (p_tick s) ps) ;;
  if negb (ps_controls_complete current) then ret false
  else
    let served := m_rid <$> ps_controls current in
    live <- get (λ s, all_active_states (p_store s)) ;;
    for_until live (λ l,
      r <- read l ;;
      if negb (bool_decide (r_program r = program)) || bool_decide (r_mrid r ∈ served)
         || (r_end r <=? now)
      then ret false
      else handle_cancellation l ;;; get p_closed).

Definition forget_unstored_no_longer_served (program : string) : M unit :=
  found <- get (program_state program) ;;
  match found with
  | Some ps =>
      if negb (ps_controls_complete ps) then ret tt
      else
        let served := m_rid <$> ps_controls ps in
        stale <- get (λ s, (filter (λ mp, mp.2 = program ∧ mp.1 ∉ served) (p_seen s)).*1) ;;
        for_each stale (λ m, do (CForgetSeen m))
  | None => ret tt
  end.

Definition prune_pass (program : string) (now : Z) : M unit :=
  expired <- get (λ s, (prune_expired now PRUNE_GRACE (p_store s)).1) ;;
  do (CPrune now) ;;;
  for_each expired (λ m,
    do (CSnapshotPop (StreamControl, hex m)) ;;; do (CSnapshotPop (StreamDoe, hex m))) ;;;
  prunable <- get (λ s, bool_decide (is_Some (rand_prune now RAND_GRACE (p_rand s)))) ;;
  (if (prunable : bool) then do (CRandPrune now) else raise KeyError) ;;;
  forget_unstored_no_longer_served program ;;;
  do (CTrackerPrune now).

Definition process_controls (program : string) : M unit :=
  unless_closed
    (found <- get (program_state program) ;;
     match found with
     | None => ret tt
     | Some ps =>
         relay_default_baseline program ps ;;;
         now <- now_for program ;;
         let primacy := ps_primacy ps in
         stop <- each_control (length (ps_controls ps) + patience) 0 ps
                   (process_control program primacy now) ;;
         if (stop : bool) then ret tt
         else
           stop <- reconcile_removed program now ps ;;
           if (stop : bool) then ret tt
           else
             run_supersession ;;;
             unless_closed (prune_pass program now ;;; apply_initial_dderc program)
     end).

(** ** Program removal and shutdown *)

Definition cancel_program (program : string) : M unit :=
  live <- get (λ s, all_active_states (p_store s)) ;;
  for_each live (λ l,
    r <- read l ;;
    if negb (bool_decide (r_program r = program)) then ret tt
    else
      store_transition (r_mrid r) CANCELLED ;;;
      r' <- read l ;;
      audit_transition r' (Some (state_value (r_state r))) "cancelled" (λ _, NoDetails) ;;;
      do (CTimersCancel (r_mrid r)) ;;;
      relay_control_event l "cancelled") ;;;
  do (CSnapshotPop (StreamBaseline, program)) ;;;
  mine <- get (λ s, (filter (λ mp, mp.2 = program) (p_seen s)).*1) ;;
  for_each mine (λ m, do (CForgetSeen m)).

Definition shutdown : M unit :=
  do CClose ;;; do CTimersCancelAll ;;; await.
End Processor.
