(* ===== verification/ProcFrame.v ===== *)
(** * What each coroutine of the processor may do

    Every atomic call has a kind; [kinds ks] relates two states joined by calls
    of the kinds [ks].  Each coroutine is given the kinds it needs, so that a
    property of all calls of those kinds is a property of the coroutine, at
    every await and on every exception path. *)

From S2P Require Import Prelude Controls EventStore Supersession Randomization Trackers.
From S2P Require Import Response Discovered Timers ProcState Relay Posting Fallback Processor.

Inductive Kind :=
  | KPost | KRelay | KFallback | KDispatch | KWrite | KState | KStore | KTimer | KRand
  | KPrune | KDderc | KLoss | KClose | KAwait.

#[export] Instance Kind_eq_dec : EqDecision Kind.
Proof. solve_decision. Defined.

Definition action_kind (a : Action) : Kind :=
  match a with
  | Post _ _ _ | ResponseNotified _ _ _ => KPost
  | ApplyControl _ _ _ => KDispatch
  | ApplyDefault _ _ _ _ _ | DisableModes _ _ _ | ClearControl _ _ => KFallback
  | Relay _ | Audit _ | AuditLateDispatch _ _ _ _ => KRelay
  end.

Definition kind (c : Call) : Kind :=
  match c with
  | CEmit a => action_kind a
  | CWrite _ _ => KWrite
  | CTransition _ _ => KState
  | CCreate _ | CUpsert _ | CPrune _ => KStore
  | CGetOffsets _ | COverride _ _ _ _ | CRandPrune _ => KRand
  | CClaim _ | CMarkSent _ _ | CRelease _ => KPost
  | CTrackerPrune _ | CSnapshotPop _ | CForgetSeen _ => KPrune
  | CClearDevices _ => KDderc
  | CRecordApplication _ _ _ _ | CUnregister _ _ => KFallback
  | CRegister _ _ _ => KDispatch
  | CSchedule _ _ _ | CTimersCancel _ | CTimersCancelAll => KTimer
  | CSnapshot _ _ | CSeen _ _ => KRelay
  | CResumeAfter _ => KLoss
  | CClose => KClose
  | CAwait => KAwait
  end.

Definition all_kinds : list Kind :=
  [KPost; KRelay; KFallback; KDispatch; KWrite; KState; KStore; KTimer; KRand; KPrune; KDderc;
   KLoss; KClose; KAwait].

Lemma elem_of_all_kinds k : k ∈ all_kinds.
Proof. destruct k; apply (bool_decide_unpack _); exact I. Qed.

Section Frame.
Context {E : Env}.

Definition kinds (ks : list Kind) : relation Proc :=
  rtc (λ s s', ∃ c, kind c ∈ ks ∧ s' = exec c s).

#[global] Instance kinds_preorder ks : PreOrder (kinds ks).
Proof. unfold kinds. apply _. Qed.

Lemma kinds_mono ks ks' s s' : ks ⊆ ks' → kinds ks s s' → kinds ks' s s'.
Proof. intros Hk. apply rtc_subrel. intros ? ? (c & Hc & ->). eauto. Qed.

(** A preorder every allowed call respects relates the two ends. *)
Lemma kinds_ind (R : relation Proc) `{!PreOrder R} ks s s' :
  (∀ c s, kind c ∈ ks → R s (exec c s)) → kinds ks s s' → R s s'.
Proof.
  intros Hc Hs. induction Hs as [|s s1 s' (c & Hk & ->) _ IH]; [done|].
  etrans; [by apply Hc|done].
Qed.

Lemma guar_kinds {A} (R : relation Proc) `{!PreOrder R} ks (m : M A) :
  (∀ c s, kind c ∈ ks → R s (exec c s)) → guar (kinds ks) m → guar R m.
Proof. intros Hc Hm s. eapply kinds_ind; [done|exact Hc|apply Hm]. Qed.

Lemma guar_kinds_mono {A} ks ks' (m : M A) :
  ks ⊆ ks' → guar (kinds ks) m → guar (kinds ks') m.
Proof. intros Hk Hm s. eapply kinds_mono; [exact Hk|apply Hm]. Qed.

Lemma do_kinds ks c : kind c ∈ ks → guar (kinds ks) (do c).
Proof. intros Hk s. apply rtc_once. eauto. Qed.

Lemma read_guar (R : relation Proc) `{!PreOrder R} l : guar R (read l).
Proof. intros s. unfold read. by destruct (deref _ l). Qed.
End Frame.

Ltac in_kinds := first [assumption | apply (bool_decide_unpack _); vm_compute; exact I].

#[export] Hint Extern 2 (guar _ (read _)) => apply read_guar; apply _ : guar.
#[export] Hint Extern 1 (guar (kinds _) (do ?c)) => apply do_kinds; cbn; in_kinds : guar.
#[export] Hint Extern 1 (_ ⊆ _) => in_kinds : guar.

(** Prove a coroutine's kinds from its statements', at exactly those kinds. *)
Ltac kinds_of H := intros H; apply (guar_kinds_mono _ _ _ H); clear H.

Section Coroutines.
Context {E : Env}.

Lemma await_kinds ks : [KAwait] ⊆ ks → guar (kinds ks) await.
Proof. kinds_of H. unfold await. guar_auto. Qed.
Hint Resolve await_kinds : guar.

Lemma unless_closed_kinds ks m : guar (kinds ks) m → guar (kinds ks) (unless_closed m).
Proof. intros H. unfold unless_closed. guar_auto. Qed.

Lemma store_transition_kinds mrid st ks :
  [KState] ⊆ ks → guar (kinds ks) (store_transition mrid st).
Proof. kinds_of H. unfold store_transition. guar_auto. Qed.

Lemma now_for_kinds program ks : guar (kinds ks) (now_for program).
Proof. unfold now_for, now. guar_auto. Qed.
Hint Resolve store_transition_kinds now_for_kinds : guar.

(** ** Posting *)

Lemma reserve_kinds fuel k ks : [KPost; KAwait] ⊆ ks → guar (kinds ks) (reserve fuel k).
Proof. kinds_of H. induction fuel; cbn [reserve]; guar_auto. Qed.
Hint Resolve reserve_kinds : guar.

Lemma post_to_device_kinds derc code dev ks :
  [KPost; KAwait] ⊆ ks → guar (kinds ks) (post_to_device derc code dev).
Proof.
  kinds_of H.
  unfold post_to_device, post_to_lfdi, now, supported_modes2, post_der_response, notify. guar_auto.
Qed.
Hint Resolve post_to_device_kinds : guar.

Lemma post_response_kinds derc code program exclude ks :
  [KPost; KAwait] ⊆ ks → guar (kinds ks) (post_response derc code program exclude).
Proof.
  kinds_of H. unfold post_response, excluded.
  unfold post_to_lfdi, now, supported_modes2, post_der_response, notify. guar_auto.
Qed.

Lemma post_response_for_devices_kinds derc code devs ks :
  [KPost; KAwait] ⊆ ks → guar (kinds ks) (post_response_for_devices derc code devs).
Proof. kinds_of H. unfold post_response_for_devices. guar_auto. Qed.
Hint Resolve post_response_kinds post_response_for_devices_kinds : guar.

Lemma post_started_kinds l code ks :
  [KPost; KAwait] ⊆ ks → guar (kinds ks) (post_started_device_lifecycle l code).
Proof. kinds_of H. unfold post_started_device_lifecycle. guar_auto. Qed.
Hint Resolve post_started_kinds : guar.

(** ** Relay and audit *)

Lemma relay_control_event_kinds l tr ks :
  [KRelay] ⊆ ks → guar (kinds ks) (relay_control_event l tr).
Proof. kinds_of H. unfold relay_control_event, emit_relay. guar_auto. Qed.

Lemma relay_default_baseline_kinds program ps ks :
  [KRelay] ⊆ ks → guar (kinds ks) (relay_default_baseline program ps).
Proof. kinds_of H. unfold relay_default_baseline, emit_relay. guar_auto. Qed.

Lemma audit_transition_kinds r from to d ks :
  [KRelay] ⊆ ks → guar (kinds ks) (audit_transition r from to d).
Proof. kinds_of H. unfold audit_transition. guar_auto. Qed.
Hint Resolve relay_control_event_kinds relay_default_baseline_kinds audit_transition_kinds : guar.

Lemma audit_unstored_kinds derc program prim st du to ks :
  [KRelay] ⊆ ks → guar (kinds ks) (audit_unstored derc program prim st du to).
Proof. kinds_of H. unfold audit_unstored. guar_auto. Qed.

Lemma log_late_dispatch_kinds label c e l ks :
  [KRelay] ⊆ ks → guar (kinds ks) (log_late_dispatch label c e l).
Proof. kinds_of H. unfold log_late_dispatch. guar_auto. Qed.
Hint Resolve audit_unstored_kinds log_late_dispatch_kinds : guar.

(** ** Fallback *)

Lemma gather_kinds acts ks :
  Forall (λ a, action_kind a ∈ ks) acts → KAwait ∈ ks → guar (kinds ks) (gather acts).
Proof.
  intros Ha Hk. rewrite Forall_forall in Ha. unfold gather, await.
  repeat first
    [ apply guar_for_each; [apply _|intros act Hin; apply do_kinds; by apply Ha] | guar_step ].
Qed.

Lemma default_calls_kind mrid origin plans :
  Forall (λ a, action_kind a ∈ [KFallback; KAwait]) (mjoin (default_calls mrid origin <$> plans)).
Proof.
  apply Forall_forall. intros a (calls & Ha & (pl & -> & _)%list_elem_of_fmap)%list_elem_of_join.
  destruct pl as [t [lfdis|]]; cbn in Ha.
  - apply list_elem_of_fmap in Ha as (? & -> & _). in_kinds.
  - apply list_elem_of_singleton in Ha as ->. in_kinds.
Qed.

Lemma withdraw_calls_kind r devs plan s :
  Forall (λ a, action_kind a ∈ [KFallback; KAwait]) (withdraw_calls r devs plan s).
Proof.
  apply Forall_forall. intros a. unfold withdraw_calls.
  destruct (group_local_lfdis _ _); [case_decide; [by intros ?%elem_of_nil|]|];
    intros (? & -> & _)%list_elem_of_fmap; in_kinds.
Qed.

Lemma clear_calls_kind r devs s :
  Forall (λ a, action_kind a ∈ [KFallback; KAwait]) (clear_calls r devs s).
Proof.
  apply Forall_forall. intros a. unfold clear_calls.
  destruct (group_local_lfdis _ _); intros (? & -> & _)%list_elem_of_fmap; in_kinds.
Qed.

Lemma initial_calls_kind locals dderc curves targets :
  Forall (λ a, action_kind a ∈ [KFallback; KAwait])
    (mjoin (initial_calls locals dderc curves <$> targets)).
Proof.
  apply Forall_forall. intros a (calls & Ha & (t & -> & _)%list_elem_of_fmap)%list_elem_of_join.
  destruct locals as [lfdis|]; cbn in Ha.
  - apply list_elem_of_fmap in Ha as (? & -> & _). in_kinds.
  - apply list_elem_of_singleton in Ha as ->. in_kinds.
Qed.

Lemma attribute_defaults_kinds plans results ks :
  [KFallback; KAwait] ⊆ ks → guar (kinds ks) (attribute_defaults plans results).
Proof.
  kinds_of H. revert results. induction plans as [|[t locals] plans IH]; intros results;
    cbn [attribute_defaults]; guar_auto.
Qed.

Lemma attribute_initial_kinds program ps mrid n targets results ks :
  [KFallback; KAwait] ⊆ ks → guar (kinds ks) (attribute_initial program ps mrid n targets results).
Proof.
  kinds_of H. revert results. induction targets as [|[d lfdi] targets IH]; intros results;
    cbn [attribute_initial]; guar_auto.
Qed.
Hint Resolve attribute_defaults_kinds attribute_initial_kinds : guar.

Ltac gather_step :=
  first [ apply gather_kinds; [first [apply default_calls_kind | apply initial_calls_kind]|in_kinds]
        | guar_step ].

Lemma dispatch_defaults_kinds mrid targets ks :
  [KFallback; KAwait] ⊆ ks → guar (kinds ks) (dispatch_defaults mrid targets).
Proof. kinds_of H. unfold dispatch_defaults. repeat gather_step. Qed.
Hint Resolve dispatch_defaults_kinds : guar.

(** A gather whose calls are computed from the state. *)
Lemma gather_from_kinds (f : Proc → list Action) ks :
  (∀ s, Forall (λ a, action_kind a ∈ ks) (f s)) → KAwait ∈ ks →
  guar (kinds ks) (calls <- get f ;; gather calls ;;; ret tt).
Proof.
  intros Hf Hk s. unfold bind, get. pose proof (gather_kinds (f s) ks (Hf s) Hk s) as Hg.
  destruct (gather (f s) s) as [[e|x] s']; exact Hg.
Qed.

Lemma apply_dderc_fallback_kinds l clear ks :
  [KFallback; KAwait] ⊆ ks → guar (kinds ks) (apply_dderc_fallback l clear).
Proof.
  kinds_of H. unfold apply_dderc_fallback, release_device.
  repeat first
    [ apply gather_from_kinds;
      [intros ?; first [apply withdraw_calls_kind|apply clear_calls_kind]|in_kinds]
    | guar_step ].
Qed.

Lemma apply_initial_dderc_kinds program ks :
  [KFallback; KAwait] ⊆ ks → guar (kinds ks) (apply_initial_dderc program).
Proof. kinds_of H. unfold apply_initial_dderc, dispatch_initial. repeat gather_step. Qed.
Hint Resolve apply_dderc_fallback_kinds apply_initial_dderc_kinds : guar.

(** ** Dispatch and supersession *)

Abbreviation dispatch_kinds := [KPost; KFallback; KDispatch; KWrite; KAwait] (only parsing).

Lemma respond_kinds l dev f ks : dispatch_kinds ⊆ ks → guar (kinds ks) (respond l dev f).
Proof. kinds_of H. unfold respond. guar_auto. Qed.
Hint Resolve respond_kinds : guar.

Lemma apply_control_to_devices_kinds l ks :
  dispatch_kinds ⊆ ks → guar (kinds ks) (apply_control_to_devices l).
Proof.
  kinds_of H. unfold apply_control_to_devices, dispatch_by_lfdi_group, dispatch_each.
  repeat first
    [ apply gather_kinds; [apply Forall_fmap, Forall_true; intros; cbn; in_kinds|in_kinds]
    | guar_step ].
Qed.
Hint Resolve apply_control_to_devices_kinds : guar.

Lemma apply_and_respond_kinds l ks : dispatch_kinds ⊆ ks → guar (kinds ks) (apply_and_respond l).
Proof. kinds_of H. unfold apply_and_respond. guar_auto. Qed.
Hint Resolve apply_and_respond_kinds : guar.

Abbreviation ending_kinds := [KPost; KRelay; KFallback; KWrite; KState; KTimer; KAwait]
  (only parsing).

Lemma run_supersession_kinds ks : ending_kinds ⊆ ks → guar (kinds ks) run_supersession.
Proof.
  kinds_of H. unfold run_supersession, supersede_one, supersede_on, supersede_fully. guar_auto.
Qed.

Lemma handle_cancellation_kinds l ks : ending_kinds ⊆ ks → guar (kinds ks) (handle_cancellation l).
Proof. kinds_of H. unfold handle_cancellation. guar_auto. Qed.
Hint Resolve run_supersession_kinds handle_cancellation_kinds : guar.

(** ** Loss of communications: nothing is posted *)

Abbreviation opt_out_kinds := [KRelay; KFallback; KWrite; KTimer; KLoss; KAwait] (only parsing).

Lemma opt_out_event_kinds l from ks : opt_out_kinds ⊆ ks → guar (kinds ks) (opt_out_event l from).
Proof. kinds_of H. unfold opt_out_event, raise_boundary. guar_auto. Qed.

Lemma enter_comms_loss_kinds ks : opt_out_kinds ⊆ ks → guar (kinds ks) enter_comms_loss.
Proof. kinds_of H. unfold enter_comms_loss, raise_boundary. guar_auto. Qed.
Hint Resolve opt_out_event_kinds enter_comms_loss_kinds : guar.

(** ** Whole handlers *)

Abbreviation handler_kinds :=
  [KPost; KRelay; KFallback; KDispatch; KWrite; KState; KTimer; KLoss; KAwait] (only parsing).

Lemma handle_new_scheduled_kinds l ks :
  [KPost; KRelay; KTimer; KAwait] ⊆ ks → guar (kinds ks) (handle_new_scheduled l).
Proof. kinds_of H. unfold handle_new_scheduled, unless_closed. guar_auto. Qed.

Lemma handle_late_discovery_kinds l ks :
  handler_kinds ⊆ ks → guar (kinds ks) (handle_late_discovery l).
Proof. kinds_of H. unfold handle_late_discovery, unless_closed, audit_activation. guar_auto. Qed.

Lemma on_activation_kinds l ks : handler_kinds ⊆ ks → guar (kinds ks) (on_activation l).
Proof.
  kinds_of H. unfold on_activation, unless_closed, audit_activation, wait_state_ready. guar_auto.
Qed.

Lemma on_completion_kinds l ks : handler_kinds ⊆ ks → guar (kinds ks) (on_completion l).
Proof. kinds_of H. unfold on_completion, wait_state_ready. guar_auto. Qed.
Hint Resolve handle_new_scheduled_kinds handle_late_discovery_kinds on_activation_kinds
  on_completion_kinds : guar.

Lemma fire_timer_kinds t ks : handler_kinds ⊆ ks → guar (kinds ks) (fire_timer t).
Proof.
  kinds_of H. intros s. unfold fire_timer, swallow, timer_callback. cbn. revert s.
  change (guar (kinds handler_kinds)
    (r <- read (tm_record t) ;;
     if negb (fires r) then ret tt
     else match tm_kind t with
     | Activation => on_activation (tm_record t)
     | Completion => on_completion (tm_record t)
     | WindDown => apply_dderc_fallback (tm_record t) false
     end)). guar_auto.
Qed.

Lemma each_control_kinds fuel i ps f ks :
  (∀ d, guar (kinds ks) (f d)) → guar (kinds ks) (each_control fuel i ps f).
Proof. intros Hf. revert i. induction fuel; intros i; cbn [each_control]; guar_auto. Qed.

Lemma process_controls_kinds program : guar (kinds all_kinds) (process_controls program).
Proof.
  unfold process_controls, unless_closed, process_control, effective_offsets, refresh_existing,
    new_event, admit_event, create_record, reconcile_removed, prune_pass,
    forget_unstored_no_longer_served.
  repeat first [ apply each_control_kinds; intros ? | guar_step ].
Qed.

Lemma cancel_program_kinds program : guar (kinds all_kinds) (cancel_program program).
Proof. unfold cancel_program. guar_auto. Qed.

Lemma shutdown_kinds : guar (kinds all_kinds) shutdown.
Proof. unfold shutdown. guar_auto. Qed.
End Coroutines.

#[export] Hint Resolve await_kinds store_transition_kinds now_for_kinds post_response_kinds
  post_response_for_devices_kinds post_started_kinds relay_control_event_kinds
  relay_default_baseline_kinds audit_transition_kinds audit_unstored_kinds log_late_dispatch_kinds
  apply_dderc_fallback_kinds apply_initial_dderc_kinds respond_kinds apply_control_to_devices_kinds
  apply_and_respond_kinds run_supersession_kinds handle_cancellation_kinds opt_out_event_kinds
  enter_comms_loss_kinds handle_new_scheduled_kinds handle_late_discovery_kinds on_activation_kinds
  on_completion_kinds fire_timer_kinds process_controls_kinds cancel_program_kinds shutdown_kinds
  : guar.
