(* ===== verification/Evolution.v ===== *)
(** * What no interleaving can undo

    The operations of the processor as a type, and the guarantee they all give
    under any interference that gives it too: well-formed components stay
    well-formed, no record object is lost or changes identity, the facts
    recorded about devices only grow, and nothing emitted is unsaid. *)

From S2P Require Import Prelude Controls EventStore Supersession Randomization Trackers.
From S2P Require Import Response Discovered Timers ProcState Relay Posting Fallback Processor.
From S2P Require Import ProcFrame.

(** The entry points of the processor: polls, timers, the client's calls. *)
Inductive Op :=
  | OpPoll (program : string)
  | OpFire (t : Timer)
  | OpCancelProgram (program : string)
  | OpCommsLoss
  | OpLateDispatch (label : string) (cancelled : bool) (error : option DispatchError) (l : loc)
  | OpShutdown.

Definition run_op {E : Env} (op : Op) : M unit :=
  match op with
  | OpPoll program => process_controls program
  | OpFire t => fire_timer t
  | OpCancelProgram program => cancel_program program
  | OpCommsLoss => enter_comms_loss
  | OpLateDispatch label cancelled error l => log_late_dispatch label cancelled error l
  | OpShutdown => shutdown
  end.

(** What may happen to a record object over time. *)
Record record_evolves (r r' : EventRecord) : Prop := {
  re_mrid : r_mrid r' = r_mrid r;
  re_program : r_program r' = r_program r;
  re_primacy : r_primacy r' = r_primacy r;
  re_start : r_start r' = r_start r;
  re_duration : r_duration r' = r_duration r;
  re_superseded : r_superseded r ⊆ r_superseded r';
  re_rejected : r_rejected r ⊆ r_rejected r';
  re_applied : r_applied r ⊆ r_applied r';
  re_opted_out : r_opted_out r = true → r_opted_out r' = true;
}.

Record evolves (s s' : Proc) : Prop := {
  ev_records : ∀ l r, deref (p_store s) l = Some r →
    ∃ r', deref (p_store s') l = Some r' ∧ record_evolves r r';
  ev_store : store_wf (p_store s) → store_wf (p_store s');
  ev_modes : ActiveModes.registry_wf (p_modes s) → ActiveModes.registry_wf (p_modes s');
  ev_rand : rand_wf (p_rand s) → rand_wf (p_rand s');
  ev_log : p_log s `prefix_of` p_log s';
  ev_closed : p_closed s = true → p_closed s' = true;
}.

#[export] Instance record_evolves_preorder : PreOrder record_evolves.
Proof.
  split.
  - intros r. by split.
  - intros r1 r2 r3 [] []. split; try congruence; try (etrans; eassumption). auto.
Qed.

#[export] Instance evolves_preorder : PreOrder evolves.
Proof.
  split.
  - intros s. split; [|done..]. intros l r Hr. by exists r.
  - intros s1 s2 s3 [R1 S1 M1 D1 L1 C1] [R2 S2 M2 D2 L2 C2].
    split; auto; [|by etrans]. intros l r Hr.
    destruct (R1 l r Hr) as (r' & Hr' & He). destruct (R2 l r' Hr') as (r'' & Hr'' & He').
    exists r''. split; [done|by etrans].
Qed.

(** Changing only one component leaves the others' clauses reflexive. *)
Lemma evolves_store s st :
  (∀ l r, deref (p_store s) l = Some r → ∃ r', deref st l = Some r' ∧ record_evolves r r') →
  (store_wf (p_store s) → store_wf st) → evolves s (set_store st s).
Proof. intros Hr Hwf. split; try done. Qed.

Lemma evolves_other s s' :
  p_store s' = p_store s → p_modes s' = p_modes s → p_rand s' = p_rand s →
  p_log s `prefix_of` p_log s' → (p_closed s = true → p_closed s' = true) → evolves s s'.
Proof.
  intros Hs Hm Hr Hl Hc. split; rewrite ?Hs, ?Hm, ?Hr; try done.
  by intros l0 r0 Hr0; exists r0.
Qed.

Lemma write_record_evolves w r : record_evolves r (write_record w r).
Proof. destruct w; split; cbn; try done; set_solver. Qed.

Lemma update_evolves l f s :
  (∀ r, record_evolves r (f r)) → evolves s (set_store (update l f (p_store s)) s).
Proof.
  intros Hf. apply evolves_store.
  - intros l' r Hr. rewrite deref_update. case_decide; rewrite Hr; cbn; [eauto|by exists r].
  - apply update_wf. intros r. apply Hf.
Qed.

Lemma transition_evolves mrid st s :
  evolves s (set_store (default (p_store s) (transition mrid st (p_store s))) s).
Proof.
  unfold transition. destruct (store_get mrid (p_store s)) as [l|]; cbn; [|by destruct s].
  apply update_evolves. intros r. by split.
Qed.

Lemma same_objs_evolves s st :
  objs st = objs (p_store s) → (store_wf (p_store s) → store_wf st) → evolves s (set_store st s).
Proof.
  intros Ho Hwf. apply evolves_store; [|done]. unfold deref. rewrite Ho.
  by intros l0 r0 Hr0; exists r0.
Qed.

Section Evolution.
Context {E : Env}.
Hypothesis rely : ∀ n s, evolves s (interfere n s).

Lemma exec_evolves c s : evolves s (exec c s).
Proof.
  destruct c; cbn;
    try (apply evolves_other; cbn; first [done | apply prefix_app_r; done]).
  - apply update_evolves, write_record_evolves.
  - apply transition_evolves.
  - apply evolves_store; [|apply alloc_wf].
    intros l r0 Hr. exists r0. split; [by apply deref_alloc_old|done].
  - apply same_objs_evolves; [unfold upsert; by destruct (deref _ l)|apply upsert_wf].
  - apply same_objs_evolves; [done|apply prune_wf].
  - split; try done; cbn; [by intros l0 r0 Hr0; exists r0|apply get_offsets_wf].
  - split; try done; cbn; [by intros l0 r0 Hr0; exists r0|apply override_wf].
  - split; try done; cbn; [by intros l0 r0 Hr0; exists r0|]. intros Hwf.
    destruct (rand_prune_ok now RAND_GRACE (p_rand s) Hwf) as (rc & -> & Hrc & _). done.
  - split; try done; cbn; [by intros l0 r0 Hr0; exists r0|apply ActiveModes.register_wf].
  - split; try done; cbn; [by intros l0 r0 Hr0; exists r0|apply ActiveModes.unregister_wf].
  - destruct (rely (p_tick s) s) as [R1 S1 M1 D1 L1 C1]. by split.
Qed.

Lemma run_op_kinds op : guar (kinds all_kinds) (run_op op).
Proof. destruct op; cbn [run_op]; eauto with guar. Qed.

(** Every operation of the processor, whatever runs at its awaits (as
    long as that gives the same guarantee), whether it returns or raises:
    keeps the store, the mode registry and the randomization cache
    well-formed; keeps every record object, with its mRID, program, primacy
    and effective interval; only adds to the devices an event was applied,
    rejected or superseded on, and never takes back an opt-out; only appends
    to what has been emitted; and never reopens a closed processor. *)
Theorem operations_evolve (op : Op) (s : Proc) : evolves s (run_op op s).2.
Proof.
  apply (guar_kinds evolves all_kinds); [intros c s' _; apply exec_evolves|apply run_op_kinds].
Qed.
End Evolution.

(** ** A concrete environment and system

    One program of two devices with a default, a 2023 server that accepts every
    POST, and a clock that reads 1000 + 10 * awaits; what interferes and what
    the devices answer are left open. *)
Definition env_with (interference : nat → Proc → Proc)
    (answers : nat → Action → option DispatchError) : Env :=
  {| interfere := interference;
     timebase_now := λ n _, 1000 + 10 * Z.of_nat n;
     local_now := λ n, 1000 + 10 * Z.of_nat n;
     randint := λ _ _ _ m, m;
     state_ready := λ _, true;
     post_outcome := λ _ _ _, PostOk;
     future_result := λ _ _, true;
     dispatch_result := answers;
     settle_order := λ _ l, l;
     settle_order_perm := λ _ l, reflexivity l;
     group_lookup := λ _ _, None;
     takes_controls := λ _, true;
     supported_modes2_hook := None;
     profile := λ _, {| profile_base := Some E2023; profile_features := ∅ |};
     has_observer := false;
     audit_enabled := true;
     audit_keeps_history := false;
     wire_name := λ n, n;
     held_program := λ _ ps, ps;
     task_cancelled := λ _, false;
     patience := 0 |}.

(** No interference, and devices that accept every write. *)
Definition sample_env : Env := env_with (λ _ s, s) (λ _ _, None).

Definition sample_default : DefaultDercontrol :=
  {| dd_mrid := "DD"; dd_base := sample_base ["op_mod_fixed_w"]; dd_settings := [] |}.

Definition sample_program (href : string) (primacy : Z) (controls : list Dercontrol)
    : DerProgramState :=
  {| ps_href := href; ps_primacy := primacy; ps_default := Some sample_default;
     ps_controls := controls; ps_curves := []; ps_fsa := None; ps_controls_complete := true;
     ps_control_list_link := None; ps_default_link := None |}.

(** Two devices, [/a] and [/b], both in program [/p]. *)
Definition sample_disc (controls : list Dercontrol) : DiscoveredState :=
  mkDisc [("/a", {| ed_href := "/a"; ed_lfdi := "A" |}); ("/b", {| ed_href := "/b"; ed_lfdi := "B" |})]
         [("/p", sample_program "/p" 1 controls)]
         (mapping_add "/p" "/b" (mapping_add "/p" "/a" empty_mapping)).

Lemma operations_evolve_witness :
  (∀ n s, evolves s (@interfere sample_env n s)) ∧
  let s := new_proc (sample_disc [sample_control "E1" ["op_mod_fixed_w"] 900 600]) in
  evolves s (@run_op sample_env (OpPoll "/p") s).2 ∧
  length (p_log (@run_op sample_env (OpPoll "/p") s).2) = 9%nat.
Proof.
  split; [intros n s; reflexivity|]. split; [|vm_compute; reflexivity].
  apply (operations_evolve (E := sample_env)). intros n s. reflexivity.
Defined.

(** An event whose scheduling has been relayed is not relayed again unchanged. *)
Lemma updates_relayed_on_change_witness :
  let s := set_store (mkStore [sample_record "E1" "/p" 1 SCHEDULED ["op_mod_fixed_w"] 2000 600]
                        [("E1", 0%nat)]) (new_proc (sample_disc [])) in
  let s1 := (@relay_control_event sample_env 0 "scheduled" s).2 in
  length (p_log s1) = 1%nat ∧ @relay_control_event sample_env 0 "updated" s1 = (inr tt, s1).
Proof.
  cbn zeta. split; [vm_compute; reflexivity|].
  refine (proj1 (updates_relayed_on_change (E := sample_env) 0
    (sample_record "E1" "/p" 1 SCHEDULED ["op_mod_fixed_w"] 2000 600) "scheduled" _ _)).
  reflexivity.
Defined.
