(* ===== verification/Lifecycle.v ===== *)
(** * The lifecycle of events under whole operations

    When each operation runs without another handler cutting in at its awaits,
    an event only ever takes the steps scheduled -> active -> completed, or
    leaves a live state by cancellation or supersession; a terminal state is
    final.  (With interleaving this fails: see the races at the end.) *)

From S2P Require Import Prelude Controls EventStore Supersession Randomization Trackers.
From S2P Require Import Response Discovered Timers ProcState Relay Posting Fallback Processor.
From S2P Require Import ProcFrame Evolution.

(** No other handler runs at the awaits. *)
Definition calm (E : Env) : Prop := ∀ n s, interfere n s = s.

(** Same store, same record states. *)
Record same_states (s s' : Proc) : Prop := {
  ss_events : events (p_store s') = events (p_store s);
  ss_records : ∀ l r, deref (p_store s) l = Some r →
    ∃ r', deref (p_store s') l = Some r' ∧ r_mrid r' = r_mrid r ∧ r_state r' = r_state r;
}.

(** Same store, same record states but for the record at [l]. *)
Record touches (l : loc) (s s' : Proc) : Prop := {
  to_events : events (p_store s') = events (p_store s);
  to_records : ∀ l' r, deref (p_store s) l' = Some r →
    ∃ r', deref (p_store s') l' = Some r' ∧ r_mrid r' = r_mrid r ∧
          (l' ≠ l → r_state r' = r_state r);
}.

(** From a well-formed store, every record takes lifecycle steps only. *)
Definition lives (s s' : Proc) : Prop :=
  store_wf (p_store s) →
  store_wf (p_store s') ∧
  ∀ l r, deref (p_store s) l = Some r →
    ∃ r', deref (p_store s') l = Some r' ∧ lifecycle (r_state r) (r_state r').

#[export] Instance same_states_preorder : PreOrder same_states.
Proof.
  split.
  - intros s. split; [done|]. intros l r Hr. by exists r.
  - intros s1 s2 s3 [E1 R1] [E2 R2]. split; [congruence|]. intros l r Hr.
    destruct (R1 l r Hr) as (r1 & Hr1 & ? & ?). destruct (R2 l r1 Hr1) as (r2 & Hr2 & ? & ?).
    exists r2. split_and!; congruence.
Qed.

#[export] Instance touches_preorder l : PreOrder (touches l).
Proof.
  split.
  - intros s. split; [done|]. intros l' r Hr. by exists r.
  - intros s1 s2 s3 [E1 R1] [E2 R2]. split; [congruence|]. intros l' r Hr.
    destruct (R1 l' r Hr) as (r1 & Hr1 & ? & H1). destruct (R2 l' r1 Hr1) as (r2 & Hr2 & ? & H2).
    exists r2. split_and!; [congruence..|]. intros Hne. rewrite H2, H1; done.
Qed.

#[export] Instance lives_preorder : PreOrder lives.
Proof.
  split.
  - intros s Hwf. split; [done|]. intros l r Hr. by exists r.
  - intros s1 s2 s3 H1 H2 Hwf. destruct (H1 Hwf) as [Hwf2 R1]. destruct (H2 Hwf2) as [Hwf3 R2].
    split; [done|]. intros l r Hr. destruct (R1 l r Hr) as (r1 & Hr1 & L1).
    destruct (R2 l r1 Hr1) as (r2 & Hr2 & L2). exists r2. split; [done|by etrans].
Qed.

(** The store may be taken to be well-formed when [lives] is proved. *)
Lemma lives_assume s s' : (store_wf (p_store s) → lives s s') → lives s s'.
Proof. intros H Hwf. by apply H. Qed.

Lemma same_states_touches l s s' : same_states s s' → touches l s s'.
Proof.
  intros [E1 R1]. split; [done|]. intros l' r Hr. destruct (R1 l' r Hr) as (r' & ? & ? & ?). eauto 10.
Qed.

Lemma same_states_wf s s' : same_states s s' → store_wf (p_store s) → store_wf (p_store s').
Proof.
  intros [E1 R1] [Hk Ho]. split; rewrite E1; [done|]. intros m l Hin.
  destruct (Ho m l Hin) as (r & Hr & Hm). destruct (R1 l r Hr) as (r' & Hr' & Hm' & _).
  exists r'. split; [done|congruence].
Qed.

Lemma same_states_lives s s' : same_states s s' → lives s s'.
Proof.
  intros Hs Hwf. split; [by eapply same_states_wf|]. intros l r Hr.
  destruct (ss_records _ _ Hs l r Hr) as (r' & ? & _ & Hst). exists r'. by rewrite Hst.
Qed.

(** The record at [l] is the one its mRID names, and has not ended. *)
Definition current_live (l : loc) (s : Proc) : Prop :=
  ∃ r, deref (p_store s) l = Some r ∧ store_get (r_mrid r) (p_store s) = Some l ∧
       is_live (r_state r) = true.

Lemma current_live_touches l l' s s' :
  l ≠ l' → touches l' s s' → current_live l s → current_live l s'.
Proof.
  intros Hne [E1 R1] (r & Hr & Hg & Hl). destruct (R1 l r Hr) as (r' & Hr' & Hm & Hst).
  exists r'. unfold store_get. rewrite E1, Hm, Hst by done. done.
Qed.

Lemma current_live_same l s s' : same_states s s' → current_live l s → current_live l s'.
Proof.
  intros [E1 R1] (r & Hr & Hg & Hl). destruct (R1 l r Hr) as (r' & Hr' & Hm & Hst).
  exists r'. unfold store_get. rewrite E1, Hm, Hst. done.
Qed.

Lemma bind_read {E : Env} {A} l r (k : EventRecord → M A) s :
  deref (p_store s) l = Some r → bind (read l) k s = k r s.
Proof. intros Hr. unfold bind, read. by rewrite Hr. Qed.

Lemma bind_transition {E : Env} {A} mrid st l (k : M A) s :
  store_get mrid (p_store s) = Some l →
  (store_transition mrid st ;;; k) s = k (exec (CTransition mrid st) s).
Proof. intros Hg. unfold store_transition, bind, get. by rewrite Hg. Qed.

Lemma exec_transition {E : Env} mrid st l s :
  store_get mrid (p_store s) = Some l →
  p_store (exec (CTransition mrid st) s) = update l (set_state st) (p_store s).
Proof. intros Hg. cbn. unfold transition. by rewrite Hg. Qed.

Section Transition.
Context {E : Env} (l : loc) (r : EventRecord) (st : EventState) (s : Proc).
Hypothesis Hr : deref (p_store s) l = Some r.
Hypothesis Hg : store_get (r_mrid r) (p_store s) = Some l.
Hypothesis Hstep : lifecycle_step (r_state r) st.

Lemma transition_deref : deref (p_store (exec (CTransition (r_mrid r) st) s)) l = Some (set_state st r).
Proof. rewrite (exec_transition _ _ l) by done. rewrite deref_update, decide_True, Hr by done. done. Qed.

Lemma transition_touches : touches l s (exec (CTransition (r_mrid r) st) s).
Proof.
  split; rewrite (exec_transition _ _ l) by done; [done|].
  intros l' r' Hr'. rewrite deref_update, Hr'. case_decide as Hc; cbn; [|eauto].
  eexists. split_and!; [done..|]. congruence.
Qed.

Lemma transition_lives : lives s (exec (CTransition (r_mrid r) st) s).
Proof.
  intros Hwf. rewrite (exec_transition _ _ l) by done. split; [by apply update_wf|].
  intros l' r' Hr'. rewrite deref_update, Hr'. case_decide as Hc; cbn; [|by eexists].
  eexists. split; [done|]. cbn. subst. rewrite Hr in Hr'. simplify_eq. by apply rtc_once.
Qed.
End Transition.

Lemma all_active_current (s : Proc) (l : loc) :
  store_wf (p_store s) → l ∈ all_active_states (p_store s) → current_live l s.
Proof.
  intros Hwf (m & r & Hin & Hr & Hl)%elem_of_all_active. exists r. split_and!; [done| |done].
  destruct (wf_objs _ Hwf m l Hin) as (r' & Hr' & Hm). simplify_eq.
  unfold store_get. by apply dict_elem_get; [apply wf_keys|].
Qed.

Lemma all_active_NoDup (st : EventStore) : store_wf st → NoDup (all_active_states st).
Proof.
  intros Hwf. apply NoDup_filter. unfold dict_values. apply NoDup_fmap_2_strong.
  - intros [m1 l1] [m2 l2] H1 H2 [= ->]. destruct (wf_objs _ Hwf _ _ H1) as (r1 & Hr1 & <-).
    destruct (wf_objs _ Hwf _ _ H2) as (r2 & Hr2 & <-). congruence.
  - eapply (NoDup_fmap_1 fst). apply wf_keys, Hwf.
Qed.

(** A loop over distinct live records, each of which the body may end. *)
Section Loops.
Context {E : Env}.

Definition ends_one {A} (f : loc → M A) (l : loc) : Prop :=
  ∀ s, store_wf (p_store s) → current_live l s →
       lives s (f l s).2 ∧ touches l s (f l s).2.

Lemma for_until_lives (f : loc → M bool) (ls : list loc) (s : Proc) :
  NoDup ls → (∀ l, l ∈ ls → ends_one f l) → store_wf (p_store s) →
  (∀ l, l ∈ ls → current_live l s) → lives s (for_until ls f s).2.
Proof.
  intros Hnd Hf. revert s. induction Hnd as [|l ls Hl Hnd IH]; intros s Hwf Hc; [done|].
  cbn [for_until]. unfold bind.
  destruct (Hf l ltac:(left) s Hwf (Hc l ltac:(left))) as [Hlv Ht].
  destruct (f l s) as [[e|b] s1]; cbn in *; [done|]. destruct b; [done|].
  etrans; [exact Hlv|]. apply IH.
  - intros l' Hl'. apply Hf. by right.
  - by apply Hlv.
  - intros l' Hl'. eapply current_live_touches; [|exact Ht|apply Hc; by right]. set_solver.
Qed.

Lemma for_each_lives (f : loc → M unit) (ls : list loc) (s : Proc) :
  NoDup ls → (∀ l, l ∈ ls → ends_one f l) → store_wf (p_store s) →
  (∀ l, l ∈ ls → current_live l s) → lives s (for_each ls f s).2.
Proof.
  intros Hnd Hf. revert s. induction Hnd as [|l ls Hl Hnd IH]; intros s Hwf Hc; [done|].
  cbn [for_each]. unfold bind.
  destruct (Hf l ltac:(left) s Hwf (Hc l ltac:(left))) as [Hlv Ht].
  destruct (f l s) as [[e|b] s1]; cbn in *; [done|].
  etrans; [exact Hlv|]. apply IH.
  - intros l' Hl'. apply Hf. by right.
  - by apply Hlv.
  - intros l' Hl'. eapply current_live_touches; [|exact Ht|apply Hc; by right]. set_solver.
Qed.

(** A statement that keeps all states, then a statement checked where it ends. *)
Lemma bind_same_lives {A B} (m : M A) (k : A → M B) (s : Proc) :
  guar same_states m → (∀ a s1, same_states s s1 → lives s1 (k a s1).2) → lives s (bind m k s).2.
Proof.
  intros Hm Hk. unfold bind. specialize (Hm s). destruct (m s) as [[e|a] s1]; cbn in *.
  - by apply same_states_lives.
  - etrans; [by apply same_states_lives|]. by apply Hk.
Qed.
End Loops.

Section Calm.
Context {E : Env} (Hcalm : calm E).

(** Everything but creating, storing, pruning and moving records. *)
Definition frame_kinds : list Kind :=
  [KPost; KRelay; KFallback; KDispatch; KWrite; KTimer; KRand; KPrune; KDderc; KLoss; KClose;
   KAwait].

Lemma exec_same_states c s : kind c ∈ frame_kinds → same_states s (exec c s).
Proof.
  intros Hk. destruct c;
    try (exfalso; revert Hk; apply (bool_decide_unpack _); vm_compute; exact I);
    cbn in *; try (split; [done|]; intros l' r' Hr'; by exists r').
  - split; [done|]. cbn. intros l' r Hr. rewrite deref_update, Hr. case_decide; cbn; [|eauto].
    eexists. split; [done|]. destruct w; done.
  - rewrite Hcalm. split; [done|]. intros l' r' Hr'. by exists r'.
Qed.

Lemma same_states_of {A} (m : M A) : guar (kinds frame_kinds) m → guar same_states m.
Proof. apply guar_kinds; [apply _|]. intros c s. apply exec_same_states. Qed.

Lemma exec_lives c s : kind c ≠ KState → lives s (exec c s).
Proof.
  intros Hk. destruct (decide (kind c ∈ frame_kinds)) as [Hf|Hf];
    [by apply same_states_lives, exec_same_states|].
  destruct c; try (exfalso; apply Hf; in_kinds); cbn in *.
  - by destruct (Hf ltac:(by destruct a; in_kinds)).
  - by destruct (Hk eq_refl).
  - intros Hwf. split; [by apply alloc_wf|]. intros l r0 Hr. exists r0. split; [|done].
    by apply deref_alloc_old.
  - intros Hwf. split; [by apply upsert_wf|]. intros l0 r0 Hr. exists r0. split; [|done].
    unfold upsert. by destruct (deref (p_store s) l).
  - intros Hwf. split; [by apply prune_wf|]. intros l0 r0 Hr. by exists r0.
Qed.

Lemma lives_of {A} (m : M A) : guar same_states m → guar lives m.
Proof. intros H s. apply same_states_lives, H. Qed.

Lemma do_lives c : kind c ≠ KState → guar lives (do c).
Proof. intros Hk s. by apply exec_lives. Qed.

(** The shape of every handler that ends or starts an event. *)
Lemma transition_then_same (l : loc) (r : EventRecord) (st : EventState) (rest : M unit) s :
  deref (p_store s) l = Some r → store_get (r_mrid r) (p_store s) = Some l →
  lifecycle_step (r_state r) st → guar same_states rest →
  lives s ((store_transition (r_mrid r) st ;;; rest) s).2 ∧
  touches l s ((store_transition (r_mrid r) st ;;; rest) s).2.
Proof.
  intros Hr Hg Hst Hrest. rewrite (bind_transition _ _ l) by done.
  specialize (Hrest (exec (CTransition (r_mrid r) st) s)). split.
  - etrans; [by eapply transition_lives|by apply same_states_lives].
  - etrans; [by eapply transition_touches|by apply same_states_touches].
Qed.

Lemma handle_cancellation_ends l : ends_one handle_cancellation l.
Proof.
  intros s Hwf (r & Hr & Hg & Hl). unfold handle_cancellation. rewrite (bind_read _ r) by done.
  apply transition_then_same; [done..|by constructor|]. apply same_states_of. guar_auto.
Qed.

Lemma supersede_fully_lives l by_mrid s :
  store_wf (p_store s) → current_live l s → lives s (supersede_fully l by_mrid s).2.
Proof.
  intros Hwf (r & Hr & Hg & Hl). unfold supersede_fully. rewrite (bind_read _ r) by done.
  eapply proj1, transition_then_same; [done..|by constructor|]. apply same_states_of. guar_auto.
Qed.

Lemma supersede_on_lives dm res l r s :
  store_wf (p_store s) → current_live l s → lives s (supersede_on dm res l r s).2.
Proof.
  intros Hwf Hc. unfold supersede_on.
  apply bind_same_lives; [apply same_states_of; guar_auto|intros [] s1 H1].
  apply bind_same_lives; [apply same_states_of; guar_auto|intros [] s2 H2].
  apply bind_same_lives; [apply same_states_of; guar_auto|intros [] s3 H3].
  apply bind_same_lives; [apply same_states_of; guar_auto|intros r' s4 H4].
  apply bind_same_lives; [apply same_states_of; guar_auto|intros [] s5 H5].
  unfold when. destruct (negb _ && _); [|done].
  apply supersede_fully_lives; eauto 10 using same_states_wf, current_live_same.
Qed.

Lemma supersede_one_lives dm res : guar lives (supersede_one dm res).
Proof.
  intros s. apply lives_assume. intros Hwf. unfold supersede_one. unfold bind at 1, get at 1.
  destruct (store_get (superseded_mrid res) (p_store s)) as [l|] eqn:Hg; [|done].
  destruct (store_get_deref _ _ _ Hwf Hg) as (r & Hr & Hm). rewrite (bind_read _ r) by done.
  unfold is_terminal. destruct (is_live (r_state r)) eqn:Hl; cbn [negb]; [|done].
  apply bind_same_lives; [apply same_states_of; guar_auto|intros [w|] s1 H1; [|done]].
  apply bind_same_lives; [apply same_states_of; guar_auto|intros rw s2 H2].
  destruct (bool_decide _ && bool_decide _); [done|].
  assert (same_states s s2) as H12 by (by etrans).
  apply supersede_on_lives; [by eapply same_states_wf|].
  apply (current_live_same _ s); [done|]. exists r. by rewrite Hm.
Qed.

Lemma run_supersession_lives : guar lives run_supersession.
Proof.
  unfold run_supersession.
  repeat first [apply supersede_one_lives | guar_step].
Qed.

(** The record is the one its mRID names, or its mRID is no longer stored. *)
Definition not_replaced (l : loc) (s : Proc) : Prop :=
  ∀ r, deref (p_store s) l = Some r →
    store_get (r_mrid r) (p_store s) = Some l ∨ store_get (r_mrid r) (p_store s) = None.

Lemma not_replaced_same l s s' :
  is_Some (deref (p_store s) l) → same_states s s' → not_replaced l s → not_replaced l s'.
Proof.
  intros [r Hr] [E1 R1] Hn r' Hr'. destruct (R1 l r Hr) as (r1 & Hr1 & Hm & _).
  assert (r1 = r') as -> by congruence. unfold store_get in *. rewrite E1, Hm. by apply Hn.
Qed.

Lemma handle_cancellation_lives l s : current_live l s → lives s (handle_cancellation l s).2.
Proof. intros Hc. apply lives_assume. intros Hwf. by apply handle_cancellation_ends. Qed.

(** A step guarded by the state just read, on a record not replaced. *)
Lemma guarded_transition_lives l r st (rest : M unit) s :
  deref (p_store s) l = Some r → not_replaced l s → lifecycle_step (r_state r) st →
  guar lives rest → lives s ((store_transition (r_mrid r) st ;;; rest) s).2.
Proof.
  intros Hr Hn Hst Hrest. destruct (Hn r Hr) as [Hg|Hg].
  - rewrite (bind_transition _ _ l) by done. etrans; [by eapply transition_lives|apply Hrest].
  - unfold store_transition, bind, get. by rewrite Hg.
Qed.

Lemma wait_state_ready_same : guar same_states wait_state_ready.
Proof. apply same_states_of. unfold wait_state_ready. guar_auto. Qed.

(** Prove [guar lives] of a statement that moves no record. *)
Ltac lives_frame := apply lives_of, same_states_of; guar_auto.

Lemma after_ready_lives l (k : EventRecord → M unit) s :
  is_Some (deref (p_store s) l) → not_replaced l s →
  (∀ r s1, deref (p_store s1) l = Some r → not_replaced l s1 → lives s1 (k r s1).2) →
  lives s ((wait_state_ready ;;; (r <- read l ;; k r)) s).2.
Proof.
  intros Hd Hn Hk. apply bind_same_lives; [apply wait_state_ready_same|].
  intros [] s1 H1. unfold bind, read. destruct (deref (p_store s1) l) as [r|] eqn:Hr; [|done].
  apply Hk; [done|by eapply not_replaced_same].
Qed.

Lemma on_activation_lives l s :
  is_Some (deref (p_store s) l) → not_replaced l s → lives s (on_activation l s).2.
Proof.
  intros Hd Hn. unfold on_activation. apply after_ready_lives; [done..|]. intros r s1 Hr Hn1.
  destruct (bool_decide (r_state r = SCHEDULED)) eqn:Hs; cbn [negb]; [|done].
  apply bool_decide_eq_true in Hs.
  apply (guarded_transition_lives l); [done..|rewrite Hs; constructor|].
  guar_step; [lives_frame|]. guar_step; [lives_frame|].
  guar_step; [apply run_supersession_lives|]. lives_frame.
  apply unless_closed_kinds. guar_auto. apply unless_closed_kinds. unfold audit_activation. guar_auto.
Qed.

Lemma on_completion_lives l s :
  is_Some (deref (p_store s) l) → not_replaced l s → lives s (on_completion l s).2.
Proof.
  intros Hd Hn. unfold on_completion. apply after_ready_lives; [done..|]. intros r s1 Hr Hn1.
  destruct (bool_decide (r_state r = ACTIVE)) eqn:Hs; cbn [negb]; [|done].
  apply bool_decide_eq_true in Hs.
  apply (guarded_transition_lives l); [done..|rewrite Hs; constructor|lives_frame].
Qed.

Lemma fire_timer_lives t s : not_replaced (tm_record t) s → lives s (fire_timer t s).2.
Proof.
  intros Hn. unfold fire_timer, swallow, timer_callback. cbn [snd]. unfold bind, read at 1.
  destruct (deref (p_store s) (tm_record t)) as [r|] eqn:Hr; [|done].
  destruct (negb (fires r)); [done|]. destruct (tm_kind t).
  - by apply on_activation_lives.
  - by apply on_completion_lives.
  - revert s Hn Hr. change (∀ s, not_replaced (tm_record t) s → deref (p_store s) (tm_record t) = Some r →
      lives s (apply_dderc_fallback (tm_record t) false s).2).
    intros s _ _. revert s. change (guar lives (apply_dderc_fallback (tm_record t) false)). lives_frame.
Qed.

Lemma cancel_program_lives program : guar lives (cancel_program program).
Proof.
  intros s. apply lives_assume. intros Hwf. unfold cancel_program. unfold bind at 1, get at 1.
  apply (guar_bind_from lives); [|intros ?; lives_frame].
  apply for_each_lives; [by apply all_active_NoDup| |done|intros l; by apply all_active_current].
  intros l _ s1 Hwf1 (r & Hr & Hg & Hl). rewrite (bind_read _ r) by done.
  destruct (negb _); [split; reflexivity|].
  apply transition_then_same; [done..|by constructor|]. apply same_states_of. guar_auto.
Qed.

Lemma refresh_existing_lives l derc s :
  store_get (m_rid derc) (p_store s) = Some l → lives s (refresh_existing l derc s).2.
Proof.
  intros Hg. apply lives_assume. intros Hwf.
  destruct (store_get_deref _ _ _ Hwf Hg) as (r & Hr & Hm). unfold refresh_existing.
  apply bind_same_lives; [apply same_states_of; guar_auto|intros [] s1 H1].
  apply bind_same_lives; [apply same_states_of; guar_auto|intros [] s2 H2].
  apply bind_same_lives; [apply same_states_of; guar_auto|intros [] s3 H3].
  assert (same_states s s3) as H by (by do 2 (etrans; [eassumption|])).
  destruct (ss_records _ _ H l r Hr) as (r3 & Hr3 & Hm3 & Hs3). rewrite (bind_read _ r3) by done.
  destruct (is_server_cancelled derc && is_live (r_state r3)) eqn:Hb.
  - apply andb_true_iff in Hb as [_ Hl]. apply (guar_bind_from lives); [|intros ?; lives_frame].
    apply handle_cancellation_lives. exists r3. split_and!; [done| |done].
    unfold store_get. rewrite (ss_events _ _ H), Hm3, Hm. done.
  - revert s3 H3 H Hr3. intros s3 _ _ _. revert s3.
    change (guar lives (relay_control_event l "updated" ;;; ret false)). lives_frame.
Qed.

(** Statement by statement, the frame first. *)
Ltac lives_auto :=
  repeat first
    [ solve [lives_frame]
    | apply run_supersession_lives
    | apply do_lives; discriminate
    | guar_step ].

Lemma new_event_lives program primacy derc now start duration :
  guar lives (new_event program primacy derc now start duration).
Proof.
  unfold new_event, admit_event, create_record, handle_late_discovery, unless_closed,
    audit_activation. lives_auto.
Qed.

Lemma process_control_lives program primacy now derc :
  guar lives (process_control program primacy now derc).
Proof.
  intros s. unfold process_control. apply bind_same_lives.
  - apply same_states_of. unfold effective_offsets. guar_auto.
  - intros offs s1 _. unfold bind, get.
    destruct (store_get (m_rid derc) (p_store s1)) as [l|] eqn:Hg;
      [by apply refresh_existing_lives|apply new_event_lives].
Qed.

Lemma each_control_lives fuel i ps f :
  (∀ d, guar lives (f d)) → guar lives (each_control fuel i ps f).
Proof.
  intros Hf. revert i. induction fuel as [|fuel IH]; intros i; cbn [each_control]; lives_auto.
Qed.

Lemma reconcile_removed_lives program now ps : guar lives (reconcile_removed program now ps).
Proof.
  intros s. apply lives_assume. intros Hwf. unfold reconcile_removed.
  unfold bind at 1, get at 1. destruct (negb _); [done|]. unfold bind at 1, get at 1.
  apply for_until_lives; [by apply all_active_NoDup| |done|intros l; by apply all_active_current].
  intros l _ s1 Hwf1 Hc. destruct Hc as (r & Hr & Hg & Hl). rewrite (bind_read _ r) by done.
  destruct (_ || _); [split; reflexivity|].
  destruct (handle_cancellation_ends l s1 Hwf1 ltac:(by exists r)) as [Hlv Ht].
  split.
  - apply (guar_bind_from lives); [done|intros ?; lives_frame].
  - apply (guar_bind_from (touches l)); [done|intros ? s2; reflexivity].
Qed.

Lemma process_controls_lives program : guar lives (process_controls program).
Proof.
  unfold process_controls, unless_closed, prune_pass, forget_unstored_no_longer_served.
  repeat first
    [ apply each_control_lives; intros ?; apply process_control_lives
    | apply reconcile_removed_lives
    | solve [lives_frame] | apply run_supersession_lives | apply do_lives; discriminate
    | guar_step ].
Qed.

(** One operation; a timer fires only on a record not replaced by another. *)
Definition op_ok (op : Op) (s : Proc) : Prop :=
  match op with OpFire t => not_replaced (tm_record t) s | _ => True end.

Definition op_step (s s' : Proc) : Prop := ∃ op, op_ok op s ∧ s' = (run_op op s).2.

Lemma op_step_lives s s' : op_step s s' → lives s s'.
Proof.
  intros (op & Hok & ->). destruct op; cbn [run_op op_ok] in *.
  - apply process_controls_lives.
  - by apply fire_timer_lives.
  - apply cancel_program_lives.
  - revert s Hok. intros s _. revert s. change (guar lives enter_comms_loss). lives_frame.
  - revert s Hok. intros s _. revert s.
    change (guar lives (log_late_dispatch label cancelled error l)). lives_frame.
  - revert s Hok. intros s _. revert s. change (guar lives shutdown). unfold shutdown. lives_frame.
Qed.

Lemma op_steps_live s s' : rtc op_step s s' → lives s s'.
Proof.
  induction 1 as [|s s1 s' H1 _ IH]; [done|]. etrans; [by apply op_step_lives|done].
Qed.

End Calm.

(** ** A run: one event activated and completed by its timers *)

Definition sample_state : Proc :=
  set_store
    (mkStore [sample_record "E1" "/p" 1 SCHEDULED ["op_mod_fixed_w"] 1000 600] [("E1", 0%nat)])
    (new_proc (sample_disc [sample_control "E1" ["op_mod_fixed_w"] 1000 600])).

Lemma sample_state_wf : store_wf (p_store sample_state).
Proof.
  split; [apply NoDup_singleton|]. intros m l Hin%list_elem_of_singleton. simplify_eq.
  by eexists.
Qed.

Definition activate_E1 : Op := OpFire {| tm_kind := Activation; tm_record := 0; tm_target := 1000 |}.
Definition complete_E1 : Op := OpFire {| tm_kind := Completion; tm_record := 0; tm_target := 1600 |}.


(** ** A race: completion during the loop of rule p)

    Two active events are dropped by the server; the first one's cancellation
    is being posted when the second one's completion timer fires. *)

Definition race_record (mrid : bytes) (duration : Z) : EventRecord :=
  write_record (WApplied "/a") (sample_record mrid "/p" 1 ACTIVE ["op_mod_fixed_w"] 900 duration).

Definition race_state : Proc :=
  set_store
    (mkStore [race_record "E1" 600; race_record "E2" 105] [("E1", 0%nat); ("E2", 1%nat)])
    (new_proc (sample_disc [])).

Definition race_env : Env :=
  env_with
    (λ n s,
       if decide (n = 0%nat)
       then (@run_op sample_env
               (OpFire {| tm_kind := Completion; tm_record := 1; tm_target := 1005 |}) s).2
       else s)
    (λ _ _, None).

(** The statuses posted for an event, in order. *)
Definition statuses_of (mrid : bytes) (log : list Action) : list ResponseCode :=
  omap (λ a, match a with
             | Post _ b PostOk => if decide (rb_subject b = mrid) then Some (rb_status b) else None
             | _ => None
             end) log.

(** Under interleaving the lifecycle is not respected.  The loop of rule
    p) works on a list made before its awaits and does not look at a record's
    state again, so an event whose completion timer fires while another
    event's cancellation is being posted is first completed, with status 3
    posted, and then cancelled, with status 6 posted for the same device. *)
Theorem completed_then_cancelled :
  let s := (@run_op race_env (OpPoll "/p") race_state).2 in
  lookup_record (p_store race_state) "E2" ≫= Some ∘ r_state = Some ACTIVE ∧
  statuses_of "E2" (p_log s) = [R_COMPLETED; R_CANCELLED] ∧
  lookup_record (p_store s) "E2" ≫= Some ∘ r_state = Some CANCELLED.
Proof. vm_compute. auto. Qed.
