(* ===== verification/CalmRuns.v ===== *)
(** * What an undisturbed handler emits

    Relations for handlers that run without interference: what they append to
    the log, and which components they leave as they were. *)

From S2P Require Import Prelude Controls EventStore Supersession Randomization Trackers.
From S2P Require Import Response Discovered Timers ProcState Relay Posting Fallback Processor.
From S2P Require Import ProcFrame Evolution Lifecycle.

(** The log grows by actions of [Q], and the discovered state is kept. *)
Definition emits (Q : Action → Prop) (s s' : Proc) : Prop :=
  p_disc s' = p_disc s ∧ ∃ new, p_log s' = p_log s ++ new ∧ Forall Q new.

#[export] Instance emits_preorder Q : PreOrder (emits Q).
Proof.
  split.
  - intros s. split; [done|]. exists []. by rewrite app_nil_r.
  - intros s1 s2 s3 [D1 (n1 & L1 & F1)] [D2 (n2 & L2 & F2)]. split; [congruence|].
    exists (n1 ++ n2). rewrite L2, L1, app_assoc. split; [done|]. by apply Forall_app.
Qed.

Lemma emits_mono (Q Q' : Action → Prop) s s' :
  (∀ a, Q a → Q' a) → emits Q s s' → emits Q' s s'.
Proof.
  intros H [D (n & L & F)]. split; [done|]. exists n. split; [done|]. by eapply Forall_impl.
Qed.

Definition same_store (s s' : Proc) : Prop := p_store s' = p_store s ∧ p_disc s' = p_disc s.

#[export] Instance same_store_preorder : PreOrder same_store.
Proof.
  split; [by intros s|]. intros s1 s2 s3 [E1 D1] [E2 D2]. split; congruence.
Qed.

(** The answer a device is given about an event: to its LFDI, about the
    event's mRID, with a code the profile may have translated. *)
Definition response_to (derc : Dercontrol) (code : ResponseCode) (to : bytes → Prop)
    (a : Action) : Prop :=
  match a with
  | Post _ b _ => to (rb_lfdi b) ∧ rb_subject b = m_rid derc ∧
                  ∃ p, resolve_wire_code derc code p = Some (rb_status b)
  | ResponseNotified _ _ _ => True
  | _ => False
  end.

Definition not_a_post (a : Action) : Prop := match a with Post _ _ _ => False | _ => True end.

Section CalmRuns.
Context {E : Env} (Hcalm : calm E).

Lemma exec_emits c (Q : Action → Prop) s : (∀ a, c = CEmit a → Q a) → emits Q s (exec c s).
Proof.
  intros HQ. destruct c; cbn; try (split; [done|]; exists []; by rewrite app_nil_r).
  - split; [done|]. exists [a]. split; [done|]. apply Forall_singleton. by apply HQ.
  - rewrite Hcalm. split; [done|]. exists []. by rewrite app_nil_r.
Qed.

Lemma do_emits c (Q : Action → Prop) : (∀ a, c = CEmit a → Q a) → guar (emits Q) (do c).
Proof. intros HQ s. by apply exec_emits. Qed.

(** A coroutine emits only what its kinds allow. *)
Lemma emits_kinds {A} (m : M A) ks :
  guar (kinds ks) m → guar (emits (λ a, action_kind a ∈ ks)) m.
Proof.
  apply guar_kinds; [apply _|]. intros c s Hk. apply exec_emits. intros a ->. done.
Qed.

Lemma emits_no_post {A} (m : M A) ks :
  KPost ∉ ks → guar (kinds ks) m → guar (emits not_a_post) m.
Proof.
  intros Hk Hm s. eapply emits_mono; [|by apply emits_kinds].
  cbn. intros a Ha. destruct a; cbn in *; done.
Qed.

Definition store_kinds : list Kind :=
  [KPost; KRelay; KFallback; KDispatch; KTimer; KRand; KPrune; KDderc; KLoss; KClose; KAwait].

Lemma same_store_kinds {A} (m : M A) : guar (kinds store_kinds) m → guar same_store m.
Proof.
  apply guar_kinds; [apply _|]. intros c s Hk. destruct c; cbn; try done;
    try (exfalso; revert Hk; apply (bool_decide_unpack _); vm_compute; exact I).
  rewrite Hcalm. done.
Qed.

Lemma post_to_lfdi_emits derc code lfdi :
  guar (emits (response_to derc code (λ l, l = lfdi))) (post_to_lfdi derc code lfdi).
Proof.
  unfold post_to_lfdi, now, supported_modes2, post_der_response, notify, await.
  assert (∀ fuel k, guar (emits (response_to derc code (λ l, l = lfdi))) (reserve fuel k)) as Hres.
  { intros fuel k. induction fuel; cbn [reserve]; unfold await;
      repeat first [apply do_emits; by intros | apply IHfuel | guar_step]. }
  repeat match goal with
  | |- guar _ (match resolve_wire_code ?d ?c ?p with _ => _ end) =>
      destruct (resolve_wire_code d c p) eqn:?
  | |- guar _ (do _) => apply do_emits; intros act Hact; first [done | simplify_eq; cbn; eauto]
  | |- guar _ (reserve _ _) => apply Hres
  | _ => guar_step
  end.
Qed.

Lemma post_to_device_emits derc code dev s :
  emits (response_to derc code (λ l, get_device_lfdi dev s = Some l)) s
    (post_to_device derc code dev s).2.
Proof.
  unfold post_to_device, bind, get. destruct (get_device_lfdi dev s) as [lfdi|]; [|done].
  eapply emits_mono; [|apply post_to_lfdi_emits]. intros a. destruct a; cbn; naive_solver.
Qed.

Lemma emits_lfdi Q s s' dev : emits Q s s' → get_device_lfdi dev s' = get_device_lfdi dev s.
Proof. intros [D _]. unfold get_device_lfdi. by rewrite D. Qed.

Lemma post_response_for_devices_emits derc code devs s :
  emits (response_to derc code (λ l, ∃ dev, dev ∈ devs ∧ get_device_lfdi dev s = Some l)) s
    (post_response_for_devices derc code devs s).2.
Proof.
  set (Q := response_to _ _ _). unfold post_response_for_devices.
  apply (rel_for_each (emits Q)). intros dev s1 Hdev%elem_of_elements H1.
  eapply emits_mono; [|apply post_to_device_emits]. intros a.
  rewrite (emits_lfdi _ _ _ dev H1). destruct a; cbn; naive_solver.
Qed.

(** COMPLETED and CANCELLED, once an event has been dispatched. *)
Lemma post_started_emits l r code s :
  deref (p_store s) l = Some r → r_applied r ≠ ∅ ∨ r_rejected r ≠ ∅ →
  emits (response_to (r_derc r) code (λ lfdi, ∃ dev, dev ∈ r_applied r ∖ r_superseded r ∧
           get_device_lfdi dev s = Some lfdi)) s
    (post_started_device_lifecycle l code s).2.
Proof.
  intros Hr Hd. unfold post_started_device_lifecycle. rewrite (bind_read _ r) by done.
  rewrite (proj2 (andb_false_iff _ _)).
  - case_decide; [done|]. apply post_response_for_devices_emits.
  - destruct Hd; [left|right]; by apply bool_decide_eq_false.
Qed.
End CalmRuns.
