(* ===== verification/Endings.v ===== *)
(** * How an event ends

    Who is told that an event completed or was cancelled, and what becomes of
    the wind-down of a cancelled event. *)

From S2P Require Import Prelude Controls EventStore Supersession Randomization Trackers.
From S2P Require Import Response Discovered Timers ProcState Relay Posting Fallback Processor.
From S2P Require Import ProcFrame Evolution Lifecycle CalmRuns.

(** A post of [code], about the control, to a device the event was running on. *)
Definition told_running_device (s : Proc) (r : EventRecord) (code : ResponseCode) (a : Action)
    : Prop :=
  match a with
  | Post _ b _ =>
      rb_status b = code ∧ rb_subject b = m_rid (r_derc r) ∧
      ∃ dev, dev ∈ r_applied r ∧ dev ∉ r_superseded r ∧ get_device_lfdi dev s = Some (rb_lfdi b)
  | _ => True
  end.

Lemma not_a_post_told s r code a : not_a_post a → told_running_device s r code a.
Proof. by destruct a. Qed.

(** Only opt-outs and "not supported" change on their way to the wire. *)
Lemma plain_wire_code derc code p c :
  code ≠ OPT_OUT → code ≠ NOT_SUPPORTED → resolve_wire_code derc code p = Some c → c = code.
Proof.
  intros H1 H2. unfold resolve_wire_code. rewrite bool_decide_false by done. cbn [andb].
  rewrite translate_total, bool_decide_false, andb_false_r by done. by intros [= ->].
Qed.

Section Endings.
Context {E : Env} (Hcalm : calm E).

Lemma response_told s s' r r' code a :
  code ≠ OPT_OUT → code ≠ NOT_SUPPORTED → r_derc r' = r_derc r → p_disc s' = p_disc s →
  r_applied r' = r_applied r → r_superseded r' = r_superseded r →
  response_to (r_derc r') code (λ lfdi, ∃ dev, dev ∈ r_applied r' ∖ r_superseded r' ∧
    get_device_lfdi dev s' = Some lfdi) a →
  told_running_device s r code a.
Proof.
  intros H1 H2 Hd Hs Ha Hu. destruct a; cbn; try done. unfold get_device_lfdi.
  rewrite Hd, Hs, Ha, Hu. intros ((dev & Hdev & Hl) & Hm & p & Hc).
  split; [by eapply plain_wire_code|]. split; [done|]. exists dev. set_solver.
Qed.

(** A statement that neither posts nor touches the store. *)
Lemma quiet_statement {A} (m : M A) s :
  guar (kinds [KRelay; KFallback; KTimer; KAwait]) m →
  emits not_a_post s (m s).2 ∧ same_store s (m s).2.
Proof.
  intros Hm. split.
  - eapply emits_no_post; [exact Hcalm| |exact Hm]. apply (bool_decide_unpack _). exact I.
  - apply same_store_kinds; [done|]. eapply guar_kinds_mono; [|exact Hm]. in_kinds.
Qed.

(** Run a quiet statement first. *)
Lemma quiet_then {A B} (m : M A) (k : A → M B) s0 r code s :
  guar (kinds [KRelay; KFallback; KTimer; KAwait]) m →
  (∀ a s1, same_store s s1 → emits (told_running_device s0 r code) s1 (k a s1).2) →
  emits (told_running_device s0 r code) s (bind m k s).2.
Proof.
  intros Hm Hk. destruct (quiet_statement m s Hm) as [He Hs].
  apply (rel_bind (emits (told_running_device s0 r code))).
  - eapply emits_mono; [|exact He]. intros a. apply not_a_post_told.
  - intros a s1 Hs1. rewrite Hs1 in Hs. by apply Hk.
Qed.

(** The end shared by completion and cancellation, after the transition. *)
Lemma ending_emits l r st code (after : M unit) s0 s :
  code ≠ OPT_OUT → code ≠ NOT_SUPPORTED →
  p_disc s = p_disc s0 → deref (p_store s) l = Some (set_state st r) →
  r_applied r ≠ ∅ ∨ r_rejected r ≠ ∅ →
  guar (kinds [KRelay; KFallback; KTimer; KAwait]) after →
  emits (told_running_device s0 r code) s
    ((post_started_device_lifecycle l code ;;; after) s).2.
Proof.
  intros H1 H2 Hs0 Hr Hd Ha. apply (rel_bind (emits (told_running_device s0 r code))).
  - eapply emits_mono; [|apply (post_started_emits Hcalm l _ _ _ Hr Hd)].
    intros a. by apply response_told.
  - intros [] s2 _. eapply emits_mono; [|by apply quiet_statement]. intros a. apply not_a_post_told.
Qed.

(** The transition emits nothing and leaves the record in its new state. *)
Lemma transition_then_emits l r st (k : M unit) s0 code s :
  deref (p_store s) l = Some r → store_get (r_mrid r) (p_store s) = Some l →
  (∀ s1, p_disc s1 = p_disc s → deref (p_store s1) l = Some (set_state st r) →
    emits (told_running_device s0 r code) s1 (k s1).2) →
  emits (told_running_device s0 r code) s ((store_transition (r_mrid r) st ;;; k) s).2.
Proof.
  intros Hr Hg Hk. rewrite (bind_transition _ _ l) by done.
  etrans; [by apply (exec_emits Hcalm (CTransition (r_mrid r) st))|].
  apply Hk; [done|by apply transition_deref].
Qed.

Lemma completion_emits l r s :
  deref (p_store s) l = Some r → store_get (r_mrid r) (p_store s) = Some l →
  r_applied r ≠ ∅ ∨ r_rejected r ≠ ∅ →
  emits (told_running_device s r R_COMPLETED) s (on_completion l s).2.
Proof.
  intros Hr Hg Hd. unfold on_completion. apply quiet_then; [unfold wait_state_ready; guar_auto|].
  intros [] s0 [Hst0 Hd0]. rewrite (bind_read _ r) by (by rewrite Hst0).
  destruct (negb _); [done|]. apply (transition_then_emits l); [by rewrite Hst0..|].
  intros s1 Hd1 Hr1.
  apply quiet_then; [guar_auto|]. intros [] s2 [Hst2 Hd2].
  apply quiet_then; [guar_auto|]. intros r' s3 [Hst3 Hd3].
  apply quiet_then; [guar_auto|]. intros [] s4 [Hst4 Hd4].
  apply (ending_emits l r COMPLETED); try done; [congruence| |guar_auto].
  by rewrite Hst4, Hst3, Hst2.
Qed.

Lemma cancellation_emits l r s :
  deref (p_store s) l = Some r → store_get (r_mrid r) (p_store s) = Some l →
  r_applied r ≠ ∅ ∨ r_rejected r ≠ ∅ →
  emits (told_running_device s r R_CANCELLED) s (handle_cancellation l s).2.
Proof.
  intros Hr Hg Hd. unfold handle_cancellation. rewrite (bind_read _ r) by done.
  apply (transition_then_emits l); [done..|]. intros s1 Hd1 Hr1.
  apply quiet_then; [guar_auto|]. intros [] s2 [Hst2 Hd2].
  apply quiet_then; [guar_auto|]. intros [] s3 [Hst3 Hd3].
  apply quiet_then; [guar_auto|]. intros r' s4 [Hst4 Hd4].
  apply quiet_then; [guar_auto|]. intros [] s5 [Hst5 Hd5].
  apply (ending_emits l r CANCELLED); try done; [congruence| |guar_auto].
  by rewrite Hst5, Hst4, Hst3, Hst2.
Qed.

(** C9: once an event has been dispatched, its completion and its
    cancellation are reported only to devices that were running it: every
    POST the handler makes carries status 3 (resp. 6) for this event and
    goes to a device its control was applied on and that no other event has
    taken over; a device that rejected the event hears nothing. *)
Theorem end_reported_to_running_devices (l : loc) (r : EventRecord) (s : Proc) :
  deref (p_store s) l = Some r → store_get (r_mrid r) (p_store s) = Some l →
  r_applied r ≠ ∅ ∨ r_rejected r ≠ ∅ →
  emits (told_running_device s r R_COMPLETED) s (on_completion l s).2 ∧
  emits (told_running_device s r R_CANCELLED) s (handle_cancellation l s).2.
Proof. intros Hr Hg Hd. split; [by apply completion_emits|by apply cancellation_emits]. Qed.

(** ** The wind-down of a cancelled event *)

(** Nothing is written to a device and no mode is released. *)
Record devices_untouched (s s' : Proc) : Prop := {
  du_store : same_store s s';
  du_modes : p_modes s' = p_modes s;
  du_log : emits (λ a, action_kind a ∈ [KPost; KRelay]) s s';
}.

#[local] Instance devices_untouched_preorder : PreOrder devices_untouched.
Proof.
  split; [intros s; split; reflexivity|].
  intros s1 s2 s3 [S1 M1 L1] [S2 M2 L2]. split; [by etrans|congruence|by etrans].
Qed.

Lemma untouched_kinds {A} (m : M A) :
  guar (kinds [KPost; KRelay; KTimer; KAwait]) m → guar devices_untouched m.
Proof.
  intros Hm s. split.
  - apply same_store_kinds; [done|]. eapply guar_kinds_mono; [|exact Hm]. in_kinds.
  - revert s. change (guar (λ s s', p_modes s' = p_modes s) m).
    revert Hm. apply guar_kinds; [split; [by intros ?|congruence]|]. intros c s Hk.
    destruct c; cbn; try done;
      try (exfalso; revert Hk; apply (bool_decide_unpack _); vm_compute; exact I).
    by rewrite Hcalm.
  - eapply emits_mono; [|by apply emits_kinds]. cbn. intros a Ha. destruct a; cbn in *;
      first [in_kinds | exfalso; revert Ha; apply (bool_decide_unpack _); vm_compute; exact I].
Qed.

Lemma untouched_then {A} (m : M A) (k : A → M unit) s :
  guar (kinds [KPost; KRelay; KTimer; KAwait]) m →
  (∀ a s1, same_store s s1 → devices_untouched s1 (k a s1).2) →
  devices_untouched s (bind m k s).2.
Proof.
  intros Hm Hk. apply (rel_bind devices_untouched); [by apply untouched_kinds|].
  intros a s1 Hs1. apply Hk. eapply du_store, (guar_end devices_untouched); [|exact Hs1].
  by apply untouched_kinds.
Qed.

Lemma fire_cancelled t r s :
  deref (p_store s) (tm_record t) = Some r → r_state r = CANCELLED →
  fire_timer t s = (inr tt, s).
Proof.
  intros Hr Hst. unfold fire_timer, swallow, timer_callback. rewrite (bind_read _ r) by done.
  unfold fires. by rewrite Hst.
Qed.

Lemma handle_cancellation_state l r s :
  deref (p_store s) l = Some r → store_get (r_mrid r) (p_store s) = Some l →
  ∃ r', deref (p_store (handle_cancellation l s).2) l = Some r' ∧ r_state r' = CANCELLED.
Proof.
  intros Hr Hg. unfold handle_cancellation. rewrite (bind_read _ r) by done.
  rewrite (bind_transition _ _ l) by done.
  match goal with |- context [p_store (?rest (exec _ s)).2] => set (k := rest) end.
  assert (guar same_states k) as Hk by (apply same_states_of; [done|]; unfold k; guar_auto).
  destruct (ss_records _ _ (Hk (exec (CTransition (r_mrid r) CANCELLED) s)) l (set_state CANCELLED r))
    as (r' & Hr' & _ & Hst); [by apply transition_deref|]. eauto.
Qed.

Lemma wind_down_untouched l r s :
  deref (p_store s) l = Some r → store_get (r_mrid r) (p_store s) = Some l →
  r_state r = ACTIVE → 0 < cancellation_wind_down (r_derc r) →
  let s1 := (handle_cancellation l s).2 in
  p_modes s1 = p_modes s ∧ emits (λ a, action_kind a ∈ [KPost; KRelay]) s s1.
Proof.
  intros Hr Hg Hst Hw. cbn zeta. unfold handle_cancellation. rewrite (bind_read _ r) by done.
  rewrite (bind_transition _ _ l) by done.
  set (s0 := exec (CTransition (r_mrid r) CANCELLED) s).
  assert (deref (p_store s0) l = Some (set_state CANCELLED r)) as Hr0 by (by apply transition_deref).
  change (p_modes s) with (p_modes s0).
  assert (emits (λ a, action_kind a ∈ [KPost; KRelay]) s s0) as He
    by (by apply (exec_emits Hcalm (CTransition (r_mrid r) CANCELLED))).
  cut (∀ s', devices_untouched s0 s' →
         p_modes s' = p_modes s0 ∧ emits (λ a, action_kind a ∈ [KPost; KRelay]) s s').
  { intros Hcut. apply Hcut.
    apply untouched_then; [guar_auto|]. intros [] s2 [Hst2 _].
    apply untouched_then; [guar_auto|]. intros [] s3 [Hst3 _].
    apply untouched_then; [guar_auto|]. intros r' s4 [Hst4 _].
    apply untouched_then; [guar_auto|]. intros [] s5 [Hst5 _].
    apply untouched_then; [guar_auto|]. intros [] s6 [Hst6 _].
    rewrite Hst, bool_decide_true by done. cbn [when].
    rewrite (bind_read _ (set_state CANCELLED r)) by (by rewrite Hst6, Hst5, Hst4, Hst3, Hst2).
    cbn [set_state r_derc]. apply Z.ltb_lt in Hw. rewrite Hw. apply untouched_kinds. guar_auto. }
  intros s' [_ Hm Hl]. split; [done|]. by etrans.
Qed.

(** The cancellation of an active event whose control is randomized
    neither writes to a device nor releases the modes the event holds: that
    is left to a wind-down timer.  But the record is in the cancelled state,
    in which no timer calls back: whenever the wind-down timer comes due,
    after whatever operations, it does nothing.  The device keeps the
    cancelled event's settings. *)
Theorem wind_down_fallback_never_runs (l : loc) (r : EventRecord) (s s2 : Proc) (t : Timer) :
  store_wf (p_store s) → deref (p_store s) l = Some r →
  store_get (r_mrid r) (p_store s) = Some l → r_state r = ACTIVE →
  0 < cancellation_wind_down (r_derc r) →
  let s1 := (handle_cancellation l s).2 in
  rtc op_step s1 s2 → tm_record t = l →
  p_modes s1 = p_modes s ∧ emits (λ a, action_kind a ∈ [KPost; KRelay]) s s1 ∧
  fire_timer t s2 = (inr tt, s2).
Proof.
  intros Hwf Hr Hg Hst Hw s1 Hrun Ht.
  destruct (wind_down_untouched l r s) as [Hm Hl]; [done..|].
  split_and!; [done..|]. destruct (handle_cancellation_state l r s Hr Hg) as (r1 & Hr1 & Hs1).
  assert (store_wf (p_store s1)) as Hwf1.
  { apply (handle_cancellation_lives Hcalm l s); [|done]. exists r. by rewrite Hst. }
  destruct (op_steps_live Hcalm s1 s2 Hrun Hwf1) as [_ Hlive].
  destruct (Hlive l r1 Hr1) as (r2 & Hr2 & Hlc). rewrite Hs1 in Hlc.
  apply (fire_cancelled _ r2); [by rewrite Ht|]. by apply lifecycle_terminal in Hlc.
Qed.
End Endings.

(** ** Runs *)

(** An active event applied on [/a] and rejected on [/b]. *)
Definition started_record : EventRecord :=
  write_record (WRejected "/b")
    (write_record (WApplied "/a") (sample_record "E1" "/p" 1 ACTIVE ["op_mod_fixed_w"] 900 600)).

Definition started_state (r : EventRecord) : Proc :=
  set_modes (ActiveModes.register "/a" "E1" {["op_mod_fixed_w"]} [])
    (set_store (mkStore [r] [("E1", 0%nat)]) (new_proc (sample_disc []))).

Lemma end_reported_to_running_devices_witness :
  let s := started_state started_record in
  emits (told_running_device s started_record R_COMPLETED) s (@on_completion sample_env 0 s).2 ∧
  statuses_of "E1" (p_log (@on_completion sample_env 0 s).2) = [R_COMPLETED] ∧
  statuses_of "E1" (p_log (@handle_cancellation sample_env 0 s).2) = [R_CANCELLED].
Proof.
  cbn zeta. split_and!; [|vm_compute; reflexivity..].
  apply (end_reported_to_running_devices (E := sample_env) (λ _ _, eq_refl) 0 started_record).
  - reflexivity.
  - reflexivity.
  - left. apply (bool_decide_unpack _). vm_compute. exact I.
Defined.

(** The same event with a randomized start of up to 30 s. *)
Definition randomized_record : EventRecord :=
  let d := r_derc started_record in
  set_derc
    {| m_rid := m_rid d; dercontrol_base := dercontrol_base d; interval_start := interval_start d;
       interval_duration := interval_duration d; randomize_start := Some 30;
       randomize_duration := None; event_status := event_status d; creation_time := creation_time d;
       response_required := response_required d; reply_to := reply_to d |} started_record.

Lemma wind_down_fallback_never_runs_witness :
  let s := started_state randomized_record in
  let s1 := (@handle_cancellation sample_env 0 s).2 in
  let t := {| tm_kind := WindDown; tm_record := 0; tm_target := 1040 |} in
  dict_get "E1" (p_timers s1) = Some [t] ∧
  ActiveModes.owned_by "/a" "E1" (p_modes s1) = {["op_mod_fixed_w"]} ∧
  @fire_timer sample_env t s1 = (inr tt, s1).
Proof.
  cbn zeta. split; [vm_compute; reflexivity|].
  destruct (wind_down_fallback_never_runs (E := sample_env) (λ _ _, eq_refl) 0 randomized_record
              (started_state randomized_record)
              (@handle_cancellation sample_env 0 (started_state randomized_record)).2
              {| tm_kind := WindDown; tm_record := 0; tm_target := 1040 |}) as (Hm & _ & Hf).
  - split; [apply NoDup_singleton|]. intros m l Hin%list_elem_of_singleton. simplify_eq. by eexists.
  - reflexivity.
  - reflexivity.
  - reflexivity.
  - reflexivity.
  - reflexivity.
  - reflexivity.
  - split; [|exact Hf]. rewrite Hm. vm_compute. reflexivity.
Defined.
