(* ===== verification/CommsLoss.v ===== *)
(** * Loss of communications (events/processor.py, events/comms_loss.py)

    What [enter_comms_loss] leaves behind: no event running, no timer that
    could restart one, a resume boundary past every opted-out event, and not
    one response posted. *)

From S2P Require Import Prelude Controls EventStore Supersession Randomization Trackers.
From S2P Require Import Response Discovered Timers ProcState Relay Posting Fallback Processor.
From S2P Require Import ProcFrame Evolution Lifecycle CalmRuns.

(** The largest element of a list. *)
Definition is_maximum (l : list Z) (b : Z) : Prop := b ∈ l ∧ ∀ x, x ∈ l → x <= b.

Lemma foldl_max_maximum (l : list Z) (a : Z) : is_maximum (a :: l) (foldl Z.max a l).
Proof.
  revert a. induction l as [|x l IH]; intros a; cbn.
  - split; [left|]. intros x Hx%list_elem_of_singleton. lia.
  - destruct (IH (Z.max a x)) as [Hin Hle]. split.
    + rewrite !elem_of_cons in *. destruct Hin as [->|?]; [|auto]. lia.
    + intros y Hy. rewrite !elem_of_cons in Hy. pose proof (Hle (Z.max a x) ltac:(left)).
      destruct Hy as [->|[->|Hy]]; [lia|lia|]. apply Hle. by right.
Qed.

Lemma boundary_maximum (rs : list EventRecord) (b : Z) :
  rs ≠ [] → is_maximum (b :: (r_end <$> rs)) (Z.max b (latest_end rs)).
Proof.
  destruct rs as [|r rs]; [done|]. intros _. cbn [latest_end fmap list_fmap].
  destruct (foldl_max_maximum (r_end <$> rs) (r_end r)) as [Hin Hle].
  set (m := foldl Z.max (r_end r) (r_end <$> rs)) in *. split.
  - apply elem_of_cons. destruct (Z.max_spec b m) as [[_ ->]|[_ ->]]; auto.
  - intros x [->|Hx]%elem_of_cons; [lia|]. apply Hle in Hx. lia.
Qed.

Section CommsLoss.
Context {E : Env} (Hcalm : calm E).

Lemma running_deref l s :
  l ∈ running_events s →
  ∃ r, deref (p_store s) l = Some r ∧ r_state r = ACTIVE ∧ r_opted_out r = false ∧
       l ∈ dict_values (events (p_store s)).
Proof.
  unfold running_events, by_state, loc_test. rewrite !list_elem_of_filter. intros (Ho & Hs & Hin).
  destruct (deref (p_store s) l) as [r|]; [|done]. exists r.
  apply bool_decide_eq_true in Hs. by destruct (r_opted_out r).
Qed.

Lemma running_intro l s r :
  deref (p_store s) l = Some r → r_state r = ACTIVE → r_opted_out r = false →
  l ∈ dict_values (events (p_store s)) → l ∈ running_events s.
Proof.
  intros Hr Hs Ho Hin. unfold running_events, by_state, loc_test. rewrite !list_elem_of_filter.
  by rewrite Hr, Ho, Hs, bool_decide_true.
Qed.

Lemma audit_runs r from to d s :
  ∃ log, audit_transition r from to d s = (inr tt, set_log log s).
Proof.
  unfold audit_transition. destruct audit_enabled; cbn; [by eexists|].
  exists (p_log s). by destruct s.
Qed.

(** The opt-out of one event, up to its audit record. *)
Definition opt_out_one (l : loc) : M unit :=
  do (CWrite l WOptedOut) ;;;
  r <- read l ;;
  do (CTimersCancel (r_mrid r)) ;;;
  audit_transition r (Some (state_value ACTIVE)) "opted_out" (λ _, NoDetails).

Lemma opt_out_one_runs l r s :
  deref (p_store s) l = Some r →
  ∃ s', opt_out_one l s = (inr tt, s') ∧ p_loss s' = p_loss s ∧
    p_store s' = update l (set_opted_out true) (p_store s) ∧
    p_timers s' = dict_del (r_mrid r) (p_timers s).
Proof.
  intros Hr. unfold opt_out_one, do, modify. unfold bind at 1.
  rewrite (bind_read _ (set_opted_out true r)).
  - unfold bind. edestruct audit_runs as [log ->]. by eexists.
  - cbn. by rewrite deref_update, decide_True, Hr.
Qed.

Definition opted_and_disarmed (l : loc) (s : Proc) : Prop :=
  ∃ r, deref (p_store s) l = Some r ∧ r_opted_out r = true ∧
       dict_get (r_mrid r) (p_timers s) = None.

Lemma opt_out_one_keeps l l' r s s' :
  deref (p_store s) l = Some r → opted_and_disarmed l' s →
  p_store s' = update l (set_opted_out true) (p_store s) →
  p_timers s' = dict_del (r_mrid r) (p_timers s) → opted_and_disarmed l' s'.
Proof.
  intros Hr (r' & Hr' & Ho & Ht) Hst Htm. unfold opted_and_disarmed.
  rewrite Hst, Htm, deref_update, Hr'. case_decide; cbn; eexists; (split; [done|]); cbn;
    rewrite dict_get_del; by case_decide.
Qed.

Lemma opt_out_loop ls s :
  (∀ l, l ∈ ls → is_Some (deref (p_store s) l)) →
  ∃ s', for_each ls opt_out_one s = (inr tt, s') ∧ p_loss s' = p_loss s ∧
    (∀ l, opted_and_disarmed l s ∨ l ∈ ls → opted_and_disarmed l s').
Proof.
  revert s. induction ls as [|l ls IH]; intros s Hv.
  - exists s. split_and!; [done..|]. intros l [?|?%elem_of_nil]; done.
  - destruct (Hv l ltac:(left)) as [r Hr].
    destruct (opt_out_one_runs l r s Hr) as (s1 & H1 & Hl1 & Hst1 & Ht1).
    cbn [for_each]. unfold bind. rewrite H1. destruct (IH s1) as (s2 & H2 & Hl2 & Hd2).
    + intros l' Hl'. rewrite Hst1, deref_update. destruct (Hv l') as [r' ->]; [by right|].
      case_decide; by eexists.
    + exists s2. split_and!; [done|congruence|]. intros l' [Hd|[->|Hin]%elem_of_cons]; apply Hd2;
        [left| |by right].
      * by eapply opt_out_one_keeps.
      * left. exists (set_opted_out true r). rewrite Hst1, Ht1, deref_update, decide_True, Hr by done.
        cbn. rewrite dict_get_del. by case_decide.
Qed.

Lemma running_shrinks s s' l :
  store_wf (p_store s) → same_states s s' → evolves s s' →
  l ∈ running_events s' → l ∈ running_events s.
Proof.
  intros Hwf Hsame Hev (r' & Hr' & Hs' & Ho' & Hin)%running_deref.
  rewrite (ss_events _ _ Hsame) in Hin. pose proof Hin as Hin'.
  unfold dict_values in Hin'. apply list_elem_of_fmap in Hin' as ([m l'] & -> & Hm). cbn in *.
  destruct (wf_objs _ Hwf m l' Hm) as (r & Hr & _).
  destruct (ss_records _ _ Hsame l' r Hr) as (r1 & Hr1 & _ & Hst).
  destruct (ev_records _ _ Hev l' r Hr) as (r2 & Hr2 & Hre). simplify_eq.
  apply (running_intro _ _ r); [done|congruence| |done].
  destruct (r_opted_out r) eqn:Ho; [|done]. apply Hre in Ho. congruence.
Qed.

Lemma map_each_read ls s rs :
  omap (deref (p_store s)) ls = rs → (∀ l, l ∈ ls → is_Some (deref (p_store s) l)) →
  map_each ls read s = (inr rs, s).
Proof.
  revert rs. induction ls as [|l ls IH]; intros rs Hrs Hv; [by subst|].
  destruct (Hv l ltac:(left)) as [r Hr]. cbn [map_each]. rewrite (bind_read _ r) by done.
  cbn in Hrs. rewrite Hr in Hrs. subst rs. unfold bind.
  by rewrite (IH _ eq_refl) by (intros; apply Hv; by right).
Qed.

Definition same_timers (s s' : Proc) : Prop :=
  p_timers s' = p_timers s ∧ p_loss s' = p_loss s ∧ p_store s' = p_store s.

#[local] Instance same_timers_preorder : PreOrder same_timers.
Proof.
  split; [by intros s|]. intros s1 s2 s3 (?&?&?) (?&?&?). split_and!; congruence.
Qed.

Lemma fallback_loop_keeps ls : guar same_timers (for_each ls (λ l, apply_dderc_fallback l true)).
Proof.
  apply (guar_kinds same_timers [KFallback; KAwait]); [|guar_auto].
  intros c s Hk. destruct c; cbn; try done;
    try (exfalso; revert Hk; apply (bool_decide_unpack _); vm_compute; exact I).
  by rewrite Hcalm.
Qed.

(** The run, phase by phase: the boundary, the opt-outs, the reverts. *)
Lemma enter_comms_loss_run s :
  running_events s ≠ [] →
  ∃ s2, (enter_comms_loss s).2 =
          (for_each (running_events s) (λ l, apply_dderc_fallback l true) s2).2 ∧
    resume_after_epoch (p_loss s2) =
      Some (Z.max (default 0 (resume_after_epoch (p_loss s)))
                  (latest_end (omap (deref (p_store s)) (running_events s)))) ∧
    (∀ l, l ∈ running_events s → opted_and_disarmed l s2).
Proof.
  intros Hne. assert (∀ l, l ∈ running_events s → is_Some (deref (p_store s) l)) as Hv.
  { intros l (r & Hr & _)%running_deref. eauto. }
  unfold enter_comms_loss. unfold bind at 1, get at 1. cbn [fst snd].
  destruct (running_events s) as [|l0 ls0] eqn:Hrun; [done|]. rewrite <- Hrun in *.
  unfold bind at 1. rewrite (map_each_read _ _ _ eq_refl) by done.
  unfold bind at 1, raise_boundary, do at 1, modify at 1. cbn [bind get].
  set (s1 := exec (CResumeAfter _) s).
  destruct (opt_out_loop (running_events s) s1) as (s2 & H2 & Hl2 & Hd2); [done|].
  exists s2. change (for_each (running_events s) _) with (for_each (running_events s) opt_out_one) at 1.
  unfold bind. rewrite H2. split_and!; [done| |].
  - by rewrite Hl2.
  - intros l Hl. apply Hd2. by right.
Qed.

Lemma enter_comms_loss_idle s : running_events s = [] → (enter_comms_loss s).2 = s.
Proof. intros He. unfold enter_comms_loss, bind, get. by rewrite He. Qed.

Lemma running_records s :
  running_events s ≠ [] → omap (deref (p_store s)) (running_events s) ≠ [].
Proof.
  intros Hne Hnil. destruct (running_events s) as [|l ls] eqn:Hrun; [done|].
  assert (l ∈ running_events s) as (r & Hr & _)%running_deref by (rewrite Hrun; left).
  cbn in Hnil. by rewrite Hr in Hnil.
Qed.

(** C14: entering loss of communications, undisturbed by other tasks, posts no
    response; afterwards no event is running (each one active is opted out)
    and the opted-out events have no timers left.  The resume boundary is left
    alone when no event was running, and otherwise is exactly the latest of
    the boundary there was (0 for none) and the ends of the events that were
    running. *)
Theorem comms_loss_opts_out (s : Proc) :
  store_wf (p_store s) →
  let s' := (enter_comms_loss s).2 in
  emits not_a_post s s' ∧ running_events s' = [] ∧
  (∀ l r, l ∈ running_events s → deref (p_store s) l = Some r →
     dict_get (r_mrid r) (p_timers s') = None) ∧
  (running_events s = [] →
     resume_after_epoch (p_loss s') = resume_after_epoch (p_loss s)) ∧
  (running_events s ≠ [] →
     ∃ b, resume_after_epoch (p_loss s') = Some b ∧
       is_maximum (default 0 (resume_after_epoch (p_loss s)) ::
                   (r_end <$> omap (deref (p_store s)) (running_events s))) b).
Proof.
  intros Hwf s'. split.
  { eapply (emits_no_post Hcalm _ [KRelay; KFallback; KWrite; KTimer; KLoss; KAwait]);
      [apply (bool_decide_unpack _); exact I|guar_auto]. }
  assert (same_states s s') as Hsame by (apply (same_states_of Hcalm enter_comms_loss); guar_auto).
  assert (evolves s s') as Hev.
  { eapply (kinds_ind evolves all_kinds); [|by apply enter_comms_loss_kinds; in_kinds].
    intros c s0 _. apply exec_evolves. intros n s1. by rewrite Hcalm. }
  assert (∀ l, l ∈ running_events s' → l ∈ running_events s) as Hshrink
    by (intros l; by apply running_shrinks).
  destruct (decide (running_events s = [])) as [He|Hne].
  { unfold s'. rewrite (enter_comms_loss_idle s He) in *. rewrite He.
    split_and!; [done|intros l r Hl; by apply elem_of_nil in Hl|done|done]. }
  destruct (enter_comms_loss_run s Hne) as (s2 & Hrun & Hb & Hd). fold s' in Hrun.
  destruct (fallback_loop_keeps (running_events s) s2) as (Ht3 & Hl3 & Hs3).
  rewrite <- Hrun in Ht3, Hl3, Hs3. split_and!; [| |done|].
  - apply elem_of_nil_inv. intros l Hl. destruct (Hd l (Hshrink l Hl)) as (r & Hr & Ho & _).
    apply running_deref in Hl as (r' & Hr' & _ & Ho' & _). rewrite Hs3 in Hr'. congruence.
  - intros l r Hl Hr. destruct (Hd l Hl) as (r2 & Hr2 & _ & Ht2).
    destruct (ss_records _ _ Hsame l r Hr) as (r' & Hr' & Hm & _). rewrite Hs3 in Hr'. simplify_eq.
    by rewrite Ht3, <- Hm.
  - intros _. rewrite Hl3, Hb. eexists. split; [done|]. apply boundary_maximum.
    by apply running_records.
Qed.
End CommsLoss.

Lemma comms_loss_opts_out_witness :
  let s := set_store
    (mkStore [sample_record "E1" "/p" 1 ACTIVE ["op_mod_max_lim_w"] 900 600] [("E1", 0%nat)])
    (new_proc (sample_disc [])) in
  let s' := (@enter_comms_loss sample_env s).2 in
  running_events s = [0%nat] ∧ running_events s' = [] ∧
  resume_after_epoch (p_loss s') = Some 1500 ∧
  r_state <$> lookup_record (p_store s') "E1" = Some ACTIVE.
Proof.
  cbn zeta. split; [vm_compute; reflexivity|]. split; [|vm_compute; auto].
  refine (proj1 (proj2 (comms_loss_opts_out (E := sample_env) (λ _ _, eq_refl) _ _))).
  split; [apply NoDup_singleton|]. intros m l Hin%list_elem_of_singleton. simplify_eq. by eexists.
Defined.
