(* ===== verification/Polls.v ===== *)
(** * What a poll does with the controls it finds (events/processor.py)

    - rule p): events the server has removed are cancelled, on a complete fetch
      only, and no other event is;
    - rule m): successive events leave no gap;
    - an event already over when first received is not stored, and is reported
      expired only if nothing was reported for it before. *)

From S2P Require Import Prelude Controls EventStore Supersession Randomization Trackers.
From S2P Require Import Response Discovered Timers ProcState Relay Posting Fallback Processor.
From S2P Require Import ProcFrame Evolution Lifecycle CalmRuns Endings.

Section Polls.
Context {E : Env} (Hcalm : calm E).

Lemma calm_evolves {A} (m : M A) ks : guar (kinds ks) m → guar evolves m.
Proof.
  apply guar_kinds; [apply _|]. intros c s _. apply exec_evolves. intros n s1. by rewrite Hcalm.
Qed.

(** ** Rule p) *)

(** The program no longer serves the event, and its end is still to come. *)
Definition removed (program : string) (now : Z) (served : list bytes) (r : EventRecord) : Prop :=
  r_program r = program ∧ r_mrid r ∉ served ∧ now < r_end r.

#[global] Instance removed_dec program now served r : Decision (removed program now served r).
Proof. unfold removed. apply _. Defined.

Lemma removed_evolves program now served r r' :
  record_evolves r r' → removed program now served r ↔ removed program now served r'.
Proof. intros []. unfold removed, r_end. by repeat (f_equiv; try congruence). Qed.

Definition reconcile_one (program : string) (now : Z) (served : list bytes) (l : loc) : M bool :=
  r <- read l ;;
  if negb (bool_decide (r_program r = program)) || bool_decide (r_mrid r ∈ served)
     || (r_end r <=? now)
  then ret false
  else handle_cancellation l ;;; get p_closed.

Definition verdict (program : string) (now : Z) (served : list bytes) (r : EventRecord)
    : EventState :=
  if decide (removed program now served r) then CANCELLED else r_state r.

Lemma reconcile_one_verdict program now served l r s s' b :
  store_wf (p_store s) → current_live l s → deref (p_store s) l = Some r →
  reconcile_one program now served l s = (inr b, s') →
  store_wf (p_store s') ∧ touches l s s' ∧ evolves s s' ∧
  ∃ r', deref (p_store s') l = Some r' ∧ r_state r' = verdict program now served r.
Proof.
  intros Hwf Hc Hr. unfold reconcile_one, verdict. rewrite (bind_read _ r) by done.
  assert (bool_decide (removed program now served r) =
          negb (negb (bool_decide (r_program r = program)) || bool_decide (r_mrid r ∈ served)
                || (r_end r <=? now))) as Hb.
  { unfold removed. destruct (Z.leb_spec (r_end r) now);
      repeat case_bool_decide; cbn; try done; exfalso; naive_solver lia. }
  destruct (_ || _); cbn [negb] in Hb.
  - apply bool_decide_eq_false in Hb. rewrite decide_False by done. intros [= <- <-].
    split_and!; [done|reflexivity..|eauto].
  - apply bool_decide_eq_true in Hb. rewrite decide_True by done. unfold bind.
    destruct (handle_cancellation_ends Hcalm l s Hwf Hc) as [Hl Ht].
    pose proof (calm_evolves (handle_cancellation l) all_kinds ltac:(guar_auto) s) as Hev.
    destruct Hc as (r0 & Hr0 & Hg & _). assert (r0 = r) as -> by congruence.
    destruct (handle_cancellation_state Hcalm l r s Hr Hg) as (r' & Hr' & Hst).
    destruct (handle_cancellation l s) as [[e|[]] s1]; [done|]. cbn in *. intros [= _ <-].
    split_and!; [by apply Hl|done|done|eauto].
Qed.

Lemma reconcile_loop program now served ls s s' :
  NoDup ls → store_wf (p_store s) → (∀ l, l ∈ ls → current_live l s) →
  for_until ls (reconcile_one program now served) s = (inr false, s') →
  ∀ l r, deref (p_store s) l = Some r →
    ∃ r', deref (p_store s') l = Some r' ∧
      r_state r' = if decide (l ∈ ls) then verdict program now served r else r_state r.
Proof.
  intros Hnd. revert s. induction Hnd as [|l ls Hl Hnd IH]; intros s Hwf Hc Hrun l' r' Hr'.
  { injection Hrun as <-. exists r'. by rewrite decide_False by apply not_elem_of_nil. }
  cbn [for_until] in Hrun. unfold bind in Hrun.
  destruct (reconcile_one program now served l s) as [[e|b] s1] eqn:H1; [done|].
  destruct b; [done|]. pose proof (Hc l ltac:(left)) as Hcl. destruct Hcl as (r & Hr & Hg & Hlv).
  destruct (reconcile_one_verdict program now served l r s s1 false) as (Hwf1 & Ht & Hev & r1 & Hr1 & Hst1);
    [done|by exists r|done..|].
  destruct (ev_records _ _ Hev l' r' Hr') as (r1' & Hr1' & Hre).
  assert (∀ l0, l0 ∈ ls → current_live l0 s1) as Hc1.
  { intros l0 Hl0. eapply current_live_touches; [|exact Ht|apply Hc; by right]. set_solver. }
  destruct (IH s1 Hwf1 Hc1 Hrun l' r1' Hr1') as (r2 & Hr2 & Hst2). exists r2. split; [done|].
  rewrite Hst2. destruct (decide (l' = l)) as [->|Hne].
  - rewrite decide_False by done. rewrite decide_True by left. congruence.
  - destruct (to_records _ _ _ Ht l' r' Hr') as (r1'' & ? & _ & Hsame). simplify_eq.
    specialize (Hsame Hne). rewrite (decide_ext (l' ∈ l :: ls) (l' ∈ ls)) by set_solver.
    case_decide; [|done]. unfold verdict. rewrite Hsame.
    apply decide_ext. symmetry. by apply removed_evolves.
Qed.

(** C11: rule p).  When the fetch of the program's control list is complete
    and the pass runs to its end, the live events of the program that it no
    longer serves and whose end is still to come are cancelled, and the state
    of every other event is as it was; when the fetch is incomplete, nothing
    happens at all. *)
Theorem removed_events_cancelled (program : string) (now : Z) (ps : DerProgramState) (s s' : Proc)
    (l : loc) (r : EventRecord) :
  store_wf (p_store s) → reconcile_removed program now ps s = (inr false, s') →
  deref (p_store s) l = Some r →
  let current := held_program (p_tick s) ps in
  let served := m_rid <$> ps_controls current in
  if ps_controls_complete current
  then ∃ r', deref (p_store s') l = Some r' ∧
         r_state r' = if decide (l ∈ all_active_states (p_store s) ∧ removed program now served r)
                      then CANCELLED else r_state r
  else s' = s.
Proof.
  intros Hwf Hrun Hr. cbn zeta. unfold reconcile_removed, bind, get in Hrun.
  destruct (ps_controls_complete (held_program (p_tick s) ps)) eqn:Hcomp; cbn [negb] in Hrun;
    [|by injection Hrun].
  eapply (reconcile_loop program now _ _ s s') in Hrun as (r' & Hr' & Hst); [|by apply all_active_NoDup
    |done|intros l0; by apply all_active_current|exact Hr].
  exists r'. split; [done|]. rewrite Hst. unfold verdict. repeat case_decide; naive_solver.
Qed.

(** ** Rule m) *)

Lemma find_predecessor_spec program raw_start s p :
  find_successive_predecessor program raw_start s = Some p →
  p ∈ live_records s ∧ r_program p = program ∧
  interval_start (r_derc p) + interval_duration (r_derc p) = raw_start.
Proof.
  unfold find_successive_predecessor. intros Hh.
  assert (p ∈ filter (λ r, r_program r = program ∧
            interval_start (r_derc r) + interval_duration (r_derc r) = raw_start) (live_records s))
    as Hin by (destruct (filter _ _); cbn in Hh; simplify_eq; left).
  apply list_elem_of_filter in Hin. naive_solver.
Qed.

Lemma find_predecessor_rand program raw_start rc s :
  find_successive_predecessor program raw_start (set_rand rc s) =
  find_successive_predecessor program raw_start s.
Proof. done. Qed.

(** Rule m).  When a live event of the program ends, on the server's
    schedule, exactly when a control starts, the control's effective start is
    that event's effective end, whatever the randomization; the control keeps
    its own randomized duration; and the offsets are cached, so that every
    later poll that finds no predecessor any more computes the same ones. *)
Theorem successive_events_leave_no_gap (program : string) (derc : Dercontrol) (s s2 : Proc)
    (p : EventRecord) :
  find_successive_predecessor program (interval_start derc) s = Some p →
  let s' := (effective_offsets program derc s).2 in
  ∃ offs, (effective_offsets program derc s).1 = inr offs ∧
    interval_start derc + offs.1 = r_end p ∧
    offs.2 = (offsets_of derc s).1.2 ∧
    (p_rand s2 = p_rand s' →
     find_successive_predecessor program (interval_start derc) s2 = None →
     (effective_offsets program derc s2).1 = inr offs).
Proof.
  intros Hp. unfold effective_offsets, bind, get, do, modify. cbn [fst snd exec].
  rewrite find_predecessor_rand, Hp.
  destruct (offsets_of derc s) as [[so dof] rc] eqn:Ho. cbn [fst snd].
  assert (dict_get (m_rid derc) (rc_cache rc) = Some (so, dof)) as Hc.
  { replace rc with (offsets_of derc s).2 by (by rewrite Ho).
    replace (so, dof) with (offsets_of derc s).1 by (by rewrite Ho). apply get_offsets_stores. }
  assert (∀ rc' o, dict_get (m_rid derc) (rc_cache rc') = Some o →
    p_rand s2 = rc' → (offsets_of derc s2).1 = o) as Hlater.
  { intros rc' o Hrc' Hs2. unfold offsets_of. rewrite Hs2. by apply get_offsets_cached. }
  destruct (Z.eqb_spec (r_end p - interval_start derc) so) as [He|He]; cbn.
  - exists (so, dof). split_and!; [done|cbn; lia|done|]. intros Hs2 Hn.
    rewrite find_predecessor_rand, Hn. cbn. by rewrite (Hlater rc (so, dof) Hc Hs2).
  - exists (r_end p - interval_start derc, dof). split_and!; [done|cbn; lia|done|]. intros Hs2 Hn.
    rewrite find_predecessor_rand, Hn. cbn. f_equal. apply (Hlater _ _) with (2 := Hs2).
    unfold override_start_offset. rewrite Hc. apply dict_get_set_eq.
Qed.

(** ** Events over on arrival *)

Lemma post_response_emits derc code program s :
  emits (response_to derc code (λ _, True)) s (post_response derc code program None s).2.
Proof.
  revert s. change (guar (emits (response_to derc code (λ _, True)))
                      (post_response derc code program None)).
  assert (∀ lfdi, guar (emits (response_to derc code (λ _, True))) (post_to_lfdi derc code lfdi))
    as Hl.
  { intros lfdi s. eapply emits_mono; [|by apply post_to_lfdi_emits].
    intros a. destruct a; cbn; naive_solver. }
  unfold post_response, excluded, post_to_device.
  repeat first [apply Hl | guar_step].
Qed.

Lemma audit_unstored_emits derc program prim st du to :
  guar (emits not_a_post) (audit_unstored derc program prim st du to).
Proof.
  apply (emits_no_post Hcalm _ [KRelay]); [apply (bool_decide_unpack _); exact I|guar_auto].
Qed.

(** A control not tracked whose effective end is already past, outside
    an opted-out window, is not stored; if anything was ever posted for its
    mRID the handler does nothing, and otherwise all it posts is EXPIRED. *)
Theorem expired_on_arrival (program : string) (primacy : Z) (derc : Dercontrol)
    (now start duration : Z) (s : Proc) :
  start + duration < now →
  (∀ b, resume_after_epoch (p_loss s) = Some b → b < start) →
  let run := new_event program primacy derc now start duration s in
  p_store run.2 = p_store s ∧
  if has_responded (m_rid derc) (p_tracker s) then run = (inr false, s)
  else emits (λ a, match a with
                   | Post _ b _ => rb_status b = EXPIRED ∧ rb_subject b = m_rid derc
                   | _ => True
                   end) s run.2.
Proof.
  intros Hend Hb. cbn zeta.
  assert (new_event program primacy derc now start duration s =
    if has_responded (m_rid derc) (p_tracker s) then (inr false, s)
    else (audit_unstored derc program primacy start duration "expired" ;;;
          post_response derc EXPIRED program None ;;; get p_closed) s) as ->.
  { unfold new_event. unfold bind at 1, get at 1.
    assert (match resume_after_epoch (p_loss s) with Some b => start <=? b | None => false end
            = false) as ->.
    { destruct (resume_after_epoch (p_loss s)) as [b|]; [|done]. apply Z.leb_gt. by apply Hb. }
    apply Z.ltb_lt in Hend. rewrite Hend. unfold bind at 1, get at 1.
    by destruct (has_responded _ _). }
  destruct (has_responded (m_rid derc) (p_tracker s)); [done|]. split.
  - apply (same_store_kinds Hcalm). guar_auto.
  - apply (rel_bind (emits _)).
    + eapply emits_mono; [|apply audit_unstored_emits]. by intros [].
    + intros [] s1 _. apply (rel_bind (emits _)); [|done].
      eapply emits_mono; [|apply post_response_emits]. intros []; cbn; try done.
      intros (_ & Hm & p & Hc). split; [|done]. by eapply plain_wire_code in Hc.
Qed.
End Polls.

(** ** Runs *)

(** Two live events of [/p]; the program now serves only [E1]. *)
Definition removal_state : Proc :=
  set_store
    (mkStore [sample_record "E1" "/p" 1 ACTIVE ["op_mod_fixed_w"] 900 600;
              sample_record "E2" "/p" 1 SCHEDULED ["op_mod_fixed_w"] 2000 600]
             [("E1", 0%nat); ("E2", 1%nat)])
    (new_proc (sample_disc [sample_control "E1" ["op_mod_fixed_w"] 900 600])).

Lemma removal_state_wf : store_wf (p_store removal_state).
Proof.
  split; [apply (bool_decide_unpack _); vm_compute; exact I|]. intros m l Hin. cbn in Hin.
  apply elem_of_cons in Hin as [[= -> ->]|Hin]; [by eexists|].
  apply list_elem_of_singleton in Hin as [= -> ->]. by eexists.
Qed.

Lemma removed_events_cancelled_witness :
  let ps := sample_program "/p" 1 [sample_control "E1" ["op_mod_fixed_w"] 900 600] in
  let s' := (@reconcile_removed sample_env "/p" 1000 ps removal_state).2 in
  (∃ r', deref (p_store s') 1 = Some r' ∧ r_state r' = CANCELLED) ∧
  (∃ r', deref (p_store s') 0 = Some r' ∧ r_state r' = ACTIVE).
Proof.
  cbn zeta. set (ps := sample_program "/p" 1 [sample_control "E1" ["op_mod_fixed_w"] 900 600]).
  set (s' := (@reconcile_removed sample_env "/p" 1000 ps removal_state).2).
  assert (@reconcile_removed sample_env "/p" 1000 ps removal_state = (inr false, s')) as Hrun
    by (vm_compute; reflexivity).
  pose proof (λ l r, removed_events_cancelled (E := sample_env) (λ _ _, eq_refl) "/p" 1000 ps
                removal_state s' l r removal_state_wf Hrun) as H.
  split.
  - destruct (H 1%nat _ eq_refl) as (r' & Hr' & Hst). exists r'. split; [exact Hr'|].
    rewrite Hst, decide_True; [reflexivity|]. apply (bool_decide_unpack _). vm_compute. exact I.
  - destruct (H 0%nat _ eq_refl) as (r' & Hr' & Hst). exists r'. split; [exact Hr'|].
    rewrite Hst, decide_False; [reflexivity|]. apply (bool_decide_unpack _). vm_compute. exact I.
Defined.

(** [E1] runs from 900 to 1500 but was randomized to end at 1530; [E2] follows
    it at 1500 on the server's schedule. *)
Lemma successive_events_leave_no_gap_witness :
  let p := set_derc (sample_control "E1" ["op_mod_fixed_w"] 900 600)
             (sample_record "E1" "/p" 1 ACTIVE ["op_mod_fixed_w"] 900 630) in
  let s := set_store (mkStore [p] [("E1", 0%nat)]) (new_proc (sample_disc [])) in
  ∃ offs, (@effective_offsets sample_env "/p" (sample_control "E2" ["op_mod_fixed_w"] 1500 600) s).1
            = inr offs ∧ 1500 + offs.1 = 1530.
Proof.
  cbn zeta.
  destruct (successive_events_leave_no_gap (E := sample_env) "/p"
              (sample_control "E2" ["op_mod_fixed_w"] 1500 600)
              (set_store (mkStore [set_derc (sample_control "E1" ["op_mod_fixed_w"] 900 600)
                 (sample_record "E1" "/p" 1 ACTIVE ["op_mod_fixed_w"] 900 630)] [("E1", 0%nat)])
                 (new_proc (sample_disc [])))
              (new_proc (sample_disc []))
              (set_derc (sample_control "E1" ["op_mod_fixed_w"] 900 600)
                 (sample_record "E1" "/p" 1 ACTIVE ["op_mod_fixed_w"] 900 630)))
    as (offs & Ho & Hgap & _).
  - vm_compute. reflexivity.
  - exists offs. split; [exact Ho|exact Hgap].
Defined.

Lemma expired_on_arrival_witness :
  let s := new_proc (sample_disc []) in
  let run := @new_event sample_env "/p" 1 (sample_control "E1" ["op_mod_fixed_w"] 100 200) 1000 100 200 s in
  p_store run.2 = p_store s ∧ statuses_of "E1" (p_log run.2) = [EXPIRED; EXPIRED].
Proof.
  cbn zeta. split; [|vm_compute; reflexivity].
  apply (expired_on_arrival (E := sample_env) (λ _ _, eq_refl)); [lia|]. intros b Hb. discriminate Hb.
Defined.

(** ** A completed event that runs again

    A control from 1000 to 1100 whose duration the server lets the client
    stretch by up to 600 s, and the environment at the instant [t] where every
    draw comes out as [draw]. *)

Definition stretchable : Dercontrol :=
  let d := sample_control "E1" ["op_mod_fixed_w"] 1000 100 in
  {| m_rid := m_rid d; dercontrol_base := dercontrol_base d; interval_start := interval_start d;
     interval_duration := interval_duration d; randomize_start := None;
     randomize_duration := Some 600; event_status := event_status d;
     creation_time := creation_time d; response_required := response_required d;
     reply_to := reply_to d |}.

Definition env_at (t draw : Z) : Env :=
  {| interfere := λ _ s, s; timebase_now := λ _ _, t; local_now := λ _, t;
     randint := λ _ _ _ m, Z.min m draw; state_ready := λ _, true;
     post_outcome := λ _ _ _, PostOk; future_result := λ _ _, true;
     dispatch_result := λ _ _, None; settle_order := λ _ l, l;
     settle_order_perm := λ _ l, reflexivity l; group_lookup := λ _ _, None;
     takes_controls := λ _, true; supported_modes2_hook := None;
     profile := λ _, {| profile_base := Some E2023; profile_features := ∅ |};
     has_observer := false; audit_enabled := true; audit_keeps_history := false;
     wire_name := λ n, n; held_program := λ _ ps, ps; task_cancelled := λ _, false;
     patience := 0 |}.

(** How often an event's control was dispatched. *)
Definition dispatches_of (mrid : bytes) (log : list Action) : nat :=
  length (filter (λ a, (match a with
                        | ApplyControl _ d _ => bool_decide (m_rid d = mrid)
                        | _ => false
                        end) = true) log).

(** Offsets are not stable once an event is over.  The cache forgets them
    10 s after the effective end and the store forgets the event 50 s later;
    if the server still serves the control, the next poll draws again, and a
    longer draw makes a completed event start a second time on its devices:
    polled at 1000 (no stretch drawn), completed at 1100, polled at 1170, and
    active again at 1180, until 1700. *)
Theorem completed_event_runs_again :
  let s1 := (@run_op (env_at 1000 0) (OpPoll "/p") (new_proc (sample_disc [stretchable]))).2 in
  let s2 := (@run_op (env_at 1100 0)
               (OpFire {| tm_kind := Completion; tm_record := 0; tm_target := 1100 |}) s1).2 in
  let s3 := (@run_op (env_at 1170 0) (OpPoll "/p") s2).2 in
  let s4 := (@run_op (env_at 1180 600) (OpPoll "/p") s3).2 in
  r_state <$> lookup_record (p_store s2) "E1" = Some COMPLETED ∧
  dispatches_of "E1" (p_log s2) = 2%nat ∧
  (λ r, (r_state r, r_end r)) <$> lookup_record (p_store s4) "E1" = Some (ACTIVE, 1700) ∧
  dispatches_of "E1" (p_log s4) = 4%nat ∧
  statuses_of "E1" (p_log s4) =
    [ACKNOWLEDGED; ACKNOWLEDGED; R_ACTIVE; R_ACTIVE; R_COMPLETED; R_COMPLETED].
Proof. vm_compute. auto 10. Qed.
