(* ===== verification/FallbackProps.v ===== *)
(** * The fallback and the modes of a device

    What [apply_dderc_fallback] writes when an event ends and dispatch is
    device by device (no group lookup): never a mode another running event
    holds on the device, and every mode the event leaves behind is either in
    the default that is written or disabled. *)

From S2P Require Import Prelude Controls EventStore Supersession Randomization Trackers.
From S2P Require Import Response Discovered Timers ProcState Relay Posting Fallback Processor.
From S2P Require Import ProcFrame Evolution Lifecycle CalmRuns.

(** Every write goes to one device, by href. *)
Definition ungrouped (E : Env) : Prop := ∀ n p, group_lookup n p = None.

Section FallbackProps.
Context {E : Env} (Hcalm : calm E) (Hungrouped : ungrouped E).

Lemma no_group program s : group_local_lfdis program s = None.
Proof. unfold group_local_lfdis. by rewrite Hungrouped. Qed.

(** ** Releasing *)

(** Only the registrations of [mrid] change. *)
Record releases (mrid : bytes) (s s' : Proc) : Prop := {
  rl_store : same_store s s';
  rl_tick : p_tick s' = p_tick s;
  rl_log : p_log s' = p_log s;
  rl_dderc : p_dderc s' = p_dderc s;
  rl_others : ∀ dev m, m ≠ mrid →
    ActiveModes.owned_by dev m (p_modes s') = ActiveModes.owned_by dev m (p_modes s);
}.

#[local] Instance releases_preorder mrid : PreOrder (releases mrid).
Proof.
  split; [by intros s; split|].
  intros s1 s2 s3 [] []. split; try congruence; [by etrans|]. intros dev m Hm.
  rewrite rl_others1, rl_others0; done.
Qed.

Lemma unregister_releases dev mrid s : releases mrid s (exec (CUnregister dev mrid) s).
Proof.
  split; try done. cbn. intros dev' m Hm. rewrite ActiveModes.unregister_owned.
  by rewrite decide_False by naive_solver.
Qed.

Lemma release_device_runs r owned active dev s :
  ∃ x, release_device r owned active dev s = (inr x, exec (CUnregister dev (r_mrid r)) s) ∧
    x.1 = (dev, (ActiveModes.unregister dev (r_mrid r) (p_modes s)).1).
Proof. unfold release_device, bind, get, do, modify, ret. eexists. split; [done|]. done. Qed.

Lemma release_loop r owned active devs s :
  ∃ xs s', map_each devs (release_device r owned active) s = (inr xs, s') ∧
    releases (r_mrid r) s s' ∧ xs.*1.*1 = devs.
Proof.
  revert s. induction devs as [|dev devs IH]; intros s.
  - exists [], s. by split_and!.
  - cbn [map_each]. unfold bind. destruct (release_device_runs r owned active dev s) as (x & -> & Hx).
    destruct (IH (exec (CUnregister dev (r_mrid r)) s)) as (xs & s' & -> & Hr & Hxs).
    exists (x :: xs), s'. split_and!; [done| |cbn; by rewrite Hx, Hxs].
    etrans; [apply unregister_releases|done].
Qed.

(** ** Planning *)

Lemma plan_appends active clear s needs plan :
  ∃ ds ws, fp_defaults (foldl (plan_device active clear s) plan needs) = fp_defaults plan ++ ds ∧
    fp_withdraw (foldl (plan_device active clear s) plan needs) = fp_withdraw plan ++ ws.
Proof.
  revert plan. induction needs as [|[dev released] needs IH]; intros plan; cbn [foldl].
  - exists [], []. by rewrite !app_nil_r.
  - destruct (IH (plan_device active clear s plan (dev, released))) as (ds & ws & -> & ->).
    unfold plan_device, plan_without_default, plan_with_default. cbn [fst snd].
    repeat case_match; cbn [fp_defaults fp_withdraw];
      first [by eauto | rewrite <- !app_assoc; by eauto].
Qed.

(** A default that leaves every mode held on its device alone. *)
Definition spares (active : list EventRecord) (s : Proc) (t : DefaultTarget) : Prop :=
  get_active_mode_names (dd_base (dt_default t)) ##
  modes_running_in (reach_of (ps_href (dt_program t)) [dt_dev t] s) active s.

Lemma effective_spares dderc (held : gset string) :
  let taken := get_active_mode_names (dd_base dderc) ∩ held in
  get_active_mode_names
    (dd_base (if decide (taken = ∅) then dderc else default_without dderc taken)) ## held.
Proof. cbn zeta. case_decide; rewrite ?default_without_modes; set_solver. Qed.

Lemma plan_spares active clear s needs plan :
  Forall (spares active s) (fp_defaults plan) →
  Forall (spares active s) (fp_defaults (foldl (plan_device active clear s) plan needs)).
Proof.
  revert plan. induction needs as [|[dev released] needs IH]; intros plan Hp; [done|].
  cbn [foldl]. apply IH. unfold plan_device, plan_without_default. cbn [fst snd].
  destruct (get_device_lfdi dev s); [|done].
  destruct (best_dderc_program_for_device dev s) as [best|]; [|by repeat case_match].
  destruct (ps_default best) as [dderc|]; [|done]. unfold plan_with_default. cbn [fp_defaults].
  destruct (_ && _); [|done]. apply Forall_app. split; [done|]. apply Forall_singleton.
  unfold spares. cbn [dt_default dt_program dt_dev]. apply effective_spares.
Qed.

Lemma held_on_device active s href dev r n :
  r ∈ active → dev ∈ program_devices (r_program r) s →
  n ∈ ActiveModes.owned_by dev (r_mrid r) (p_modes s) →
  n ∈ modes_running_in (reach_of href [dev] s) active s.
Proof.
  intros Hr Hdev Hn. unfold modes_running_in. apply elem_of_union_list.
  exists (modes_held_by (reach_of href [dev] s) s r). split; [apply list_elem_of_fmap; eauto|].
  unfold modes_held_by, reach_of. rewrite !no_group. cbn [list_fmap fmap].
  rewrite decide_False.
  - apply elem_of_union_list. eexists. split; [apply list_elem_of_fmap; exists dev; split; [done|]|].
    + apply list_elem_of_filter. split; [|done]. apply orb_true_iff. right.
      apply bool_decide_eq_true, elem_of_list_to_set. left.
    + unfold ActiveModes.covered_among, ActiveModes.owned_by in *.
      apply ActiveModes.elem_of_union_modes.
      destruct (dict_get (r_mrid r) _) as [ms|] eqn:Hg; [|by apply not_elem_of_empty in Hn].
      exists (r_mrid r), ms. split; [|done]. apply list_elem_of_filter.
      split; [cbn; by apply elem_of_singleton|by apply dict_get_elem].
  - intros Hempty. apply (not_elem_of_empty (C := gset string) (String.append "href:" dev)).
    rewrite <- Hempty. apply elem_of_intersection.
    split; apply elem_of_list_to_set; [left|]. apply list_elem_of_fmap. eauto.
Qed.

(** ** Dispatching *)

Lemma emit_all acts s :
  for_each acts (λ a, do (CEmit a)) s = (inr tt, set_log (p_log s ++ acts) s).
Proof.
  revert s. induction acts as [|a acts IH]; intros s; cbn [for_each].
  - rewrite app_nil_r. by destruct s.
  - unfold bind, do at 1, modify. rewrite IH. cbn. by rewrite <- app_assoc.
Qed.

Lemma gather_log acts s : p_log (gather acts s).2 = p_log s ++ acts ∧ p_disc (gather acts s).2 = p_disc s.
Proof.
  unfold gather, await, bind, get. rewrite emit_all. unfold do, modify. cbn [exec].
  destruct (task_cancelled _); cbn; by rewrite Hcalm.
Qed.

Definition is_default_write (a : Action) : Prop :=
  match a with ApplyDefault _ _ _ _ _ => True | _ => False end.

(** The log grows by actions of [Q]. *)
Lemma gather_emits acts (Q : Action → Prop) :
  Forall Q acts → guar (emits Q) (gather acts).
Proof.
  intros HQ s. destruct (gather_log acts s) as [Hl Hd]. split; [done|]. eauto.
Qed.

Lemma attribute_defaults_emits plans results Q : guar (emits Q) (attribute_defaults plans results).
Proof.
  revert results. induction plans as [|[t locals] plans IH]; intros results; cbn [attribute_defaults];
    repeat first [apply IH | apply (do_emits Hcalm); by intros | guar_step].
Qed.

Lemma default_calls_ungrouped mrid origin t :
  default_calls mrid origin (t, None) =
  [ApplyDefault (ByHref (dt_dev t)) (dt_default t) (ps_curves (dt_program t)) origin (Some mrid)].
Proof. done. Qed.

(** Every default target is written, and nothing else is a default write. *)
Lemma dispatch_defaults_emits mrid targets (P : DefaultTarget → Prop) s :
  Forall P targets →
  emits (λ a, ∃ t c o, P t ∧ a = ApplyDefault (ByHref (dt_dev t)) (dt_default t) c o (Some mrid)) s
    (dispatch_defaults mrid targets s).2.
Proof.
  intros HP. rewrite Forall_forall in HP. unfold dispatch_defaults, bind, get.
  set (plans := (λ t, (t, group_local_lfdis (ps_href (dt_program t)) s)) <$> targets).
  apply (rel_bind (emits _)); [|intros ? ? _; apply attribute_defaults_emits].
  apply gather_emits, Forall_forall.
  intros a (calls & Ha & (pl & -> & Hpl)%list_elem_of_fmap)%list_elem_of_join.
  apply list_elem_of_fmap in Hpl as (t & -> & Ht). rewrite no_group, default_calls_ungrouped in Ha.
  apply list_elem_of_singleton in Ha as ->. eauto 10.
Qed.

Definition dispatch_plan (r : EventRecord) (devices : list string) (plan : FallbackPlan) : M unit :=
  (match fp_defaults plan with
   | [] => ret tt
   | targets => dispatch_defaults (r_mrid r) targets
   end) ;;;
  (match fp_withdraw plan with
   | [] => ret tt
   | _ => calls <- get (withdraw_calls r devices plan) ;; gather calls ;;; ret tt
   end) ;;;
  (match fp_clear plan with
   | [] => ret tt
   | devs => calls <- get (clear_calls r devs) ;; gather calls ;;; ret tt
   end).

(** The fallback decides in a state where only its own registrations are
    gone, and then dispatches what it decided. *)
Lemma fallback_run l r clear s :
  deref (p_store s) l = Some r →
  ∃ xs s1,
    map_each (unique_devices (r_program r) s)
      (release_device r (compared_mode_keys (dercontrol_base (r_derc r))) (running_records s)) s
      = (inr xs, s1) ∧
    releases (r_mrid r) s s1 ∧ xs.*1.*1 = unique_devices (r_program r) s ∧
    apply_dderc_fallback l clear s =
      dispatch_plan r (unique_devices (r_program r) s)
        (foldl (plan_device (running_records s) clear s1) no_plan
           (filter (λ x : string * gset string * bool, x.2 = true) xs).*1) s1.
Proof.
  intros Hr.
  destruct (release_loop r (compared_mode_keys (dercontrol_base (r_derc r))) (running_records s)
              (unique_devices (r_program r) s) s) as (xs & s1 & Hrun & Hrel & Hxs).
  exists xs, s1. split_and!; [done..|]. unfold apply_dderc_fallback.
  rewrite (bind_read _ r) by done. unfold bind at 1, get at 1. unfold bind at 1, get at 1.
  unfold bind at 1. rewrite Hrun.
  by destruct (filter _ xs) as [|[dr b] needs].
Qed.

(** The write of a default sets no mode of [held dev]. *)
Definition default_write_spares (held : string → string → Prop) (a : Action) : Prop :=
  match a with
  | ApplyDefault (ByHref dev) d _ _ _ => ∀ n, held dev n → n ∉ get_active_mode_names (dd_base d)
  | ApplyDefault (ByLfdi _) _ _ _ _ => False
  | _ => True
  end.

Lemma calls_spare held (f : Proc → list Action) :
  (∀ s a, a ∈ f s → ¬ is_default_write a) →
  guar (emits (default_write_spares held)) (calls <- get f ;; gather calls ;;; ret tt).
Proof.
  intros Hf s. unfold bind at 1, get. apply (rel_bind (emits _)); [|done].
  apply gather_emits, Forall_forall. intros a Ha%Hf. by destruct a.
Qed.

Lemma dispatch_plan_spares held r devices plan s :
  Forall (λ t, ∀ n, held (dt_dev t) n → n ∉ get_active_mode_names (dd_base (dt_default t)))
    (fp_defaults plan) →
  emits (default_write_spares held) s (dispatch_plan r devices plan s).2.
Proof.
  intros Hd. apply (rel_bind (emits _)).
  - destruct (fp_defaults plan) as [|t ts]; [done|].
    eapply emits_mono; [|by apply (dispatch_defaults_emits (r_mrid r) (t :: ts)), Hd].
    intros a (t' & c & o & Ht & ->). done.
  - intros [] s1 _. apply (guar_bind_from (emits _)).
    + revert s1. change (guar (emits (default_write_spares held))
        (match fp_withdraw plan with [] => ret tt
         | _ => calls <- get (withdraw_calls r devices plan) ;; gather calls ;;; ret tt end)).
      destruct (fp_withdraw plan) eqn:Hw; [guar_auto|]. apply calls_spare.
      intros s1 a. unfold withdraw_calls. rewrite no_group. intros (? & -> & _)%list_elem_of_fmap [].
    + intros []. destruct (fp_clear plan); [guar_auto|]. apply calls_spare.
      intros s2 a. unfold clear_calls. rewrite no_group. intros (? & -> & _)%list_elem_of_fmap [].
Qed.

(** C5: when the end (or the opt-out) of an event is handled undisturbed by
    other tasks and devices are not grouped, the default controls written to a
    device set no mode that another running event of one of the device's
    programs holds there. *)
Theorem default_spares_running_events (l : loc) (r : EventRecord) (clear : bool) (s : Proc) :
  deref (p_store s) l = Some r →
  emits (default_write_spares (λ dev n,
           ∃ r2, r2 ∈ running_records s ∧ r_mrid r2 ≠ r_mrid r ∧
                 dev ∈ program_devices (r_program r2) s ∧
                 n ∈ ActiveModes.owned_by dev (r_mrid r2) (p_modes s)))
    s (apply_dderc_fallback l clear s).2.
Proof.
  intros Hr. destruct (fallback_run l r clear s Hr) as (xs & s1 & _ & Hrel & _ & ->).
  assert (emits (λ _, False) s s1) as Hs1.
  { split; [apply Hrel|]. exists []. rewrite app_nil_r. split; [apply Hrel|constructor]. }
  etrans; [eapply emits_mono; [|exact Hs1]; done|]. apply dispatch_plan_spares.
  eapply Forall_impl; [apply plan_spares; constructor|]. intros t Ht n (r2 & H2 & Hne & Hdev & Hn) Hc.
  apply (Ht n); [done|]. apply held_on_device with (r := r2); [done| |].
  - unfold program_devices in *. destruct (rl_store _ _ _ Hrel) as [_ ->]. done.
  - by rewrite (rl_others _ _ _ Hrel).
Qed.

(** ** Nothing is left behind *)

Definition release_result (r : EventRecord) (owned : gset string) (active : list EventRecord)
    (s : Proc) (dev : string) : string * gset string * bool :=
  let released := (ActiveModes.unregister dev (r_mrid r) (p_modes s)).1 in
  let other := device_has_other_active dev (r_mrid r) active s in
  (dev, released,
   if bool_decide (dev ∈ r_superseded r)
      && bool_decide (owned ⊆ default ∅ (r_superseded_modes r !! dev)) && other then false
   else if bool_decide (released = ∅) then negb other else true).

Lemma release_result_frame r owned active s dev dev0 :
  dev ≠ dev0 →
  release_result r owned active (exec (CUnregister dev0 (r_mrid r)) s) dev =
  release_result r owned active s dev.
Proof.
  intros Hne. unfold release_result. cbn [exec p_modes set_modes].
  rewrite !ActiveModes.unregister_released. unfold ActiveModes.covered, ActiveModes.owned_by.
  rewrite !ActiveModes.unregister_device_events, !decide_False by done. done.
Qed.

Lemma release_loop_results r owned active devs s xs s' :
  NoDup devs → map_each devs (release_device r owned active) s = (inr xs, s') →
  xs = release_result r owned active s <$> devs.
Proof.
  intros Hnd. revert s xs s'. induction Hnd as [|dev devs Hd Hnd IH]; intros s xs s'.
  - by intros [= <- <-].
  - cbn [map_each]. unfold bind at 1. change (release_device r owned active dev s)
      with (inr (release_result r owned active s dev) : Exn + _, exec (CUnregister dev (r_mrid r)) s).
    unfold bind. set (s1 := exec (CUnregister dev (r_mrid r)) s).
    destruct (map_each devs (release_device r owned active) s1) as [[e|ys] s2] eqn:Hrun; [done|].
    intros [= <- <-]. cbn. f_equal. rewrite (IH _ _ _ Hrun). apply list_fmap_ext.
    intros k d Hk%list_elem_of_lookup_2. apply release_result_frame. by intros ->.
Qed.

Lemma better_default_has dev s best pd :
  (∀ b, best = Some b → is_Some (ps_default b)) →
  ∀ b, better_default s dev best pd = Some b → is_Some (ps_default b).
Proof.
  intros Hb b. unfold better_default. repeat case_match; intros; simplify_eq; eauto.
Qed.

Lemma best_has_default dev s b :
  best_dderc_program_for_device dev s = Some b → is_Some (ps_default b).
Proof.
  unfold best_dderc_program_for_device.
  assert (∀ l best, (∀ b0, best = Some b0 → is_Some (ps_default b0)) →
    ∀ b0, foldl (better_default s dev) best l = Some b0 → is_Some (ps_default b0)) as H.
  { induction l as [|pd l IH]; intros best Hb; [done|]. cbn. apply IH. by apply better_default_has. }
  by apply H.
Qed.

(** The plan covers a mode of a device: by a default or by a withdrawal. *)
Definition plan_covers (plan : FallbackPlan) (dev n : string) : Prop :=
  (∃ t, t ∈ fp_defaults plan ∧ dt_dev t = dev ∧
        n ∈ get_active_mode_names (dd_base (dt_default t))) ∨
  (∃ ms, (dev, ms) ∈ fp_withdraw plan ∧ n ∈ ms).

Lemma plan_device_covers active s plan dev released lfdi n :
  get_device_lfdi dev s = Some lfdi → n ∈ released →
  (∀ best, best_dderc_program_for_device dev s = Some best →
     Dderc.should_apply lfdi (ps_href best) (ps_primacy best) (p_dderc s) = true) →
  plan_covers (plan_device active false s plan (dev, released)) dev n.
Proof.
  intros Hl Hn Hshould. unfold plan_device. cbn [fst snd]. rewrite Hl.
  destruct (best_dderc_program_for_device dev s) as [best|] eqn:Hbest.
  - destruct (best_has_default _ _ _ Hbest) as [dderc Hd]. rewrite Hd. unfold plan_with_default.
    specialize (Hshould best eq_refl). set (carried := get_active_mode_names (dd_base dderc)).
    set (taken := carried ∩ _). destruct (decide (n ∈ carried ∖ taken)) as [Hw|Hw].
    + left. cbn [fp_defaults]. rewrite Hshould, (bool_decide_false (carried ∖ taken = ∅)) by set_solver.
      rewrite andb_false_r. cbn [negb andb]. eexists.
      split; [apply elem_of_app; right; by apply list_elem_of_singleton|]. split; [done|].
      cbn [dt_default]. case_decide; rewrite ?default_without_modes; fold carried; set_solver.
    + right. cbn [fp_withdraw]. rewrite decide_False by set_solver.
      eexists. split; [apply elem_of_app; right; by apply list_elem_of_singleton|]. set_solver.
  - unfold plan_without_default. right. rewrite decide_False by set_solver. cbn [fp_withdraw].
    exists released. split; [|done]. apply elem_of_app. right. by apply list_elem_of_singleton.
Qed.

Lemma plan_covers_all active s needs plan dev released lfdi n :
  (dev, released) ∈ needs → get_device_lfdi dev s = Some lfdi → n ∈ released →
  (∀ best, best_dderc_program_for_device dev s = Some best →
     Dderc.should_apply lfdi (ps_href best) (ps_primacy best) (p_dderc s) = true) →
  plan_covers (foldl (plan_device active false s) plan needs) dev n.
Proof.
  intros (n1 & n2 & ->)%list_elem_of_split Hl Hn Hs. rewrite foldl_app. cbn [foldl].
  set (plan1 := foldl _ plan n1). unfold plan_covers.
  destruct (plan_appends active false s n2 (plan_device active false s plan1 (dev, released)))
    as (ds & ws & -> & ->).
  destruct (plan_device_covers active s plan1 dev released lfdi n) as [(t & Ht & ?)|(ms & Hms & ?)];
    [done..| |]; [left; exists t|right; exists ms]; rewrite elem_of_app; auto.
Qed.

Lemma attribute_defaults_runs plans results s :
  ∃ s', attribute_defaults plans results s = (inr tt, s') ∧ p_log s' = p_log s.
Proof.
  revert results s. induction plans as [|[t locals] plans IH]; intros results s;
    cbn [attribute_defaults]; [by exists s|]. unfold bind at 1.
  destruct (_ && _); unfold bind, get, do, modify, ret; edestruct IH as (s' & -> & Hl); by exists s'.
Qed.

Section NotCancelled.
Context (Hlive : ∀ n, task_cancelled n = false).

Lemma gather_runs acts s :
  ∃ rs s', gather acts s = (inr rs, s') ∧ p_log s' = p_log s ++ acts.
Proof.
  unfold gather, await, bind, get. rewrite emit_all. unfold do, modify. rewrite Hlive.
  cbn. do 2 eexists. split; [done|]. cbn. by rewrite Hcalm.
Qed.

Lemma dispatch_defaults_runs mrid targets s :
  ∃ s' acts, dispatch_defaults mrid targets s = (inr tt, s') ∧ p_log s' = p_log s ++ acts ∧
    ∀ t, t ∈ targets → ∃ c o, ApplyDefault (ByHref (dt_dev t)) (dt_default t) c o (Some mrid) ∈ acts.
Proof.
  unfold dispatch_defaults. unfold bind at 1, get at 1. unfold bind at 1, get at 1. unfold bind.
  match goal with |- context [gather ?a s] => destruct (gather_runs a s) as (rs & s1 & -> & Hl1) end.
  edestruct attribute_defaults_runs as (s2 & -> & Hl2). do 2 eexists.
  split; [done|]. rewrite Hl2, Hl1. split; [done|]. intros t Ht. do 2 eexists.
  apply list_elem_of_join. eexists. split; [|apply list_elem_of_fmap; eexists; split; [reflexivity|]].
  2: { apply list_elem_of_fmap. eexists. split; [reflexivity|exact Ht]. }
  rewrite no_group. by apply list_elem_of_singleton.
Qed.

Lemma withdraw_runs r devices plan s :
  ∃ s' acts,
    (match fp_withdraw plan with
     | [] => ret tt
     | _ => calls <- get (withdraw_calls r devices plan) ;; gather calls ;;; ret tt
     end : M unit) s = (inr tt, s') ∧ p_log s' = p_log s ++ acts ∧
    ∀ dev ms, (dev, ms) ∈ fp_withdraw plan → DisableModes (ByHref dev) ms (r_mrid r) ∈ acts.
Proof.
  destruct (fp_withdraw plan) as [|w ws] eqn:Hw.
  - exists s, []. rewrite app_nil_r. split_and!; [done..|]. intros ?? ?%elem_of_nil. done.
  - unfold bind, get. destruct (gather_runs (withdraw_calls r devices plan s) s) as (rs & s1 & -> & Hl1).
    do 2 eexists. split; [done|]. split; [done|]. intros dev ms Hin.
    unfold withdraw_calls. rewrite no_group, Hw. apply list_elem_of_fmap. by exists (dev, ms).
Qed.

(** What the log shows of a mode the ended event set on a device. *)
Definition mode_settled (log : list Action) (dev n : string) : Prop :=
  (∃ d c o k, ApplyDefault (ByHref dev) d c o k ∈ log ∧ n ∈ get_active_mode_names (dd_base d)) ∨
  (∃ ms k, DisableModes (ByHref dev) ms k ∈ log ∧ n ∈ ms).

Lemma dispatch_plan_settles r devices plan s dev n :
  plan_covers plan dev n →
  ∃ new, p_log (dispatch_plan r devices plan s).2 = p_log s ++ new ∧ mode_settled new dev n.
Proof.
  intros Hcov. unfold dispatch_plan.
  assert (∃ s1 a1, (match fp_defaults plan with [] => ret tt
                    | targets => dispatch_defaults (r_mrid r) targets end : M unit) s
            = (inr tt, s1) ∧ p_log s1 = p_log s ++ a1 ∧
            ∀ t, t ∈ fp_defaults plan → ∃ c o,
              ApplyDefault (ByHref (dt_dev t)) (dt_default t) c o (Some (r_mrid r)) ∈ a1)
    as (s1 & a1 & H1 & Hl1 & Ha1).
  { destruct (fp_defaults plan) as [|t ts] eqn:Hd; [|apply dispatch_defaults_runs].
    exists s, []. rewrite app_nil_r. split_and!; [done..|]. intros ? ?%elem_of_nil. done. }
  unfold bind at 1. rewrite H1. destruct (withdraw_runs r devices plan s1) as (s2 & a2 & H2 & Hl2 & Ha2).
  unfold bind at 1. rewrite H2.
  match goal with |- context [p_log (?m s2).2] => set (last := m) end.
  assert (emits (λ _, True) s2 (last s2).2) as [_ (a3 & Hl3 & _)].
  { eapply emits_mono; [|apply (emits_kinds Hcalm _ [KFallback; KAwait])]; [done|].
    unfold last. repeat first [ apply gather_from_kinds; [intros ?; apply clear_calls_kind|in_kinds]
                              | guar_step ]. }
  exists (a1 ++ a2 ++ a3). rewrite Hl3, Hl2, Hl1, <- !app_assoc. split; [done|].
  destruct Hcov as [(t & Ht & <- & Hn)|(ms & Hms & Hn)].
  - left. destruct (Ha1 t Ht) as (c & o & Hin). do 4 eexists. rewrite elem_of_app. eauto.
  - right. do 2 eexists. rewrite !elem_of_app. eauto.
Qed.

(** When an event ends, every mode it held on one of its program's devices, and
    no other registered event holds there, is settled on that device. *)
Lemma released_modes_settled (l : loc) (r : EventRecord) (s : Proc) (dev n : string)
    (lfdi : bytes) :
  deref (p_store s) l = Some r → dev ∈ program_devices (r_program r) s →
  get_device_lfdi dev s = Some lfdi →
  n ∈ ActiveModes.owned_by dev (r_mrid r) (p_modes s) →
  n ∉ ActiveModes.covered dev (r_mrid r) (p_modes s) →
  dev ∉ r_superseded r ∨ device_has_other_active dev (r_mrid r) (running_records s) s = false →
  (∀ best, best_dderc_program_for_device dev s = Some best →
     Dderc.should_apply lfdi (ps_href best) (ps_primacy best) (p_dderc s) = true) →
  ∃ new, p_log (apply_dderc_fallback l false s).2 = p_log s ++ new ∧ mode_settled new dev n.
Proof.
  intros Hr Hdev Hl Ho Hc Hfree Hshould.
  destruct (fallback_run l r false s Hr) as (xs & s1 & Hrun & Hrel & _ & ->).
  apply release_loop_results in Hrun; [|apply NoDup_unique].
  destruct (rl_store _ _ _ Hrel) as [Hst Hdisc]. rewrite <- (rl_log _ _ _ Hrel).
  apply dispatch_plan_settles.
  set (released := (ActiveModes.unregister dev (r_mrid r) (p_modes s)).1).
  assert (n ∈ released) as Hn
    by (unfold released; rewrite ActiveModes.unregister_released; set_solver).
  apply plan_covers_all with (released := released) (lfdi := lfdi); [|..|done|].
  - apply list_elem_of_fmap.
    exists (release_result r (compared_mode_keys (dercontrol_base (r_derc r))) (running_records s) s dev).
    split; [done|]. apply list_elem_of_filter. rewrite Hrun. split.
    + unfold release_result. cbn [snd]. fold released.
      rewrite (bool_decide_false (released = ∅)) by set_solver.
      destruct Hfree as [Hs| ->]; [by rewrite bool_decide_false|]. by rewrite andb_false_r.
    + apply list_elem_of_fmap. exists dev. split; [done|]. by apply elem_of_unique.
  - unfold get_device_lfdi in *. by rewrite Hdisc.
  - intros best. unfold best_dderc_program_for_device, better_default, program_state.
    rewrite Hdisc, (rl_dderc _ _ _ Hrel). by apply Hshould.
Qed.
End NotCancelled.
End FallbackProps.

(** ** Runs *)

(** [E1] has just completed on [/a]; [E2], of another program, still holds
    [op_mod_max_lim_w] there.  The default names that mode and [op_mod_fixed_w]. *)
Definition shared_default : DefaultDercontrol :=
  {| dd_mrid := "DD"; dd_base := sample_base ["op_mod_fixed_w"; "op_mod_max_lim_w"];
     dd_settings := [] |}.

Definition shared_disc : DiscoveredState :=
  let p := {| ps_href := "/p"; ps_primacy := 1; ps_default := Some shared_default; ps_controls := [];
              ps_curves := []; ps_fsa := None; ps_controls_complete := true;
              ps_control_list_link := None; ps_default_link := None |} in
  mkDisc [("/a", {| ed_href := "/a"; ed_lfdi := "A" |})] [("/p", p); ("/q", sample_program "/q" 2 [])]
         (mapping_add "/q" "/a" (mapping_add "/p" "/a" empty_mapping)).

Definition shared_state : Proc :=
  set_modes (ActiveModes.register "/a" "E2" {["op_mod_max_lim_w"]}
              (ActiveModes.register "/a" "E1" {["op_mod_fixed_w"; "op_mod_volt_var"]} []))
    (set_store
       (mkStore [sample_record "E1" "/p" 1 COMPLETED ["op_mod_fixed_w"; "op_mod_volt_var"] 900 100;
                 sample_record "E2" "/q" 2 ACTIVE ["op_mod_max_lim_w"] 900 600]
                [("E1", 0%nat); ("E2", 1%nat)])
       (new_proc shared_disc)).

(** The default and disabling writes of a log, as (device, modes). *)
Definition mode_writes (log : list Action) : list (string * list string) :=
  omap (λ a, match a with
             | ApplyDefault (ByHref dev) d _ _ _ => Some (dev, elements (get_active_mode_names (dd_base d)))
             | DisableModes (ByHref dev) ms _ => Some (dev, elements ms)
             | _ => None
             end) log.

Lemma default_spares_running_events_witness :
  let s' := (@apply_dderc_fallback sample_env 0 false shared_state).2 in
  emits (default_write_spares (λ dev n,
           ∃ r2, r2 ∈ running_records shared_state ∧ r_mrid r2 ≠ "E1" ∧
                 dev ∈ program_devices (r_program r2) shared_state ∧
                 n ∈ ActiveModes.owned_by dev (r_mrid r2) (p_modes shared_state))) shared_state s' ∧
  mode_writes (p_log s') = [("/a", ["op_mod_fixed_w"]); ("/a", ["op_mod_volt_var"])].
Proof.
  cbn zeta. split; [|vm_compute; reflexivity].
  apply (default_spares_running_events (E := sample_env) (λ _ _, eq_refl) (λ _ _, eq_refl) 0
           (sample_record "E1" "/p" 1 COMPLETED ["op_mod_fixed_w"; "op_mod_volt_var"] 900 100)).
  reflexivity.
Defined.

(** ** A default withheld for good

    The program's primacy is raised from 1 to 2 while one of its events runs. *)

Definition scheduled_control : Dercontrol := sample_control "E1" ["op_mod_fixed_w"] 2000 600.

Definition disc_with_primacy (primacy : Z) : DiscoveredState :=
  mkDisc [("/a", {| ed_href := "/a"; ed_lfdi := "A" |})]
         [("/p", sample_program "/p" primacy [scheduled_control])]
         (mapping_add "/p" "/a" empty_mapping).

Definition run_on (op : Op) (s : Proc) : Proc := (@run_op sample_env op s).2.

Definition after_completion (primacy_at_end : Z) : Proc :=
  let polled := run_on (OpPoll "/p") (new_proc (disc_with_primacy 1)) in
  let active := run_on (OpFire {| tm_kind := Activation; tm_record := 0; tm_target := 2000 |}) polled in
  let refreshed := set_disc (disc_with_primacy primacy_at_end) active in
  let completed := run_on (OpFire {| tm_kind := Completion; tm_record := 0; tm_target := 2600 |}) refreshed in
  run_on (OpPoll "/p") completed.

(** The writes a device received: [true] for a control, [false] for a default,
    a disabling or a clear. *)
Definition writes_to (dev : string) (log : list Action) : list bool :=
  omap (λ a, match a with
             | ApplyControl (ByHref d) _ _ => if decide (d = dev) then Some true else None
             | ApplyDefault (ByHref d) _ _ _ _ | DisableModes (ByHref d) _ _ | ClearControl (ByHref d) _ =>
                 if decide (d = dev) then Some false else None
             | _ => None
             end) log.

(** A program's default is withheld for good once its primacy number has
    risen above the one the default was last applied at.  In the run where the
    primacy stays 1, the device gets its default at the poll, the control, and
    the default again at the event's end.  In the run where a refresh raises
    the primacy to 2 during the event, the event completes and the device gets
    neither the default nor a disabling of the mode, then or at the next poll:
    the ended event's control is the last thing written to it. *)
Theorem default_withheld_after_primacy_rise :
  writes_to "/a" (p_log (after_completion 1)) = [false; true; false] ∧
  writes_to "/a" (p_log (after_completion 2)) = [false; true] ∧
  r_state <$> lookup_record (p_store (after_completion 2)) "E1" = Some COMPLETED.
Proof. vm_compute. auto. Qed.
