(* ===== verification/DeviceProps.v ===== *)
(** * From the event engine to the devices

    The theorems about the dispatcher, and its composition with the event
    engine: what the engine's actions leave on a device. *)

From S2P Require Import Prelude Controls Modes EventStore Supersession Randomization Trackers.
From S2P Require Import Response Discovered Timers ProcState Dispatcher DeviceSpec.
From S2P Require Import Relay Posting Fallback Processor.
From S2P Require Import ProcFrame Evolution Lifecycle CalmRuns FallbackProps.

(** ** The dispatcher implements the device specification *)


(** Whatever the registry, the gate and the connectors answer, at every
    await, and however the action ends: the setting a device last acknowledged
    for an element is, after an action, the one it had before or the one the
    action commands for it; an element the action does not command, or the
    device does not have, is not touched. *)
Theorem only_commanded_settings (E : DispEnv) (a : Action) (s : Disp) (c : Connector)
    (e : ControlElement) :
  e ∈ ALL_ELEMENTS → (∀ n px c', aresolve n px = inr c' → cn_id c' = cn_id c → c' = c) →
  let after := setting c e (ds_log (perform a s).2) in
  after = setting c e (ds_log s) ∨
  (implements c (method e) = true ∧ commanded a e = after ∧ is_Some after).
Proof.
  intros He Hid after. unfold after.
  destruct (adds_setting c e _ s _ (perform_at_most c e He Hid a s)) as [H|[[p Hp] H]]; [by left|right].
  rewrite H. unfold wanted in *. destruct (implements c (method e)); [|done]. rewrite Hp. eauto.
Qed.

(** ** A refused control writes nothing *)

Section Refused.
Context {E : DispEnv} (l origin : string).
Hypothesis Hl : l ≠ "".
Hypothesis Hdenied : ∀ n, may_command n l origin = false.

Lemma apply_one_denied c m p label ap ca s :
  ∃ s', apply_one c m p (Some l) origin label ap ca s = (inr false, s') ∧ adds quiet s s'.
Proof using Hl Hdenied.
  assert (truthy (Some l) = true) as Ht by by destruct l.
  unfold apply_one. change (default "" (Some l)) with l. rewrite Ht. cbn [negb orb].
  unfold bind at 1, get at 1. rewrite Hdenied. cbn [negb].
  unfold bind, clock, get, keep_write, record_write, when, emit.
  destruct has_history, has_telemetry; (eexists; split; [reflexivity|]); eexists; cbn [ds_log];
    (split; [by rewrite <- ?app_assoc|repeat constructor]).
Qed.

Lemma apply_body_denied c derc curves href s :
  existsb (λ call, implements c call.1) (translate_controls (dercontrol_base derc) curves) = true →
  ∃ s', apply_control_to_connector (Some c) derc curves (Some l) href origin s =
        (inl (Raised CommandNotPermittedError), s') ∧ adds quiet s s'.
Proof using Hl Hdenied.
  unfold apply_control_to_connector.
  generalize (translate_controls (dercontrol_base derc) curves) as calls. intros calls Hex.
  assert (∃ flags s', map_each calls (apply_translated c (Some l) href origin (Some (m_rid derc))
            (Some (m_rid derc))) s = (inr flags, s') ∧ adds quiet s s' ∧
            existsb id flags = existsb (λ call, implements c call.1) calls) as (flags & s' & Hr & Hq & Hf).
  { clear Hex. revert s. induction calls as [|[m p] calls IH]; intros s; [by exists [], s|].
    assert (∃ s1, apply_translated c (Some l) href origin (Some (m_rid derc)) (Some (m_rid derc)) (m, p) s =
              (inr (implements c m), s1) ∧ adds quiet s s1) as (s1 & Hs1 & Hq1).
    { unfold apply_translated, implements. cbn [fst snd]. destruct (control_support c m).
      - destruct (apply_one_denied c m p (label_of (Some l) href) (Some (m_rid derc))
          (Some (m_rid derc)) s) as (s1 & Hrun & Hq). exists s1. unfold bind. by rewrite Hrun.
      - by exists s.
      - eexists. split; [reflexivity|]. eexists. split; [done|]. by repeat constructor. }
    destruct (IH s1) as (flags & s' & Hr & Hq & Hf).
    eexists _, s'. cbn [map_each]. unfold bind. rewrite Hs1, Hr. split; [reflexivity|].
    split; [by etrans|]. cbn [existsb fst]. by rewrite Hf. }
  exists s'. unfold bind. rewrite Hr, Hf, Hex. auto.
Qed.
End Refused.

(** The device a target stands for: by its LFDI, or by an href that resolves to
    it all along. *)
Definition stands_for {E : DispEnv} (t : Target) (lfdi : string) : Prop :=
  match t with
  | ByLfdi l => l = lfdi
  | ByHref h => ∀ n, lfdi_resolver n h = Some lfdi
  end.

Definition href_of (t : Target) : option string :=
  match t with ByHref h => Some h | ByLfdi _ => None end.

Lemma apply_control_resolved {E : DispEnv} (t : Target) (lfdi : string) derc curves c s s1 :
  stands_for t lfdi → takes_controls (Some lfdi) = true →
  resolve_connector_by_lfdi lfdi s = (inr (Some c), s1) →
  perform (ApplyControl t derc curves) s =
  apply_control_to_connector (Some c) derc curves (Some lfdi) (href_of t) (origin_name IEEE2030_5) s1.
Proof.
  intros Hs Ht Hr. destruct t as [h|l]; cbn [perform stands_for href_of] in *.
  - unfold apply_control, resolve_connector, resolve_lfdi, refuse_meter, bind, get.
    rewrite Hs, Ht. unfold ret. rewrite Hs, Hr. by rewrite Hs.
  - subst l. unfold apply_control_by_lfdi, refuse_meter. rewrite Ht. unfold bind, ret. by rewrite Hr.
Qed.

(** C8: an event's control for a device whose command role another interface
    holds, addressed by LFDI or by an href that resolves to the device, is
    rejected and never reaches the device: the dispatch raises
    [CommandNotPermittedError], not one connector method is called, and the
    code the event engine then posts is "not applicable".  The registry, the
    connectors and everything else may answer anything; the device has a
    connector that implements at least one of the modes, and is no meter. *)
Theorem refused_control_writes_nothing (E : DispEnv) (t : Target) (lfdi : string) (derc : Dercontrol)
    (curves : list FieldVal) (s s1 : Disp) (c : Connector) :
  stands_for t lfdi → lfdi ≠ "" → takes_controls (Some lfdi) = true →
  (∀ n, may_command n lfdi (origin_name IEEE2030_5) = false) →
  resolve_connector_by_lfdi lfdi s = (inr (Some c), s1) →
  existsb (λ call, implements c call.1) (translate_controls (dercontrol_base derc) curves) = true →
  (perform (ApplyControl t derc curves) s).1 = inl (Raised CommandNotPermittedError) ∧
  adds quiet s (perform (ApplyControl t derc curves) s).2 ∧
  response_code_for_dispatch_error CommandNotPermittedError = NOT_APPLICABLE.
Proof.
  intros Hs Hl Ht Hg Hr Hex. rewrite (apply_control_resolved t lfdi derc curves c s s1) by done.
  destruct (apply_body_denied lfdi _ Hl Hg c derc curves (href_of t) s1 Hex) as (s2 & -> & Hq).
  split; [done|]. split; [|done]. cbn [snd]. etrans; [|exact Hq].
  pose proof (guar_resolve_by_lfdi quiet (λ _ H, H) lfdi s) as H. by rewrite Hr in H.
Qed.

(** ** The end of an event, down to the device *)

(** The last action that reaches a device with something for [e] decides. *)
Lemma spec_last {E : DispEnv} hrefs conns gate c d acts e a :
  a ∈ acts → reaches hrefs conns gate a c = true → is_Some (wanted a c e) →
  ∃ a', a' ∈ acts ∧ is_Some (wanted a' c e) ∧
        foldl (spec_step hrefs conns gate c) d acts e = wanted a' c e.
Proof.
  induction acts as [|x acts IH] using rev_ind; intros Ha Hr Hw; [by apply elem_of_nil in Ha|].
  rewrite foldl_snoc. set (f := foldl _ d acts) in *. unfold spec_step.
  apply elem_of_app in Ha as [Ha| ->%list_elem_of_singleton].
  - destruct (IH Ha Hr Hw) as (a' & Ha' & Hw' & Hf).
    destruct (reaches hrefs conns gate x c); [|exists a'; rewrite elem_of_app; auto].
    destruct (wanted x c e) as [p|] eqn:Ex; [|exists a'; rewrite elem_of_app; auto].
    exists x. rewrite Ex, elem_of_app, list_elem_of_singleton. eauto.
  - rewrite Hr. destruct Hw as [p Hw]. exists x. rewrite Hw, elem_of_app, list_elem_of_singleton. eauto.
Qed.

(** What a fallback action commands for a base element: a withdrawal, or what
    the default says. *)
Definition fallback_setting {B : Binding} (new : list Action) (e : ControlElement)
    (v : option Params) : Prop :=
  v = Some DISABLED ∨
  ∃ t d cs o k, ApplyDefault t d cs o k ∈ new ∧ is_Some v ∧
    v = add_ramp (dd_base d) <$> element_params e (dd_base d) cs.

Section EndOfEvent.
Context {E : Env} (Hcalm : calm E) (Hungrouped : ungrouped E).
Hypothesis Hnot : ∀ n, task_cancelled n = false.

Lemma settled_on_device (DE : DispEnv) hrefs conns gate (new : list Action) (dev n lf : string)
    (px : nat) (c : Connector) (e : ControlElement) (d : Disp) :
  stable_env hrefs conns gate →
  Forall (λ a, action_kind a ∈ [KFallback; KAwait]) new → mode_settled new dev n →
  hrefs dev = Some lf → conns lf = Some (px, c) → takes_controls (Some lf) = true →
  (∀ o, gate lf (origin_name o) = true) →
  dict_get n ELEMENT_BY_MODE = Some e → element e ∉ KEPT_AT_EVENT_END →
  implements c (method e) = true →
  fallback_setting new e (setting c e (ds_log (perform_all new d))).
Proof using.
  intros St Hkinds Hset Hh Hc Ht Hg He Hkept Himp.
  pose proof (proj1 (mode_of_spec n e) He) as [Hbase Hmode].
  assert (∀ a, target_of a = Some (ByHref dev) → reaches hrefs conns gate a c = true) as Hreach.
  { intros a Ha. unfold reaches, device_of. rewrite Ha. cbn [mbind option_bind target_lfdi].
    rewrite Hh. cbn [mbind option_bind]. rewrite Hc. cbn [mbind option_bind snd].
    by rewrite bool_decide_true, Ht, Hg. }
  rewrite (perform_all_refines St) by eauto using base_element_all.
  assert (∃ a, a ∈ new ∧ reaches hrefs conns gate a c = true ∧ is_Some (wanted a c e))
    as (a & Ha & Hr & Hw).
  { unfold wanted. rewrite Himp. destruct Hset as [(dd & cs & o & k & Hin & Hn)|(ms & k & Hin & Hn)].
    - eexists. split; [exact Hin|]. split; [by apply Hreach|]. cbn [commanded]. rewrite decide_True by done.
      apply fmap_is_Some, element_params_set. by eapply tracked_mode_set.
    - eexists. split; [exact Hin|]. split; [by apply Hreach|]. cbn [commanded].
      rewrite decide_True; [eauto|]. by rewrite Hmode. }
  destruct (spec_last hrefs conns gate c (λ e, setting c e (ds_log d)) new e a Ha Hr Hw)
    as (a' & Ha' & Hw' & ->).
  unfold wanted in *. rewrite Himp in *. rewrite Forall_forall in Hkinds. specialize (Hkinds a' Ha').
  unfold fallback_setting.
  destruct a' as [| | |t dd cs o k|t ms k|t k| | |]; cbn [commanded] in *; try (by destruct Hw').
  - exfalso. cbn [action_kind] in Hkinds.
    rewrite !elem_of_cons, elem_of_nil in Hkinds. by destruct Hkinds as [|[|]].
  - right. rewrite decide_True in * by done. exists t, dd, cs, o, k. auto.
  - left. case_decide; [done|by destruct Hw'].
  - left. case_decide; [done|by destruct Hw'].
Qed.

(** C3: when the end of an event is handled without interference or
    cancellation, and devices are not grouped, every mode it held on one of its
    program's devices, and no other registered event holds there, is settled on
    that device: it is in a default control written to it, or it is disabled.
    Down on the device: wherever these actions are performed by a dispatcher
    whose surroundings hold still and whose command gate permits the origin,
    the device behind the href ends with the element either withdrawn or at the
    setting of a default control, so the ended event's setting is gone (for an
    element the device implements and an event's end withdraws, that is, one
    outside [_KEPT_AT_EVENT_END]).  The device is not one superseded while
    another running event covers it, its LFDI is known, and the tracker does
    not withhold the default ([should_apply]). *)
Theorem ended_modes_leave_device (l : loc) (r : EventRecord) (s : Proc) (dev n : string)
    (lfdi : bytes) :
  deref (p_store s) l = Some r → dev ∈ program_devices (r_program r) s →
  get_device_lfdi dev s = Some lfdi →
  n ∈ ActiveModes.owned_by dev (r_mrid r) (p_modes s) →
  n ∉ ActiveModes.covered dev (r_mrid r) (p_modes s) →
  dev ∉ r_superseded r ∨ device_has_other_active dev (r_mrid r) (running_records s) s = false →
  (∀ best, best_dderc_program_for_device dev s = Some best →
     Dderc.should_apply lfdi (ps_href best) (ps_primacy best) (p_dderc s) = true) →
  ∃ new, p_log (apply_dderc_fallback l false s).2 = p_log s ++ new ∧ mode_settled new dev n ∧
    ∀ (DE : DispEnv) hrefs conns gate lf px c e d,
      stable_env hrefs conns gate →
      hrefs dev = Some lf → conns lf = Some (px, c) → takes_controls (Some lf) = true →
      (∀ o, gate lf (origin_name o) = true) →
      dict_get n ELEMENT_BY_MODE = Some e → element e ∉ KEPT_AT_EVENT_END →
      implements c (method e) = true →
      fallback_setting new e (setting c e (ds_log (perform_all new d))).
Proof using Hcalm Hungrouped Hnot.
  intros Hr Hdev Hl Ho Hc Hfree Hshould.
  destruct (released_modes_settled Hcalm Hungrouped Hnot l r s dev n lfdi) as (new & Hlog & Hset); [done..|].
  exists new. split; [done|]. split; [done|]. intros.
  eapply settled_on_device; try done.
  destruct (emits_kinds Hcalm (apply_dderc_fallback l false) [KFallback; KAwait]
              ltac:(apply apply_dderc_fallback_kinds; in_kinds) s) as (_ & new' & Hlog' & Hk).
  rewrite Hlog in Hlog'. by apply app_inv_head in Hlog' as ->.
Qed.
End EndOfEvent.

(** ** Runs *)

(** Device [A], reached as [/a], with a connector that implements every method;
    and meter [M], reached as [/m]. *)
Definition sample_connector : Connector :=
  {| cn_id := 1; cn_name := "inverter"; cn_class := 7;
     class_attr := λ n, if String.prefix "update_" n then Some (OwnFn 0) else None;
     inst_attr := λ n, if String.prefix "update_" n then Some (OwnFn 0) else None;
     class_dir := BaseConnector_methods; native_clear := false; relay_group := None;
     stated_modes2 := None |}.

Definition sample_hrefs (h : string) : option string :=
  if decide (h = "/a") then Some "A" else if decide (h = "/m") then Some "M" else None.
Definition sample_conns (l : string) : option (nat * Connector) :=
  if decide (l = "A") then Some (0%nat, sample_connector) else None.

Definition disp_env (gate : string → string → bool) : DispEnv := {|
  de_binding := {| all_vars := λ _, [("value", "value"); ("multiplier", "multiplier")] |};
  lfdi_resolver := λ _, sample_hrefs;
  get_connector := λ _ l, inr (fst <$> sample_conns l);
  aresolve := λ _ _, inr sample_connector;
  constructed := λ _ _, Some sample_connector;
  role_of := Some (λ l, if decide (l = "M") then "site_meter" else "der");
  may_command := λ _, gate;
  call_result := λ _ _ _ _, CallOk;
  notify_result := λ _ _, CallOk;
  wall_clock := λ n, 1000 + Z.of_nat n;
  has_history := true;
  has_telemetry := true;
|}.

Definition sample_disp_env : DispEnv := disp_env (λ _ _, true).

Definition new_disp : Disp := mkDisp ∅ ∅ [] 0.

Lemma sample_stable gate : @stable_env (disp_env gate) sample_hrefs sample_conns gate.
Proof.
  split; cbn; try done; unfold sample_conns.
  - intros n l px c. case_decide; [|done]. by intros [= _ <-].
  - intros l pc. case_decide; [|done]. by subst l.
  - intros l l' px px' c c'. repeat case_decide; try done. by intros [= _ <-] [= _ <-].
Qed.

(** An event's control, the clear on loss of communications, and the mode of the
    device in between. *)
Definition limit_control : Dercontrol := sample_control "E1" ["op_mod_max_lim_w"; "op_mod_fixed_w"] 900 600.
Definition max_lim_w : ControlElement := elem_value "opModMaxLimW" "op_mod_max_lim_w".


Lemma only_commanded_settings_witness :
  let after := setting sample_connector max_lim_w
                 (ds_log (@perform sample_disp_env (ApplyControl (ByHref "/a") limit_control []) new_disp).2) in
  after = Some [("enabled", PBool true); ("value", PInt 5000)] ∧
  (after = None ∨
   (implements sample_connector (method max_lim_w) = true ∧
    @commanded (@de_binding sample_disp_env) (ApplyControl (ByHref "/a") limit_control []) max_lim_w = after ∧
    is_Some after)).
Proof.
  cbn zeta. split; [vm_compute; reflexivity|].
  apply (only_commanded_settings sample_disp_env (ApplyControl (ByHref "/a") limit_control []) new_disp
           sample_connector max_lim_w).
  - apply (bool_decide_unpack _). vm_compute. exact I.
  - intros n px c' [= <-] _. reflexivity.
Defined.

Lemma refused_control_writes_nothing_witness :
  let E := disp_env (λ _ o, bool_decide (o ≠ "ieee2030_5")) in
  let out t := @perform E (ApplyControl t limit_control []) new_disp in
  (out (ByHref "/a")).1 = inl (Raised CommandNotPermittedError) ∧
  adds quiet new_disp (out (ByHref "/a")).2 ∧ adds quiet new_disp (out (ByLfdi "A")).2 ∧
  length (ds_log (out (ByHref "/a")).2) = 6%nat.
Proof.
  cbn zeta.
  assert (∀ t, @stands_for (disp_env (λ _ o, bool_decide (o ≠ "ieee2030_5"))) t "A" →
    let out := @perform (disp_env (λ _ o, bool_decide (o ≠ "ieee2030_5")))
                 (ApplyControl t limit_control []) new_disp in
    out.1 = inl (Raised CommandNotPermittedError) ∧ adds quiet new_disp out.2) as Hout.
  { intros t Ht.
    destruct (refused_control_writes_nothing (disp_env (λ _ o, bool_decide (o ≠ "ieee2030_5"))) t "A"
                limit_control [] new_disp
                (@resolve_connector_by_lfdi (disp_env (λ _ o, bool_decide (o ≠ "ieee2030_5"))) "A" new_disp).2
                sample_connector) as (H1 & H2 & _); [exact Ht|discriminate|reflexivity..| |auto].
    vm_compute. reflexivity. }
  destruct (Hout (ByHref "/a") (λ _, eq_refl)) as [H1 H2].
  destruct (Hout (ByLfdi "A") eq_refl) as [_ H3].
  split; [exact H1|]. split; [exact H2|]. split; [exact H3|]. vm_compute. reflexivity.
Defined.

Lemma ended_modes_leave_device_witness :
  ∃ new, p_log (@apply_dderc_fallback sample_env 0 false shared_state).2 = new ∧
    mode_settled new "/a" "op_mod_volt_var" ∧
    @fallback_setting (@de_binding sample_disp_env) new (elem_curve "opModVoltVar" "op_mod_volt_var")
      (setting sample_connector (elem_curve "opModVoltVar" "op_mod_volt_var")
         (ds_log (@perform_all sample_disp_env new new_disp))).
Proof.
  destruct (ended_modes_leave_device (E := sample_env) (λ _ _, eq_refl) (λ _ _, eq_refl) (λ _, eq_refl) 0
              (sample_record "E1" "/p" 1 COMPLETED ["op_mod_fixed_w"; "op_mod_volt_var"] 900 100)
              shared_state "/a" "op_mod_volt_var" "A") as (new & Hnew & Hs & Hd).
  - reflexivity.
  - apply (bool_decide_unpack _). vm_compute. exact I.
  - reflexivity.
  - apply (bool_decide_unpack _). vm_compute. exact I.
  - apply (bool_decide_unpack _). vm_compute. exact I.
  - left. apply (bool_decide_unpack _). vm_compute. exact I.
  - intros best Hbest. vm_compute in Hbest. injection Hbest as <-. reflexivity.
  - exists new. split; [exact Hnew|]. split; [exact Hs|].
    apply (Hd sample_disp_env sample_hrefs sample_conns (λ _ _, true) "A" 0%nat);
      [apply sample_stable|reflexivity..| |vm_compute; reflexivity].
    apply (bool_decide_unpack _). vm_compute. exact I.
Defined.

(** ** A limit that outlives its event *)

(** An event with one mode: polled, started, completed, and one more poll. *)
Definition run_of_event (field : string) : Proc :=
  let disc := mkDisc [("/a", {| ed_href := "/a"; ed_lfdi := "A" |})]
                [("/p", sample_program "/p" 1 [sample_control "E1" [field] 2000 600])]
                (mapping_add "/p" "/a" empty_mapping) in
  let polled := run_on (OpPoll "/p") (new_proc disc) in
  let active := run_on (OpFire {| tm_kind := Activation; tm_record := 0; tm_target := 2000 |}) polled in
  let completed := run_on (OpFire {| tm_kind := Completion; tm_record := 0; tm_target := 2600 |}) active in
  run_on (OpPoll "/p") completed.

Definition setting_after (field : string) (e : ControlElement) : option Params :=
  setting sample_connector e (ds_log (@perform_all sample_disp_env (p_log (run_of_event field)) new_disp)).

(** The ten modes of IEEE 2030.5-2023's second bitmap are written to the
    device but not tracked, so no event's end withdraws them.  First, for every
    control, the modes the engine registers never include one.  Then a run: an
    event that sets opModMaxLimW completes and the limit is withdrawn from the
    device; the same event with opModMaxLimWInject completes, and the device
    keeps the ended event's limit. *)
Theorem second_bitmap_modes_outlive_event :
  (∀ base field bit, (field, bit) ∈ FIELD_TO_BIT2 → field ∉ get_active_mode_names base) ∧
  r_state <$> lookup_record (p_store (run_of_event "op_mod_max_lim_w")) "E1" = Some COMPLETED ∧
  setting_after "op_mod_max_lim_w" max_lim_w = Some DISABLED ∧
  r_state <$> lookup_record (p_store (run_of_event "op_mod_max_lim_winject")) "E1" = Some COMPLETED ∧
  setting_after "op_mod_max_lim_winject" (elem_value "opModMaxLimWInject" "op_mod_max_lim_winject") =
    Some [("enabled", PBool true); ("value", PInt 5000)].
Proof.
  split; [|vm_compute; auto].
  assert (Forall (λ fb : string * Z, fb.1 ∉ FIELD_TO_BIT.*1 ++ DOE_LIMIT_NAMES) FIELD_TO_BIT2) as H
    by (apply (bool_decide_unpack _); vm_compute; exact I).
  rewrite Forall_forall in H. intros base field bit Hf Hin. apply (H _ Hf), elem_of_app.
  apply active_mode_names_spec in Hin as [[Hin _]|Hin]; [by left|right].
  apply doe_limits_keys in Hin. naive_solver.
Qed.

(** ** Schedule relay *)

(** The connectors a log says were notified, in order. *)
Definition notified (log : list Effect) : list Connector :=
  omap (λ eff, match eff with Notified c _ _ => Some c | _ => None end) log.

Section RelayProps.
Context {E : DispEnv}.

Definition not_notified (eff : Effect) : Prop :=
  match eff with Notified _ _ _ => False | _ => True end.

Lemma adds_not_notified s s' : adds not_notified s s' → notified (ds_log s') = notified (ds_log s).
Proof.
  intros (new & -> & H). unfold notified. rewrite omap_app.
  replace (omap _ new) with (@nil Connector); [by rewrite app_nil_r|].
  induction H as [|eff new Heff _ IH]; [done|]. by destruct eff.
Qed.

Lemma guar_resolve_silent lfdi : guar (adds not_notified) (resolve_connector_by_lfdi lfdi).
Proof.
  unfold resolve_connector_by_lfdi, warn_unused_update_methods.
  repeat first [apply guar_emit; exact I | guar_step].
Qed.

(** The groups of the connectors behind a list of LFDIs. *)
Definition group_behind (conns : string → option (nat * Connector)) (lfdis : list string)
    (g : RelayGroup) : Prop :=
  ∃ lfdi px c, lfdi ∈ lfdis ∧ conns lfdi = Some (px, c) ∧ g = group_of c.

Lemma group_behind_cons conns l lfdis g :
  group_behind conns (l :: lfdis) g ↔
  (match conns l with Some pc => g = group_of pc.2 | None => False end) ∨ group_behind conns lfdis g.
Proof.
  unfold group_behind. split.
  - intros (l' & px & c & [->|H]%elem_of_cons & Hc & ->).
    + left. by rewrite Hc.
    + right. by exists l', px, c.
  - intros [H|(l' & px & c & H & Hc & ->)].
    + destruct (conns l) as [[px c]|] eqn:Ec; [|done]. exists l, px, c. subst g. split; [left|done].
    + exists l', px, c. split; [by right|done].
Qed.

Lemma relay_targets_runs hrefs conns gate lfdis seen s :
  stable_env hrefs conns gate →
  ∃ targets s', relay_targets lfdis seen s = (inr targets, s') ∧
    adds not_notified s s' ∧
    NoDup (group_of <$> targets.*2) ∧ (∀ g, g ∈ group_of <$> targets.*2 → g ∉ seen) ∧
    ∀ g, (g ∈ seen ∨ g ∈ group_of <$> targets.*2) ↔ (g ∈ seen ∨ group_behind conns lfdis g).
Proof.
  intros St. revert seen s. induction lfdis as [|l lfdis IH]; intros seen s; cbn [relay_targets].
  { exists [], s. cbn. split; [done|]. split; [reflexivity|]. split; [constructor|].
    split; [by intros ? ?%elem_of_nil|]. intros g. rewrite elem_of_nil.
    split; [tauto|]. intros [?|(? & ? & ? & H%elem_of_nil & _)]; [auto|done]. }
  destruct (resolve_by_lfdi_stable St l s) as (s1 & Hr & _).
  pose proof (guar_resolve_silent l s) as Hq. rewrite Hr in Hq. cbn [snd] in Hq.
  unfold bind at 1, attempt. rewrite Hr. setoid_rewrite group_behind_cons.
  destruct (conns l) as [[px c]|]; cbn [fmap option_fmap option_map snd].
  - case_decide as Hseen.
    + destruct (IH seen s1) as (ts & s' & Hrun & Hq' & Hn & Hd & Hg). exists ts, s'.
      split; [done|]. split; [by etrans|]. split; [done|]. split; [done|]. intros g. rewrite Hg.
      split; [tauto|]. intros [?|[->|?]]; auto.
    + destruct (IH (group_of c :: seen) s1) as (ts & s' & Hrun & Hq' & Hn & Hd & Hg).
      exists ((l, c) :: ts), s'. unfold bind. rewrite Hrun. split; [done|]. split; [by etrans|].
      cbn [fmap list_fmap snd]. split; [|split].
      * constructor; [|done]. intros H. apply (Hd _ H). left.
      * intros g [->|H]%elem_of_cons; [done|]. intros H'. apply (Hd _ H). by right.
      * intros g. specialize (Hg g). rewrite elem_of_cons in Hg. rewrite elem_of_cons. tauto.
  - destruct (IH seen s1) as (ts & s' & Hrun & Hq' & Hn & Hd & Hg). exists ts, s'.
    split; [done|]. split; [by etrans|]. split; [done|]. split; [done|]. intros g. rewrite Hg. tauto.
Qed.

Lemma notify_all_runs targets s :
  (∀ n c, notify_result n c ≠ CallCancelled) →
  ∃ s', for_each targets notify_one s = (inr tt, s') ∧
        notified (ds_log s') = notified (ds_log s) ++ targets.*2.
Proof.
  intros Hn. revert s. induction targets as [|[l c] ts IH]; intros s; cbn [for_each].
  { exists s. by rewrite app_nil_r. }
  assert (∃ s1, notify_one (l, c) s = (inr tt, s1) ∧ notified (ds_log s1) = notified (ds_log s) ++ [c])
    as (s1 & Hs1 & Hl1).
  { unfold notify_one, bind, get, tick, modify, emit. cbn [snd fst ds_tick].
    pose proof (Hn (ds_tick s) c). destruct (notify_result (ds_tick s) c); [| |done];
      (eexists; split; [reflexivity|]); cbn [ds_log]; unfold notified; rewrite ?omap_app; cbn;
      by rewrite ?app_nil_r. }
  destruct (IH s1) as (s' & Hs' & Hl'). exists s'. unfold bind. rewrite Hs1. split; [done|].
  rewrite Hl', Hl1. cbn [fmap list_fmap snd]. by rewrite <- app_assoc.
Qed.
End RelayProps.

(** Relaying a notification to a list of LFDIs never fails for a connector
    that raises, notifies each relay group (a shared connection, or a single
    connector) exactly once, and leaves out none that has a connector, whatever
    the connectors do with it. *)
Theorem relay_reaches_each_group_once (E : DispEnv) hrefs conns gate (lfdis : list string) (s : Disp) :
  stable_env hrefs conns gate → (∀ n c, notify_result n c ≠ CallCancelled) →
  ∃ s' targets, relay_schedule_notification lfdis s = (inr tt, s') ∧
    notified (ds_log s') = notified (ds_log s) ++ targets ∧
    NoDup (group_of <$> targets) ∧
    ∀ g, g ∈ group_of <$> targets ↔ group_behind conns lfdis g.
Proof.
  intros St Hn.
  destruct (relay_targets_runs hrefs conns gate lfdis [] s St) as (ts & s1 & Hrun & Hq & Hd & _ & Hg).
  destruct (notify_all_runs ts s1 Hn) as (s' & Hrun' & Hl).
  exists s', ts.*2. unfold relay_schedule_notification, bind. rewrite Hrun. split; [done|].
  rewrite Hl, (adds_not_notified _ _ Hq). split; [done|]. split; [done|].
  intros g. specialize (Hg g). rewrite elem_of_nil in Hg. tauto.
Qed.

Lemma relay_reaches_each_group_once_witness :
  ∃ s' targets, @relay_schedule_notification sample_disp_env ["A"; "M"; "A"] new_disp = (inr tt, s') ∧
    notified (ds_log s') = targets ∧ NoDup (group_of <$> targets) ∧
    ∀ g, g ∈ group_of <$> targets ↔ group_behind sample_conns ["A"; "M"; "A"] g.
Proof.
  destruct (relay_reaches_each_group_once sample_disp_env sample_hrefs sample_conns (λ _ _, true)
              ["A"; "M"; "A"] new_disp) as (s' & ts & H1 & H2 & H3 & H4).
  - apply sample_stable.
  - discriminate.
  - exists s', ts. split; [exact H1|]. split; [exact H2|]. split; [exact H3|exact H4].
Defined.
