(* ===== verification/DispatchProps.v ===== *)
(** * Status 2 and the outcome of a dispatch

    When dispatch is device by device, the server is told an event started on
    a device only if the device's apply returned; and each device ends up
    recorded as applied or rejected by its own outcome. *)

From S2P Require Import Prelude Controls EventStore Supersession Randomization Trackers.
From S2P Require Import Response Discovered Timers ProcState Relay Posting Fallback Processor.
From S2P Require Import ProcFrame Evolution Lifecycle CalmRuns Endings FallbackProps.

(** No rejection reads as "started" on the wire. *)
Lemma rejection_not_active derc e p :
  resolve_wire_code derc (response_code_for_dispatch_error e) p ≠ Some R_ACTIVE.
Proof.
  assert (response_code_for_dispatch_error e ∈ [OPT_OUT; NOT_APPLICABLE; INVALID; NOT_SUPPORTED]) as H.
  { unfold response_code_for_dispatch_error. destruct e; apply (bool_decide_unpack _); vm_compute; exact I. }
  unfold resolve_wire_code. rewrite translate_total. intros [= Heq].
  repeat (apply elem_of_cons in H as [H|H]; [rewrite H in Heq; repeat case_match; done|]).
  by apply elem_of_nil in H.
Qed.

Section DispatchProps.
Context {E : Env} (Hcalm : calm E) (Hungrouped : ungrouped E).

(** An "event started" post is for a device of [ok]. *)
Definition started_only (s : Proc) (ok : string → Prop) (a : Action) : Prop :=
  match a with
  | Post _ b _ => rb_status b = R_ACTIVE →
      ∃ dev, ok dev ∧ get_device_lfdi dev s = Some (rb_lfdi b)
  | _ => True
  end.

Lemma respond_started l dev failure s0 s (ok : string → Prop) :
  p_disc s = p_disc s0 → (failure = None → ok dev) →
  emits (started_only s0 ok) s (respond l dev failure s).2.
Proof.
  intros Hd Hok. assert (∀ s1, get_device_lfdi dev s1 = get_device_lfdi dev s0 ∨ p_disc s1 ≠ p_disc s0)
    as Hlfdi.
  { intros s1. destruct (decide (get_device_lfdi dev s1 = get_device_lfdi dev s0)); [by left|].
    right. intros Heq. unfold get_device_lfdi in *. congruence. }
  unfold respond. destruct failure as [e|].
  - apply (rel_bind (emits _)); [by apply exec_emits|]. intros [] s1 _.
    apply (rel_bind (emits _)); [by apply (read_guar (emits _))|]. intros r s2 _.
    apply (rel_bind (emits _)); [by apply exec_emits|]. intros [] s3 _.
    eapply emits_mono; [|by apply post_response_for_devices_emits].
    intros []; cbn; try done. intros (_ & _ & p & Hc) Hst. rewrite Hst in Hc.
    by apply rejection_not_active in Hc.
  - apply (rel_bind (emits _)); [by apply exec_emits|]. intros [] s1 H1.
    apply (rel_bind (emits _)); [by apply (read_guar (emits _))|]. intros r s2 H2.
    assert (p_disc s2 = p_disc s0) as Hd2.
    { unfold read in H2. destruct (deref (p_store s1) l); simplify_eq. cbn.
      injection H1 as <-. cbn. done. }
    eapply emits_mono; [|by apply post_response_for_devices_emits].
    intros []; cbn; try done. intros ((dev' & ->%elem_of_singleton & Hl) & _ & _) _.
    exists dev. split; [by apply Hok|]. destruct (Hlfdi s2) as [<-|]; done.
Qed.

(** The device is recorded by its outcome, and a rejected one holds no mode
    for the event. *)
Definition outcome_recorded (l : loc) (mrid : bytes) (outcome : string → option DispatchError)
    (dev : string) (s : Proc) : Prop :=
  ∃ r, deref (p_store s) l = Some r ∧
    match outcome dev with
    | None => dev ∈ r_applied r
    | Some _ => dev ∈ r_rejected r ∧ ActiveModes.owned_by dev mrid (p_modes s) = ∅
    end.

(** Records evolve and registrations only shrink. *)
Record settles (s s' : Proc) : Prop := {
  st_evolves : evolves s s';
  st_shrinks : ∀ dev m,
    ActiveModes.owned_by dev m (p_modes s') ⊆ ActiveModes.owned_by dev m (p_modes s);
}.

#[local] Instance settles_preorder : PreOrder settles.
Proof.
  split; [by intros s; split|]. intros s1 s2 s3 [E1 S1] [E2 S2]. split; [by etrans|].
  intros dev m. etrans; [apply S2|apply S1].
Qed.

Lemma settles_kinds {A} (m : M A) :
  guar (kinds [KPost; KFallback; KWrite; KAwait]) m → guar settles m.
Proof.
  apply guar_kinds; [apply _|]. intros c s Hk. split.
  - apply exec_evolves. intros n s1. by rewrite Hcalm.
  - destruct c; cbn; try done;
      try (exfalso; revert Hk; apply (bool_decide_unpack _); vm_compute; exact I).
    + intros dev' m'. rewrite ActiveModes.unregister_owned. case_decide; set_solver.
    + intros dev' m'. by rewrite Hcalm.
Qed.

Lemma outcome_kept l mrid outcome dev s s' :
  settles s s' → outcome_recorded l mrid outcome dev s → outcome_recorded l mrid outcome dev s'.
Proof.
  intros [Hev Hsh] (r & Hr & Hm). destruct (ev_records _ _ Hev l r Hr) as (r' & Hr' & Hre).
  exists r'. split; [done|]. specialize (Hsh dev mrid). destruct (outcome dev).
  - destruct Hm as [Hrej Hown]. split; [by apply (re_rejected _ _ Hre)|]. set_solver.
  - by apply (re_applied _ _ Hre).
Qed.

Lemma respond_records l dev outcome r s u s' :
  deref (p_store s) l = Some r → respond l dev (outcome dev) s = (inr u, s') →
  outcome_recorded l (r_mrid r) outcome dev s'.
Proof.
  intros Hr Hrun. unfold respond in Hrun.
  destruct (outcome dev) as [e|] eqn:Ho; unfold bind at 1, do, modify in Hrun.
  - set (s1 := exec (CWrite l (WRejected dev)) s) in Hrun.
    assert (deref (p_store s1) l = Some (write_record (WRejected dev) r)) as Hr1
      by (cbn; by rewrite deref_update, decide_True, Hr).
    rewrite (bind_read _ _ _ _ Hr1) in Hrun. unfold bind in Hrun. cbn in Hrun.
    eapply outcome_kept; [eapply (guar_end settles); [|exact Hrun]; apply settles_kinds; guar_auto|].
    exists (write_record (WRejected dev) r). split; [done|]. rewrite Ho. split; [cbn; set_solver|].
    cbn. rewrite ActiveModes.unregister_owned. by case_decide; [|naive_solver].
  - set (s1 := exec (CWrite l (WApplied dev)) s) in Hrun.
    assert (deref (p_store s1) l = Some (write_record (WApplied dev) r)) as Hr1
      by (cbn; by rewrite deref_update, decide_True, Hr).
    rewrite (bind_read _ _ _ _ Hr1) in Hrun.
    eapply outcome_kept; [eapply (guar_end settles); [|exact Hrun]; apply settles_kinds; guar_auto|].
    exists (write_record (WApplied dev) r). split; [done|]. rewrite Ho. cbn. set_solver.
Qed.

(** What the dispatch of an event works on. *)
Definition targets_of (r : EventRecord) (s : Proc) : list string :=
  filter (λ dev, dev ∉ r_superseded r) (unique_devices (r_program r) s).
Definition curves_of (r : EventRecord) (s : Proc) : list FieldVal :=
  match program_state (r_program r) s with Some ps => ps_curves ps | None => [] end.
Definition outcome_of (r : EventRecord) (s : Proc) (dev : string) : option DispatchError :=
  dispatch_result (p_tick s) (ApplyControl (ByHref dev) (r_derc r) (curves_of r s)).

Lemma register_all mrid modes devs s :
  for_each devs (λ dev, do (CRegister dev mrid modes)) s =
  (inr tt, set_modes (foldl (λ reg dev, ActiveModes.register dev mrid modes reg) (p_modes s) devs) s).
Proof.
  revert s. induction devs as [|dev devs IH]; intros s; cbn [for_each foldl]; [by destruct s|].
  unfold bind, do at 1, modify. by rewrite IH.
Qed.

Lemma emit_each (f : string → Action) devs s :
  for_each devs (λ dev, do (CEmit (f dev))) s = (inr tt, set_log (p_log s ++ (f <$> devs)) s).
Proof.
  revert s. induction devs as [|dev devs IH]; intros s; cbn [for_each fmap list_fmap].
  - rewrite app_nil_r. by destruct s.
  - unfold bind, do at 1, modify. rewrite IH. cbn. by rewrite <- app_assoc.
Qed.

(** Registration and the start of the dispatches, then one report per device. *)
Lemma apply_control_run l r s :
  deref (p_store s) l = Some r → targets_of r s ≠ [] →
  ∃ s1, apply_control_to_devices l s =
      map_each (settle_order (p_tick s) (targets_of r s)) (λ dev,
        await ;;; respond l dev (outcome_of r s dev) ;;; ret (dev, outcome_of r s dev)) s1 ∧
    p_store s1 = p_store s ∧ emits not_a_post s s1.
Proof.
  intros Hr Hne. unfold apply_control_to_devices. rewrite (bind_read _ r) by done.
  unfold bind at 1, get at 1. unfold bind at 1, get at 1.
  change (filter _ (unique_devices (r_program r) s)) with (targets_of r s).
  destruct (targets_of r s) as [|t ts] eqn:Ht; [done|].
  unfold bind at 1. rewrite register_all. unfold bind at 1, get at 1. rewrite no_group by done.
  unfold dispatch_each. unfold bind at 1, get at 1. unfold bind at 1. rewrite emit_each.
  eexists. split; [reflexivity|]. split; [done|]. split; [done|].
  eexists. split; [reflexivity|]. apply Forall_forall. by intros a (dev & -> & _)%list_elem_of_fmap.
Qed.

Lemma report_settles l dev f : guar settles (await ;;; respond l dev f ;;; ret (dev, f)).
Proof. apply settles_kinds. guar_auto. unfold respond. guar_auto. Qed.

Lemma reports_started l (outcome : string → option DispatchError) order rest s0 s :
  rest ⊆ order → p_disc s = p_disc s0 →
  emits (started_only s0 (λ dev, dev ∈ order ∧ outcome dev = None)) s
    (map_each rest (λ dev, await ;;; respond l dev (outcome dev) ;;; ret (dev, outcome dev)) s).2.
Proof.
  revert s. induction rest as [|dev rest IH]; intros s Hsub Hd; [cbn; reflexivity|].
  cbn [map_each]. set (Q := started_only _ _).
  assert (emits Q s ((await ;;; respond l dev (outcome dev) ;;; ret (dev, outcome dev)) s).2) as H1.
  { apply (rel_bind (emits Q)).
    - eapply emits_mono; [|eapply (emits_no_post Hcalm await [KAwait])]; [by intros []| |guar_auto].
      apply (bool_decide_unpack _). exact I.
    - intros [] s1 Hs1. apply (guar_bind_from (emits Q)); [|intros ?; guar_auto].
      apply respond_started; [|intros Ho; split; [apply Hsub; left|done]].
      assert (same_store s s1) as [_ ->]; [|done].
      eapply (guar_end same_store); [|exact Hs1]. apply (same_store_kinds Hcalm). guar_auto. }
  apply (rel_bind (emits Q)); [done|]. intros b s1 Hs1. apply (guar_bind_from (emits Q)).
  - apply IH; [intros x Hx; apply Hsub; by right|]. rewrite Hs1 in H1.
    destruct H1 as [Hd1 _]. cbn in Hd1. congruence.
  - intros ?. guar_auto.
Qed.

(** C6: when an event with at least one dispatch target is applied undisturbed
    by other tasks, device by device (devices are not grouped), status 2 is posted only to devices whose dispatch succeeded, whatever the
    order the dispatches finish in; and when the pass returns, each target is
    recorded as applied, or as rejected with none of the event's modes left
    registered on it, by its own outcome. *)
Theorem started_only_where_applied (l : loc) (r : EventRecord) (s : Proc) :
  deref (p_store s) l = Some r → targets_of r s ≠ [] →
  let s' := (apply_and_respond l s).2 in
  emits (started_only s (λ dev, dev ∈ targets_of r s ∧ outcome_of r s dev = None)) s s' ∧
  ((apply_and_respond l s).1 = inr tt →
   ∀ dev, dev ∈ targets_of r s → outcome_recorded l (r_mrid r) (outcome_of r s) dev s').
Proof.
  intros Hr Hne. cbn zeta.
  destruct (apply_control_run l r s Hr Hne) as (s1 & Hrun & Hst & Hem).
  pose proof (settle_order_perm (p_tick s) (targets_of r s)) as Hperm.
  set (order := settle_order (p_tick s) (targets_of r s)) in *.
  assert (emits (started_only s (λ dev, dev ∈ order ∧ outcome_of r s dev = None)) s
            (apply_control_to_devices l s).2) as Hstart.
  { rewrite Hrun. etrans; [eapply emits_mono; [|exact Hem]; by intros []|].
    apply reports_started; [done|apply Hem]. }
  unfold apply_and_respond, bind. destruct (apply_control_to_devices l s) as [[e|outs] s2] eqn:Hac.
  - cbn in *. split; [|done]. eapply emits_mono; [|exact Hstart]. intros []; cbn; try done.
    setoid_rewrite Hperm. done.
  - assert (outs ≠ []) as Houts.
    { intros ->. symmetry in Hrun. apply map_each_length in Hrun. rewrite Hperm in Hrun.
      by destruct (targets_of r s). }
    destruct outs as [|o outs]; [done|]. cbn in *. split.
    + eapply emits_mono; [|exact Hstart]. intros []; cbn; try done. setoid_rewrite Hperm. done.
    + intros _ dev Hdev. rewrite <- Hperm in Hdev. revert dev Hdev.
      eapply (map_each_post settles (outcome_recorded l (r_mrid r) (outcome_of r s)) order);
        [intros dev; apply report_settles|intros ???; apply outcome_kept| |symmetry; exact Hrun].
      intros dev s3 y s4 _ H13 Hone. unfold bind in Hone.
      destruct (await s3) as [[e|[]] s5] eqn:Haw; [done|].
      destruct (respond l dev (outcome_of r s dev) s5) as [[e|u] s6] eqn:Hre; [done|].
      injection Hone as _ <-.
      assert (evolves s1 s5) as H15.
      { etrans; [apply H13|]. eapply (st_evolves s3), (guar_end settles); [|exact Haw].
        apply settles_kinds. guar_auto. }
      destruct (ev_records _ _ H15 l r) as (r5 & Hr5 & Hre5); [by rewrite Hst|].
      rewrite <- (re_mrid _ _ Hre5). by eapply respond_records.
Qed.
End DispatchProps.

(** ** A run: [/b] does not support the control's mode *)

Definition b_rejects (_ : nat) (a : Action) : option DispatchError :=
  match a with
  | ApplyControl (ByHref "/b") _ _ => Some ModeNotSupportedError
  | _ => None
  end.

Definition partial_env : Env := env_with (λ _ s, s) b_rejects.

Definition dispatch_state : Proc :=
  set_store (mkStore [sample_record "E1" "/p" 1 ACTIVE ["op_mod_fixed_w"] 900 600] [("E1", 0%nat)])
    (new_proc (sample_disc [])).

Lemma started_only_where_applied_witness :
  let r := sample_record "E1" "/p" 1 ACTIVE ["op_mod_fixed_w"] 900 600 in
  let s' := (@apply_and_respond partial_env 0 dispatch_state).2 in
  targets_of r dispatch_state = ["/a"; "/b"] ∧
  @outcome_recorded 0 "E1" (@outcome_of partial_env r dispatch_state) "/b" s' ∧
  statuses_of "E1" (p_log s') = [R_ACTIVE; NOT_SUPPORTED].
Proof.
  cbn zeta. split; [reflexivity|]. split; [|vm_compute; reflexivity].
  refine (proj2 (started_only_where_applied (E := partial_env) (λ _ _, eq_refl) (λ _ _, eq_refl) 0
            (sample_record "E1" "/p" 1 ACTIVE ["op_mod_fixed_w"] 900 600) dispatch_state _ _) _ "/b" _).
  - reflexivity.
  - discriminate.
  - vm_compute. reflexivity.
  - right. left.
Defined.
