(* ===== verification/Returns.v ===== *)
(** * Every operation returns

    Without interference, no handler raises (but for the timer of an event
    pruned from the store) and none waits for ever: from a state at rest
    (well-formed components, no response claimed) each operation runs to its
    end and leaves the processor at rest. *)

From S2P Require Import Prelude Controls EventStore Supersession Randomization Trackers.
From S2P Require Import Response Discovered Timers ProcState Relay Posting Fallback Processor.
From S2P Require Import ProcFrame Evolution Lifecycle CalmRuns.

(** No other handler, no cancellation of the task, no refresh under its feet. *)
Record undisturbed (E : Env) : Prop := {
  ud_calm : calm E;
  ud_task : ∀ n, task_cancelled n = false;
  ud_post : ∀ n path body, post_outcome n path body ≠ PostCancelled;
  ud_held : ∀ n ps, held_program n ps = ps;
}.

Record at_rest (s : Proc) : Prop := {
  ar_store : store_wf (p_store s);
  ar_rand : rand_wf (p_rand s);
  ar_claims : in_flight (p_tracker s) = [];
}.

(** The store has a record, this one or a later one, under the mRID of [l]. *)
Definition stored (l : loc) (s : Proc) : Prop :=
  ∃ r, deref (p_store s) l = Some r ∧ is_Some (store_get (r_mrid r) (p_store s)).

(** At rest, with the records [ls] and the mRIDs [ms] in the store. *)
Record sound (ls : list loc) (ms : list bytes) (s : Proc) : Prop := {
  so_rest : at_rest s;
  so_locs : ∀ l, l ∈ ls → stored l s;
  so_mrids : ∀ m, m ∈ ms → is_Some (store_get m (p_store s));
}.

(** The computation returns, and keeps [sound]. *)
Definition returns {E : Env} {A} (ls : list loc) (ms : list bytes) (m : M A) : Prop :=
  ∀ s, sound ls ms s → ∃ a s', m s = (inr a, s') ∧ sound ls ms s'.

Create HintDb returns.

Section Rules.
Context {E : Env} (ls : list loc) (ms : list bytes).

Lemma returns_ret {A} (a : A) : returns ls ms (ret a : M A).
Proof. intros s Hs. by exists a, s. Qed.

Lemma returns_bind {A B} (m : M A) (k : A → M B) :
  returns ls ms m → (∀ a, returns ls ms (k a)) → returns ls ms (bind m k).
Proof.
  intros Hm Hk s Hs. destruct (Hm s Hs) as (a & s1 & Hr & Hs1).
  destruct (Hk a s1 Hs1) as (b & s2 & Hr2 & Hs2). exists b, s2. unfold bind. by rewrite Hr.
Qed.

Lemma returns_get {A} (g : Proc → A) : returns ls ms (get g).
Proof. intros s Hs. by eexists _, s. Qed.

Lemma returns_when b m : returns ls ms m → returns ls ms (when b m).
Proof. destruct b; [done|intros _; apply returns_ret]. Qed.

Lemma returns_for_each {A} (l : list A) f :
  (∀ x, x ∈ l → returns ls ms (f x)) → returns ls ms (for_each l f).
Proof.
  induction l as [|x l IH]; intros Hf; cbn [for_each]; [apply returns_ret|].
  apply returns_bind; [apply Hf; left|]. intros _. apply IH. intros y Hy. apply Hf. by right.
Qed.

Lemma returns_map_each {A B} (l : list A) (f : A → M B) :
  (∀ x, x ∈ l → returns ls ms (f x)) → returns ls ms (map_each l f).
Proof.
  induction l as [|x l IH]; intros Hf; cbn [map_each]; [apply returns_ret|].
  apply returns_bind; [apply Hf; left|]. intros y.
  apply returns_bind; [|intros ys; apply returns_ret]. apply IH. intros z Hz. apply Hf. by right.
Qed.

Lemma returns_for_until {A} (l : list A) (f : A → M bool) :
  (∀ x, x ∈ l → returns ls ms (f x)) → returns ls ms (for_until l f).
Proof.
  induction l as [|x l IH]; intros Hf; cbn [for_until]; [apply returns_ret|].
  apply returns_bind; [apply Hf; left|]. intros [|]; [apply returns_ret|].
  apply IH. intros z Hz. apply Hf. by right.
Qed.
End Rules.

(** What is known may grow: weaker statements follow from stronger contexts. *)
Section Contexts.
Context {E : Env} (ls : list loc) (ms : list bytes).

(** The values a [get] returns may bring records with them. *)
Lemma returns_bind_get {A B} (g : Proc → A) (k : A → M B) :
  (∀ s, sound ls ms s → ∃ ls', (∀ l, l ∈ ls' → stored l s) ∧ returns (ls' ++ ls) ms (k (g s))) →
  returns ls ms (bind (get g) k).
Proof.
  intros Hk s Hs. destruct (Hk s Hs) as (ls' & Hst & Hr).
  destruct (Hr s) as (b & s' & Hrun & [Hre Hl Hm]).
  { destruct Hs as [Hre Hl Hm]. split; [done| |done].
    intros l [Hin|Hin]%elem_of_app; [by apply Hst|by apply Hl]. }
  exists b, s'. split; [exact Hrun|]. split; [done| |done]. intros l Hin. apply Hl, elem_of_app. by right.
Qed.

(** A record that is stored can be read, and its mRID is stored. *)
Lemma returns_bind_read {A} l (k : EventRecord → M A) :
  l ∈ ls → (∀ r, returns ls (r_mrid r :: ms) (k r)) → returns ls ms (bind (read l) k).
Proof.
  intros Hin Hk s Hs. destruct (so_locs _ _ _ Hs l Hin) as (r & Hr & Hg).
  destruct (Hk r s) as (b & s' & Hrun & [Hre Hl Hm]).
  { destruct Hs as [Hre Hl Hm]. split; [done..|]. intros m [->|Hm']%elem_of_cons; [done|by apply Hm]. }
  exists b, s'. unfold bind, read. rewrite Hr. split; [exact Hrun|]. split; [done..|].
  intros m Hm'. apply Hm. by right.
Qed.

Lemma returns_read l : l ∈ ls → returns ls ms (read l).
Proof.
  intros Hin s Hs. destruct (so_locs _ _ _ Hs l Hin) as (r & Hr & _).
  exists r, s. unfold read. by rewrite Hr.
Qed.

End Contexts.

(** ** Atomic calls *)

Definition keeps_sound (c : Call) : bool :=
  match c with CPrune _ | CClaim _ | CUpsert _ => false | _ => true end.

(** Only three components matter. *)
Lemma sound_ext ls ms s s' :
  p_store s' = p_store s → p_rand s' = p_rand s → in_flight (p_tracker s') = [] →
  sound ls ms s → sound ls ms s'.
Proof.
  intros Hst Hra Hcl [[Hs Hr _] Hl Hm]. split.
  - split; [by rewrite Hst|by rewrite Hra|done].
  - intros l Hin. destruct (Hl l Hin) as (r & ? & ?). exists r. by rewrite Hst.
  - intros m Hin. rewrite Hst. by apply Hm.
Qed.

(** A change of the store that keeps its keys and the identity of its records. *)
Lemma sound_store ls ms s st :
  store_wf st → events st = events (p_store s) →
  (∀ l r, deref (p_store s) l = Some r → ∃ r', deref st l = Some r' ∧ r_mrid r' = r_mrid r) →
  sound ls ms s → sound ls ms (set_store st s).
Proof.
  intros Hwf He Hd [[Hs Hr Hc] Hl Hm]. split; [by split|..].
  - intros l Hin. destruct (Hl l Hin) as (r & Hr' & Hg). destruct (Hd l r Hr') as (r' & Hd' & Hm').
    exists r'. cbn. split; [done|]. unfold store_get in *. by rewrite He, Hm'.
  - intros m Hin. cbn. unfold store_get. rewrite He. by apply Hm.
Qed.

Lemma sound_update ls ms s l f :
  (∀ r, r_mrid (f r) = r_mrid r) → sound ls ms s →
  sound ls ms (set_store (update l f (p_store s)) s).
Proof.
  intros Hf Hs. apply sound_store; [by apply update_wf, Hs|done| |done].
  intros l' r Hr. rewrite deref_update. case_decide; rewrite Hr; cbn; eauto.
Qed.

Section Calls.
Context {E : Env} (Hud : undisturbed E).

Lemma exec_sound ls ms c s : keeps_sound c = true → sound ls ms s → sound ls ms (exec c s).
Proof.
  intros Hk Hs. pose proof (ar_claims _ (so_rest _ _ _ Hs)) as Hcl.
  pose proof (ar_rand _ (so_rest _ _ _ Hs)) as Hra. destruct c; try discriminate; cbn;
    try (apply (sound_ext _ _ s); [done|done|cbn; try rewrite Hcl; done|done]).
  - apply sound_update; [by destruct w|done].
  - unfold transition. destruct (store_get mrid (p_store s)) as [l|]; cbn.
    + by apply sound_update.
    + by apply (sound_ext _ _ s).
  - apply sound_store; [apply alloc_wf, Hs|done| |done].
    intros l r0 Hr. exists r0. split; [by apply deref_alloc_old|done].
  - destruct Hs as [[Hs _ _] Hl Hm]. split; [|done..]. split; cbn; [done| |done].
    by apply get_offsets_wf.
  - destruct Hs as [[Hs _ _] Hl Hm]. split; [|done..]. split; cbn; [done| |done]. by apply override_wf.
  - destruct Hs as [[Hs _ _] Hl Hm]. split; [|done..]. split; cbn; [done| |done].
    by destruct (rand_prune_ok now RAND_GRACE (p_rand s) Hra) as (rc & -> & Hrc & _).
  - rewrite (ud_calm _ Hud). by apply (sound_ext _ _ s).
Qed.

Lemma do_returns ls ms c : keeps_sound c = true → returns ls ms (do c).
Proof. intros Hk s Hs. exists tt, (exec c s). split; [done|]. by apply exec_sound. Qed.

Lemma await_returns ls ms : returns ls ms await.
Proof.
  unfold await. intros s Hs. unfold bind, get, do, modify. rewrite (ud_task _ Hud).
  exists tt, (exec CAwait s). split; [done|]. by apply exec_sound.
Qed.

Lemma store_transition_returns ls ms mrid st : mrid ∈ ms → returns ls ms (store_transition mrid st).
Proof.
  intros Hin s Hs. destruct (so_mrids _ _ _ Hs mrid Hin) as [l Hl].
  unfold store_transition, bind, get. rewrite Hl. by apply do_returns.
Qed.

Lemma unless_closed_returns ls ms m : returns ls ms m → returns ls ms (unless_closed m).
Proof.
  intros Hm. unfold unless_closed. apply returns_bind; [apply returns_get|].
  intros [|]; [apply returns_ret|done].
Qed.
End Calls.

(** Walk through a coroutine, statement by statement. *)
Ltac returns_step :=
  match goal with
  | |- returns _ _ (bind (read _) _) =>
      apply returns_bind_read; [solve [set_solver]|intro]
  | |- returns _ _ (bind _ _) => apply returns_bind; [|intro]
  | |- returns _ _ (ret _) => apply returns_ret
  | |- returns _ _ (get _) => apply returns_get
  | |- returns _ _ (when _ _) => apply returns_when
  | |- returns _ _ (for_each _ _) => apply returns_for_each; intros ? ?
  | |- returns _ _ (map_each _ _) => apply returns_map_each; intros ? ?
  | |- returns _ _ (for_until _ _) => apply returns_for_until; intros ? ?
  | |- returns _ _ (match ?x with _ => _ end) => destruct x
  | |- returns _ _ (do _) => apply do_returns; [assumption|reflexivity]
  | |- returns _ _ await => apply await_returns; assumption
  | |- returns _ _ (unless_closed _) => apply unless_closed_returns
  | |- returns _ _ (read _) => apply returns_read; solve [set_solver]
  | |- returns _ _ (store_transition _ _) => apply store_transition_returns; [assumption|solve [set_solver]]
  | |- returns _ _ _ => solve [eauto with returns]
  end.
Ltac returns_auto := intros; repeat returns_step.

#[export] Hint Extern 3 (_ ∈ _) => set_solver : returns.

(** ** The coroutines *)

Section Coroutines.
Context {E : Env} (Hud : undisturbed E).
Implicit Types (ls : list loc) (ms : list bytes).

(** One POST: the claim it makes is gone when it ends. *)
Lemma post_der_response_returns ls ms derc code lfdi now_ts supported :
  returns ls ms (post_der_response derc code lfdi now_ts supported).
Proof.
  unfold post_der_response. apply returns_bind; [apply returns_get|]. intros prof.
  destruct (resolve_wire_code_total derc code prof) as [code' ->].
  destruct (negb _); [apply returns_ret|]. destruct (reply_to derc) as [[|c path]|]; [apply returns_ret| |apply returns_ret].
  intros s Hs. pose proof (ar_claims _ (so_rest _ _ _ Hs)) as Hcl. set (k := (m_rid derc, code', lfdi)).
  unfold bind at 1.
  assert (reserve patience k s = (inr false, s) ∨ reserve patience k s = (inr true, exec (CClaim k) s)) as [-> | ->].
  { destruct patience; cbn [reserve]; unfold bind, get;
      (destruct (dict_mem k (sent (p_tracker s))); [by left|]); rewrite Hcl; by right. }
  { by exists tt, s. }
  cbn [negb]. set (s1 := exec (CClaim k) s). unfold bind at 1, get at 1.
  unfold bind at 1, get at 1. set (body := build_response _ _ _ _ _ _).
  destruct (post_outcome (p_tick s1) (String c path) body) eqn:Ho; [| |by destruct (ud_post _ Hud _ _ _ Ho)].
  all: unfold notify, when, bind, do, modify; destruct has_observer; cbn; rewrite (ud_calm _ Hud); cbn.
  all: eexists tt, _; (split; [reflexivity|]); apply (sound_ext _ _ s); try done; cbn; rewrite Hcl.
  all: case_decide as Hk; [by destruct (Hk eq_refl)|done].
Qed.
Hint Resolve post_der_response_returns : returns.

Lemma post_to_device_returns ls ms derc code dev : returns ls ms (post_to_device derc code dev).
Proof. unfold post_to_device, post_to_lfdi, now, supported_modes2. returns_auto. Qed.
Hint Resolve post_to_device_returns : returns.

Lemma post_response_returns ls ms derc code program exclude :
  (∀ l, exclude = Some l → l ∈ ls) → returns ls ms (post_response derc code program exclude).
Proof.
  intros Hl. unfold post_response, post_to_lfdi, now, supported_modes2, excluded.
  destruct exclude as [l|]; [specialize (Hl l eq_refl)|]; returns_auto.
Qed.

Lemma post_response_for_devices_returns ls ms derc code devs :
  returns ls ms (post_response_for_devices derc code devs).
Proof. unfold post_response_for_devices. returns_auto. Qed.
Hint Resolve post_response_for_devices_returns : returns.

Lemma exclusion_in ls l r l' : l ∈ ls → exclusion l r = Some l' → l' ∈ ls.
Proof. unfold exclusion. case_decide; [done|]. by intros ? [= <-]. Qed.

Lemma post_started_returns ls ms l code : l ∈ ls → returns ls ms (post_started_device_lifecycle l code).
Proof.
  intros Hl. unfold post_started_device_lifecycle. returns_auto.
  apply post_response_returns. eauto using exclusion_in.
Qed.

Lemma relay_control_event_returns ls ms l tr : l ∈ ls → returns ls ms (relay_control_event l tr).
Proof. intros Hl. unfold relay_control_event, emit_relay. returns_auto. Qed.

Lemma audit_transition_returns ls ms r from to d : returns ls ms (audit_transition r from to d).
Proof. unfold audit_transition, now_for, now. returns_auto. Qed.
Hint Resolve post_started_returns relay_control_event_returns audit_transition_returns : returns.

Lemma gather_returns ls ms acts : returns ls ms (gather acts).
Proof. unfold gather. returns_auto. Qed.
Hint Resolve gather_returns : returns.

Lemma attribute_defaults_returns ls ms plans results : returns ls ms (attribute_defaults plans results).
Proof.
  revert results. induction plans as [|[t locals] rest IH]; intros results;
    cbn [attribute_defaults]; returns_auto; apply IH.
Qed.

Lemma attribute_initial_returns ls ms program ps mrid n targets results :
  returns ls ms (attribute_initial program ps mrid n targets results).
Proof.
  revert results. induction targets as [|[d lfdi] rest IH]; intros results;
    cbn [attribute_initial]; returns_auto; apply IH.
Qed.
Hint Resolve attribute_defaults_returns attribute_initial_returns : returns.

Lemma apply_dderc_fallback_returns ls ms l b : l ∈ ls → returns ls ms (apply_dderc_fallback l b).
Proof.
  intros Hl. unfold apply_dderc_fallback, release_device, dispatch_defaults. returns_auto.
Qed.

Lemma apply_initial_dderc_returns ls ms program : returns ls ms (apply_initial_dderc program).
Proof. unfold apply_initial_dderc, dispatch_initial. returns_auto. Qed.
Hint Resolve apply_dderc_fallback_returns apply_initial_dderc_returns : returns.

Lemma respond_returns ls ms l dev failure : l ∈ ls → returns ls ms (respond l dev failure).
Proof. intros Hl. unfold respond. returns_auto. Qed.
Hint Resolve respond_returns : returns.

Lemma apply_and_respond_returns ls ms l : l ∈ ls → returns ls ms (apply_and_respond l).
Proof.
  intros Hl. unfold apply_and_respond, apply_control_to_devices, dispatch_by_lfdi_group, dispatch_each.
  returns_auto. apply post_response_returns. eauto using exclusion_in.
Qed.
Hint Resolve apply_and_respond_returns : returns.

Lemma supersede_fully_returns ls ms l by_mrid : l ∈ ls → returns ls ms (supersede_fully l by_mrid).
Proof. intros Hl. unfold supersede_fully. returns_auto. Qed.
Hint Resolve supersede_fully_returns : returns.

Lemma store_get_stored m l s : at_rest s → store_get m (p_store s) = Some l → stored l s.
Proof.
  intros Hs Hg. destruct (store_get_deref _ _ _ (ar_store _ Hs) Hg) as (r & Hr & Hm).
  exists r. rewrite Hm. eauto.
Qed.

Lemma returns_bind_store_get {B} ls ms m (k : option loc → M B) :
  returns ls ms (k None) → (∀ l, returns (l :: ls) ms (k (Some l))) →
  returns ls ms (bind (get (λ s, store_get m (p_store s))) k).
Proof.
  intros Hn Hk. apply returns_bind_get. intros s Hs.
  destruct (store_get m (p_store s)) as [l|] eqn:Hg.
  - exists [l]. split; [|apply Hk]. intros l' ->%list_elem_of_singleton.
    by eapply store_get_stored; [apply Hs|].
  - exists []. split; [set_solver|exact Hn].
Qed.

Lemma supersede_one_returns ls ms dm res : returns ls ms (supersede_one dm res).
Proof.
  unfold supersede_one. apply returns_bind_store_get; [apply returns_ret|]. intros l.
  returns_step. destruct (is_terminal _); [apply returns_ret|].
  apply returns_bind_store_get; [apply returns_ret|]. intros w. unfold supersede_on. returns_auto.
Qed.

Lemma run_supersession_returns ls ms : returns ls ms run_supersession.
Proof. unfold run_supersession. returns_auto. apply supersede_one_returns. Qed.
Hint Resolve run_supersession_returns : returns.

Lemma handle_cancellation_returns ls ms l : l ∈ ls → returns ls ms (handle_cancellation l).
Proof. intros Hl. unfold handle_cancellation. returns_auto. Qed.
Hint Resolve handle_cancellation_returns : returns.

Lemma opt_out_event_returns ls ms l from : l ∈ ls → returns ls ms (opt_out_event l from).
Proof. intros Hl. unfold opt_out_event, raise_boundary. returns_auto. Qed.
Hint Resolve opt_out_event_returns : returns.

Lemma on_activation_returns ls ms l : l ∈ ls → returns ls ms (on_activation l).
Proof. intros Hl. unfold on_activation, wait_state_ready, audit_activation. returns_auto. Qed.

Lemma on_completion_returns ls ms l : l ∈ ls → returns ls ms (on_completion l).
Proof. intros Hl. unfold on_completion, wait_state_ready. returns_auto. Qed.
Hint Resolve on_activation_returns on_completion_returns : returns.

Lemma timer_callback_returns t ls ms : tm_record t ∈ ls → returns ls ms (timer_callback t).
Proof. intros Hl. unfold timer_callback. returns_auto. Qed.

(** The records a list made from the store names are stored. *)
Lemma all_active_stored s l : at_rest s → l ∈ all_active_states (p_store s) → stored l s.
Proof.
  intros Hs Hl. destruct (all_active_current s l (ar_store _ Hs) Hl) as (r & ? & ? & _). by exists r.
Qed.

Lemma returns_bind_active {B} ls ms (k : list loc → M B) :
  (∀ ls', returns (ls' ++ ls) ms (k ls')) →
  returns ls ms (bind (get (λ s, all_active_states (p_store s))) k).
Proof.
  intros Hk. apply returns_bind_get. intros s Hs. eexists. split; [|apply Hk].
  intros l. apply all_active_stored, Hs.
Qed.

Lemma cancel_program_returns ls ms program : returns ls ms (cancel_program program).
Proof. unfold cancel_program. apply returns_bind_active. returns_auto. Qed.

Lemma reconcile_removed_returns ls ms program now ps : returns ls ms (reconcile_removed program now ps).
Proof.
  unfold reconcile_removed. returns_step; [apply returns_get|].
  destruct (negb _); [apply returns_ret|]. apply returns_bind_active. returns_auto.
Qed.

Lemma running_stored s l : at_rest s → l ∈ running_events s → stored l s.
Proof.
  intros Hs [_ [Ht Hin]%list_elem_of_filter]%list_elem_of_filter.
  unfold dict_values in Hin. apply list_elem_of_fmap in Hin as ([m l'] & -> & Hin). cbn.
  eapply store_get_stored; [done|]. apply dict_elem_get; [apply wf_keys, Hs|exact Hin].
Qed.

Lemma enter_comms_loss_returns ls ms : returns ls ms enter_comms_loss.
Proof.
  unfold enter_comms_loss, raise_boundary. apply returns_bind_get. intros s Hs.
  exists (running_events s). split; [intros l; apply running_stored, Hs|]. returns_auto.
Qed.

Lemma shutdown_returns ls ms : returns ls ms shutdown.
Proof. unfold shutdown. returns_auto. Qed.
Hint Resolve timer_callback_returns cancel_program_returns reconcile_removed_returns
  enter_comms_loss_returns shutdown_returns : returns.

(** A record created and stored, in a context that names no record: storing it
    replaces any other record of its mRID. *)
Lemma returns_create {B} r (k : loc → M B) :
  (∀ l, returns [l] [] (k l)) → returns [] [] (l <- create_record r ;; do (CUpsert l) ;;; k l).
Proof.
  intros Hk s Hs. set (l := length (objs (p_store s))).
  set (s1 := exec (CUpsert l) (exec (CCreate r) s)).
  assert (deref (p_store (exec (CCreate r) s)) l = Some r) as Hd by apply deref_alloc.
  assert (p_store s1 = mkStore (objs (p_store s) ++ [r]) (dict_set (r_mrid r) l (events (p_store s)))) as Hst.
  { unfold s1. cbn [exec p_store set_store] in *. unfold upsert. by rewrite Hd. }
  destruct (Hk l s1) as (b & s2 & Hrun & Hs2).
  - split.
    + destruct Hs as [[Hw Hr Hc] _ _]. split; [|exact Hr|exact Hc].
      apply upsert_wf. by apply alloc_wf.
    + intros l' ->%list_elem_of_singleton. exists r. rewrite Hst. split.
      * unfold deref. cbn. by apply list_lookup_middle.
      * unfold store_get. cbn. eexists. apply dict_get_set_eq.
    + set_solver.
  - exists b, s2. split; [exact Hrun|]. destruct Hs2 as [Hre _ _]. split; [exact Hre|set_solver..].
Qed.

Lemma admit_event_returns program primacy derc now start duration :
  returns [] [] (admit_event program primacy derc now start duration).
Proof.
  unfold admit_event, handle_new_scheduled, handle_late_discovery, audit_activation.
  destruct (is_server_cancelled derc); apply returns_create; intros l; returns_auto;
    try (apply post_response_returns; discriminate).
Qed.
Hint Resolve admit_event_returns : returns.

Lemma new_event_returns program primacy derc now start duration :
  returns [] [] (new_event program primacy derc now start duration).
Proof.
  unfold new_event, audit_unstored. returns_auto. apply post_response_returns. discriminate.
Qed.

Lemma process_control_returns program primacy now derc :
  returns [] [] (process_control program primacy now derc).
Proof.
  unfold process_control, effective_offsets. returns_step; [returns_auto|].
  apply returns_bind_store_get; [apply new_event_returns|]. intros l.
  unfold refresh_existing. returns_auto.
Qed.

(** The list is the same at each round, so it ends before the fuel does. *)
Lemma each_control_returns ls ms fuel i ps f :
  (∀ d, returns ls ms (f d)) → (length (ps_controls ps) <= fuel + i)%nat →
  returns ls ms (each_control fuel i ps f).
Proof.
  intros Hf. revert i. induction fuel as [|fuel IH]; intros i Hlen s Hs; cbn [each_control];
    unfold bind at 1, get at 1; rewrite (ud_held _ Hud);
    destruct (ps_controls ps !! i) as [d|] eqn:Hi;
    try (by exists false, s).
  - apply lookup_lt_Some in Hi. lia.
  - revert s Hs. change (returns ls ms (stop <- f d ;; if (stop : bool) then ret true
                                          else each_control fuel (S i) ps f)).
    apply returns_bind; [apply Hf|]. intros [|]; [apply returns_ret|]. apply IH. lia.
Qed.

Lemma do_prune_returns now : returns [] [] (do (CPrune now)).
Proof.
  intros s Hs. eexists tt, _. split; [reflexivity|]. destruct Hs as [[Hw Hr Hc] _ _].
  split; [|set_solver..]. split; [by apply prune_wf|exact Hr|exact Hc].
Qed.

Lemma do_rand_prune_returns {B} ls ms now (k : M B) :
  returns ls ms k →
  returns ls ms (prunable <- get (λ s, bool_decide (is_Some (rand_prune now RAND_GRACE (p_rand s)))) ;;
    (if (prunable : bool) then do (CRandPrune now) else raise KeyError) ;;; k).
Proof.
  intros Hk s Hs. unfold bind at 1, get at 1. rewrite bool_decide_true.
  - revert s Hs. change (returns ls ms (do (CRandPrune now) ;;; k)). returns_auto.
  - destruct (rand_prune_ok now RAND_GRACE (p_rand s)) as (rc & -> & _); [apply Hs|]. by eexists.
Qed.

Lemma prune_pass_returns program now : returns [] [] (prune_pass program now).
Proof.
  unfold prune_pass, forget_unstored_no_longer_served.
  returns_step; [apply returns_get|]. returns_step; [apply do_prune_returns|].
  returns_step; [returns_auto|]. apply do_rand_prune_returns. returns_auto.
Qed.
Hint Resolve prune_pass_returns : returns.

Lemma process_controls_returns program : returns [] [] (process_controls program).
Proof.
  unfold process_controls, relay_default_baseline, emit_relay, now_for, now. returns_auto.
  all: apply each_control_returns; [intros ?; apply process_control_returns|lia].
Qed.
End Coroutines.

(** ** Every operation returns *)

(** The coroutine of an operation, before a timer swallows its exceptions. *)
Definition op_body {E : Env} (op : Op) : M unit :=
  match op with OpFire t => timer_callback t | _ => run_op op end.

(** A timer and a late dispatch hold the object of their record.  A wind-down
    timer belongs to a cancelled event still stored. *)
Definition op_ready (op : Op) (s : Proc) : Prop :=
  match op with
  | OpFire t => is_Some (deref (p_store s) (tm_record t)) ∧
                (tm_kind t = WindDown → stored (tm_record t) s)
  | OpLateDispatch _ _ _ l => is_Some (deref (p_store s) l)
  | _ => True
  end.

(** The timer of an event that the store no longer has, in a state in which its
    callback goes on to [EventStore.transition]. *)
Definition transition_missing (op : Op) (s : Proc) : bool :=
  match op with
  | OpFire t =>
      match deref (p_store s) (tm_record t) with
      | Some r =>
          bool_decide (store_get (r_mrid r) (p_store s) = None) &&
          match tm_kind t with
          | Activation => bool_decide (r_state r = SCHEDULED)
          | Completion => bool_decide (r_state r = ACTIVE)
          | WindDown => false
          end
      | None => false
      end
  | _ => false
  end.

Section Pruned.
Context {E : Env} (Hud : undisturbed E).

Lemma wait_state_ready_returns ls ms : returns ls ms wait_state_ready.
Proof using Hud. unfold wait_state_ready. returns_auto. Qed.

Lemma late_dispatch_returns label cancelled error l s :
  at_rest s → is_Some (deref (p_store s) l) →
  (log_late_dispatch label cancelled error l s).1 = inr tt ∧
  at_rest (log_late_dispatch label cancelled error l s).2.
Proof using.
  intros Hs [r Hr]. unfold log_late_dispatch. destruct cancelled; [done|].
  destruct audit_enabled; [|done]. cbn [negb]. rewrite (bind_read _ r) by done.
  split; [done|]. destruct Hs as [Hw Hra Hc]. by split.
Qed.

Lemma wait_state_ready_run (s : Proc) :
  at_rest s → ∃ s', wait_state_ready s = (inr tt, s') ∧ p_store s' = p_store s ∧ at_rest s'.
Proof using Hud.
  intros Hs. destruct (wait_state_ready_returns [] [] s) as ([] & s' & Hrun & [Hr _ _]);
    [split; [done|set_solver..]|].
  exists s'. split; [done|]. split; [|done].
  assert (same_store s (wait_state_ready s).2) as [Hst _]; [|by rewrite Hrun in Hst].
  apply (same_store_kinds (ud_calm _ Hud)). unfold wait_state_ready. guar_auto.
Qed.

(** The callback of a timer whose event is gone from the store. *)
Lemma timer_of_pruned_event (t : Timer) (r : EventRecord) (s : Proc) :
  at_rest s → deref (p_store s) (tm_record t) = Some r →
  store_get (r_mrid r) (p_store s) = None → tm_kind t ≠ WindDown →
  (timer_callback t s).1 = (if transition_missing (OpFire t) s then inl KeyError else inr tt) ∧
  at_rest (timer_callback t s).2.
Proof using Hud.
  intros Hs Hr Hg Hk. unfold timer_callback, transition_missing.
  rewrite (bind_read _ r), Hr, bool_decide_true by done. cbn [andb]. unfold fires.
  destruct (wait_state_ready_run s Hs) as (s1 & Hw & Hst & Hs1).
  assert (∀ (want st : EventState) (k : M unit),
    ((wait_state_ready ;;; r <- read (tm_record t) ;;
      if negb (bool_decide (r_state r = want)) then ret tt
      else store_transition (r_mrid r) st ;;; k) s).1 =
      (if bool_decide (r_state r = want) then inl KeyError else inr tt) ∧
    at_rest ((wait_state_ready ;;; r <- read (tm_record t) ;;
      if negb (bool_decide (r_state r = want)) then ret tt
      else store_transition (r_mrid r) st ;;; k) s).2) as Hrun.
  { intros want st k. unfold bind at 1 4. rewrite Hw. rewrite (bind_read _ r) by by rewrite Hst.
    case_bool_decide; cbn [negb]; [|done]. unfold store_transition, bind, get, raise.
    by rewrite Hst, Hg. }
  destruct (tm_kind t); [| |done]; unfold on_activation, on_completion; destruct (r_state r) eqn:Est;
    cbn [negb]; try (by case_bool_decide); apply Hrun.
Qed.
End Pruned.

(** C7: from a state at rest, and when nothing interferes, every operation
    runs to its end, but for one exception: the timer of an event that was
    pruned from the store, in the state its callback waits for, raises the
    [KeyError] of [EventStore.transition], which the timer task keeps.  No
    other exception is raised (no response code without a translation), no
    caller is left waiting for a response another one claimed, and the loop
    over the served controls ends; and however the operation ends it leaves
    the processor at rest again, with every response it claimed posted or
    released. *)
Theorem operations_return {E : Env} (op : Op) (s : Proc) :
  undisturbed E → at_rest s → op_ready op s →
  (op_body op s).1 = (if transition_missing op s then inl KeyError else inr tt) ∧
  at_rest (run_op op s).2.
Proof.
  intros Hud Hs Hready.
  assert (∀ ls (m : M unit), returns ls [] m → (∀ l, l ∈ ls → stored l s) →
            (m s).1 = inr tt ∧ at_rest (m s).2) as Hret.
  { intros ls m Hm Hls. destruct (Hm s) as ([] & s' & -> & Hs'); [split; [done..|set_solver]|].
    split; [done|apply Hs']. }
  destruct op; cbn [op_body run_op op_ready transition_missing] in *.
  - apply (Hret []); [by apply process_controls_returns|set_solver].
  - unfold fire_timer, swallow. cbn [snd]. destruct Hready as [[r Hr] Hwd].
    destruct (store_get (r_mrid r) (p_store s)) as [l'|] eqn:Hg.
    + rewrite Hr, Hg. cbn [bool_decide andb].
      apply (Hret [tm_record t]); [apply timer_callback_returns; [done|set_solver]|].
      intros l ->%list_elem_of_singleton. exists r. eauto.
    + apply timer_of_pruned_event with (r := r); [done..|].
      intros Hk. destruct (Hwd Hk) as (r' & Hr' & [l' Hl']). congruence.
  - apply (Hret []); [by apply cancel_program_returns|set_solver].
  - apply (Hret []); [by apply enter_comms_loss_returns|set_solver].
  - by apply late_dispatch_returns.
  - apply (Hret []); [by apply shutdown_returns|set_solver].
Qed.

Lemma sample_at_rest : at_rest sample_state.
Proof.
  split; [apply sample_state_wf| |reflexivity]. split; [constructor|constructor|done].
Qed.

Lemma operations_return_witness :
  undisturbed sample_env ∧ at_rest sample_state ∧
  (@op_body sample_env (OpPoll "/p") sample_state).1 = inr tt ∧
  at_rest (@run_op sample_env (OpPoll "/p") sample_state).2.
Proof.
  assert (undisturbed sample_env) as Hud by (split; done).
  split; [exact Hud|]. split; [apply sample_at_rest|].
  exact (@operations_return sample_env (OpPoll "/p") sample_state Hud sample_at_rest I).
Defined.
