(* ===== verification/Timebase.v ===== *)
(** * The server timebase (client/timebase.py)

    The offset between the server's Time resource and the local clock, per
    FunctionSetAssignments and globally, and the choice between the two.

    Instants and offsets are in milliseconds ([Z]); a [Clock] is what
    [time.time()] and [time.monotonic()] answer at one moment.  The wall clock
    may be stepped, the monotonic clock only advances. *)

From S2P Require Import Prelude.

Record Clock := { wall : Z; mono : Z }.

Definition FSA_STALE_FLOOR : Z := 3600 * 1000.
Definition FSA_STALE_POLL_MULTIPLE : Z := 3.

Record TimeObservation := {
  ob_offset : Z;
  ob_receipt : Z;                    (* receipt_epoch *)
  ob_quality : Z;
  ob_href : string;
  ob_mono : option Z;                (* receipt_monotonic *)
}.

Record Timebase := mkTimebase {
  tb_enabled : bool;
  tb_drift_warn : Z;                 (* drift_warn_seconds *)
  tb_stale_override : option Z;
  tb_stale_derived : Z;
  tb_global : option TimeObservation;
  tb_per_fsa : dict string TimeObservation;
  tb_reported : gset string;         (* _reported_stale *)
}.

Definition new_timebase (enabled : bool) (drift_warn : Z) (stale : option Z) : Timebase :=
  mkTimebase enabled drift_warn stale FSA_STALE_FLOOR None [] ∅.

Definition age_of (now : Clock) (obs : TimeObservation) : Z :=
  match ob_mono obs with
  | Some m => Z.max 0 (mono now - m)
  | None => Z.max 0 (wall now - ob_receipt obs)
  end.

Definition is_newer (candidate other : TimeObservation) : bool :=
  match ob_mono candidate, ob_mono other with
  | Some m, Some m' => m' <? m
  | _, _ => ob_receipt other <? ob_receipt candidate
  end.

Definition fsa_stale (tb : Timebase) : Z := default (tb_stale_derived tb) (tb_stale_override tb).

(** [if poll_rate_seconds and poll_rate_seconds > 0] *)
Definition note_time_poll_rate (rate : option Z) (tb : Timebase) : Timebase :=
  match rate with
  | Some r =>
      if 0 <? r then
        mkTimebase (tb_enabled tb) (tb_drift_warn tb) (tb_stale_override tb)
          (Z.max FSA_STALE_FLOOR (FSA_STALE_POLL_MULTIPLE * r * 1000))
          (tb_global tb) (tb_per_fsa tb) (tb_reported tb)
      else tb
  | None => tb
  end.

Definition forget_fsa (fsa : string) (tb : Timebase) : Timebase :=
  mkTimebase (tb_enabled tb) (tb_drift_warn tb) (tb_stale_override tb) (tb_stale_derived tb)
    (tb_global tb) (dict_del fsa (tb_per_fsa tb)) (tb_reported tb ∖ {[fsa]}).

Definition observation (now : Clock) (server_time quality : Z) (href : string) : TimeObservation :=
  {| ob_offset := server_time * 1000 - wall now; ob_receipt := wall now; ob_quality := quality;
     ob_href := href; ob_mono := Some (mono now) |}.

(** The offset, whether the drift is reported, and the timebase. *)
Definition observe (now : Clock) (server_time : Z) (fsa : option string) (quality : Z)
    (href : string) (tb : Timebase) : Z * bool * Timebase :=
  let obs := observation now server_time quality href in
  let tb' :=
    match fsa with
    | None => mkTimebase (tb_enabled tb) (tb_drift_warn tb) (tb_stale_override tb)
                (tb_stale_derived tb) (Some obs) (tb_per_fsa tb) (tb_reported tb)
    | Some f => mkTimebase (tb_enabled tb) (tb_drift_warn tb) (tb_stale_override tb)
                  (tb_stale_derived tb) (tb_global tb) (dict_set f obs (tb_per_fsa tb))
                  (tb_reported tb ∖ {[f]})
    end in
  (ob_offset obs,
   (0 <? tb_drift_warn tb) && (tb_drift_warn tb * 1000 <=? Z.abs (ob_offset obs)),
   tb').

(** A fetched Time resource: its [current_time.value] and quality, when integers. *)
Definition observe_time_resource (now : Clock) (value quality : option Z) (fsa : option string)
    (href : string) (tb : Timebase) : Timebase :=
  match value with
  | Some v => (observe now v fsa (default 0 quality) href tb).2
  | None => tb
  end.

Definition yields_to_global (now : Clock) (scoped : TimeObservation) (tb : Timebase) : bool :=
  match tb_global tb with
  | None => false
  | Some g => (fsa_stale tb <? age_of now scoped) && is_newer g scoped
  end.

(** The observation a scope reads, the scope newly reported stale, and the
    timebase, which remembers the report. *)
Definition resolve (now : Clock) (fsa : option string) (tb : Timebase)
    : option TimeObservation * option string * Timebase :=
  match fsa with
  | None => (tb_global tb, None, tb)
  | Some f =>
      match dict_get f (tb_per_fsa tb) with
      | None => (tb_global tb, None, tb)
      | Some scoped =>
          if negb (yields_to_global now scoped tb) then (Some scoped, None, tb)
          else if decide (f ∈ tb_reported tb) then (tb_global tb, None, tb)
          else (tb_global tb, Some f,
                mkTimebase (tb_enabled tb) (tb_drift_warn tb) (tb_stale_override tb)
                  (tb_stale_derived tb) (tb_global tb) (tb_per_fsa tb) ({[f]} ∪ tb_reported tb))
      end
  end.

Definition offset (now : Clock) (fsa : option string) (tb : Timebase) : Z * Timebase :=
  if tb_enabled tb then
    let '(obs, _, tb') := resolve now fsa tb in
    (match obs with Some o => ob_offset o | None => 0 end, tb')
  else (0, tb).

Definition tb_now (now : Clock) (fsa : option string) (tb : Timebase) : Z * Timebase :=
  let '(off, tb') := offset now fsa tb in (wall now + off, tb').

Definition server_now (now : Clock) (fsa : option string) (tb : Timebase) : option Z * Timebase :=
  let '(obs, _, tb') := resolve now fsa tb in
  ((λ o, wall now + ob_offset o) <$> obs, tb').

(** The stale flags [snapshot] reports per FSA. *)
Definition snapshot_stale (now : Clock) (tb : Timebase) : dict string bool :=
  (λ fo, (fo.1, yields_to_global now fo.2 tb)) <$> tb_per_fsa tb.

(** ** Histories

    What happened to a timebase, and which observation of a scope is the latest
    by the record of it. *)

Inductive TbOp :=
  | TObserve (server_time : Z) (fsa : option string) (quality : Z) (href : string)
  | TForget (fsa : string)
  | TPollRate (rate : option Z)
  | TRead (fsa : option string).

Definition tb_step (tb : Timebase) (co : Clock * TbOp) : Timebase :=
  match co.2 with
  | TObserve t fsa q href => (observe co.1 t fsa q href tb).2
  | TForget f => forget_fsa f tb
  | TPollRate r => note_time_poll_rate r tb
  | TRead fsa => (resolve co.1 fsa tb).2
  end.

Definition tb_run (h : list (Clock * TbOp)) (tb : Timebase) : Timebase := foldl tb_step tb h.

(** The latest observation of a scope in a history, newest event first: for an
    FSA, one since it was last forgotten. *)
Fixpoint latest (scope : option string) (h : list (Clock * TbOp)) : option TimeObservation :=
  match h with
  | [] => None
  | (now, op) :: h' =>
      match op with
      | TObserve t fsa q href =>
          if decide (fsa = scope) then Some (observation now t q href) else latest scope h'
      | TForget f => if decide (Some f = scope) then None else latest scope h'
      | _ => latest scope h'
      end
  end.

(** The staleness threshold a history leaves. *)
Fixpoint threshold (h : list (Clock * TbOp)) : Z :=
  match h with
  | [] => FSA_STALE_FLOOR
  | (_, TPollRate (Some r)) :: h' =>
      if 0 <? r then Z.max FSA_STALE_FLOOR (FSA_STALE_POLL_MULTIPLE * r * 1000) else threshold h'
  | _ :: h' => threshold h'
  end.

(** Which of the two observations a scope reads: its own, unless it is older
    than the threshold and the global one is newer. *)
Definition preferred (now : Clock) (limit : Z) (own global : option TimeObservation)
    : option TimeObservation :=
  match own, global with
  | Some o, Some g => if (limit <? age_of now o) && is_newer g o then Some g else Some o
  | Some o, None => Some o
  | None, g => g
  end.

(** ** Properties *)

Lemma resolve_keeps now fsa tb :
  tb_global (resolve now fsa tb).2 = tb_global tb ∧ tb_per_fsa (resolve now fsa tb).2 = tb_per_fsa tb ∧
  tb_stale_derived (resolve now fsa tb).2 = tb_stale_derived tb ∧
  tb_stale_override (resolve now fsa tb).2 = tb_stale_override tb ∧
  tb_enabled (resolve now fsa tb).2 = tb_enabled tb.
Proof. unfold resolve. repeat case_match; cbn; auto. Qed.

(** A timebase is what its history says. *)
Record tracks (h : list (Clock * TbOp)) (en : bool) (ov : option Z) (tb : Timebase) : Prop := {
  tr_global : tb_global tb = latest None h;
  tr_fsa : ∀ f, dict_get f (tb_per_fsa tb) = latest (Some f) h;
  tr_threshold : tb_stale_derived tb = threshold h;
  tr_override : tb_stale_override tb = ov;
  tr_enabled : tb_enabled tb = en;
}.

Lemma tracks_step h en ov tb co : tracks h en ov tb → tracks (co :: h) en ov (tb_step tb co).
Proof.
  intros [Hg Hf Ht Ho He]. destruct co as [now [t [f|] q href|f|r|fsa]]; cbn [tb_step fst snd].
  - split; cbn; [by rewrite decide_False| |done..]. intros f'. rewrite dict_get_set, Hf.
    destruct (decide (f' = f)) as [->|Hne]; [by rewrite decide_True|]. rewrite decide_False by congruence. done.
  - split; cbn; [done| |done..]. intros f'. by rewrite Hf, decide_False.
  - split; cbn; [by rewrite decide_False| |done..]. intros f'. rewrite dict_get_del, Hf.
    destruct (decide (f' = f)) as [->|Hne]; [by rewrite decide_True|]. rewrite decide_False by congruence. done.
  - unfold note_time_poll_rate. destruct r as [r|]; [|by split]. cbn [threshold].
    split; destruct (0 <? r) eqn:Er; cbn; rewrite ?Er; done.
  - destruct (resolve_keeps now fsa tb) as (H1 & H2 & H3 & H4 & H5).
    split; cbn [latest threshold]; [by rewrite H1|intros; by rewrite H2|by rewrite H3|by rewrite H4|by rewrite H5].
Qed.

Lemma tracks_run h en dw ov : tracks h en ov (tb_run (rev h) (new_timebase en dw ov)).
Proof.
  induction h as [|co h IH]; [by split|]. cbn [rev]. unfold tb_run in *. rewrite foldl_app.
  by apply tracks_step.
Qed.

Lemma resolve_preferred h en ov tb now fsa :
  tracks h en ov tb →
  (resolve now fsa tb).1.1 =
  preferred now (default (threshold h) ov) (f ← fsa; latest (Some f) h) (latest None h).
Proof.
  intros [Hg Hf Ht Ho _]. unfold resolve, yields_to_global, fsa_stale, preferred.
  destruct fsa as [f|]; [|by rewrite Hg]. cbn [mbind option_bind].
  rewrite Hg, Hf, Ht, Ho. destruct (latest (Some f) h) as [o|]; [|done].
  destruct (latest None h) as [g|]; [|done].
  destruct (_ && _); cbn [negb]; [|done]. by case_decide.
Qed.

(** Observations made by [observe] carry a monotonic stamp. *)
Lemma latest_stamped scope h o : latest scope h = Some o → ∃ m, ob_mono o = Some m.
Proof.
  induction h as [|[now [t fsa q href|f|r|fsa]] h IH]; cbn [latest]; [done|..|done|done].
  - case_decide; [intros [= <-]; by exists (mono now)|done].
  - by case_decide.
Qed.

Lemma age_stamped now now' o m :
  ob_mono o = Some m → mono now = mono now' → age_of now o = age_of now' o.
Proof. intros Hm Hn. unfold age_of. by rewrite Hm, Hn. Qed.

(** C13: the clock the event engine runs on is the one the history of Time
    observations prescribes.  After any sequence of observations, forgotten
    FSAs, advertised poll rates and reads: the time of a scope is the local
    clock corrected by the latest observation of that FSA, or by the latest
    global one when there is none or when the FSA's own is older than three
    polls (an hour at least, or the configured limit) and the global one is
    newer; the local clock without any, and when the timebase is off.
    [server_now] answers from the same observation, or not at all.  Stepping the
    wall clock never changes which observation is used, and an observation past
    the limit is used only when no newer one exists for the scope. *)
Theorem timebase_follows_history (h : list (Clock * TbOp)) (en : bool) (dw : Z) (ov : option Z)
    (now : Clock) (fsa : option string) :
  let tb := tb_run (rev h) (new_timebase en dw ov) in
  let own := f ← fsa; latest (Some f) h in
  let limit := default (threshold h) ov in
  let used := preferred now limit own (latest None h) in
  (tb_now now fsa tb).1 =
    wall now + (if en then match used with Some o => ob_offset o | None => 0 end else 0) ∧
  (server_now now fsa tb).1 = (λ o, wall now + ob_offset o) <$> used ∧
  (∀ w, preferred {| wall := w; mono := mono now |} limit own (latest None h) = used) ∧
  (∀ o o', used = Some o → limit < age_of now o →
     own = Some o' ∨ latest None h = Some o' → is_newer o' o = false).
Proof.
  cbn zeta. pose proof (tracks_run h en dw ov) as Htr. set (tb := tb_run _ _) in *.
  pose proof (resolve_preferred h en ov tb now fsa Htr) as Hres. split_and!.
  - unfold tb_now, offset. rewrite (tr_enabled _ _ _ _ Htr). destruct en; cbn [fst]; [|done].
    destruct (resolve now fsa tb) as [[o r] tb']. cbn in Hres. by rewrite Hres.
  - unfold server_now. destruct (resolve now fsa tb) as [[o r] tb']. cbn in Hres |- *. by rewrite Hres.
  - intros w. unfold preferred. destruct fsa as [f|]; cbn [mbind option_bind]; [|done].
    destruct (latest (Some f) h) as [o|] eqn:Eo; [|done]. destruct (latest None h) as [g|]; [|done].
    destruct (latest_stamped _ _ _ Eo) as [m Hm]. by rewrite (age_stamped _ now o m Hm).
  - intros o o' Hu Hold Hin.
    assert (∀ x scope, latest scope h = Some x → is_newer x x = false) as Hirr.
    { intros x scope Hx. destruct (latest_stamped _ _ _ Hx) as [m Hm]. unfold is_newer. rewrite Hm. lia. }
    unfold preferred in Hu. destruct fsa as [f|]; cbn [mbind option_bind] in *.
    2:{ destruct Hin as [[=]|Hin]. rewrite Hu in Hin. injection Hin as <-. by eapply Hirr. }
    destruct (latest (Some f) h) as [own|] eqn:Eo.
    2:{ destruct Hin as [[=]|Hin]. rewrite Hu in Hin. injection Hin as <-. by eapply Hirr. }
    destruct (latest None h) as [g|] eqn:Eg.
    + destruct (latest_stamped _ _ _ Eo) as [m Hm], (latest_stamped _ _ _ Eg) as [mg Hmg].
      destruct ((_ <? age_of now own) && is_newer g own) eqn:Ey; injection Hu as <-.
      * apply andb_true_iff in Ey as [_ Ey].
        destruct Hin as [[= <-]|[= <-]]; [|by eapply Hirr].
        unfold is_newer in *. rewrite Hm, Hmg in *. lia.
      * apply Z.ltb_lt in Hold. rewrite Hold in Ey.
        destruct Hin as [[= <-]|[= <-]]; [by eapply Hirr|exact Ey].
    + injection Hu as <-. destruct Hin as [[= <-]|[=]]. by eapply Hirr.
Qed.

(** ** A run *)

Definition at_ms (w m : Z) : Clock := {| wall := w; mono := m |}.

(** The FSA's clock is two minutes ahead when last observed; its Time resource
    then stays silent for two hours while the global one, ten seconds ahead, is
    renewed.  Newest first. *)
Definition silent_fsa : list (Clock * TbOp) :=
  [(at_ms 8200000 7200000, TObserve 8210 None 3 "/tm");
   (at_ms 1000000 0, TObserve 1120 (Some "/fsa/1") 3 "/fsa/1/tm")].

Lemma timebase_follows_history_witness :
  let tb := tb_run (rev silent_fsa) (new_timebase true 30 None) in
  (tb_now (at_ms 1060000 60000) (Some "/fsa/1")
     (tb_run (rev (drop 1 silent_fsa)) (new_timebase true 30 None))).1 = 1180000 ∧
  (tb_now (at_ms 8203000 7203000) (Some "/fsa/1") tb).1 = 8213000 ∧
  (∀ w, preferred (at_ms w 7203000) FSA_STALE_FLOOR (latest (Some "/fsa/1") silent_fsa)
          (latest None silent_fsa) = latest None silent_fsa) ∧
  is_newer (observation (at_ms 1000000 0) 1120 3 "/fsa/1/tm")
           (observation (at_ms 8200000 7200000) 8210 3 "/tm") = false.
Proof.
  cbn zeta.
  pose proof (timebase_follows_history silent_fsa true 30 None (at_ms 8203000 7203000) (Some "/fsa/1"))
    as (Hnow & _ & Hw & _).
  split; [vm_compute; reflexivity|]. split; [rewrite Hnow; vm_compute; reflexivity|].
  split; [intros w; etrans; [exact (Hw w)|vm_compute; reflexivity]|].
  vm_compute. reflexivity.
Defined.
