(* ===== verification/Polling.v ===== *)
(** * Poll scheduling (client/polling.py, client/poll_rate.py)

    [PollScheduler] runs one loop per key; a lock per key keeps two callbacks of
    a key apart, also when a key is rescheduled while its callback runs or a
    caller asks for an exclusive run.  The scheduler is a state machine whose
    steps are the pieces of code between two awaits, in any order; instants are
    in milliseconds of the monotonic clock. *)

From S2P Require Import Prelude.

(** ** Poll rates *)

Definition MIN_POLL_RATE : Z := 10.
Definition DEFAULT_POLL_RATE : Z := 900.

(** [None]: polling is disabled. *)
Definition normalize_poll_rate (raw : option Z) (default_rate : Z) : option Z :=
  match raw with
  | None => Some default_rate
  | Some v => if v <=? 0 then None else Some (Z.max MIN_POLL_RATE v)
  end.

(** ** The decision of one iteration *)

Definition HEARTBEAT_CEILING_S : Z := 900.

Definition heartbeat_threshold (backstop : option Z) (interval : Z) : Z :=
  Z.max (default HEARTBEAT_CEILING_S backstop) interval.

(** Ages in milliseconds, intervals and the backstop in seconds. *)
Definition heartbeat_due (enabled : bool) (backstop : option Z) (last now interval : Z) : bool :=
  enabled && (heartbeat_threshold backstop interval * 1000 <=? now - last).

Inductive Decision := Suppressed | Skipped | Runs.

Definition poll_decision (suppressed heartbeat locked : bool) : Decision :=
  if suppressed && negb heartbeat then Suppressed else if locked then Skipped else Runs.

(** ** State *)

Inductive TaskKind := Loop | Exclusive.

(** Where a task is suspended: about to iterate, waiting for the lock, inside
    the callback, waiting for the interval to pass, finished. *)
Inductive Phase := Ready | Queued | Running | Waiting (until : Z) | Finished.

#[export] Instance Phase_eq_dec : EqDecision Phase.
Proof. solve_decision. Defined.

Record Task := { tk_key : string; tk_kind : TaskKind; tk_phase : Phase; tk_cancelled : bool }.

Record Sched := mkSched {
  sc_tasks : list Task;                  (* every task ever made; its index is its identity *)
  sc_current : gmap string nat;          (* _tasks *)
  sc_holder : gmap string nat;           (* who holds a key's lock *)
  sc_intervals : gmap string Z;
  sc_suppressed : gset string;
  sc_last_run : gmap string Z;
  sc_failed : gset string;
  sc_shutdown : bool;
  sc_heartbeat : bool;
  sc_backstop : option Z;
}.

(** [None]: the constructor raises [ValueError]. *)
Definition new_sched (heartbeat : bool) (backstop : option Z) : option Sched :=
  match backstop with
  | Some b => if b <=? 0 then None else Some (mkSched [] ∅ ∅ ∅ ∅ ∅ ∅ false heartbeat backstop)
  | None => Some (mkSched [] ∅ ∅ ∅ ∅ ∅ ∅ false heartbeat backstop)
  end.

Definition set_tasks ts s := mkSched ts (sc_current s) (sc_holder s) (sc_intervals s)
  (sc_suppressed s) (sc_last_run s) (sc_failed s) (sc_shutdown s) (sc_heartbeat s) (sc_backstop s).
Definition set_holder h s := mkSched (sc_tasks s) (sc_current s) h (sc_intervals s)
  (sc_suppressed s) (sc_last_run s) (sc_failed s) (sc_shutdown s) (sc_heartbeat s) (sc_backstop s).
Definition set_suppressed v s := mkSched (sc_tasks s) (sc_current s) (sc_holder s) (sc_intervals s)
  v (sc_last_run s) (sc_failed s) (sc_shutdown s) (sc_heartbeat s) (sc_backstop s).

Definition set_phase (p : Phase) (t : Task) : Task :=
  {| tk_key := tk_key t; tk_kind := tk_kind t; tk_phase := p; tk_cancelled := tk_cancelled t |}.
Definition set_cancelled (t : Task) : Task :=
  {| tk_key := tk_key t; tk_kind := tk_kind t; tk_phase := tk_phase t; tk_cancelled := true |}.

Definition phase_to (tid : nat) (p : Phase) (s : Sched) : Sched :=
  set_tasks (alter (set_phase p) tid (sc_tasks s)) s.

Definition has_waiters (key : string) (s : Sched) : bool :=
  existsb (λ t, bool_decide (tk_key t = key) && match tk_phase t with Queued => true | _ => false end)
    (sc_tasks s).

Definition locked (key : string) (s : Sched) : bool := bool_decide (is_Some (sc_holder s !! key)).

(** ** Operations called from outside *)

Definition cancel_current (key : string) (s : Sched) : Sched :=
  match sc_current s !! key with
  | Some tid => set_tasks (alter set_cancelled tid (sc_tasks s)) s
  | None => s
  end.

Definition schedule (key : string) (interval now : Z) (s : Sched) : Sched :=
  let s := cancel_current key s in
  let task := {| tk_key := key; tk_kind := Loop; tk_phase := Ready; tk_cancelled := false |} in
  mkSched (sc_tasks s ++ [task]) (<[key := length (sc_tasks s)]> (sc_current s)) (sc_holder s)
    (<[key := interval]> (sc_intervals s)) (sc_suppressed s) (<[key := now]> (sc_last_run s))
    (sc_failed s) (sc_shutdown s) (sc_heartbeat s) (sc_backstop s).

Definition set_interval (key : string) (interval : Z) (s : Sched) : Sched :=
  match sc_intervals s !! key with
  | Some _ =>
      mkSched (sc_tasks s) (sc_current s) (sc_holder s) (<[key := interval]> (sc_intervals s))
        (sc_suppressed s) (sc_last_run s) (sc_failed s) (sc_shutdown s) (sc_heartbeat s) (sc_backstop s)
  | None => s
  end.

Definition suppress (key : string) (s : Sched) : Sched := set_suppressed ({[key]} ∪ sc_suppressed s) s.
Definition unsuppress (key : string) (s : Sched) : Sched := set_suppressed (sc_suppressed s ∖ {[key]}) s.

(** [cancel_all] up to its await: the tasks are told to end, which they do in
    their own steps, and the scheduler is shut down for good. *)
Definition cancel_signal (s : Sched) : Sched :=
  mkSched (imap (λ i t, if bool_decide (i ∈ (map_to_list (sc_current s)).*2) then set_cancelled t else t)
             (sc_tasks s))
    (sc_current s) (sc_holder s) (sc_intervals s) (sc_suppressed s) (sc_last_run s) (sc_failed s) true
    (sc_heartbeat s) (sc_backstop s).

(** [cancel_all] after its await, which ends with the tasks or at its timeout:
    [_tasks] is emptied, of what was scheduled meanwhile too. *)
Definition clear_tasks (s : Sched) : Sched :=
  mkSched (sc_tasks s) ∅ (sc_holder s) (sc_intervals s) (sc_suppressed s) (sc_last_run s) (sc_failed s)
    (sc_shutdown s) (sc_heartbeat s) (sc_backstop s).

(** ** Steps of the tasks *)

(** [async with lock: self._last_run[key] = time.monotonic(); await callback()], up
    to the callback; an asyncio lock is not taken past those already waiting. *)
Definition enter (tid : nat) (key : string) (now : Z) (s : Sched) : Sched :=
  if locked key s || has_waiters key s then phase_to tid Queued s
  else
    let s := phase_to tid Running s in
    mkSched (sc_tasks s) (sc_current s) (<[key := tid]> (sc_holder s)) (sc_intervals s)
      (sc_suppressed s) (<[key := now]> (sc_last_run s)) (sc_failed s) (sc_shutdown s)
      (sc_heartbeat s) (sc_backstop s).

Definition run_exclusive (key : string) (now : Z) (s : Sched) : Sched :=
  let task := {| tk_key := key; tk_kind := Exclusive; tk_phase := Ready; tk_cancelled := false |} in
  enter (length (sc_tasks s)) key now (set_tasks (sc_tasks s ++ [task]) s).

(** A waiter gets the lock once it is free. *)
Definition grant (tid : nat) (key : string) (now : Z) (s : Sched) : Sched :=
  let s := phase_to tid Running s in
  mkSched (sc_tasks s) (sc_current s) (<[key := tid]> (sc_holder s)) (sc_intervals s)
    (sc_suppressed s) (<[key := now]> (sc_last_run s)) (sc_failed s) (sc_shutdown s)
    (sc_heartbeat s) (sc_backstop s).

Definition wait_until (key : string) (now : Z) (s : Sched) : Phase :=
  Waiting (now + default 0 (sc_intervals s !! key) * 1000).

(** One iteration of [_poll_loop], up to its next await. *)
Definition iterate (tid : nat) (key : string) (now : Z) (s : Sched) : Sched :=
  if sc_shutdown s then phase_to tid Finished s
  else
    let interval := default 0 (sc_intervals s !! key) in
    let suppressed := bool_decide (key ∈ sc_suppressed s) in
    let heartbeat := suppressed &&
      heartbeat_due (sc_heartbeat s) (sc_backstop s) (default 0 (sc_last_run s !! key)) now interval in
    match poll_decision suppressed heartbeat (locked key s) with
    | Runs => enter tid key now s
    | _ => phase_to tid (wait_until key now s) s
    end.

(** The callback has returned ([ok]) or raised: the lock is free again. *)
Definition finish (tid : nat) (t : Task) (now : Z) (ok : bool) (s : Sched) : Sched :=
  let key := tk_key t in
  let s := phase_to tid (match tk_kind t with Loop => wait_until key now s | Exclusive => Finished end) s in
  mkSched (sc_tasks s) (sc_current s) (delete key (sc_holder s)) (sc_intervals s) (sc_suppressed s)
    (sc_last_run s)
    (match tk_kind t with
     | Loop => if ok then sc_failed s ∖ {[key]} else {[key]} ∪ sc_failed s
     | Exclusive => sc_failed s
     end)
    (sc_shutdown s) (sc_heartbeat s) (sc_backstop s).

(** A cancelled task unwinds, releasing its lock. *)
Definition unwind (tid : nat) (t : Task) (s : Sched) : Sched :=
  let s := phase_to tid Finished s in
  match tk_phase t with
  | Running => set_holder (delete (tk_key t) (sc_holder s)) s
  | _ => s
  end.

(** The pieces of code between two awaits.  Anybody may schedule and cancel at
    any time, also while a [cancel_all] waits; a [cancel_all] that has signalled
    empties [_tasks] at some later time, or never, when it is cancelled at its
    await or found nothing to cancel. *)
Inductive step : Sched → Sched → Prop :=
  | step_schedule s key interval now : step s (schedule key interval now s)
  | step_set_interval s key interval : step s (set_interval key interval s)
  | step_suppress s key : step s (suppress key s)
  | step_unsuppress s key : step s (unsuppress key s)
  | step_cancel_signal s : step s (cancel_signal s)
  | step_exclusive s key now : step s (run_exclusive key now s)
  | step_iterate s tid t now :
      sc_tasks s !! tid = Some t → tk_phase t = Ready → tk_kind t = Loop →
      step s (iterate tid (tk_key t) now s)
  | step_grant s tid t now :
      sc_tasks s !! tid = Some t → tk_phase t = Queued → locked (tk_key t) s = false →
      step s (grant tid (tk_key t) now s)
  | step_finish s tid t now ok :
      sc_tasks s !! tid = Some t → tk_phase t = Running → step s (finish tid t now ok s)
  | step_wake s tid t now until :
      sc_tasks s !! tid = Some t → tk_phase t = Waiting until → until <= now → sc_shutdown s = false →
      step s (phase_to tid Ready s)
  | step_stop s tid t until :
      sc_tasks s !! tid = Some t → tk_phase t = Waiting until → sc_shutdown s = true →
      step s (phase_to tid Finished s)
  | step_unwind s tid t :
      sc_tasks s !! tid = Some t → tk_cancelled t = true → tk_phase t ≠ Finished →
      step s (unwind tid t s)
  | step_clear_tasks s : sc_shutdown s = true → step s (clear_tasks s).

Definition reachable (heartbeat : bool) (backstop : option Z) (s : Sched) : Prop :=
  ∃ s0, new_sched heartbeat backstop = Some s0 ∧ rtc step s0 s.

(** ** Invariant *)

Record wf (s : Sched) : Prop := {
  wf_holder : ∀ key tid, sc_holder s !! key = Some tid ↔
    ∃ t, sc_tasks s !! tid = Some t ∧ tk_key t = key ∧ tk_phase t = Running;
  wf_current : ∀ key tid, sc_current s !! key = Some tid →
    ∃ t, sc_tasks s !! tid = Some t ∧ tk_key t = key ∧ tk_kind t = Loop;
  wf_live : ∀ tid t, sc_tasks s !! tid = Some t → tk_kind t = Loop → tk_cancelled t = false →
    tk_phase t ≠ Finished → sc_shutdown s = false → sc_current s !! tk_key t = Some tid;
  wf_down : ∀ tid t, sc_tasks s !! tid = Some t → tk_kind t = Loop → tk_cancelled t = false →
    tk_phase t ≠ Finished → sc_shutdown s = true → tk_phase t = Ready;
}.

Lemma lookup_alter_task (f : Task → Task) (tid i : nat) (ts : list Task) :
  alter f tid ts !! i = (if decide (i = tid) then f <$> ts !! i else ts !! i).
Proof.
  rewrite list_lookup_alter. repeat case_decide; subst; congruence.
Qed.

(** A step that moves one task to another phase and updates the locks to match
    keeps the invariant. *)
Lemma wf_move s s' tid t p :
  wf s → sc_tasks s !! tid = Some t →
  sc_tasks s' = alter (set_phase p) tid (sc_tasks s) → sc_current s' = sc_current s →
  sc_shutdown s' = sc_shutdown s → (tk_phase t ≠ Finished ∨ p = Finished) →
  (sc_shutdown s = true → tk_kind t = Loop → tk_phase t = Ready → p = Ready ∨ p = Finished) →
  (∀ key, key ≠ tk_key t → sc_holder s' !! key = sc_holder s !! key) →
  (p = Running → sc_holder s !! tk_key t = None ∧ sc_holder s' !! tk_key t = Some tid) →
  (p ≠ Running → if decide (tk_phase t = Running) then sc_holder s' !! tk_key t = None
                 else sc_holder s' !! tk_key t = sc_holder s !! tk_key t) →
  wf s'.
Proof.
  intros [Hh Hc Hl Hd] Ht Hts Hcur Hdown Hfin Hlast Hother Hrun Hnot. split.
  - intros key i. rewrite Hts, lookup_alter_task.
    assert (∀ t', sc_tasks s !! tid = Some t' → t' = t) as Huniq by (intros; congruence).
    destruct (decide (key = tk_key t)) as [->|Hk].
    + destruct (decide (p = Running)) as [->|Hp].
      * destruct (Hrun eq_refl) as [Hnone ->]. split.
        -- intros [= <-]. exists (set_phase Running t). by rewrite decide_True, Ht.
        -- intros (t' & Ht' & Hk' & Hr). case_decide as Hi; [by subst|].
           assert (sc_holder s !! tk_key t = Some i) by (apply Hh; eauto). congruence.
      * specialize (Hnot Hp). case_decide as Htr; rewrite Hnot.
        -- split; [done|]. intros (t' & Ht' & Hk' & Hr). case_decide as Hi.
           ++ subst i. rewrite Ht in Ht'. by injection Ht' as <-.
           ++ assert (sc_holder s !! tk_key t = Some i) by (apply Hh; eauto).
              assert (sc_holder s !! tk_key t = Some tid) by (apply Hh; eauto). congruence.
        -- rewrite Hh. case_decide as Hi; [subst i|done]. split.
           ++ intros (t' & ->%Huniq & _ & Hr). done.
           ++ intros (t' & Ht' & _ & Hr). rewrite Ht in Ht'. by injection Ht' as <-.
    + rewrite Hother, Hh by done. destruct (decide (i = tid)) as [->|]; [|done]. rewrite Ht. split.
      * intros (t' & [= <-] & ? & ?). done.
      * intros (t' & [= <-] & ? & ?). done.
  - intros key i. rewrite Hcur, Hts, lookup_alter_task. intros (t' & Ht' & ? & ?)%Hc.
    destruct (decide (i = tid)); [|eauto]. exists (set_phase p t'). by rewrite Ht'.
  - intros i t'. rewrite Hcur, Hts, lookup_alter_task. destruct (decide (i = tid)) as [->|].
    + rewrite Ht, Hdown. intros [= <-] Hk Hca Hp. apply (Hl tid t); try done. cbn in Hp. by destruct Hfin.
    + rewrite Hdown. by apply Hl.
  - intros i t'. rewrite Hts, Hdown, lookup_alter_task. destruct (decide (i = tid)) as [->|]; [|by apply Hd].
    rewrite Ht. intros [= <-] Hk Hca Hp Hs. cbn in *. destruct Hlast; try done.
    apply (Hd tid t); try done. by destruct Hfin.
Qed.

(** The same for a task that is new and starts outside the lock. *)
Lemma wf_flag s ts :
  wf s → (∀ i, match sc_tasks s !! i, ts !! i with
               | Some t, Some t' => t' = t ∨ t' = set_cancelled t
               | None, None => True
               | _, _ => False
               end) → wf (set_tasks ts s).
Proof.
  intros [Hh Hc Hl Hd] Hts.
  assert (∀ i t', ts !! i = Some t' → ∃ t, sc_tasks s !! i = Some t ∧ tk_key t' = tk_key t ∧
            tk_kind t' = tk_kind t ∧ tk_phase t' = tk_phase t ∧
            (tk_cancelled t' = false → tk_cancelled t = false)) as Hback.
  { intros i t' Hi. specialize (Hts i). rewrite Hi in Hts. destruct (sc_tasks s !! i) as [t|]; [|done].
    exists t. split; [done|]. destruct Hts as [->| ->]; cbn; auto. by split_and!. }
  assert (∀ i t, sc_tasks s !! i = Some t → ∃ t', ts !! i = Some t' ∧ tk_key t' = tk_key t ∧
            tk_kind t' = tk_kind t ∧ tk_phase t' = tk_phase t) as Hfwd.
  { intros i t Hi. specialize (Hts i). rewrite Hi in Hts. destruct (ts !! i) as [t'|]; [|done].
    exists t'. split; [done|]. by destruct Hts as [->| ->]. }
  split; cbn [set_tasks sc_holder sc_tasks sc_current sc_shutdown].
  - intros key tid. rewrite Hh. split.
    + intros (t & Ht & <- & Hr). destruct (Hfwd _ _ Ht) as (t' & ? & ? & _ & ?). exists t'. by split_and!; [|congruence..].
    + intros (t' & Ht & <- & Hr). destruct (Hback _ _ Ht) as (t & ? & ? & _ & ? & _). exists t. by split_and!; [|congruence..].
  - intros key tid (t & Ht & <- & Hk)%Hc. destruct (Hfwd _ _ Ht) as (t' & ? & ? & ? & _). exists t'. by split_and!; [|congruence..].
  - intros tid t' Ht' Hk Hca Hp ?. destruct (Hback _ _ Ht') as (t & ? & -> & ? & ? & ?).
    apply (Hl tid t); [done|congruence|auto|congruence|done].
  - intros tid t' Ht' Hk Hca Hp ?. destruct (Hback _ _ Ht') as (t & ? & ? & ? & Hph & ?). rewrite Hph.
    apply (Hd tid t); [done|congruence|auto|congruence|done].
Qed.

Lemma lookup_snoc_task (ts : list Task) (task t : Task) (i : nat) :
  (ts ++ [task]) !! i = Some t ↔ ts !! i = Some t ∨ (i = length ts ∧ t = task).
Proof.
  rewrite lookup_app_Some. split.
  - intros [H|[Hge H]]; [auto|]. right.
    apply list_lookup_singleton_Some in H as [Hi ->]. split; [lia|done].
  - intros [H|[-> ->]]; [auto|]. right. split; [lia|]. by rewrite Nat.sub_diag.
Qed.

Lemma wf_schedule s key interval now : wf s → wf (schedule key interval now s).
Proof.
  intros Hwf. unfold schedule.
  assert (wf (cancel_current key s)) as [Hh Hc Hl Hd].
  { unfold cancel_current. destruct (sc_current s !! key) as [tid|]; [|done].
    apply wf_flag; [done|]. intros i. rewrite lookup_alter_task.
    case_decide; destruct (sc_tasks s !! i); cbn; auto. }
  assert (∀ tid t, sc_tasks (cancel_current key s) !! tid = Some t → tk_kind t = Loop →
    tk_cancelled t = false → tk_phase t ≠ Finished → sc_shutdown (cancel_current key s) = false →
    tk_key t ≠ key) as Hnone.
  { intros tid t Ht Hk Hca Hp Hs <-. pose proof (Hl tid t Ht Hk Hca Hp Hs) as Hcur.
    unfold cancel_current in Ht, Hcur. destruct (sc_current s !! tk_key t) as [tid'|] eqn:Ec; cbn in Hcur.
    - rewrite Ec in Hcur. injection Hcur as ->. cbn in Ht. rewrite lookup_alter_task, decide_True in Ht by done.
      destruct (sc_tasks s !! tid) as [t0|]; [|done]. injection Ht as <-. done.
    - congruence. }
  set (s1 := cancel_current key s) in *. split; cbn [sc_holder sc_tasks sc_current sc_shutdown].
  - intros k tid. rewrite Hh. setoid_rewrite lookup_snoc_task. split.
    + intros (t & ? & ? & ?). eauto.
    + intros (t & [?|[-> ->]] & ? & ?); [eauto|done].
  - intros k tid. rewrite lookup_insert_Some. setoid_rewrite lookup_snoc_task.
    intros [[<- <-]|[_ (t & ? & ? & ?)%Hc]]; [|eauto]. eexists. split; [by right|done].
  - intros tid t [Ht|[-> ->]]%lookup_snoc_task Hk Hca Hp Hs.
    + rewrite lookup_insert_ne; [by apply Hl|]. intros Heq. by apply (Hnone tid t Ht Hk Hca Hp Hs).
    + cbn. by rewrite lookup_insert_eq.
  - intros tid t [Ht|[-> ->]]%lookup_snoc_task Hk Hca Hp Hs; [by apply (Hd tid t)|done].
Qed.

Lemma wf_enter s tid t now :
  wf s → sc_tasks s !! tid = Some t → tk_phase t = Ready →
  (sc_shutdown s = true → tk_kind t = Exclusive) → wf (enter tid (tk_key t) now s).
Proof.
  intros Hwf Ht Hp Hx. assert (sc_shutdown s = true → tk_kind t = Loop → False) as Hno.
  { intros H H'. specialize (Hx H). congruence. }
  unfold enter. destruct (locked (tk_key t) s) eqn:El; cbn [orb].
  - eapply (wf_move s _ tid t Queued); rewrite ?Hp; auto; try done; intros; by destruct Hno.
  - destruct (has_waiters (tk_key t) s).
    + eapply (wf_move s _ tid t Queued); rewrite ?Hp; auto; try done; intros; by destruct Hno.
    + unfold locked in El. apply bool_decide_eq_false, eq_None_not_Some in El.
      eapply (wf_move s _ tid t Running); cbn [sc_tasks sc_current sc_holder phase_to set_tasks];
        rewrite ?Hp; auto; try done.
      * intros; by destruct Hno.
      * intros k Hk. by rewrite lookup_insert_ne.
      * intros _. by rewrite lookup_insert_eq.
Qed.

Lemma wf_add_exclusive s key :
  wf s →
  wf (set_tasks (sc_tasks s ++ [{| tk_key := key; tk_kind := Exclusive; tk_phase := Ready;
                                   tk_cancelled := false |}]) s).
Proof.
  intros [Hh Hc Hl Hd]. split; cbn [set_tasks sc_holder sc_tasks sc_current sc_shutdown].
  - intros k tid. rewrite Hh. setoid_rewrite lookup_snoc_task. split.
    + intros (t & ? & ? & ?). eauto.
    + intros (t & [?|[-> ->]] & ? & ?); [eauto|done].
  - intros k tid (t & ? & ? & ?)%Hc. setoid_rewrite lookup_snoc_task. eauto.
  - intros tid t [Ht|[-> ->]]%lookup_snoc_task Hk; [by apply Hl|done].
  - intros tid t [Ht|[-> ->]]%lookup_snoc_task Hk; [by apply (Hd tid t)|done].
Qed.

Lemma wf_signal s : wf s → wf (cancel_signal s).
Proof.
  intros Hwf. assert (wf (set_tasks (sc_tasks (cancel_signal s)) s)) as [Hh Hc Hl Hd].
  { apply wf_flag; [done|]. intros i. cbn [cancel_signal sc_tasks]. rewrite list_lookup_imap.
    destruct (sc_tasks s !! i); cbn; [|done]. destruct (bool_decide _); auto. }
  split; [exact Hh|exact Hc|done|]. intros tid t Ht Hk Hca Hp _.
  destruct (sc_shutdown s) eqn:Es; [by apply (Hd tid t)|exfalso].
  pose proof (Hl tid t Ht Hk Hca Hp Es) as Hcur. cbn in Hcur.
  cbn [cancel_signal sc_tasks] in Ht. rewrite list_lookup_imap in Ht.
  destruct (sc_tasks s !! tid); cbn in Ht; [|done]. rewrite bool_decide_true in Ht; [by injection Ht as <-|].
  apply list_elem_of_fmap. exists (tk_key t, tid). split; [done|]. by apply elem_of_map_to_list.
Qed.

(** Every step keeps the invariant. *)
Lemma wf_step s s' : wf s → step s s' → wf s'.
Proof.
  intros Hwf Hs. destruct Hs as [s key interval now|s key interval|s key|s key|s|s key now
    |s tid t now Ht Hp Hk|s tid t now Ht Hp Hf|s tid t now ok Ht Hp|s tid t now u Ht Hp _ Hno
    |s tid t u Ht Hp _|s tid t Ht Hca Hp|s Hs].
  - by apply wf_schedule.
  - unfold set_interval. destruct (sc_intervals s !! key); [|done]. by destruct Hwf.
  - by destruct Hwf.
  - by destruct Hwf.
  - by apply wf_signal.
  - unfold run_exclusive. set (task := {| tk_key := key; tk_kind := Exclusive; tk_phase := Ready; tk_cancelled := false |}).
    change key with (tk_key task) at 1. apply wf_enter with (t := task);
      [by apply wf_add_exclusive|cbn; by apply lookup_snoc_task; right|done|done].
  - unfold iterate. destruct (sc_shutdown s) eqn:Es.
    { by eapply (wf_move s _ tid t Finished); rewrite ?Hp; auto. }
    destruct (poll_decision _ _ _); [by eapply (wf_move s _ tid t (wait_until _ _ _)); rewrite ?Hp, ?Es; auto..|].
    apply wf_enter; congruence.
  - unfold grant. unfold locked in Hf. apply bool_decide_eq_false, eq_None_not_Some in Hf.
    eapply (wf_move s _ tid t Running); cbn [sc_tasks sc_current sc_holder phase_to set_tasks];
      rewrite ?Hp; auto; try done.
    + intros k Hk. by rewrite lookup_insert_ne.
    + intros _. by rewrite lookup_insert_eq.
  - unfold finish.
    eapply (wf_move s _ tid t (match tk_kind t with Loop => wait_until (tk_key t) now s | Exclusive => Finished end));
      cbn [sc_tasks sc_current sc_holder phase_to set_tasks]; rewrite ?Hp; auto; try done.
    + intros k Hk. by rewrite lookup_delete_ne.
    + by destruct (tk_kind t).
    + intros _. rewrite decide_True by done. apply lookup_delete_eq.
  - by eapply (wf_move s _ tid t Ready); rewrite ?Hp; auto.
  - by eapply (wf_move s _ tid t Finished); rewrite ?Hp; auto.
  - unfold unwind. destruct (tk_phase t) eqn:Ep;
      try by eapply (wf_move s _ tid t Finished); rewrite ?Ep; auto.
    eapply (wf_move s _ tid t Finished); cbn [sc_tasks sc_current sc_holder phase_to set_tasks set_holder];
      rewrite ?Ep; auto; try done.
    + intros k Hk. by rewrite lookup_delete_ne.
    + intros _. rewrite decide_True by done. apply lookup_delete_eq.
  - destruct Hwf as [Hh Hc Hl Hd]. split; [exact Hh|by intros k tid; cbn; rewrite lookup_empty| |exact Hd].
    intros tid t _ _ _ _ Hn. cbn in Hn. congruence.
Qed.

Lemma wf_reachable heartbeat backstop s : reachable heartbeat backstop s → wf s.
Proof.
  intros (s0 & H0 & Hs).
  assert (wf s0) as Hwf0.
  { unfold new_sched in H0.
    assert (wf (mkSched [] ∅ ∅ ∅ ∅ ∅ ∅ false heartbeat backstop)) as Hn.
    { split; cbn; intros ? ?; rewrite ?lookup_empty, ?lookup_nil; [|done..].
      split; [done|]. by intros (t & [=] & _). }
    destruct backstop as [b|]; [destruct (b <=? 0); [done|]|]; by injection H0 as <-. }
  clear H0. induction Hs; [done|]. eauto using wf_step.
Qed.

(** C12: under any interleaving of the poll loops with rescheduling, interval
    changes, suppression, exclusive runs, cancellation and shutdown, no two
    callbacks of one key ever run at the same time, the key's lock is held
    exactly while one does, and a key has at most one periodic loop that is not
    finished or being cancelled; once shut down, none of its loops is so except
    those scheduled since that have not begun, and they end without polling. *)
Theorem polls_never_overlap (heartbeat : bool) (backstop : option Z) (s : Sched)
    (i j : nat) (t u : Task) :
  reachable heartbeat backstop s →
  sc_tasks s !! i = Some t → sc_tasks s !! j = Some u → tk_key t = tk_key u →
  (tk_phase t = Running → tk_phase u = Running → i = j) ∧
  (locked (tk_key t) s = true ↔
     ∃ k v, sc_tasks s !! k = Some v ∧ tk_key v = tk_key t ∧ tk_phase v = Running) ∧
  (tk_kind t = Loop → tk_kind u = Loop → tk_cancelled t = false → tk_cancelled u = false →
   tk_phase t ≠ Finished → tk_phase u ≠ Finished →
   if sc_shutdown s
   then tk_phase t = Ready ∧ ∀ now, iterate i (tk_key t) now s = phase_to i Finished s
   else i = j).
Proof.
  intros [Hh Hc Hl Hd]%wf_reachable Ht Hu Hk. split_and!.
  - intros Hrt Hru.
    assert (sc_holder s !! tk_key t = Some i) by (apply Hh; eauto).
    assert (sc_holder s !! tk_key t = Some j) by (apply Hh; eauto). congruence.
  - unfold locked. rewrite bool_decide_eq_true. split.
    + intros [k (v & ? & ? & ?)%Hh]. eauto.
    + intros (k & v & ? & ? & ?). exists k. apply Hh. eauto.
  - intros Hkt Hku Hct Hcu Hft Hfu. destruct (sc_shutdown s) eqn:Es.
    { split; [by apply (Hd i t)|]. intros now. unfold iterate. by rewrite Es. }
    pose proof (Hl i t Ht Hkt Hct Hft eq_refl) as H1.
    pose proof (Hl j u Hu Hku Hcu Hfu eq_refl) as H2. rewrite <- Hk in H2. congruence.
Qed.

(** ** After shutdown *)

(** A loop that is at its callback or about to be. *)
Definition polling (s : Sched) (tid : nat) : Prop :=
  ∃ t, sc_tasks s !! tid = Some t ∧ tk_kind t = Loop ∧ (tk_phase t = Running ∨ tk_phase t = Queued).

Lemma polling_move s tid t p :
  sc_tasks s !! tid = Some t → (p = Running ∨ p = Queued → polling s tid ∨ tk_kind t = Exclusive) →
  ∀ i, polling (phase_to tid p s) i → polling s i.
Proof.
  intros Ht Hp i (x & Hx & Hk & Hb). unfold phase_to, set_tasks in Hx. cbn in Hx.
  rewrite lookup_alter_task in Hx. case_decide as Hi; [subst i|by exists x].
  rewrite Ht in Hx. injection Hx as <-. destruct (Hp Hb) as [?|He]; [done|]. cbn in Hk. congruence.
Qed.

Lemma polling_signal s i : polling (cancel_signal s) i → polling s i.
Proof.
  intros (x & Hx & Hk & Hb). cbn in Hx. rewrite list_lookup_imap in Hx.
  destruct (sc_tasks s !! i) as [t|] eqn:Et; [|done]. injection Hx as <-. exists t.
  by destruct (bool_decide _).
Qed.

(** A scheduler that was shut down stays so, and no loop comes to its callback
    any more. *)
Lemma shutdown_step s s' :
  step s s' → sc_shutdown s = true → sc_shutdown s' = true ∧ ∀ i, polling s' i → polling s i.
Proof.
  intros Hs Hd. destruct Hs as [s key interval now|s key interval|s key|s key|s|s key now
    |s tid t now Ht Hp Hk|s tid t now Ht Hp Hf|s tid t now ok Ht Hp|s tid t now u Ht Hp _ Hno
    |s tid t u Ht Hp _|s tid t Ht Hca Hp|s _].
  - cbn. split; [unfold cancel_current; by destruct (sc_current s !! key)|].
    intros i (x & [Hx|[-> ->]]%lookup_snoc_task & Hk & Hb); [|by destruct Hb].
    unfold cancel_current in Hx. destruct (sc_current s !! key) as [tid|]; [|by exists x]. cbn in Hx.
    rewrite lookup_alter_task in Hx. case_decide; [|by exists x].
    destruct (sc_tasks s !! i) as [t|] eqn:Et; [|done]. injection Hx as <-. by exists t.
  - unfold set_interval. by destruct (sc_intervals s !! key).
  - done.
  - done.
  - split; [done|]. apply polling_signal.
  - split; [unfold run_exclusive, enter; by destruct (_ || _)|]. intros i Hi.
    set (task := {| tk_key := key; tk_kind := Exclusive; tk_phase := Ready; tk_cancelled := false |}).
    assert (polling (set_tasks (sc_tasks s ++ [task]) s) i) as (x & [Hx|[_ ->]]%lookup_snoc_task & Hk & Hb);
      [|by exists x|done].
    unfold run_exclusive, enter in Hi. destruct (_ || _); eapply polling_move in Hi; try done;
      (apply lookup_snoc_task; right; done) || (intros _; right; done).
  - unfold iterate. rewrite Hd. split; [done|]. apply (polling_move s tid t Finished Ht). by intros [].
  - split; [done|]. apply (polling_move s tid t Running Ht). intros _.
    destruct (tk_kind t) eqn:Ek; [left; exists t; auto|by right].
  - split; [done|]. apply (polling_move s tid t _ Ht). destruct (tk_kind t); by intros [].
  - congruence.
  - split; [done|]. apply (polling_move s tid t Finished Ht). by intros [].
  - split; [unfold unwind; by destruct (tk_phase t)|]. intros i Hi.
    apply (polling_move s tid t Finished Ht); [by intros []|]. unfold unwind in Hi. by destruct (tk_phase t).
  - done.
Qed.

Lemma shutdown_steps s s' :
  rtc step s s' → sc_shutdown s = true → sc_shutdown s' = true ∧ ∀ i, polling s' i → polling s i.
Proof.
  induction 1 as [|s1 s2 s3 H _ IH]; intros Hd; [done|].
  destruct (shutdown_step _ _ H Hd) as [H2 Hp]. destruct (IH H2). eauto.
Qed.

(** ** The heartbeat of a suppressed key *)

(** The loop of [tid], iterated from [t] until it runs its callback: the time of
    that run. *)
Fixpoint drive (fuel : nat) (tid : nat) (key : string) (t : Z) (s : Sched) : option Z :=
  match fuel with
  | O => None
  | S fuel' =>
      let s' := iterate tid key t s in
      match tk_phase <$> sc_tasks s' !! tid with
      | Some Running => Some t
      | Some (Waiting u) => drive fuel' tid key u (phase_to tid Ready s')
      | _ => None
      end
  end.

(** A suppressed key whose loop is about to iterate and whose lock is free. *)
Record quiet_key (s : Sched) (tid : nat) (key : string) (interval last : Z) : Prop := {
  qk_task : sc_tasks s !! tid =
    Some {| tk_key := key; tk_kind := Loop; tk_phase := Ready; tk_cancelled := false |};
  qk_interval : sc_intervals s !! key = Some interval;
  qk_last : sc_last_run s !! key = Some last;
  qk_suppressed : key ∈ sc_suppressed s;
  qk_free : locked key s = false ∧ has_waiters key s = false;
  qk_on : sc_heartbeat s = true ∧ sc_shutdown s = false;
}.

Lemma phase_there_and_back s tid t p :
  sc_tasks s !! tid = Some t → tk_phase t = Ready → phase_to tid Ready (phase_to tid p s) = s.
Proof.
  intros Ht Hp. unfold phase_to. destruct s as [ts]. cbn in *. unfold set_tasks. cbn. f_equal.
  apply list_eq. intros i. rewrite !lookup_alter_task. case_decide; [subst i|done].
  rewrite Ht. cbn. destruct t; cbn in *. by subst.
Qed.

Lemma iterate_quiet s tid key interval last t :
  quiet_key s tid key interval last →
  if heartbeat_due true (sc_backstop s) last t interval
  then tk_phase <$> sc_tasks (iterate tid key t s) !! tid = Some Running
  else iterate tid key t s = phase_to tid (Waiting (t + interval * 1000)) s.
Proof.
  intros [Ht Hi Hl Hs [Hlk Hw] [Hon Hsd]]. unfold iterate.
  rewrite Hsd, Hon, Hi, Hl, Hlk, bool_decide_true by done.
  cbn [default from_option id andb]. unfold id.
  destruct (heartbeat_due true (sc_backstop s) last t interval); cbn [poll_decision andb negb].
  - unfold enter. rewrite Hlk, Hw. cbn [orb sc_tasks phase_to set_tasks].
    by rewrite lookup_alter_task, decide_True, Ht.
  - unfold wait_until. by rewrite Hi.
Qed.

Lemma drive_bound s tid key interval last k fuel :
  quiet_key s tid key interval last → 0 < interval → (0 < k) →
  let due := heartbeat_threshold (sc_backstop s) interval in
  due <= (k + Z.of_nat fuel) * interval → (k - 1) * interval < due →
  ∃ n, drive (S fuel) tid key (last + k * interval * 1000) s = Some (last + n * interval * 1000) ∧
       due <= n * interval < due + interval.
Proof.
  intros Hq Hi Hk due. revert k Hk. induction fuel as [|fuel IH]; intros k Hk Hfuel Hbefore;
    pose proof (iterate_quiet s tid key interval last (last + k * interval * 1000) Hq) as Hit;
    unfold heartbeat_due in Hit; fold due in Hit; cbn [andb] in Hit;
    destruct (due * 1000 <=? _) eqn:Ed; cbn [drive].
  - rewrite Hit. exists k. split; [done|]. lia.
  - lia.
  - rewrite Hit. exists k. split; [done|]. lia.
  - rewrite Hit. rewrite (phase_there_and_back s tid _ _ (qk_task _ _ _ _ _ Hq) eq_refl).
    cbn [phase_to set_tasks sc_tasks]. rewrite lookup_alter_task, decide_True, (qk_task _ _ _ _ _ Hq) by done.
    cbn [fmap option_fmap option_map set_phase tk_phase].
    destruct (IH (k + 1)) as (n & Hn & Hb); [lia|lia|lia|]. exists n. split; [|done].
    replace (last + k * interval * 1000 + interval * 1000) with (last + (k + 1) * interval * 1000) by lia.
    exact Hn.
Qed.

(** A suppressed key is still polled, as a safety net: never more often than
    its own interval or the backstop (900 s unless configured), and its loop
    runs at the first multiple of the interval that reaches the longer of the
    two, so within one interval past it.  (Intervals are whole seconds and
    positive, the lock is free; the time is that of the loop's own clock.)  The
    gap can exceed the backstop: at an interval of 600 s it is 1200 s. *)
Theorem heartbeat_bounds (s : Sched) (tid : nat) (key : string) (interval last : Z) :
  quiet_key s tid key interval last → 0 < interval → 0 < default HEARTBEAT_CEILING_S (sc_backstop s) →
  let due := Z.max (default HEARTBEAT_CEILING_S (sc_backstop s)) interval in
  ∃ fuel n, drive fuel tid key (last + interval * 1000) s = Some (last + n * interval * 1000) ∧
    due <= n * interval < due + interval ∧
    (interval = 600 → sc_backstop s = None → n * interval = 1200).
Proof.
  intros Hq Hi Hb due.
  destruct (drive_bound s tid key interval last 1 (Z.to_nat due) Hq Hi) as (n & Hn & Hbound);
    [lia| |cbn [heartbeat_threshold]; unfold heartbeat_threshold; lia|].
  { unfold heartbeat_threshold. fold due. rewrite Z2Nat.id by lia. nia. }
  exists (S (Z.to_nat due)), n. rewrite Z.mul_1_l in Hn. split; [done|]. split; [exact Hbound|].
  intros Hint Hnone. unfold heartbeat_threshold in Hbound. rewrite Hnone, Hint in Hbound.
  unfold HEARTBEAT_CEILING_S in Hbound. cbn in Hbound. rewrite Hint. lia.
Qed.

(** ** Runs *)

Definition sched0 : Sched := mkSched [] ∅ ∅ ∅ ∅ ∅ ∅ false true None.

(** Rescheduled while its callback runs: the old callback holds the lock, the new
    loop skips its turn. *)
Definition rescheduled : Sched :=
  iterate 1 "derc" 6000 (schedule "derc" 30 5000 (iterate 0 "derc" 1000 (schedule "derc" 60 1000 sched0))).

(** The exception of a shut-down scheduler: a key scheduled while [cancel_all]
    waits, and again after it, has two loops that were not cancelled; neither
    polls. *)
Example scheduled_around_clear :
  let s := schedule "derc" 30 3000 (clear_tasks (schedule "derc" 30 2000 (cancel_signal sched0))) in
  (λ t, (tk_phase t, tk_cancelled t)) <$> sc_tasks s = [(Ready, false); (Ready, false)] ∧
  tk_phase <$> sc_tasks (iterate 1 "derc" 4000 (iterate 0 "derc" 4000 s)) = [Finished; Finished].
Proof. vm_compute. auto. Qed.

Lemma rescheduled_reachable : reachable true None rescheduled.
Proof.
  exists sched0. split; [done|].
  eapply rtc_l; [apply step_schedule|]. eapply rtc_l.
  { by apply (step_iterate _ 0 {| tk_key := "derc"; tk_kind := Loop; tk_phase := Ready; tk_cancelled := false |}). }
  eapply rtc_l; [apply step_schedule|]. eapply rtc_l; [|done].
  by apply (step_iterate _ 1 {| tk_key := "derc"; tk_kind := Loop; tk_phase := Ready; tk_cancelled := false |}).
Qed.

Lemma polls_never_overlap_witness :
  tk_phase <$> sc_tasks rescheduled = [Running; Waiting 36000] ∧ locked "derc" rescheduled = true.
Proof.
  split; [vm_compute; reflexivity|].
  apply (polls_never_overlap true None rescheduled 0 0
           {| tk_key := "derc"; tk_kind := Loop; tk_phase := Running; tk_cancelled := true |}
           {| tk_key := "derc"; tk_kind := Loop; tk_phase := Running; tk_cancelled := true |}
           rescheduled_reachable); [vm_compute; reflexivity..|].
  exists 0%nat. eexists. split; [vm_compute; reflexivity|]. split; reflexivity.
Defined.

Lemma heartbeat_bounds_witness :
  let s := suppress "edev" (schedule "edev" 600 0 sched0) in
  ∃ fuel n, drive fuel 0 "edev" 600000 s = Some (0 + n * 600 * 1000) ∧
    900 <= n * 600 < 900 + 600 ∧ n * 600 = 1200.
Proof.
  cbn zeta.
  destruct (heartbeat_bounds (suppress "edev" (schedule "edev" 600 0 sched0)) 0 "edev" 600 0)
    as (fuel & n & H1 & H2 & H3).
  - split; try reflexivity; [apply (bool_decide_unpack _); vm_compute; exact I|split; vm_compute; reflexivity..].
  - lia.
  - reflexivity.
  - exists fuel, n. split; [exact H1|]. split; [exact H2|]. apply H3; reflexivity.
Defined.
