(* ===== verification/Subscriptions.v ===== *)
(** * Subscriptions: subscription/manager.py

    The table of subscriptions the client holds at the server: creating,
    renewing, cancelling and reconciling them, the checkpoint, the bounded list
    of notifications and the cache that drops repeated ones.

    A [SubscriptionState] is an object that the table, a running reconciliation
    and a running renewal share and mutate, so states live in a list and the
    table holds their indices.  The HTTP client answers as a function of the
    number of awaits; [meanwhile] is what other tasks do to the manager at an
    await.  Coroutines given to [asyncio.gather] run one after the other.
    Times are in milliseconds. *)

From Stdlib Require Import Ascii.
From S2P Require Import Prelude.

(** ** Text *)

(** [s.split(c)] *)
Fixpoint split_on (c : Ascii.ascii) (s : string) : list string :=
  match s with
  | EmptyString => [""]
  | String a s' =>
      if decide (a = c) then "" :: split_on c s'
      else match split_on c s' with
           | w :: ws => String a w :: ws
           | [] => [String a ""]
           end
  end.

Definition slash : Ascii.ascii := "/"%char.

(** [s.lstrip("/")] and [s.rstrip("/")] *)
Fixpoint lstrip (s : string) : string :=
  match s with
  | String a s' => if decide (a = slash) then lstrip s' else s
  | EmptyString => ""
  end.

Fixpoint rstrip (s : string) : string :=
  match s with
  | EmptyString => ""
  | String a s' =>
      match rstrip s' with
      | EmptyString => if decide (a = slash) then "" else String a ""
      | r => String a r
      end
  end.

(** [path.strip("/").split("/")] *)
Definition segments (path : string) : list string := split_on slash (lstrip (rstrip path)).

(** ["/" + "/".join(parts)] *)
Definition join_path (parts : list string) : string :=
  "/" +:+ String.concat "/" parts.

(** [uri.rsplit("/", 1)[0]] *)
Definition parent_path (uri : string) : string :=
  match split_on slash uri with
  | [_] => uri
  | parts => String.concat "/" (removelast parts)
  end.

(** [s.endswith(suffix)] *)
Fixpoint endswith (suffix s : string) : bool :=
  String.eqb suffix s || match s with EmptyString => false | String _ s' => endswith suffix s' end.

(** ** Data *)

Record SubscriptionState := mkSub {
  ss_uri : string;
  ss_resource : string;
  ss_notification_uri : string;
  ss_type : string;
  ss_status : string;
  ss_created : Z;
  ss_list : bool;                        (* is_list_subscription *)
  ss_unmanaged : bool;
  ss_list_href : option string;
}.

Record StoredNotification := {
  sn_resource : string;
  sn_status : Z;
  sn_uri : string;
  sn_created : Z;
  sn_new_resource : option string;
}.

Record ReconcileResult := mkResult {
  kept : nat;
  cancelled : nat;
  created : nat;
  renewed : nat;
  cancel_errors : nat;
  create_errors : nat;
}.

(** A Subscription resource as it is sent. *)
Record Subscription := {
  sub_resource : string;
  sub_encoding : Z;
  sub_level : string;
  sub_limit : Z;
  sub_notification_uri : string;
}.

(** An entry of the server's SubscriptionList. *)
Record ServerSub := { sv_resource : string; sv_href : option string }.

(** How a request ends. *)
Inductive Http (A : Type) :=
  | HOk (a : A)
  | HProtocol (status : Z)               (* Sep2ProtocolError *)
  | HOther                               (* any other Exception *)
  | HCancelled.                          (* CancelledError at the await *)
Arguments HOk {A}.
Arguments HProtocol {A}.
Arguments HOther {A}.
Arguments HCancelled {A}.

(** What leaves the manager, with the answer. *)
Inductive Wire :=
  | Posted (href resource : string) (answer : Http (option string))
  | Put (href resource : string) (answer : Http unit)
  | Deleted (href : string) (answer : Http unit)
  | Listed (href : string)
  | SubscriptionLost.                    (* the rediscovery callback *)

Record Mgr := mkMgr {
  mg_subs : dict string nat;             (* _subscriptions: URI to object *)
  mg_heap : list SubscriptionState;      (* the objects *)
  mg_notes : list StoredNotification;
  mg_dedup : gmap string Z;
  mg_suppressed : gset string;           (* _resubscribe_suppressed *)
  mg_log : list Wire;
  mg_tick : nat;
}.

Definition new_mgr : Mgr := mkMgr [] [] [] ∅ ∅ [] 0.

Definition set_subs (f : dict string nat → dict string nat) (s : Mgr) : Mgr :=
  mkMgr (f (mg_subs s)) (mg_heap s) (mg_notes s) (mg_dedup s) (mg_suppressed s) (mg_log s) (mg_tick s).
Definition set_heap (f : list SubscriptionState → list SubscriptionState) (s : Mgr) : Mgr :=
  mkMgr (mg_subs s) (f (mg_heap s)) (mg_notes s) (mg_dedup s) (mg_suppressed s) (mg_log s) (mg_tick s).
Definition set_notes (f : list StoredNotification → list StoredNotification) (s : Mgr) : Mgr :=
  mkMgr (mg_subs s) (mg_heap s) (f (mg_notes s)) (mg_dedup s) (mg_suppressed s) (mg_log s) (mg_tick s).
Definition set_dedup (f : gmap string Z → gmap string Z) (s : Mgr) : Mgr :=
  mkMgr (mg_subs s) (mg_heap s) (mg_notes s) (f (mg_dedup s)) (mg_suppressed s) (mg_log s) (mg_tick s).
Definition set_suppressed (f : gset string → gset string) (s : Mgr) : Mgr :=
  mkMgr (mg_subs s) (mg_heap s) (mg_notes s) (mg_dedup s) (f (mg_suppressed s)) (mg_log s) (mg_tick s).
Definition sent (w : Wire) (s : Mgr) : Mgr :=
  mkMgr (mg_subs s) (mg_heap s) (mg_notes s) (mg_dedup s) (mg_suppressed s) (mg_log s ++ [w]) (mg_tick s).
Definition advance (s : Mgr) : Mgr :=
  mkMgr (mg_subs s) (mg_heap s) (mg_notes s) (mg_dedup s) (mg_suppressed s) (mg_log s) (S (mg_tick s)).

Definition with_uri (uri : string) (st : SubscriptionState) : SubscriptionState :=
  mkSub uri (ss_resource st) (ss_notification_uri st) (ss_type st) (ss_status st) (ss_created st)
    (ss_list st) (ss_unmanaged st) (ss_list_href st).
Definition with_status (status : string) (st : SubscriptionState) : SubscriptionState :=
  mkSub (ss_uri st) (ss_resource st) (ss_notification_uri st) (ss_type st) status (ss_created st)
    (ss_list st) (ss_unmanaged st) (ss_list_href st).
Definition with_created (at_ms : Z) (st : SubscriptionState) : SubscriptionState :=
  mkSub (ss_uri st) (ss_resource st) (ss_notification_uri st) (ss_type st) (ss_status st) at_ms
    (ss_list st) (ss_unmanaged st) (ss_list_href st).

Definition is_active (st : SubscriptionState) : bool := String.eqb (ss_status st) "active".

(** ** Lookups *)

(** The objects of the table, in order. *)
Definition states (s : Mgr) : list (nat * SubscriptionState) :=
  omap (λ kl : string * nat, (λ st, (kl.2, st)) <$> mg_heap s !! kl.2) (mg_subs s).

(** [self._subscriptions.get(uri)] *)
Definition sub_get (uri : string) (s : Mgr) : option (nat * SubscriptionState) :=
  l ← dict_get uri (mg_subs s); (λ st, (l, st)) <$> mg_heap s !! l.

Definition active_subscriptions (s : Mgr) : list (nat * SubscriptionState) :=
  filter (λ ls, is_active ls.2 = true) (states s).

Definition find_active_for_resource (resource : string) (s : Mgr) : option nat :=
  fst <$> head (filter (λ ls, ss_resource ls.2 = resource ∧ is_active ls.2 = true) (states s)).

Definition subscribed_resource_types (s : Mgr) : gset string :=
  list_to_set (ss_type ∘ snd <$> active_subscriptions s).

Definition resource_type_for (uri : string) (s : Mgr) : option string :=
  (ss_type ∘ snd) <$> sub_get uri s.

Definition should_process_notification (uri resource_href : string) (s : Mgr) : bool :=
  match sub_get uri s with
  | None => true
  | Some (_, st) => ss_list st || String.eqb resource_href (ss_resource st)
  end.

Definition resubscribe_suppressed (resource : string) (s : Mgr) : bool :=
  bool_decide (resource ∈ mg_suppressed s).

(** ** Operations that do not wait *)

Definition suppress_resubscribe (resource : string) : Mgr → Mgr := set_suppressed (λ x, {[resource]} ∪ x).
Definition clear_resubscribe_suppression : Mgr → Mgr := set_suppressed (λ _, ∅).

Definition mark_cancelled (uri : string) (s : Mgr) : Mgr :=
  match dict_get uri (mg_subs s) with
  | Some l => set_heap (alter (with_status "cancelled") l) s
  | None => s
  end.

(** A deque keeps the newest [max] entries. *)
Definition push_bounded {A} (max : nat) (l : list A) (x : A) : list A :=
  drop (S (length l) - max) (l ++ [x]).

Definition record_notification (max : nat) (n : StoredNotification) : Mgr → Mgr :=
  set_notes (λ l, push_bounded max l n).

Definition remove_notifications_for (resource : string) : Mgr → Mgr :=
  set_notes (filter (λ n, sn_resource n ≠ resource)).

Definition DEDUP_WINDOW : Z := 5000.

Definition is_duplicate_notification (now : Z) (resource_href : string) (s : Mgr) : bool * Mgr :=
  match mg_dedup s !! resource_href with
  | Some last =>
      if now - last <? DEDUP_WINDOW then (true, s) else (false, set_dedup (<[resource_href := now]>) s)
  | None => (false, set_dedup (<[resource_href := now]>) s)
  end.

(** The ancestors of a path from its parent up, as far as [/derp]. *)
Fixpoint ancestry (i : nat) (parts : list string) : list string :=
  match i with
  | O => []
  | S j =>
      join_path (take i parts) ::
      (if decide (parts !! j = Some "derp") then [] else ancestry j parts)
  end.

Definition record_notification_ancestry (now : Z) (resource_href : string) : Mgr → Mgr :=
  let parts := segments resource_href in
  set_dedup (λ m, foldl (λ m p, <[p := now]> m) m (ancestry (length parts - 1) parts)).

(** *** Checkpoint *)

(** An entry of a checkpoint; [None] for a key that is not there. *)
Record CheckpointEntry := {
  ce_uri : string;
  ce_resource : string;
  ce_notification_uri : string;
  ce_type : string;
  ce_status : option string;
  ce_created : option Z;
  ce_list : option bool;
  ce_unmanaged : option bool;
  ce_list_href : option string;
}.

Definition checkpointed (st : SubscriptionState) : CheckpointEntry :=
  {| ce_uri := ss_uri st; ce_resource := ss_resource st;
     ce_notification_uri := ss_notification_uri st; ce_type := ss_type st;
     ce_status := Some (ss_status st); ce_created := Some (ss_created st); ce_list := None;
     ce_unmanaged := Some (ss_unmanaged st); ce_list_href := ss_list_href st |}.

Definition to_checkpoint (s : Mgr) : list CheckpointEntry := checkpointed <$> (states s).*2.

Definition restored (e : CheckpointEntry) : SubscriptionState :=
  mkSub (ce_uri e) (ce_resource e) (ce_notification_uri e) (ce_type e)
    (default "active" (ce_status e)) (default 0 (ce_created e)) (default false (ce_list e))
    (default false (ce_unmanaged e)) (ce_list_href e).

(** A new object, filed under its own URI. *)
Definition add_state (st : SubscriptionState) (s : Mgr) : Mgr :=
  set_subs (dict_set (ss_uri st) (length (mg_heap s))) (set_heap (λ h, h ++ [st]) s).

Definition restore_from_checkpoint (data : option (list CheckpointEntry)) (s : Mgr) : Mgr :=
  foldl (λ s e, add_state (restored e) s) (set_subs (λ _, []) s) (default [] data).

(** ** Operations that talk to the server *)

Inductive SExn := SCancelledError.

Class SubEnv := {
  notification_uri : string;
  missing_location_fallback : bool;
  renewal_put : bool;                    (* renewal_method == "put" *)
  has_lost_callback : bool;
  http_post : nat → string → Subscription → Http (option string);
  http_put : nat → string → Subscription → Http unit;
  http_delete : nat → string → Http unit;
  http_list : nat → string → Http (list (list ServerSub));
  time_ms : nat → Z;
  shutdown_set : nat → bool;
  meanwhile : nat → Mgr → Mgr;
}.

Abbreviation SM A := (Comp SExn Mgr A) (only parsing).

(** [_SUBSCRIPTION_LOST_STATUSES] and [_PUT_RENEWAL_FALLBACK_STATUSES] *)
Definition SUBSCRIPTION_LOST_STATUSES : list Z := [401; 404].
Definition PUT_RENEWAL_FALLBACK_STATUSES : list Z := [404; 405].

Section Operations.
Context {E : SubEnv}.

Definition now_ms : SM Z := get (λ s, time_ms (mg_tick s)).

(** One request and its await. *)
Definition request {A} (f : nat → Http A) (w : Http A → Wire) : SM (Http A) :=
  r <- get (λ s, f (mg_tick s)) ;;
  modify (λ s, meanwhile (mg_tick s) (advance (sent (w r) s))) ;;;
  match r with
  | HCancelled => raise SCancelledError
  | _ => ret r
  end.

Definition post (href : string) (sub : Subscription) : SM (Http (option string)) :=
  request (λ n, http_post n href sub) (Posted href (sub_resource sub)).
Definition put (href : string) (sub : Subscription) : SM (Http unit) :=
  request (λ n, http_put n href sub) (Put href (sub_resource sub)).
Definition delete_ (href : string) : SM (Http unit) :=
  request (λ n, http_delete n href) (Deleted href).

(** [await asyncio.gather( *coroutines, return_exceptions=True)] *)
Definition settle {A} (m : SM A) : SM (SExn + A) := λ s,
  match m s with
  | (inl e, s') => (inr (inl e), s')
  | (inr a, s') => (inr (inr a), s')
  end.

Definition gather {A B} (l : list A) (f : A → SM B) : SM (list (SExn + B)) :=
  map_each l (λ x, settle (f x)).

Definition touch (l : nat) : SM unit :=
  now <- now_ms ;; modify (set_heap (alter (with_created now) l)).

(** *** Subscribing *)

Definition create (uri resource resource_type : string) (unmanaged : bool)
    (list_href : option string) : SM (option nat) :=
  now <- now_ms ;;
  l <- get (λ s, length (mg_heap s)) ;;
  modify (add_state (mkSub uri resource notification_uri resource_type "active" now
                       (endswith "List" resource_type) unmanaged list_href)) ;;;
  ret (Some l).

Definition subscription_to (resource : string) : Subscription :=
  {| sub_resource := resource; sub_encoding := 0; sub_level := "+S1"; sub_limit := 1;
     sub_notification_uri := notification_uri |}.

Definition subscribe (sub_list_href resource resource_type : string) : SM (option nat) :=
  existing <- get (find_active_for_resource resource) ;;
  match existing with
  | Some l => ret (Some l)
  | None =>
      r <- post sub_list_href (subscription_to resource) ;;
      match r with
      | HOk (Some (String _ _ as location)) =>
          create location resource resource_type false (Some sub_list_href)
      | HOk _ =>
          if missing_location_fallback
          then create ("_synthetic:" +:+ resource) resource resource_type true None
          else ret None
      | _ => ret None
      end
  end.

(** *** Cancelling *)

Definition pop (uri : string) : SM unit := modify (set_subs (dict_del uri)).

Definition cancel_one (uri : string) : SM bool :=
  state <- get (sub_get uri) ;;
  if default false (ss_unmanaged ∘ snd <$> state) then ret true
  else
    r <- delete_ uri ;;
    ret (match r with HOk _ => true | _ => false end).

Definition cancel (uri : string) : SM bool :=
  state <- get (sub_get uri) ;;
  if default false (ss_unmanaged ∘ snd <$> state) then pop uri ;;; ret true
  else
    r <- delete_ uri ;;
    pop uri ;;;
    ret (match r with HOk _ => true | _ => false end).

Definition cancel_all : SM unit :=
  uris <- get (λ s, dict_keys (mg_subs s)) ;;
  match uris with
  | [] => ret tt
  | _ => gather uris cancel_one ;;; modify (set_subs (λ _, []))
  end.

(** *** Renewing *)

Definition renewal_rejected (status : Z) : SM bool :=
  when (bool_decide (status ∈ SUBSCRIPTION_LOST_STATUSES) && has_lost_callback)
    (modify (sent SubscriptionLost)) ;;;
  ret false.

(** The object moves to the URI the server gave it. *)
Definition rekey (old new : string) (l : nat) : SM unit :=
  pop old ;;; modify (set_heap (alter (with_uri new) l)) ;;; modify (set_subs (dict_set new l)).

Definition renew_by_post (uri list_href : string) (l : nat) (sub : Subscription) : SM bool :=
  r <- post list_href sub ;;
  match r with
  | HOk location =>
      match location with
      | Some (String _ _ as new) => if decide (new = uri) then ret tt else rekey uri new l
      | _ => ret tt
      end ;;;
      touch l ;;; ret true
  | HProtocol status => renewal_rejected status
  | _ => ret false
  end.

Definition renew (uri : string) (encoding : option Z) (level : option string) (limit : option Z)
    : SM bool :=
  found <- get (sub_get uri) ;;
  match found with
  | None => ret false
  | Some (l, st) =>
      if negb (is_active st) then ret false
      else if ss_unmanaged st then touch l ;;; ret true
      else
        let sub := {| sub_resource := ss_resource st; sub_encoding := default 0 encoding;
                      sub_level := default "+S1" level; sub_limit := default 1 limit;
                      sub_notification_uri := ss_notification_uri st |} in
        let list_href := match ss_list_href st with
                         | Some (String _ _ as h) => h
                         | _ => parent_path uri
                         end in
        if renewal_put then
          r <- put uri sub ;;
          match r with
          | HOk _ => touch l ;;; ret true
          | HProtocol status =>
              if decide (status ∈ PUT_RENEWAL_FALLBACK_STATUSES)
              then renew_by_post uri list_href l sub
              else renewal_rejected status
          | _ => ret false
          end
        else renew_by_post uri list_href l sub
  end.

Definition renew_all : SM nat :=
  uris <- get (λ s, dict_keys (mg_subs s)) ;;
  oks <- map_each uris (λ uri,
    state <- get (sub_get uri) ;;
    if default false (is_active ∘ snd <$> state) then renew uri None None None else ret false) ;;
  ret (length (filter (λ b, b = true) oks)).

(** One round of the renewal task, after its wait. *)
Definition renewal_round (interval : Z) : SM unit :=
  now <- now_ms ;;
  uris <- get (λ s, dict_keys (mg_subs s)) ;;
  for_each uris (λ uri,
    state <- get (sub_get uri) ;;
    match state with
    | Some (_, st) =>
        if is_active st && (interval <=? now - ss_created st)
        then renew uri None None None ;;; ret tt
        else ret tt
    | None => ret tt
    end).

(** [start_renewal_task], for a number of rounds. *)
Fixpoint renewal_task (rounds : nat) (interval : Z) : SM unit :=
  match rounds with
  | O => ret tt
  | S rounds' =>
      stop <- get (λ s, shutdown_set (mg_tick s)) ;;
      if (stop : bool) then ret tt
      else
        modify (λ s, meanwhile (mg_tick s) (advance s)) ;;;
        stop <- get (λ s, shutdown_set (mg_tick s)) ;;
        if (stop : bool) then ret tt
        else renewal_round interval ;;; renewal_task rounds' interval
  end.

Definition validate_restored_subscriptions : SM (nat * nat) :=
  uris <- get (λ s, dict_keys (mg_subs s)) ;;
  oks <- map_each uris (λ uri,
    state <- get (sub_get uri) ;;
    match state with
    | Some (_, st) =>
        if negb (is_active st) then ret None
        else if ss_unmanaged st then ret (Some true)
        else
          ok <- renew uri None None None ;;
          if (ok : bool) then ret (Some true) else pop uri ;;; ret (Some false)
    | None => ret None
    end) ;;
  ret (length (filter (λ o, o = Some true) oks), length (filter (λ o, o = Some false) oks)).

(** *** Reconciling with what is wanted *)

Definition ok_result {A} (p : A → bool) (r : SExn + A) : bool :=
  match r with inr a => p a | inl _ => false end.

Definition count_failed (l : list bool) : nat := length (filter (λ b, b = false) l).

(** Entries that are not active any more leave the table; the rest by resource. *)
Fixpoint old_by_resource (l : list (nat * SubscriptionState)) (acc : dict string nat)
    : SM (dict string nat) :=
  match l with
  | [] => ret acc
  | (loc, st) :: l' =>
      if is_active st then old_by_resource l' (dict_set (ss_resource st) loc acc)
      else pop (ss_uri st) ;;; old_by_resource l' acc
  end.

Definition object (l : nat) (s : Mgr) : SubscriptionState :=
  default (mkSub "" "" "" "" "" 0 false false None) (mg_heap s !! l).

Definition loc_of (d : dict string nat) (resource : string) : nat := default 0%nat (dict_get resource d).

Definition reconcile (sub_list_href : string) (desired : gset (string * string)) (renew_kept : bool)
    : SM ReconcileResult :=
  all <- get states ;;
  old <- old_by_resource all [] ;;
  let desired_map := foldl (λ d rt, dict_set rt.1 rt.2 d) [] (elements desired) in
  let old_resources : gset string := list_to_set (dict_keys old) in
  let desired_resources : gset string := list_to_set (dict_keys desired_map) in
  same <- get (λ s, filter (λ r, Some (ss_type (object (loc_of old r) s)) = dict_get r desired_map)
                      (old_resources ∩ desired_resources)) ;;
  let changed := (old_resources ∩ desired_resources) ∖ same in
  let cancel_resources := changed ∪ (old_resources ∖ desired_resources) in
  let create_resources := changed ∪ (desired_resources ∖ old_resources) in
  cancel_uris <- get (λ s, (λ r, ss_uri (object (loc_of old r) s)) <$> elements cancel_resources) ;;
  cancel_outcomes <- gather cancel_uris cancel_one ;;
  for_each cancel_uris pop ;;;
  let keep_list := (λ r, (r, loc_of old r)) <$> elements same in
  renewals <-
    (if renew_kept then
       uris <- get (λ s, (λ rl : string * nat, ss_uri (object rl.2 s)) <$> keep_list) ;;
       outcomes <- gather uris (λ uri, renew uri None None None) ;;
       let lost := filter (λ rlo : (string * nat) * (SExn + bool), ok_result id rlo.2 = false)
                     (zip keep_list outcomes) in
       for_each lost (λ rlo, uri <- get (λ s, ss_uri (object rlo.1.2 s)) ;; pop uri) ;;;
       ret (rlo ← lost; [rlo.1.1])
     else ret []) ;;
  let create_list := elements (create_resources ∪ list_to_set renewals) in
  create_outcomes <- gather create_list (λ r, subscribe sub_list_href r (default "" (dict_get r desired_map))) ;;
  let failed_cancels := count_failed (ok_result id <$> cancel_outcomes) in
  let failed_creates := count_failed (ok_result (λ o, bool_decide (is_Some o)) <$> create_outcomes) in
  ret (mkResult (length keep_list - length renewals) (length cancel_uris + length renewals)
         (length create_list - failed_creates)
         (if renew_kept then length keep_list - length renewals else 0)%nat
         failed_cancels failed_creates).

(** *** Reconciling with what the server has *)

(** The resources the server lists, and the URI it gives for each. *)
Definition server_view (pages : list (list ServerSub)) : gset string * dict string string :=
  let subs := filter (λ v, sv_resource v ≠ "") (mjoin pages) in
  (list_to_set (sv_resource <$> subs),
   foldl (λ d v, match sv_href v with
                 | Some (String _ _ as h) => dict_set (sv_resource v) h d
                 | _ => d
                 end) [] subs).

(** One local subscription against the server's view: [true] when it was
    established again. *)
Definition reconcile_one (sub_list_href : string) (reestablish_missing : bool)
    (server_resources : gset string) (server_uris : dict string string)
    (ls : nat * SubscriptionState) : SM bool :=
  state <- get (object ls.1) ;;
  if ss_unmanaged state then ret false
  else if decide (ss_resource state ∈ server_resources) then
    match dict_get (ss_resource state) server_uris with
    | Some server_uri =>
        if decide (server_uri = ss_uri state) then ret false
        else rekey (ss_uri state) server_uri ls.1 ;;; ret false
    | None => ret false
    end
  else if negb reestablish_missing then
    when (bool_decide (server_resources ≠ ∅)) (pop (ss_uri state)) ;;; ret false
  else
    pop (ss_uri state) ;;;
    again <- subscribe sub_list_href (ss_resource state) (ss_type state) ;;
    match again with
    | Some _ => ret true
    | None =>
        state' <- get (object ls.1) ;;
        modify (set_subs (dict_set (ss_uri state') ls.1)) ;;; ret false
    end.

Definition reconcile_with_server (sub_list_href : string) (reestablish_missing : bool) : SM nat :=
  r <- request (λ n, http_list n sub_list_href) (λ _, Listed sub_list_href) ;;
  match r with
  | HOk pages =>
      let view := server_view pages in
      locals <- get active_subscriptions ;;
      again <- map_each locals
        (reconcile_one sub_list_href reestablish_missing view.1 view.2) ;;
      ret (length (filter (λ b, b = true) again))
  | _ => ret 0%nat
  end.
End Operations.
