(* ===== verification/SubscriptionProps.v ===== *)
(** * SubscriptionProps: what reconciliation, checkpoint and renewal achieve

    About [Subscriptions].  [entry s uri l st] says that the table files the
    object [l] with content [st] under [uri]. *)

From S2P Require Import Prelude Subscriptions.

(** ** The table *)

Definition entry (s : Mgr) (uri : string) (l : nat) (st : SubscriptionState) : Prop :=
  (uri, l) ∈ mg_subs s ∧ mg_heap s !! l = Some st.

(** An active subscription of a resource with a type. *)
Definition active_as (s : Mgr) (resource type : string) : Prop :=
  ∃ uri l st, entry s uri l st ∧ is_active st = true ∧ ss_resource st = resource ∧ ss_type st = type.

(** Every object is filed under its own URI, once, and no resource has two
    active subscriptions. *)
Record table_wf (s : Mgr) : Prop := {
  tw_keys : dict_wf (mg_subs s);
  tw_own : ∀ uri l, (uri, l) ∈ mg_subs s → ∃ st, mg_heap s !! l = Some st ∧ ss_uri st = uri;
  tw_one : ∀ u u' l l' st st', entry s u l st → entry s u' l' st' → is_active st = true →
             is_active st' = true → ss_resource st = ss_resource st' → u = u' ∧ l = l';
}.

Lemma elem_of_states (s : Mgr) (l : nat) (st : SubscriptionState) :
  (l, st) ∈ states s ↔ ∃ uri, entry s uri l st.
Proof.
  unfold states, entry. rewrite list_elem_of_omap. split.
  - intros ([u l'] & Hin & Hl). cbn in Hl. destruct (mg_heap s !! l') eqn:E; [|done].
    injection Hl as <- <-. by exists u.
  - intros (u & Hin & Hl). exists (u, l). cbn. by rewrite Hl.
Qed.

Lemma find_active_None (r : string) (s : Mgr) :
  (∀ t, ¬ active_as s r t) → find_active_for_resource r s = None.
Proof.
  intros Hn. unfold find_active_for_resource. rewrite filter_none; [done|].
  intros [l st] [u He]%elem_of_states [Hr Ha]. by apply (Hn (ss_type st)); exists u, l, st.
Qed.

Lemma sub_get_entry (s : Mgr) (uri : string) (l : nat) (st : SubscriptionState) :
  table_wf s → sub_get uri s = Some (l, st) ↔ entry s uri l st.
Proof.
  intros W. unfold sub_get, entry. split.
  - intros (l' & Hg & H)%bind_Some. destruct (mg_heap s !! l') eqn:E; [|done].
    injection H as <- <-. split; [|done]. by apply dict_get_elem.
  - intros [Hin Hl]. rewrite (dict_elem_get _ _ _ (tw_keys _ W) Hin). cbn. by rewrite Hl.
Qed.

(** Taking entries out keeps the table well-formed. *)
Definition pops (uris : list string) : Mgr → Mgr := set_subs (λ d, foldl (λ d u, dict_del u d) d uris).

Lemma elem_of_pops (uris : list string) (s : Mgr) (u : string) (l : nat) :
  (u, l) ∈ mg_subs (pops uris s) ↔ (u, l) ∈ mg_subs s ∧ u ∉ uris.
Proof.
  unfold pops, set_subs. cbn. generalize (mg_subs s) as d. induction uris as [|x uris IH]; intros d; cbn.
  - rewrite elem_of_nil. naive_solver.
  - rewrite IH, dict_del_elem, not_elem_of_cons. naive_solver.
Qed.

Lemma entry_pops (uris : list string) (s : Mgr) (u : string) (l : nat) (st : SubscriptionState) :
  entry (pops uris s) u l st ↔ entry s u l st ∧ u ∉ uris.
Proof. unfold entry. rewrite elem_of_pops. cbn. naive_solver. Qed.

Lemma pops_wf (uris : list string) (s : Mgr) : table_wf s → table_wf (pops uris s).
Proof.
  intros [Hk Ho H1]. split.
  - unfold pops, set_subs. cbn. clear Ho H1. revert Hk. generalize (mg_subs s) as d.
    induction uris as [|x uris IH]; intros d Hd; cbn; auto with py.
  - intros u l [Hin _]%elem_of_pops. by apply Ho.
  - intros u u' l l' st st' [? _]%entry_pops [? _]%entry_pops. by apply H1.
Qed.

Lemma keys_pops (uris : list string) (s : Mgr) (u : string) :
  u ∈ dict_keys (mg_subs (pops uris s)) → u ∈ dict_keys (mg_subs s).
Proof.
  unfold dict_keys. intros ([u' l] & -> & [H _]%elem_of_pops)%list_elem_of_fmap.
  apply list_elem_of_fmap. by exists (u', l).
Qed.

(** States with the same table. *)
Definition same_table (s s' : Mgr) : Prop :=
  mg_subs s' = mg_subs s ∧ mg_heap s' = mg_heap s.

Lemma same_table_entry s s' u l st : same_table s s' → entry s' u l st ↔ entry s u l st.
Proof. intros [H1 H2]. unfold entry. by rewrite H1, H2. Qed.

Lemma same_table_wf s s' : same_table s s' → table_wf s → table_wf s'.
Proof.
  intros [H1 H2] [Hk Ho Hu]. split; [by rewrite H1|by rewrite H1, H2|].
  intros *. unfold entry. rewrite H1, H2. apply Hu.
Qed.

Lemma add_state_entry st s u l st' :
  table_wf s → ss_uri st ∉ dict_keys (mg_subs s) →
  entry (add_state st s) u l st' ↔
  entry s u l st' ∨ (u = ss_uri st ∧ l = length (mg_heap s) ∧ st' = st).
Proof.
  intros W Hf. unfold entry, add_state, set_subs, set_heap. cbn.
  rewrite dict_set_new_elem by done. split.
  - intros [[Hin|[-> ->]] Hl].
    + left. split; [done|]. destruct (tw_own _ W _ _ Hin) as (st0 & Hs & _).
      rewrite lookup_app_l in Hl; [done|]. by eapply lookup_lt_Some.
    + right. rewrite lookup_app_r, Nat.sub_diag in Hl by lia. cbn in Hl. naive_solver.
  - intros [[Hin Hl]|(-> & -> & ->)].
    + split; [by left|]. rewrite lookup_app_l; [done|]. by eapply lookup_lt_Some.
    + split; [by right|]. by rewrite lookup_app_r, Nat.sub_diag by lia.
Qed.

Lemma add_state_wf st s :
  table_wf s → ss_uri st ∉ dict_keys (mg_subs s) →
  (is_active st = true → ∀ t, ¬ active_as s (ss_resource st) t) → table_wf (add_state st s).
Proof.
  intros W Hf Hn. pose proof (λ u l st', add_state_entry st s u l st' W Hf) as He. split.
  - cbn. apply dict_set_wf, (tw_keys _ W).
  - intros u l Hin. cbn in Hin. cbn [add_state set_subs set_heap mg_heap].
    apply dict_set_elem in Hin as [[= -> ->]|Hin].
    + exists st. by rewrite lookup_app_r, Nat.sub_diag by lia.
    + destruct (tw_own _ W _ _ Hin) as (st0 & Hs & Hu). exists st0. split; [|done].
      rewrite lookup_app_l; [done|]. by eapply lookup_lt_Some.
  - intros u u' l l' st1 st2 H1 H2 A1 A2 Hr. apply He in H1, H2.
    destruct H1 as [H1|(-> & -> & ->)], H2 as [H2|(-> & -> & ->)].
    + by eapply (tw_one _ W).
    + exfalso. apply (Hn A2 (ss_type st1)). by exists u, l, st1.
    + exfalso. apply (Hn A1 (ss_type st2)). by exists u', l', st2.
    + done.
Qed.

(** A dict filled from a list whose keys determine their values. *)
Section FillDict.
Context {A V : Type} (key : A → string) (val : A → V).

Definition fill (d : dict string V) (l : list A) : dict string V :=
  foldl (λ d x, dict_set (key x) (val x) d) d l.

Lemma fill_keeps (k : string) (v : V) (l : list A) (d : dict string V) :
  dict_get k d = Some v → (∀ x, x ∈ l → key x = k → val x = v) → dict_get k (fill d l) = Some v.
Proof.
  revert d. induction l as [|x l IH]; intros d Hd Hl; [done|]. cbn. apply IH.
  - rewrite dict_get_set. case_decide as Hk; [|done]. f_equal. apply Hl; [left|done].
  - intros y Hy. apply Hl. by right.
Qed.

Lemma fill_get (k : string) (v : V) (l : list A) :
  (∀ x y, x ∈ l → y ∈ l → key x = key y → val x = val y) →
  dict_get k (fill [] l) = Some v ↔ ∃ x, x ∈ l ∧ key x = k ∧ val x = v.
Proof.
  intros Hfun. split.
  - enough (∀ d, dict_get k (fill d l) = Some v →
              (∃ x, x ∈ l ∧ key x = k ∧ val x = v) ∨ dict_get k d = Some v) as H.
    { intros [?|Hn]%H; [done|by apply dict_get_elem, elem_of_nil in Hn]. }
    clear Hfun. induction l as [|x l IH]; intros d; [by right|]. cbn.
    intros [(y & Hy & ? & ?)|Hd]%IH; [left; exists y; split; [by right|done]|].
    rewrite dict_get_set in Hd. case_decide; [|by right].
    left. exists x. split; [left|]. naive_solver.
  - intros (x & Hx & Hk & Hv). apply list_elem_of_split in Hx as (l1 & l2 & ->).
    unfold fill. rewrite foldl_app. cbn. fold (fill [] l1).
    apply fill_keeps.
    + rewrite Hk, dict_get_set_eq. by f_equal.
    + intros y Hy Hky. rewrite <- Hv. apply Hfun; [..|congruence]; set_solver.
Qed.

Lemma fill_keys (k : string) (l : list A) :
  (∀ x y, x ∈ l → y ∈ l → key x = key y → val x = val y) →
  k ∈ dict_keys (fill [] l) ↔ ∃ x, x ∈ l ∧ key x = k.
Proof.
  intros Hfun. rewrite <- dict_mem_spec. unfold dict_mem.
  destruct (dict_get k (fill [] l)) as [v|] eqn:E; split; try done.
  - intros _. apply fill_get in E as (x & ? & ? & _); [eauto|done].
  - intros (x & Hx & Hk). exfalso.
    assert (dict_get k (fill [] l) = Some (val x)) as H by (apply fill_get; eauto). congruence.
Qed.
End FillDict.

(** ** What reconciliation computes from the table *)

(** The table without its inactive entries, and its index by resource. *)
Definition cleaned (s : Mgr) : Mgr :=
  pops (ss_uri ∘ snd <$> filter (λ ls, is_active ls.2 = false) (states s)) s.
Definition index (s : Mgr) : dict string nat :=
  fill (λ ls, ss_resource ls.2) fst [] (filter (λ ls, is_active ls.2 = true) (states s)).

Lemma entry_uri s u l st : table_wf s → entry s u l st → ss_uri st = u.
Proof. intros W [H1 H2]. destruct (tw_own _ W _ _ H1) as (st' & H3 & H4). congruence. Qed.

Lemma entry_fun s u l l' st st' : table_wf s → entry s u l st → entry s u l' st' → l = l' ∧ st = st'.
Proof.
  intros W [H1 H2] [H3 H4].
  apply (dict_elem_get _ _ _ (tw_keys _ W)) in H1, H3. assert (l = l') as -> by congruence.
  split; congruence.
Qed.

Lemma entry_cleaned s u l st :
  table_wf s → entry (cleaned s) u l st ↔ entry s u l st ∧ is_active st = true.
Proof.
  intros W. unfold cleaned. rewrite entry_pops. split; intros [He H]; (split; [done|]).
  - destruct (is_active st) eqn:Ea; [done|]. destruct H. apply list_elem_of_fmap. exists (l, st).
    cbn. split; [by rewrite (entry_uri s u l)|]. apply list_elem_of_filter. split; [done|].
    apply elem_of_states. by exists u.
  - intros ([l' st'] & Hu & [Ha [u' He']%elem_of_states]%list_elem_of_filter)%list_elem_of_fmap.
    cbn in Hu, Ha. rewrite (entry_uri s u' l' st') in Hu by done. subst u'.
    destruct (entry_fun s u l l' st st'); congruence.
Qed.

Lemma index_get s r l :
  table_wf s → dict_get r (index s) = Some l ↔ ∃ u st, entry (cleaned s) u l st ∧ ss_resource st = r.
Proof.
  intros W. unfold index. rewrite fill_get.
  - split.
    + intros ([l' st] & [Ha [u He]%elem_of_states]%list_elem_of_filter & Hr & Hl). cbn in *. subst l'.
      exists u, st. by rewrite entry_cleaned.
    + intros (u & st & [He Ha]%entry_cleaned & Hr); [|done]. exists (l, st). split_and!; try done.
      apply list_elem_of_filter. split; [done|]. apply elem_of_states. by exists u.
  - intros [l1 st1] [l2 st2] [A1 [u1 E1]%elem_of_states]%list_elem_of_filter
      [A2 [u2 E2]%elem_of_states]%list_elem_of_filter Hr. cbn in *.
    by destruct (tw_one _ W u1 u2 l1 l2 st1 st2).
Qed.

(** The entry behind a resource of the index. *)
Lemma index_object s u l st :
  table_wf s → entry (cleaned s) u l st →
  loc_of (index s) (ss_resource st) = l ∧ object l (cleaned s) = st.
Proof.
  intros W He. unfold loc_of, object.
  assert (dict_get (ss_resource st) (index s) = Some l) as -> by (apply index_get; eauto).
  destruct He as [_ ->]. done.
Qed.

Section Partition.
Context (s : Mgr) (W : table_wf s) (desired : gset (string * string))
  (Hfun : ∀ r t t', (r, t) ∈ desired → (r, t') ∈ desired → t = t').

Definition wanted_types : dict string string := fill fst snd [] (elements desired).
Definition old_resources : gset string := list_to_set (dict_keys (index s)).
Definition desired_resources : gset string := list_to_set (dict_keys wanted_types).
Definition kept_resources : gset string :=
  filter (λ r, Some (ss_type (object (loc_of (index s) r) (cleaned s))) = dict_get r wanted_types)
    (old_resources ∩ desired_resources).
Definition changed_resources : gset string := (old_resources ∩ desired_resources) ∖ kept_resources.
Definition cancel_resources : gset string := changed_resources ∪ (old_resources ∖ desired_resources).
Definition create_resources : gset string := changed_resources ∪ (desired_resources ∖ old_resources).

Lemma wanted_get r t : dict_get r wanted_types = Some t ↔ (r, t) ∈ desired.
Proof using Hfun.
  unfold wanted_types. rewrite fill_get.
  - split; [intros ([??] & ?%elem_of_elements & <- & <-); done|].
    intros H. exists (r, t). by rewrite elem_of_elements.
  - intros [r1 t1] [r2 t2] H1%elem_of_elements H2%elem_of_elements Hr. cbn in *. subst. eauto.
Qed.

Lemma elem_of_desired_resources r : r ∈ desired_resources ↔ ∃ t, (r, t) ∈ desired.
Proof using Hfun.
  unfold desired_resources. rewrite elem_of_list_to_set, <- dict_mem_spec. unfold dict_mem.
  setoid_rewrite <- wanted_get. destruct (dict_get r wanted_types) as [t|]; naive_solver.
Qed.

Lemma elem_of_old_resources r :
  r ∈ old_resources ↔ ∃ u l st, entry (cleaned s) u l st ∧ ss_resource st = r.
Proof using W.
  unfold old_resources. rewrite elem_of_list_to_set, <- dict_mem_spec. unfold dict_mem.
  destruct (dict_get r (index s)) as [l|] eqn:Eg; split; try done.
  - intros _. apply index_get in Eg as (u & st & ?); [|done]. eauto.
  - intros (u & l & st & He). exfalso.
    assert (dict_get r (index s) = Some l) as H by (apply index_get; eauto). congruence.
Qed.

Lemma elem_of_kept r : r ∈ kept_resources ↔ ∃ t, active_as s r t ∧ (r, t) ∈ desired.
Proof using W Hfun.
  unfold kept_resources. rewrite elem_of_filter, elem_of_intersection, elem_of_old_resources. split.
  - intros (Ht & (u & l & st & He & <-) & _). destruct (index_object s u l st W He) as [Hl Ho].
    rewrite Hl, Ho in Ht. exists (ss_type st). split; [|by apply wanted_get].
    apply entry_cleaned in He as [He Ha]; [|done]. by exists u, l, st.
  - intros (t & (u & l & st & He & Ha & <- & <-) & Hd).
    assert (entry (cleaned s) u l st) as Hc by by apply entry_cleaned.
    destruct (index_object s u l st W Hc) as [Hl Ho]. rewrite Hl, Ho.
    split_and!; [by symmetry; apply wanted_get|by exists u, l, st|].
    apply elem_of_desired_resources. eauto.
Qed.

Lemma elem_of_cancel r :
  r ∈ cancel_resources ↔ ∃ u l st, entry (cleaned s) u l st ∧ ss_resource st = r ∧
                           (ss_resource st, ss_type st) ∉ desired.
Proof using W Hfun.
  assert (r ∈ cancel_resources ↔ r ∈ old_resources ∧ r ∉ kept_resources) as ->.
  { unfold cancel_resources, changed_resources.
    assert (r ∈ kept_resources → r ∈ desired_resources).
    { unfold kept_resources. rewrite elem_of_filter. set_solver. }
    destruct (decide (r ∈ desired_resources)); set_solver. }
  rewrite elem_of_old_resources, elem_of_kept. split.
  - intros [(u & l & st & He & <-) Hk]. exists u, l, st. split_and!; try done. intros Hd. apply Hk.
    exists (ss_type st). split; [|done]. apply entry_cleaned in He as [He Ha]; [|done]. by exists u, l, st.
  - intros (u & l & st & He & <- & Hn). split; [by exists u, l, st|].
    intros (t & (u' & l' & st' & He' & Ha' & Hr & <-) & Hd). apply Hn.
    apply entry_cleaned in He as [He Ha]; [|done].
    destruct (tw_one _ W u u' l l' st st') as [-> ->]; try done.
    by destruct (entry_fun s u' l' l' st st') as [_ ->].
Qed.

Lemma elem_of_create r : r ∈ create_resources ↔ ∃ t, (r, t) ∈ desired ∧ ¬ active_as s r t.
Proof using W Hfun.
  assert (r ∈ create_resources ↔ r ∈ desired_resources ∧ r ∉ kept_resources) as ->.
  { unfold create_resources, changed_resources.
    assert (r ∈ kept_resources → r ∈ old_resources).
    { unfold kept_resources. rewrite elem_of_filter. set_solver. }
    destruct (decide (r ∈ old_resources)); set_solver. }
  rewrite elem_of_desired_resources, elem_of_kept. split.
  - intros [[t Ht] Hk]. exists t. split; [done|]. intros Ha. apply Hk. eauto.
  - intros (t & Hd & Hn). split; [eauto|]. intros (t' & Ha & Hd').
    by rewrite (Hfun r t' t) in Ha.
Qed.

Lemma partition_size :
  (size kept_resources + size create_resources = size (set_map fst desired : gset string))%nat.
Proof using W Hfun.
  rewrite <- size_union.
  - f_equal. apply set_eq. intros r. rewrite elem_of_union, elem_of_kept, elem_of_create, elem_of_map.
    split.
    + intros [(t & _ & Hd)|(t & Hd & _)]; by exists (r, t).
    + intros ([r' t] & -> & Hd). cbn. destruct (decide (r' ∈ kept_resources)) as [Hk|Hk].
      * left. by apply elem_of_kept.
      * right. exists t. split; [done|]. intros Ha. apply Hk, elem_of_kept. eauto.
  - intros r Hk%elem_of_kept Hc%elem_of_create.
    destruct Hk as (t & Ha & Hd), Hc as (t' & Hd' & Hn). by rewrite (Hfun r t' t) in Hn.
Qed.
End Partition.

(** ** Undisturbed requests *)

Section Calm.
Context {E : SubEnv} (Hcalm : ∀ n s, meanwhile n s = s).

Definition answered {A} (r : Http A) : SExn + Http A :=
  match r with HCancelled => inl SCancelledError | _ => inr r end.

Lemma request_calm {A} (f : nat → Http A) (w : Http A → Wire) (s : Mgr) :
  request f w s = (answered (f (mg_tick s)), advance (sent (w (f (mg_tick s))) s)).
Proof.
  unfold request, bind, get, modify. rewrite Hcalm. by destruct (f (mg_tick s)).
Qed.

Lemma pop_each (uris : list string) (s : Mgr) : for_each uris pop s = (inr tt, pops uris s).
Proof.
  revert s. induction uris as [|u uris IH]; intros s; [by destruct s|].
  exact (IH (pops [u] s)).
Qed.

Lemma old_by_resource_run (l : list (nat * SubscriptionState)) (acc : dict string nat) (s : Mgr) :
  old_by_resource l acc s =
  (inr (fill (λ ls, ss_resource ls.2) fst acc (filter (λ ls, is_active ls.2 = true) l)),
   pops (ss_uri ∘ snd <$> filter (λ ls, is_active ls.2 = false) l) s).
Proof.
  revert acc s. induction l as [|[loc st] l IH]; intros acc s; [by destruct s|].
  cbn [old_by_resource]. rewrite !filter_cons. cbn [snd].
  destruct (is_active st) eqn:Ea; destruct (decide _), (decide _); try done.
  exact (IH acc (pops [ss_uri st] s)).
Qed.

(** What a request is for: subscribing to a resource, or ending a
    subscription. *)
Definition target (w : Wire) : option (bool * string) :=
  match w with
  | Posted _ resource _ => Some (true, resource)
  | Deleted uri _ => Some (false, uri)
  | _ => None
  end.

(** *** DELETEs *)

(** The subscription at a URI is the server's to delete. *)
Definition managed (s : Mgr) (uri : string) : Prop :=
  default false (ss_unmanaged ∘ snd <$> sub_get uri s) = false.

Lemma same_table_get s s' uri : same_table s s' → sub_get uri s' = sub_get uri s.
Proof. intros [H1 H2]. unfold sub_get. by rewrite H1, H2. Qed.

Lemma cancel_one_run (uri : string) (s : Mgr) :
  ∃ r s', settle (cancel_one uri) s = (inr r, s') ∧ same_table s s' ∧
    ((managed s uri ∧ ∃ a, mg_log s' = mg_log s ++ [Deleted uri a]) ∨
     (¬ managed s uri ∧ mg_log s' = mg_log s)).
Proof.
  unfold settle, cancel_one, managed, bind at 1, get.
  destruct (default false _) eqn:Em.
  - do 2 eexists. split; [done|]. split; [done|]. by right.
  - unfold delete_, bind. rewrite request_calm.
    destruct (http_delete (mg_tick s) uri); do 2 eexists; (split; [done|]); (split; [done|]);
      left; (split; [done|]); by eexists.
Qed.

Lemma cancels_run (uris : list string) (s : Mgr) :
  ∃ rs s' new, gather uris cancel_one s = (inr rs, s') ∧ same_table s s' ∧
    length rs = length uris ∧ mg_log s' = mg_log s ++ new ∧
    (∀ w, w ∈ new → ∃ u a, w = Deleted u a ∧ u ∈ uris ∧ managed s u) ∧
    (∀ u, u ∈ uris → managed s u → ∃ a, Deleted u a ∈ new) ∧
    (target <$> new) `sublist_of` ((λ u, Some (false, u)) <$> uris).
Proof.
  revert s. induction uris as [|u uris IH]; intros s.
  - exists [], s, []. rewrite app_nil_r. repeat split; try done; intros ?; by rewrite elem_of_nil.
  - destruct (cancel_one_run u s) as (r & s1 & H1 & Ht1 & Hl1).
    destruct (IH s1) as (rs & s2 & new & H2 & Ht2 & Hn & Hl2 & Hin & Hall & Hsub).
    assert (∀ x, managed s1 x ↔ managed s x) as Hm
      by (intros x; unfold managed; by rewrite (same_table_get s)).
    assert (same_table s s2) as Ht by (destruct Ht1, Ht2; split; congruence).
    exists (r :: rs), s2. unfold gather in *. cbn. unfold bind at 1. rewrite H1. unfold bind at 1. rewrite H2.
    destruct Hl1 as [[Hu [a Hl1]]|[Hu Hl1]].
    + exists (Deleted u a :: new). rewrite Hl2, Hl1, <- app_assoc. cbn.
      split_and!; try done; [by f_equal| | |by constructor].
      * intros w [->|Hw]%elem_of_cons; [by exists u, a; rewrite elem_of_cons; auto|].
        destruct (Hin w Hw) as (x & b & ? & ? & ?%Hm). exists x, b. rewrite elem_of_cons. auto.
      * intros x [->|Hx]%elem_of_cons Hmx; [exists a; left|].
        destruct (Hall x Hx) as [b Hb]; [by apply Hm|]. exists b. by right.
    + exists new. rewrite Hl2, Hl1. split_and!; try done; [cbn; by f_equal| | |by constructor].
      * intros w Hw. destruct (Hin w Hw) as (x & b & ? & ? & ?%Hm). exists x, b.
        rewrite elem_of_cons. auto.
      * intros x [->|Hx]%elem_of_cons Hmx; [done|]. apply Hall; [done|]. by apply Hm.
Qed.

(** *** POSTs *)

(** The URI a new subscription is filed under, if the server accepted it. *)
Definition new_uri (resource : string) (answer : Http (option string)) : option string :=
  match answer with
  | HOk (Some (String _ _ as location)) => Some location
  | HOk _ => if missing_location_fallback then Some ("_synthetic:" +:+ resource) else None
  | _ => None
  end.

(** Whether a gathered [subscribe] gave a subscription. *)
Definition subscribed (r : SExn + option nat) : bool := ok_result (λ o, bool_decide (is_Some o)) r.

Lemma subscribe_run (href r t : string) (s : Mgr) :
  (∀ t', ¬ active_as s r t') →
  let a := http_post (mg_tick s) href (subscription_to r) in
  ∃ out s', settle (subscribe href r t) s = (inr out, s') ∧
    mg_log s' = mg_log s ++ [Posted href r a] ∧ mg_tick s' = S (mg_tick s) ∧
    match new_uri r a with
    | None => subscribed out = false ∧ same_table s s'
    | Some u => subscribed out = true ∧ ∃ st, ss_uri st = u ∧ ss_resource st = r ∧ ss_type st = t ∧
                  is_active st = true ∧ same_table (add_state st s) s'
    end.
Proof.
  intros Hn a. unfold settle, subscribe, bind at 1, get.
  rewrite (find_active_None r s Hn). unfold bind at 1, post. rewrite request_calm.
  cbn [sub_resource subscription_to]. fold a.
  destruct a as [[[|c l]|]| | |]; cbn [answered new_uri]; try (do 2 eexists; done).
  all: try (destruct missing_location_fallback; [|do 2 eexists; done]).
  all: do 2 eexists; split_and!; try reflexivity.
  all: match goal with |- ∃ _, _ ∧ _ ∧ _ ∧ _ ∧ same_table _ (add_state ?st _) => exists st end;
    repeat split.
Qed.

(** The URIs of new subscriptions are new, and differ from resource to resource. *)
Record fresh_uris (href : string) (rs : list string) (s : Mgr) : Prop := {
  fu_new : ∀ n r u, r ∈ rs → new_uri r (http_post n href (subscription_to r)) = Some u →
             u ∉ dict_keys (mg_subs s);
  fu_apart : ∀ n m r r' u, r ∈ rs → r' ∈ rs →
             new_uri r (http_post n href (subscription_to r)) = Some u →
             new_uri r' (http_post m href (subscription_to r')) = Some u → r = r';
}.

(** What a run of creations leaves: the old entries, and one new entry for each
    resource whose POST was accepted. *)
Record creates (href : string) (type_of : string → string) (rs : list string) (s s' : Mgr)
    (new : list Wire) : Prop := {
  cr_wf : table_wf s';
  cr_keeps : ∀ u l st, entry s u l st → entry s' u l st;
  cr_new : ∀ u l st, entry s' u l st → entry s u l st ∨
             (is_active st = true ∧ ss_resource st ∈ rs ∧ ss_type st = type_of (ss_resource st));
  cr_once : target <$> new = (λ r, Some (true, r)) <$> rs;
  cr_log : ∀ w, w ∈ new → ∃ r a, w = Posted href r a ∧ r ∈ rs;
  cr_each : ∀ r, r ∈ rs → ∃ a, Posted href r a ∈ new ∧
             (new_uri r a = None ∨ active_as s' r (type_of r)) ∧
             (new_uri r a ≠ None ∨ ∀ t, ¬ active_as s' r t);
}.

Lemma create_one (href : string) (type_of : string → string) (r : string) (rs : list string) (s : Mgr) :
  table_wf s → (∀ t, ¬ active_as s r t) → r ∉ rs → fresh_uris href (r :: rs) s →
  ∃ a out s', settle (subscribe href r (type_of r)) s = (inr out, s') ∧
    mg_log s' = mg_log s ++ [Posted href r a] ∧
    creates href type_of [r] s s' [Posted href r a] ∧ fresh_uris href rs s'.
Proof.
  intros W Hn Hr Hf. destruct (subscribe_run href r (type_of r) s Hn) as (out & s' & H1 & Hl & _ & Hout).
  set (a := http_post (mg_tick s) href (subscription_to r)) in *.
  exists a, out, s'. split; [done|]. split; [done|].
  assert (∀ w, w ∈ [Posted href r a] → ∃ r' b, w = Posted href r' b ∧ r' ∈ [r]) as Hlog.
  { intros w ->%list_elem_of_singleton. exists r, a. split; [done|left]. }
  destruct (new_uri r a) as [u0|] eqn:Eu.
  - destruct Hout as (_ & st & Hu & Hres & Hty & Hact & Hst).
    assert (ss_uri st ∉ dict_keys (mg_subs s)) as Hfresh.
    { rewrite Hu. eapply (fu_new _ _ _ Hf); [left|exact Eu]. }
    assert (∀ u l st', entry s' u l st' ↔ entry s u l st' ∨
              (u = ss_uri st ∧ l = length (mg_heap s) ∧ st' = st)) as He.
    { intros. rewrite <- add_state_entry by done. by apply same_table_entry. }
    assert (active_as s' r (type_of r)) as Ha.
    { exists u0, (length (mg_heap s)), st. split_and!; try done. apply He. right. naive_solver. }
    split; split; [| | |done|done| | |].
    + eapply same_table_wf; [done|]. apply add_state_wf; [done..|]. intros _ t. rewrite Hres. apply Hn.
    + intros. apply He. by left.
    + intros u l st' [?|(-> & -> & ->)]%He; [by left|]. right. rewrite Hres. split_and!; try done. left.
    + intros r' ->%list_elem_of_singleton. exists a. rewrite Eu. split; [left|]. split; [by right|by left].
    + intros n r' u Hr' Hu' [[u1 l] [-> Hin]]%list_elem_of_fmap. destruct Hst as [Hs _].
      rewrite Hs in Hin. apply dict_set_elem in Hin as [[= -> ->]|Hin].
      * apply Hr. rewrite (fu_apart _ _ _ Hf (mg_tick s) n r r' u0); [done|left|by right|done|].
        cbn in Hu'. by rewrite Hu in Hu'.
      * eapply (fu_new _ _ _ Hf); [right; exact Hr'|exact Hu'|]. apply list_elem_of_fmap. by exists (u1, l).
    + intros n m r1 r2 u Hr1 Hr2. apply (fu_apart _ _ _ Hf); by right.
  - destruct Hout as (_ & Hst).
    assert (∀ u l st', entry s' u l st' ↔ entry s u l st') as He by (intros; by apply same_table_entry).
    split; split; [by eapply same_table_wf|intros; by apply He|intros; left; by apply He|done|done| | |].
    + intros r' ->%list_elem_of_singleton. exists a. split; [left|]. split; [by left|right].
      intros t (u & l & st & ?%He & ?). apply (Hn t). by exists u, l, st.
    + intros n r' u Hr' Hu'. destruct Hst as [-> _]. eapply (fu_new _ _ _ Hf); [by right|done].
    + intros n m r1 r2 u Hr1 Hr2. apply (fu_apart _ _ _ Hf); by right.
Qed.

Lemma creates_cons (href : string) (type_of : string → string) (r : string) (rs : list string)
    (s s1 s2 : Mgr) (w : Wire) (new : list Wire) :
  r ∉ rs → creates href type_of [r] s s1 [w] → creates href type_of rs s1 s2 new →
  creates href type_of (r :: rs) s s2 (w :: new).
Proof.
  intros Hr [W1 Hk1 Hn1 Ho1 Hl1 He1] [W2 Hk2 Hn2 Ho2 Hl2 He2].
  split; [done|auto| |cbn in *; injection Ho1 as ->; by rewrite Ho2| |].
  - intros u l st [[He|(?&Hin&?)]%Hn1|(?&?&?)]%Hn2; [by left| |].
    + apply list_elem_of_singleton in Hin. rewrite elem_of_cons. auto.
    + right. rewrite elem_of_cons. auto.
  - intros x [->|Hx]%elem_of_cons.
    + destruct (Hl1 w) as (r' & a & -> & ->%list_elem_of_singleton); [left|].
      exists r, a. split; [done|left].
    + apply Hl2 in Hx as (r' & b & -> & ?). exists r', b. split; [done|by right].
  - intros r' [->|Hr']%elem_of_cons.
    + destruct (He1 r) as (a & <-%list_elem_of_singleton & Ha & Hb); [left|].
      exists a. split; [left|]. split.
      * destruct Ha as [?|(u & l & st & He & ?)]; [by left|right]. exists u, l, st. auto.
      * destruct Hb as [?|Hno]; [by left|right]. intros t (u & l & st & He & Hact & Hres & Hty).
        apply Hn2 in He as [He|(_ & Hin & _)]; [|congruence]. apply (Hno t). by exists u, l, st.
    + destruct (He2 r' Hr') as (b & Hb & ?). exists b. split; [by right|done].
Qed.

Lemma creates_run (href : string) (type_of : string → string) (rs : list string) (s : Mgr) :
  table_wf s → NoDup rs → (∀ r t, r ∈ rs → ¬ active_as s r t) → fresh_uris href rs s →
  ∃ outs s' new, gather rs (λ r, subscribe href r (type_of r)) s = (inr outs, s') ∧
    length outs = length rs ∧ mg_log s' = mg_log s ++ new ∧ creates href type_of rs s s' new.
Proof.
  revert s. induction rs as [|r rs IH]; intros s W Hnd Hn Hf.
  { exists [], s, []. rewrite app_nil_r. split_and!; [done..|].
    split; auto; intros ?; by rewrite elem_of_nil. }
  apply NoDup_cons in Hnd as [Hr Hnd].
  destruct (create_one href type_of r rs s) as (a & out & s1 & H1 & Hl1 & C1 & Hf1); try done.
  { intros t. apply Hn. left. }
  destruct (IH s1 (cr_wf _ _ _ _ _ _ C1) Hnd) as (outs & s2 & new & H2 & Hlen & Hl2 & C); [|done|].
  { intros r' t Hr' (u & l & st & He & Hact & Hrr & Hty).
    apply (cr_new _ _ _ _ _ _ C1) in He as [He|(_ & Hres%list_elem_of_singleton & _)]; [|congruence].
    apply (Hn r' t); [by right|]. by exists u, l, st. }
  exists (out :: outs), s2, (Posted href r a :: new). unfold gather in *. cbn. unfold bind at 1.
  rewrite H1. unfold bind at 1. rewrite H2. split_and!; [done|by f_equal| |by eapply creates_cons].
  by rewrite Hl2, Hl1, <- app_assoc.
Qed.

(** *** Reconciliation *)

Lemma bind_run {A B} (m : Comp SExn Mgr A) (f : A → Comp SExn Mgr B) (s s1 : Mgr) (a : A) :
  m s = (inr a, s1) → bind m f s = f a s1.
Proof. unfold bind. by intros ->. Qed.

Lemma fresh_uris_sub (href : string) (rs rs' : list string) (s s' : Mgr) :
  (∀ r, r ∈ rs' → r ∈ rs) → (∀ u, u ∈ dict_keys (mg_subs s') → u ∈ dict_keys (mg_subs s)) →
  fresh_uris href rs s → fresh_uris href rs' s'.
Proof.
  intros Hr Hk [Hn Ha]. split.
  - intros n r u H1 H2 H3%Hk. by eapply Hn; [apply Hr| |].
  - intros n m r r' u H1 H2. apply Ha; by apply Hr.
Qed.


(** What a reconciliation without renewals leaves behind. *)
Record reconciled (href : string) (desired : gset (string * string)) (s s' : Mgr) (new : list Wire)
    : Prop := {
  rc_wf : table_wf s';
  rc_log : mg_log s' = mg_log s ++ new;
  rc_only : ∀ r t, active_as s' r t → (r, t) ∈ desired;
  rc_keeps : ∀ u l st, entry s u l st → is_active st = true →
               (ss_resource st, ss_type st) ∈ desired → entry s' u l st;
  rc_posts : ∀ r t, (r, t) ∈ desired → ¬ active_as s r t →
               ∃ a, Posted href r a ∈ new ∧ (active_as s' r t ↔ new_uri r a ≠ None);
  (* no resource is posted and no subscription deleted a second time *)
  rc_once : NoDup (target <$> new);
  rc_deletes : ∀ u l st, entry s u l st → is_active st = true → ss_unmanaged st = false →
               (ss_resource st, ss_type st) ∉ desired → ∃ a, Deleted u a ∈ new;
  rc_wire : ∀ w, w ∈ new →
               (∃ r t a, w = Posted href r a ∧ (r, t) ∈ desired ∧ ¬ active_as s r t) ∨
               (∃ u l st a, w = Deleted u a ∧ entry s u l st ∧ is_active st = true ∧
                  ss_unmanaged st = false ∧ (ss_resource st, ss_type st) ∉ desired);
}.

Section Reconcile.
Context (s : Mgr) (W : table_wf s) (desired : gset (string * string)) (href : string)
  (Hfun : ∀ r t t', (r, t) ∈ desired → (r, t') ∈ desired → t = t')
  (Hfresh : fresh_uris href (elements desired).*1 s).

Definition cancel_uris : list string :=
  (λ r, ss_uri (object (loc_of (index s) r) (cleaned s))) <$> elements (cancel_resources s desired).

Lemma elem_of_cancel_uris u :
  u ∈ cancel_uris ↔
  ∃ l st, entry s u l st ∧ is_active st = true ∧ (ss_resource st, ss_type st) ∉ desired.
Proof using W Hfun.
  unfold cancel_uris. rewrite list_elem_of_fmap. split.
  - intros (r & -> & (u' & l & st & He & <- & Hn)%elem_of_elements%elem_of_cancel); [|done..].
    destruct (index_object s u' l st W He) as [-> ->].
    apply entry_cleaned in He as [He Ha]; [|done]. rewrite (entry_uri s u' l st W He). eauto.
  - intros (l & st & He & Ha & Hn). exists (ss_resource st).
    assert (entry (cleaned s) u l st) as Hc by by apply entry_cleaned.
    destruct (index_object s u l st W Hc) as [-> ->]. split; [by rewrite (entry_uri s u l st W He)|].
    apply elem_of_elements, elem_of_cancel; [done..|]. by exists u, l, st.
Qed.

Lemma cancel_uris_nodup : NoDup cancel_uris.
Proof using W Hfun.
  unfold cancel_uris. apply NoDup_fmap_2_strong; [|apply NoDup_elements].
  intros r r' Hr%elem_of_elements Hr'%elem_of_elements.
  apply elem_of_cancel in Hr as (u & l & st & He & <- & _), Hr' as (u' & l' & st' & He' & <- & _); [|done..].
  destruct (index_object s u l st W He) as [-> ->], (index_object s u' l' st' W He') as [-> ->].
  apply entry_cleaned in He as [He _], He' as [He' _]; [|done..].
  rewrite (entry_uri s u l st W He), (entry_uri s u' l' st' W He'). intros <-.
  by destruct (entry_fun s u l l' st st') as [_ <-].
Qed.

(** The table once the stale subscriptions are gone. *)
Lemma entry_after_cancel s2 u l st :
  same_table (cleaned s) s2 →
  entry (pops cancel_uris s2) u l st ↔
  entry s u l st ∧ is_active st = true ∧ (ss_resource st, ss_type st) ∈ desired.
Proof using W Hfun.
  intros Ht. rewrite entry_pops, (same_table_entry (cleaned s) s2) by done.
  rewrite entry_cleaned by done. rewrite elem_of_cancel_uris. split.
  - intros [[He Ha] Hn]. split_and!; try done.
    destruct (decide ((ss_resource st, ss_type st) ∈ desired)); [done|]. destruct Hn. eauto.
  - intros (He & Ha & Hd). split; [done|]. intros (l' & st' & He' & _ & Hn).
    by destruct (entry_fun s u l l' st st') as [_ <-].
Qed.

Lemma after_cancel_wf s2 : same_table (cleaned s) s2 → table_wf (pops cancel_uris s2).
Proof using W. intros Ht. by apply pops_wf, (same_table_wf (cleaned s)), pops_wf. Qed.

Lemma none_active_of_created s2 r t :
  same_table (cleaned s) s2 → r ∈ create_resources s desired → ¬ active_as (pops cancel_uris s2) r t.
Proof using W Hfun.
  intros Ht (t' & Hd & Hn)%elem_of_create; [|done..].
  intros (u & l & st & (He & Ha & Hd')%entry_after_cancel & _ & <- & <-); [|done].
  apply Hn. rewrite (Hfun _ _ _ Hd Hd'). by exists u, l, st.
Qed.

Lemma managed_entry u l st :
  entry s u l st → is_active st = true → managed (cleaned s) u ↔ ss_unmanaged st = false.
Proof using W.
  intros He Ha. unfold managed.
  assert (sub_get u (cleaned s) = Some (l, st)) as ->; [|done].
  apply sub_get_entry; [by apply pops_wf|]. by apply entry_cleaned.
Qed.

Lemma reconcile_steps :
  ∃ rs s2 dels outs s4 posts,
    reconcile href desired false s =
      (inr (mkResult (size (kept_resources s desired)) (length cancel_uris)
              (length outs - count_failed (subscribed <$> outs)) 0
              (count_failed (ok_result id <$> rs)) (count_failed (subscribed <$> outs))), s4) ∧
    length outs = size (create_resources s desired) ∧
    same_table (cleaned s) s2 ∧ mg_log s4 = mg_log s ++ dels ++ posts ∧
    (∀ w, w ∈ dels → ∃ u a, w = Deleted u a ∧ u ∈ cancel_uris ∧ managed (cleaned s) u) ∧
    (∀ u, u ∈ cancel_uris → managed (cleaned s) u → ∃ a, Deleted u a ∈ dels) ∧
    (target <$> dels) `sublist_of` ((λ u, Some (false, u)) <$> cancel_uris) ∧
    creates href (λ r, default "" (dict_get r (wanted_types desired)))
      (elements (create_resources s desired)) (pops cancel_uris s2) s4 posts.
Proof using Hcalm W Hfun Hfresh.
  destruct (cancels_run cancel_uris (cleaned s))
    as (rs & s2 & dels & H2 & Ht2 & Hlen2 & Hl2 & Hin & Hall & Hsub).
  destruct (creates_run href (λ r, default "" (dict_get r (wanted_types desired)))
              (elements (create_resources s desired)) (pops cancel_uris s2))
    as (outs & s4 & posts & H4 & Hlen4 & Hl4 & C).
  { by apply after_cancel_wf. }
  { apply NoDup_elements. }
  { intros r t Hr%elem_of_elements. by apply none_active_of_created. }
  { eapply fresh_uris_sub; [| |exact Hfresh].
    - intros r (t & Hd & _)%elem_of_elements%elem_of_create; [|done..].
      apply list_elem_of_fmap. exists (r, t). by rewrite elem_of_elements.
    - intros u Hu%keys_pops. destruct Ht2 as [Hs _]. rewrite Hs in Hu. by apply keys_pops in Hu. }
  exists rs, s2, dels, outs, s4, posts. split; [|split_and!; try done].
  - unfold reconcile. rewrite (bind_run _ _ s s (states s)) by done.
    rewrite (bind_run _ _ _ _ _ (old_by_resource_run (states s) [] s)).
    fold (index s) (cleaned s). cbv zeta. unfold bind at 1 2, get at 1 2.
    fold (wanted_types desired). fold (old_resources s) (desired_resources desired).
    fold (kept_resources s desired). fold (changed_resources s desired).
    fold (cancel_resources s desired) (create_resources s desired). fold cancel_uris.
    rewrite (bind_run _ _ _ _ _ H2), (bind_run _ _ _ _ _ (pop_each cancel_uris s2)).
    unfold bind at 1, ret at 1. rewrite list_to_set_nil, (union_empty_r_L (create_resources s desired)).
    rewrite (bind_run _ _ _ _ _ H4). unfold ret. cbn [length]. rewrite length_fmap, Nat.sub_0_r, Nat.add_0_r.
    fold subscribed. by rewrite Hlen4.
  - rewrite Hl4. change (mg_log (pops cancel_uris s2)) with (mg_log s2).
    rewrite Hl2, <- app_assoc. done.
Qed.

Lemma reconcile_run :
  ∃ res s' new, reconcile href desired false s = (inr res, s') ∧ reconciled href desired s s' new ∧
    (kept res + created res + create_errors res = size (set_map fst desired : gset string))%nat.
Proof using Hcalm W Hfun Hfresh.
  destruct reconcile_steps as (rs & s2 & dels & outs & s4 & posts & Hrun & Hlen & Ht & Hl & Hin & Hall & Hsub & C).
  pose proof (λ u l st, entry_after_cancel s2 u l st Ht) as He3.
  assert (∀ r t, (r, t) ∈ desired → default "" (dict_get r (wanted_types desired)) = t) as Hty.
  { intros r t Hd. by rewrite (proj2 (wanted_get desired Hfun r t)). }
  do 2 eexists. exists (dels ++ posts). split; [exact Hrun|]. split.
  - split; [apply C|done| | | | | |].
    + intros r t (u & l & st & He & Ha & <- & <-).
      apply (cr_new _ _ _ _ _ _ C) in He as [(_ & _ & Hd)%He3|(_ & Hr & Ht')]; [done|].
      apply elem_of_elements, elem_of_create in Hr as (t & Hd & _); [|done..].
      rewrite Ht'. by rewrite (Hty _ t).
    + intros u l st He Ha Hd. by apply (cr_keeps _ _ _ _ _ _ C), He3.
    + intros r t Hd Hn. destruct (cr_each _ _ _ _ _ _ C r) as (a & Hp & H1 & H2).
      { apply elem_of_elements, elem_of_create; eauto. }
      exists a. rewrite (Hty r t Hd) in H1. split; [set_solver|]. split.
      * intros Hact. destruct H2 as [?|Hno]; [done|]. by destruct (Hno t).
      * intros Hu. by destruct H1.
    + rewrite fmap_app, (cr_once _ _ _ _ _ _ C). apply NoDup_app. split_and!.
      * eapply sublist_NoDup, Hsub. apply NoDup_fmap_2; [by intros ? ? [=]|apply cancel_uris_nodup].
      * intros x Hx (r & -> & _)%list_elem_of_fmap. eapply elem_of_sublist in Hx; [|exact Hsub].
        apply list_elem_of_fmap in Hx as (u & ? & _). congruence.
      * apply NoDup_fmap_2; [by intros ? ? [=]|apply NoDup_elements].
    + intros u l st He Ha Hm Hn. destruct (Hall u) as [a Ha'].
      * apply elem_of_cancel_uris. eauto.
      * by eapply managed_entry.
      * exists a. set_solver.
    + intros w [Hw|Hw]%elem_of_app.
      * right. apply Hin in Hw as (u & a & -> & (l & st & He & Ha & Hn)%elem_of_cancel_uris & Hm).
        exists u, l, st, a. split_and!; try done. by eapply managed_entry.
      * left. apply (cr_log _ _ _ _ _ _ C) in Hw as (r & a & -> & Hr).
        apply elem_of_elements, elem_of_create in Hr as (t & Hd & Hn); [|done..]. by exists r, t, a.
  - cbn. rewrite <- (partition_size s W desired Hfun), <- Hlen.
    assert (count_failed (subscribed <$> outs) ≤ length outs)%nat; [|lia].
    unfold count_failed. etrans; [apply length_filter|]. by rewrite length_fmap.
Qed.
End Reconcile.
End Calm.

(** C18: reconciling the subscriptions with what discovery wants without
    renewing those kept ([renew_kept=False], as rediscovery calls it),
    undisturbed by other tasks, on a well-formed table, with one type wanted
    per resource and a server that gives new subscriptions new URIs, one per
    resource: nothing but wanted subscriptions is active afterwards; those
    that were active already are left alone, object and URI, with no request;
    every other wanted one is POSTed exactly once, and is active exactly if
    the server accepted it; every active one that is not wanted (or changed
    its type) is DELETEd exactly once if the server knows it; there is no
    other request; the counts add up; and the table is well-formed again. *)
Theorem reconcile_reaches_desired (E : SubEnv) (href : string) (desired : gset (string * string))
    (s : Mgr) :
  (∀ n x, meanwhile n x = x) → table_wf s →
  (∀ r t t', (r, t) ∈ desired → (r, t') ∈ desired → t = t') →
  fresh_uris href (elements desired).*1 s →
  ∃ res s' new, reconcile href desired false s = (inr res, s') ∧ reconciled href desired s s' new ∧
    (kept res + created res + create_errors res = size (set_map fst desired : gset string))%nat.
Proof. intros Hcalm W Hfun Hfresh. by apply reconcile_run. Qed.

(** ** Sample surroundings *)

Definition sub_env (time : nat → Z) (others : nat → Mgr → Mgr) (served : list ServerSub) : SubEnv :=
  {| notification_uri := "https://client/notify"; missing_location_fallback := false;
     renewal_put := false; has_lost_callback := true;
     http_post := λ _ _ sub, HOk (Some ("/new" +:+ sub_resource sub));
     http_put := λ _ _ _, HOk tt; http_delete := λ _ _, HOk tt; http_list := λ _ _, HOk [served];
     time_ms := time; shutdown_set := λ _, false; meanwhile := others |}.

Definition sample_sub (uri resource type : string) (created : Z) : SubscriptionState :=
  mkSub uri resource "https://client/notify" type "active" created (endswith "List" type) false
    (Some "/edev/1/sub").

Definition two_subs : Mgr :=
  add_state (sample_sub "/sub/2" "/derp" "DERProgramList" 0)
    (add_state (sample_sub "/sub/1" "/fsa" "FSAList" 0) new_mgr).

Lemma table_wf_new : table_wf new_mgr.
Proof.
  split.
  - constructor.
  - intros u l H. by apply elem_of_nil in H.
  - intros u u' l l' st st' [H _]. by apply elem_of_nil in H.
Qed.

Lemma two_subs_wf : table_wf two_subs.
Proof.
  assert (table_wf (add_state (sample_sub "/sub/1" "/fsa" "FSAList" 0) new_mgr)) as W.
  { apply add_state_wf; [apply table_wf_new|apply not_elem_of_nil|].
    intros _ t (u & l & st & [H _] & _). by apply elem_of_nil in H. }
  apply add_state_wf; [done|by intros H%dict_mem_spec|].
  intros _ t (u & l & st & He & _ & Hr & _).
  apply add_state_entry in He as [[H _]|(_ & _ & ->)]; [by apply elem_of_nil in H|done|apply table_wf_new|].
  apply not_elem_of_nil.
Qed.

Lemma reconcile_reaches_desired_witness :
  let E := sub_env (λ _, 0) (λ _ s, s) [] in
  let desired : gset (string * string) := {[("/fsa", "FSAList"); ("/derc", "DERControlList")]} in
  ∃ res s' new, @reconcile E "/edev/1/sub" desired false two_subs = (inr res, s') ∧
    @reconciled E "/edev/1/sub" desired two_subs s' new ∧
    (kept res + created res + create_errors res = size (set_map fst desired : gset string))%nat.
Proof.
  intros E desired. apply (reconcile_reaches_desired E "/edev/1/sub" desired two_subs).
  - done.
  - apply two_subs_wf.
  - intros r t t'. unfold desired. rewrite !elem_of_union, !elem_of_singleton. naive_solver.
  - split.
    + by intros n r u _ [= <-] H%dict_mem_spec.
    + intros n m r r' u _ _ [= <-] [= H]. by symmetry.
Defined.

(** ** Checkpoint *)

Definition forget_list (st : SubscriptionState) : SubscriptionState :=
  mkSub (ss_uri st) (ss_resource st) (ss_notification_uri st) (ss_type st) (ss_status st)
    (ss_created st) false (ss_unmanaged st) (ss_list_href st).

(** The table holds no dangling reference. *)
Definition located (s : Mgr) : Prop := ∀ u l, dict_get u (mg_subs s) = Some l → (l < length (mg_heap s))%nat.

Lemma sub_get_add st s u :
  located s → snd <$> sub_get u (add_state st s) =
              if decide (u = ss_uri st) then Some st else snd <$> sub_get u s.
Proof.
  intros Hv. unfold sub_get. cbn. rewrite dict_get_set. case_decide; cbn.
  - by rewrite lookup_app_r, Nat.sub_diag by lia.
  - destruct (dict_get u (mg_subs s)) as [l|] eqn:El; [|done]. cbn.
    by rewrite lookup_app_l by by apply Hv in El.
Qed.

Lemma located_add st s : located s → located (add_state st s).
Proof.
  intros Hv u l. cbn. rewrite dict_get_set, length_app. cbn.
  case_decide; [intros [= <-]; lia|]. intros ?%Hv. lia.
Qed.

Lemma restore_fold (l : list CheckpointEntry) (s : Mgr) :
  located s → NoDup (ce_uri <$> l) → (∀ e, e ∈ l → ce_uri e ∉ dict_keys (mg_subs s)) →
  let s' := foldl (λ s e, add_state (restored e) s) s l in
  dict_keys (mg_subs s') = dict_keys (mg_subs s) ++ (ce_uri <$> l) ∧
  (∀ e, e ∈ l → snd <$> sub_get (ce_uri e) s' = Some (restored e)) ∧
  (∀ u, u ∉ ce_uri <$> l → snd <$> sub_get u s' = snd <$> sub_get u s).
Proof.
  revert s. induction l as [|e l IH]; intros s Hv Hnd Hf; cbn.
  { rewrite app_nil_r. split_and!; [done| |done]. intros e. by rewrite elem_of_nil. }
  apply NoDup_cons in Hnd as [He Hnd].
  destruct (IH (add_state (restored e) s)) as (Hk & Hin & Hout); [by apply located_add|done| |].
  { intros e' He' [Hu|Hin]%elem_of_dict_set_keys.
    - apply He. change (ce_uri e' = ce_uri e) in Hu. rewrite <- Hu. by apply list_elem_of_fmap_2.
    - by apply (Hf e'); [right|]. }
  split_and!.
  - rewrite Hk. cbn. rewrite dict_set_new by (apply Hf; left). unfold dict_keys.
    by rewrite fmap_app, <- app_assoc.
  - intros e' [->|He']%elem_of_cons; [|by apply Hin].
    rewrite Hout by done. rewrite sub_get_add by done. by rewrite decide_True.
  - intros u [Hne Hu]%not_elem_of_cons. rewrite Hout by done. rewrite sub_get_add by done.
    by rewrite decide_False.
Qed.

(** The states of a well-formed table are those of its entries, in order. *)
Lemma states_uris (s : Mgr) : table_wf s → ss_uri <$> (states s).*2 = dict_keys (mg_subs s).
Proof.
  intros [_ Ho _]. unfold states, dict_keys. revert Ho. generalize (mg_subs s) as d.
  induction d as [|[u l] d IH]; intros Ho; [done|]. cbn.
  destruct (Ho u l) as (st & -> & Hu); [left|]. cbn. f_equal; [done|]. apply IH.
  intros u' l' H. apply Ho. by right.
Qed.

Lemma checkpoint_uris (s : Mgr) : table_wf s → ce_uri <$> to_checkpoint s = dict_keys (mg_subs s).
Proof.
  intros W. rewrite <- states_uris by done. unfold to_checkpoint. rewrite <- !list_fmap_compose.
  by apply list_fmap_ext.
Qed.


(** What a checkpoint keeps of each subscription. *)
Lemma restored_tables (s s0 : Mgr) (uri : string) :
  table_wf s →
  let s' := restore_from_checkpoint (Some (to_checkpoint s)) s0 in
  dict_keys (mg_subs s') = dict_keys (mg_subs s) ∧
  snd <$> sub_get uri s' = forget_list ∘ snd <$> sub_get uri s.
Proof.
  intros W s'.
  destruct (restore_fold (to_checkpoint s) (set_subs (λ _, []) s0)) as (Hk & Hin & Hout).
  - intros u l H. by apply dict_get_elem, elem_of_nil in H.
  - rewrite checkpoint_uris by done. apply (tw_keys _ W).
  - intros e _. apply not_elem_of_nil.
  - change (foldl _ _ _) with s' in Hk, Hin, Hout.
    split; [by rewrite Hk, checkpoint_uris by done|].
    destruct (sub_get uri s) as [[l st]|] eqn:Eg; cbn.
    + pose proof (proj1 (sub_get_entry s uri l st W) Eg) as He.
      assert ((l, st) ∈ states s) as Hs by (apply elem_of_states; eauto).
      specialize (Hin (checkpointed st)). cbn in Hin. rewrite (entry_uri s uri l st W He) in Hin.
      apply Hin, list_elem_of_fmap_2. apply (list_elem_of_fmap_2 snd) in Hs. exact Hs.
    + rewrite Hout; [done|]. rewrite checkpoint_uris by done.
      intros ([u l] & -> & Hu)%list_elem_of_fmap. destruct (tw_own _ W u l Hu) as (st & Hl & _).
      assert (sub_get u s = Some (l, st)) as H by by apply sub_get_entry.
      cbn in Eg. congruence.
Qed.

(** A restart does not lose the subscriptions, but it loses what kind they
    are.  The checkpoint of a well-formed table restores the same URIs in the
    same order, and every field of every subscription except one: all come back
    as subscriptions of single resources, because [to_checkpoint] leaves
    [is_list_subscription] out.  So a notification about a member of a
    subscribed list, acted upon before, is ignored after a restart. *)
Theorem checkpoint_roundtrip (s s0 : Mgr) (uri member : string) (st : SubscriptionState) :
  table_wf s → snd <$> sub_get uri s = Some st →
  let s' := restore_from_checkpoint (Some (to_checkpoint s)) s0 in
  dict_keys (mg_subs s') = dict_keys (mg_subs s) ∧
  snd <$> sub_get uri s' = Some (forget_list st) ∧
  (ss_list st = true → member ≠ ss_resource st →
   should_process_notification uri member s = true ∧
   should_process_notification uri member s' = false).
Proof.
  intros W Hs s'. destruct (restored_tables s s0 uri W) as [Hk Hg]. fold s' in Hk, Hg.
  split; [done|]. rewrite Hg. unfold should_process_notification.
  destruct (sub_get uri s) as [[l st']|]; [|done]. injection Hs as ->. split; [done|].
  intros Hl Hm. rewrite Hl. split; [done|].
  destruct (sub_get uri s') as [[l' st'']|]; [|done]. injection Hg as ->. cbn. by apply String.eqb_neq.
Qed.

Lemma checkpoint_roundtrip_witness :
  should_process_notification "/sub/1" "/fsa/3" two_subs = true ∧
  should_process_notification "/sub/1" "/fsa/3"
    (restore_from_checkpoint (Some (to_checkpoint two_subs)) new_mgr) = false.
Proof.
  apply (checkpoint_roundtrip two_subs new_mgr "/sub/1" "/fsa/3" (sample_sub "/sub/1" "/fsa" "FSAList" 0)
           two_subs_wf); done.
Defined.

(** ** Unintended behaviour *)

(** Adopting the server's URIs loses subscriptions when the server has
    renumbered them.  Two subscriptions are active, at /sub/1 and /sub/2; the
    server lists both, now at /sub/2 and /sub/3.  The first is moved over the
    entry of the second, and moving the second then removes the first from the
    table: nothing tracks it any more, although the server still holds it. *)
Theorem renumbering_loses_subscriptions :
  let served := [{| sv_resource := "/fsa"; sv_href := Some "/sub/2" |};
                 {| sv_resource := "/derp"; sv_href := Some "/sub/3" |}] in
  let after := (@reconcile_with_server (sub_env (λ _, 0) (λ _ s, s) served) "/edev/1/sub" true two_subs) in
  (λ ls, (ss_resource ls.2, ss_uri ls.2)) <$> active_subscriptions two_subs =
    [("/fsa", "/sub/1"); ("/derp", "/sub/2")] ∧
  after.1 = inr 0%nat ∧
  (λ ls, (ss_resource ls.2, ss_uri ls.2)) <$> active_subscriptions after.2 = [("/derp", "/sub/3")].
Proof. vm_compute. auto. Qed.

(** The renewal task with its default interval, woken every day; at its first
    wait another task subscribes, an hour after the start. *)
Definition day_ms : Z := 86400 * 1000.
Definition subscribes_late (n : nat) (s : Mgr) : Mgr :=
  match n with
  | 0%nat => add_state (sample_sub "/sub/9" "/derc" "DERControlList" (3600 * 1000)) s
  | _ => s
  end.
Definition days_env : SubEnv := sub_env (λ n, Z.of_nat n * day_ms) subscribes_late [].

(** A subscription can expire before it is renewed.  The renewal task looks
    at the ages only once per interval, so one made an hour after it began its
    wait is found 23 hours old, left alone, and renewed first when it is 47
    hours old; the server's subscriptions expire after 36. *)
Theorem subscription_expires_before_renewal :
  mg_log (@renewal_task days_env 1 day_ms new_mgr).2 = [] ∧
  mg_log (@renewal_task days_env 2 day_ms new_mgr).2 =
    [Posted "/edev/1/sub" "/derc" (HOk (Some "/new/derc"))] ∧
  (ss_created ∘ snd <$> active_subscriptions (@renewal_task days_env 1 day_ms new_mgr).2) = [3600 * 1000] ∧
  36 * 3600 * 1000 < @time_ms days_env 2 - 3600 * 1000.
Proof. vm_compute. auto. Qed.
