(* ===== verification/Notifications.v ===== *)
(** * Notifications: how the client keeps its subscriptions and acts on them

    client/csip_client.py, the part between the server's notifications, the
    table of subscriptions ([Subscriptions]) and the poll scheduler
    ([Polling]): which subscriptions are wanted, which polls they suppress,
    what a notification leads to, how rediscoveries are coalesced, and the
    subscription part of a rediscovery. *)

From S2P Require Import Prelude Polling Subscriptions SubscriptionProps.

(** ** Which resources are subscribed, and which polls that covers *)

Definition RESOURCE_TYPE_TO_POLL_KEY : dict string string :=
  [("EndDeviceList", "edev"); ("FSAList", "fsa"); ("DERProgramList", "derp");
   ("DERControlList", "derp"); ("DefaultDERControl", "derp"); ("TariffProfileList", "tariff");
   ("TimeTariffIntervalList", "tariff")].

Definition STRUCTURAL_RESOURCE_TYPES : list string := ["EndDeviceList"; "FSAList"].
Definition CONTROL_RESOURCE_TYPES : list string := ["DERControlList"; "DefaultDERControl"].
Definition TARIFF_RESOURCE_TYPES : list string := ["TariffProfileList"; "TimeTariffIntervalList"].

(** What discovery found, as far as subscriptions go.  An href is [None] when
    the link is absent or empty. *)
Record EdevView := {
  ev_fsa_list : option string;
  ev_fsa_list_subscribable : bool;
  ev_derp_list_subscribable : bool;
  ev_fsa_derp_lists : list (option string);
  ev_sub_list : option string;
}.
Record ProgramView := {
  pv_derc_list : option string;
  pv_derc_list_subscribable : bool;
  pv_dderc : option string;
  pv_dderc_subscribable : bool;
}.
Record RateView := { rv_tti_list : option string; rv_tti_list_subscribable : bool }.
Record Topology := {
  tp_edev_list : option string;
  tp_edevs : list EdevView;
  tp_programs : list ProgramView;
  tp_pricing : bool;
  tp_rates : list RateView;
}.

(** [if href and subscribable: desired.add((href, type))] *)
Definition want (href : option string) (subscribable : bool) (type : string) : list (string * string) :=
  match href with
  | Some h => if subscribable then [(h, type)] else []
  | None => []
  end.

Definition want_of_edev (v : EdevView) : list (string * string) :=
  want (ev_fsa_list v) (ev_fsa_list_subscribable v) "FSAList" ++
  (if ev_derp_list_subscribable v
   then mjoin ((λ h, want h true "DERProgramList") <$> ev_fsa_derp_lists v) else []).

Definition want_of_program (v : ProgramView) : list (string * string) :=
  want (pv_derc_list v) (pv_derc_list_subscribable v) "DERControlList" ++
  want (pv_dderc v) (pv_dderc_subscribable v) "DefaultDERControl".

Definition compute_desired_subscriptions (t : Topology) : gset (string * string) :=
  list_to_set
    (want (tp_edev_list t) true "EndDeviceList" ++
     mjoin (want_of_edev <$> tp_edevs t) ++
     mjoin (want_of_program <$> tp_programs t) ++
     (if tp_pricing t
      then mjoin ((λ v, want (rv_tti_list v) (rv_tti_list_subscribable v) "TimeTariffIntervalList")
                    <$> tp_rates t)
      else [])).

Definition find_agg_sub_href (t : Topology) : option string := head (omap ev_sub_list (tp_edevs t)).

Definition subscribed_fsa_hrefs (m : Mgr) : gset string :=
  list_to_set (ss_resource ∘ snd <$> filter (λ ls, ss_type ls.2 = "FSAList") (active_subscriptions m)).

(** The keys whose polls the subscriptions cover. *)
Definition active_poll_keys (t : Topology) (m : Mgr) : gset string :=
  let covered : gset string :=
    list_to_set (omap (λ rt, dict_get rt RESOURCE_TYPE_TO_POLL_KEY) (elements (subscribed_resource_types m))) in
  let all_fsa : gset string := list_to_set (omap ev_fsa_list (tp_edevs t)) in
  (if decide (all_fsa ∖ subscribed_fsa_hrefs m = ∅) then covered else covered ∖ {["fsa"]}) ∖ {["tariff"]}.

Definition update_poll_suppression (t : Topology) (m : Mgr) (sch : Sched) : Sched :=
  let keys := active_poll_keys t m in
  let sch := foldl (λ sch k, suppress k sch) sch (elements keys) in
  foldl (λ sch k, if decide (k ∈ keys) then sch else unsuppress k sch) sch
    (dict_values RESOURCE_TYPE_TO_POLL_KEY).

(** ** Classification *)

Definition is_structural_resource (path : string) : bool :=
  let parts := segments (rstrip path) in
  let has_control := bool_decide ("derc" ∈ parts ∨ "dderc" ∈ parts) in
  let has_program := bool_decide ("derp" ∈ parts) in
  match list_find (eq "edev") parts with
  | Some (i, _) =>
      bool_decide (length parts - i ≤ 2)%nat ||
      (bool_decide ("fsa" ∈ parts) && negb has_program && negb has_control)
  | None => bool_decide ("fsa" ∈ parts) && negb has_program && negb has_control
  end.

Definition is_control_resource (path : string) : bool :=
  endswith "/derc" (rstrip path) || endswith "/dderc" (rstrip path).
Definition is_tariff_resource (path : string) : bool :=
  endswith "/tti" (rstrip path) || endswith "/tp" (rstrip path).

(** By the type of the subscription when it is known, else by the path. *)
Definition classified (types : list string) (by_path : string → bool) (path : string)
    (type : option string) : bool :=
  match type with Some t => bool_decide (t ∈ types) | None => by_path path end.
Definition is_structural := classified STRUCTURAL_RESOURCE_TYPES is_structural_resource.
Definition is_control := classified CONTROL_RESOURCE_TYPES is_control_resource.
Definition is_tariff := classified TARIFF_RESOURCE_TYPES is_tariff_resource.

(** ** State of the client *)

Inductive ClientAction :=
  | Rediscovers                          (* trigger_rediscovery, from its first pass *)
  | StructuralChange                     (* the on_structural_change callback *)
  | DeviceRemoved (path : string)        (* the on_device_removed callback *)
  | PollsTariffs
  | FetchesControls (path : string)      (* the targeted fetch *)
  | PollsPrograms.

Record Client := mkClient {
  cl_mgr : Mgr;
  cl_sched : Sched;
  cl_locked : bool;                      (* _rediscovery_lock *)
  cl_pending : bool;                     (* _rediscovery_pending *)
  cl_topology : Topology;
  cl_log : list ClientAction;
}.

Definition on_mgr (f : Mgr → Mgr) (c : Client) : Client :=
  mkClient (f (cl_mgr c)) (cl_sched c) (cl_locked c) (cl_pending c) (cl_topology c) (cl_log c).
Definition on_sched (f : Sched → Sched) (c : Client) : Client :=
  mkClient (cl_mgr c) (f (cl_sched c)) (cl_locked c) (cl_pending c) (cl_topology c) (cl_log c).
Definition set_pending (b : bool) (c : Client) : Client :=
  mkClient (cl_mgr c) (cl_sched c) (cl_locked c) b (cl_topology c) (cl_log c).
Definition set_locked (b : bool) (c : Client) : Client :=
  mkClient (cl_mgr c) (cl_sched c) b (cl_pending c) (cl_topology c) (cl_log c).
Definition did (a : ClientAction) (c : Client) : Client :=
  mkClient (cl_mgr c) (cl_sched c) (cl_locked c) (cl_pending c) (cl_topology c) (cl_log c ++ [a]).
Definition resuppress (c : Client) : Client :=
  mkClient (cl_mgr c) (update_poll_suppression (cl_topology c) (cl_mgr c) (cl_sched c)) (cl_locked c)
    (cl_pending c) (cl_topology c) (cl_log c).

Record Notification := {
  nt_resource : string;
  nt_uri : string;
  nt_status : Z;
  nt_new_resource : option string;
}.

(** ** Rediscovery *)

Inductive Ended := Returned (ok : bool) | CancelledError.

Definition MAX_REDISCOVERY_PASSES : nat := 5.

Section Rediscovery.
(** One pass: whether it succeeded, and what it leaves; notifications handled
    meanwhile may set the pending flag. *)
Context (pass : nat → Client → bool * Client).

(** [n] passes are done, [left] more may follow the one that starts now. *)
Fixpoint rediscovery_loop (n left : nat) (c : Client) : bool * Client :=
  let (ok, c') := pass n (set_pending false c) in
  if negb ok then (false, c')
  else if negb (cl_pending c') then (true, c')
  else match left with
       | O => (true, set_pending false c')
       | S left' => rediscovery_loop (S n) left' c'
       end.

(** The task is one of the scheduler's polls. *)
Definition polls_in (tid : nat) (s : Sched) : bool := bool_decide (tid ∈ (map_to_list (sc_current s)).*2).

(** [caller] is the task that calls.  The first thing a pass does is to cancel
    the polls and wait for them, and a task that cancels itself is cancelled at
    its next await: a poll that gets here goes no further. *)
Definition trigger_rediscovery (caller : option nat) (c : Client) : Ended * Client :=
  if cl_locked c then (Returned false, set_pending true c)
  else if from_option (λ tid, polls_in tid (cl_sched c)) false caller then
    (CancelledError, on_sched cancel_signal (set_pending false c))
  else
    let (ok, c') := rediscovery_loop 0 (MAX_REDISCOVERY_PASSES - 1) (set_locked true c) in
    (Returned ok, set_locked false c').
End Rediscovery.

(** ** Handling a notification *)

Section Handle.
(** Whether the callbacks are there, the size of the notification store, and
    whether a targeted fetch succeeds. *)
Context (structural_callback removed_callback : bool) (max_notifications : nat)
  (targeted_fetch : string → bool).

(** Up to the first pass of the rediscovery it starts. *)
Definition structural_change (c : Client) : Client :=
  if structural_callback then did StructuralChange c
  else if cl_locked c then set_pending true c
  else did Rediscovers c.

Definition route_default_notification (now : Z) (path : string) (type : option string) (c : Client)
    : Client :=
  if is_structural path type then structural_change c
  else if cl_locked c then c
  else if is_tariff path type then did PollsTariffs c
  else if is_control path type then
    let c := did (FetchesControls path) (on_mgr (record_notification_ancestry now path) c) in
    if targeted_fetch path then c else did PollsPrograms c
  else did PollsPrograms c.

Definition handle_resource_deleted (path : string) (c : Client) : Client :=
  match segments (rstrip path) with
  | ["edev"; _] => if removed_callback then did (DeviceRemoved path) c else c
  | _ => structural_change c
  end.

Definition stored (now : Z) (n : Notification) (new_resource : option string) : StoredNotification :=
  {| sn_resource := nt_resource n; sn_status := nt_status n; sn_uri := nt_uri n; sn_created := now;
     sn_new_resource := new_resource |}.

Definition handle_status (now : Z) (n : Notification) (type : option string) (c : Client) : Client :=
  let path := nt_resource n in
  if nt_status n =? 0 then
    route_default_notification now path type
      (on_mgr (record_notification max_notifications (stored now n None)) c)
  else if nt_status n =? 1 then
    resuppress (on_mgr (suppress_resubscribe path)
                  (on_mgr (remove_notifications_for path) (on_mgr (mark_cancelled (nt_uri n)) c)))
  else if nt_status n =? 2 then
    let c := resuppress (on_mgr (mark_cancelled (nt_uri n)) c) in
    let c := match nt_new_resource n with
             | Some (String _ _ as uri) =>
                 on_mgr (record_notification max_notifications (stored now n (Some uri))) c
             | _ => c
             end in
    structural_change c
  else if nt_status n =? 3 then resuppress (on_mgr (mark_cancelled (nt_uri n)) c)
  else if nt_status n =? 4 then
    handle_resource_deleted path (resuppress (on_mgr (mark_cancelled (nt_uri n)) c))
  else c.

Definition handle_notification (now : Z) (n : Notification) (c : Client) : Client :=
  let type := resource_type_for (nt_uri n) (cl_mgr c) in
  let path := nt_resource n in
  let '(duplicate, c) :=
    if (nt_status n =? 0) && negb (is_control path type) then
      let (d, m) := is_duplicate_notification now path (cl_mgr c) in (d, on_mgr (λ _, m) c)
    else (false, c) in
  if (duplicate : bool) then
    if is_structural path type && cl_locked c then set_pending true c else c
  else if negb (should_process_notification (nt_uri n) path (cl_mgr c)) then c
  else handle_status now n type c.
End Handle.

(** ** The subscription part of a rediscovery *)

Section Resubscribe.
Context {E : SubEnv}.

Definition auto_subscribe (t : Topology) : SM unit :=
  match find_agg_sub_href t with
  | None => ret tt
  | Some href =>
      for_each (elements (compute_desired_subscriptions t)) (λ rt,
        skip <- get (resubscribe_suppressed rt.1) ;;
        if (skip : bool) then ret tt else subscribe href rt.1 rt.2 ;;; ret tt)
  end.

(** The reconciliation with the topology just discovered ([t]), then, after the
    programs have been fetched again ([t']), [_auto_subscribe]. *)
Definition resubscribe (t t' : Topology) : SM unit :=
  let desired := compute_desired_subscriptions t in
  match find_agg_sub_href t with
  | Some href =>
      if decide (desired = ∅) then cancel_all
      else reconcile href desired false ;;; reconcile_with_server href false ;;; ret tt
  | None => cancel_all
  end ;;;
  auto_subscribe t'.
End Resubscribe.
