(* ===== verification/NotificationProps.v ===== *)
(** * NotificationProps: what becomes of a notification

    About [Notifications]: rediscoveries are bounded and miss no notification,
    and how far a cancellation by the server is honoured. *)

From S2P Require Import Prelude Polling Subscriptions SubscriptionProps Notifications.

(** ** Coalesced rediscoveries *)

(** The states in which the passes of a loop end, in order. *)
Fixpoint pass_ends (pass : nat → Client → bool * Client) (n left : nat) (c : Client)
    : list (bool * Client) :=
  let r := pass n (set_pending false c) in
  r :: (if r.1 && cl_pending r.2
        then match left with O => [] | S left' => pass_ends pass (S n) left' r.2 end
        else []).

Lemma rediscovery_loop_ends (pass : nat → Client → bool * Client) (n left : nat) (c : Client) :
  let ends := pass_ends pass n left c in
  (0 < length ends ≤ S left)%nat ∧
  (∀ i r, ends !! i = Some r → (S i < length ends)%nat → r.1 = true ∧ cl_pending r.2 = true) ∧
  ∃ r, last ends = Some r ∧ (rediscovery_loop pass n left c).1 = r.1 ∧
    (r.1 = true → cl_pending r.2 = true → length ends = S left) ∧
    (r.1 = true → cl_pending (rediscovery_loop pass n left c).2 = false).
Proof.
  revert n c. induction left as [|left IH]; intros n c; cbn [pass_ends rediscovery_loop];
    destruct (pass n (set_pending false c)) as [ok c'] eqn:Ep; cbn [fst snd].
  - destruct ok, (cl_pending c') eqn:Eq; cbn; (split; [lia|]);
      (split; [intros [|i] r; cbn; [lia|done]|]); eexists; (split; [done|]); cbn; rewrite ?Eq; auto.
  - destruct (ok && cl_pending c') eqn:Eb.
    + apply andb_true_iff in Eb as [-> Eq]. rewrite Eq. cbn [negb].
      destruct (IH (S n) c') as (Hlen & Hmid & r & Hlast & Hres & Hcap & Hp).
      set (ends := pass_ends pass (S n) left c') in *. cbn [length]. split; [lia|]. split.
      * intros [|i] x; cbn [lookup list_lookup]; [intros [= <-] _; auto|].
        intros Hx Hi. apply (Hmid i x Hx). lia.
      * exists r. rewrite last_cons, Hlast. split_and!; auto.
    + cbn [length]. split; [lia|]. split; [intros [|i] r; cbn; [lia|done]|].
      exists (ok, c'). destruct ok; cbn in *; [rewrite Eb; cbn|]; by split_and!.
Qed.

(** Rediscovery always comes to an end and is run again for what arrives
    meanwhile.  A trigger while one runs only raises the pending flag; otherwise,
    unless a poll is the caller, it makes between one and five passes, each but
    the last with the flag raised when it ended, and the last either fails, or
    ends with no notification waiting, or is the fifth.  Afterwards the lock is
    free, and after a success nothing is pending. *)
Theorem rediscovery_passes (pass : nat → Client → bool * Client) (c : Client) :
  let after := trigger_rediscovery pass None c in
  if cl_locked c then after = (Returned false, set_pending true c)
  else
    let ends := pass_ends pass 0 4 (set_locked true c) in
    (1 ≤ length ends ≤ 5)%nat ∧
    (∀ i r, ends !! i = Some r → (S i < length ends)%nat → r.1 = true ∧ cl_pending r.2 = true) ∧
    cl_locked after.2 = false ∧
    ∃ r, last ends = Some r ∧ after.1 = Returned r.1 ∧
      (r.1 = true → cl_pending r.2 = false ∨ length ends = 5%nat) ∧
      (r.1 = true → cl_pending after.2 = false).
Proof.
  intros after. unfold after, trigger_rediscovery. destruct (cl_locked c); [done|]. cbn [from_option].
  set (ends := pass_ends pass 0 4 (set_locked true c)). change (MAX_REDISCOVERY_PASSES - 1)%nat with 4%nat. cbv zeta.
  destruct (rediscovery_loop_ends pass 0 4 (set_locked true c)) as (Hlen & Hmid & r & Hlast & Hres & Hcap & Hp).
  destruct (rediscovery_loop pass 0 4 (set_locked true c)) as [ok c'] eqn:El. cbn [fst snd] in *.
  split; [unfold ends; lia|]. split; [done|]. split; [done|].
  exists r. split_and!; try done; [by rewrite Hres|]. intros Hr. destruct (cl_pending r.2) eqn:Ep; [right|by left].
  by apply Hcap.
Qed.

Lemma current_polls (s : Sched) key tid : sc_current s !! key = Some tid → tid ∈ (map_to_list (sc_current s)).*2.
Proof. intros Hc. apply list_elem_of_fmap. exists (key, tid). split; [done|]. by apply elem_of_map_to_list. Qed.

Lemma poll_rediscovery pass c key tid :
  cl_locked c = false → sc_current (cl_sched c) !! key = Some tid →
  trigger_rediscovery pass (Some tid) c = (CancelledError, on_sched cancel_signal (set_pending false c)).
Proof.
  intros Hl Hc. unfold trigger_rediscovery, polls_in. cbn [from_option].
  rewrite Hl, bool_decide_true by by eapply current_polls. done.
Qed.

(** A rediscovery that a poll starts, as every poll does on a redirect, on a
    404 and on the first contact after an outage, ends the polling instead.  The
    poll cancels itself with the others: no pass is made, nothing is discovered,
    and the client is left with a scheduler that is shut down, on which no poll
    comes to its callback any more, whatever is done with it. *)
Theorem rediscovery_from_poll_ends_polling (pass : nat → Client → bool * Client) (c : Client) (key : string)
    (tid : nat) (t : Task) (s' : Sched) :
  cl_locked c = false → sc_current (cl_sched c) !! key = Some tid → sc_tasks (cl_sched c) !! tid = Some t →
  let after := trigger_rediscovery pass (Some tid) c in
  rtc step (cl_sched after.2) s' →
  after.1 = CancelledError ∧ cl_topology after.2 = cl_topology c ∧ cl_locked after.2 = false ∧
  sc_tasks (cl_sched after.2) !! tid = Some (set_cancelled t) ∧
  sc_shutdown s' = true ∧ ∀ i, polling s' i → polling (cl_sched c) i.
Proof.
  intros Hl Hc Ht after. unfold after. rewrite (poll_rediscovery pass c key tid) by done.
  cbn [fst snd cl_sched on_sched set_pending]. intros Hs.
  destruct (shutdown_steps _ _ Hs eq_refl) as [Hd Hno]. split_and!; try done.
  - cbn. rewrite list_lookup_imap, Ht. cbn. rewrite bool_decide_true by by eapply current_polls. done.
  - intros i Hi. by apply polling_signal, Hno.
Qed.

(** ** A cancelled subscription *)

Lemma entry_mark uri s u l st :
  table_wf s → entry (mark_cancelled uri s) u l st →
  ∃ st0, entry s u l st0 ∧ ss_resource st = ss_resource st0 ∧ ss_type st = ss_type st0 ∧
    ss_uri st = ss_uri st0 ∧ (is_active st = true → is_active st0 = true ∧ u ≠ uri).
Proof.
  intros W. unfold mark_cancelled. destruct (dict_get uri (mg_subs s)) as [l0|] eqn:El.
  - unfold entry. cbn. intros [Hin Hl]. rewrite list_lookup_alter in Hl. case_decide as Hd.
    + subst l0. destruct (mg_heap s !! l) as [st0|]; [|done]. injection Hl as <-. exists st0. by split_and!.
    + exists st. split_and!; try done. intros Ha. split; [done|]. intros ->.
      apply (dict_elem_get _ _ _ (tw_keys _ W)) in Hin. congruence.
  - intros He. exists st. split_and!; try done. intros Ha. split; [done|]. intros ->. destruct He as [Hin _].
    apply (dict_elem_get _ _ _ (tw_keys _ W)) in Hin. congruence.
Qed.

Lemma mark_cancelled_wf uri s : table_wf s → table_wf (mark_cancelled uri s).
Proof.
  intros W. assert (mg_subs (mark_cancelled uri s) = mg_subs s) as Hs
    by (unfold mark_cancelled; by destruct (dict_get _ _)).
  split; [rewrite Hs; apply W| |].
  - intros u l Hin. rewrite Hs in Hin. destruct (tw_own _ W u l Hin) as (st & Hl & Hu).
    unfold mark_cancelled. destruct (dict_get uri (mg_subs s)); [|eauto]. cbn.
    rewrite list_lookup_alter. case_decide; [|eauto]. subst. rewrite Hl. by eexists.
  - intros u u' l l' st st' H1 H2 A1 A2 Hr.
    apply entry_mark in H1 as (x & Hx & Rx & _ & _ & [Ax _]%(λ H, H A1)); [|done].
    apply entry_mark in H2 as (y & Hy & Ry & _ & _ & [Ay _]%(λ H, H A2)); [|done].
    eapply (tw_one _ W); try done. congruence.
Qed.

Lemma marked_not_active uri s l st ty :
  table_wf s → entry s uri l st → is_active st = true → ¬ active_as (mark_cancelled uri s) (ss_resource st) ty.
Proof.
  intros W He Ha (u & l' & st' & H & A & Hr & _).
  apply entry_mark in H as (x & Hx & Rx & _ & _ & [Ax Hne]%(λ H, H A)); [|done]. apply Hne.
  destruct (tw_one _ W u uri l' l x st) as [-> _]; [done..|congruence|done].
Qed.

(** *** What the requests ask for *)

(** As long as a resource is suppressed, nothing is POSTed for it. *)
Definition unasked (r : string) (s s' : Mgr) : Prop :=
  r ∈ mg_suppressed s →
  r ∈ mg_suppressed s' ∧ ∃ new, mg_log s' = mg_log s ++ new ∧ ∀ h a, Posted h r a ∉ new.

#[export] Instance unasked_preorder r : PreOrder (unasked r).
Proof.
  split.
  - intros s Hr. split; [done|]. exists []. rewrite app_nil_r. split; [done|]. intros. apply not_elem_of_nil.
  - intros s1 s2 s3 H12 H23 Hr. destruct (H12 Hr) as (Hr2 & n1 & L1 & N1).
    destruct (H23 Hr2) as (Hr3 & n2 & L2 & N2). split; [done|]. exists (n1 ++ n2).
    rewrite L2, L1, app_assoc. split; [done|]. intros h a [?|?]%elem_of_app; [by eapply N1|by eapply N2].
Qed.

Definition log_grows (s s' : Mgr) : Prop := mg_log s `prefix_of` mg_log s'.

#[export] Instance log_grows_preorder : PreOrder log_grows.
Proof. unfold log_grows. split; [by intros s|intros ???; apply transitivity]. Qed.

Section Requests.
Context {E : SubEnv} (Hcalm : ∀ n s, meanwhile n s = s).

Lemma request_rel {A} (R : relation Mgr) (f : nat → Http A) (w : Http A → Wire) :
  (∀ s a, R s (advance (sent (w a) s))) → guar R (request f w).
Proof using Hcalm. intros H s. rewrite request_calm by done. apply H. Qed.

Lemma subscribe_rel (R : relation Mgr) `{!PreOrder R} h r t :
  (∀ s a, R s (advance (sent (Posted h r a) s))) → (∀ s st, R s (add_state st s)) →
  guar R (subscribe h r t).
Proof using Hcalm.
  intros Hp Ha. unfold subscribe, post, create, now_ms.
  apply guar_bind; [done|apply guar_get; done|]. intros [l|]; [by apply guar_ret|].
  apply guar_bind; [done|by apply request_rel|].
  intros [[[|c loc]|]| | |]; try (by apply guar_ret); try destruct missing_location_fallback;
    try (by apply guar_ret);
    (apply guar_bind; [done|by apply guar_get|intros now]);
    (apply guar_bind; [done|by apply guar_get|intros l]);
    (apply guar_bind; [done|by apply guar_modify|intros _]); by apply guar_ret.
Qed.

Lemma auto_subscribe_unasked (t : Topology) (r : string) : guar (unasked r) (auto_subscribe t).
Proof using Hcalm.
  unfold auto_subscribe. destruct (find_agg_sub_href t) as [href|]; [|apply guar_ret, _].
  apply guar_for_each; [apply _|]. intros [x ty] _ s. cbn [fst snd].
  apply rel_bind; [apply _|done|]. intros skip s1 [= <- <-].
  unfold resubscribe_suppressed. case_bool_decide as Hx; [done|].
  destruct (decide (x = r)) as [->|Hne]; [intros Hr; done|].
  apply guar_bind; [apply _| |intros; apply guar_ret, _]. apply subscribe_rel; [apply _| |].
  - intros s' a Hr. split; [done|]. exists [Posted href x a]. split; [done|].
    by intros h a' [= -> <-]%list_elem_of_singleton.
  - intros s' st Hr. split; [done|]. exists []. rewrite app_nil_r. split; [done|]. intros. apply not_elem_of_nil.
Qed.

Lemma grows_same s s' : mg_log s' = mg_log s → log_grows s s'.
Proof. unfold log_grows. by intros ->. Qed.

Lemma grows_post h r a s : log_grows s (advance (sent (Posted h r a) s)).
Proof. by eexists. Qed.

Lemma auto_subscribe_grows (t : Topology) : guar log_grows (auto_subscribe t).
Proof using Hcalm.
  unfold auto_subscribe. destruct (find_agg_sub_href t) as [href|]; [|apply guar_ret, _].
  apply guar_for_each; [apply _|]. intros rt _. apply guar_bind; [apply _|apply guar_get, _|].
  intros [|]; [apply guar_ret, _|]. apply guar_bind; [apply _| |intros; apply guar_ret, _].
  apply subscribe_rel; [apply _|by intros; apply grows_post|by intros; apply grows_same].
Qed.
End Requests.

Section Resubscribing.
Context {E : SubEnv} (Hcalm : ∀ n s, meanwhile n s = s).

Lemma modify_grows f : (∀ s, mg_log (f s) = mg_log s) → guar log_grows (modify f : SM unit).
Proof. intros H. apply guar_modify. intros s. by apply grows_same. Qed.

Lemma pop_grows uri : guar log_grows (pop uri).
Proof. by apply modify_grows. Qed.

Lemma reconcile_with_server_grows href b : guar log_grows (reconcile_with_server href b).
Proof using Hcalm.
  unfold reconcile_with_server. apply guar_bind; [apply _|apply request_rel; [done|by eexists]|].
  intros [pages| | |]; try apply guar_ret, _.
  apply guar_bind; [apply _|apply guar_get, _|]. intros locals.
  apply guar_bind; [apply _| |intros; apply guar_ret, _].
  apply guar_map_each; [apply _|]. intros [l st0] _. unfold reconcile_one, rekey.
  apply guar_bind; [apply _|apply guar_get, _|]. intros st.
  destruct (ss_unmanaged st); [apply guar_ret, _|]. destruct (decide _).
  { destruct (dict_get _ _) as [u|]; [|apply guar_ret, _]. destruct (decide _); [apply guar_ret, _|].
    apply guar_bind; [apply _| |intros; apply guar_ret, _].
    apply guar_bind; [apply _|apply pop_grows|intros _].
    apply guar_bind; [apply _|by apply modify_grows|intros _]. by apply modify_grows. }
  destruct b; cbn [negb].
  - apply guar_bind; [apply _|apply pop_grows|intros _].
    apply guar_bind; [apply _|apply subscribe_rel; [done|apply _|by intros; apply grows_post|by intros; apply grows_same]|].
    intros [l'|]; [apply guar_ret, _|]. apply guar_bind; [apply _|apply guar_get, _|intros st'].
    apply guar_bind; [apply _|by apply modify_grows|intros; apply guar_ret, _].
  - apply guar_bind; [apply _|apply guar_when, pop_grows; apply _|intros; apply guar_ret, _].
Qed.

(** A rediscovery asks again for whatever is wanted and not active. *)
Lemma resubscribe_asks (t t' : Topology) (href r ty : string) (s : Mgr) :
  table_wf s → find_agg_sub_href t = Some href →
  (∀ x y y', (x, y) ∈ compute_desired_subscriptions t → (x, y') ∈ compute_desired_subscriptions t → y = y') →
  fresh_uris href (elements (compute_desired_subscriptions t)).*1 s →
  (r, ty) ∈ compute_desired_subscriptions t → ¬ active_as s r ty →
  ∃ new a, mg_log (resubscribe t t' s).2 = mg_log s ++ new ∧ Posted href r a ∈ new.
Proof using Hcalm.
  intros W Hh Hfun Hfresh Hd Hn.
  destruct (reconcile_run Hcalm s W (compute_desired_subscriptions t) href Hfun Hfresh)
    as (res & s1 & new & Hrun & Rc & _).
  destruct (rc_posts _ _ _ _ _ Rc r ty Hd Hn) as (a & Ha & _).
  assert (log_grows s1 (resubscribe t t' s).2) as [rest Hrest].
  { unfold resubscribe. rewrite Hh. rewrite decide_False by (intros H; rewrite H in Hd; set_solver).
    unfold bind at 1 2. rewrite Hrun.
    apply (guar_bind log_grows (reconcile_with_server href false ;;; ret tt) (λ _, auto_subscribe t')).
    - apply guar_bind; [apply _|apply reconcile_with_server_grows|intros; apply guar_ret, _].
    - intros _. by apply auto_subscribe_grows. }
  exists (new ++ rest), a. rewrite Hrest, (rc_log _ _ _ _ _ Rc), app_assoc. split; [done|]. set_solver.
Qed.
End Resubscribing.

(** What a cancellation notice does to the table. *)
Lemma handle_cancellation_notice sc rc mx tf now n c :
  nt_status n = 1 → should_process_notification (nt_uri n) (nt_resource n) (cl_mgr c) = true →
  cl_mgr (handle_notification sc rc mx tf now n c) =
  suppress_resubscribe (nt_resource n)
    (remove_notifications_for (nt_resource n) (mark_cancelled (nt_uri n) (cl_mgr c))).
Proof.
  intros Hs Hp. unfold handle_notification. rewrite Hs. cbn [Z.eqb Pos.eqb andb]. rewrite Hp. cbn [negb].
  unfold handle_status. by rewrite Hs.
Qed.

(** The client does not stand by a cancellation it has honoured.  When the
    server cancels an active subscription, it is marked so, its resource is
    suppressed, and [_auto_subscribe] does not ask for it again, over any
    topology.  But the next rediscovery does, if the resource is still wanted:
    its reconciliation does not look at the suppression and POSTs the
    subscription anew, although the suppression is kept across rediscoveries
    for just this. *)
Theorem rediscovery_undoes_cancellation (E : SubEnv) (sc rc : bool) (mx : nat) (tf : string → bool)
    (now : Z) (n : Notification) (c : Client) (l : nat) (st : SubscriptionState) (t : Topology)
    (href ty : string) :
  (∀ n s, meanwhile n s = s) → table_wf (cl_mgr c) → entry (cl_mgr c) (nt_uri n) l st →
  is_active st = true → nt_resource n = ss_resource st → nt_status n = 1 →
  find_agg_sub_href t = Some href → (ss_resource st, ty) ∈ compute_desired_subscriptions t →
  (∀ x y y', (x, y) ∈ compute_desired_subscriptions t → (x, y') ∈ compute_desired_subscriptions t → y = y') →
  fresh_uris href (elements (compute_desired_subscriptions t)).*1 (cl_mgr c) →
  let r := ss_resource st in
  let m := cl_mgr (handle_notification sc rc mx tf now n c) in
  resubscribe_suppressed r m = true ∧ (∀ ty, ¬ active_as m r ty) ∧
  (∀ t', ∃ new, mg_log (auto_subscribe t' m).2 = mg_log m ++ new ∧ ∀ h a, Posted h r a ∉ new) ∧
  (∀ t', ∃ new a, mg_log (resubscribe t t' m).2 = mg_log m ++ new ∧ Posted href r a ∈ new).
Proof.
  intros Hcalm W He Ha Hr Hs Hh Hd Hfun Hfresh r m.
  assert (m = suppress_resubscribe r (remove_notifications_for r (mark_cancelled (nt_uri n) (cl_mgr c)))) as Hm.
  { unfold m, r. rewrite <- Hr. apply handle_cancellation_notice; [done|]. unfold should_process_notification.
    rewrite (proj2 (sub_get_entry _ _ _ _ W) He). by rewrite Hr, String.eqb_refl, orb_true_r. }
  assert (same_table (mark_cancelled (nt_uri n) (cl_mgr c)) m) as Ht by by rewrite Hm.
  assert (∀ ty, ¬ active_as m r ty) as Hno.
  { intros ty' (u & l' & st' & H & ?). apply (marked_not_active (nt_uri n) (cl_mgr c) l st ty' W He Ha).
    exists u, l', st'. split; [|done]. by apply (same_table_entry _ _ _ _ _ Ht). }
  assert (r ∈ mg_suppressed m) as Hsup by (rewrite Hm; cbn; set_solver).
  split_and!; [by apply bool_decide_eq_true|done| |].
  - intros t'. by apply (auto_subscribe_unasked Hcalm t' r m).
  - intros t'. eapply (resubscribe_asks Hcalm); try done.
    + by eapply same_table_wf, mark_cancelled_wf.
    + eapply fresh_uris_sub; [done| |exact Hfresh]. destruct Ht as [-> _]. intros u. unfold mark_cancelled.
      by destruct (dict_get _ _).
Qed.

(** ** Samples *)

Definition sample_edev : EdevView :=
  {| ev_fsa_list := Some "/fsa"; ev_fsa_list_subscribable := true; ev_derp_list_subscribable := true;
     ev_fsa_derp_lists := [Some "/derp"]; ev_sub_list := Some "/edev/1/sub" |}.
Definition sample_program (derc : string) : ProgramView :=
  {| pv_derc_list := Some derc; pv_derc_list_subscribable := true; pv_dderc := None;
     pv_dderc_subscribable := false |}.
Definition sample_topology (dercs : list string) : Topology :=
  {| tp_edev_list := Some "/edev"; tp_edevs := [sample_edev]; tp_programs := sample_program <$> dercs;
     tp_pricing := false; tp_rates := [] |}.
Definition idle_sched : Sched := default (mkSched [] ∅ ∅ ∅ ∅ ∅ ∅ false true None) (new_sched true None).
Definition sample_client (m : Mgr) (dercs : list string) : Client :=
  mkClient m idle_sched false false (sample_topology dercs) [].
Definition cancels (uri resource : string) : Notification :=
  {| nt_resource := resource; nt_uri := uri; nt_status := 1; nt_new_resource := None |}.

(** A poll of the programs is under way. *)
Definition polling_sched : Sched := iterate 0 "derp" 1000 (schedule "derp" 60 1000 idle_sched).
Definition polling_client : Client := mkClient new_mgr polling_sched false false (sample_topology []) [].

Lemma rediscovery_from_poll_ends_polling_witness :
  let after := trigger_rediscovery (λ _ c, (true, c)) (Some 0%nat) polling_client in
  after.1 = CancelledError ∧ sc_shutdown (cl_sched after.2) = true.
Proof.
  destruct (rediscovery_from_poll_ends_polling (λ _ c, (true, c)) polling_client "derp" 0
    {| tk_key := "derp"; tk_kind := Loop; tk_phase := Running; tk_cancelled := false |}
    (cl_sched (trigger_rediscovery (λ _ c, (true, c)) (Some 0%nat) polling_client).2))
    as (H1 & _ & _ & _ & H2 & _); [done|vm_compute; reflexivity|vm_compute; reflexivity|apply rtc_refl|].
  by split.
Defined.

Lemma rediscovery_undoes_cancellation_witness :
  let m := cl_mgr (handle_notification false false 10 (λ _, true) 0 (cancels "/sub/1" "/fsa")
                     (sample_client two_subs [])) in
  resubscribe_suppressed "/fsa" m = true ∧
  ∃ new a, mg_log (@resubscribe (sub_env (λ _, 0) (λ _ s, s) []) (sample_topology [])
                     (sample_topology []) m).2 = mg_log m ++ new ∧ Posted "/edev/1/sub" "/fsa" a ∈ new.
Proof.
  destruct (rediscovery_undoes_cancellation (sub_env (λ _, 0) (λ _ s, s) []) false false 10 (λ _, true) 0
    (cancels "/sub/1" "/fsa") (sample_client two_subs []) 0 (sample_sub "/sub/1" "/fsa" "FSAList" 0)
    (sample_topology []) "/edev/1/sub" "FSAList") as (H1 & _ & _ & H2);
    last (split; [exact H1|apply H2]); try done.
  - apply two_subs_wf.
  - split; [left|done].
  - intros x y y'. unfold compute_desired_subscriptions. rewrite !elem_of_list_to_set. cbn.
    rewrite !elem_of_cons, !elem_of_nil. naive_solver.
  - split.
    + by intros n r u _ [= <-] H%dict_mem_spec.
    + intros n m r r' u _ _ [= <-] [= H]. by symmetry.
Defined.

(** One poll refreshes the controls of every program, and one subscription
    suppresses it for all: when the server cancels the subscription of one
    program's controls while another's is active, the poll that is meant to
    take over stays suppressed. *)
Theorem cancelled_controls_not_polled :
  let m := add_state (sample_sub "/sub/2" "/p2/derc" "DERControlList" 0)
             (add_state (sample_sub "/sub/1" "/p1/derc" "DERControlList" 0) new_mgr) in
  let c := handle_notification false false 10 (λ _, true) 0 (cancels "/sub/1" "/p1/derc")
             (sample_client m ["/p1/derc"; "/p2/derc"]) in
  ss_resource ∘ snd <$> active_subscriptions (cl_mgr c) = ["/p2/derc"] ∧
  "derp" ∈ sc_suppressed (cl_sched c).
Proof.
  split; [vm_compute; reflexivity|]. apply (bool_decide_unpack _). vm_compute. exact I.
Qed.
