(* ===== verification/NotifyServer.v ===== *)
(** * NotifyServer: subscription/notification_server.py

    [NotificationServer] answers the POSTs of the server and hands each
    notification it accepts to a task of its own; [suspend] and [stop] wait for
    those tasks.  A request waits for its body; a task waits to start and, inside
    the callback, as often as the callback does; a [suspend] waits for the tasks
    it found, or for its timeout; a [stop] waits for the tasks it cancelled and
    then for the listener to close.  Between two waits nothing else runs, so a
    step is what runs from one wait to the next, and any order of steps may occur.

    The XML parsers are third-party code: [NotifyXml] is what they make of a
    body. *)

From Stdlib Require Import Ascii.
From S2P Require Import Prelude.

(** ** Requests *)

Inductive ClientCertMode := off | warn | enforce.

(** What the server uses of a parsed Notification. *)
Record Notification := mkNotification { subscribed_resource : option string; has_resource : bool }.

#[export] Instance Notification_eq_dec : EqDecision Notification.
Proof. solve_decision. Defined.

Inductive AnomalyCode := UNREADABLE_NOTIFICATION | REJECTED_NOTIFICATION | DROPPED_NOTIFICATION.

(** The warnings reported, by their deduplication key. *)
Inductive Warning := NoCertRejected | NoCertAccepted | NotParsed | TypeMismatch.

(** [_Notification]: what happened to a request. *)
Record Exchange := mkExchange {
  x_body : option bytes;
  x_refused : bool;                               (* no client certificate *)
  x_anomaly : option AnomalyCode;
  x_warnings : list Warning;
}.

(** Of a body: the Notification of [from_xml]; what [etree] finds of its Resource
    element ([None]: not well-formed; [Some None]: no such element; the xsi:type
    of the element, if it has one). *)
Class NotifyXml := {
  from_xml : bytes → option Notification;
  resource_type : bytes → option (option (option string));
}.

Section Requests.
Context `{NotifyXml} (mode : ClientCertMode).

(** [parse_notification] *)
Definition parse_notification (body : bytes) : option Notification := from_xml body.

(** [xsi_type.split(":", 1)[1]], or the type as it is. *)
Fixpoint after_colon (s : string) : option string :=
  match s with
  | EmptyString => None
  | String c s' => if Ascii.eqb c ":"%char then Some s' else after_colon s'
  end.

(** The type is stripped of its prefix, logged, and not compared with anything. *)
Definition validate_notification (n : Notification) (raw_xml : bytes) : bool :=
  if negb (has_resource n) then true
  else
    match resource_type raw_xml with
    | None => false
    | Some None => true
    | Some (Some None) => true
    | Some (Some (Some xsi_type)) => let _ := default xsi_type (after_colon xsi_type) in true
    end.

(** The certificate check, before the body is read; [inl] is an answer. *)
Definition check_certificate (cert : bool) : (Z * Exchange) + list Warning :=
  match mode, cert with
  | enforce, false =>
      inl (401, mkExchange None true (Some REJECTED_NOTIFICATION) [NoCertRejected])
  | warn, false => inr [NoCertAccepted]
  | _, _ => inr []
  end.

(** What follows the read of the body: the status sent, what is noted, and the
    notification handed to a task.  [body]: [None], it could not be read. *)
Definition handle_body (suspended callback : bool) (warned : list Warning) (body : option bytes)
    : Z * Exchange * option Notification :=
  match body with
  | None => (400, mkExchange None false (Some UNREADABLE_NOTIFICATION) warned, None)
  | Some b =>
      match parse_notification b with
      | None => (400, mkExchange (Some b) false (Some REJECTED_NOTIFICATION) (warned ++ [NotParsed]), None)
      | Some n =>
          if negb (validate_notification n b) then
            (400, mkExchange (Some b) false (Some REJECTED_NOTIFICATION) (warned ++ [TypeMismatch]), None)
          else if suspended then
            (201, mkExchange (Some b) false (Some DROPPED_NOTIFICATION) warned, None)
          else (201, mkExchange (Some b) false None warned, if callback then Some n else None)
      end
  end.

(** *** What the observers are told, in order *)

Inductive Observed :=
  | OConnection (refused : bool)                  (* ACCEPTED, or REFUSED with status 401 *)
  | OAnomaly (code : AnomalyCode)
  | OExchange (status : Z) (body : option bytes).

(** Which observers are set, and whether they take bodies. *)
Record Observers := mkObservers {
  ob_connection : bool; ob_anomaly : bool; ob_exchange : bool; capture_bodies : bool }.

(** [_handle_notify] after the answer is known. *)
Definition observed (o : Observers) (status : Z) (x : Exchange) : list Observed :=
  (if ob_connection o then [OConnection (x_refused x)] else []) ++
  match x_anomaly x with
  | Some code => if ob_anomaly o then [OAnomaly code] else []
  | None => []
  end ++
  (if ob_exchange o then [OExchange status (if capture_bodies o then x_body x else None)] else []).

(** ** The listener *)

(** A task of [_safe_notify]: made and not started, inside the callback, over. *)
Inductive TaskState := Ready (n : Notification) | Running (n : Notification) | Done.

#[export] Instance TaskState_eq_dec : EqDecision TaskState.
Proof. solve_decision. Defined.

Inductive StopPhase := Gathers (cancelled : gset nat) | Closes.

Record Server := mkServer {
  sv_listening : bool;                            (* _site is not None *)
  sv_callback : bool;                             (* _on_notification is not None *)
  sv_suspended : bool;
  sv_requests : gmap nat (list Warning);          (* waiting for their bodies *)
  sv_tasks : gmap nat TaskState;                  (* the tasks ever made *)
  sv_background : gset nat;                       (* _background_tasks *)
  sv_cancelled : gset nat;
  sv_suspends : gmap nat (gset nat);              (* the suspends that wait, for what *)
  sv_stop : option StopPhase;
}.

Definition new_server (callback : bool) : Server := mkServer false callback false ∅ ∅ ∅ ∅ ∅ None.

Definition set_requests (r : gmap nat (list Warning)) (s : Server) : Server :=
  mkServer (sv_listening s) (sv_callback s) (sv_suspended s) r (sv_tasks s) (sv_background s)
    (sv_cancelled s) (sv_suspends s) (sv_stop s).
Definition set_tasks (t : gmap nat TaskState) (s : Server) : Server :=
  mkServer (sv_listening s) (sv_callback s) (sv_suspended s) (sv_requests s) t (sv_background s)
    (sv_cancelled s) (sv_suspends s) (sv_stop s).
Definition set_background (b : gset nat) (s : Server) : Server :=
  mkServer (sv_listening s) (sv_callback s) (sv_suspended s) (sv_requests s) (sv_tasks s) b
    (sv_cancelled s) (sv_suspends s) (sv_stop s).
Definition set_suspends (w : gmap nat (gset nat)) (s : Server) : Server :=
  mkServer (sv_listening s) (sv_callback s) (sv_suspended s) (sv_requests s) (sv_tasks s) (sv_background s)
    (sv_cancelled s) w (sv_stop s).
Definition set_suspended (b : bool) (s : Server) : Server :=
  mkServer (sv_listening s) (sv_callback s) b (sv_requests s) (sv_tasks s) (sv_background s)
    (sv_cancelled s) (sv_suspends s) (sv_stop s).
Definition set_callback (b : bool) (s : Server) : Server :=
  mkServer (sv_listening s) b (sv_suspended s) (sv_requests s) (sv_tasks s) (sv_background s)
    (sv_cancelled s) (sv_suspends s) (sv_stop s).
Definition set_listening (b : bool) (s : Server) : Server :=
  mkServer b (sv_callback s) (sv_suspended s) (sv_requests s) (sv_tasks s) (sv_background s)
    (sv_cancelled s) (sv_suspends s) (sv_stop s).
Definition set_stop (p : option StopPhase) (c : gset nat) (s : Server) : Server :=
  mkServer (sv_listening s) (sv_callback s) (sv_suspended s) (sv_requests s) (sv_tasks s) (sv_background s)
    c (sv_suspends s) p.

Definition is_done (s : Server) (t : nat) : bool :=
  match sv_tasks s !! t with Some Done | None => true | _ => false end.

(** The tasks that may still act. *)
Definition live (s : Server) : gset nat :=
  dom (filter (λ kt, kt.2 ≠ Done) (sv_tasks s)).

Definition all_done (s : Server) (ts : gset nat) : bool := bool_decide (ts ## live s).

(** [asyncio.create_task], with the task noted. *)
Definition spawn (n : Notification) (s : Server) : nat * Server :=
  let t := fresh (dom (sv_tasks s)) in
  (t, set_background ({[t]} ∪ sv_background s) (set_tasks (<[t := Ready n]> (sv_tasks s)) s)).

(** *** Called from outside *)

(** A request: its answer, or the wait for its body. *)
Definition request_arrives (r : nat) (cert : bool) (s : Server) : option (Z * Exchange) * Server :=
  match check_certificate cert with
  | inl answer => (Some answer, s)
  | inr warned => (None, set_requests (<[r := warned]> (sv_requests s)) s)
  end.

Definition body_arrives (r : nat) (warned : list Warning) (body : option bytes) (s : Server)
    : (Z * Exchange * option nat) * Server :=
  let s := set_requests (delete r (sv_requests s)) s in
  let '(status, x, handed) := handle_body (sv_suspended s) (sv_callback s) warned body in
  match handed with
  | Some n => let '(t, s) := spawn n s in ((status, x, Some t), s)
  | None => ((status, x, None), s)
  end.

(** [suspend]: [Some b] is its result at once. *)
Definition suspend (c : nat) (s : Server) : option bool * Server :=
  let s := set_suspended true s in
  if bool_decide (sv_background s = ∅) then (Some true, s)
  else (None, set_suspends (<[c := sv_background s]> (sv_suspends s)) s).

(** The wait of a [suspend] is over: all done, or the timeout. *)
Definition suspend_ends (c : nat) (pending : gset nat) (s : Server) : bool * Server :=
  (all_done s pending, set_suspends (delete c (sv_suspends s)) s).

Definition resume (s : Server) : Server := set_suspended false s.

(** [stop] up to its first wait: the tasks are cancelled. *)
Definition stop (s : Server) : Server :=
  if bool_decide (sv_background s = ∅) then set_listening false (set_stop (Some Closes) (sv_cancelled s) s)
  else set_stop (Some (Gathers (sv_background s))) (sv_cancelled s ∪ sv_background s) s.

(** The cancelled tasks are over: the set is cleared, whatever it holds by now,
    and the listener closed. *)
Definition stop_gathered (s : Server) : Server :=
  set_listening false (set_background ∅ (set_stop (Some Closes) (sv_cancelled s) s)).

(** The runner is cleaned up: no request is under way any more. *)
Definition stop_ends (s : Server) : Server := set_stop None (sv_cancelled s) (set_requests ∅ s).

(** *** The tasks *)

(** [_safe_notify] starts: the callback is looked up then; without one the call
    raises, which is caught and reported. *)
Definition task_starts (t : nat) (n : Notification) (s : Server) : Server :=
  set_tasks (<[t := if sv_callback s then Running n else Done]> (sv_tasks s)) s.

Definition task_ends (t : nat) (s : Server) : Server := set_tasks (<[t := Done]> (sv_tasks s)) s.

(** ** Steps *)

Inductive Event :=
  | ERequest (r : nat) (answer : option Z)
  | EAnswered (r : nat) (status : Z) (task : option nat)
  | EDropped (r : nat)
  | EStarts (t : nat)
  | EActs (t : nat)                               (* the callback does something *)
  | EEnds (t : nat)
  | EDiscarded (t : nat)
  | ESuspend (c : nat) (result : option bool)
  | ESuspendEnds (c : nat) (result : bool)
  | EResume
  | EStop
  | EStopGathered (lost : bool)                   (* whether a live task leaves the set *)
  | EStopEnds
  | EStart
  | ESetCallback.

Inductive step (s : Server) : Event → Server → Prop :=
  | request_step r cert :
      sv_listening s = true → sv_requests s !! r = None →
      step s (ERequest r (fst <$> (request_arrives r cert s).1)) (request_arrives r cert s).2
  | body_step r warned body a s' :
      sv_requests s !! r = Some warned → body_arrives r warned body s = (a, s') →
      step s (EAnswered r a.1.1 a.2) s'
  | dropped_step r warned :                       (* the peer is gone; the read is cancelled *)
      sv_requests s !! r = Some warned →
      step s (EDropped r) (set_requests (delete r (sv_requests s)) s)
  | starts_step t n :
      sv_tasks s !! t = Some (Ready n) → step s (EStarts t) (task_starts t n s)
  | acts_step t n :
      sv_tasks s !! t = Some (Running n) → step s (EActs t) s
  | ends_step t n :                               (* the callback returns, raises or is cancelled *)
      sv_tasks s !! t = Some (Running n) → step s (EEnds t) (task_ends t s)
  | cancelled_step t n :                          (* cancelled before it started *)
      sv_tasks s !! t = Some (Ready n) → t ∈ sv_cancelled s → step s (EEnds t) (task_ends t s)
  | discarded_step t :                            (* the done callback *)
      sv_tasks s !! t = Some Done → step s (EDiscarded t) (set_background (sv_background s ∖ {[t]}) s)
  | suspend_step c :
      sv_suspends s !! c = None → step s (ESuspend c (suspend c s).1) (suspend c s).2
  | suspend_ends_step c pending :
      sv_suspends s !! c = Some pending →
      step s (ESuspendEnds c (suspend_ends c pending s).1) (suspend_ends c pending s).2
  | resume_step : step s EResume (resume s)
  | stop_step : sv_stop s = None → step s EStop (stop s)
  | stop_gathered_step gathered :
      sv_stop s = Some (Gathers gathered) → all_done s gathered = true →
      step s (EStopGathered (negb (all_done s (sv_background s)))) (stop_gathered s)
  | stop_ends_step : sv_stop s = Some Closes → step s EStopEnds (stop_ends s)
  | start_step : sv_stop s = None → step s EStart (set_listening true s)
  | callback_step b : step s ESetCallback (set_callback b s).

(** What happened, in order. *)
Inductive run (s : Server) : list Event → Server → Prop :=
  | run_nil : run s [] s
  | run_snoc tr s1 e s2 : run s tr s1 → step s1 e s2 → run s (tr ++ [e]) s2.

End Requests.
