(* ===== verification/NotifyProps.v ===== *)
(** * Properties of the notification server

    - once a [suspend] has returned true no handler runs until [resume];
    - what the validation of a notification rejects;
    - a [stop] that leaves a handler running. *)

From S2P Require Import Prelude NotifyServer.

Section Quiet.
Context `{NotifyXml} (mode : ClientCertMode).

Lemma elem_of_live s t : t ∈ live s ↔ ∃ st, sv_tasks s !! t = Some st ∧ st ≠ Done.
Proof.
  unfold live. rewrite elem_of_dom. split.
  - intros [st [? ?]%map_lookup_filter_Some]. eauto.
  - intros (st & ? & ?). exists st. by apply map_lookup_filter_Some.
Qed.

(** A task that changes from a live state makes no other live. *)
Lemma live_insert s t st b :
  sv_tasks s !! t = Some st → st ≠ Done → live (set_tasks (<[t := b]> (sv_tasks s)) s) ⊆ live s.
Proof.
  intros Ht Hl u. rewrite !elem_of_live. cbn. intros (x & Hx & Hd).
  destruct (decide (u = t)) as [->|Hne]; [by eauto|]. rewrite lookup_insert_ne in Hx by done. eauto.
Qed.

(** The suspensions since the last [resume]: those that wait, and whether one has
    returned true. *)
Record Watch := mkWatch { wt_waiting : gset nat; wt_isolated : bool }.

Definition watch (w : Watch) (e : Event) : Watch :=
  match e with
  | ESuspend c None => mkWatch ({[c]} ∪ wt_waiting w) (wt_isolated w)
  | ESuspend _ (Some b) => mkWatch (wt_waiting w) (wt_isolated w || b)
  | ESuspendEnds c b =>
      mkWatch (wt_waiting w ∖ {[c]}) (wt_isolated w || (b && bool_decide (c ∈ wt_waiting w)))
  | EResume => mkWatch ∅ false
  | _ => w
  end.

(** A handler that may still act is one that was noted, and one that every such
    suspension waits for. *)
Record tracked (w : Watch) (s : Server) : Prop := {
  tr_noted : live s ⊆ sv_background s;
  tr_isolated : wt_isolated w = true → live s = ∅ ∧ sv_suspended s = true;
  tr_waiting c : c ∈ wt_waiting w →
    sv_suspended s = true ∧ ∃ pending, sv_suspends s !! c = Some pending ∧ live s ⊆ pending;
}.

(** A step that makes no task live and keeps what suspensions and tasks know. *)
Lemma tracked_keep w s s' :
  tracked w s → live s' ⊆ live s → live s' ⊆ sv_background s' →
  sv_suspended s' = sv_suspended s → sv_suspends s' = sv_suspends s → tracked w s'.
Proof.
  intros [Hn Hi Hw] Hl Hb Es Ew. split; [done| |].
  - intros [E E']%Hi. split; [set_solver|congruence].
  - intros c (Hs & P & HP & Hl')%Hw. split; [congruence|]. exists P. split; [congruence|set_solver].
Qed.

Lemma body_tracked w s r warned body a s' :
  tracked w s → body_arrives r warned body s = (a, s') → tracked w s'.
Proof.
  intros Ht. unfold body_arrives. set (s0 := set_requests _ s).
  assert (tracked w s0) as Ht0 by (apply (tracked_keep w s); try done; apply Ht).
  destruct (handle_body _ _ _ _) as [[status x] [n|]] eqn:Eh; [|by intros [= <- <-]].
  assert (sv_suspended s = false) as Hs.
  { unfold handle_body in Eh. repeat case_match; simplify_eq; done. }
  intros [= <- <-]. destruct Ht0 as [Hn Hi Hw]. split.
  - intros u (st & Hu & Hd)%elem_of_live. cbn in Hu |- *.
    destruct (decide (u = fresh (dom (sv_tasks s)))) as [->|Hne]; [set_solver|].
    rewrite lookup_insert_ne in Hu by done. apply elem_of_union_r, Hn, elem_of_live. eauto.
  - intros [_ E]%Hi. cbn in E. congruence.
  - intros c [E _]%Hw. cbn in E. congruence.
Qed.

Lemma step_tracked w s e s' :
  tracked w s → step mode s e s' → e ≠ EStopGathered true → tracked (watch w e) s'.
Proof.
  intros Ht Hs He. pose proof Ht as [Hn Hi Hw]. destruct Hs; cbn [watch].
  - unfold request_arrives. destruct (check_certificate mode cert); [done|]. by apply (tracked_keep w s).
  - by eapply body_tracked.
  - by apply (tracked_keep w s).
  - eapply (tracked_keep w s); [done| | |done..]; [by eapply live_insert|].
    etrans; [by eapply live_insert|done].
  - done.
  - eapply (tracked_keep w s); [done| | |done..]; [by eapply live_insert|].
    etrans; [by eapply live_insert|done].
  - eapply (tracked_keep w s); [done| | |done..]; [by eapply live_insert|].
    etrans; [by eapply live_insert|done].
  - eapply (tracked_keep w s); [done|done| |done..]. intros u Hu. cbn. apply elem_of_difference. split; [by apply Hn|].
    intros ->%elem_of_singleton. apply elem_of_live in Hu as (st & E & Hd). cbn in E. congruence.
  - unfold suspend. case_bool_decide as Eb; cbn in Eb |- *.
    + split; [done| |].
      * intros _. split; [|done]. change (live s = ∅). set_solver.
      * intros c' Hc'. split; [done|]. by apply Hw.
    + split; [done| |].
      * intros [E _]%Hi. done.
      * intros c' Hc'. split; [done|]. cbn. destruct (decide (c' = c)) as [->|Hne].
        { rewrite lookup_insert_eq. by eexists. }
        rewrite lookup_insert_ne by done. apply Hw. set_solver.
  - cbn. split; [done| |].
    + intros [E|[E1 E2]%andb_true_iff]%orb_true_iff; [by apply Hi|].
      apply bool_decide_eq_true in E1, E2. destruct (Hw c E2) as (Hsus & P & HP & HlP).
      assert (P = pending) as -> by congruence. split; [|done]. change (live s = ∅). set_solver.
    + intros c' [Hc' Hne%not_elem_of_singleton]%elem_of_difference. destruct (Hw c' Hc') as (Hsus & P & HP & HlP).
      split; [done|]. exists P. cbn. by rewrite lookup_delete_ne.
  - split; [done|done|]. cbn. intros c Hc%elem_of_empty. done.
  - unfold stop. case_bool_decide; by apply (tracked_keep w s).
  - destruct (all_done s (sv_background s)) eqn:Ed; [|done]. apply bool_decide_eq_true in Ed.
    assert (live s = ∅) as E by set_solver. apply (tracked_keep w s); try done.
    change (live s ⊆ ∅). set_solver.
  - by apply (tracked_keep w s).
  - by apply (tracked_keep w s).
  - by apply (tracked_keep w s).
Qed.

(** *** Runs *)

Lemma run_app s tr tr' s2 : run mode s (tr ++ tr') s2 → ∃ s1, run mode s tr s1 ∧ run mode s1 tr' s2.
Proof.
  revert s2. induction tr' as [|e tr' IH] using rev_ind; intros s2 Hr.
  - rewrite app_nil_r in Hr. exists s2. split; [done|constructor].
  - rewrite app_assoc in Hr. inversion Hr as [E|tr0 s1 e0 s3 Hr1 Hs E]; [by destruct (tr ++ tr')|].
    apply app_inj_tail in E as [-> ->]. destruct (IH _ Hr1) as (s0 & Ha & Hb).
    exists s0. split; [done|by econstructor].
Qed.

Lemma run_cons s e tr s2 : run mode s (e :: tr) s2 → ∃ s1, step mode s e s1 ∧ run mode s1 tr s2.
Proof.
  intros (s1 & H1 & H2)%(run_app s [e] tr). exists s1. split; [|done].
  inversion H1 as [|tr0 s0 e0 s3 Hr Hs E]. apply (app_inj_tail _ []) in E as [-> ->].
  inversion Hr as [|tr1 ? ? ? _ _ E']; [by subst|]. by destruct tr1.
Qed.

Lemma run_tracked w s tr s' :
  tracked w s → run mode s tr s' → EStopGathered true ∉ tr → tracked (foldl watch w tr) s'.
Proof.
  intros Ht Hr. induction Hr as [|tr s1 e s2 Hr IH Hs]; intros Hc; [done|]. rewrite foldl_app. cbn.
  eapply step_tracked; [apply IH|done|]; intros E; apply Hc; set_solver.
Qed.

Lemma new_tracked cb : tracked (mkWatch ∅ false) (new_server cb).
Proof.
  split; [|done|cbn; set_solver]. intros t (st & E & _)%elem_of_live. cbn in E. by rewrite lookup_empty in E.
Qed.

(** An isolated server stays so without a [resume], and no handler runs. *)
Lemma isolated_stays w e : wt_isolated w = true → e ≠ EResume → wt_isolated (watch w e) = true.
Proof. intros Hw He. destruct e as [| | | | | | |? [[]|]|? []| | | | | |]; cbn; rewrite ?Hw; done. Qed.

Lemma isolated_step w s e s' t :
  tracked w s → wt_isolated w = true → step mode s e s' → e ≠ EActs t ∧ e ≠ EStarts t.
Proof.
  intros Ht Hi Hs. destruct (tr_isolated _ _ Ht Hi) as [Hl _].
  assert (∀ u st, sv_tasks s !! u = Some st → st = Done) as Hd.
  { intros u st E. destruct (decide (st = Done)) as [|Hne]; [done|].
    assert (u ∈ live s) by (apply elem_of_live; eauto). set_solver. }
  destruct Hs as [| | |u n E|u n E| | | | | | | | | | |]; split; try discriminate; intros _;
    apply Hd in E; discriminate E.
Qed.

Lemma isolated_run w s tr s' t :
  tracked w s → wt_isolated w = true → run mode s tr s' → EStopGathered true ∉ tr → EResume ∉ tr →
  live s' = ∅ ∧ EActs t ∉ tr ∧ EStarts t ∉ tr.
Proof.
  intros Ht Hi Hr. cut (EStopGathered true ∉ tr → EResume ∉ tr →
    tracked (foldl watch w tr) s' ∧ wt_isolated (foldl watch w tr) = true ∧ EActs t ∉ tr ∧ EStarts t ∉ tr).
  { intros Hx Hc Hn. destruct (Hx Hc Hn) as (Ht' & Hi' & Ha). split; [|done]. by apply (tr_isolated _ _ Ht'). }
  induction Hr as [|tr s1 e s2 Hr IH Hs]; intros Hc Hn; [split_and!; done || apply not_elem_of_nil|].
  rewrite not_elem_of_app, list_elem_of_singleton in Hc, Hn. destruct Hc as [Hc1 Hc2], Hn as [Hn1 Hn2].
  destruct (IH Hc1 Hn1) as (Ht1 & Hi1 & Ha & Hst). rewrite foldl_app. cbn [foldl].
  destruct (isolated_step _ _ _ _ t Ht1 Hi1 Hs) as [He1 He2]. split_and!.
  - eapply step_tracked; done || congruence.
  - apply isolated_stays; [done|congruence].
  - rewrite not_elem_of_app, list_elem_of_singleton. split; [done|congruence].
  - rewrite not_elem_of_app, list_elem_of_singleton. split; [done|congruence].
Qed.

(** The events of one [suspend] that returned true, from its call to its return,
    with no [resume] between. *)
Inductive suspended_by (c : nat) : list Event → Prop :=
  | at_once : suspended_by c [ESuspend c (Some true)]
  | after_wait tr :
      EResume ∉ tr → (∀ b, ESuspendEnds c b ∉ tr) →
      suspended_by c (ESuspend c None :: tr ++ [ESuspendEnds c true]).

Lemma waiting_stays c w tr :
  c ∈ wt_waiting w → EResume ∉ tr → (∀ b, ESuspendEnds c b ∉ tr) → c ∈ wt_waiting (foldl watch w tr).
Proof.
  revert w. induction tr as [|e tr IH]; intros w Hc Hn He; [done|]. cbn [foldl].
  assert (∀ b, e ≠ ESuspendEnds c b) as He' by (intros b ->; apply (He b); by left).
  apply IH; [|intros E; apply Hn; by right|intros b E; apply (He b); by right].
  destruct e as [| | | | | | |? [[]|]|c' ?| | | | | |]; cbn; try done; [set_solver| |].
  - assert (c ≠ c') by (intros ->; by eapply He'). set_solver.
  - destruct Hn. by left.
Qed.

Lemma suspended_isolates c w tr : suspended_by c tr → wt_isolated (foldl watch w tr) = true.
Proof.
  intros [|tr' Hn He]; cbn [foldl watch]; [apply orb_true_r|].
  rewrite foldl_app. cbn [foldl watch wt_isolated]. rewrite bool_decide_eq_true_2; [apply orb_true_r|].
  apply waiting_stays; [cbn; set_solver|done..].
Qed.

(** C28: from the return of true by [suspend] until the next [resume], no
    notification handler runs or starts, whatever requests, tasks, other
    suspensions and stops happen meanwhile, as long as no [stop] dropped a handler
    that was still running. *)
Theorem suspended_server_is_quiet cb tr1 c w tr2 s t :
  run mode (new_server cb) (tr1 ++ w ++ tr2) s →
  suspended_by c w → EResume ∉ tr2 → EStopGathered true ∉ tr1 ++ w ++ tr2 →
  live s = ∅ ∧ EActs t ∉ tr2 ∧ EStarts t ∉ tr2.
Proof.
  intros Hr Hw Hn Hc. rewrite app_assoc in Hr, Hc. apply not_elem_of_app in Hc as [Hc1 Hc2].
  apply run_app in Hr as (s1 & H1 & H2).
  pose proof (run_tracked _ _ _ _ (new_tracked cb) H1 Hc1) as Ht. rewrite foldl_app in Ht.
  eapply isolated_run; [exact Ht|by eapply suspended_isolates|done..].
Qed.

End Quiet.

(** ** What the validation rejects *)

(** The xsi:type of the Resource is read and not compared: a notification that
    parses is refused only for a body that the second parser does not take. *)
Theorem xsi_type_never_rejects `{NotifyXml} n body :
  validate_notification n body = false → has_resource n = true ∧ resource_type body = None.
Proof.
  unfold validate_notification. destruct (has_resource n); cbn; [|done].
  by destruct (resource_type body) as [[[]|]|].
Qed.

(** ** Runs *)

(** Every body is a notification whose Resource says it is a DERProgramList. *)
#[local] Instance xml0 : NotifyXml := {
  from_xml _ := Some (mkNotification (Some "/edev/1/der") true);
  resource_type _ := Some (Some (Some "DERProgramList"));
}.

(** A single resource may say it is a list. *)
Example list_type_accepted :
  (handle_body false true [] (Some "")).1.1 = 201.
Proof. reflexivity. Qed.

Lemma run_step s e e' s1 tr s2 :
  step warn s e' s1 → e' = e → run warn s1 tr s2 → run warn s (e :: tr) s2.
Proof.
  intros Hs <- Hr. induction Hr as [|tr s2 e2 s3 Hr IH Hs'].
  - apply (run_snoc _ _ [] s); [constructor|done].
  - rewrite app_comm_cons. by econstructor.
Qed.

(** One step of a run, by its constructor. *)
Tactic Notation "go" uconstr(c) :=
  eapply run_step;
    [eapply c; first [apply surjective_pairing | vm_compute; reflexivity
                     | apply (bool_decide_unpack _); vm_compute; exact I]
    |vm_compute; reflexivity|].

(** An event is none of a list. *)
Ltac absent :=
  rewrite ?elem_of_cons, elem_of_nil; intros Hin; repeat destruct Hin as [Hin|Hin]; discriminate Hin || destruct Hin.

(** A notification is handed over, the server is suspended, the handler ends; then
    a second notification is dropped. *)
Definition drained : list Event := [EStart; ERequest 0 None; EAnswered 0 201 (Some 0%nat); EStarts 0].
Definition waited : list Event := ESuspend 0 None :: [EActs 0; EEnds 0] ++ [ESuspendEnds 0 true].
Definition dropped : list Event := [ERequest 1 None; EAnswered 1 201 None].

Lemma suspended_server_is_quiet_witness :
  ∃ s, run warn (new_server true) (drained ++ waited ++ dropped) s ∧
    live s = ∅ ∧ EActs 0 ∉ dropped ∧ EStarts 0 ∉ dropped.
Proof.
  assert (∃ s, run warn (new_server true) (drained ++ waited ++ dropped) s) as [s Hr].
  { eexists. cbn [app drained waited dropped].
    go (start_step warn). go (request_step warn _ 0 true). go (body_step warn _ 0 [] (Some "")).
    go (starts_step warn _ 0). go (suspend_step warn _ 0). go (acts_step warn _ 0). go (ends_step warn _ 0).
    go (suspend_ends_step warn _ 0). go (request_step warn _ 1 true). go (body_step warn _ 1 [] (Some "")).
    apply run_nil. }
  exists s. split; [exact Hr|].
  apply (suspended_server_is_quiet warn true drained 0 waited dropped _ 0 Hr).
  - apply after_wait; [|intros b]; absent.
  - unfold dropped. absent.
  - unfold drained, waited, dropped. cbn [app]. absent.
Defined.

(** A [stop] that waits for the handlers it cancelled still takes requests; the
    handler of one is cleared from the set with the others, and runs on after
    [stop] has returned. *)
Example stop_leaves_handler_running :
  ∃ s, run warn (new_server true)
    [EStart; ERequest 0 None; EAnswered 0 201 (Some 0%nat); EStarts 0; EStop;
     ERequest 1 None; EAnswered 1 201 (Some 1%nat); EEnds 0; EStopGathered true; EStopEnds; EStarts 1; EActs 1] s ∧
    sv_stop s = None ∧ sv_listening s = false.
Proof.
  eexists. split; [|split].
  { go (start_step warn). go (request_step warn _ 0 true). go (body_step warn _ 0 [] (Some "")).
    go (starts_step warn _ 0). go (stop_step warn). go (request_step warn _ 1 true).
    go (body_step warn _ 1 [] (Some "")). go (ends_step warn _ 0). go (stop_gathered_step warn).
    go (stop_ends_step warn). go (starts_step warn _ 1). go (acts_step warn _ 1). apply run_nil. }
  all: vm_compute; reflexivity.
Qed.
