(* ===== verification/Recovery.v ===== *)
(** * Recovery: how client/csip_client.py follows the state of the connection

    The refresh of the clocks, the counting of failed polls, and the mode of
    lost communications that the probe enters and leaves.  The processor's part
    of that mode is in [Processor] and [CommsLoss]; rediscovery is that of
    [Notifications]. *)

From S2P Require Import Prelude Polling Timebase Subscriptions Notifications.

(** ** What a request raises *)

Inductive PollError :=
| Sep2NoContentError
| Sep2RedirectError
| Sep2ProtocolError (status : Z)
| Sep2PayloadError
| OtherError (n : nat)
| TaskCancelled.                         (* not an Exception *)

#[global] Instance PollError_eq : EqDecision PollError.
Proof. solve_decision. Defined.

Definition is_absent_fsa_time (e : PollError) (is_global : bool) : bool :=
  if is_global then false
  else match e with
       | Sep2NoContentError => true      (* status 204 *)
       | Sep2ProtocolError s => (s =? 404) || (s =? 204)
       | _ => false
       end.

Definition needs_poll_recovery (e : PollError) (is_global : bool) : bool :=
  match e with
  | Sep2RedirectError => true
  | Sep2NoContentError | Sep2ProtocolError _ => is_global
  | _ => false
  end.

(** ** Refreshing the clocks *)

Module Clocks.

(** A Time resource: its time and its quality, where they are integers. *)
Record TimeResource := mkTR { tr_value : option Z; tr_quality : option Z }.

Abbreviation scope := (option string).   (* [None]: the global one *)

(** The state the poll reads and writes. *)
Record Times := mkTimes {
  tm_href : option string;
  tm_fsa_hrefs : dict string string;
  tm_time : option TimeResource;
  tm_fsa_time : dict string (string * TimeResource);
  tm_base : Timebase;
  tm_gets : list string;                 (* the requests made *)
}.

(** Each href with the scopes that read it. *)
Definition add_scope (href : string) (s : scope) (d : dict string (list scope)) : dict string (list scope) :=
  dict_set href (default [] (dict_get href d) ++ [s]) d.

Definition scopes_of (global : option string) (fsas : dict string string) : dict string (list scope) :=
  foldl (λ d ft, add_scope ft.2 (Some ft.1) d)
    (match global with Some (String _ _ as href) => add_scope href None [] | _ => [] end) fsas.

Section Poll.
(** What each GET answers and when. *)
Context (fetch : string → PollError + TimeResource) (at_get : string → Clock).

Definition observe_scope (href : string) (r : TimeResource) (t : Times) (s : scope) : Times :=
  let base := observe_time_resource (at_get href) (tr_value r) (tr_quality r) s href (tm_base t) in
  match s with
  | None => mkTimes (tm_href t) (tm_fsa_hrefs t) (Some r) (tm_fsa_time t) base (tm_gets t)
  | Some f => mkTimes (tm_href t) (tm_fsa_hrefs t) (tm_time t) (dict_set f (href, r) (tm_fsa_time t)) base
                (tm_gets t)
  end.

Definition got (href : string) (t : Times) : Times :=
  mkTimes (tm_href t) (tm_fsa_hrefs t) (tm_time t) (tm_fsa_time t) (tm_base t) (tm_gets t ++ [href]).

Record Acc := mkAcc { ac_refreshed : nat; ac_recoverable : option PollError; ac_last : option PollError }.

Definition is_global (hrefs : list scope) : bool := bool_decide (None ∈ hrefs).

Definition failed (e : PollError) (hrefs : list scope) (a : Acc) : Acc :=
  if is_absent_fsa_time e (is_global hrefs) then a
  else mkAcc (ac_refreshed a)
         (match ac_recoverable a with
          | None => if needs_poll_recovery e (is_global hrefs) then Some e else None
          | r => r
          end) (Some e).

(** The loop over the hrefs; a cancellation leaves it at once. *)
Fixpoint refresh (l : list (string * list scope)) (a : Acc) (t : Times) : (PollError + Acc) * Times :=
  match l with
  | [] => (inr a, t)
  | (href, hrefs) :: l' =>
      let t := got href t in
      match fetch href with
      | inl TaskCancelled => (inl TaskCancelled, t)
      | inl e => refresh l' (failed e hrefs a) t
      | inr r => refresh l' (mkAcc (S (ac_refreshed a)) (ac_recoverable a) (ac_last a))
                   (foldl (observe_scope href r) t hrefs)
      end
  end.

(** [None]: the poll returns. *)
Definition do_poll_time (t : Times) : option PollError * Times :=
  let (r, t') := refresh (scopes_of (tm_href t) (tm_fsa_hrefs t)) (mkAcc 0 None None) t in
  match r with
  | inl e => (Some e, t')
  | inr a =>
      (match ac_recoverable a with
       | Some e => Some e
       | None => if bool_decide (ac_refreshed a = 0%nat) then ac_last a else None
       end, t')
  end.
End Poll.
End Clocks.

(** ** Contact with the server: client/http.py *)

Module Health.

Record Health := mkHealth {
  hh_alive : bool;                       (* server_alive *)
  hh_contact : option Z;                 (* last_contact_epoch *)
  hh_validated : option Z;               (* last_validated_epoch *)
  hh_failures : nat;                     (* consecutive_failures *)
  hh_silence : option bool;              (* silence_is_simulated *)
}.

Definition new_health : Health := mkHealth true None None 0 None.

(** [_record_contact]; [injected]: the failure was the gate's. *)
Definition record_contact (reachable injected : bool) (now : Z) (h : Health) : Health :=
  if negb reachable then
    mkHealth false (hh_contact h) (hh_validated h) (S (hh_failures h))
      (match hh_silence h with
       | None => Some injected
       | Some b => if negb injected then Some false else Some b
       end)
  else mkHealth true (Some now) (Some now) 0 None.

Definition reset_session (h : Health) : Health := mkHealth false None None 0 (hh_silence h).

(** What a request that is not a GET comes to, after its retries. *)
Inductive Answer := Answered | Refused | Unreachable (injected : bool).

(** [_send_tracked]: whether it raises, and the health. *)
Definition send_tracked (a : Answer) (now : Z) (h : Health) : bool * Health :=
  match a with
  | Answered => (false, record_contact true false now h)
  | Refused => (true, record_contact true false now h)
  | Unreachable injected => (true, record_contact false injected now h)
  end.

(** [_connectivity_probe]: whether it makes its request. *)
Definition connectivity_probe (heartbeat now : Z) (h : Health) : bool :=
  negb (hh_alive h && match hh_validated h with Some v => now - v <? heartbeat | None => false end).
End Health.

(** ** The gate of the simulation: client/comm_loss_simulation.py *)

Module Gate.
Import Health.

Inductive SimPhase := INACTIVE | ACTIVE | RECOVERING | RECOVERED | RECOVERY_FAILED.

Record CommLossSimulation := mkSim {
  sim_active : bool;
  sim_started : option Z;
  sim_expires : option Z;
  sim_phase : SimPhase;
  sim_detail : option string;
  sim_in_flight : Z;
  sim_idle : bool;
}.

Definition new_sim : CommLossSimulation := mkSim false None None INACTIVE None 0 true.

Definition arm (now expires_at : Z) (s : CommLossSimulation) : CommLossSimulation :=
  mkSim true (Some now) (Some expires_at) ACTIVE None (sim_in_flight s) (sim_idle s).
Definition disarm (s : CommLossSimulation) : CommLossSimulation :=
  mkSim false (sim_started s) None RECOVERING None (sim_in_flight s) (sim_idle s).
Definition abort (s : CommLossSimulation) : CommLossSimulation :=
  mkSim false None None INACTIVE None (sim_in_flight s) (sim_idle s).
Definition note_recovered (s : CommLossSimulation) : CommLossSimulation :=
  mkSim (sim_active s) None (sim_expires s) RECOVERED None (sim_in_flight s) (sim_idle s).
Definition note_recovery_failed (detail : string) (s : CommLossSimulation) : CommLossSimulation :=
  mkSim (sim_active s) (sim_started s) (sim_expires s) RECOVERY_FAILED (Some detail) (sim_in_flight s)
    (sim_idle s).
Definition note_request_started (s : CommLossSimulation) : CommLossSimulation :=
  mkSim (sim_active s) (sim_started s) (sim_expires s) (sim_phase s) (sim_detail s) (sim_in_flight s + 1) false.
Definition note_request_finished (s : CommLossSimulation) : CommLossSimulation :=
  let n := sim_in_flight s - 1 in
  if n <=? 0 then
    mkSim (sim_active s) (sim_started s) (sim_expires s) (sim_phase s) (sim_detail s) 0 true
  else mkSim (sim_active s) (sim_started s) (sim_expires s) (sim_phase s) (sim_detail s) n (sim_idle s).

(** A request between [__aenter__] and [__aexit__] ([_GatedRequestContext]). *)
Inductive Request := Entering | Inside | Over.

Definition counted (r : Request) : bool := match r with Over => false | _ => true end.

Record Link := mkGateLink {
  gl_sim : CommLossSimulation;
  gl_requests : list Request;
  gl_health : Health;
}.

Definition new_link : Link := mkGateLink new_sim [] new_health.

(** [__aenter__], up to its await: an armed gate fails the request. *)
Definition begin_request (now : Z) (l : Link) : Link :=
  if sim_active (gl_sim l) then
    mkGateLink (gl_sim l) (gl_requests l ++ [Over]) (record_contact false true now (gl_health l))
  else mkGateLink (note_request_started (gl_sim l)) (gl_requests l ++ [Entering]) (gl_health l).

(** The request leaves its context, with an answer of the server or without. *)
Definition end_request (i : nat) (reachable : bool) (now : Z) (l : Link) : Link :=
  mkGateLink (note_request_finished (gl_sim l)) (<[i := Over]> (gl_requests l))
    (record_contact reachable false now (gl_health l)).

Definition on_sim (f : CommLossSimulation → CommLossSimulation) (l : Link) : Link :=
  mkGateLink (f (gl_sim l)) (gl_requests l) (gl_health l).

(** Steps of the requests, and those of whoever works the gate. *)
Inductive request_step : Link → Link → Prop :=
| begins l now : request_step l (begin_request now l)
| connects l i : gl_requests l !! i = Some Entering →
    request_step l (mkGateLink (gl_sim l) (<[i := Inside]> (gl_requests l)) (gl_health l))
| fails l i now : gl_requests l !! i = Some Entering → request_step l (end_request i false now l)
| ends l i reachable now : gl_requests l !! i = Some Inside → request_step l (end_request i reachable now l)
| cancelled l i r : gl_requests l !! i = Some r → counted r = true →
    request_step l (mkGateLink (note_request_finished (gl_sim l)) (<[i := Over]> (gl_requests l)) (gl_health l))
| phases l detail : request_step l (on_sim (note_recovery_failed detail) l)
| recovers l : request_step l (on_sim note_recovered l).

Inductive gate_step : Link → Link → Prop :=
| arms l now expires_at : gate_step l (on_sim (arm now expires_at) l)
| disarms l : gate_step l (on_sim disarm l)
| aborts l : gate_step l (on_sim abort l).

Definition link_step (l l' : Link) : Prop := request_step l l' ∨ gate_step l l'.
End Gate.

(** ** The window of a simulation, from its arming to its end *)

Module Window.
Import Gate.

Inductive TimerState := Sleeping | Waking | Clearing | Ended.

(** A task of [_expire_comm_loss_simulation]. *)
Record Timer := mkTimer { ti_gen : nat; ti_state : TimerState; ti_cancelled : bool }.

(** Who holds the lifecycle lock. *)
Inductive Holder :=
| Suspends                               (* simulate_comm_loss, draining the notifications *)
| Drains                                 (* simulate_comm_loss, draining the requests *)
| Clears                                 (* clear_comm_loss_simulation *)
| Expires (i : nat).                     (* the timer, clearing *)

Record Window := mkWindow {
  w_gen : nat;
  w_sim : CommLossSimulation;
  w_suspended : bool;                    (* the notification server's *)
  w_holder : option Holder;
  w_timers : list Timer;
  w_handle : option nat;                 (* _comm_loss_simulation_expiry *)
  w_stopped : bool;
}.

Definition new_window : Window := mkWindow 0 new_sim false None [] None false.

(** [ValueError] otherwise; a float that is not finite is [None]. *)
Definition accepts (duration drain_timeout : option Z) : bool :=
  match duration, drain_timeout with
  | Some d, Some t => (0 <? d) && (0 <=? t)
  | _, _ => false
  end.

Definition set_timer (i : nat) (st : TimerState) (ts : list Timer) : list Timer :=
  alter (λ t, mkTimer (ti_gen t) st (ti_cancelled t)) i ts.
Definition cancel_timer (i : nat) (ts : list Timer) : list Timer :=
  alter (λ t, mkTimer (ti_gen t) (ti_state t) true) i ts.

(** [_cancel_comm_loss_simulation_expiry]; [self]: the timer that calls. *)
Definition cancel_expiry (self : option nat) (w : Window) : Window :=
  match w_handle w with
  | None => w
  | Some i =>
      if decide (self = Some i) then w
      else mkWindow (w_gen w) (w_sim w) (w_suspended w) (w_holder w) (cancel_timer i (w_timers w)) None
             (w_stopped w)
  end.

(** [simulate_comm_loss], from taking the lock to the wait for the handlers,
    from there to the wait for the requests, its failure in either, and its
    end. *)
Definition simulate_begins (w : Window) : Window :=
  let w := cancel_expiry None
             (mkWindow (S (w_gen w)) (w_sim w) (w_suspended w) (w_holder w) (w_timers w) (w_handle w)
                (w_stopped w)) in
  mkWindow (w_gen w) (w_sim w) true (Some Suspends) (w_timers w) (w_handle w) (w_stopped w).

Definition simulate_arms (now expires_at : Z) (w : Window) : Window :=
  mkWindow (w_gen w) (arm now expires_at (w_sim w)) (w_suspended w) (Some Drains) (w_timers w) (w_handle w)
    (w_stopped w).

Definition simulate_fails (w : Window) : Window :=
  mkWindow (w_gen w) (abort (w_sim w)) false None (w_timers w) (w_handle w) (w_stopped w).

Definition simulate_ends (w : Window) : Window :=
  mkWindow (w_gen w) (w_sim w) (w_suspended w) None (w_timers w ++ [mkTimer (w_gen w) Sleeping false])
    (Some (length (w_timers w))) (w_stopped w).

(** [_clear_comm_loss_simulation_locked], up to the recovery, and its end. *)
Definition clear_locked (self : option nat) (holder : Holder) (w : Window) : Window :=
  let w := cancel_expiry self w in
  mkWindow (w_gen w) (disarm (w_sim w)) false (Some holder) (w_timers w) (w_handle w) (w_stopped w).

Definition clear_ends (recovered : bool) (w : Window) : Window :=
  mkWindow (w_gen w)
    (if recovered then note_recovered (w_sim w) else note_recovery_failed "recovery failed" (w_sim w))
    (w_suspended w) None (w_timers w) (w_handle w) (w_stopped w).

(** The timer, once it has the lock. *)
Definition timer_runs (i : nat) (t : Timer) (w : Window) : Window :=
  if bool_decide (ti_gen t ≠ w_gen w) || negb (sim_active (w_sim w)) then
    mkWindow (w_gen w) (w_sim w) (w_suspended w) (w_holder w) (set_timer i Ended (w_timers w)) (w_handle w)
      (w_stopped w)
  else
    clear_locked (Some i) (Expires i)
      (mkWindow (w_gen w) (w_sim w) (w_suspended w) (w_holder w) (set_timer i Clearing (w_timers w))
         (w_handle w) (w_stopped w)).

Definition timer_to (i : nat) (st : TimerState) (w : Window) : Window :=
  mkWindow (w_gen w) (w_sim w) (w_suspended w) (w_holder w) (set_timer i st (w_timers w)) (w_handle w)
    (w_stopped w).

(** [_stop_comm_loss_simulation_expiry], at shutdown. *)
Definition stop (w : Window) : Window :=
  mkWindow (w_gen w) (w_sim w) (w_suspended w) (w_holder w)
    (match w_handle w with Some i => cancel_timer i (w_timers w) | None => w_timers w end) None true.

(** What the timers do by themselves. *)
Inductive timer_step : Window → Window → Prop :=
| wakes w i t : w_timers w !! i = Some t → ti_state t = Sleeping → ti_cancelled t = false →
    timer_step w (timer_to i Waking w)
| runs w i t : w_timers w !! i = Some t → ti_state t = Waking → ti_cancelled t = false →
    w_holder w = None → timer_step w (timer_runs i t w)
| expired w i t recovered : w_timers w !! i = Some t → ti_state t = Clearing → w_holder w = Some (Expires i) →
    timer_step w (timer_to i Ended (clear_ends recovered w))
| cut_short w i t : w_timers w !! i = Some t → ti_cancelled t = true → ti_state t ≠ Clearing →
    timer_step w (timer_to i Ended w)
| cut_off w i t : w_timers w !! i = Some t → ti_cancelled t = true → w_holder w = Some (Expires i) →
    timer_step w (timer_to i Ended
      (mkWindow (w_gen w) (w_sim w) (w_suspended w) None (w_timers w) (w_handle w) (w_stopped w))).

(** What the operator's calls do; one that waits for the lock has done nothing
    yet. *)
Inductive operator_step : Window → Window → Prop :=
| simulates w : w_holder w = None → operator_step w (simulate_begins w)
| armed w now expires_at : w_holder w = Some Suspends → operator_step w (simulate_arms now expires_at w)
| failed w : w_holder w = Some Suspends ∨ w_holder w = Some Drains → operator_step w (simulate_fails w)
| simulated w : w_holder w = Some Drains → operator_step w (simulate_ends w)
| clears w : w_holder w = None → operator_step w (clear_locked None Clears w)
| cleared w recovered : w_holder w = Some Clears → operator_step w (clear_ends recovered w)
| stops w : operator_step w (stop w).

Definition window_step (w w' : Window) : Prop := timer_step w w' ∨ operator_step w w'.
Definition reachable (w : Window) : Prop := rtc window_step new_window w.
End Window.

(** ** Failed polls and lost communications *)

Module Loss.
Import Health.

Inductive Audit :=
| Entered (elapsed : Z) (simulated : bool)
| Recovering (duration : Z) (simulated : bool)
| Cleared (resume : option Z).

Inductive Act :=
| Audits (a : Audit)
| OptsOut                                (* event_processor.enter_comms_loss() *)
| Registers                              (* register_end_device of the own LFDI *)
| Reconnected                            (* the reconnect callbacks *)
| Resubscribes.                          (* _auto_subscribe *)

Record Loss := mkLoss {
  ls_client : Client;
  ls_health : Health;
  ls_active : bool;                      (* CommsLossState *)
  ls_resume : option Z;
  ls_entered : option Z;
  ls_simulated : bool;
  ls_failures : nat;                     (* _poll_failure_count *)
  ls_acts : list Act;
}.

Definition does (a : Act) (l : Loss) : Loss :=
  mkLoss (ls_client l) (ls_health l) (ls_active l) (ls_resume l) (ls_entered l) (ls_simulated l)
    (ls_failures l) (ls_acts l ++ [a]).
Definition set_resume (r : option Z) (l : Loss) : Loss :=
  mkLoss (ls_client l) (ls_health l) (ls_active l) r (ls_entered l) (ls_simulated l) (ls_failures l) (ls_acts l).
Definition set_client (c : Client) (l : Loss) : Loss :=
  mkLoss c (ls_health l) (ls_active l) (ls_resume l) (ls_entered l) (ls_simulated l) (ls_failures l) (ls_acts l).
Definition set_failures (n : nat) (l : Loss) : Loss :=
  mkLoss (ls_client l) (ls_health l) (ls_active l) (ls_resume l) (ls_entered l) (ls_simulated l) n (ls_acts l).

(** The client's own registration, as the server answers: still listed, or gone
    and registered again, or a failure of either, which is logged. *)
Inductive RegAnswer := Listed | Gone | RegFailed.

(** What a tick of the probe meets: the local clocks, the server's before and
    after a recovery (all in milliseconds), the answers to a recovery, and of
    the event processor the ends of the events it opts out: those running when
    the mode is entered, and those it finds due while a recovery goes on. *)
Record Tick := {
  tk_now : Z;
  tk_mono : Z;
  tk_server : Z;
  tk_later : Z;
  tk_reg : option RegAnswer;             (* [None]: no LFDI of its own *)
  tk_pass : nat → Client → bool * Client;
  tk_running : list Z;
  tk_opted : list Z;
}.

Section Probe.
Context (comms_loss_seconds : Z).

(** [int(x)] of a number of seconds, in milliseconds. *)
Definition int_s (ms : Z) : Z := Z.quot ms 1000.

(** The event processor shares the state: opting out an event raises the
    boundary to its end. *)
Definition opts_out (l : Loss) (ends : list Z) : Loss :=
  foldl (λ l e, set_resume (Some (Z.max (default 0 (ls_resume l)) e)) l) l ends.

Definition enter_comms_loss (elapsed mono : Z) (running : list Z) (l : Loss) : Loss :=
  if ls_active l then l
  else
    let simulated := bool_decide (hh_silence (ls_health l) = Some true) in
    opts_out (does OptsOut (does (Audits (Entered elapsed simulated))
      (mkLoss (ls_client l) (ls_health l) true (ls_resume l) (Some mono) simulated (ls_failures l) (ls_acts l))))
      running.

Definition comms_loss_duration (mono : Z) (l : Loss) : Z :=
  match ls_entered l with Some started => int_s (mono - started) | None => 0 end.

Definition boundary_passed (server : Z) (l : Loss) : bool :=
  match ls_resume l with Some b => b <? int_s server | None => false end.

(** The task that runs it is [caller]. *)
Definition recover_from_comms_loss (caller : option nat) (t : Tick) (l : Loss) : Notifications.Ended * Loss :=
  let l := does (Audits (Recovering (comms_loss_duration (tk_mono t) l) (ls_simulated l))) l in
  let l := match tk_reg t with Some Gone => does Registers l | _ => l end in
  let (r, c) := trigger_rediscovery (tk_pass t) caller (ls_client l) in
  let l := opts_out (set_client c l) (tk_opted t) in
  match r with
  | Returned true =>
      let l := mkLoss (ls_client l) (ls_health l) false (ls_resume l) (ls_entered l) (ls_simulated l)
                 (ls_failures l) (ls_acts l) in
      let l := if boundary_passed (tk_later t) l then set_resume None l else l in
      let l := does (Audits (Cleared (ls_resume l))) l in
      (r, mkLoss (ls_client l) (ls_health l) (ls_active l) (ls_resume l) None (ls_simulated l) (ls_failures l)
            (ls_acts l))
  | _ => (r, l)
  end.

(** [Returned]: the tick comes to its end. *)
Definition comms_loss_probe (caller : option nat) (t : Tick) (l : Loss) : Notifications.Ended * Loss :=
  let l := if negb (ls_active l) && boundary_passed (tk_server t) l then set_resume None l else l in
  match hh_contact (ls_health l) with
  | None => (Returned true, l)
  | Some contact =>
      let elapsed := int_s (tk_now t - contact * 1000) in
      if negb (ls_active l) then
        (Returned true, if comms_loss_seconds <=? elapsed then enter_comms_loss elapsed (tk_mono t) (tk_running t) l
                         else l)
      else if elapsed <? comms_loss_seconds then recover_from_comms_loss caller t l
      else (Returned true, l)
  end.

(** [recover_from_comms_loss_now], once it has the lock of the probe. *)
Definition recover_from_comms_loss_now (t : Tick) (l : Loss) : Notifications.Ended * Loss :=
  if negb (ls_active l) then (Returned true, l) else recover_from_comms_loss None t l.
End Probe.

(** *** The failures of polls *)

Definition SERVER_RESTART_DETECTION_THRESHOLD : nat := 3.

Section Polls.
Context (pass : nat → Client → bool * Client) (has_manager : bool)
  (auto_subscribes : Client → option PollError * Client).

(** The rediscovery a poll starts: the result is ignored. *)
Definition rediscovers (caller : option nat) (l : Loss) : option PollError * Loss :=
  let (r, c) := trigger_rediscovery pass caller (ls_client l) in
  (match r with Returned _ => None | CancelledError => Some TaskCancelled end, set_client c l).

Definition note_successful_contact (caller : option nat) (l : Loss) : option PollError * Loss :=
  if decide (ls_failures l = 0%nat) then (None, l)
  else
    let recovered_after := ls_failures l in
    let l := set_failures 0 l in
    if decide (SERVER_RESTART_DETECTION_THRESHOLD ≤ recovered_after)%nat then
      let l := if has_manager then set_client (on_mgr clear_resubscribe_suppression (ls_client l)) l else l in
      rediscovers caller (does Reconnected l)
    else if has_manager then
      let (r, c) := auto_subscribes (ls_client l) in (r, set_client c (does Resubscribes l))
    else (None, l).

(** The handlers, for what the poll has raised. *)
Definition handle_poll_error (caller : option nat) (e : PollError) (l : Loss) : option PollError * Loss :=
  match e with
  | Sep2NoContentError => note_successful_contact caller l
  | Sep2RedirectError => rediscovers caller (set_failures 0 l)
  | Sep2ProtocolError status =>
      if status =? 404 then rediscovers caller (set_failures 0 l)
      else (Some e, set_failures (S (ls_failures l)) l)
  | Sep2PayloadError => (None, set_failures (S (ls_failures l)) l)
  | OtherError _ => (Some e, set_failures (S (ls_failures l)) l)
  | TaskCancelled => (Some e, l)
  end.

(** [_poll_with_404_recovery], for a poll that comes to [outcome]; the contact
    is noted inside the same [try]. *)
Definition poll_with_404_recovery (caller : option nat) (outcome : option PollError) (l : Loss)
    : option PollError * Loss :=
  match outcome with
  | None =>
      match note_successful_contact caller l with
      | (Some e, l) => handle_poll_error caller e l
      | r => r
      end
  | Some e => handle_poll_error caller e l
  end.
End Polls.
End Loss.
