(* ===== verification/RecoveryProps.v ===== *)
(** * RecoveryProps: what the client makes of its connection

    About [Recovery]: the refresh of the clocks reaches every scope and hides no
    failure that matters, and the mode of lost communications follows the
    contact with the server. *)

From S2P Require Import Prelude Polling Timebase Subscriptions Notifications Recovery.

Module ClockProps.
Import Clocks.

(** ** Scopes *)

(** The href a scope reads its time from. *)
Definition reads (global : option string) (fsas : dict string string) (s : scope) : option string :=
  match s with
  | None => match global with Some (String _ _ as href) => Some href | _ => None end
  | Some f => dict_get f fsas
  end.

Record groups (d : dict string (list scope)) (R : scope → option string) : Prop := {
  gr_wf : dict_wf d;
  gr_spec : ∀ h s, s ∈ default [] (dict_get h d) ↔ R s = Some h;
  gr_some : ∀ h hs, dict_get h d = Some hs → hs ≠ [];
}.

Lemma groups_add d R h s :
  groups d R → R s = None → groups (add_scope h s d) (λ s', if decide (s' = s) then Some h else R s').
Proof.
  intros [Hw Hs Hn] Hr. unfold add_scope. split.
  - by apply dict_set_wf.
  - intros h' s'. rewrite dict_get_set. destruct (decide (h' = h)) as [->|Hh]; cbn.
    + rewrite elem_of_app, Hs, list_elem_of_singleton. case_decide; [naive_solver|tauto].
    + rewrite Hs. case_decide; [|done]. subst. rewrite Hr. naive_solver.
  - intros h' hs. rewrite dict_get_set. case_decide; [intros [= <-]; by destruct (default [] _)|apply Hn].
Qed.

Lemma groups_ext d R R' : (∀ s, R s = R' s) → groups d R → groups d R'.
Proof. intros He [Hw Hs Hn]. split; [done| |done]. intros h s. by rewrite Hs, He. Qed.

Lemma groups_fold fsas d R :
  dict_wf fsas → groups d R → (∀ f, f ∈ dict_keys fsas → R (Some f) = None) →
  groups (foldl (λ d ft, add_scope ft.2 (Some ft.1) d) d fsas)
    (λ s, match s with
          | Some f => match dict_get f fsas with Some h => Some h | None => R (Some f) end
          | None => R None
          end).
Proof.
  unfold dict_wf, dict_keys. revert d R. induction fsas as [|[f h] fsas IH]; intros d R Hw Hg Hr; cbn.
  { eapply groups_ext; [|exact Hg]. by intros [f|]. }
  apply NoDup_cons in Hw as [Hf Hw]. cbn in Hr.
  assert (R (Some f) = None) as Hrf by (apply Hr; left).
  eapply groups_ext; [|apply (IH _ _ Hw (groups_add d R h (Some f) Hg Hrf))].
  - intros [f'|]; cbn.
    + unfold dict_get. cbn. destruct (decide (f' = f)) as [->|Hne].
      * rewrite decide_True by done. fold (dict_get f fsas).
        by rewrite (proj2 (dict_get_None f fsas)).
      * rewrite decide_False by congruence. done.
    + done.
  - intros f' Hin. rewrite decide_False by (intros [= ->]; done). apply Hr. by right.
Qed.

Lemma scopes_groups global fsas : dict_wf fsas → groups (scopes_of global fsas) (reads global fsas).
Proof.
  intros Hw. unfold scopes_of.
  assert (groups (match global with Some (String _ _ as href) => add_scope href None [] | _ => [] end)
            (λ s, match s with None => reads global fsas None | Some _ => None end)) as H0.
  { assert (groups [] (λ _, None)) as He.
    { split; [constructor| |done]. intros h s. cbn. split; [by intros ?%elem_of_nil|done]. }
    destruct global as [[|c l]|]; cbn.
    - eapply groups_ext; [|exact He]. by intros [].
    - eapply groups_ext; [|apply (groups_add _ _ (String c l) None He eq_refl)]. by intros [].
    - eapply groups_ext; [|exact He]. by intros []. }
  eapply groups_ext; [|apply (groups_fold fsas _ _ Hw H0); done]. intros [f|]; cbn; [|done].
  by destruct (dict_get f fsas).
Qed.

(** ** What the loop does *)

Section Refresh.
Context (fetch : string → PollError + TimeResource) (at_get : string → Clock).

Definition observed (t : Times) (s : scope) : option TimeObservation :=
  match s with None => tb_global (tm_base t) | Some f => dict_get f (tb_per_fsa (tm_base t)) end.

(** What the answer of [h] tells a scope. *)
Definition told (h : string) (old : option TimeObservation) : option TimeObservation :=
  match fetch h with
  | inr {| tr_value := Some v; tr_quality := q |} => Some (observation (at_get h) v (default 0 q) h)
  | _ => old
  end.

Lemma observed_scope h r t s s' :
  fetch h = inr r →
  observed (observe_scope at_get h r t s) s' = if decide (s' = s) then told h (observed t s') else observed t s'.
Proof.
  intros Hf. unfold told. rewrite Hf. unfold observe_scope, observe_time_resource, observe.
  destruct r as [[v|] q], s as [f|], s' as [f'|]; cbn; try (case_decide; done); try done.
  rewrite dict_get_set. repeat case_decide; congruence.
Qed.

Lemma told_idem h old : told h (told h old) = told h old.
Proof. unfold told. destruct (fetch h) as [|[[v|] q]]; done. Qed.

Lemma observed_scopes h r ss t s :
  fetch h = inr r →
  observed (foldl (observe_scope at_get h r) t ss) s =
  if decide (s ∈ ss) then told h (observed t s) else observed t s.
Proof.
  intros Hf. revert t. induction ss as [|s0 ss IH]; intros t; cbn.
  { by rewrite decide_False by set_solver. }
  rewrite IH, observed_scope by done. destruct (decide (s = s0)) as [->|Hne].
  - rewrite (decide_True (P := s0 ∈ _ :: _)) by set_solver. case_decide; [by rewrite told_idem|done].
  - destruct (decide (s ∈ ss)); [rewrite decide_True by set_solver; done|by rewrite decide_False by set_solver].
Qed.

Lemma gets_scopes h r ss t : tm_gets (foldl (observe_scope at_get h r) t ss) = tm_gets t.
Proof. revert t. induction ss as [|[f|] ss IH]; intros t; cbn; [done|by rewrite IH..]. Qed.

(** An entry that answers, and one whose failure is to be raised. *)
Definition answers (e : string * list scope) : Prop := ∃ r, fetch e.1 = inr r.
Definition raises (e : string * list scope) (err : PollError) : Prop :=
  fetch e.1 = inl err ∧ is_absent_fsa_time err (is_global e.2) = false.

Lemma refresh_spec l a t :
  dict_wf l → (∀ h, fetch h ≠ inl TaskCancelled) →
  (∀ h hs h' hs' s, (h, hs) ∈ l → (h', hs') ∈ l → s ∈ hs → s ∈ hs' → h = h') →
  let t' := (refresh fetch at_get l a t).2 in
  tm_gets t' = tm_gets t ++ l.*1 ∧
  (∀ h hs s, (h, hs) ∈ l → s ∈ hs → observed t' s = told h (observed t s)) ∧
  (∀ s, (∀ h hs, (h, hs) ∈ l → s ∉ hs) → observed t' s = observed t s).
Proof.
  intros Hw Hc. revert a t Hw. induction l as [|[h hs] l IH]; intros a t Hw Hu.
  { cbn. rewrite app_nil_r. split_and!; try done. by intros ? ? ? ?%elem_of_nil. }
  unfold dict_wf, dict_keys in Hw. cbn in Hw. apply NoDup_cons in Hw as [Hh Hw].
  assert (∀ h' hs' s, (h', hs') ∈ l → s ∈ hs → s ∉ hs') as Hdis.
  { intros h' hs' s Hin Hs Hs'. apply Hh. assert (h = h') as <- by (eapply (Hu h hs h' hs' s); [by left|by right|done|done]).
    apply list_elem_of_fmap. by exists (h, hs'). }
  assert (∀ a1 t1, tm_gets t1 = tm_gets t ++ [h] →
    (∀ s, observed t1 s = if decide (s ∈ hs) then told h (observed t s) else observed t s) →
    let t' := (refresh fetch at_get l a1 t1).2 in
    tm_gets t' = tm_gets t ++ h :: l.*1 ∧
    (∀ h0 hs0 s, (h0, hs0) ∈ (h, hs) :: l → s ∈ hs0 → observed t' s = told h0 (observed t s)) ∧
    (∀ s, (∀ h0 hs0, (h0, hs0) ∈ (h, hs) :: l → s ∉ hs0) → observed t' s = observed t s)) as Hstep.
  { intros a1 t1 Hg Ho. destruct (IH a1 t1 Hw) as (I1 & I2 & I3).
    { intros h1 hs1 h2 hs2 s H1 H2. apply Hu; by right. }
    cbv zeta. split_and!.
    - by rewrite I1, Hg, <- app_assoc.
    - intros h0 hs0 s Hin Hs. apply elem_of_cons in Hin as [[= -> ->]|Hin].
      + rewrite I3, Ho, decide_True; [done|done|]. intros h' hs' Hin'. by eapply Hdis.
      + rewrite (I2 h0 hs0 s Hin Hs), Ho, decide_False; [done|]. intros Hs'. by eapply Hdis.
    - intros s Hno. rewrite I3, Ho, decide_False; [done|apply (Hno h); left|].
      intros h' hs' Hin'. apply (Hno h'). by right. }
  cbn [refresh]. destruct (fetch h) as [e|r] eqn:Ef.
  - assert (∀ s, observed (got h t) s = if decide (s ∈ hs) then told h (observed t s) else observed t s) as Ho.
    { intros s. unfold told. rewrite Ef. by case_decide. }
    assert (e ≠ TaskCancelled) as Hne by (intros ->; by apply (Hc h)).
    destruct e; try by apply Hstep. done.
  - apply Hstep; [by rewrite gets_scopes|]. intros s. by rewrite observed_scopes.
Qed.

(** *** The outcome *)

Definition tally (a : Acc) (e : string * list scope) : Acc :=
  match fetch e.1 with
  | inl err => failed err e.2 a
  | inr _ => mkAcc (S (ac_refreshed a)) (ac_recoverable a) (ac_last a)
  end.

Lemma refresh_tally l a t :
  (∀ h, fetch h ≠ inl TaskCancelled) → (refresh fetch at_get l a t).1 = inr (foldl tally a l).
Proof.
  intros Hc. revert a t. induction l as [|[h hs] l IH]; intros a t; [done|]. cbn [refresh foldl].
  unfold tally at 2. cbn. destruct (fetch h) as [e|r] eqn:Ef; [|apply IH].
  destruct e; try apply IH. by destruct (Hc h).
Qed.

(** A failure that must be raised, with its error. *)
Definition urgent (e : string * list scope) (err : PollError) : Prop :=
  raises e err ∧ needs_poll_recovery err (is_global e.2) = true.

Lemma tally_refreshed l a :
  ac_refreshed (foldl tally a l) = 0%nat ↔ ac_refreshed a = 0%nat ∧ ∀ e, e ∈ l → ¬ answers e.
Proof.
  revert a. induction l as [|e l IH]; intros a; cbn; [set_solver|]. rewrite IH. unfold tally, answers.
  destruct (fetch e.1) as [err|r] eqn:Ef.
  - assert (ac_refreshed (failed err e.2 a) = ac_refreshed a) as -> by (unfold failed; by case_match).
    split; (intros [? H]; split; [done|]); [|set_solver]. intros e' [->|?]%elem_of_cons; [|by apply H].
    rewrite Ef. naive_solver.
  - cbn. split; [lia|]. intros [_ H]. destruct (H e); [left|by exists r].
Qed.

Lemma tally_last l a :
  ac_last (foldl tally a l) = None ↔ ac_last a = None ∧ ∀ e err, e ∈ l → ¬ raises e err.
Proof.
  revert a. induction l as [|e l IH]; intros a; cbn; [set_solver|]. rewrite IH. unfold tally, raises, failed.
  destruct (fetch e.1) as [err|r] eqn:Ef.
  - destruct (is_absent_fsa_time err (is_global e.2)) eqn:Ea; cbn.
    + split; (intros [? H]; split; [done|]); [|set_solver]. intros e' err' [->|?]%elem_of_cons; [|by apply H].
      intros [? ?]. congruence.
    + split; [by intros []|]. intros [_ H]. destruct (H e err); [left|done].
  - cbn. split; (intros [? H]; split; [done|]); [|set_solver]. intros e' err' [->|?]%elem_of_cons; [|by apply H].
    intros [? ?]. congruence.
Qed.

Lemma tally_keeps l a err : ac_recoverable a = Some err → ac_recoverable (foldl tally a l) = Some err.
Proof.
  revert a. induction l as [|e l IH]; intros a Ha; cbn; [done|]. apply IH. unfold tally, failed.
  destruct (fetch e.1); [destruct (is_absent_fsa_time _ _); cbn; [done|by rewrite Ha]|done].
Qed.

Lemma tally_recoverable l a :
  ac_recoverable a = None →
  match ac_recoverable (foldl tally a l) with
  | None => ∀ e err, e ∈ l → ¬ urgent e err
  | Some err => ∃ e, e ∈ l ∧ urgent e err
  end.
Proof.
  revert a. induction l as [|e l IH]; intros a Ha; cbn; [rewrite Ha; set_solver|].
  destruct (ac_recoverable (tally a e)) as [err|] eqn:Et.
  - rewrite (tally_keeps l _ err Et). exists e. split; [left|]. unfold tally, failed, urgent, raises in *.
    destruct (fetch e.1) as [err'|r]; [|cbn in Et; congruence].
    destruct (is_absent_fsa_time err' (is_global e.2)) eqn:Ea; [congruence|]. cbn in Et. rewrite Ha in Et.
    destruct (needs_poll_recovery err' (is_global e.2)) eqn:En; [|done]. injection Et as <-. done.
  - specialize (IH _ Et). destruct (ac_recoverable (foldl tally (tally a e) l)) as [err|].
    + destruct IH as (e' & ? & ?). exists e'. split; [by right|done].
    + intros e' err [->|Hin]%elem_of_cons; [|by apply IH]. intros [[Hf Hab] Hn].
      unfold tally, failed in Et. rewrite Hf, Hab in Et. cbn in Et. by rewrite Ha, Hn in Et.
Qed.

(** The global href comes first. *)
Lemma fold_head fsas (h : string) (hs : list scope) d :
  ∃ hs' d', foldl (λ d ft, add_scope ft.2 (Some ft.1) d) ((h, hs) :: d) fsas = (h, hs') :: d'.
Proof.
  revert hs d. induction fsas as [|[f h'] fsas IH]; intros hs d; [by exists hs, d|]. cbn [foldl].
  unfold add_scope at 2. cbn [fst snd]. unfold dict_set. cbn. fold (@dict_set string (list scope)).
  case_decide; apply IH.
Qed.

Lemma global_first global fsas h :
  reads global fsas None = Some h → ∃ hs l, scopes_of global fsas = (h, hs) :: l.
Proof.
  unfold reads, scopes_of. destruct global as [[|c g]|]; try done. intros [= <-].
  apply (fold_head fsas (String c g) [None] []).
Qed.

(** *** The whole poll *)

Section Whole.
Context (t : Times) (Hw : dict_wf (tm_fsa_hrefs t)) (Hc : ∀ h, fetch h ≠ inl TaskCancelled).

Let R := reads (tm_href t) (tm_fsa_hrefs t).
Let l := scopes_of (tm_href t) (tm_fsa_hrefs t).
Let a := foldl tally (mkAcc 0 None None) l.

Lemma entry_reads h hs s : (h, hs) ∈ l → (s ∈ hs ↔ R s = Some h).
Proof using Hw.
  destruct (scopes_groups (tm_href t) (tm_fsa_hrefs t) Hw) as [Hwf Hs Hne]. intros Hh.
  apply dict_elem_get in Hh; [|done]. unfold R. rewrite <- Hs. unfold l in Hh. by rewrite Hh.
Qed.

Lemma reads_entry s h : R s = Some h → ∃ hs, (h, hs) ∈ l ∧ s ∈ hs.
Proof using Hw.
  destruct (scopes_groups (tm_href t) (tm_fsa_hrefs t) Hw) as [Hwf Hs Hne]. intros Hr. apply Hs in Hr.
  fold l in Hr. destruct (dict_get h l) as [hs|] eqn:Eh; [|by apply elem_of_nil in Hr].
  exists hs. split; [by apply dict_get_elem|done].
Qed.

Lemma entry_read h hs : (h, hs) ∈ l → ∃ s, R s = Some h.
Proof using Hw.
  destruct (scopes_groups (tm_href t) (tm_fsa_hrefs t) Hw) as [Hwf Hs Hne]. intros Hh.
  pose proof (Hne _ _ (dict_elem_get _ _ _ Hwf Hh)) as Hn. destruct hs as [|s hs]; [done|].
  exists s. apply (entry_reads h (s :: hs)); [done|left].
Qed.

Lemma entry_global h hs : (h, hs) ∈ l → is_global hs = bool_decide (R None = Some h).
Proof using Hw. intros Hh. unfold is_global. apply bool_decide_ext. by apply entry_reads. Qed.

Lemma entry_once h hs h' hs' s : (h, hs) ∈ l → (h', hs') ∈ l → s ∈ hs → s ∈ hs' → h = h'.
Proof using Hw.
  intros H1 H2 S1 S2. apply (entry_reads h hs) in S1; [|done]. apply (entry_reads h' hs') in S2; [|done]. congruence.
Qed.

Definition outcome : option PollError :=
  match ac_recoverable a with
  | Some e => Some e
  | None => if bool_decide (ac_refreshed a = 0%nat) then ac_last a else None
  end.

Lemma outcome_global h e :
  R None = Some h → fetch h = inl e → needs_poll_recovery e true = true → outcome = Some e.
Proof using Hw.
  intros Hr Hf Hn. destruct (global_first _ _ _ Hr) as (hs & l' & El). fold l in El.
  assert (is_global hs = true) as Hg.
  { rewrite (entry_global h hs) by (rewrite El; left). by apply bool_decide_eq_true. }
  unfold outcome. assert (ac_recoverable a = Some e) as ->; [|done]. unfold a. rewrite El. cbn [foldl].
  apply tally_keeps. unfold tally, failed. cbn [fst snd]. rewrite Hf, Hg. cbn. by rewrite Hn.
Qed.

Lemma outcome_redirect s h : R s = Some h → fetch h = inl Sep2RedirectError → outcome ≠ None.
Proof using Hw.
  intros Hr Hf. destruct (reads_entry s h Hr) as (hs & Hh & _). unfold outcome.
  pose proof (tally_recoverable l (mkAcc 0 None None) eq_refl) as Hrec. fold a in Hrec.
  destruct (ac_recoverable a) as [e|]; [done|]. destruct (Hrec (h, hs) Sep2RedirectError Hh).
  unfold urgent, raises. cbn. rewrite Hf. by destruct (is_global hs).
Qed.

Lemma outcome_none :
  outcome = None → (∃ s h r, R s = Some h ∧ fetch h = inr r) ∨
    ∀ s h e, R s = Some h → fetch h = inl e → R None ≠ Some h ∧ is_absent_fsa_time e false = true.
Proof using Hw.
  unfold outcome. destruct (ac_recoverable a) as [e|]; [done|]. case_bool_decide as H0.
  - intros Hl. right. intros s h e Hr Hf. destruct (reads_entry s h Hr) as (hs & Hh & _).
    assert (is_absent_fsa_time e (is_global hs) = true) as Hab.
    { destruct (is_absent_fsa_time e (is_global hs)) eqn:Ea; [done|].
      by destruct (proj2 (proj1 (tally_last l (mkAcc 0 None None)) Hl) (h, hs) e Hh). }
    rewrite (entry_global h hs Hh) in Hab. case_bool_decide; done.
  - intros _. left.
    destruct (decide (Exists (λ e, is_Some (match fetch e.1 with inr r => Some r | inl _ => None end)) l)) as [Hex|Hnex].
    + apply Exists_exists in Hex as ([h hs] & Hh & [r Hr]). cbn in Hr. destruct (entry_read h hs Hh) as [s Hs].
      exists s, h, r. split; [done|]. by destruct (fetch h); simplify_eq.
    + destruct H0. apply tally_refreshed. split; [done|]. intros [h hs] Hh [r Hr]. apply Hnex, Exists_exists.
      exists (h, hs). split; [done|]. cbn in *. rewrite Hr. eauto.
Qed.

Lemma outcome_isolated :
  (∃ s h r, R s = Some h ∧ fetch h = inr r) →
  (∀ s h e, R s = Some h → fetch h = inl e → R None ≠ Some h ∧ e ≠ Sep2RedirectError) → outcome = None.
Proof using Hw.
  intros (s & h & r & Hr & Hf) Hiso. unfold outcome.
  pose proof (tally_recoverable l (mkAcc 0 None None) eq_refl) as Hrec. fold a in Hrec.
  destruct (ac_recoverable a) as [e|].
  - destruct Hrec as ([h' hs] & Hh & [Hf' Hab] & Hn). cbn in *. exfalso. destruct (entry_read h' hs Hh) as [s' Hs'].
    destruct (Hiso s' h' e) as [Hng Hnr]; [done..|].
    rewrite (entry_global _ _ Hh), bool_decide_eq_false_2 in Hn by done. by destruct e.
  - rewrite bool_decide_eq_false_2; [done|]. intros H0. destruct (reads_entry s h Hr) as (hs & Hh & _).
    destruct (proj2 (proj1 (tally_refreshed l (mkAcc 0 None None)) H0) (h, hs) Hh). by exists r.
Qed.

Lemma poll_time_eq : (do_poll_time fetch at_get t).1 = outcome ∧
  (do_poll_time fetch at_get t).2 = (refresh fetch at_get l (mkAcc 0 None None) t).2.
Proof using Hc.
  unfold do_poll_time. pose proof (refresh_tally l (mkAcc 0 None None) t Hc) as Hacc. fold l a in Hacc |- *.
  destruct (refresh fetch at_get l (mkAcc 0 None None) t) as [r t']. cbn in Hacc. by subst r.
Qed.
End Whole.

(** Polling the clocks asks every Time resource once, however many scopes
    read it, and gives its answer to all of them; the other observations stay.
    It fails with the error of the global resource if that one moved or is gone,
    and fails for a redirect anywhere.  When it returns, some resource has
    answered, or all that failed are absent ones of single function set
    assignments; and the failure of an assignment's own resource does not fail
    the poll when another one answers. *)
Theorem time_poll_reaches_scopes (t : Times) :
  dict_wf (tm_fsa_hrefs t) → (∀ h, fetch h ≠ inl TaskCancelled) →
  let R := reads (tm_href t) (tm_fsa_hrefs t) in
  let err := (do_poll_time fetch at_get t).1 in
  let t' := (do_poll_time fetch at_get t).2 in
  (∃ new, tm_gets t' = tm_gets t ++ new ∧ NoDup new ∧ ∀ h, h ∈ new ↔ ∃ s, R s = Some h) ∧
  (∀ s, observed t' s = match R s with Some h => told h (observed t s) | None => observed t s end) ∧
  (∀ h e, R None = Some h → fetch h = inl e → needs_poll_recovery e true = true → err = Some e) ∧
  (∀ s h, R s = Some h → fetch h = inl Sep2RedirectError → err ≠ None) ∧
  (err = None → (∃ s h r, R s = Some h ∧ fetch h = inr r) ∨
     ∀ s h e, R s = Some h → fetch h = inl e → R None ≠ Some h ∧ is_absent_fsa_time e false = true) ∧
  ((∃ s h r, R s = Some h ∧ fetch h = inr r) →
   (∀ s h e, R s = Some h → fetch h = inl e → R None ≠ Some h ∧ e ≠ Sep2RedirectError) → err = None).
Proof.
  intros Hw Hc R. destruct (poll_time_eq t Hc) as [-> ->].
  pose proof (scopes_groups (tm_href t) (tm_fsa_hrefs t) Hw) as [Hwf _ _].
  destruct (refresh_spec _ (mkAcc 0 None None) t Hwf Hc (entry_once t Hw)) as (Hgets & Hobs & Hkeep).
  split_and!.
  - eexists. split_and!; [exact Hgets|exact Hwf|]. intros h. rewrite list_elem_of_fmap. split.
    + intros ([h' hs] & -> & Hh). by apply (entry_read t Hw h' hs).
    + intros (s & (hs & Hh & _)%(reads_entry t Hw)). by exists (h, hs).
  - intros s. destruct (R s) as [h|] eqn:Er.
    + destruct (reads_entry t Hw s h Er) as (hs & Hh & Hss). by apply (Hobs h hs).
    + apply Hkeep. intros h hs Hh Hss%(entry_reads t Hw h hs); [|done]. unfold R in Er. congruence.
  - by apply outcome_global.
  - by apply outcome_redirect.
  - by apply outcome_none.
  - by apply outcome_isolated.
Qed.
End Refresh.

(** *** A witness: two assignments share a clock with the device, the resource
    of a third is gone. *)

Definition sample_times : Times :=
  mkTimes (Some "/tm") [("/fsa/1", "/tm"); ("/fsa/2", "/tm"); ("/fsa/3", "/fsa/3/tm")] None []
    (new_timebase true 0 None) [].
Definition sample_fetch (h : string) : PollError + TimeResource :=
  if decide (h = "/tm") then inr (mkTR (Some 1700000000) (Some 4)) else inl (Sep2ProtocolError 404).
Definition sample_clock (_ : string) : Clock := {| wall := 1700000075000; mono := 0 |}.

Lemma time_poll_reaches_scopes_witness :
  let r := do_poll_time sample_fetch sample_clock sample_times in
  r.1 = None ∧ ob_offset <$> observed r.2 (Some "/fsa/2") = Some (-75000) ∧ tm_gets r.2 = ["/tm"; "/fsa/3/tm"].
Proof.
  destruct (time_poll_reaches_scopes sample_fetch sample_clock sample_times) as (_ & H2 & _ & _ & _ & H6).
  { apply (bool_decide_unpack _). vm_compute. exact I. }
  { intros h. unfold sample_fetch. by case_decide. }
  split_and!.
  - apply H6.
    + exists None, "/tm", (mkTR (Some 1700000000) (Some 4)). done.
    + intros s h e _. unfold sample_fetch. case_decide as Hd; [done|]. intros [= <-]. split; [|done]. intros [= ?]. done.
  - rewrite H2. vm_compute. reflexivity.
  - vm_compute. reflexivity.
Defined.
End ClockProps.
