(* ===== verification/LinkProps.v ===== *)
(** * LinkProps: contact, its simulated loss and its real one

    About [Recovery]: what the health of the link says of the requests made, the
    silence behind an armed gate, the end of every simulated window, and the
    mode of lost communications. *)

From S2P Require Import Prelude Polling Timebase Subscriptions Notifications NotificationProps Recovery.

(** ** The gate *)

Module GateProps.
Import Health Gate.

Definition in_flight (rs : list Request) : nat := length (filter (λ r, counted r = true) rs).

#[local] Arguments in_flight : simpl never.

Record gate_wf (l : Link) : Prop := {
  gw_count : sim_in_flight (gl_sim l) = Z.of_nat (in_flight (gl_requests l));
  gw_idle : sim_idle (gl_sim l) = true ↔ sim_in_flight (gl_sim l) = 0;
}.

Lemma in_flight_app rs r : in_flight (rs ++ [r]) = (in_flight rs + if counted r then 1 else 0)%nat.
Proof. unfold in_flight. rewrite filter_app, length_app, filter_cons. cbn. by destruct r. Qed.

Lemma in_flight_insert rs i r r' :
  rs !! i = Some r →
  (in_flight (<[i := r']> rs) + (if counted r then 1 else 0) = in_flight rs + if counted r' then 1 else 0)%nat.
Proof.
  intros Hi.
  assert (∀ x, in_flight (take i rs ++ x :: drop (S i) rs) =
    (in_flight (take i rs) + in_flight (drop (S i) rs) + if counted x then 1 else 0)%nat) as Hx.
  { intros x. unfold in_flight. rewrite filter_app, length_app, filter_cons. destruct x; cbn [counted];
      [rewrite decide_True by done; cbn [length]; lia..|rewrite decide_False by done; lia]. }
  rewrite insert_take_drop by (by eapply lookup_lt_Some). rewrite Hx.
  pose proof (Hx r) as Hr. rewrite (take_drop_middle rs i r Hi) in Hr. lia.
Qed.

Lemma none_in_flight rs i r : in_flight rs = 0%nat → rs !! i = Some r → r = Over.
Proof.
  intros H0 Hi. pose proof (in_flight_insert rs i r Over Hi). destruct r; cbn in *; [lia|lia|done].
Qed.

Lemma finished_wf s n :
  sim_in_flight s = Z.of_nat (S n) → (sim_idle s = true ↔ sim_in_flight s = 0) →
  sim_in_flight (note_request_finished s) = Z.of_nat n ∧
  (sim_idle (note_request_finished s) = true ↔ sim_in_flight (note_request_finished s) = 0) ∧
  sim_active (note_request_finished s) = sim_active s.
Proof.
  intros Hf Hi. unfold note_request_finished. destruct (_ <=? 0) eqn:E; cbn.
  - apply Z.leb_le in E. split_and!; [lia|done|done].
  - apply Z.leb_gt in E. split_and!; [lia| |done]. rewrite Hi. lia.
Qed.

Lemma request_wf l l' : gate_wf l → request_step l l' → gate_wf l' ∧ sim_active (gl_sim l') = sim_active (gl_sim l).
Proof.
  intros [Hc Hi] Hs.
  assert (∀ i r h, gl_requests l !! i = Some r → counted r = true →
    gate_wf (mkGateLink (note_request_finished (gl_sim l)) (<[i := Over]> (gl_requests l)) h) ∧
    sim_active (note_request_finished (gl_sim l)) = sim_active (gl_sim l)) as Hfin.
  { intros i r h Hr Hcr. pose proof (in_flight_insert _ i r Over Hr) as Hn. rewrite Hcr in Hn. cbn in Hn.
    destruct (finished_wf (gl_sim l) (in_flight (<[i := Over]> (gl_requests l)))) as (? & ? & ?); [lia|done|].
    split; [by split|done]. }
  destruct Hs as [l now|l i Hr|l i now Hr|l i reachable now Hr|l i r Hr Hcr|l detail|l].
  - unfold begin_request. destruct (sim_active (gl_sim l)) eqn:Ea.
    + split; [|done]. split; cbn; [by rewrite in_flight_app, Hc, Nat.add_0_r|done].
    + split; [|done]. split; cbn; [rewrite in_flight_app, Hc; cbn; lia|]. split; [done|lia].
  - split; [|done]. split; [|done]. cbn. rewrite Hc. pose proof (in_flight_insert _ i Entering Inside Hr). cbn in *. lia.
  - by apply (Hfin i Entering).
  - by apply (Hfin i Inside).
  - by apply (Hfin i r).
  - split; [by split|done].
  - split; [by split|done].
Qed.

Lemma link_wf l : rtc link_step new_link l → gate_wf l.
Proof.
  assert (gate_wf new_link) as H0 by (split; [done|split; done]).
  intros H. remember new_link as l0 eqn:E0. clear E0. induction H as [|l0 l1 l2 [Hr|Hg] _ IH]; [done|..]; apply IH.
  - by eapply request_wf.
  - destruct H0. destruct Hg; by split.
Qed.

(** A window that has drained isolates the client.  Once the gate is armed
    and the count of requests under way, which the drain waits for, is zero, no
    answer of the server is recorded any more until the gate is disarmed,
    whatever requests are made meanwhile: each of them fails at the gate. *)
Theorem drained_window_is_silent (l l' : Link) :
  rtc link_step new_link l → sim_active (gl_sim l) = true → sim_idle (gl_sim l) = true →
  rtc request_step l l' →
  hh_contact (gl_health l') = hh_contact (gl_health l) ∧ sim_active (gl_sim l') = true ∧
  sim_idle (gl_sim l') = true ∧ ∀ i r, gl_requests l' !! i = Some r → r = Over.
Proof.
  intros Hr%link_wf Ha Hi Hs. induction Hs as [l|l l1 l2 Hs _ IH].
  - split_and!; [done..|]. intros i r. apply none_in_flight. pose proof (gw_count l Hr).
    pose proof (proj1 (gw_idle l Hr) Hi). lia.
  - destruct (request_wf l l1 Hr Hs) as [Hw1 Ha1].
    assert (in_flight (gl_requests l) = 0%nat) as H0.
    { pose proof (gw_count l Hr). pose proof (proj1 (gw_idle l Hr) Hi). lia. }
    assert (sim_idle (gl_sim l1) = true ∧ hh_contact (gl_health l1) = hh_contact (gl_health l)) as [Hi1 Hh1].
    { destruct Hs as [l now|l i Hx|l i now Hx|l i reachable now Hx|l i r Hx Hcr|l detail|l]; try done;
        try by apply (none_in_flight _ _ _ H0) in Hx; subst.
      unfold begin_request. by rewrite Ha. }
    destruct IH as (I1 & I2 & I3 & I4); [done|congruence|done|]. split_and!; [congruence|done..].
Qed.

(** A window armed while a request was under way, and drained. *)
Definition drained : Link :=
  end_request 0 true 60 (on_sim (arm 50 500) (mkGateLink (gl_sim (begin_request 10 new_link)) [Inside]
    (gl_health (begin_request 10 new_link)))).

Lemma drained_window_is_silent_witness :
  hh_contact (gl_health (begin_request 100 drained)) = Some 60 ∧
  hh_silence (gl_health (begin_request 100 drained)) = Some true.
Proof.
  split; [|reflexivity].
  apply (drained_window_is_silent drained (begin_request 100 drained)); [|reflexivity..|].
  - eapply rtc_l; [left; apply (begins new_link 10)|]. eapply rtc_l; [left; apply (connects _ 0); reflexivity|].
    eapply rtc_l; [right; apply (arms _ 50 500)|]. eapply rtc_l; [left; apply (ends _ 0 true 60); reflexivity|].
    apply rtc_refl.
  - apply rtc_once, begins.
Defined.
End GateProps.

(** ** The health of the link *)

Module HealthProps.
Import Health.

(** What becomes of the requests, in order. *)
Inductive Seen := Contact (now : Z) | Failure (injected : bool) (now : Z).

Definition sees (h : Health) (s : Seen) : Health :=
  match s with
  | Contact now => record_contact true false now h
  | Failure injected now => record_contact false injected now h
  end.

(** The failures since the last contact, and that contact. *)
Definition since (h : list bool) (s : Seen) : list bool :=
  match s with Contact _ => [] | Failure b _ => h ++ [b] end.
Definition contact_after (c : option Z) (s : Seen) : option Z :=
  match s with Contact now => Some now | Failure _ _ => c end.

(** The silence counts as simulated when every failure of it was injected. *)
Theorem health_follows_requests (hist : list Seen) :
  let h := foldl sees new_health hist in
  let fs := foldl since [] hist in
  hh_failures h = length fs ∧ hh_contact h = foldl contact_after None hist ∧ hh_validated h = hh_contact h ∧
  hh_alive h = bool_decide (fs = []) ∧
  hh_silence h = if decide (fs = []) then None else Some (forallb id fs).
Proof.
  induction hist as [|s hist IH] using rev_ind; [done|]. rewrite !foldl_app. cbn.
  destruct IH as (I1 & I2 & I3 & I4 & I5). set (h := foldl sees new_health hist) in *.
  set (fs := foldl since [] hist) in *. destruct s as [now|b now]; cbn; [done|].
  split_and!; [rewrite length_app; cbn; lia|done|done| |].
  - rewrite bool_decide_eq_false_2; [done|]. by destruct fs.
  - rewrite I5, (decide_False (P := fs ++ [b] = [])) by (by destruct fs). rewrite forallb_app. cbn.
    case_decide as Hf; [rewrite Hf; cbn; by rewrite andb_true_r|]. destruct b, (forallb id fs); done.
Qed.
End HealthProps.

(** ** Windows *)

Module WindowProps.
Import Gate Window.

#[local] Arguments cancel_timer : simpl never.
#[local] Arguments set_timer : simpl never.

(** A timer that will still close its window. *)
Definition live (t : Timer) : Prop := ti_cancelled t = false ∧ (ti_state t = Sleeping ∨ ti_state t = Waking).

Definition setting_up (w : Window) : Prop := w_holder w = Some Suspends ∨ w_holder w = Some Drains.

Record window_wf (w : Window) : Prop := {
  ww_live : ∀ i t, w_timers w !! i = Some t → live t → w_handle w = Some i ∧ ti_gen t = w_gen w;
  ww_busy : setting_up w → w_handle w = None;
  ww_armed : sim_active (w_sim w) = true → w_stopped w = true ∨ setting_up w ∨
               (w_holder w = None ∧ ∃ i t, w_handle w = Some i ∧ w_timers w !! i = Some t ∧ live t);
  ww_suspended : w_suspended w = true → sim_active (w_sim w) = true ∨ setting_up w;
  ww_drains : w_holder w = Some Drains → sim_active (w_sim w) = true;
}.

Lemma lookup_timer (f : Timer → Timer) (i j : nat) (ts : list Timer) :
  alter f i ts !! j = if decide (j = i) then f <$> ts !! j else ts !! j.
Proof. rewrite list_lookup_alter. repeat case_decide; congruence. Qed.

(** Without its handle no timer is live. *)
Lemma cancel_expiry_none w :
  (∀ i t, w_timers w !! i = Some t → live t → w_handle w = Some i) →
  w_handle (cancel_expiry None w) = None ∧ (∀ i t, w_timers (cancel_expiry None w) !! i = Some t → ¬ live t) ∧
  w_gen (cancel_expiry None w) = w_gen w ∧ w_sim (cancel_expiry None w) = w_sim w ∧
  w_stopped (cancel_expiry None w) = w_stopped w.
Proof.
  intros Hl. unfold cancel_expiry. destruct (w_handle w) as [h|] eqn:Eh.
  - rewrite decide_False by done. cbn. split_and!; try done. intros i t. unfold cancel_timer. rewrite lookup_timer. case_decide as Hi.
    + destruct (w_timers w !! i); [|done]. intros [= <-] [? _]. done.
    + intros Ht Hv. specialize (Hl i t Ht Hv). congruence.
  - split_and!; try done. intros i t Ht Hv. specialize (Hl i t Ht Hv). congruence.
Qed.

(** A timer that leaves the live ones. *)
Lemma timer_left_wf w i t st :
  window_wf w → w_timers w !! i = Some t → ¬ live (mkTimer (ti_gen t) st (ti_cancelled t)) →
  (sim_active (w_sim w) = true → w_stopped w = true ∨ setting_up w ∨ ¬ live t) →
  window_wf (timer_to i st w).
Proof.
  intros [Hl Hb Ha Hs Hd] Ht Hn Hact. split; cbn; [| |intros Hac| |]; try done.
  - intros j t'. unfold set_timer. rewrite lookup_timer. case_decide as Hj; [|apply Hl].
    subst j. rewrite Ht. by intros [= <-].
  - destruct (Ha Hac) as [?|[?|(Hh & j & t' & Hj & Ht' & Hv)]]; [by left|by right; left|].
    destruct (Hact Hac) as [?|[?|Hnl]]; [by left|by right; left|]. right. right. split; [done|].
    exists j, t'. split_and!; [done| |done]. unfold set_timer. rewrite lookup_timer. case_decide; [|done].
    subst. congruence.
Qed.

Lemma timer_wf w w' : window_wf w → timer_step w w' → window_wf w'.
Proof.
  intros Hw Hs. pose proof Hw as [Hl Hb Ha Hsu Hd].
  destruct Hs as [w i t Ht Hst Hc|w i t Ht Hst Hc Hh|w i t recovered Ht Hst Hh|w i t Ht Hc Hst|w i t Ht Hc Hh].
  - split; cbn; [| |intros Hac| |]; try done.
    + intros j t'. unfold set_timer. rewrite lookup_timer. case_decide as Hj; [|apply Hl].
      subst j. rewrite Ht. intros [= <-] _. destruct (Hl i t Ht); [by split; [|left]|]. done.
    + destruct (Ha Hac) as [?|[?|(Hh & j & t' & Hj & Ht' & Hv)]]; [by left|by right; left|].
      right. right. split; [done|]. destruct (decide (j = i)) as [->|Hne].
      * exists i, (mkTimer (ti_gen t) Waking (ti_cancelled t)). split_and!; [done| |by split; [|right]].
        unfold set_timer. by rewrite lookup_timer, decide_True, Ht.
      * exists j, t'. split_and!; [done| |done]. unfold set_timer. by rewrite lookup_timer, decide_False.
  - assert (live t) as Hv by (split; [done|by right]). destruct (Hl i t Ht Hv) as [Hhd Hg]. unfold timer_runs.
    rewrite bool_decide_eq_false_2 by tauto. cbn [orb]. destruct (sim_active (w_sim w)) eqn:Eac; cbn [negb].
    + unfold clear_locked, cancel_expiry. cbn. rewrite Hhd, decide_True by done. split; cbn; try done.
      * intros j t'. unfold set_timer. rewrite lookup_timer. case_decide as Hj.
        -- subst j. rewrite Ht. intros [= <-] [_ [?|?]]; done.
        -- rewrite <- Hhd. apply Hl.
      * by intros [|].
    + eapply timer_left_wf; [done..| |]; [by intros [_ [?|?]]|congruence].
  - eapply timer_left_wf with (t := t).
    + unfold clear_ends. split; cbn; [done|by intros [|]| | |done].
      * assert (sim_active (if recovered then note_recovered (w_sim w) else
          note_recovery_failed "recovery failed" (w_sim w)) = sim_active (w_sim w)) as -> by (by destruct recovered).
        intros Hac. destruct (Ha Hac) as [?|[[?|?]|[? _]]]; [by left|congruence..].
      * assert (sim_active (if recovered then note_recovered (w_sim w) else
          note_recovery_failed "recovery failed" (w_sim w)) = sim_active (w_sim w)) as -> by (by destruct recovered).
        intros Hsp. destruct (Hsu Hsp) as [?|[?|?]]; [by left|congruence..].
    + done.
    + by intros [_ [?|?]].
    + intros _. right. right. by intros [_ [?|?]]; congruence.
  - eapply timer_left_wf; [done..| |]; [by intros [_ [?|?]]|]. intros _. right. right. intros [? _]. congruence.
  - eapply timer_left_wf with (t := t); [|done|by intros [_ [?|?]]|].
    + split; cbn; [done|by intros [|]|intros Hac|intros Hsp|done].
      * destruct (Ha Hac) as [?|[[?|?]|[? _]]]; [by left|congruence..].
      * destruct (Hsu Hsp) as [?|[?|?]]; [by left|congruence..].
    + intros _. right. right. intros [? _]. congruence.
Qed.

Lemma operator_wf w w' : window_wf w → operator_step w w' → window_wf w'.
Proof.
  intros [Hl Hb Ha Hsu Hd] Hs.
  destruct Hs as [w Hh|w now expires_at Hh|w Hh|w Hh|w Hh|w recovered Hh|w].
  - unfold simulate_begins.
    destruct (cancel_expiry_none (mkWindow (S (w_gen w)) (w_sim w) (w_suspended w) (w_holder w) (w_timers w)
      (w_handle w) (w_stopped w))) as (H1 & H2 & H3 & H4 & H5); [intros i t Ht Hv; by apply (Hl i t)|].
    split; cbn; [|done|by right; left; left|by right; left|done].
    intros i t Ht Hv. by destruct (H2 i t Ht).
  - split; cbn; [done| |by right; left; right|by left|done]. intros _. apply Hb. by left.
  - split; cbn; [done|by intros [|]|done..].
  - assert (w_handle w = None) as Hn by (apply Hb; by right).
    split; cbn; [|by intros [|]| | |done].
    + intros i t [Ht|[Hi Ht]]%lookup_app_Some Hv.
      * destruct (Hl i t Ht Hv). congruence.
      * apply list_lookup_singleton_Some in Ht as [Hi0 <-]. split; [f_equal; lia|done].
    + intros _. right. right. split; [done|]. exists (length (w_timers w)), (mkTimer (w_gen w) Sleeping false).
      split_and!; [done| |by split; [|left]]. rewrite lookup_app_r, Nat.sub_diag by lia. done.
    + intros _. left. by apply Hd.
  - unfold clear_locked. destruct (cancel_expiry_none w) as (H1 & H2 & H3 & H4 & H5); [intros i t Ht Hv; by apply (Hl i t)|].
    split; cbn; [|by intros [|]|done..]. intros i t Ht Hv. by destruct (H2 i t Ht).
  - assert (sim_active (if recovered then note_recovered (w_sim w) else
      note_recovery_failed "recovery failed" (w_sim w)) = sim_active (w_sim w)) as He by (by destruct recovered).
    split; cbn; rewrite ?He; [done|by intros [|]|intros Hac|intros Hsp|done].
    + destruct (Ha Hac) as [?|[[?|?]|[? _]]]; [by left|congruence..].
    + destruct (Hsu Hsp) as [?|[?|?]]; [by left|congruence..].
  - split; cbn; [|done|by left|done|done]. intros i t Ht Hv. exfalso.
    destruct (w_handle w) as [h|] eqn:Eh.
    + unfold cancel_timer in Ht. rewrite lookup_timer in Ht. case_decide as Hi.
      * destruct (w_timers w !! i); [|done]. injection Ht as <-. by destruct Hv.
      * destruct (Hl i t Ht Hv). congruence.
    + destruct (Hl i t Ht Hv). congruence.
Qed.

Lemma window_reachable w : reachable w → window_wf w.
Proof.
  assert (window_wf new_window) as H0 by (split; cbn; try done; by intros [|]).
  unfold reachable. intros H. remember new_window as w0 eqn:E0. clear E0.
  induction H as [|w0 w1 w2 [Ht|Ho] _ IH]; [done|..]; apply IH; [by eapply timer_wf|by eapply operator_wf].
Qed.

(** A timer that has woken closes its window. *)
Lemma waking_closes w i t :
  w_handle w = Some i → w_timers w !! i = Some t → ti_cancelled t = false → ti_state t = Waking →
  ti_gen t = w_gen w → w_holder w = None → sim_active (w_sim w) = true →
  ∃ w', rtc timer_step w w' ∧ sim_active (w_sim w') = false ∧ w_suspended w' = false ∧ w_holder w' = None.
Proof.
  intros Hi Ht Hc Hs Hg Hh Hac. set (w1 := timer_runs i t w).
  assert (w1 = mkWindow (w_gen w) (disarm (w_sim w)) false (Some (Expires i)) (set_timer i Clearing (w_timers w))
    (w_handle w) (w_stopped w)) as Hw1.
  { unfold w1, timer_runs. rewrite bool_decide_eq_false_2 by tauto. rewrite Hac. cbn [orb negb].
    unfold clear_locked, cancel_expiry. cbn. by rewrite Hi, decide_True. }
  exists (timer_to i Ended (clear_ends true w1)). split_and!; [|by rewrite Hw1..].
  eapply rtc_l; [by apply (runs w i t)|]. fold w1. apply rtc_once.
  apply (expired w1 i (mkTimer (ti_gen t) Clearing (ti_cancelled t))); [|done|by rewrite Hw1].
  rewrite Hw1. cbn. unfold set_timer. by rewrite lookup_timer, decide_True, Ht.
Qed.

(** C32: every simulated window closes by itself.  Whatever the operator's calls
    and the timers do, in any interleaving and with failures and cancellations
    at any point: while the gate is armed, a call is still setting the window
    up, or the timer of just this window is pending, uncancelled, until
    shutdown; no other timer is pending that could close a later window; and
    notifications are dropped only while the gate is armed or a call is setting
    it up.  When no call is under way, the timer alone brings the window to an
    end, with the gate open, notifications accepted and the lock free. *)
Theorem windows_close (w : Window) :
  reachable w →
  (sim_active (w_sim w) = true → w_stopped w = true ∨ setting_up w ∨
     ∃ i t, w_handle w = Some i ∧ w_timers w !! i = Some t ∧ live t ∧ ti_gen t = w_gen w) ∧
  (∀ i t, w_timers w !! i = Some t → live t → w_handle w = Some i) ∧
  (w_suspended w = true → sim_active (w_sim w) = true ∨ setting_up w) ∧
  (sim_active (w_sim w) = true → w_stopped w = false → w_holder w = None →
   ∃ w', rtc timer_step w w' ∧ sim_active (w_sim w') = false ∧ w_suspended w' = false ∧ w_holder w' = None).
Proof.
  intros [Hl Hb Ha Hsu Hd]%window_reachable. split_and!; [|intros i t Ht Hv; by apply (Hl i t)|done|].
  { intros Hac. destruct (Ha Hac) as [?|[?|(_ & i & t & Hi & Ht & Hv)]]; [by left|by right; left|].
    right. right. exists i, t. split_and!; try done. by apply (Hl i t). }
  intros Hac Hst Hh. destruct (Ha Hac) as [?|[[?|?]|(_ & i & t & Hi & Ht & Hv)]]; [congruence..|].
  destruct (Hl i t Ht Hv) as [_ Hg]. destruct Hv as [Hc [Hs|Hs]]; [|by eapply waking_closes].
  destruct (waking_closes (timer_to i Waking w) i (mkTimer (ti_gen t) Waking (ti_cancelled t))) as (w' & H1 & H2);
    cbn; try done; [unfold set_timer; by rewrite lookup_timer, decide_True, Ht|].
  exists w'. split; [|done]. eapply rtc_l; [by apply (wakes w i t)|done].
Qed.

(** A window that replaces another: the timer of the first has been cancelled. *)
Definition twice : Window :=
  simulate_ends (simulate_arms 20 500 (simulate_begins (simulate_ends (simulate_arms 10 100 (simulate_begins new_window))))).

Lemma twice_reachable : reachable twice.
Proof.
  do 6 (eapply rtc_r; [|right; first [by apply simulated|by apply armed|by apply simulates]]).
  apply rtc_refl.
Qed.

Lemma windows_close_witness :
  sim_active (w_sim twice) = true ∧ w_gen twice = 2%nat ∧
  ∃ w', rtc timer_step twice w' ∧ sim_active (w_sim w') = false ∧ w_suspended w' = false ∧ w_holder w' = None.
Proof.
  split; [reflexivity|]. split; [reflexivity|].
  apply (windows_close twice twice_reachable); reflexivity.
Defined.
End WindowProps.

(** ** Lost communications *)

Module LossProps.
Import Health Loss.

Section Probe.
Context (comms_loss_seconds : Z) (Hpos : 0 < comms_loss_seconds).

(** Nothing has been heard from the server for as long as the threshold. *)
Definition silent (now contact : Z) : bool := comms_loss_seconds * 1000 <=? now - contact * 1000.

Lemma elapsed_silent now contact :
  (comms_loss_seconds <=? int_s (now - contact * 1000)) = silent now contact.
Proof using Hpos.
  unfold silent, int_s. set (d := now - contact * 1000). clearbody d. pose proof (Z.quot_rem' d 1000) as Hq.
  assert (-1000 < Z.rem d 1000 < 1000 ∧ (0 <= d → 0 <= Z.rem d 1000) ∧ (d <= 0 → Z.rem d 1000 <= 0)) as (Hr & H1 & H2).
  { pose proof (Z.rem_bound_abs d 1000 ltac:(lia)). pose proof (Z.rem_nonneg d 1000).
    pose proof (Z.rem_nonpos d 1000). lia. }
  generalize dependent (Z.rem d 1000). generalize dependent (Z.quot d 1000). intros q r Hq Hr H1 H2.
  apply eq_true_iff_eq. rewrite !Z.leb_le. lia.
Qed.

(** Whether a recovery succeeds, what it adds to the record, and what a tick
    adds. *)
Definition succeeds (r : Notifications.Ended) : bool := match r with Returned true => true | _ => false end.

Definition recovers (caller : option nat) (t : Tick) (l : Loss) : bool :=
  succeeds (trigger_rediscovery (tk_pass t) caller (ls_client l)).1.

Definition recovering (t : Tick) (l : Loss) : list Act :=
  Audits (Recovering (comms_loss_duration (tk_mono t) l) (ls_simulated l))
    :: match tk_reg t with Some Gone => [Registers] | _ => [] end.

(** *** The boundary *)

Definition raised (b : option Z) (ends : list Z) : option Z :=
  foldl (λ b e, Some (Z.max (default 0 b) e)) b ends.
Definition passed (server : Z) (b : option Z) : bool :=
  match b with Some b => b <? int_s server | None => false end.

Lemma opts_out_fields l ends :
  opts_out l ends = mkLoss (ls_client l) (ls_health l) (ls_active l) (raised (ls_resume l) ends) (ls_entered l)
                      (ls_simulated l) (ls_failures l) (ls_acts l).
Proof.
  revert l. induction ends as [|e ends IH]; intros l; [by destruct l|].
  change (opts_out l (e :: ends)) with (opts_out (set_resume (Some (Z.max (default 0 (ls_resume l)) e)) l) ends).
  by rewrite IH.
Qed.

(** The boundary covers what it covered and every end it is raised by. *)
Lemma raised_covers b ends x :
  b = Some x ∨ x ∈ ends → ∃ b', raised b ends = Some b' ∧ x <= b'.
Proof.
  revert b x. induction ends as [|e ends IH]; intros b x Hx.
  - destruct Hx as [->|Hx%elem_of_nil]; [|done]. by exists x.
  - cbn. fold (raised (Some (Z.max (default 0 b) e)) ends).
    destruct (decide (x ∈ ends)) as [Hin|Hin]; [apply IH; by right|].
    destruct (IH (Some (Z.max (default 0 b) e)) (Z.max (default 0 b) e)) as (b' & -> & Hb); [by left|].
    exists b'. split; [done|]. destruct Hx as [->|[->|?]%elem_of_cons]; [cbn in Hb; lia|lia|done].
Qed.

Lemma recover_spec caller t l :
  let l' := (recover_from_comms_loss caller t l).2 in
  let b := raised (ls_resume l) (tk_opted t) in
  if recovers caller t l then
    ls_active l' = false ∧ ls_resume l' = (if passed (tk_later t) b then None else b) ∧
    ls_acts l' = ls_acts l ++ recovering t l ++ [Audits (Cleared (ls_resume l'))]
  else ls_active l' = ls_active l ∧ ls_resume l' = b ∧ ls_acts l' = ls_acts l ++ recovering t l.
Proof.
  unfold recover_from_comms_loss, recovers, recovering.
  assert (∀ x, ls_client (match tk_reg t with Some Gone => does Registers x | _ => x end) = ls_client x) as Hc
    by (intros x; by destruct (tk_reg t) as [[]|]).
  rewrite Hc. cbn [ls_client does].
  destruct (trigger_rediscovery (tk_pass t) caller (ls_client l)) as [r c]. cbn [fst snd].
  rewrite opts_out_fields. unfold boundary_passed, passed.
  destruct (tk_reg t) as [[]|]; destruct r as [[]|]; cbn;
    try (destruct (raised (ls_resume l) (tk_opted t)) as [b|]; [destruct (b <? int_s (tk_later t))|]); cbn;
    rewrite <- ?app_assoc; done.
Qed.

Lemma recover_client caller t l :
  (recover_from_comms_loss caller t l).1 = (trigger_rediscovery (tk_pass t) caller (ls_client l)).1 ∧
  ls_client (recover_from_comms_loss caller t l).2 = (trigger_rediscovery (tk_pass t) caller (ls_client l)).2.
Proof.
  unfold recover_from_comms_loss.
  destruct (tk_reg t) as [[]|]; cbn [ls_client does];
    destruct (trigger_rediscovery (tk_pass t) caller (ls_client l)) as [[[]|] c]; cbn [fst snd];
    rewrite opts_out_fields; try case_match; done.
Qed.

(** The record a tick adds, for the state it finds and the contact it reads. *)
Definition tick_record (caller : option nat) (t : Tick) (l : Loss) (l' : Loss) (c : Z) : list Act :=
  match ls_active l, silent (tk_now t) c with
  | false, true => [Audits (Entered (int_s (tk_now t - c * 1000)) (bool_decide (hh_silence (ls_health l) = Some true))); OptsOut]
  | true, false => recovering t l ++ if recovers caller t l then [Audits (Cleared (ls_resume l'))] else []
  | _, _ => []
  end.

(** The boundary a tick leaves, for the contact it reads. *)
Definition tick_boundary (caller : option nat) (t : Tick) (l : Loss) (c : Z) : option Z :=
  match ls_active l, silent (tk_now t) c with
  | false, s =>
      let b := if boundary_passed (tk_server t) l then None else ls_resume l in
      if s then raised b (tk_running t) else b
  | true, true => ls_resume l
  | true, false =>
      let b := raised (ls_resume l) (tk_opted t) in
      if recovers caller t l && passed (tk_later t) b then None else b
  end.

Lemma probe_spec caller t l c :
  hh_contact (ls_health l) = Some c →
  let l' := (comms_loss_probe comms_loss_seconds caller t l).2 in
  ls_active l' = silent (tk_now t) c || (ls_active l && negb (recovers caller t l)) ∧
  ls_acts l' = ls_acts l ++ tick_record caller t l l' c ∧ ls_resume l' = tick_boundary caller t l c.
Proof using Hpos.
  intros Hc. unfold comms_loss_probe, tick_record, tick_boundary. pose proof (recover_spec caller t l) as Hr.
  destruct (ls_active l) eqn:Ha; cbn [negb andb orb].
  - rewrite Hc, Ha. cbn [negb]. rewrite Z.ltb_antisym, elapsed_silent.
    destruct (silent (tk_now t) c) eqn:Hs; cbn [negb snd orb]; [by rewrite app_nil_r|].
    destruct (recovers caller t l) eqn:Hre; destruct Hr as (H1 & H2 & H3); cbn [negb andb].
    + split_and!; [done| |done]. by rewrite H3, <- ?app_assoc.
    + by rewrite app_nil_r.
  - set (m := if boundary_passed (tk_server t) l then set_resume None l else l).
    assert (ls_health m = ls_health l ∧ ls_active m = false ∧ ls_acts m = ls_acts l ∧
      ls_resume m = (if boundary_passed (tk_server t) l then None else ls_resume l)) as (Hh & Hac & Hacts & Hres)
      by (unfold m; by destruct (boundary_passed (tk_server t) l)).
    clearbody m. rewrite Hh, Hc, Hac. cbn [negb]. rewrite elapsed_silent.
    destruct (silent (tk_now t) c) eqn:Hs; cbn [snd orb]; [|by rewrite app_nil_r].
    unfold enter_comms_loss. rewrite Hac, opts_out_fields. cbn. by rewrite Hh, Hacts, Hres, <- app_assoc.
Qed.

Lemma tick_boundary_kept caller t l c b :
  ls_resume l = Some b →
  (∃ b', tick_boundary caller t l c = Some b' ∧ b <= b') ∨
  (ls_active l = false ∧ b < int_s (tk_server t)) ∨
  (ls_active l = true ∧ silent (tk_now t) c = false ∧ recovers caller t l = true ∧ b < int_s (tk_later t)).
Proof.
  intros Hb. unfold tick_boundary, boundary_passed. rewrite Hb.
  destruct (ls_active l), (silent (tk_now t) c); [left; by exists b| | |].
  - destruct (raised_covers (Some b) (tk_opted t) b) as (b' & -> & Hle); [by left|].
    destruct (recovers caller t l); [|left; by exists b']. cbn [andb passed].
    destruct (Z.ltb_spec b' (int_s (tk_later t))); [right; right; split_and!; done || lia|left; by exists b'].
  - destruct (Z.ltb_spec b (int_s (tk_server t))); [right; left; auto|left].
    apply raised_covers. by left.
  - destruct (Z.ltb_spec b (int_s (tk_server t))); [right; left; auto|left; by exists b].
Qed.

(** C31: the mode of lost communications follows the contact with the server.  A
    tick before the first contact keeps the mode and records nothing.
    Otherwise the client is in the mode afterwards when the server has been
    silent for the threshold, and out of it when it has not, unless it was in it
    and the rediscovery of its recovery did not succeed (as it never does when
    the probe runs it as a poll, [probe_never_recovers]).  It records the entry,
    and tells the event processor to opt out, on the tick that enters; on one
    that finds the server back the recovery, and its end if it succeeds; nothing
    on any other.  The boundary covers the end of every event opted out on
    entry, and it is lowered or dropped only outside the mode or by a recovery
    that succeeds, when the server's clock is past it and past the ends of the
    events opted out during the recovery. *)
Theorem mode_follows_contact (caller : option nat) (t : Tick) (l : Loss) :
  let l' := (comms_loss_probe comms_loss_seconds caller t l).2 in
  (hh_contact (ls_health l) = None → ls_active l' = ls_active l ∧ ls_acts l' = ls_acts l) ∧
  (∀ c, hh_contact (ls_health l) = Some c →
     ls_active l' = silent (tk_now t) c || (ls_active l && negb (recovers caller t l)) ∧
     ls_acts l' = ls_acts l ++ tick_record caller t l l' c ∧
     (ls_active l = false → silent (tk_now t) c = true → ∀ e, e ∈ tk_running t →
        ∃ b', ls_resume l' = Some b' ∧ e <= b') ∧
     (ls_active l = true → silent (tk_now t) c = false → ∀ e, e ∈ tk_opted t →
        (∃ b', ls_resume l' = Some b' ∧ e <= b') ∨ (ls_active l' = false ∧ e < int_s (tk_later t)))) ∧
  (∀ b, ls_resume l = Some b →
     (∃ b', ls_resume l' = Some b' ∧ b <= b') ∨
     (ls_active l = false ∧ b < int_s (tk_server t)) ∨
     (ls_active l' = false ∧ b < int_s (tk_later t))).
Proof using Hpos.
  cbv zeta. destruct (hh_contact (ls_health l)) as [c|] eqn:Hc.
  - destruct (probe_spec caller t l c Hc) as (H1 & H2 & H3). split; [done|]. split.
    + intros ? [= <-]. split_and!; [done..| |]; intros Ha Hs e He; rewrite H3; unfold tick_boundary;
        rewrite Ha, Hs; [apply raised_covers; by right|].
      destruct (raised_covers (ls_resume l) (tk_opted t) e) as (b' & -> & Hle); [by right|].
      rewrite H1, Ha, Hs. destruct (recovers caller t l); [|left; by exists b']. cbn [andb passed].
      destruct (Z.ltb_spec b' (int_s (tk_later t))); [right; split; [done|lia]|left; by exists b'].
    + intros b Hb. rewrite H3. destruct (tick_boundary_kept caller t l c b Hb) as [?|[?|(Ha & Hs & Hre & ?)]]; [auto..|].
      right. right. by rewrite H1, Ha, Hs, Hre.
  - unfold comms_loss_probe.
    destruct (negb (ls_active l) && boundary_passed (tk_server t) l) eqn:Hd; cbn [ls_health set_resume]; rewrite Hc; cbn.
    + apply andb_prop in Hd as [Hd1 Hd2]. split; [done|]. split; [done|]. intros b Hb. right. left.
      unfold boundary_passed in Hd2. rewrite Hb in Hd2. apply Z.ltb_lt in Hd2. by destruct (ls_active l).
    + split; [done|]. split; [done|]. intros b Hb. left. by exists b.
Qed.

(** A recovery never comes to its end in the probe that starts it.  The probe
    is a poll, and the rediscovery it asks for cancels the polls, itself among
    them: the mode stays as it is, its end is not recorded, and no poll comes to
    its callback any more, the probe that would try again among them. *)
Theorem probe_never_recovers (key : string) (tid : nat) (t : Tick) (l : Loss) (c : Z) (s' : Sched) :
  cl_locked (ls_client l) = false → sc_current (cl_sched (ls_client l)) !! key = Some tid →
  ls_active l = true → hh_contact (ls_health l) = Some c → silent (tk_now t) c = false →
  let after := comms_loss_probe comms_loss_seconds (Some tid) t l in
  rtc step (cl_sched (ls_client after.2)) s' →
  after.1 = CancelledError ∧ ls_active after.2 = true ∧ ls_acts after.2 = ls_acts l ++ recovering t l ∧
  sc_shutdown s' = true ∧ ∀ i, polling s' i → polling (cl_sched (ls_client l)) i.
Proof using Hpos.
  intros Hl Hc Ha Hct Hsi. unfold comms_loss_probe. rewrite Ha. cbn [negb andb]. rewrite Hct, Ha. cbn [negb].
  rewrite Z.ltb_antisym, elapsed_silent, Hsi. cbn [negb].
  pose proof (recover_spec (Some tid) t l) as Hr. unfold recovers in Hr.
  rewrite (poll_rediscovery (tk_pass t) (ls_client l) key tid) in Hr by done. destruct Hr as (H1 & _ & H3).
  destruct (recover_client (Some tid) t l) as [H4 H5]. rewrite H1, H3, H4, H5.
  rewrite (poll_rediscovery (tk_pass t) (ls_client l) key tid) by done. cbn [fst snd cl_sched on_sched set_pending].
  intros Hs. destruct (shutdown_steps _ _ Hs eq_refl) as [Hd Hno]. split_and!; try done.
  intros i Hi. by apply polling_signal, Hno.
Qed.

(** *** The record *)

(** The mode a record ends in; [None]: it is not one. *)
Definition transition (m : option bool) (a : Act) : option bool :=
  match m, a with
  | Some false, Audits (Entered _ _) => Some true
  | Some true, Audits (Recovering _ _) => Some true
  | Some true, Audits (Cleared _) => Some false
  | _, Audits _ => None
  | m, _ => m
  end.
Definition told (acts : list Act) : option bool := foldl transition (Some false) acts.

(** Ticks and immediate recoveries, in any order; between them the requests and
    the rest of the client do what they do. *)
Inductive loss_step : Loss → Loss → Prop :=
  | ticks l caller t : loss_step l (comms_loss_probe comms_loss_seconds caller t l).2
  | recovers_now l t : loss_step l (recover_from_comms_loss_now t l).2
  | elsewhere l l' : ls_active l' = ls_active l → ls_acts l' = ls_acts l → loss_step l l'.

Lemma told_recovering l t rest :
  told (ls_acts l) = Some true → told (ls_acts l ++ recovering t l ++ rest) = foldl transition (Some true) rest.
Proof.
  unfold told, recovering. intros H. rewrite !foldl_app, H. cbn. by destruct (tk_reg t) as [[]|].
Qed.

Lemma told_recover caller t l :
  told (ls_acts l) = Some true → ls_active l = true →
  told (ls_acts (recover_from_comms_loss caller t l).2) = Some (ls_active (recover_from_comms_loss caller t l).2).
Proof.
  intros H Ha. pose proof (recover_spec caller t l) as Hr. cbv zeta in Hr.
  destruct (recovers caller t l); destruct Hr as (-> & _ & ->).
  - by rewrite told_recovering.
  - rewrite Ha. rewrite <- (app_nil_r (recovering t l)). by rewrite told_recovering.
Qed.

(** The record tells the mode.  After any ticks of the probe and immediate
    recoveries, the transitions recorded follow one another as they may: an entry
    outside the mode, recoveries and then one end within it; and the mode they
    end in is the one the client is in. *)
Theorem record_tells_mode (l l' : Loss) :
  told (ls_acts l) = Some (ls_active l) → rtc loss_step l l' → told (ls_acts l') = Some (ls_active l').
Proof.
  intros H0 Hs. revert H0. induction Hs as [|l l1 l2 Hs _ IH]; intros H; [done|].
  apply IH. clear IH l2. destruct Hs as [l caller t|l t|l l1 Ha Hb].
  - unfold comms_loss_probe. destruct (ls_active l) eqn:Ha; cbn [negb andb].
    + rewrite Ha. destruct (hh_contact (ls_health l)); cbn [negb snd]; [|by rewrite Ha, H].
      case_match; [by apply told_recover|cbn [snd]; by rewrite Ha, H].
    + set (m := if boundary_passed (tk_server t) l then set_resume None l else l).
      assert (ls_active m = false ∧ told (ls_acts m) = Some false) as [Hm Ht]
        by (unfold m; by destruct (boundary_passed (tk_server t) l)).
      clearbody m. rewrite Hm. destruct (hh_contact (ls_health m)); cbn [negb snd]; [|by rewrite Hm, Ht].
      case_match; [|by rewrite Hm, Ht]. unfold enter_comms_loss. rewrite Hm, opts_out_fields. cbn. unfold told in *.
      by rewrite !foldl_app, Ht.
  - unfold recover_from_comms_loss_now. destruct (ls_active l) eqn:Ha; cbn [negb snd]; [by apply told_recover|].
    by rewrite Ha, H.
  - by rewrite Ha, Hb.
Qed.
End Probe.

(** *** Samples *)

Definition sample_tick (now : Z) : Tick :=
  {| tk_now := now; tk_mono := now; tk_server := now; tk_later := now; tk_reg := Some Gone;
     tk_pass := λ _ c, (true, c); tk_running := [1450; 1590]; tk_opted := [1605] |}.

(** Heard at second 1000, with a poll under way and a boundary at 1500. *)
Definition sample_loss : Loss :=
  mkLoss polling_client (mkHealth true (Some 1000) (Some 1000) 0 None) false (Some 1500) None false 0 [].
Definition heard_again (c : Z) (l : Loss) : Loss :=
  mkLoss (ls_client l) (mkHealth true (Some c) (Some c) 0 None) (ls_active l) (ls_resume l) (ls_entered l)
    (ls_simulated l) (ls_failures l) (ls_acts l).
Definition lost : Loss := (comms_loss_probe 300 None (sample_tick 1400000) sample_loss).2.
Definition back : Loss := heard_again 1600 lost.

(** The entry; the probe, which is a poll, that finds the server back and does
    not get out of the mode; and a recovery by another task, which does. *)
Lemma mode_follows_contact_witness :
  ls_active lost = true ∧ (∃ b, ls_resume lost = Some b ∧ 1590 <= b) ∧
  ls_active (comms_loss_probe 300 (Some 0%nat) (sample_tick 1610000) back).2 = true ∧
  ls_active (comms_loss_probe 300 None (sample_tick 1610000) back).2 = false ∧
  ls_acts (comms_loss_probe 300 None (sample_tick 1610000) back).2 =
    [Audits (Entered 400 false); OptsOut; Audits (Recovering 210 false); Registers; Audits (Cleared None)].
Proof.
  assert (0 < 300) as H by lia.
  destruct (mode_follows_contact 300 H None (sample_tick 1400000) sample_loss) as (_ & H1 & _).
  destruct (mode_follows_contact 300 H (Some 0%nat) (sample_tick 1610000) back) as (_ & H2 & _).
  destruct (mode_follows_contact 300 H None (sample_tick 1610000) back) as (_ & H3 & _).
  destruct (H1 1000 eq_refl) as (A1 & _ & B1 & _). destruct (H2 1600 eq_refl) as (A2 & _).
  destruct (H3 1600 eq_refl) as (A3 & R3 & _).
  split; [exact A1|]. split; [exact (B1 eq_refl eq_refl 1590 ltac:(right; left))|].
  split; [exact A2|]. split; [exact A3|exact R3].
Defined.

Lemma probe_never_recovers_witness :
  let after := comms_loss_probe 300 (Some 0%nat) (sample_tick 1610000) back in
  after.1 = CancelledError ∧ ls_active after.2 = true ∧ sc_shutdown (cl_sched (ls_client after.2)) = true.
Proof.
  destruct (probe_never_recovers 300 ltac:(lia) "derp" 0 (sample_tick 1610000) back 1600
    (cl_sched (ls_client (comms_loss_probe 300 (Some 0%nat) (sample_tick 1610000) back).2)))
    as (H1 & H2 & _ & H3 & _); [vm_compute; reflexivity..|apply rtc_refl|].
  by split_and!.
Defined.

Lemma record_tells_mode_witness : told (ls_acts back) = Some true.
Proof.
  apply (record_tells_mode 300 sample_loss back); [reflexivity|].
  eapply rtc_l; [apply (ticks 300 _ None (sample_tick 1400000))|].
  eapply rtc_l; [apply (elsewhere 300 _ back); reflexivity|apply rtc_refl].
Defined.
End LossProps.
