(* ===== verification/Retry.v ===== *)
(** * Retries (client/retry.py)

    [with_retry] runs an operation until it returns, fails for good, or has
    used up its attempts; TLS failures and transient failures are counted apart,
    each with an exponential backoff.  The operation is given by the outcome of
    each of its attempts.  Delays are rationals, in seconds. *)

From S2P Require Import Prelude.
From Stdlib Require Import QArith.

#[local] Open Scope Z_scope.

(** What an attempt raises, in the order the handlers are tried; [ssl.SSLError]
    is an [OSError] and is caught first. *)
Inductive Failure :=
  | SslError (hostname_mismatch : bool)
  | Sep2RateLimitError (retry_after : option Z)
  | Sep2RedirectError (status_code : Z) (location : option string)
  | TimeoutOrOsError
  | OtherError (name : string).

Inductive RetryResult (A : Type) :=
  | Returned (a : A)
  | RaisedTls                             (* Sep2TlsError *)
  | RaisedConnection                      (* Sep2ConnectionError *)
  | Reraised (f : Failure).               (* the error itself *)
Arguments Returned {A}.
Arguments RaisedTls {A}.
Arguments RaisedConnection {A}.
Arguments Reraised {A}.

Record RetryPolicy := {
  max_transient : Z;
  max_tls : Z;
  base_delay : Q;
  backoff_factor : Q;
}.

Definition default_policy : RetryPolicy :=
  {| max_transient := 3; max_tls := 8; base_delay := 1 # 4; backoff_factor := 2 # 1 |}.

(** [base_delay * backoff_factor ** (attempts - 1)] *)
Definition backoff (p : RetryPolicy) (attempts : nat) : Q :=
  Qmult (base_delay p) (Qpower (backoff_factor p) (Z.of_nat attempts - 1)).

(** [float(exc.retry_after) if exc.retry_after else backoff] *)
Definition rate_limit_delay (p : RetryPolicy) (retry_after : option Z) (attempts : nat) : Q :=
  match retry_after with
  | Some ra => if ra =? 0 then backoff p attempts else inject_Z ra
  | None => backoff p attempts
  end.

Section Retry.
Context {A : Type} (p : RetryPolicy) (operation : nat → Failure + A).

(** The result and the delays slept, from attempt [n] on; [None] when the fuel
    runs out before the loop ends. *)
Fixpoint with_retry (fuel n transient tls : nat) : option (RetryResult A * list Q) :=
  match fuel with
  | O => None
  | S fuel' =>
      match operation n with
      | inr a => Some (Returned a, [])
      | inl (SslError _) =>
          if max_tls p <=? Z.of_nat (S tls) then Some (RaisedTls, [])
          else rest ← with_retry fuel' (S n) transient (S tls);
               Some (rest.1, backoff p (S tls) :: rest.2)
      | inl (Sep2RateLimitError ra as f) =>
          if max_transient p <=? Z.of_nat (S transient) then Some (Reraised f, [])
          else rest ← with_retry fuel' (S n) (S transient) tls;
               Some (rest.1, rate_limit_delay p ra (S transient) :: rest.2)
      | inl (Sep2RedirectError _ _ as f) =>
          if max_transient p <=? Z.of_nat (S transient) then Some (Reraised f, [])
          else rest ← with_retry fuel' (S n) (S transient) tls;
               Some (rest.1, backoff p (S transient) :: rest.2)
      | inl TimeoutOrOsError =>
          if max_transient p <=? Z.of_nat (S transient) then Some (RaisedConnection, [])
          else rest ← with_retry fuel' (S n) (S transient) tls;
               Some (rest.1, backoff p (S transient) :: rest.2)
      | inl (OtherError _ as f) => Some (Reraised f, [])
      end
  end.

(** ** What the loop is meant to do *)

Inductive Class := Tls | Transient | Fatal.

Definition class_of (f : Failure) : Class :=
  match f with SslError _ => Tls | OtherError _ => Fatal | _ => Transient end.

(** How many of the attempts before [n] failed in a class. *)
Fixpoint failures (c : Class) (n : nat) : nat :=
  match n with
  | O => O
  | S n' =>
      match operation n', c with
      | inl (SslError _), Tls => S (failures c n')
      | inl (Sep2RateLimitError _ | Sep2RedirectError _ _ | TimeoutOrOsError), Transient =>
          S (failures c n')
      | _, _ => failures c n'
      end
  end.

Definition allowance (c : Class) : Z :=
  match c with Tls => Z.max 1 (max_tls p) | _ => Z.max 1 (max_transient p) end.

(** What a failure becomes when its allowance is used up. *)
Definition final_error (f : Failure) : RetryResult A :=
  match f with
  | SslError _ => RaisedTls
  | TimeoutOrOsError => RaisedConnection
  | _ => Reraised f
  end.

(** The delay after a failed attempt. *)
Definition delay_after (n : nat) : Q :=
  match operation n with
  | inl (SslError _) => backoff p (failures Tls (S n))
  | inl (Sep2RateLimitError ra) => rate_limit_delay p ra (failures Transient (S n))
  | _ => backoff p (failures Transient (S n))
  end.

(** The loop ends at attempt [n] with [r]: the operation returned, failed for
    good, or used up the allowance of its class. *)
Definition ends_at (n : nat) (r : RetryResult A) : Prop :=
  match operation n with
  | inr a => r = Returned a
  | inl f =>
      r = final_error f ∧
      (class_of f ≠ Fatal → Z.of_nat (failures (class_of f) (S n)) = allowance (class_of f))
  end.

(** It goes on after attempt [n]. *)
Definition retried (n : nat) : Prop :=
  ∃ f, operation n = inl f ∧ class_of f ≠ Fatal ∧
       Z.of_nat (failures (class_of f) (S n)) < allowance (class_of f).

(** One class of failure in [with_retry_spec]: the allowance is used up, and the
    loop stops, or it goes on. *)
Ltac retry_case f Hstop Hgo Htls Htr Eop :=
  let El := fresh "El" in
  specialize (Htr ltac:(done));
  match goal with |- context [?m <=? ?x] => destruct (m <=? x) eqn:El end;
  [ apply Z.leb_le in El; apply Hstop; unfold ends_at; rewrite Eop; split; [done|]; intros _;
    cbn [class_of allowance]; rewrite ?Htls, ?Htr; lia
  | apply Z.leb_gt in El; rewrite Htls, Htr in Hgo;
    apply (Hgo _ f); cbn [class_of allowance]; try done; [lia|];
    unfold delay_after; rewrite Eop; by rewrite ?Htls, ?Htr ].

Lemma with_retry_spec fuel n :
  Z.of_nat (failures Tls n) < allowance Tls → Z.of_nat (failures Transient n) < allowance Transient →
  allowance Tls + allowance Transient - Z.of_nat (failures Tls n) - Z.of_nat (failures Transient n)
    <= Z.of_nat fuel →
  ∃ r ds, with_retry fuel n (failures Transient n) (failures Tls n) = Some (r, ds) ∧
    Z.of_nat (length ds) + Z.of_nat (failures Tls n) + Z.of_nat (failures Transient n)
      <= allowance Tls + allowance Transient - 2 ∧
    ends_at (n + length ds) r ∧
    ∀ k, (k < length ds)%nat → retried (n + k) ∧ ds !! k = Some (delay_after (n + k)).
Proof.
  revert n. induction fuel as [|fuel IH]; intros n Ht Hr Hf; [lia|]. cbn [with_retry].
  assert (∀ d f, operation n = inl f → class_of f ≠ Fatal →
    Z.of_nat (failures (class_of f) (S n)) < allowance (class_of f) →
    d = delay_after n →
    failures Tls (S n) = (match class_of f with Tls => S (failures Tls n) | _ => failures Tls n end) →
    failures Transient (S n) = (match class_of f with Tls => failures Transient n | _ => S (failures Transient n) end) →
    ∃ r ds, (rest ← with_retry fuel (S n) (failures Transient (S n)) (failures Tls (S n));
             Some (rest.1, d :: rest.2)) = Some (r, ds) ∧
    Z.of_nat (length ds) + Z.of_nat (failures Tls n) + Z.of_nat (failures Transient n)
      <= allowance Tls + allowance Transient - 2 ∧
    ends_at (n + length ds) r ∧
    ∀ k, (k < length ds)%nat → retried (n + k) ∧ ds !! k = Some (delay_after (n + k))) as Hgo.
  { intros d f Hop. destruct (class_of f) eqn:Ec; intros Hc Hlt -> Htls Htr; [| |done];
      (destruct (IH (S n)) as (r & ds & Hrun & Hlen & Hend & Hall); [lia..|]);
      rewrite Hrun; cbn [mbind option_bind fst snd]; exists r, (delay_after n :: ds); cbn [length];
      (split; [done|]); (split; [lia|]); rewrite Nat.add_succ_r; (split; [exact Hend|]);
      intros [|k] Hk; cbn [lookup list_lookup];
      [rewrite Nat.add_0_r; split; [exists f; by rewrite Ec|done]
      |rewrite Nat.add_succ_r; apply Hall; lia
      |rewrite Nat.add_0_r; split; [exists f; by rewrite Ec|done]
      |rewrite Nat.add_succ_r; apply Hall; lia]. }
  assert (∀ r, ends_at n r → ∃ r' ds, Some (r, []) = Some (r', ds) ∧
    Z.of_nat (length ds) + Z.of_nat (failures Tls n) + Z.of_nat (failures Transient n)
      <= allowance Tls + allowance Transient - 2 ∧ ends_at (n + length ds) r' ∧
    ∀ k, (k < length ds)%nat → retried (n + k) ∧ ds !! k = Some (delay_after (n + k))) as Hstop.
  { intros r Hend. exists r, []. cbn [length]. rewrite Nat.add_0_r. split; [done|]. split; [lia|].
    split; [done|]. intros k Hk. lia. }
  unfold allowance in Ht, Hr.
  destruct (operation n) as [f|a] eqn:Eop; [|apply Hstop; unfold ends_at; by rewrite Eop].
  assert (failures Tls (S n) = match class_of f with Tls => S (failures Tls n) | _ => failures Tls n end ∧
    (class_of f ≠ Fatal → failures Transient (S n) =
       match class_of f with Tls => failures Transient n | _ => S (failures Transient n) end)) as [Htls Htr].
  { cbn [failures]. rewrite Eop. by destruct f. }
  destruct f as [b|ra|st loc| |name]; cbn [class_of] in *.
  5:{ apply Hstop. unfold ends_at. rewrite Eop. by split. }
  - retry_case (SslError b) Hstop Hgo Htls Htr Eop.
  - retry_case (Sep2RateLimitError ra) Hstop Hgo Htls Htr Eop.
  - retry_case (Sep2RedirectError st loc) Hstop Hgo Htls Htr Eop.
  - retry_case TimeoutOrOsError Hstop Hgo Htls Htr Eop.
Qed.

(** An operation is tried at most [max_tls + max_transient - 1] times (each
    at least 1), however its attempts fail: the loop always ends.  It ends with
    the operation's value, with an error no retry is for, or with the error of
    the class whose allowance the last attempt used up ([Sep2TlsError] for TLS,
    [Sep2ConnectionError] for the network, the error itself otherwise); before
    that, every attempt failed within its allowance and was followed by the
    backoff of its class, or by the server's Retry-After. *)
Theorem retry_ends_within_allowance :
  let budget := Z.to_nat (allowance Tls + allowance Transient) in
  ∃ r ds, with_retry budget 0 0 0 = Some (r, ds) ∧
    Z.of_nat (length ds) + 1 <= allowance Tls + allowance Transient - 1 ∧
    ends_at (length ds) r ∧
    ∀ k, (k < length ds)%nat → retried k ∧ ds !! k = Some (delay_after k).
Proof.
  destruct (with_retry_spec (Z.to_nat (allowance Tls + allowance Transient)) 0)
    as (r & ds & Hrun & Hlen & Hend & Hall); cbn [failures allowance]; [lia..|].
  exists r, ds. cbn [failures allowance] in *. split; [done|]. split; [lia|]. by split.
Qed.
End Retry.

(** A server that fails its handshake twice, refuses once and then answers: the
    delays are a quarter, a half and a quarter of a second. *)
Example with_retry_run :
  @with_retry string default_policy
    (λ n, match n with
          | 0 | 1 => inl (SslError false)
          | 2 => inl TimeoutOrOsError
          | _ => inr "ok"
          end%nat) 11 0 0 0 = Some (Returned "ok", [1 # 4; 2 # 4; 1 # 4]%Q).
Proof. vm_compute. reflexivity. Qed.
