(* ===== verification/Intervals.v ===== *)
(** * Intervals: history/intervals.py and the write queue of history/database.py

    Readings of devices, integrated into fixed intervals as they arrive; the
    intervals that are over go to the database through a queue that a writer
    thread empties; a query adds what is still in memory to what it reads.

    Times and powers are floats in the source.  Any finite set of floats are
    whole multiples of a small enough unit, so they are integers here, in units
    that divide the interval; the rounding of float arithmetic is not modelled.
    A bucket is an object shared by its device, a query's copies and the write
    that stores it, so buckets live in a list and are referred to by index.
    Each carries, for the proofs, the device and start it was made for. *)

From S2P Require Import Prelude Registry.

(** ** Buckets *)

Record Bucket := mkB {
  covered_seconds : Z;
  samples : Z;
  ws_positive : Z;
  ws_negative : Z;
  w_min : option Z;
  w_max : option Z;
  var_seconds : Z;
  vars_positive : Z;
  vars_negative : Z;
  avail_seconds : Z;
  avail_ws : Z;
  curtail_seconds : Z;
  curtailed_ws : Z;
}.

Definition empty_bucket : Bucket := mkB 0 0 0 0 None None 0 0 0 0 0 0 0.

(** [x if m is None else min(m, x)], and with [max]. *)
Definition widen (pick : Z → Z → Z) (m : option Z) (x : Z) : option Z :=
  Some (match m with None => x | Some y => pick y x end).

(** The device's held readings, for [dt] more in this bucket. *)
Definition hold (w var avail : option Z) (dt : Z) (b : Bucket) : Bucket :=
  let b := match w with
           | None => b
           | Some x =>
               mkB (covered_seconds b + dt) (samples b)
                 (if 0 <=? x then ws_positive b + x * dt else ws_positive b)
                 (if 0 <=? x then ws_negative b else ws_negative b + x * dt)
                 (widen Z.min (w_min b) x) (widen Z.max (w_max b) x)
                 (var_seconds b) (vars_positive b) (vars_negative b)
                 (avail_seconds b) (avail_ws b) (curtail_seconds b) (curtailed_ws b)
           end in
  let b := match var with
           | None => b
           | Some x =>
               mkB (covered_seconds b) (samples b) (ws_positive b) (ws_negative b) (w_min b) (w_max b)
                 (var_seconds b + dt)
                 (if 0 <=? x then vars_positive b + x * dt else vars_positive b)
                 (if 0 <=? x then vars_negative b else vars_negative b + x * dt)
                 (avail_seconds b) (avail_ws b) (curtail_seconds b) (curtailed_ws b)
           end in
  match avail with
  | None => b
  | Some a =>
      mkB (covered_seconds b) (samples b) (ws_positive b) (ws_negative b) (w_min b) (w_max b)
        (var_seconds b) (vars_positive b) (vars_negative b)
        (avail_seconds b + dt) (avail_ws b + a * dt)
        (match w with Some _ => curtail_seconds b + dt | None => curtail_seconds b end)
        (match w with Some x => curtailed_ws b + Z.max 0 (a - Z.max x 0) * dt | None => curtailed_ws b end)
  end.

(** One reading taken. *)
Definition sample (w : option Z) (b : Bucket) : Bucket :=
  mkB (covered_seconds b) (samples b + 1) (ws_positive b) (ws_negative b)
    (match w with None => w_min b | Some x => widen Z.min (w_min b) x end)
    (match w with None => w_max b | Some x => widen Z.max (w_max b) x end)
    (var_seconds b) (vars_positive b) (vars_negative b)
    (avail_seconds b) (avail_ws b) (curtail_seconds b) (curtailed_ws b).

(** Combining two parts of an interval: [_add], and the upsert of the table. *)
Definition pick_of (pick : Z → Z → Z) (x y : option Z) : option Z :=
  match x, y with
  | Some a, Some b => Some (pick a b)
  | Some a, None => Some a
  | None, _ => y
  end.

Definition badd (x y : Bucket) : Bucket :=
  mkB (covered_seconds x + covered_seconds y) (samples x + samples y)
    (ws_positive x + ws_positive y) (ws_negative x + ws_negative y)
    (pick_of Z.min (w_min x) (w_min y)) (pick_of Z.max (w_max x) (w_max y))
    (var_seconds x + var_seconds y) (vars_positive x + vars_positive y)
    (vars_negative x + vars_negative y) (avail_seconds x + avail_seconds y)
    (avail_ws x + avail_ws y) (curtail_seconds x + curtail_seconds y)
    (curtailed_ws x + curtailed_ws y).

(** ** State *)

Abbreviation key := (string * Z)%type.

Record Object := mkObj {
  ob_key : key;
  ob_bucket : Bucket;
  ob_batch : option nat;                 (* the write batch that stored it *)
}.

Record Device := mkDev {
  dv_at : option Z;
  dv_w : option Z;
  dv_var : option Z;
  dv_avail : option Z;
  dv_avail_at : option Z;
  dv_buckets : dict Z nat;
}.

Definition new_device : Device := mkDev None None None None None [].

Record History := mkHist {
  hs_devices : dict string Device;
  hs_heap : list Object;
  hs_queue : list (list (key * Bucket)); (* the batches not yet run *)
  hs_queued : nat;
  hs_written : nat;
  hs_table : gmap key Bucket;
}.

Definition new_history : History := mkHist [] [] [] 0 0 ∅.

Section Ops.
Context (interval max_gap : Z).

Definition floor_ (at_ts : Z) : Z := at_ts / interval * interval.

(** ** Recording *)

(** [device.buckets.setdefault(self._floor(at), _Bucket())] *)
Definition bucket (name : string) (d : Device) (h : list Object) (at_ts : Z) : nat * Device * list Object :=
  match dict_get (floor_ at_ts) (dv_buckets d) with
  | Some l => (l, d, h)
  | None =>
      (length h,
       mkDev (dv_at d) (dv_w d) (dv_var d) (dv_avail d) (dv_avail_at d)
         (dict_set (floor_ at_ts) (length h) (dv_buckets d)),
       h ++ [mkObj (name, floor_ at_ts) empty_bucket None])
  end.

Definition on_bucket (f : Bucket → Bucket) (o : Object) : Object :=
  mkObj (ob_key o) (f (ob_bucket o)) (ob_batch o).

(** The bucket at a time, changed by [f]. *)
Definition in_bucket (f : Bucket → Bucket) (name : string) (at_ts : Z) (dh : Device * list Object)
    : Device * list Object :=
  let '(l, d, h) := bucket name dh.1 dh.2 at_ts in (d, alter (on_bucket f) l h).

Definition fresh_avail (d : Device) (t0 : Z) : option Z :=
  match dv_avail d, dv_avail_at d with
  | Some a, Some at_ts => if max_gap <? Z.abs (t0 - at_ts) then None else Some a
  | _, _ => None
  end.

(** [_integrate], one interval per round. *)
Fixpoint integrate (fuel : nat) (name : string) (w var avail : option Z) (t0 t1 : Z)
    (dh : Device * list Object) : Device * list Object :=
  match fuel with
  | O => dh
  | S fuel' =>
      if t0 <? t1 then
        let end_ := Z.min t1 (floor_ t0 + interval) in
        integrate fuel' name w var avail end_ t1
          (in_bucket (hold w var avail (end_ - t0)) name t0 dh)
      else dh
  end.

(** As many rounds as there are intervals from [t0] to [t1]. *)
Definition rounds (t0 t1 : Z) : nat := Z.to_nat (t1 / interval - t0 / interval + 1).

(** [queue_batch], when the queue takes it. *)
Definition queue_batch (rows : list (key * Bucket)) (s : History) : History :=
  mkHist (hs_devices s) (hs_heap s) (hs_queue s ++ [rows]) (S (hs_queued s)) (hs_written s) (hs_table s).

(** [_write]: the rows are queued as one batch, and the buckets remember its
    number, or [None] when the queue is full and drops it. *)
Definition write (full : bool) (done : list (key * nat)) (s : History) : History :=
  match done with
  | [] => s
  | _ =>
      if full then s
      else
        let rows := omap (λ kl : key * nat, (λ o, (kl.1, ob_bucket o)) <$> hs_heap s !! kl.2) done in
        let s' := queue_batch rows s in
        mkHist (hs_devices s')
          (foldl (λ h kl, alter (λ o, mkObj (ob_key o) (ob_bucket o) (Some (hs_queued s'))) kl.2 h) (hs_heap s') done)
          (hs_queue s') (hs_queued s') (hs_written s') (hs_table s')
  end.

Definition set_device (name : string) (dh : Device * list Object) (s : History) : History :=
  mkHist (dict_set name dh.1 (hs_devices s)) dh.2 (hs_queue s) (hs_queued s) (hs_written s) (hs_table s).

Definition start_le (a b : Z * nat) : Prop := a.1 <= b.1.
#[global] Instance start_le_dec : RelDecision start_le.
Proof. intros a b. unfold start_le. apply _. Defined.

(** [_flush_before] *)
Definition flush_before (full : bool) (name : string) (start : Z) (s : History) : History :=
  match dict_get name (hs_devices s) with
  | None => s
  | Some d =>
      let over := filter (λ sl : Z * nat, sl.1 < start) (dv_buckets d) in
      let done := (λ sl : Z * nat, ((name, sl.1), sl.2)) <$> merge_sort start_le over in
      let d' := mkDev (dv_at d) (dv_w d) (dv_var d) (dv_avail d) (dv_avail_at d)
                  (filter (λ sl : Z * nat, ¬ sl.1 < start) (dv_buckets d)) in
      write full done (set_device name (d', hs_heap s) s)
  end.

Definition device_of (name : string) (s : History) : Device :=
  default new_device (dict_get name (hs_devices s)).

Definition observe (full : bool) (lfdi : string) (at_ts : Z) (w var : option Z) (s : History) : History :=
  let name := lower lfdi in
  let d := device_of name s in
  if match dv_at d with Some t0 => at_ts <=? t0 | None => false end
  then set_device name (d, hs_heap s) s
  else
    let dh :=
      match dv_at d with
      | Some t0 =>
          if at_ts - t0 <=? max_gap
          then integrate (rounds t0 at_ts) name (dv_w d) (dv_var d) (fresh_avail d t0) t0 at_ts (d, hs_heap s)
          else (d, hs_heap s)
      | None => (d, hs_heap s)
      end in
    let d := mkDev (Some at_ts) w var (dv_avail dh.1) (dv_avail_at dh.1) (dv_buckets dh.1) in
    flush_before full name (floor_ at_ts) (set_device name (in_bucket (sample w) name at_ts (d, dh.2)) s).

Definition observe_availability (lfdi : string) (at_ts : Z) (avail : option Z) (s : History) : History :=
  let name := lower lfdi in
  let d := device_of name s in
  set_device name
    (mkDev (dv_at d) (dv_w d) (dv_var d) avail (match avail with Some _ => Some at_ts | None => None end)
       (dv_buckets d), hs_heap s) s.

Definition interrupt (lfdi : string) (s : History) : History :=
  let name := lower lfdi in
  match dict_get name (hs_devices s) with
  | None => s
  | Some d =>
      set_device name (mkDev None (dv_w d) (dv_var d) (dv_avail d) (dv_avail_at d) (dv_buckets d), hs_heap s) s
  end.

(** The buckets the devices have open. *)
Definition entries (s : History) : list (key * nat) :=
  nd ← hs_devices s; (λ sl : Z * nat, ((nd.1, sl.1), sl.2)) <$> dv_buckets nd.2.

Definition flush (full : bool) (s : History) : History :=
  write full (entries s)
    (mkHist ((λ nd : string * Device,
                (nd.1, mkDev (dv_at nd.2) (dv_w nd.2) (dv_var nd.2) (dv_avail nd.2) (dv_avail_at nd.2) []))
             <$> hs_devices s)
       (hs_heap s) (hs_queue s) (hs_queued s) (hs_written s) (hs_table s)).

(** ** The writer *)

Definition upsert_row (t : gmap key Bucket) (row : key * Bucket) : gmap key Bucket :=
  <[row.1 := match t !! row.1 with Some b => badd b row.2 | None => row.2 end]> t.

(** [DELETE FROM table WHERE start < cutoff] *)
Definition prune_table (cutoff : Z) (t : gmap key Bucket) : gmap key Bucket :=
  filter (λ kb : key * Bucket, cutoff <= kb.1.2) t.

Definition prune (cutoff : Z) (s : History) : History :=
  mkHist (hs_devices s) (hs_heap s) (hs_queue s) (hs_queued s) (hs_written s) (prune_table cutoff (hs_table s)).

(** One batch is run; it may fail, and the table may be due for pruning. *)
Definition write_next (ok : bool) (cutoff : option Z) (s : History) : History :=
  match hs_queue s with
  | [] => s
  | rows :: queue =>
      mkHist (hs_devices s) (hs_heap s) queue (hs_queued s) (S (hs_written s))
        (if ok then
           let t := foldl upsert_row (hs_table s) rows in
           match cutoff with Some c => prune_table c t | None => t end
         else hs_table s)
  end.

(** [drain]: every batch queued so far is run. *)
Definition drain (s : History) : History := Nat.iter (length (hs_queue s)) (write_next true None) s.

(** ** Reading *)

(** [_pending]: the copies, each with its bucket. *)
Definition pending (keep : key → bool) (s : History) : list (key * Bucket * nat) :=
  omap (λ kl : key * nat,
          if keep kl.1 then (λ o, (kl.1, ob_bucket o, kl.2)) <$> hs_heap s !! kl.2 else None)
    (entries s).

(** [_merge]: a copy is left out when the rows include the batch that stored
    its bucket; the batches are those of the state [s] it is run in. *)
Definition unwritten (through : nat) (s : History) (copy : key * Bucket * nat) : bool :=
  match hs_heap s !! copy.2 with
  | Some o => match ob_batch o with None => true | Some n => bool_decide (through < n)%nat end
  | None => true
  end.

Definition merge_ (rows : gmap key Bucket) (copies : list (key * Bucket * nat)) (through : nat)
    (s : History) : gmap key Bucket :=
  foldl upsert_row rows (fst <$> filter (λ c, unwritten through s c = true) copies).

(** A query copies in one state, reads the table in another and merges in a
    third; first as it would be without its limit. *)
Definition query_all (keep : key → bool) (copied read merged : History) : gmap key Bucket :=
  merge_ (filter (λ kb : key * Bucket, keep kb.1 = true) (hs_table read)) (pending keep copied)
    (hs_written read) merged.

(** [ORDER BY start, lfdi], and the same key in [sorted]. *)
Definition row_le (a b : key * Bucket) : Prop :=
  a.1.2 < b.1.2 ∨ (a.1.2 = b.1.2 ∧ string_le a.1.1 b.1.1).
#[global] Instance row_le_dec : RelDecision row_le.
Proof. intros a b. unfold row_le. apply _. Defined.

(** The first rows, at most [max(1, limit)] of them. *)
Definition first_rows (limit : Z) (t : gmap key Bucket) : list (key * Bucket) :=
  take (Z.to_nat (Z.max 1 limit)) (merge_sort row_le (map_to_list t)).

(** The limit holds for the rows read, and for the result again. *)
Definition query (keep : key → bool) (limit : Z) (copied read merged : History) : list (key * Bucket) :=
  first_rows limit
    (merge_ (list_to_map (first_rows limit (filter (λ kb : key * Bucket, keep kb.1 = true) (hs_table read))))
       (pending keep copied) (hs_written read) merged).
End Ops.
