(* ===== verification/IntervalProps.v ===== *)
(** * IntervalProps: the interval history integrates the readings, once each

    About [Intervals]: its buckets hold the integral of the held readings, and
    a query counts every bucket exactly once while writes are under way. *)

From S2P Require Import Prelude Registry Intervals.

(** ** Buckets form a commutative monoid *)

Lemma pick_of_comm (pick : Z → Z → Z) x y :
  (∀ a b, pick a b = pick b a) → pick_of pick x y = pick_of pick y x.
Proof. intros H. destruct x, y; cbn; try done. by rewrite H. Qed.

Lemma pick_of_assoc (pick : Z → Z → Z) x y z :
  (∀ a b c, pick a (pick b c) = pick (pick a b) c) →
  pick_of pick x (pick_of pick y z) = pick_of pick (pick_of pick x y) z.
Proof. intros H. destruct x, y, z; cbn; try done. by rewrite H. Qed.

Lemma badd_comm (x y : Bucket) : badd x y = badd y x.
Proof.
  unfold badd. rewrite (pick_of_comm Z.min (w_min x)), (pick_of_comm Z.max (w_max x)) by lia.
  f_equal; lia.
Qed.

Lemma badd_assoc (x y z : Bucket) : badd x (badd y z) = badd (badd x y) z.
Proof.
  unfold badd. cbn. rewrite (pick_of_assoc Z.min), (pick_of_assoc Z.max) by lia. f_equal; lia.
Qed.

Lemma badd_empty_r (x : Bucket) : badd x empty_bucket = x.
Proof. destruct x as [? ? ? ? [?|] [?|] ? ? ? ? ? ? ?]; unfold badd; cbn; f_equal; lia. Qed.

Lemma badd_empty_l (x : Bucket) : badd empty_bucket x = x.
Proof. rewrite badd_comm. apply badd_empty_r. Qed.

(** What an update of a bucket adds to it. *)
Definition additive (f : Bucket → Bucket) : Prop := ∀ b, f b = badd b (f empty_bucket).

Lemma hold_additive w var avail dt : additive (hold w var avail dt).
Proof.
  intros b. destruct b as [? ? ? ? [?|] [?|] ? ? ? ? ? ? ?], w as [w|], var as [v|], avail as [a|];
    unfold hold, badd, widen; cbn; repeat case_match; cbn; f_equal; try lia; f_equal; lia.
Qed.

Lemma sample_additive w : additive (sample w).
Proof.
  intros b. destruct b as [? ? ? ? [?|] [?|] ? ? ? ? ? ? ?], w as [w|]; unfold sample, badd, widen; cbn;
    f_equal; lia.
Qed.

(** *** Growth: what readings can add *)

Definition gain (z : Bucket) : Prop :=
  0 <= covered_seconds z ∧ 0 <= samples z ∧ 0 <= ws_positive z ∧ ws_negative z <= 0 ∧
  0 <= var_seconds z ∧ 0 <= vars_positive z ∧ vars_negative z <= 0 ∧ 0 <= avail_seconds z ∧
  0 <= curtail_seconds z ∧ 0 <= curtailed_ws z.

Definition ble (x y : Bucket) : Prop := ∃ z, gain z ∧ y = badd x z.

Lemma gain_empty : gain empty_bucket.
Proof. repeat split; cbn; lia. Qed.

Lemma gain_badd x y : gain x → gain y → gain (badd x y).
Proof. unfold gain, badd. cbn. lia. Qed.

Lemma gain_hold w var avail dt : 0 <= dt → gain (hold w var avail dt empty_bucket).
Proof.
  intros Hdt. destruct w as [w|], var as [v|], avail as [a|]; unfold gain, hold; cbn;
    repeat case_match; repeat split; cbn; nia.
Qed.

Lemma gain_sample w : gain (sample w empty_bucket).
Proof. destruct w; repeat split; cbn; lia. Qed.

#[export] Instance ble_preorder : PreOrder ble.
Proof.
  split.
  - intros x. exists empty_bucket. split; [apply gain_empty|]. by rewrite badd_empty_r.
  - intros x y z (a & Ga & ->) (b & Gb & ->). exists (badd a b). split; [by apply gain_badd|].
    by rewrite badd_assoc.
Qed.

Lemma ble_badd_l x z : gain z → ble x (badd x z).
Proof. intros. by exists z. Qed.

Lemma ble_badd x y x' y' : ble x x' → ble y y' → ble (badd x y) (badd x' y').
Proof.
  intros (a & Ga & ->) (b & Gb & ->). exists (badd a b). split; [by apply gain_badd|].
  rewrite <- !badd_assoc. f_equal. rewrite !badd_assoc. f_equal. apply badd_comm.
Qed.

Lemma ble_empty x : gain x → ble empty_bucket x.
Proof. intros. exists x. by rewrite badd_empty_l. Qed.

#[export] Hint Resolve gain_empty gain_hold gain_sample gain_badd ble_badd_l ble_empty : py.

(** ** Sums over the objects *)

(** The content of the objects whose key and batch satisfy [P]. *)
Definition bsum (P : key → option nat → bool) (h : list Object) : Bucket :=
  foldr (λ o acc, if P (ob_key o) (ob_batch o) then badd (ob_bucket o) acc else acc) empty_bucket h.

(** What one object has part in. *)
Definition part (P : key → option nat → bool) (o : Object) : Bucket :=
  if P (ob_key o) (ob_batch o) then ob_bucket o else empty_bucket.

Lemma bsum_cons P o h : bsum P (o :: h) = badd (part P o) (bsum P h).
Proof. unfold bsum, part. cbn. destruct (P _ _); [done|]. by rewrite badd_empty_l. Qed.

#[local] Arguments bsum : simpl never.

Lemma bsum_app P h h' : bsum P (h ++ h') = badd (bsum P h) (bsum P h').
Proof.
  induction h as [|o h IH]; [by rewrite badd_empty_l|]. cbn [app].
  by rewrite !bsum_cons, IH, badd_assoc.
Qed.

Lemma alter_split (h : list Object) (l : nat) (o : Object) :
  h !! l = Some o → ∃ rest : (key → option nat → bool) → Bucket,
    (∀ P, bsum P h = badd (rest P) (part P o)) ∧
    ∀ P f, bsum P (alter f l h) = badd (rest P) (part P (f o)).
Proof.
  intros Hl.
  assert (length (take l h) = l) as Hlen by (apply lookup_lt_Some in Hl; rewrite length_take; lia).
  assert (∀ P x, bsum P (take l h ++ x :: drop (S l) h) =
                 badd (badd (bsum P (take l h)) (bsum P (drop (S l) h))) (part P x)) as Hx.
  { intros P x. by rewrite bsum_app, bsum_cons, (badd_comm (part P x)), badd_assoc. }
  exists (λ P, badd (bsum P (take l h)) (bsum P (drop (S l) h))). split; intros P.
  - by rewrite <- Hx, (take_drop_middle h l o Hl).
  - intros f. rewrite <- Hx. f_equal. rewrite <- (take_drop_middle h l o Hl) at 1.
    rewrite alter_app_r_alt by lia. by rewrite Hlen, Nat.sub_diag.
Qed.

Lemma bsum_on_bucket P f l h o :
  h !! l = Some o → additive f →
  bsum P (alter (on_bucket f) l h) =
  if P (ob_key o) (ob_batch o) then badd (bsum P h) (f empty_bucket) else bsum P h.
Proof.
  intros Hl Hf. destruct (alter_split h l o Hl) as (rest & H1 & H2). rewrite H1, H2. unfold part. cbn.
  destruct (P _ _); [|done]. by rewrite (Hf (ob_bucket o)), badd_assoc.
Qed.

(** A bucket is queued for writing in batch [n]. *)
Definition close (n : nat) (o : Object) : Object := mkObj (ob_key o) (ob_bucket o) (Some n).

Lemma bsum_close P n l h o :
  h !! l = Some o → ob_batch o = None → P (ob_key o) None = false →
  bsum P (alter (close n) l h) =
  if P (ob_key o) (Some n) then badd (bsum P h) (ob_bucket o) else bsum P h.
Proof.
  intros Hl Hb Hn. destruct (alter_split h l o Hl) as (rest & H1 & H2). rewrite H1, H2. unfold part. cbn.
  rewrite Hb, Hn. rewrite badd_empty_r. destruct (P _ (Some n)); [done|apply badd_empty_r].
Qed.

Lemma bsum_close_same P n l h o :
  h !! l = Some o → ob_batch o = None → P (ob_key o) None = P (ob_key o) (Some n) →
  bsum P (alter (close n) l h) = bsum P h.
Proof.
  intros Hl Hb Hn. destruct (alter_split h l o Hl) as (rest & H1 & H2). rewrite H1, H2. unfold part. cbn.
  by rewrite Hb, Hn.
Qed.

Lemma bsum_none P h : (∀ l o, h !! l = Some o → P (ob_key o) (ob_batch o) = false) → bsum P h = empty_bucket.
Proof.
  induction h as [|o h IH]; intros H; [done|]. rewrite bsum_cons. unfold part.
  rewrite (H 0%nat o eq_refl), badd_empty_l. apply IH. intros l. apply (H (S l)).
Qed.

Lemma bsum_ext P Q h :
  (∀ l o, h !! l = Some o → P (ob_key o) (ob_batch o) = Q (ob_key o) (ob_batch o)) → bsum P h = bsum Q h.
Proof.
  induction h as [|o h IH]; intros H; [done|]. rewrite !bsum_cons. unfold part.
  rewrite (H 0%nat o eq_refl). f_equal. apply IH. intros l. apply (H (S l)).
Qed.

(** Two disjoint selections. *)
Lemma bsum_split P Q R h :
  (∀ l o, h !! l = Some o → P (ob_key o) (ob_batch o) =
     xorb (Q (ob_key o) (ob_batch o)) (R (ob_key o) (ob_batch o)) ∧
     (Q (ob_key o) (ob_batch o) && R (ob_key o) (ob_batch o) = false)) →
  bsum P h = badd (bsum Q h) (bsum R h).
Proof.
  induction h as [|o h IH]; intros H; [by rewrite badd_empty_l|]. rewrite !bsum_cons.
  rewrite IH by (intros l; apply (H (S l))). unfold part.
  destruct (H 0%nat o eq_refl) as [-> Hd].
  destruct (Q _ _), (R _ _); cbn in *; try done; rewrite ?badd_empty_l, ?badd_assoc; try done.
  by rewrite (badd_comm (ob_bucket o)).
Qed.

(** ** One device *)

Section Device.
Context (interval max_gap : Z) (Hint : 0 < interval).

(** The device's buckets are open objects of its own. *)
Record dev_ok (name : string) (d : Device) (h : list Object) : Prop := {
  do_keys : dict_wf (dv_buckets d);
  do_open : ∀ start l, dict_get start (dv_buckets d) = Some l →
              ∃ o, h !! l = Some o ∧ ob_key o = (name, start) ∧ ob_batch o = None;
}.

(** What recording for one device does to the objects. *)
Record extends (name : string) (d d' : Device) (h h' : list Object) : Prop := {
  ex_old : ∀ l o, h !! l = Some o → ∃ o', h' !! l = Some o' ∧ ob_key o' = ob_key o ∧
             ob_batch o' = ob_batch o ∧ ble (ob_bucket o) (ob_bucket o') ∧
             (ob_batch o ≠ None → o' = o);
  ex_new : ∀ l o, h' !! l = Some o → h !! l = None → ob_batch o = None ∧ gain (ob_bucket o) ∧
             ∃ start, ob_key o = (name, start) ∧ dict_get start (dv_buckets d') = Some l;
  ex_kept : ∀ start l, dict_get start (dv_buckets d) = Some l → dict_get start (dv_buckets d') = Some l;
}.

Lemma extends_refl name d h : extends name d d h h.
Proof.
  split; [|intros; congruence|done]. intros l o Hl. exists o. split_and!; done.
Qed.

Lemma extends_trans name d1 d2 d3 h1 h2 h3 :
  extends name d1 d2 h1 h2 → extends name d2 d3 h2 h3 → extends name d1 d3 h1 h3.
Proof.
  intros [O1 N1 K1] [O2 N2 K2]. split; [| |eauto].
  - intros l o Hl. destruct (O1 l o Hl) as (o1 & H1 & K1' & B1 & G1 & C1).
    destruct (O2 l o1 H1) as (o2 & H2 & K2' & B2 & G2 & C2). exists o2.
    split_and!; [done|congruence|congruence|by etrans|]. intros Hb. rewrite C2 by congruence. auto.
  - intros l o Hl Hn. destruct (h2 !! l) as [o2|] eqn:E2.
    + destruct (N1 l o2 E2 Hn) as (B & G & start & Hk & Hd). destruct (O2 l o2 E2) as (o' & H' & K & B' & Gr & _).
      assert (o' = o) as -> by congruence. split_and!; [congruence| |exists start; split; [congruence|eauto]].
      destruct Gr as (z & Gz & ->). auto with py.
    + by apply N2.
Qed.

Lemma in_bucket_spec f name at_ts d h :
  dev_ok name d h → additive f → gain (f empty_bucket) →
  let dh := in_bucket interval f name at_ts (d, h) in
  dev_ok name dh.1 dh.2 ∧ extends name d dh.1 h dh.2 ∧
  (dv_at dh.1 = dv_at d ∧ dv_w dh.1 = dv_w d ∧ dv_var dh.1 = dv_var d ∧ dv_avail dh.1 = dv_avail d ∧
   dv_avail_at dh.1 = dv_avail_at d) ∧
  ∀ P, bsum P dh.2 = if P (name, floor_ interval at_ts) None
                     then badd (bsum P h) (f empty_bucket) else bsum P h.
Proof.
  intros [Hk Ho] Hf Hg. unfold in_bucket, bucket. cbn [fst snd].
  destruct (dict_get (floor_ interval at_ts) (dv_buckets d)) as [l|] eqn:El; cbn.
  - destruct (Ho _ _ El) as (o & Hl & Hkey & Hb). split_and!; try done.
    + split; [done|]. intros start l' Hs. destruct (Ho _ _ Hs) as (o' & Hl' & Hk' & Hb').
      rewrite list_lookup_alter. case_decide; [|by exists o'].
      subst l'. rewrite Hl'. by exists (on_bucket f o').
    + split; [| |done].
      * intros l' o' Hl'. rewrite list_lookup_alter. case_decide; [subst l'|exists o'; by split_and!].
        rewrite Hl'. exists (on_bucket f o'). assert (o' = o) as -> by congruence.
        split_and!; try done. cbn. rewrite Hf. auto with py.
      * intros l' o' Hl' Hn. rewrite list_lookup_alter in Hl'. case_decide; [|congruence].
        subst l'. by rewrite Hn in Hl'.
    + intros P. rewrite (bsum_on_bucket P f l h o) by done. by rewrite Hkey, Hb.
  - assert (∀ x, alter (on_bucket f) (length h) (h ++ [x]) = h ++ [on_bucket f x]) as Halt.
    { intros x. rewrite alter_app_r_alt by lia. by rewrite Nat.sub_diag. }
    rewrite Halt. split_and!; try done.
    + split; [by apply dict_set_wf|]. intros start l. cbn [dv_buckets]. rewrite dict_get_set. case_decide.
      * intros [= <-]. subst start. rewrite lookup_app_r, Nat.sub_diag by lia. by eexists.
      * intros Hs. destruct (Ho _ _ Hs) as (o & Hl & ?). exists o. split; [|done].
        by apply lookup_app_l_Some.
    + split.
      * intros l o Hl. exists o. split_and!; try done. by apply lookup_app_l_Some.
      * intros l o Hl Hn. apply lookup_ge_None in Hn. rewrite lookup_app_r in Hl by done.
        apply list_lookup_singleton_Some in Hl as [Hz <-]. assert (l = length h) as -> by lia.
        cbn. split_and!; try done. exists (floor_ interval at_ts). split; [done|]. apply dict_get_set_eq.
      * intros start l Hs. cbn. rewrite dict_get_set. case_decide; [congruence|done].
    + intros P. rewrite bsum_app, bsum_cons. change (bsum P []) with empty_bucket.
      rewrite badd_empty_r. unfold part. cbn. destruct (P _ _); [done|apply badd_empty_r].
Qed.

(** *** Integration over a stretch of time *)

Definition at_key (kk : key) : key → option nat → bool := λ k _, bool_decide (k = kk).

(** A selection that leaves open buckets out. *)
Definition closed_only (P : key → option nat → bool) : Prop := ∀ k, P k None = false.

(** How much of [t0, t1) lies in the interval that starts at [k]. *)
Definition overlap (t0 t1 k : Z) : Z := Z.min t1 (k + interval) - Z.max t0 k.

(** The part of a held reading that falls into it. *)
Definition share (w var avail : option Z) (t0 t1 k : Z) : Bucket :=
  if 0 <? overlap t0 t1 k then hold w var avail (overlap t0 t1 k) empty_bucket else empty_bucket.

Definition same_reading (d d' : Device) : Prop :=
  dv_at d' = dv_at d ∧ dv_w d' = dv_w d ∧ dv_var d' = dv_var d ∧ dv_avail d' = dv_avail d ∧
  dv_avail_at d' = dv_avail_at d.

Lemma floor_bounds t : floor_ interval t <= t < floor_ interval t + interval.
Proof using Hint. unfold floor_. pose proof (Z.div_mod t interval). pose proof (Z.mod_pos_bound t interval). nia. Qed.

Lemma floor_apart t k :
  k = floor_ interval k → k ≠ floor_ interval t →
  k + interval <= floor_ interval t ∨ floor_ interval t + interval <= k.
Proof using Hint.
  unfold floor_. generalize (k / interval), (t / interval). intros a b -> Hab.
  assert (a < b ∨ b < a) as [?|?] by (destruct (Z.lt_total a b) as [?|[->|?]]; auto; done).
  - left. nia.
  - right. nia.
Qed.

(** One round covers what the interval of [t0] has of the stretch, the others
    the rest. *)
Lemma share_round w var avail t0 t1 k :
  t0 < t1 → k = floor_ interval k →
  let e := Z.min t1 (floor_ interval t0 + interval) in
  badd (if bool_decide (k = floor_ interval t0) then hold w var avail (e - t0) empty_bucket else empty_bucket)
    (share w var avail e t1 k) = share w var avail t0 t1 k.
Proof using Hint.
  intros Ht Hk e. pose proof (floor_bounds t0) as Hf. unfold share, overlap.
  case_bool_decide as Hd.
  - subst k. assert (Z.min t1 (floor_ interval t0 + interval) - Z.max e (floor_ interval t0) = 0) as -> by lia.
    change (0 <? 0) with false. rewrite badd_empty_r. rewrite (proj2 (Z.ltb_lt _ _)) by lia. f_equal. lia.
  - rewrite badd_empty_l. destruct (floor_apart t0 k Hk Hd).
    + rewrite !(proj2 (Z.ltb_ge _ _)) by lia. done.
    + assert (Z.max e k = Z.max t0 k) as -> by lia. done.
Qed.

Lemma share_none w var avail t k : share w var avail t t k = empty_bucket.
Proof using Hint. unfold share, overlap. by rewrite (proj2 (Z.ltb_ge 0 _)) by lia. Qed.

Lemma integrate_spec fuel name w var avail t0 t1 d h :
  (t0 < t1 → (rounds interval t0 t1 ≤ fuel)%nat) → t0 <= t1 → dev_ok name d h →
  let dh := integrate interval fuel name w var avail t0 t1 (d, h) in
  dev_ok name dh.1 dh.2 ∧ extends name d dh.1 h dh.2 ∧ same_reading d dh.1 ∧
  (∀ P, closed_only P → bsum P dh.2 = bsum P h) ∧
  (∀ kk, kk.2 = floor_ interval kk.2 →
     bsum (at_key kk) dh.2 =
     badd (bsum (at_key kk) h) (if bool_decide (kk.1 = name) then share w var avail t0 t1 kk.2 else empty_bucket)).
Proof using Hint.
  revert t0 d h. induction fuel as [|fuel IH]; intros t0 d h Hfuel Ht Hok; cbn [integrate];
    [|destruct (t0 <? t1) eqn:El].
  2: {
    apply Z.ltb_lt in El. set (e := Z.min t1 (floor_ interval t0 + interval)).
    pose proof (floor_bounds t0) as Hf.
    destruct (in_bucket_spec (hold w var avail (e - t0)) name t0 d h Hok) as (Hok1 & Hex1 & Hsame1 & Hsum1).
    { apply hold_additive. }
    { apply gain_hold. lia. }
    destruct (in_bucket interval (hold w var avail (e - t0)) name t0 (d, h)) as [d1 h1]. cbn [fst snd] in *.
    destruct (IH e d1 h1) as (Hok2 & Hex2 & Hsame2 & Hcl & Hkey); [|lia|done|].
    { intros He. specialize (Hfuel El). unfold rounds in *.
      assert (e = (t0 / interval + 1) * interval) as -> by (unfold floor_ in *; lia).
      rewrite Z.div_mul by lia. pose proof (Z.div_le_mono t0 t1 interval Hint Ht). lia. }
    split_and!; [done|by eapply extends_trans| | |].
    + destruct Hsame1 as (?&?&?&?&?), Hsame2 as (?&?&?&?&?). repeat split; congruence.
    + intros P HP. rewrite Hcl, Hsum1 by done. by rewrite HP.
    + intros [n k] Hk. cbn in Hk. rewrite Hkey by done. rewrite Hsum1. unfold at_key at 1. cbn [fst snd].
      destruct (decide (n = name)) as [->|Hn].
      * rewrite !(bool_decide_eq_true_2 (name = name)) by done.
        rewrite <- (share_round w var avail t0 t1 k) by done. fold e.
        destruct (decide (k = floor_ interval t0)) as [Hd|Hd].
        -- rewrite !bool_decide_eq_true_2 by congruence. by rewrite badd_assoc.
        -- rewrite !bool_decide_eq_false_2 by congruence. by rewrite badd_empty_l.
      * rewrite !bool_decide_eq_false_2 by congruence. done. }
  all: assert (t0 = t1) as -> by (try apply Z.ltb_ge in El; pose proof (Z.div_le_mono t0 t1 interval Hint Ht);
    unfold rounds in *; lia); cbn; split_and!; [done|apply extends_refl|done|done|];
    intros kk Hk; rewrite share_none; by destruct (bool_decide _); rewrite badd_empty_r.
Qed.
End Device.
