(* ===== verification/HistoryProps.v ===== *)
(** * HistoryProps: the stored and the open intervals together are the readings

    About [Intervals]: the invariant that ties the open buckets, the queued
    batches and the table together, the reference integral they add up to, and
    what a query sees of it while readings arrive and batches are written. *)

From S2P Require Import Prelude Registry Intervals IntervalProps.

(** ** Sums by position *)

Definition isum (f : nat → Object → Bucket) (h : list Object) : Bucket :=
  foldr badd empty_bucket (imap f h).

Lemma isum_cons f o h : isum f (o :: h) = badd (f 0%nat o) (isum (λ i, f (S i)) h).
Proof. done. Qed.

#[local] Arguments isum : simpl never.
#[local] Arguments bsum : simpl never.

Lemma bsum_isum P h : bsum P h = isum (λ _, part P) h.
Proof. induction h as [|o h IH]; [done|]. by rewrite bsum_cons, isum_cons, IH. Qed.

Lemma isum_ext f g h h' : (∀ l, f l <$> h !! l = g l <$> h' !! l) → isum f h = isum g h'.
Proof. intros H. unfold isum. f_equal. apply list_eq. intros l. by rewrite !list_lookup_imap. Qed.

Lemma isum_badd f g h : isum (λ i o, badd (f i o) (g i o)) h = badd (isum f h) (isum g h).
Proof.
  revert f g. induction h as [|o h IH]; intros f g; [by rewrite badd_empty_l|].
  rewrite !isum_cons, (IH (λ i, f (S i))), <- !badd_assoc. f_equal. rewrite !badd_assoc. f_equal. apply badd_comm.
Qed.

Lemma isum_empty h : isum (λ _ _, empty_bucket) h = empty_bucket.
Proof. induction h as [|o h IH]; [done|]. by rewrite isum_cons, badd_empty_l. Qed.

Lemma isum_at (f : Object → Bucket) l h :
  isum (λ i o, if decide (i = l) then f o else empty_bucket) h = from_option f empty_bucket (h !! l).
Proof.
  revert l. induction h as [|o h IH]; intros l; [done|]. rewrite isum_cons. destruct l as [|l].
  - etrans; [|apply (badd_empty_r (f o))]. f_equal. apply isum_empty.
  - rewrite decide_False, badd_empty_l by lia. cbn. rewrite <- IH. apply isum_ext. intros i.
    destruct (h !! i); [|done]. cbn. f_equal. destruct (decide (i = l)) as [->|]; [by rewrite decide_True|].
    by rewrite decide_False by lia.
Qed.

Lemma isum_ble f g h h' :
  (∀ l o, h !! l = Some o → ∃ o', h' !! l = Some o' ∧ ble (f l o) (g l o')) →
  (∀ l o, h' !! l = Some o → gain (g l o)) → ble (isum f h) (isum g h').
Proof.
  revert f g h'. induction h as [|o h IH]; intros f g h' H Hg.
  - apply ble_empty. clear H. revert g Hg. induction h' as [|o h' IH]; intros g Hg; [apply gain_empty|].
    rewrite isum_cons. apply gain_badd; [by apply (Hg 0%nat)|]. apply IH. intros l. apply (Hg (S l)).
  - destruct h' as [|o' h']; [by destruct (H 0%nat o eq_refl) as (? & ? & _)|]. rewrite !isum_cons.
    apply ble_badd.
    + by destruct (H 0%nat o eq_refl) as (? & [= <-] & ?).
    + apply IH; intros l; [apply (H (S l))|apply (Hg (S l))].
Qed.

(** ** Rows *)

Definition rowsum (k : key) (rows : list (key * Bucket)) : Bucket :=
  foldr (λ r acc, if decide (r.1 = k) then badd r.2 acc else acc) empty_bucket rows.

Abbreviation at_ t k := (default empty_bucket (t !! k)).

Lemma upsert_rows rows t k : at_ (foldl upsert_row t rows) k = badd (at_ t k) (rowsum k rows).
Proof.
  revert t. induction rows as [|[k' b] rows IH]; intros t; cbn; [by rewrite badd_empty_r|].
  rewrite IH. unfold upsert_row. cbn. destruct (decide (k' = k)) as [->|Hn].
  - rewrite lookup_insert_eq. cbn. rewrite badd_assoc. f_equal. destruct (t !! k); [done|by rewrite badd_empty_l].
  - by rewrite lookup_insert_ne.
Qed.

Abbreviation rows_of h done :=
  (omap (λ kl : key * nat, (λ o, (kl.1, ob_bucket o)) <$> h !! kl.2) done).

Lemma rowsum_rows (h : list Object) (k : key) (done : list (key * nat)) :
  NoDup done →
  rowsum k (rows_of h done) = isum (λ l o, if decide ((k, l) ∈ done) then ob_bucket o else empty_bucket) h.
Proof.
  induction 1 as [|[k' l'] done Hn Hd IH].
  - cbn. rewrite <- (isum_empty h) at 1. apply isum_ext. intros l. destruct (h !! l); [|done]. cbn.
    by rewrite decide_False by set_solver.
  - transitivity (isum (λ l o, badd (if decide (l = l') then if decide (k' = k) then ob_bucket o else empty_bucket
                                     else empty_bucket)
                                 (if decide ((k, l) ∈ done) then ob_bucket o else empty_bucket)) h).
    + rewrite isum_badd, <- IH, (isum_at (λ o, if decide (k' = k) then ob_bucket o else empty_bucket)).
      cbn. destruct (h !! l') as [o|] eqn:El; cbn; [|by rewrite badd_empty_l].
      case_decide; [done|by rewrite badd_empty_l].
    + apply isum_ext. intros l. destruct (h !! l); [|done]. cbn. f_equal.
      destruct (decide ((k, l) ∈ done)) as [Hi|Hi].
      * rewrite (decide_True (P := (k, l) ∈ _ :: done)) by set_solver.
        repeat case_decide; subst; try done; by rewrite badd_empty_l.
      * rewrite badd_empty_r. repeat case_decide; subst; try done; set_solver.
Qed.

(** ** The open buckets *)

Section History.
Context (interval max_gap : Z) (Hint : 0 < interval).

#[local] Arguments entries : simpl never.

Definition wf_devices (s : History) : Prop :=
  dict_wf (hs_devices s) ∧ ∀ name d, dict_get name (hs_devices s) = Some d → dict_wf (dv_buckets d).

Lemma entries_spec s k l :
  wf_devices s →
  (k, l) ∈ entries s ↔ ∃ d, dict_get k.1 (hs_devices s) = Some d ∧ dict_get k.2 (dv_buckets d) = Some l.
Proof.
  intros [Hn Hb]. unfold entries. rewrite list_elem_of_bind. split.
  - intros ([name d] & Hl & Hd). apply list_elem_of_fmap in Hl as ([start l'] & [= -> ->] & Hs). cbn in *.
    apply dict_elem_get in Hd; [|done]. exists d. split; [done|]. apply dict_elem_get; [by eapply Hb|done].
  - intros (d & Hd & Hs). exists (k.1, d). split; [|by apply dict_get_elem]. apply list_elem_of_fmap.
    exists (k.2, l). cbn. split; [by destruct k|by apply dict_get_elem].
Qed.

Lemma dict_wf_nodup {K V} `{EqDecision K} (d : dict K V) : dict_wf d → NoDup d.
Proof. apply NoDup_fmap_1. Qed.

Lemma entries_nodup s : wf_devices s → NoDup (entries s).
Proof.
  intros [Hn Hb]. apply NoDup_bind; [| |by apply dict_wf_nodup].
  - intros [n1 d1] [n2 d2] y H1 H2 Hy1 Hy2. apply list_elem_of_fmap in Hy1 as (? & -> & _).
    apply list_elem_of_fmap in Hy2 as (? & [= <- _ _] & _).
    apply dict_elem_get in H1, H2; [|done..]. cbn in *. congruence.
  - intros [n d] Hd. apply NoDup_fmap_2; [intros [] [] [= -> ->]; done|]. apply dict_wf_nodup, (Hb n).
    by apply dict_elem_get.
Qed.

(** ** The invariant

    For one key, whose rows no pruning reaches.  [done] are buckets taken from
    their device and about to be queued. *)

Definition in_batch (kk : key) (n : nat) : key → option nat → bool :=
  λ k b, bool_decide (k = kk ∧ b = Some n).

Definition through (kk : key) (n : nat) : key → option nat → bool :=
  λ k b, bool_decide (k = kk) && match b with Some m => bool_decide (m ≤ n)%nat | None => false end.

Record hist_inv (kk : key) (done : list (key * nat)) (s : History) : Prop := {
  hi_wf : wf_devices s;
  hi_open : ∀ k l, (k, l) ∈ entries s ∨ (k, l) ∈ done ↔
              ∃ o, hs_heap s !! l = Some o ∧ ob_key o = k ∧ ob_batch o = None;
  hi_gain : ∀ l o, hs_heap s !! l = Some o → gain (ob_bucket o);
  hi_le : ∀ l o n, hs_heap s !! l = Some o → ob_batch o = Some n → (n ≤ hs_queued s)%nat;
  hi_count : hs_queued s = (hs_written s + length (hs_queue s))%nat;
  hi_queue : ∀ i rows, hs_queue s !! i = Some rows →
               rowsum kk rows = bsum (in_batch kk (S (hs_written s + i))) (hs_heap s);
  hi_table : at_ (hs_table s) kk = bsum (through kk (hs_written s)) (hs_heap s);
}.

Lemma hist_inv_new kk : hist_inv kk [] new_history.
Proof.
  split; try done.
  - split; [constructor|done].
  - intros k l. cbn. split; [set_solver|]. by intros (o & ? & _).
Qed.

Lemma hist_inv_dev kk s name : hist_inv kk [] s → dev_ok name (device_of name s) (hs_heap s).
Proof.
  intros Hi. unfold device_of. destruct (dict_get name (hs_devices s)) as [d|] eqn:Ed; cbn.
  - destruct (hi_wf _ _ _ Hi) as [_ Hb]. split; [eauto|]. intros start l Hl.
    apply (hi_open _ _ _ Hi (name, start) l). left. apply entries_spec; [apply Hi|]. by exists d.
  - by split; [constructor|].
Qed.

(** Selections of closed buckets. *)
Lemma in_batch_closed kk n : closed_only (in_batch kk n).
Proof. intros k. apply bool_decide_eq_false_2. by intros []. Qed.

Lemma through_closed kk n : closed_only (through kk n).
Proof. intros k. unfold through. apply andb_false_r. Qed.

Hint Resolve in_batch_closed through_closed : py.

(** Recording for one device. *)
Lemma record_inv kk s name d' h' :
  hist_inv kk [] s → dev_ok name d' h' → extends name (device_of name s) d' (hs_heap s) h' →
  (∀ P, closed_only P → bsum P h' = bsum P (hs_heap s)) →
  hist_inv kk [] (set_device name (d', h') s).
Proof.
  intros Hi Hok [Hold Hnew Hkept] Hsum.
  assert (wf_devices (set_device name (d', h') s)) as Hwf.
  { destruct (hi_wf _ _ _ Hi) as [Hn Hb]. split; cbn; [by apply dict_set_wf|]. intros n d.
    rewrite dict_get_set. case_decide; [intros [= <-]; apply Hok|apply Hb]. }
  split; cbn.
  - done.
  - intros k l. rewrite entries_spec by done. cbn. rewrite dict_get_set. split.
    + intros [(d & Hd & Hl)|?]; [|set_solver]. case_decide as Hk.
      * injection Hd as <-. destruct (do_open _ _ _ Hok _ _ Hl) as (o & ? & Ho & ?). exists o.
        split_and!; [done|rewrite Ho; destruct k; cbn in *; by subst|done].
      * assert ((k, l) ∈ entries s) as He by (apply entries_spec; [apply Hi|eauto]).
        destruct (proj1 (hi_open _ _ _ Hi k l) (or_introl He)) as (o & Ho & Hko & Hbo).
        destruct (Hold _ _ Ho) as (o' & ? & ? & ? & _). exists o'. split_and!; congruence.
    + intros (o & Hl & Hk & Hb). left. destruct (hs_heap s !! l) as [o0|] eqn:E0.
      * destruct (Hold _ _ E0) as (o' & Hl' & Hk' & Hb' & _). assert (o' = o) as -> by congruence.
        destruct (proj2 (hi_open _ _ _ Hi k l)) as [He|?]; [exists o0; split_and!; congruence| |set_solver].
        apply entries_spec in He as (d & Hd & Hs); [|apply Hi]. case_decide as Hkn; [|by exists d].
        exists d'. split; [done|]. apply Hkept. unfold device_of. by rewrite <- Hkn, Hd.
      * destruct (Hnew _ _ Hl E0) as (_ & _ & start & Hks & Hs). exists d'.
        assert (k = (name, start)) as -> by congruence. cbn. by rewrite decide_True.
  - intros l o Hl. destruct (hs_heap s !! l) as [o0|] eqn:E0; [|by apply (Hnew _ _ Hl E0)].
    destruct (Hold _ _ E0) as (o' & Hl' & _ & _ & (z & Hz & Ez) & _). assert (o' = o) as -> by congruence.
    rewrite Ez. apply gain_badd; [by eapply (hi_gain _ _ _ Hi)|done].
  - intros l o n Hl Hb. destruct (hs_heap s !! l) as [o0|] eqn:E0.
    + destruct (Hold _ _ E0) as (o' & Hl' & _ & Hb' & _). eapply (hi_le _ _ _ Hi); [done|congruence].
    + destruct (Hnew _ _ Hl E0) as (? & _). congruence.
  - apply Hi.
  - intros i rows Hr. rewrite Hsum by auto with py. by apply Hi.
  - rewrite Hsum by auto with py. by apply Hi.
Qed.

(** Queueing the buckets that are done. *)
Lemma close_all_lookup n (done : list (key * nat)) (h : list Object) l :
  foldl (λ h kl, alter (close n) kl.2 h) h done !! l =
  (λ o, if decide (l ∈ done.*2) then close n o else o) <$> h !! l.
Proof.
  revert h. induction done as [|[k l'] done IH]; intros h; cbn.
  { destruct (h !! l); [|done]. cbn. by rewrite decide_False by set_solver. }
  rewrite IH, list_lookup_alter. destruct (decide (l = l')) as [->|Hn].
  - rewrite decide_True by done. destruct (h !! l'); [|done]. cbn.
    rewrite (decide_True (P := l' ∈ _ :: _)) by set_solver. by case_decide.
  - rewrite decide_False by done. destruct (h !! l); [|done]. cbn. f_equal.
    repeat case_decide; try done; set_solver.
Qed.

(** The buckets that are done, and what closing them does to the heap. *)
Lemma done_open kk done s l :
  hist_inv kk done s → l ∈ done.*2 →
  ∃ o, hs_heap s !! l = Some o ∧ (ob_key o, l) ∈ done ∧ ob_batch o = None.
Proof.
  intros Hi ([k l'] & -> & Hin)%list_elem_of_fmap. cbn.
  destruct (proj1 (hi_open _ _ _ Hi k l') (or_intror Hin)) as (o & ? & <- & ?). by exists o.
Qed.

Lemma elem_of_locs (done : list (key * nat)) k l : (k, l) ∈ done → l ∈ done.*2.
Proof. intros. apply list_elem_of_fmap. by exists (k, l). Qed.

Abbreviation close_all n done h0 := (foldl (λ h kl, alter (close n) kl.2 h) h0 done).

Lemma close_all_sum kk done s n P :
  hist_inv kk done s → (∀ k, P k (Some n) = P k None) →
  bsum P (close_all n done (hs_heap s)) = bsum P (hs_heap s).
Proof.
  intros Hi HP. rewrite !bsum_isum. apply isum_ext. intros l. rewrite close_all_lookup.
  destruct (hs_heap s !! l) as [o|] eqn:El; [|done]. cbn. f_equal. case_decide as Hd; [|done].
  destruct (done_open _ _ _ l Hi Hd) as (o' & ? & _ & Hb). assert (o' = o) as -> by congruence.
  unfold part. cbn. by rewrite Hb, HP.
Qed.

(** The rows queued are what the new batch holds. *)
Lemma close_all_rows kk done s :
  hist_inv kk done s → NoDup done →
  rowsum kk (rows_of (hs_heap s) done) =
  bsum (in_batch kk (S (hs_queued s))) (close_all (S (hs_queued s)) done (hs_heap s)).
Proof.
  intros Hi Hnd. rewrite rowsum_rows, bsum_isum by done. apply isum_ext. intros l. rewrite close_all_lookup.
  destruct (hs_heap s !! l) as [o|] eqn:El; [|done]. cbn. f_equal.
  unfold part, in_batch. destruct (decide (l ∈ done.*2)) as [Hd|Hd].
  - destruct (done_open _ _ _ l Hi Hd) as (o' & ? & Hin & _). assert (o' = o) as -> by congruence. cbn.
    case_decide as Hkl; case_bool_decide as Hk; try done.
    + destruct Hk. split; [|done].
      destruct (proj1 (hi_open _ _ _ Hi kk l) (or_intror Hkl)) as (o' & ? & ? & _). congruence.
    + destruct Hkl. by destruct Hk as [<- _].
  - rewrite decide_False, bool_decide_eq_false_2; [done| |].
    + intros [_ Hb]. pose proof (hi_le _ _ _ Hi _ _ _ El Hb). lia.
    + intros Hin. by eapply Hd, elem_of_locs.
Qed.

Lemma write_eq done s :
  done ≠ [] → write false done s =
    mkHist (hs_devices s) (close_all (S (hs_queued s)) done (hs_heap s))
      (hs_queue s ++ [rows_of (hs_heap s) done]) (S (hs_queued s)) (hs_written s) (hs_table s).
Proof. by destruct done. Qed.

Lemma write_inv kk done s :
  hist_inv kk done s → NoDup done → (∀ x, x ∈ done → x ∉ entries s) →
  hist_inv kk [] (write false done s).
Proof.
  intros Hi Hnd Hdis. destruct (decide (done = [])) as [->|Hne]; [done|]. rewrite write_eq by done.
  pose proof (hi_count _ _ _ Hi) as Hc. split; cbn.
  - apply Hi.
  - intros k l. transitivity ((k, l) ∈ entries s); [set_solver|]. rewrite close_all_lookup. split.
    + intros He. destruct (proj1 (hi_open _ _ _ Hi k l) (or_introl He)) as (o & Ho & Hk & Hb).
      exists o. rewrite Ho. cbn. rewrite decide_False; [done|]. intros Hd.
      destruct (done_open _ _ _ l Hi Hd) as (o' & ? & Hin & _). assert (o' = o) as -> by congruence.
      rewrite Hk in Hin. by destruct (Hdis _ Hin).
    + intros (o & Ho & Hk & Hb). destruct (hs_heap s !! l) as [o0|] eqn:El; [|done].
      cbn in Ho. case_decide as Hd; injection Ho as <-; [done|].
      destruct (proj2 (hi_open _ _ _ Hi k l)) as [?|Hin]; [by exists o0|done|].
      by destruct Hd; eapply elem_of_locs.
  - intros l o. rewrite close_all_lookup. destruct (hs_heap s !! l) as [o0|] eqn:El; [|done]. intros [= <-].
    pose proof (hi_gain _ _ _ Hi _ _ El). by case_decide.
  - intros l o m. rewrite close_all_lookup. destruct (hs_heap s !! l) as [o0|] eqn:El; [|done]. intros [= <-].
    case_decide; cbn; [intros [= <-]; lia|]. intros Hb. pose proof (hi_le _ _ _ Hi _ _ _ El Hb). lia.
  - rewrite length_app. cbn. lia.
  - intros i rows Hr. apply lookup_app_Some in Hr as [Hr|[Hlen Hr]].
    + rewrite (hi_queue _ _ _ Hi i rows Hr), (close_all_sum kk); [done..|]. intros k. unfold in_batch.
      apply lookup_lt_Some in Hr.
      rewrite !bool_decide_eq_false_2; [done|intros []; done|intros [_ [= Hn]]; lia].
    + apply list_lookup_singleton_Some in Hr as [Hz <-].
      replace (S (hs_written s + i)) with (S (hs_queued s)) by lia. by apply close_all_rows.
  - rewrite (hi_table _ _ _ Hi), (close_all_sum kk); [done..|]. intros k. unfold through.
    rewrite (bool_decide_eq_false_2 (S _ ≤ _)%nat) by lia. by rewrite andb_false_r.
Qed.

(** ** What each operation adds *)

(** Nothing is lost later: an object only grows, and once closed is fixed. *)
Record later (s s' : History) : Prop := {
  la_heap : ∀ l o, hs_heap s !! l = Some o → ∃ o', hs_heap s' !! l = Some o' ∧ ob_key o' = ob_key o ∧
              ble (ob_bucket o) (ob_bucket o') ∧ (ob_batch o ≠ None → o' = o) ∧
              ∀ n, ob_batch o = None → ob_batch o' = Some n → (hs_queued s < n)%nat;
  la_queued : (hs_queued s ≤ hs_queued s')%nat;
}.

#[local] Instance later_preorder : PreOrder later.
Proof.
  split.
  - intros s. split; [|done]. intros l o Hl. exists o. split_and!; try done. congruence.
  - intros s1 s2 s3 [H1 Q1] [H2 Q2]. split; [|lia]. intros l o Hl.
    destruct (H1 l o Hl) as (o1 & L1 & K1 & G1 & C1 & N1). destruct (H2 l o1 L1) as (o2 & L2 & K2 & G2 & C2 & N2).
    exists o2. split_and!; [done|congruence|by etrans| |].
    + intros Hb. rewrite <- (C1 Hb). apply C2. by rewrite (C1 Hb).
    + intros n Hb Hn. destruct (ob_batch o1) as [m|] eqn:E1; [|specialize (N2 n eq_refl Hn); lia].
      rewrite C2 in Hn by congruence. apply N1; congruence.
Qed.

Definition total (kk : key) (s : History) : Bucket := bsum (at_key kk) (hs_heap s).

(** From [s] to [s'], with [c] added to the interval of [kk]. *)
Record adds (kk : key) (c : Bucket) (s s' : History) : Prop := {
  ad_inv : hist_inv kk [] s';
  ad_later : later s s';
  ad_total : total kk s' = badd (total kk s) c;
}.

Lemma adds_trans kk c1 c2 s1 s2 s3 : adds kk c1 s1 s2 → adds kk c2 s2 s3 → adds kk (badd c1 c2) s1 s3.
Proof. intros [I1 L1 T1] [I2 L2 T2]. split; [done|by etrans|]. by rewrite T2, T1, badd_assoc. Qed.

Lemma adds_none_trans kk c s1 s2 s3 : adds kk c s1 s2 → adds kk empty_bucket s2 s3 → adds kk c s1 s3.
Proof. intros H1 H2. rewrite <- (badd_empty_r c). by eapply adds_trans. Qed.

(** Recording. *)
Lemma record_adds kk s name d' h' c :
  hist_inv kk [] s → dev_ok name d' h' → extends name (device_of name s) d' (hs_heap s) h' →
  (∀ P, closed_only P → bsum P h' = bsum P (hs_heap s)) →
  bsum (at_key kk) h' = badd (total kk s) c →
  adds kk c s (set_device name (d', h') s).
Proof.
  intros Hi Hok Hex Hsum Hc. split; [by apply record_inv| |done].
  split; [|done]. intros l o Hl. destruct (ex_old _ _ _ _ _ Hex l o Hl) as (o' & ? & ? & Hb & ? & ?).
  exists o'. split_and!; try done. congruence.
Qed.

(** Queueing. *)
Lemma write_adds kk done s s0 :
  hist_inv kk done s → NoDup done → (∀ x, x ∈ done → x ∉ entries s) →
  hs_heap s = hs_heap s0 → hs_queued s = hs_queued s0 →
  adds kk empty_bucket s0 (write false done s).
Proof.
  intros Hi Hnd Hdis Hh Hq. pose proof (write_inv kk done s Hi Hnd Hdis) as Hi'. split; [done| |].
  - destruct (decide (done = [])) as [->|Hne].
    { split; cbn; [|lia]. rewrite Hh. apply la_heap. done. }
    rewrite write_eq by done. split; cbn; [|lia]. intros l o Hl. rewrite close_all_lookup, Hh, Hl. cbn.
    eexists. split; [done|]. case_decide as Hd; cbn.
    + rewrite <- Hh in Hl. destruct (done_open _ _ _ l Hi Hd) as (o' & ? & _ & Hb).
      assert (o' = o) as -> by congruence. split_and!; try done. intros n _ [= <-]. lia.
    + split_and!; try done. congruence.
  - rewrite badd_empty_r. unfold total. rewrite <- Hh. destruct (decide (done = [])) as [->|Hne]; [done|].
    rewrite write_eq by done. by apply (close_all_sum kk).
Qed.

Lemma flush_before_adds kk name start s :
  hist_inv kk [] s → adds kk empty_bucket s (flush_before false name start s).
Proof.
  intros Hi. unfold flush_before. destruct (dict_get name (hs_devices s)) as [d|] eqn:Ed.
  2: { split; [done|done|]. by rewrite badd_empty_r. }
  destruct (hi_wf _ _ _ Hi) as [Hn Hb].
  set (over := filter (λ sl : Z * nat, sl.1 < start) (dv_buckets d)).
  set (done := _ <$> merge_sort start_le over). set (d' := mkDev _ _ _ _ _ _).
  assert (∀ k l, (k, l) ∈ done ↔ k.1 = name ∧ k.2 < start ∧ dict_get k.2 (dv_buckets d) = Some l) as Hdone.
  { intros k l. unfold done. rewrite list_elem_of_fmap. split.
    - intros ([st l'] & [= -> ->] & Hin). rewrite (merge_sort_Permutation start_le over) in Hin.
      apply list_elem_of_filter in Hin as [? Hin]. split_and!; try done. apply dict_elem_get; [eauto|done].
    - intros (<- & Hlt & Hg). exists (k.2, l). split; [by destruct k|].
      rewrite (merge_sort_Permutation start_le over). apply list_elem_of_filter. split; [done|].
      by apply dict_get_elem. }
  set (s' := set_device name (d', hs_heap s) s).
  assert (wf_devices s') as Hwf.
  { split; cbn; [by apply dict_set_wf|]. intros n0 d0. rewrite dict_get_set. case_decide; [|apply Hb].
    intros [= <-]. apply dict_filter_wf. eauto. }
  assert (∀ k l, (k, l) ∈ entries s' ↔ (k, l) ∈ entries s ∧ (k, l) ∉ done) as He.
  { intros k l. rewrite !entries_spec, Hdone by done. cbn. rewrite dict_get_set. case_decide as Hk.
    - rewrite Hk, Ed. assert (dict_wf (dv_buckets d)) as Hwd by eauto. split.
      + intros (d0 & [= <-] & Hg). apply dict_get_elem, list_elem_of_filter in Hg as [Hlt Hg]. cbn in Hlt.
        split; [exists d; split; [done|by apply dict_elem_get]|]. intros (_ & ? & _). done.
      + intros ((d0 & [= <-] & Hg) & Hnot). exists d'. split; [done|].
        apply dict_elem_get; [by apply dict_filter_wf|]. apply list_elem_of_filter.
        split; [|by apply dict_get_elem]. cbn. intros Hlt. by apply Hnot.
    - split; [|tauto]. intros H. split; [done|]. by intros (? & _). }
  apply (write_adds kk done s'); [|unfold done| |done|done].
  - destruct Hi as [Hwf' Ho Hg Hle Hc Hq Ht]. split; try done. intros k l. change (hs_heap s') with (hs_heap s).
    rewrite <- Ho, He.
    destruct (decide ((k, l) ∈ done)) as [Hd|]; [|set_solver]. split; [|tauto]. intros _. left.
    apply Hdone in Hd as (<- & _ & ?). apply entries_spec; [done|]. by exists d.
  - apply NoDup_fmap_2; [intros [] [] [= -> ->]; done|]. rewrite (merge_sort_Permutation start_le over).
    apply NoDup_filter, dict_wf_nodup. eauto.
  - intros [k l] Hd Hin. apply He in Hin. tauto.
Qed.

Lemma flush_adds kk s : hist_inv kk [] s → adds kk empty_bucket s (flush false s).
Proof.
  intros Hi. unfold flush. set (s' := mkHist _ _ _ _ _ _).
  assert (entries s' = []) as He.
  { unfold entries, s'. cbn. induction (hs_devices s) as [|x ds IH]; [done|]. cbn. apply IH. }
  apply (write_adds kk (entries s) s'); [|apply entries_nodup, Hi|rewrite He; set_solver|done|done].
  destruct Hi as [[Hn Hb] Ho Hg Hle Hc Hq Ht]. split; try done.
  - split; cbn.
    + unfold dict_wf, dict_keys. rewrite <- list_fmap_compose. exact Hn.
    + intros name d Hd. apply dict_get_elem, list_elem_of_fmap in Hd as (? & [= -> ->] & _). constructor.
  - intros k l. change (hs_heap s') with (hs_heap s). rewrite He, <- Ho. set_solver.
Qed.

(** ** Operations and the integral they should add up to *)

(** [full]: the queue takes no batch more, and what the operation would queue
    is dropped. *)
Inductive Op :=
| Observes (lfdi : string) (at_ts : Z) (w var : option Z) (full : bool)
| Offers (lfdi : string) (at_ts : Z) (avail : option Z)
| Interrupts (lfdi : string)
| Flushes (full : bool)
| Queues (full : bool)                   (* a batch for another table *)
| Writes (ok : bool) (cutoff : option Z) (* the writer runs a batch, which may fail *)
| Prunes (cutoff : Z).

Definition step (op : Op) (s : History) : History :=
  match op with
  | Observes lfdi at_ts w var full => observe interval max_gap full lfdi at_ts w var s
  | Offers lfdi at_ts avail => observe_availability lfdi at_ts avail s
  | Interrupts lfdi => interrupt lfdi s
  | Flushes full => flush full s
  | Queues full => if full then s else queue_batch [] s
  | Writes ok cutoff => write_next ok cutoff s
  | Prunes cutoff => prune cutoff s
  end.

Definition run (ops : list Op) (s : History) : History := foldl (λ s op, step op s) s ops.

(** Nothing of the interval of [kk] is lost: the queue has room for the
    batches of the series, no batch fails, and pruning spares the interval. *)
Definition spares (kk : key) (op : Op) : Prop :=
  match op with
  | Observes _ _ _ _ full | Flushes full => full = false
  | Writes ok cutoff => ok = true ∧ from_option (λ c, c <= kk.2) True cutoff
  | Prunes c => c <= kk.2
  | _ => True
  end.

(** What is last known of a device: its reading and when it was taken, and
    what it could deliver and when it said so. *)
Record Reading := mkR { r_at : option Z; r_w : option Z; r_var : option Z; r_avail : option (Z * Z) }.

Definition unread : Reading := mkR None None None None.

Definition newer (at_ts : Z) (r : Reading) : Prop := from_option (λ t0, t0 < at_ts) True (r_at r).
#[local] Instance newer_dec at_ts r : Decision (newer at_ts r).
Proof. unfold newer. destruct (r_at r); cbn; apply _. Defined.

Definition known_after (name : string) (op : Op) (r : Reading) : Reading :=
  match op with
  | Observes lfdi at_ts w var _ =>
      if decide (lower lfdi = name ∧ newer at_ts r) then mkR (Some at_ts) w var (r_avail r) else r
  | Offers lfdi at_ts avail =>
      if decide (lower lfdi = name) then mkR (r_at r) (r_w r) (r_var r) ((., at_ts) <$> avail) else r
  | Interrupts lfdi => if decide (lower lfdi = name) then mkR None (r_w r) (r_var r) (r_avail r) else r
  | _ => r
  end.

(** The availability still counts for a stretch starting at [t0]. *)
Definition current (r : Reading) (t0 : Z) : option Z :=
  '(a, t) ← r_avail r; if decide (Z.abs (t0 - t) <= max_gap) then Some a else None.

(** The part of the interval starting at [kk.2] that [op] completes: the last
    reading, held until the new one, and the new reading as one sample. *)
Definition part_of (kk : key) (op : Op) (r : Reading) : Bucket :=
  match op with
  | Observes lfdi at_ts w var _ =>
      if decide (lower lfdi = kk.1 ∧ newer at_ts r) then
        badd (match r_at r with
              | Some t0 => if decide (at_ts - t0 <= max_gap)
                           then share interval (r_w r) (r_var r) (current r t0) t0 at_ts kk.2 else empty_bucket
              | None => empty_bucket
              end)
          (if decide (kk.2 <= at_ts < kk.2 + interval) then sample w empty_bucket else empty_bucket)
      else empty_bucket
  | _ => empty_bucket
  end.

Fixpoint integral (kk : key) (r : Reading) (ops : list Op) : Bucket :=
  match ops with
  | [] => empty_bucket
  | op :: ops => badd (part_of kk op r) (integral kk (known_after kk.1 op r) ops)
  end.

(** ** Each operation adds its part *)

Definition reading (name : string) (s : History) : Reading :=
  let d := device_of name s in
  mkR (dv_at d) (dv_w d) (dv_var d)
    (match dv_avail d, dv_avail_at d with Some a, Some t => Some (a, t) | _, _ => None end).

Lemma current_fresh name s t0 : current (reading name s) t0 = fresh_avail max_gap (device_of name s) t0.
Proof.
  unfold current, reading, fresh_avail. cbn. destruct (dv_avail _); [|done]. destruct (dv_avail_at _); [|done].
  cbn. case_decide; destruct (_ <? _) eqn:E; try done; lia.
Qed.

Lemma device_of_set name name' dh s :
  device_of name (set_device name' dh s) = if decide (name = name') then dh.1 else device_of name s.
Proof. unfold device_of. cbn. rewrite dict_get_set. by case_decide. Qed.

Lemma device_of_write name full done s : device_of name (write full done s) = device_of name s.
Proof. by destruct done, full. Qed.

Lemma reading_flush_before name full n start s : reading name (flush_before full n start s) = reading name s.
Proof.
  unfold flush_before. destruct (dict_get n (hs_devices s)) as [d|] eqn:Ed; [|done]. unfold reading.
  rewrite device_of_write, device_of_set. case_decide; [|done]. subst. unfold device_of. by rewrite Ed.
Qed.

Lemma dict_get_map {V W} (f : V → W) (k : string) (d : dict string V) :
  dict_get k ((λ nd : string * V, (nd.1, f nd.2)) <$> d) = f <$> dict_get k d.
Proof.
  induction d as [|[k' v] d IH]; [done|]. unfold dict_get in *. cbn. by case_decide.
Qed.

Lemma reading_flush name full s : reading name (flush full s) = reading name s.
Proof.
  unfold flush, reading. rewrite device_of_write. unfold device_of. cbn.
  set (f := λ d : Device, mkDev (dv_at d) (dv_w d) (dv_var d) (dv_avail d) (dv_avail_at d) []).
  rewrite (dict_get_map f). by destruct (dict_get name (hs_devices s)).
Qed.

(** The readings of one device are set; its buckets stay. *)
Lemma set_reading_adds kk s name d' :
  hist_inv kk [] s → dv_buckets d' = dv_buckets (device_of name s) →
  adds kk empty_bucket s (set_device name (d', hs_heap s) s).
Proof.
  intros Hi Hb. destruct (hist_inv_dev kk s name Hi) as [Hk Ho]. apply record_adds; [done| | |done|].
  - split; rewrite Hb; done.
  - destruct (extends_refl name (device_of name s) (hs_heap s)) as [H1 H2 H3]. split; [done| |].
    + intros l o Hl Hn. congruence.
    + intros start l. by rewrite Hb.
  - by rewrite badd_empty_r.
Qed.

(** The stretch since the last reading. *)
Definition stretch (d : Device) (at_ts k : Z) : Bucket :=
  match dv_at d with
  | Some t0 => if decide (at_ts - t0 <= max_gap)
               then share interval (dv_w d) (dv_var d) (fresh_avail max_gap d t0) t0 at_ts k else empty_bucket
  | None => empty_bucket
  end.

Lemma stretch_adds kk s name at_ts :
  hist_inv kk [] s → kk.2 = floor_ interval kk.2 → newer at_ts (reading name s) →
  let d := device_of name s in
  let dh := match dv_at d with
            | Some t0 =>
                if at_ts - t0 <=? max_gap
                then integrate interval (rounds interval t0 at_ts) name (dv_w d) (dv_var d)
                       (fresh_avail max_gap d t0) t0 at_ts (d, hs_heap s)
                else (d, hs_heap s)
            | None => (d, hs_heap s)
            end in
  dev_ok name dh.1 dh.2 ∧ extends name d dh.1 (hs_heap s) dh.2 ∧ same_reading d dh.1 ∧
  (∀ P, closed_only P → bsum P dh.2 = bsum P (hs_heap s)) ∧
  bsum (at_key kk) dh.2 =
  badd (total kk s)
    (if decide (name = kk.1) then stretch d at_ts kk.2 else empty_bucket).
Proof using Hint.
  intros Hi Hal Hnew d. pose proof (hist_inv_dev kk s name Hi) as Hok. fold d in Hok.
  assert (∀ c, c = empty_bucket → let dh := (d, hs_heap s) in
    dev_ok name dh.1 dh.2 ∧ extends name d dh.1 (hs_heap s) dh.2 ∧ same_reading d dh.1 ∧
    (∀ P, closed_only P → bsum P dh.2 = bsum P (hs_heap s)) ∧
    bsum (at_key kk) dh.2 = badd (total kk s) (if decide (name = kk.1) then c else empty_bucket)) as Hsame.
  { intros c ->. split_and!; try done; [apply extends_refl|]. by case_decide; rewrite badd_empty_r. }
  unfold stretch. unfold newer in Hnew. cbn in Hnew. fold d in Hnew. destruct (dv_at d) as [t0|]; [|by apply Hsame].
  cbn in Hnew. destruct (at_ts - t0 <=? max_gap) eqn:Eg; [apply Z.leb_le in Eg|apply Z.leb_gt in Eg].
  2: { rewrite (decide_False (P := at_ts - t0 <= max_gap)) by lia. by apply Hsame. }
  destruct (integrate_spec interval Hint (rounds interval t0 at_ts) name (dv_w d) (dv_var d)
    (fresh_avail max_gap d t0) t0 at_ts d (hs_heap s)) as (H1 & H2 & H3 & H4 & H5); [done|lia|done|].
  split_and!; try done. rewrite H5 by done. rewrite (decide_True (P := at_ts - t0 <= max_gap)) by done.
  unfold total. f_equal. case_decide; case_bool_decide; congruence.
Qed.

Lemma in_interval k t : k = floor_ interval k → (k <= t < k + interval ↔ k = floor_ interval t).
Proof using Hint.
  intros Hk. pose proof (floor_bounds interval Hint t). split; [|lia]. intros.
  destruct (decide (k = floor_ interval t)); [done|]. destruct (floor_apart interval Hint t k); [done..|lia|lia].
Qed.

Lemma observe_adds kk s lfdi at_ts w var :
  hist_inv kk [] s → kk.2 = floor_ interval kk.2 →
  adds kk (part_of kk (Observes lfdi at_ts w var false) (reading kk.1 s)) s
    (observe interval max_gap false lfdi at_ts w var s).
Proof using Hint.
  intros Hi Hal. unfold observe. set (name := lower lfdi). set (d := device_of name s).
  assert (match dv_at d with Some t0 => at_ts <=? t0 | None => false end = negb (bool_decide (newer at_ts (reading name s))))
    as ->.
  { case_bool_decide as Hn; unfold newer in Hn; cbn in Hn; fold d in Hn; destruct (dv_at d) as [t0|]; cbn in *;
      try done; [apply Z.leb_gt|apply Z.leb_le]; lia. }
  cbn [part_of]. fold name. case_bool_decide as Hnew; cbn [negb].
  2: { rewrite decide_False; [by apply set_reading_adds|]. intros [Hk ?]. by rewrite Hk in Hnew. }
  destruct (stretch_adds kk s name at_ts Hi Hal Hnew) as (H1 & H2 & H3 & H4 & H5). fold d in H1, H2, H3, H4, H5 |- *.
  revert H1 H2 H3 H4 H5. generalize (match dv_at d with
    | Some t0 => if at_ts - t0 <=? max_gap
        then integrate interval (rounds interval t0 at_ts) name (dv_w d) (dv_var d)
          (fresh_avail max_gap d t0) t0 at_ts (d, hs_heap s) else (d, hs_heap s)
    | None => (d, hs_heap s) end). intros [d1 h1] H1 H2 H3 H4 H5. cbn [fst snd] in *.
  set (d1' := mkDev _ _ _ _ _ _).
  destruct (in_bucket_spec interval (sample w) name at_ts d1' h1) as (I1 & I2 & _ & I4);
    [by destruct H1; split|apply sample_additive|apply gain_sample|].
  destruct (in_bucket interval (sample w) name at_ts (d1', h1)) as [d2 h2]. cbn [fst snd] in *.
  eapply adds_none_trans; [apply record_adds; [done|done| | |]|].
  - fold d. eapply extends_trans; [exact H2|]. destruct I2 as [? ? ?]. by split.
  - intros P HP. by rewrite I4, HP, H4.
  - rewrite I4, H5. unfold at_key at 1. destruct (decide (name = kk.1)) as [Hk|Hk]; cycle 1.
    + rewrite bool_decide_eq_false_2 by (intros <-; done). by rewrite decide_False by tauto.
    + rewrite (decide_True (P := name = kk.1 ∧ _)) by (by rewrite <- Hk). rewrite <- Hk.
      replace (match r_at (reading name s) with Some _ => _ | None => _ end) with (stretch d at_ts kk.2)
        by (unfold stretch; change (r_at (reading name s)) with (dv_at d); destruct (dv_at d); [|done];
            by rewrite current_fresh).
      rewrite badd_assoc.
      destruct (decide (kk.2 <= at_ts < kk.2 + interval)) as [Hin|Hin].
      * apply (in_interval kk.2 at_ts Hal) in Hin. rewrite bool_decide_eq_true_2; [done|].
        rewrite <- Hin. by destruct kk; cbn in *; subst.
      * rewrite badd_empty_r, bool_decide_eq_false_2; [done|]. intros <-. apply Hin. by apply in_interval.
  - apply flush_before_adds. apply record_inv; [done|done| |].
    + fold d. eapply extends_trans; [exact H2|]. destruct I2 as [? ? ?]. by split.
    + intros P HP. by rewrite I4, HP, H4.
Qed.

(** The writer and the queue change neither the buckets nor the readings. *)
Lemma same_heap_adds kk s s' :
  hist_inv kk [] s' → hs_heap s' = hs_heap s → (hs_queued s ≤ hs_queued s')%nat → adds kk empty_bucket s s'.
Proof.
  intros Hi Hh Hq. split; [done| |by unfold total; rewrite Hh, badd_empty_r].
  split; [|done]. rewrite Hh. apply la_heap. done.
Qed.

Lemma prune_spares (c : Z) (t : gmap key Bucket) (kk : key) : c <= kk.2 → at_ (prune_table c t) kk = at_ t kk.
Proof.
  intros Hc. unfold prune_table. destruct (t !! kk) as [b|] eqn:E.
  - by rewrite (map_lookup_filter_Some_2 _ t kk b).
  - by rewrite map_lookup_filter_None_2 by auto.
Qed.

Lemma through_S kk n h : bsum (through kk (S n)) h = badd (bsum (through kk n) h) (bsum (in_batch kk (S n)) h).
Proof.
  apply bsum_split. intros l o _. unfold through, in_batch. destruct (ob_batch o) as [m|]; cbn.
  2: { rewrite !andb_false_r, bool_decide_eq_false_2 by (by intros []). done. }
  destruct (decide (ob_key o = kk)) as [->|Hk].
  - rewrite (bool_decide_eq_true_2 (kk = kk)) by done. cbn.
    destruct (decide (m = S n)) as [->|Hm].
    + rewrite (bool_decide_eq_true_2 (_ ∧ _)), (bool_decide_eq_true_2 (S n ≤ _)%nat),
        (bool_decide_eq_false_2 (S n ≤ n)%nat) by (done || lia). done.
    + rewrite (bool_decide_eq_false_2 (_ ∧ _)) by (intros [_ [= ?]]; lia).
      rewrite (bool_decide_ext (m ≤ S n)%nat (m ≤ n)%nat) by lia. by rewrite xorb_false_r, andb_false_r.
  - rewrite !(bool_decide_eq_false_2 (ob_key o = kk)) by done.
    rewrite (bool_decide_eq_false_2 (_ ∧ _)) by (intros []; done). done.
Qed.

Lemma write_next_adds kk cutoff s :
  hist_inv kk [] s → from_option (λ c, c <= kk.2) True cutoff →
  adds kk empty_bucket s (write_next true cutoff s).
Proof.
  intros Hi Hc. unfold write_next. destruct (hs_queue s) as [|rows q] eqn:Eq.
  { by apply same_heap_adds. }
  apply same_heap_adds; [|done|done]. destruct Hi as [Hwf Ho Hg Hle Hct Hq Ht]. rewrite Eq in *.
  split; cbn; try done.
  - cbn in Hct. lia.
  - intros i r Hr. rewrite (Hq (S i) r Hr). do 2 f_equal. lia.
  - transitivity (at_ (foldl upsert_row (hs_table s) rows) kk).
    { destruct cutoff; [by apply prune_spares|done]. }
    rewrite upsert_rows, Ht, (Hq 0%nat rows eq_refl), Nat.add_0_r. symmetry. apply through_S.
Qed.

Lemma queue_other_adds kk s : hist_inv kk [] s → adds kk empty_bucket s (queue_batch [] s).
Proof.
  intros Hi. apply same_heap_adds; [|done|cbn; lia]. destruct Hi as [Hwf Ho Hg Hle Hct Hq Ht].
  split; cbn; try done.
  - intros l o n Hl Hb. specialize (Hle l o n Hl Hb). lia.
  - rewrite length_app. cbn. lia.
  - intros i rows Hr. apply lookup_app_Some in Hr as [Hr|[Hlen Hr]]; [by apply Hq|].
    apply list_lookup_singleton_Some in Hr as [Hz <-]. symmetry. apply bsum_none. intros l o Hl.
    apply bool_decide_eq_false_2. intros [_ Hb]. specialize (Hle l o _ Hl Hb). lia.
Qed.

Lemma step_adds kk op s :
  hist_inv kk [] s → kk.2 = floor_ interval kk.2 → spares kk op →
  adds kk (part_of kk op (reading kk.1 s)) s (step op s).
Proof using Hint.
  intros Hi Hal Hsp. destruct op as [lfdi at_ts w var full|lfdi at_ts avail|lfdi|full|full|ok cutoff|c];
    cbn [step part_of spares] in *; subst.
  - by apply observe_adds.
  - by apply set_reading_adds.
  - unfold interrupt. destruct (dict_get (lower lfdi) (hs_devices s)) eqn:Ed.
    + apply set_reading_adds; [done|]. unfold device_of. by rewrite Ed.
    + by apply same_heap_adds.
  - by apply flush_adds.
  - destruct full; [by apply same_heap_adds|by apply queue_other_adds].
  - destruct Hsp as [-> Hc]. by apply write_next_adds.
  - apply same_heap_adds; [|done|done]. destruct Hi as [Hwf Ho Hg Hle Hct Hq Ht]. split; try done.
    cbn. rewrite prune_spares by done. done.
Qed.

(** *** The readings *)

Lemma in_bucket_same f name at_ts d h : same_reading d (in_bucket interval f name at_ts (d, h)).1.
Proof. unfold in_bucket, bucket. cbn. by destruct (dict_get _ _). Qed.

Lemma integrate_same fuel name w var avail t0 t1 d h :
  same_reading d (integrate interval fuel name w var avail t0 t1 (d, h)).1.
Proof.
  revert t0 d h. induction fuel as [|fuel IH]; intros t0 d h; [done|]. cbn. destruct (t0 <? t1); [|done].
  pose proof (in_bucket_same (hold w var avail (Z.min t1 (floor_ interval t0 + interval) - t0)) name t0 d h) as H.
  destruct (in_bucket _ _ _ _ _) as [d1 h1]. specialize (IH (Z.min t1 (floor_ interval t0 + interval)) d1 h1).
  cbn in H. destruct H as (?&?&?&?&?), IH as (?&?&?&?&?). repeat split; congruence.
Qed.

Lemma reading_observe name s lfdi at_ts w var full :
  reading name (observe interval max_gap full lfdi at_ts w var s) =
  known_after name (Observes lfdi at_ts w var full) (reading name s).
Proof.
  unfold observe. cbn [known_after]. set (n := lower lfdi). set (d := device_of n s).
  destruct (decide (newer at_ts (reading n s))) as [Hnew|Hnew].
  - replace (match dv_at d with Some t0 => at_ts <=? t0 | None => false end) with false.
    2: { unfold newer in Hnew. cbn in Hnew. fold d in Hnew. destruct (dv_at d); [|done]. cbn in Hnew. symmetry.
         apply Z.leb_gt. lia. }
    set (dh := match dv_at d with Some _ => _ | None => _ end).
    assert (same_reading d dh.1) as (_ & _ & _ & Ha & Hat).
    { unfold dh. destruct (dv_at d) as [t0|]; [|done]. destruct (_ <=? _); [|done]. apply integrate_same. }
    rewrite reading_flush_before. unfold reading at 1. rewrite device_of_set.
    set (d1 := mkDev _ _ _ _ _ _). destruct (in_bucket_same (sample w) n at_ts d1 dh.2) as (E1&E2&E3&E4&E5).
    destruct (decide (name = n)) as [->|Hn].
    + rewrite decide_True by done. rewrite E1, E2, E3, E4, E5. unfold d1. cbn. by rewrite Ha, Hat.
    + rewrite decide_False by (intros []; congruence). done.
  - replace (match dv_at d with Some t0 => at_ts <=? t0 | None => false end) with true.
    2: { unfold newer in Hnew. cbn in Hnew. fold d in Hnew. destruct (dv_at d); [|done]. cbn in Hnew. symmetry.
         apply Z.leb_le. lia. }
    rewrite decide_False by (intros [<- ?]; done). unfold reading. rewrite device_of_set. by case_decide; subst.
Qed.

Lemma step_reading name op s : reading name (step op s) = known_after name op (reading name s).
Proof.
  destruct op; cbn [step]; [apply reading_observe|..]; cbn [known_after]; try done.
  - unfold observe_availability, reading. rewrite device_of_set. repeat case_decide; subst; try done.
    cbn. by destruct avail.
  - unfold interrupt. destruct (dict_get (lower lfdi) (hs_devices s)) as [d|] eqn:Ed.
    + unfold reading. rewrite device_of_set. repeat case_decide; subst; try done.
      cbn. unfold device_of. by rewrite Ed.
    + case_decide; [|done]. subst name. unfold reading, device_of. by rewrite Ed.
  - apply reading_flush.
  - by destruct full.
  - unfold write_next. by destruct (hs_queue s).
Qed.

Lemma run_adds kk ops s :
  hist_inv kk [] s → kk.2 = floor_ interval kk.2 → Forall (spares kk) ops →
  adds kk (integral kk (reading kk.1 s) ops) s (run ops s).
Proof using Hint.
  intros Hi Hal Hsp. revert s Hi. induction Hsp as [|op ops Hop _ IH]; intros s Hi.
  - cbn. by apply same_heap_adds.
  - pose proof (step_adds kk op s Hi Hal Hop) as Ha. cbn [integral]. eapply adds_trans; [exact Ha|].
    rewrite <- step_reading. apply IH, Ha.
Qed.

(** ** Queries *)

(** A copy is added to the rows, when the batch of its bucket is not in them. *)
Definition counted (through : nat) (s s3 : History) (kk : key) (l : nat) : Prop :=
  (kk, l) ∈ entries s ∧ ∀ o n, hs_heap s3 !! l = Some o → ob_batch o = Some n → (through < n)%nat.

Lemma unwritten_spec through s3 (c : key * Bucket * nat) :
  unwritten through s3 c = true ↔ ∀ o n, hs_heap s3 !! c.2 = Some o → ob_batch o = Some n → (through < n)%nat.
Proof.
  unfold unwritten. destruct (hs_heap s3 !! c.2) as [o|]; [|done].
  destruct (ob_batch o) as [n|] eqn:Eb.
  - rewrite bool_decide_eq_true. split; [intros ? ? ? [= <-]|intros H]; [congruence|by eapply H].
  - split; [|done]. intros _ ? ? [= <-]. congruence.
Qed.

Lemma pending_rows keep through s s3 :
  fst <$> filter (λ c, unwritten through s3 c = true) (pending keep s) =
  rows_of (hs_heap s) (filter (λ kl : key * nat,
    keep kl.1 = true ∧ unwritten through s3 (kl.1, empty_bucket, kl.2) = true) (entries s)).
Proof.
  unfold pending. induction (entries s) as [|[k l] es IH]; [done|]. cbn [omap list_omap fst snd].
  rewrite filter_cons. cbn [fst snd]. destruct (keep k) eqn:Ek; cycle 1.
  { rewrite decide_False by (by intros []). done. }
  destruct (hs_heap s !! l) as [o|] eqn:El; cbn [fmap option_fmap option_map]; cycle 1.
  { case_decide; [|done]. cbn. rewrite El. exact IH. }
  rewrite filter_cons. change (unwritten through s3 (k, ob_bucket o, l))
    with (unwritten through s3 (k, empty_bucket, l)).
  destruct (unwritten through s3 (k, empty_bucket, l)) eqn:Eu.
  - rewrite !decide_True by done. cbn. rewrite El. cbn. f_equal. exact IH.
  - rewrite !decide_False by naive_solver. exact IH.
Qed.

Lemma query_at kk keep s s2 s3 (c : nat → Object → Bucket) :
  hist_inv kk [] s → hist_inv kk [] s2 → keep kk = true →
  (∀ l o, hs_heap s !! l = Some o →
     (counted (hs_written s2) s s3 kk l → c l o = ob_bucket o) ∧
     (¬ counted (hs_written s2) s s3 kk l → c l o = empty_bucket)) →
  at_ (query_all keep s s2 s3) kk =
  badd (bsum (through kk (hs_written s2)) (hs_heap s2)) (isum c (hs_heap s)).
Proof.
  intros Hi Hi2 Hkeep Hc. unfold query_all, merge_. rewrite upsert_rows, pending_rows. f_equal.
  - rewrite <- (hi_table _ _ _ Hi2). destruct (hs_table s2 !! kk) as [b|] eqn:E.
    + by rewrite (map_lookup_filter_Some_2 _ (hs_table s2) kk b).
    + by rewrite map_lookup_filter_None_2 by auto.
  - rewrite rowsum_rows by (apply NoDup_filter, entries_nodup, Hi). apply isum_ext. intros l.
    destruct (hs_heap s !! l) as [o|] eqn:El; [|done]. cbn. f_equal. destruct (Hc l o El) as [H1 H2].
    case_decide as Hd; rewrite list_elem_of_filter, unwritten_spec in Hd; cbn in Hd; symmetry;
      [apply H1|apply H2]; unfold counted; tauto.
Qed.

Lemma drain_spec kk s :
  hist_inv kk [] s →
  hist_inv kk [] (drain s) ∧ hs_heap (drain s) = hs_heap s ∧ hs_written (drain s) = hs_queued s.
Proof.
  intros Hi. unfold drain. remember (length (hs_queue s)) as n eqn:En.
  assert (∀ m, (m ≤ n)%nat → let s' := Nat.iter m (write_next true None) s in
    hist_inv kk [] s' ∧ hs_heap s' = hs_heap s ∧ hs_queued s' = hs_queued s ∧
    hs_written s' = (hs_written s + m)%nat) as Hm.
  { induction m as [|m IH]; intros Hle; [cbn; split_and!; done || lia|].
    destruct IH as (I1 & I2 & I3 & I4); [lia|]. cbn zeta. rewrite Nat.iter_succ.
    set (s' := Nat.iter m _ s) in *.
    pose proof (hi_count _ _ _ Hi). pose proof (hi_count _ _ _ I1).
    split; [by apply write_next_adds|]. unfold write_next.
    destruct (hs_queue s') as [|rows q]; cbn in *; [lia|]. split_and!; done || lia. }
  destruct (Hm n) as (I1 & I2 & I3 & I4); [done|]. pose proof (hi_count _ _ _ Hi). split_and!; [done..|lia].
Qed.

Lemma open_is_counted kk s l o n :
  hist_inv kk [] s → hs_heap s !! l = Some o →
  counted n s s kk l ↔ ob_key o = kk ∧ ob_batch o = None.
Proof.
  intros Hi Hl. unfold counted. pose proof (hi_open _ _ _ Hi kk l) as Ho. split.
  - intros [He _]. destruct (proj1 Ho (or_introl He)) as (o' & ? & ? & ?). split; congruence.
  - intros [Hk Hb]. destruct (proj2 Ho) as [He|?]; [by exists o| |set_solver]. split; [done|].
    intros o' m ? ?. congruence.
Qed.

(** A query at rest: what the table has, and the open buckets. *)
Lemma query_at_rest kk keep s s2 :
  hist_inv kk [] s → hist_inv kk [] s2 → keep kk = true →
  hs_heap s2 = hs_heap s → hs_written s2 = hs_queued s →
  at_ (query_all keep s s2 s2) kk = total kk s.
Proof.
  intros Hi Hi2 Hkeep Hh Hw.
  rewrite (query_at kk keep s s2 s2
    (λ _ o, if decide (ob_key o = kk ∧ ob_batch o = None) then ob_bucket o else empty_bucket)); [|done..|].
  - unfold total. rewrite Hh, Hw, !bsum_isum, <- isum_badd. apply isum_ext. intros l.
    destruct (hs_heap s !! l) as [o|] eqn:El; [|done]. cbn. f_equal. unfold part, through, at_key.
    destruct (decide (ob_key o = kk)) as [Hk|Hk].
    + rewrite (bool_decide_eq_true_2 (ob_key o = kk)) by done. cbn. destruct (ob_batch o) as [m|] eqn:Eb.
      * rewrite bool_decide_eq_true_2 by (by eapply (hi_le _ _ _ Hi)).
        by rewrite decide_False, badd_empty_r by (by intros []).
      * by rewrite decide_True, badd_empty_l.
    + rewrite (bool_decide_eq_false_2 (ob_key o = kk)), decide_False by (done || by intros []).
      by rewrite badd_empty_l.
  - intros l o Hl.
    assert (counted (hs_written s2) s s2 kk l ↔ counted (hs_written s2) s s kk l) as -> by (unfold counted; by rewrite Hh).
    rewrite (open_is_counted kk s l o _ Hi Hl). by case_decide.
Qed.

#[local] Instance counted_dec n s s3 kk l : Decision (counted n s s3 kk l).
Proof.
  refine (cast_if_and (decide ((kk, l) ∈ entries s)) (decide (unwritten n s3 (kk, empty_bucket, l) = true)));
    unfold counted; rewrite <- (unwritten_spec n s3 (kk, empty_bucket, l)); tauto.
Defined.

Lemma not_counted n s s3 kk l :
  ¬ counted n s s3 kk l → (kk, l) ∈ entries s →
  ∃ o m, hs_heap s3 !! l = Some o ∧ ob_batch o = Some m ∧ (m ≤ n)%nat.
Proof.
  unfold counted. rewrite <- (unwritten_spec n s3 (kk, empty_bucket, l)). intros Hn He.
  assert (unwritten n s3 (kk, empty_bucket, l) = false) as Hu by (apply not_true_iff_false; tauto).
  unfold unwritten in Hu. cbn in Hu. destruct (hs_heap s3 !! l) as [o|]; [|done].
  destruct (ob_batch o) as [m|] eqn:Eb; [|done]. exists o, m. apply bool_decide_eq_false in Hu. split_and!; done || lia.
Qed.

(** The bucket of a copy left out was written with the rows. *)
Lemma left_out_written kk s s2 s3 l o :
  hist_inv kk [] s → hist_inv kk [] s2 → later s s2 → later s2 s3 → (hs_queued s ≤ hs_written s2)%nat →
  hs_heap s !! l = Some o → ob_key o = kk → ¬ counted (hs_written s2) s s3 kk l →
  ∃ o2, hs_heap s2 !! l = Some o2 ∧ ble (ob_bucket o) (ob_bucket o2) ∧
    part (through kk (hs_written s2)) o2 = ob_bucket o2.
Proof.
  intros Hi Hi2 L12 L23 Hq Hl Hk Hn. pose proof (hi_count _ _ _ Hi2) as Hc2.
  destruct (la_heap _ _ L12 l o Hl) as (o2 & H2 & K2 & G2 & C2 & _). exists o2. split_and!; [done..|].
  unfold part, through. rewrite bool_decide_eq_true_2 by congruence. cbn.
  destruct (ob_batch o) as [m|] eqn:Eb.
  - rewrite C2, Eb by done. rewrite bool_decide_eq_true_2; [done|]. pose proof (hi_le _ _ _ Hi _ _ _ Hl Eb). lia.
  - destruct (not_counted _ _ _ _ _ Hn) as (o3 & m & H3 & B3 & Hm).
    { destruct (proj2 (hi_open _ _ _ Hi kk l)) as [?|?]; [by exists o|done|set_solver]. }
    destruct (la_heap _ _ L23 l o2 H2) as (o3' & H3' & _ & _ & C3 & N3). assert (o3' = o3) as -> by congruence.
    destruct (ob_batch o2) as [m2|] eqn:E2; [|specialize (N3 m eq_refl B3); lia].
    rewrite C3, E2 in B3 by done. injection B3 as ->. by rewrite bool_decide_eq_true_2.
Qed.

(** What the copies add. *)
Definition copied (n : nat) (s s3 : History) (kk : key) (l : nat) (o : Object) : Bucket :=
  if decide (counted n s s3 kk l) then ob_bucket o else empty_bucket.

Lemma counted_open kk n s s3 l o :
  hist_inv kk [] s → hs_heap s !! l = Some o → counted n s s3 kk l → ob_key o = kk ∧ ob_batch o = None.
Proof.
  intros Hi Hl [He _]. destruct (proj1 (hi_open _ _ _ Hi kk l) (or_introl He)) as (o' & ? & ? & ?).
  split; congruence.
Qed.

Lemma gain_part kk done P s l o : hist_inv kk done s → hs_heap s !! l = Some o → gain (part P o).
Proof. intros Hi Hl. unfold part. pose proof (hi_gain _ _ _ Hi _ _ Hl). destruct (P _ _); auto with py. Qed.

Section Between.
Context (kk : key) (s s2 s3 : History).
Context (Hi : hist_inv kk [] s) (Hi2 : hist_inv kk [] s2) (L12 : later s s2) (L23 : later s2 s3).

Abbreviation rows_part := (bsum (through kk (hs_written s2)) (hs_heap s2)).
Abbreviation copies_part := (isum (copied (hs_written s2) s s3 kk) (hs_heap s)).

(** Everything copied or already closed is in the result. *)
Lemma query_lower : (hs_queued s ≤ hs_written s2)%nat → ble (total kk s) (badd rows_part copies_part).
Proof using Hint Hi Hi2 L12 L23.
  intros Hq. unfold total. rewrite !bsum_isum.
  set (A := λ l o, if decide (counted (hs_written s2) s s3 kk l) then empty_bucket else part (at_key kk) o).
  transitivity (badd (isum A (hs_heap s)) copies_part).
  { rewrite <- isum_badd. erewrite isum_ext; [done|]. intros l.
    destruct (hs_heap s !! l) as [o|] eqn:El; [|done]. cbn. f_equal. unfold A, copied.
    case_decide as Hd; [|by rewrite badd_empty_r]. rewrite badd_empty_l. unfold part, at_key.
    destruct (counted_open kk _ s s3 l o Hi El Hd) as [Hk _]. by rewrite bool_decide_eq_true_2. }
  apply ble_badd; [|done]. apply isum_ble; [|by intros; eapply gain_part].
  intros l o Hl. destruct (la_heap _ _ L12 l o Hl) as (o2 & H2 & _).
  pose proof (gain_part kk [] (through kk (hs_written s2)) s2 l o2 Hi2 H2) as Hg.
  unfold A. case_decide as Hd; [by exists o2; split; [|apply ble_empty]|].
  unfold part at 1, at_key. case_bool_decide as Hk; [|by exists o2; split; [|apply ble_empty]].
  destruct (left_out_written kk s s2 s3 l o) as (o2' & ? & ? & Hp); [done..|].
  exists o2'. split; [done|]. by rewrite Hp.
Qed.

(** No bucket is in both: a copy whose bucket the rows have is left out. *)
Lemma query_upper : ble (badd rows_part copies_part) (total kk s2).
Proof using Hint Hi Hi2 L12 L23.
  unfold total. rewrite !bsum_isum.
  set (O := λ (_ : nat) o, if through kk (hs_written s2) (ob_key o) (ob_batch o) then empty_bucket
                           else part (at_key kk) o).
  transitivity (badd (isum (λ _, part (through kk (hs_written s2))) (hs_heap s2)) (isum O (hs_heap s2))).
  2: { rewrite <- isum_badd. erewrite isum_ext; [done|]. intros l.
       destruct (hs_heap s2 !! l) as [o|] eqn:El; [|done]. cbn. f_equal. unfold O, part at 1.
       destruct (through _ _ _ _) eqn:Et; [|by rewrite badd_empty_l]. rewrite badd_empty_r.
       unfold part, at_key. unfold through in Et. apply andb_prop in Et as [-> _]. done. }
  assert (∀ l o, hs_heap s2 !! l = Some o → gain (O l o)) as Hg.
  { intros l o Hl. unfold O. destruct (through _ _ _ _); [apply gain_empty|by eapply gain_part]. }
  apply ble_badd; [done|]. apply isum_ble; [|done].
  intros l o Hl. destruct (la_heap _ _ L12 l o Hl) as (o2 & H2 & K2 & G2 & _). exists o2. split; [done|].
  unfold copied. case_decide as Hd; [|by apply ble_empty, Hg].
  destruct (counted_open kk _ s s3 l o Hi Hl Hd) as [Hk Hb].
  unfold O, part, at_key. rewrite (bool_decide_eq_true_2 (ob_key o2 = kk)) by congruence.
  destruct (through kk (hs_written s2) (ob_key o2) (ob_batch o2)) eqn:Et; [|done].
  unfold through in Et. apply andb_prop in Et as [_ Et]. destruct (ob_batch o2) as [m|] eqn:E2; [|done].
  apply bool_decide_eq_true in Et. destruct Hd as [_ Hd].
  destruct (la_heap _ _ L23 l o2 H2) as (o3 & H3 & _ & _ & C3 & _).
  rewrite C3 in H3 by congruence. specialize (Hd o2 m H3 E2). lia.
Qed.
End Between.

(** ** The properties *)

(** The rows of a result by their keys. *)
Definition by_key (rows : list (key * Bucket)) : gmap key Bucket := list_to_map rows.

(** A limit that all the rows keep to changes nothing but their order. *)
Lemma first_rows_all (limit : Z) (t : gmap key Bucket) :
  Z.of_nat (size t) <= Z.max 1 limit → by_key (first_rows limit t) = t.
Proof.
  intros Hn. unfold by_key, first_rows. rewrite take_ge.
  - pose proof (merge_sort_Permutation row_le (map_to_list t)) as Hp.
    rewrite <- (list_to_map_to_list t) at 2. apply list_to_map_proper; [|done].
    by rewrite Hp; apply NoDup_fst_map_to_list.
  - rewrite (merge_sort_Permutation row_le (map_to_list t)), length_map_to_list. lia.
Qed.

Lemma upsert_grows (rows : list (key * Bucket)) (t : gmap key Bucket) : (size t ≤ size (foldl upsert_row t rows))%nat.
Proof.
  revert t. induction rows as [|row rows IH]; intros t; cbn; [done|].
  etrans; [|apply IH]. unfold upsert_row. rewrite <- !size_dom. apply subseteq_size. set_solver.
Qed.

Lemma query_in_limit keep (limit : Z) s s2 s3 :
  Z.of_nat (size (query_all keep s s2 s3)) <= Z.max 1 limit →
  by_key (query keep limit s s2 s3) = query_all keep s s2 s3.
Proof.
  intros Hn. unfold query. change (@list_to_map key Bucket (gmap key Bucket) _ _) with by_key.
  rewrite (first_rows_all limit (filter _ _)).
  - by apply first_rows_all.
  - pose proof (upsert_grows (fst <$> filter (λ c, unwritten (hs_written s2) s3 c = true) (pending keep s))
      (filter (λ kb : key * Bucket, keep kb.1 = true) (hs_table s2))) as Hg.
    unfold query_all, merge_ in Hn. lia.
Qed.

(** C15: The energy history is exact as long as nothing of it is lost.  After
    any sequence of readings, availability reports, interruptions, flushes,
    writer runs and prunings in which the write queue never drops a batch of
    the series, no batch fails and pruning spares the interval, a query whose
    limit has room for every interval it selects returns for it the integral
    of the readings as defined without any bucket, batch or table: each
    reading held until the next unless the gap is too long, clipped to the
    interval, plus one sample per reading. *)
Theorem history_query_is_integral (kk : key) (ops : list Op) (keep : key → bool) (limit : Z) :
  kk.2 = floor_ interval kk.2 → Forall (spares kk) ops → keep kk = true →
  let s := run ops new_history in
  Z.of_nat (size (query_all keep s (drain s) (drain s))) <= Z.max 1 limit →
  at_ (by_key (query keep limit s (drain s) (drain s))) kk = integral kk unread ops.
Proof using Hint.
  intros Hal Hsp Hkeep s Hlim. rewrite query_in_limit by done.
  destruct (run_adds kk ops new_history (hist_inv_new kk) Hal Hsp) as [Hi _ Ht].
  fold s in Hi, Ht. destruct (drain_spec kk s Hi) as (Hi2 & Hh & Hw).
  rewrite query_at_rest by done. rewrite Ht. apply badd_empty_l.
Qed.

(** A query run beside the recording counts each reading at most once and
    misses none that was in before it: with the open intervals copied after
    [ops1], the table read after [ops2] more, when the batches queued by then
    have run, and the copies merged after [ops3] more, the result lies between
    the integral at the copy and the integral at the read. *)
Theorem query_counts_each_once (kk : key) (ops1 ops2 ops3 : list Op) (keep : key → bool) :
  kk.2 = floor_ interval kk.2 → Forall (spares kk) (ops1 ++ ops2 ++ ops3) → keep kk = true →
  let s := run ops1 new_history in
  let s2 := run ops2 s in
  (hs_queued s ≤ hs_written s2)%nat →
  ble (integral kk unread ops1) (at_ (query_all keep s s2 (run ops3 s2)) kk) ∧
  ble (at_ (query_all keep s s2 (run ops3 s2)) kk) (integral kk unread (ops1 ++ ops2)).
Proof using Hint.
  intros Hal (Hs1 & (Hs2 & Hs3)%Forall_app)%Forall_app Hkeep s s2 Hq.
  pose proof (run_adds kk ops1 new_history (hist_inv_new kk) Hal Hs1) as [Hi _ Ht]. fold s in Hi, Ht.
  pose proof (run_adds kk ops2 s Hi Hal Hs2) as [Hi2 L12 _]. fold s2 in Hi2, L12.
  pose proof (run_adds kk ops3 s2 Hi2 Hal Hs3) as [_ L23 _].
  pose proof (run_adds kk (ops1 ++ ops2) new_history (hist_inv_new kk) Hal
    (proj2 (Forall_app _ _ _) (conj Hs1 Hs2))) as [_ _ Ht2].
  unfold run in Ht2. rewrite foldl_app in Ht2. change (foldl _ _ ops2) with s2 in Ht2.
  change (total kk new_history) with empty_bucket in Ht, Ht2. rewrite badd_empty_l in Ht, Ht2.
  change (reading kk.1 new_history) with unread in Ht, Ht2. rewrite <- Ht, <- Ht2.
  rewrite (query_at kk keep s s2 _ (copied (hs_written s2) s (run ops3 s2) kk)) by
    (done || (intros l o _; unfold copied; by case_decide)).
  split; [by apply query_lower|by apply query_upper].
Qed.
End History.

(** *** Witnesses *)

Definition day : list Op :=
  [Observes "D1" 100 (Some 500) None false; Offers "D1" 150 (Some 800);
   Observes "d1" 700 (Some 300) (Some (-20)) false; Queues false; Observes "d1" 1000 (Some (-40)) None false;
   Observes "d2" 1000 (Some 7) None false; Queues true; Flushes false; Writes true (Some 0)].

Lemma history_query_is_integral_witness :
  let s := run 900 800 day new_history in
  at_ (by_key (query (λ _, true) 100000 s (drain s) (drain s))) ("d1", 0) =
    mkB 800 2 360000 0 (Some 300) (Some 500) 200 0 (-4000) 800 640000 800 280000.
Proof.
  etrans; [apply (history_query_is_integral 900 800 ltac:(lia) ("d1", 0) day (λ _, true) 100000); [done| |done|]|].
  - repeat constructor; cbn; lia.
  - vm_compute. discriminate.
  - vm_compute. reflexivity.
Defined.

(** A batch the full queue drops is missing from every later query. *)
Example dropped_batch_is_lost :
  let s := run 900 800 [Observes "d1" 100 (Some 500) None false; Flushes true] new_history in
  query (λ _, true) 100000 s (drain s) (drain s) = [].
Proof. vm_compute. reflexivity. Qed.

(** The open interval is copied before its bucket is written, and merged
    after. *)
Definition before : list Op := take 3 day.
Definition meanwhile : list Op := [Queues false; Observes "d1" 1000 None None false; Writes true None; Writes true None].

Lemma query_counts_each_once_witness :
  let s := run 900 800 before new_history in
  let s2 := run 900 800 meanwhile s in
  let result := at_ (query_all (λ _, true) s s2 (run 900 800 [Interrupts "d1"] s2)) ("d1", 0) in
  ble (integral 900 800 ("d1", 0) unread before) result ∧
  ble result (integral 900 800 ("d1", 0) unread (before ++ meanwhile)).
Proof.
  assert (hs_queued (run 900 800 before new_history) ≤
          hs_written (run 900 800 meanwhile (run 900 800 before new_history)))%nat as Hq
    by (vm_compute; lia).
  assert (Forall (spares ("d1", 0)) (before ++ meanwhile ++ [Interrupts "d1"])) as Hs by repeat constructor.
  exact (query_counts_each_once 900 800 ltac:(lia) ("d1", 0) before meanwhile [Interrupts "d1"] (λ _, true)
    eq_refl Hs eq_refl Hq).
Defined.
