(* ===== verification/HistoryEvents.v ===== *)
(** * HistoryEvents: history/events.py and history/writes.py

    The tables of audit records, of responses and of device writes: what is stored
    of each, what a query selects, and the summary of an event.  A table is its
    rows in the order of their ids; a write is queued or refused by the database
    ([Intervals] has its queue), and a query runs after the writes queued before
    it.  The rows hold JSON of the records, which reads back as it was written. *)

From Stdlib Require Import Ascii.
From S2P Require Import Prelude Controls Modes Response ProcState Dispatcher Registry.

(** ** Texts *)

(** [str.upper()] on ASCII text. *)
Definition to_upper (c : ascii) : ascii :=
  let n := nat_of_ascii c in if (97 <=? n)%nat && (n <=? 122)%nat then ascii_of_nat (n - 32) else c.
Fixpoint upper (s : string) : string :=
  match s with EmptyString => EmptyString | String c s' => String (to_upper c) (upper s') end.

Definition MAX_ERROR : nat := 512.

(** [error[:_MAX_ERROR] if error else None] *)
Definition kept_error (error : option string) : option string :=
  match error with
  | Some "" | None => None
  | Some e => Some (String.substring 0 MAX_ERROR e)
  end.

(** ** Rows *)

(** What the audit trail hands over: a transition of an event, or a record of
    another kind, of which only the columns matter here. *)
Inductive AuditDoc :=
  | DerEvent (t : AuditTransition)
  | OtherDoc (kind : string) (at_ts : option Z) (mrid : option string).

Record EventRow := mkEventRow {
  er_at : Z;
  er_kind : string;
  er_mrid : option string;
  er_program : option string;
  er_start : option Z;
  er_end : option Z;
  er_doc : AuditDoc;
}.

Record ResponseRow := mkResponseRow {
  rr_at : Z; rr_mrid : string; rr_lfdi : string; rr_status : Z; rr_status_name : string;
  rr_posted : bool; rr_error : option string;
}.

Record WriteRow := mkWriteRow {
  wr_at : Z; wr_device : string; wr_lfdi : option string; wr_control : string; wr_params : Params;
  wr_origin : string; wr_applied : option string; wr_cause : option string; wr_outcome : Outcome;
  wr_error : option string; wr_error_type : option DispatchError;
}.

Record Tables := mkTables {
  tb_records : list EventRow; tb_responses : list ResponseRow; tb_writes : list WriteRow }.

Definition no_tables : Tables := mkTables [] [] [].

(** ** Recording

    [queued] says whether the database took the write; [now] is the clock. *)

(** [float(stored.get("at") or self.clock())] *)
Definition at_or (now : Z) (at_ts : option Z) : Z :=
  match at_ts with Some a => if a =? 0 then now else a | None => now end.

Definition event_row (now : Z) (doc : AuditDoc) : EventRow :=
  match doc with
  | DerEvent t =>
      mkEventRow (at_or now (Some (au_at t))) "der_event" (Some (hex_upper (au_mrid t))) (Some (au_program t))
        (Some (au_start t)) (Some (au_start t + au_duration t)) doc
  | OtherDoc kind at_ts mrid => mkEventRow (at_or now at_ts) kind mrid None None None doc
  end.

Definition record_event (queued : bool) (now : Z) (doc : AuditDoc) (t : Tables) : Tables :=
  if queued then mkTables (tb_records t ++ [event_row now doc]) (tb_responses t) (tb_writes t) else t.

Definition response_row (mrid lfdi : string) (status : Z) (name : string) (at_ts : Z) (posted : bool)
    (error : option string) : ResponseRow :=
  mkResponseRow at_ts mrid (lower lfdi) status name posted (kept_error error).

Definition record_response (queued : bool) (r : ResponseRow) (t : Tables) : Tables :=
  if queued then mkTables (tb_records t) (tb_responses t ++ [r]) (tb_writes t) else t.

(** [_mrid_hex] is [hex_upper]; [at_ts] is when the write was issued, on the
    server's clock; [error] is the text of its error. *)
Definition write_row (at_ts : Z) (error : option string) (w : WriteRecord) : WriteRow :=
  mkWriteRow at_ts (w_label w) (match w_lfdi w with Some "" | None => None | Some l => Some (lower l) end)
    (w_control w) (w_params w) (w_origin w) (hex_upper <$> w_applied_mrid w) (hex_upper <$> w_cause_mrid w)
    (w_outcome w) (kept_error error) (w_error w).

Definition record_write (queued : bool) (r : WriteRow) (t : Tables) : Tables :=
  if queued then mkTables (tb_records t) (tb_responses t) (tb_writes t ++ [r]) else t.

(** The rows before [cutoff] are deleted. *)
Definition prune_events (cutoff : Z) (t : Tables) : Tables :=
  mkTables (filter (λ r, cutoff <= er_at r) (tb_records t)) (filter (λ r, cutoff <= rr_at r) (tb_responses t))
    (filter (λ r, cutoff <= wr_at r) (tb_writes t)).

(** ** Queries *)

(** [ORDER BY at, id] of selected rows, which come in the order of their ids. *)
Definition before (a b : Z * nat) : Prop := a.1 < b.1 ∨ (a.1 = b.1 ∧ (a.2 <= b.2)%nat).

#[export] Instance before_dec a b : Decision (before a b).
Proof. unfold before. apply _. Defined.

Definition order_by {A} (at_of : A → Z) (rows : list A) : list A :=
  snd <$> merge_sort (λ x y, before x.1 y.1) (imap (λ i r, ((at_of r, i), r)) rows).

(** [LIMIT max(1, limit)] *)
Definition limited {A} (limit : Z) (rows : list A) : list A := take (Z.to_nat (Z.max 1 limit)) rows.

(** [_time_clauses] *)
Definition in_time (since until : option Z) (at_ts : Z) : bool :=
  match since with Some s => s <=? at_ts | None => true end &&
  match until with Some u => at_ts <? u | None => true end.

Definition opt_is (wanted : option string) (v : option string) : bool :=
  match wanted with Some w => bool_decide (v = Some w) | None => true end.

Definition records (mrid kind : option string) (since until : option Z) (limit : Z) (t : Tables) : list AuditDoc :=
  er_doc <$> limited limit (order_by er_at
    (filter (λ r, in_time since until (er_at r) && opt_is (upper <$> mrid) (er_mrid r) &&
                  opt_is kind (Some (er_kind r)) = true) (tb_records t))).

Definition responses (mrid lfdi : option string) (since until : option Z) (limit : Z) (t : Tables) : list ResponseRow :=
  limited limit (order_by rr_at
    (filter (λ r, in_time since until (rr_at r) && opt_is (upper <$> mrid) (Some (rr_mrid r)) &&
                  opt_is (lower <$> lfdi) (Some (rr_lfdi r)) = true) (tb_responses t))).

Definition writes_match (mrid lfdi control : option string) (since until : option Z) (r : WriteRow) : bool :=
  match mrid with
  | Some m => bool_decide (wr_applied r = Some (upper m)) || bool_decide (wr_cause r = Some (upper m))
  | None => true
  end && opt_is (lower <$> lfdi) (wr_lfdi r) && opt_is control (Some (wr_control r)) && in_time since until (wr_at r).

Definition query_writes (mrid lfdi control : option string) (since until : option Z) (limit : Z) (t : Tables)
    : list WriteRow :=
  limited limit (order_by wr_at (filter (λ r, writes_match mrid lfdi control since until r = true) (tb_writes t))).

(** ** The summary of an event *)

Definition TERMINAL_STATES : list string :=
  ["completed"; "cancelled"; "superseded"; "opted_out"; "expired"; "skipped"].

Definition terminal (r : AuditTransition) : bool := bool_decide (au_to r ∈ TERMINAL_STATES).

(** A move into active; an active -> active record notes a change. *)
Definition activation (r : AuditTransition) : bool :=
  bool_decide (au_to r = "active") && negb (bool_decide (au_from r = Some "active")).

Definition superseding (r : AuditTransition) : option bytes :=
  match au_details r with SupersededWhole m | SupersededPart m _ _ => Some m | _ => None end.

Definition outcomes (r : AuditTransition) : list string * list string :=
  match au_details r with DispatchOutcomes a b => (a, b) | _ => ([], []) end.

Record Summary := mkSummary {
  su_mrid : bytes;
  su_program : string;
  su_primacy : Z;
  su_control : option Dercontrol;
  su_state : string;
  su_first_seen : Z;
  su_start : Z;
  su_duration : Z;
  su_active_at : option Z;
  su_ended_at : option Z;
  su_ran : option Z;                              (* ran_seconds *)
  su_lfdis : list string;
  su_applied : list string;
  su_rejected : list string;
  su_superseded_by : option bytes;
  su_transitions : list (Z * option string * string);
  su_posted : dict string Z;                      (* responses_posted *)
  su_failed : Z;
}.

Definition first_of {A B} (f : A → option B) (l : list A) : option B := head (omap f l).

Definition count_response (acc : dict string Z * Z) (r : ResponseRow) : dict string Z * Z :=
  if rr_posted r then
    (dict_set (rr_status_name r) (default 0 (dict_get (rr_status_name r) acc.1) + 1) acc.1, acc.2)
  else (acc.1, acc.2 + 1).

Definition summarize (trail : list AuditTransition) (resps : list ResponseRow) (now : Z) : option Summary :=
  match trail, last trail with
  | first :: _, Some latest =>
      let active := head (filter (λ r, activation r = true) (rev trail)) in
      let ended := head (filter (λ r, terminal r = true) trail) in
      let effective_end := au_start latest + au_duration latest in
      let active_at := au_at <$> active in
      let ended_at := au_at <$> ended in
      let ran := (λ a, Z.max 0 (default (Z.min now effective_end) ended_at - a)) <$> active_at in
      let '(posted, failed) := foldl count_response ([], 0) resps in
      Some (mkSummary (au_mrid first) (au_program latest) (au_primacy latest) (first_of au_control trail)
        (au_to latest) (au_at first) (au_start latest) (au_duration latest) active_at ended_at ran
        (au_lfdis latest) (default [] (fst ∘ outcomes <$> active)) (default [] (snd ∘ outcomes <$> active))
        (first_of superseding trail) ((λ r, (au_at r, au_from r, au_to r)) <$> trail) posted failed)
  | _, _ => None
  end.

Definition transition_of (d : AuditDoc) : option AuditTransition :=
  match d with DerEvent t => Some t | OtherDoc _ _ _ => None end.

(** [event]: its trail and its responses, at most a thousand of each. *)
Definition event (now : Z) (mrid : string) (t : Tables) : option Summary :=
  summarize (omap transition_of (records (Some mrid) (Some "der_event") None None 1000 t))
    (responses (Some mrid) None None None 1000 t) now.

(** [events]: the mRIDs of the records in the window, by their latest start,
    newest first; SQL leaves the order of equal starts open. *)
Definition overlaps (since until : option Z) (program : option string) (r : EventRow) : bool :=
  bool_decide (er_kind r = "der_event") &&
  match since with Some s => match er_end r with Some e => s <? e | None => false end | None => true end &&
  match until with Some u => match er_start r with Some b => b <? u | None => false end | None => true end &&
  opt_is program (er_program r).

Definition latest_start (rows : list EventRow) (mrid : string) : Z :=
  match omap er_start (filter (λ r, er_mrid r = Some mrid) rows) with
  | s :: l => foldr Z.max s l
  | [] => 0
  end.

Definition events (now : Z) (since until : option Z) (program : option string) (limit : Z) (t : Tables) : list Summary :=
  let rows := filter (λ r, overlaps since until program r = true) (tb_records t) in
  let mrids := remove_dups (omap er_mrid rows) in
  let newest := order_by (λ m, - latest_start rows m) mrids in
  omap (λ m, event now m t) (limited limit newest).

(** [control_windows] *)
Definition control_windows (now since until : Z) (t : Tables) : list (Z * Z) :=
  omap (λ s, (λ a, (a, match su_ended_at s with Some e => if e =? 0 then su_start s + su_duration s else e
                       | None => su_start s + su_duration s end)) <$> su_active_at s)
    (events now (Some since) (Some until) None 100000 t).
