(* ===== verification/HistoryEventProps.v ===== *)
(** * Properties of the event and write history

    - the summary of an event tells the course its trail describes, read from one
      end to the other, as long as the event does not start again after its end;
    - the writes listed for an event are those it applied or caused, in order. *)

From Stdlib Require Import Ascii.
From S2P Require Import Prelude Controls Modes Response ProcState Dispatcher Registry HistoryEvents.

(** ** The course of an event *)

(** The trail read forwards: not started, running since, over. *)
Inductive Course := Waits | Runs (since : Z) | Over (since : option Z) (at_ts : Z).

(** A record of a start, and of an end. *)
Definition begins (r : AuditTransition) : bool := bool_decide (au_to r = "active" ∧ au_from r ≠ Some "active").
Definition finishes (r : AuditTransition) : bool :=
  bool_decide (au_to r ∈ ["completed"; "cancelled"; "superseded"; "opted_out"; "expired"; "skipped"]).

Definition course_step (c : Course) (r : AuditTransition) : Course :=
  if begins r then Runs (au_at r)
  else if finishes r then
    match c with
    | Waits => Over None (au_at r)
    | Runs s => Over (Some s) (au_at r)
    | Over s t => Over s t
    end
  else c.

Definition course (trail : list AuditTransition) : Course := foldl course_step Waits trail.

Definition course_start (c : Course) : option Z :=
  match c with Waits => None | Runs s => Some s | Over s _ => s end.
Definition course_end (c : Course) : option Z := match c with Over _ t => Some t | _ => None end.

(** No start after an end. *)
Fixpoint no_rerun (trail : list AuditTransition) : Prop :=
  match trail with
  | [] => True
  | r :: trail' => (finishes r = true → Forall (λ r', begins r' = false) trail') ∧ no_rerun trail'
  end.

Lemma begins_not_finishes r : begins r = true → finishes r = false.
Proof.
  unfold begins, finishes. intros [E _]%bool_decide_eq_true. rewrite E.
  apply bool_decide_eq_false. apply (bool_decide_unpack _). vm_compute. exact I.
Qed.

(** After an end nothing changes. *)
Lemma course_over s t trail :
  Forall (λ r, begins r = false) trail → foldl course_step (Over s t) trail = Over s t.
Proof.
  induction 1 as [|r trail Ha Ht IH]; [done|]. cbn [foldl]. unfold course_step at 2. rewrite Ha.
  by destruct (finishes r).
Qed.

Definition last_start (trail : list AuditTransition) : option AuditTransition :=
  head (filter (λ r, begins r = true) (rev trail)).
Definition first_end (trail : list AuditTransition) : option AuditTransition :=
  head (filter (λ r, finishes r = true) trail).

Lemma last_start_cons r trail :
  last_start (r :: trail) = match last_start trail with Some x => Some x | None => if begins r then Some r else None end.
Proof.
  unfold last_start. cbn [rev]. rewrite filter_app, filter_cons, filter_nil.
  destruct (filter _ (rev trail)); [|done]. cbn. by destruct (begins r).
Qed.

Lemma last_start_none trail : Forall (λ r, begins r = false) trail → last_start trail = None.
Proof.
  induction 1 as [|r trail Ha Ht IH]; [done|]. by rewrite last_start_cons, IH, Ha.
Qed.

Lemma first_end_cons r trail : first_end (r :: trail) = if finishes r then Some r else first_end trail.
Proof. unfold first_end. rewrite filter_cons. destruct (finishes r); cbn; done. Qed.

(** The two ends of the trail give the course. *)
Lemma course_from c trail :
  no_rerun trail → course_end c = None →
  course_start (foldl course_step c trail) = match last_start trail with Some r => Some (au_at r) | None => course_start c end ∧
  course_end (foldl course_step c trail) = au_at <$> first_end trail.
Proof.
  revert c. induction trail as [|r trail IH]; intros c Hn Hc; [done|]. destruct Hn as [Hr Hn]. cbn [foldl].
  rewrite last_start_cons, first_end_cons. unfold course_step at 2 4. destruct (begins r) eqn:Ea.
  { rewrite (begins_not_finishes r Ea). destruct (IH (Runs (au_at r)) Hn eq_refl) as [-> ->].
    by destruct (last_start trail). }
  destruct (finishes r) eqn:Et.
  - specialize (Hr eq_refl). rewrite (last_start_none _ Hr).
    destruct c as [|s|s t]; [..|done]; by rewrite course_over.
  - destruct (IH c Hn Hc) as [-> ->]. by destruct (last_start trail).
Qed.

(** What the summary looks for. *)
Lemma activation_begins r : activation r = true ↔ begins r = true.
Proof.
  unfold activation, begins. rewrite andb_true_iff, negb_true_iff, bool_decide_eq_false, !bool_decide_eq_true. done.
Qed.

Lemma summary_ends trail :
  head (filter (λ r, activation r = true) (rev trail)) = last_start trail ∧
  head (filter (λ r, terminal r = true) trail) = first_end trail.
Proof.
  unfold last_start, first_end. split; [|done]. f_equal. apply list_filter_iff. intros r. apply activation_begins.
Qed.

(** ** Responses counted *)

Definition posted_as (name : string) (resps : list ResponseRow) : Z :=
  Z.of_nat (length (filter (λ r, rr_posted r = true ∧ rr_status_name r = name) resps)).
Definition not_posted (resps : list ResponseRow) : Z :=
  Z.of_nat (length (filter (λ r, rr_posted r = false) resps)).

Lemma count_responses acc resps :
  let r := foldl count_response acc resps in
  (∀ n, default 0 (dict_get n r.1) = default 0 (dict_get n acc.1) + posted_as n resps) ∧
  r.2 = acc.2 + not_posted resps.
Proof.
  revert acc. induction resps as [|x resps IH]; intros [d f]; cbn [foldl fst snd].
  { unfold posted_as, not_posted. cbn. split; [intros n|]; lia. }
  destruct (IH (count_response (d, f) x)) as [Hp Hf]. cbn in Hp, Hf |- *. unfold posted_as, not_posted in *.
  split; [intros n; rewrite Hp|rewrite Hf]; rewrite filter_cons; unfold count_response; destruct (rr_posted x) eqn:Ex; cbn [fst snd].
  - rewrite dict_get_set. destruct (decide (n = rr_status_name x)) as [->|E]; cbn [default].
    + rewrite decide_True by done. cbn [length]. unfold id. lia.
    + rewrite decide_False by naive_solver. lia.
  - rewrite decide_False by (intros [? ?]; congruence). lia.
  - rewrite decide_False by congruence. lia.
  - rewrite decide_True by done. cbn [length]. lia.
Qed.

(** C30: the summary of an event tells what its trail says of it, read forwards:
    when it last started and when it ended, for how long the devices were under
    it, the state it is in, and how many responses of each status were posted and
    how many failed; provided the event does not start again after an end. *)
Theorem summary_tells_course first rest resps now :
  let trail := first :: rest in
  no_rerun trail →
  ∃ s latest, last trail = Some latest ∧ summarize trail resps now = Some s ∧
    su_state s = au_to latest ∧
    su_active_at s = course_start (course trail) ∧ su_ended_at s = course_end (course trail) ∧
    su_ran s = (λ a, Z.max 0 (default (Z.min now (au_start latest + au_duration latest)) (course_end (course trail)) - a))
                 <$> course_start (course trail) ∧
    (∀ n, default 0 (dict_get n (su_posted s)) = posted_as n resps) ∧ su_failed s = not_posted resps.
Proof.
  intros trail Hn. destruct (last_is_Some trail) as [_ Hl]. destruct (Hl ltac:(done)) as [latest El].
  destruct (course_from Waits trail Hn eq_refl) as [Hs He]. fold (course trail) in Hs, He.
  destruct (count_responses ([], 0) resps) as [Hp Hf].
  assert (course_start (course trail) = au_at <$> last_start trail) as Hs' by (rewrite Hs; by destruct (last_start trail)).
  destruct (summarize trail resps now) as [s|] eqn:Es; [|unfold summarize, trail in Es; fold trail in Es; rewrite El in Es;
    by destruct (foldl count_response _ _)].
  exists s, latest. split; [done|]. split; [done|]. unfold summarize, trail in Es. fold trail in Es. rewrite El in Es.
  destruct (foldl count_response ([], 0) resps) as [posted failed]. injection Es as <-.
  cbn [su_state su_active_at su_ended_at su_ran su_posted su_failed]. rewrite Hs', He. cbn [fst snd dict_get] in Hp, Hf.
  destruct (summary_ends trail) as [Ea Ee].
  split_and!; [done|exact (f_equal (fmap au_at) Ea)|exact (f_equal (fmap au_at) Ee)| |done..].
  cbn [rev] in *. rewrite <- Ea, <- Ee. done.
Qed.

(** ** Ordered rows *)

Lemma before_total a b : before a b ∨ before b a.
Proof. unfold before. lia. Qed.

#[local] Instance before_row_total {A} : Total (λ x y : (Z * nat) * A, before x.1 y.1).
Proof. intros x y. apply before_total. Qed.

#[local] Instance before_row_trans {A} : Transitive (λ x y : (Z * nat) * A, before x.1 y.1).
Proof. intros x y z. unfold before. lia. Qed.

(** [order_by] gives the same rows, by time. *)
Lemma order_by_perm {A} (at_of : A → Z) rows : order_by at_of rows ≡ₚ rows.
Proof.
  unfold order_by. rewrite merge_sort_Permutation. rewrite fmap_imap.
  replace (imap _ rows) with rows; [done|]. symmetry. apply list_eq. intros i. rewrite list_lookup_imap. by destruct (rows !! i).
Qed.

Lemma order_by_sorted {A} (at_of : A → Z) rows : StronglySorted (λ x y, at_of x <= at_of y) (order_by at_of rows).
Proof.
  unfold order_by. set (l := imap _ rows).
  assert (∀ e, e ∈ merge_sort (λ x y, before x.1 y.1) l → e.1.1 = at_of e.2) as Ha.
  { intros e. rewrite merge_sort_Permutation. intros (i & x & -> & _)%elem_of_lookup_imap. done. }
  pose proof (StronglySorted_merge_sort (λ x y, before x.1 y.1) l) as Hs. revert Ha Hs.
  generalize (merge_sort (λ x y, before x.1 y.1) l). intros m Ha Hs.
  induction Hs as [|e m Hs IH Hf]; [constructor|]. cbn [fmap list_fmap]. constructor.
  - apply IH. intros e' He'. apply Ha. by right.
  - apply Forall_fmap. rewrite Forall_forall in Hf |- *. intros e' He'. specialize (Hf e' He').
    cbn. rewrite <- (Ha e), <- (Ha e') by (left || by right). unfold before in Hf. lia.
Qed.

(** ** mRIDs as text *)

Definition all_bytes : list ascii := ascii_of_nat <$> seq 0 256.

Lemma all_bytes_elem c : c ∈ all_bytes.
Proof.
  apply list_elem_of_fmap. exists (nat_of_ascii c). rewrite ascii_nat_embedding. split; [done|].
  apply elem_of_seq. pose proof (nat_ascii_bounded c). lia.
Qed.

(** The value of a hex digit. *)
Definition digit_value (c : ascii) : nat :=
  let n := nat_of_ascii c in if (n <? 58)%nat then n - 48 else n - 55.

Definition hex_pair (c : ascii) : ascii * ascii :=
  (hex_digit (nat_of_ascii c / 16), hex_digit (nat_of_ascii c mod 16)).

Definition byte_ok (c : ascii) : Prop :=
  ascii_of_nat (16 * digit_value (hex_pair c).1 + digit_value (hex_pair c).2) = c ∧
  to_upper (hex_pair c).1 = (hex_pair c).1 ∧ to_upper (hex_pair c).2 = (hex_pair c).2.

#[local] Instance byte_ok_dec c : Decision (byte_ok c).
Proof. unfold byte_ok. apply _. Defined.

Lemma hex_byte c : byte_ok c.
Proof.
  assert (Forall byte_ok all_bytes) as Hall by (apply (bool_decide_unpack _); vm_compute; exact I).
  rewrite Forall_forall in Hall. apply Hall, all_bytes_elem.
Qed.

Lemma hex_upper_cons c b : hex_upper (String c b) = String (hex_pair c).1 (String (hex_pair c).2 (hex_upper b)).
Proof. done. Qed.

Lemma String_inj a b s t : String a s = String b t → a = b ∧ s = t.
Proof. by intros [= -> ->]. Qed.

Lemma hex_upper_inj a b : hex_upper a = hex_upper b → a = b.
Proof.
  revert b. induction a as [|c a IH]; intros [|d b]; rewrite ?hex_upper_cons; try discriminate; [done|].
  intros (E1 & (E2 & E)%String_inj)%String_inj. f_equal; [|by apply IH].
  destruct (hex_byte c) as [Hc _], (hex_byte d) as [Hd _]. by rewrite <- Hc, <- Hd, E1, E2.
Qed.

Lemma upper_hex b : upper (hex_upper b) = hex_upper b.
Proof.
  induction b as [|c b IH]; [done|]. rewrite hex_upper_cons. cbn [upper]. destruct (hex_byte c) as (_ & -> & ->).
  by rewrite IH.
Qed.

(** ** The writes of an event *)

(** A write as it is recorded: whether the database took it, when it was issued,
    the text of its error. *)
Record Recorded := mkRecorded { rd_queued : bool; rd_at : Z; rd_error : option string; rd_write : WriteRecord }.

Definition row_of (r : Recorded) : WriteRow := write_row (rd_at r) (rd_error r) (rd_write r).

Definition written (ws : list Recorded) (t : Tables) : Tables :=
  foldl (λ t r, record_write (rd_queued r) (row_of r) t) t ws.

Lemma written_rows ws t : tb_writes (written ws t) = tb_writes t ++ (row_of <$> filter (λ r, rd_queued r = true) ws).
Proof.
  revert t. induction ws as [|r ws IH]; intros t; cbn [written foldl]; [by rewrite app_nil_r|].
  fold (written ws (record_write (rd_queued r) (row_of r) t)). rewrite IH, filter_cons. unfold record_write.
  destruct (rd_queued r); cbn; [by rewrite <- app_assoc|done].
Qed.

(** A write the event applied or caused. *)
Definition of_event (e : bytes) (w : WriteRecord) : Prop := w_applied_mrid w = Some e ∨ w_cause_mrid w = Some e.

#[export] Instance of_event_dec e w : Decision (of_event e w).
Proof. unfold of_event. apply _. Defined.

Lemma hex_fmap_eq (o : option bytes) e : hex_upper <$> o = Some (hex_upper e) ↔ o = Some e.
Proof.
  destruct o as [b|]; cbn; [|done]. split; [|by intros [= ->]]. intros [= E]. by rewrite (hex_upper_inj _ _ E).
Qed.

Lemma row_matches text e r :
  upper text = hex_upper e →
  writes_match (Some text) None None None None (row_of r) = true ↔ of_event e (rd_write r).
Proof.
  intros E. unfold writes_match, of_event, in_time, opt_is. cbn. rewrite E, !andb_true_r, orb_true_iff, !bool_decide_eq_true.
  by rewrite !hex_fmap_eq.
Qed.

Lemma filter_rows text e (ws : list Recorded) :
  upper text = hex_upper e →
  filter (λ r, writes_match (Some text) None None None None r = true) (row_of <$> filter (λ r, rd_queued r = true) ws) =
    row_of <$> filter (λ r, rd_queued r = true ∧ of_event e (rd_write r)) ws.
Proof.
  intros E. induction ws as [|r ws IH]; [done|]. rewrite !filter_cons.
  destruct (decide (rd_queued r = true)) as [Hq|Hq].
  - cbn [fmap list_fmap]. rewrite filter_cons, IH.
    destruct (decide (of_event e (rd_write r))) as [He|He].
    + rewrite decide_True by (by apply (row_matches text e)). by rewrite decide_True.
    + rewrite decide_False by (by intros ?%(row_matches text e)). rewrite decide_False by naive_solver. done.
  - rewrite IH, decide_False by naive_solver. done.
Qed.

(** Asked for an event by its mRID in hex of either case, the write history
    lists exactly the writes recorded that applied that control or were caused by
    that event, and no other, oldest first; a write the database refused is not
    among them. *)
Theorem event_writes_listed (ws : list Recorded) e text limit :
  upper text = hex_upper e → Z.of_nat (length ws) <= limit →
  let rows := query_writes (Some text) None None None None limit (written ws no_tables) in
  rows ≡ₚ (row_of <$> filter (λ r, rd_queued r = true ∧ of_event e (rd_write r)) ws) ∧
  StronglySorted (λ x y, wr_at x <= wr_at y) rows.
Proof.
  intros E Hl. cbv zeta. unfold query_writes. rewrite written_rows. cbn [no_tables tb_writes app].
  rewrite (filter_rows text e ws E). set (rows := row_of <$> _). unfold limited. rewrite take_ge.
  - split; [apply order_by_perm|apply order_by_sorted].
  - rewrite (order_by_perm wr_at rows). unfold rows. rewrite length_fmap.
    pose proof (length_filter (λ r, rd_queued r = true ∧ of_event e (rd_write r)) ws). lia.
Qed.

(** ** Runs *)

Definition moved (at_ts : Z) (from : option string) (to : string) : AuditTransition :=
  {| au_mrid := "E"; au_program := "/derp/1"; au_from := from; au_to := to; au_start := 100; au_duration := 60;
     au_primacy := 1; au_lfdis := ["A"]; au_at := at_ts; au_control := None; au_details := NoDetails |}.

Definition ordinary_trail : list AuditTransition :=
  [moved 90 None "scheduled"; moved 101 (Some "scheduled") "active"; moved 120 (Some "active") "active";
   moved 130 (Some "active") "cancelled"].

Lemma summary_tells_course_witness :
  ∃ s, summarize ordinary_trail [response_row "45" "A" 2 "started" 101 true None] 500 = Some s ∧
    su_state s = "cancelled" ∧ su_active_at s = Some 101 ∧ su_ended_at s = Some 130 ∧ su_ran s = Some 29.
Proof.
  destruct (summary_tells_course (moved 90 None "scheduled") (drop 1 ordinary_trail)
              [response_row "45" "A" 2 "started" 101 true None] 500) as (s & l & Hl & Hs & H1 & H2 & H3 & H4 & _).
  - vm_compute. repeat split; intros; try discriminate; repeat constructor.
  - exists s. split; [exact Hs|]. vm_compute in Hl. injection Hl as <-. rewrite H1, H2, H3, H4.
    vm_compute. repeat split.
Defined.

Definition write_of (applied cause : option bytes) : WriteRecord :=
  {| w_label := "inverter"; w_control := "op_mod_max_lim_w"; w_params := []; w_outcome := Applied;
     w_lfdi := Some "AB"; w_origin := "ieee2030_5"; w_applied_mrid := applied; w_cause_mrid := cause; w_error := None |}.

Definition some_writes : list Recorded :=
  [mkRecorded true 20 None (write_of (Some "D") (Some "E")); mkRecorded true 10 None (write_of (Some "E") (Some "E"));
   mkRecorded true 15 None (write_of (Some "F") (Some "F")); mkRecorded false 16 None (write_of (Some "E") None)].

Lemma event_writes_listed_witness :
  let rows := query_writes (Some "45") None None None None 100 (written some_writes no_tables) in
  wr_at <$> rows = [10; 20] ∧ StronglySorted (λ x y, wr_at x <= wr_at y) rows.
Proof.
  destruct (event_writes_listed some_writes "E" "45" 100) as [_ Hs]; [reflexivity|cbn; lia|].
  split; [vm_compute; reflexivity|exact Hs].
Defined.

(** An event that ended and runs again, as [completed_event_runs_again] shows it
    may: the summary pairs the second start with the first end, and says that the
    devices were under control for no time. *)
Example rerun_summarized_as_nothing :
  su_ran <$> summarize [moved 90 None "scheduled"; moved 101 (Some "scheduled") "active";
                        moved 160 (Some "active") "completed"; moved 170 None "active";
                        moved 200 (Some "active") "completed"] [] 500 = Some (Some 0).
Proof. vm_compute. reflexivity. Qed.

(** More than a thousand records: the latest are not read. *)
Definition long_table : Tables :=
  foldl (λ t r, record_event true 0 (DerEvent r) t) no_tables
    (replicate 1000 (moved 101 (Some "active") "active") ++ [moved 130 (Some "active") "completed"]).

Example long_trail_stays_active : su_state <$> event 500 "45" long_table = Some "active".
Proof. vm_compute. reflexivity. Qed.
