(* ===== verification/DnsWire.v ===== *)
(** * DNS messages (client/dnssd/wire.py)

    The encoder the advertiser uses and the decoder discovery uses: names,
    questions, resource records and the record data of PTR and SRV.  A message
    is a list of bytes; an offset is a [nat].  The decoder works on bytes from
    an unauthenticated source, so its results are bounded and it terminates on
    every input. *)

From S2P Require Import Prelude.

Abbreviation octets := (list Z) (only parsing).
Abbreviation name := (list (list Z)) (only parsing).

(** ** Errors *)

(** The messages of [DnsDecodeError]. *)
Inductive DecodeFault :=
  | NamePastEnd
  | TruncatedPointer
  | PointerNotBackwards
  | ReservedLabelType
  | LabelPastEnd
  | TooManyLabels
  | ShortMessage
  | QuestionPastEnd
  | RecordHeaderPastEnd
  | RecordDataPastEnd
  | NamePastRecord
  | SrvTooShort
  | TxtPastEnd
  | AddressLength
  | Diverges.            (* still looping: never a result, by [read_name_bounded] *)

Inductive WireError :=
  | LabelLength          (* ValueError of encode_name *)
  | NameLength           (* ValueError of encode_name *)
  | OverflowError        (* int.to_bytes *)
  | TxtLength            (* ValueError of encode_txt *)
  | BadSubtype           (* ValueError of validate_subtype *)
  | BadSfdi              (* ValueError of sfdi_label and edev_subtype *)
  | BadService           (* ValueError of validate_service *)
  | BadAdvertisement     (* ValueError of ServiceAdvertisement *)
  | DnsDecodeError (why : DecodeFault).

Abbreviation Wire A := (WireError + A)%type (only parsing).

#[export] Instance wire_bind : MBind (sum WireError) := λ A B f m,
  match m with inl e => inl e | inr a => f a end.
#[export] Instance wire_ret : MRet (sum WireError) := λ A a, inr a.

#[export] Instance DecodeFault_eq_dec : EqDecision DecodeFault.
Proof. solve_decision. Defined.
#[export] Instance WireError_eq_dec : EqDecision WireError.
Proof. solve_decision. Defined.

Lemma wire_bind_inr {A B} (m : Wire A) (f : A → Wire B) b :
  m ≫= f = inr b → ∃ a, m = inr a ∧ f a = inr b.
Proof. destruct m; [done|]. cbn. eauto. Qed.

(** Take a successful encoding apart. *)
Ltac wire_inv H :=
  repeat match type of H with
  | _ ≫= _ = inr _ =>
      let a := fresh "b" in let Ha := fresh "Hb" in
      apply wire_bind_inr in H as (a & Ha & H)
  end; simplify_eq.

Definition fault {A} (why : DecodeFault) : Wire A := inl (DnsDecodeError why).

(** ** Data *)

Definition CLASS_IN : Z := 1.
Definition QU_BIT : Z := 0x8000.
Definition CACHE_FLUSH : Z := 0x8000.
Definition MAX_LABELS : nat := 128.
Definition LEGACY_MAX_TTL : Z := 10.

Record DnsRecord := {
  dr_name : name;
  dr_type : Z;
  dr_ttl : Z;
  dr_rdata : octets;
  dr_unique : bool;
}.

Definition with_ttl (ttl : Z) (r : DnsRecord) : DnsRecord :=
  {| dr_name := dr_name r; dr_type := dr_type r; dr_ttl := ttl; dr_rdata := dr_rdata r;
     dr_unique := dr_unique r |}.

Record Question := { q_name : name; q_type : Z; q_unicast : bool }.

Record ResourceRecord := {
  rr_name : name;
  rr_type : Z;
  rr_class : Z;
  rr_ttl : Z;
  rr_offset : nat;
  rr_length : nat;
}.

Record DnsMessage := { msg_ident : Z; msg_records : list ResourceRecord; msg_raw : octets }.

(** ** Encoding *)

(** [z.to_bytes(n, "big")] *)
Definition to_bytes (n : nat) (z : Z) : Wire octets :=
  if (0 <=? z) && (z <? 256 ^ Z.of_nat n) then inr (be_bytes n z) else inl OverflowError.

Fixpoint encode_labels (labels : name) : Wire octets :=
  match labels with
  | [] => inr [0]
  | label :: rest =>
      if (0 <? length label)%nat && (length label <=? 63)%nat then
        out ← encode_labels rest; inr (Z.of_nat (length label) :: label ++ out)
      else inl LabelLength
  end.

Definition encode_name (labels : name) : Wire octets :=
  out ← encode_labels labels;
  if (255 <? length out)%nat then inl NameLength else inr out.

Definition encode_srv (port : Z) (target : name) : Wire octets :=
  prio ← to_bytes 2 0; weight ← to_bytes 2 0; p ← to_bytes 2 port; t ← encode_name target;
  inr (prio ++ weight ++ p ++ t).

Definition encode_question (q : Question) : Wire octets :=
  n ← encode_name (q_name q); t ← to_bytes 2 (q_type q); c ← to_bytes 2 CLASS_IN;
  inr (n ++ t ++ c).

Definition encode_record (legacy : bool) (r : DnsRecord) : Wire octets :=
  let rclass := if legacy then CLASS_IN
                else Z.lor CLASS_IN (if dr_unique r then CACHE_FLUSH else 0) in
  n ← encode_name (dr_name r); t ← to_bytes 2 (dr_type r); c ← to_bytes 2 rclass;
  ttl ← to_bytes 4 (if legacy then Z.min (dr_ttl r) LEGACY_MAX_TTL else dr_ttl r);
  len ← to_bytes 2 (Z.of_nat (length (dr_rdata r)));
  inr (n ++ t ++ c ++ ttl ++ len ++ dr_rdata r).

(** The loop over a sequence: the encodings one after the other. *)
Fixpoint encode_all {A} (enc : A → Wire octets) (l : list A) : Wire octets :=
  match l with
  | [] => inr []
  | x :: rest => b ← enc x; bs ← encode_all enc rest; inr (b ++ bs)
  end.

Definition encode_response (records : list DnsRecord) (ident : Z) (questions : list Question)
    : Wire octets :=
  let legacy := negb (bool_decide (questions = [])) in
  i ← to_bytes 2 ident; flags ← to_bytes 2 0x8400;
  nq ← to_bytes 2 (Z.of_nat (length questions)); nr ← to_bytes 2 (Z.of_nat (length records));
  z ← to_bytes 2 0;
  qs ← encode_all encode_question questions;
  rs ← encode_all (encode_record legacy) records;
  inr ((i ++ flags ++ nq ++ nr ++ z ++ z) ++ qs ++ rs).

Definition encode_query (labels : name) (qtype ident : Z) (unicast : bool) : Wire octets :=
  let qclass := Z.lor CLASS_IN (if unicast then QU_BIT else 0) in
  i ← to_bytes 2 ident; flags ← to_bytes 2 0; one ← to_bytes 2 1; z ← to_bytes 2 0;
  n ← encode_name labels; t ← to_bytes 2 qtype; c ← to_bytes 2 qclass;
  inr ((i ++ flags ++ one ++ z ++ z ++ z) ++ n ++ t ++ c).

(** ** Decoding *)

(** [data[offset : offset + n]] *)
Definition slice (data : octets) (offset n : nat) : octets := take n (drop offset data).
Definition u_int (data : octets) (offset n : nat) : Z := be_int (slice data offset n).

(** The loop of [read_name]; [None]: the fuel ran out. *)
Fixpoint read_name_loop (fuel : nat) (data : octets) (labels : name) (offset end_offset : nat)
    (jumped : bool) : option (Wire (name * nat)) :=
  match fuel with
  | O => None
  | S fuel' =>
      match data !! offset with
      | None => Some (fault NamePastEnd)
      | Some len =>
          if Z.land len 0xC0 =? 0xC0 then
            match data !! S offset with
            | None => Some (fault TruncatedPointer)
            | Some low =>
                let pointer := Z.to_nat (Z.lor (Z.shiftl (Z.land len 0x3F) 8) low) in
                let end_offset' := if jumped then end_offset else (offset + 2)%nat in
                if (offset <=? pointer)%nat then Some (fault PointerNotBackwards)
                else read_name_loop fuel' data labels pointer end_offset' true
            end
          else if negb (Z.land len 0xC0 =? 0) then Some (fault ReservedLabelType)
          else if len =? 0 then Some (inr (labels, if jumped then end_offset else S offset))
          else
            let n := Z.to_nat len in
            let label := slice data (S offset) n in
            if negb (length label =? n)%nat then Some (fault LabelPastEnd)
            else
              let labels' := labels ++ [label] in
              if (MAX_LABELS <? length labels')%nat then Some (fault TooManyLabels)
              else read_name_loop fuel' data labels' (S offset + n) end_offset jumped
      end
  end.

Definition name_fuel (data : octets) : nat := (MAX_LABELS + 2) * S (length data).

Definition read_name (data : octets) (offset : nat) : Wire (name * nat) :=
  default (fault Diverges) (read_name_loop (name_fuel data) data [] offset offset false).

Fixpoint read_questions (count : nat) (data : octets) (offset : nat)
    : Wire (list Question * nat) :=
  match count with
  | O => inr ([], offset)
  | S count' =>
      no ← read_name data offset;
      let '(n, offset) := (no : name * nat) in
      if (length data <? offset + 4)%nat then fault QuestionPastEnd
      else
        let q := {| q_name := n; q_type := u_int data offset 2;
                    q_unicast := negb (Z.land (u_int data (offset + 2) 2) QU_BIT =? 0) |} in
        rest ← read_questions count' data (offset + 4);
        inr (q :: rest.1, rest.2)
  end.

Definition decode_questions (data : octets) : Wire (list Question) :=
  if (length data <? 12)%nat then fault ShortMessage
  else if negb (Z.land (u_int data 2 2) 0x8000 =? 0) then inr []
  else r ← read_questions (Z.to_nat (u_int data 4 2)) data 12; inr r.1.

Fixpoint skip_questions (count : nat) (data : octets) (offset : nat) : Wire nat :=
  match count with
  | O => inr offset
  | S count' =>
      no ← read_name data offset;
      let offset := (no.2 + 4)%nat in
      if (length data <? offset)%nat then fault QuestionPastEnd
      else skip_questions count' data offset
  end.

Fixpoint read_records (count : nat) (data : octets) (offset : nat) : Wire (list ResourceRecord) :=
  match count with
  | O => inr []
  | S count' =>
      no ← read_name data offset;
      let '(n, offset) := (no : name * nat) in
      if (length data <? offset + 10)%nat then fault RecordHeaderPastEnd
      else
        let rdlength := Z.to_nat (u_int data (offset + 8) 2) in
        if (length data <? offset + 10 + rdlength)%nat then fault RecordDataPastEnd
        else
          rest ← read_records count' data (offset + 10 + rdlength);
          inr ({| rr_name := n; rr_type := u_int data offset 2;
                  rr_class := Z.land (u_int data (offset + 2) 2) 0x7FFF;
                  rr_ttl := u_int data (offset + 4) 4;
                  rr_offset := offset + 10; rr_length := rdlength |} :: rest)
  end.

Definition decode_message (data : octets) : Wire DnsMessage :=
  if (length data <? 12)%nat then fault ShortMessage
  else
    let count off := Z.to_nat (u_int data off 2) in
    offset ← skip_questions (count 4%nat) data 12;
    rs ← read_records (count 6 + count 8 + count 10)%nat data offset;
    inr {| msg_ident := u_int data 0 2; msg_records := rs; msg_raw := data |}.

Definition record_rdata (m : DnsMessage) (r : ResourceRecord) : octets :=
  slice (msg_raw m) (rr_offset r) (rr_length r).

Definition read_rdata_name (m : DnsMessage) (r : ResourceRecord) (offset : nat) : Wire name :=
  no ← read_name (msg_raw m) offset;
  if (rr_offset r + rr_length r <? no.2)%nat then fault NamePastRecord else inr no.1.

Definition decode_ptr (m : DnsMessage) (r : ResourceRecord) : Wire name :=
  read_rdata_name m r (rr_offset r).

Definition decode_srv (m : DnsMessage) (r : ResourceRecord) : Wire (Z * name) :=
  if (rr_length r <? 7)%nat then fault SrvTooShort
  else
    let port := u_int (msg_raw m) (rr_offset r + 4) 2 in
    t ← read_rdata_name m r (rr_offset r + 6); inr (port, t).

(** ** Bytes *)

(** The two tests [read_name] makes on a length byte. *)
Lemma length_byte (b : Z) :
  is_byte b →
  (Z.land b 0xC0 =? 0xC0) = (192 <=? b) ∧ (Z.land b 0xC0 =? 0) = (b <? 64).
Proof.
  intros Hb.
  assert (Forall (λ b, (Z.land b 0xC0 =? 0xC0) = (192 <=? b) ∧ (Z.land b 0xC0 =? 0) = (b <? 64))
            (seqZ 0 256)) as H by (apply (bool_decide_unpack _); vm_compute; exact I).
  rewrite Forall_forall in H. apply H, elem_of_seqZ. unfold is_byte in Hb. lia.
Qed.

Lemma length_slice data offset n :
  length (slice data offset n) = Nat.min n (length data - offset).
Proof. unfold slice. rewrite length_take, length_drop. lia. Qed.

Lemma slice_app_skip pre l n : slice (pre ++ l) (length pre) n = take n l.
Proof. unfold slice. by rewrite drop_app_length. Qed.

Lemma slice_middle pre l post : slice (pre ++ l ++ post) (length pre) (length l) = l.
Proof. by rewrite slice_app_skip, take_app_length. Qed.

(** Reading back a field, wherever it stands. *)
Lemma u_int_middle pre post n z bs :
  to_bytes n z = inr bs → u_int (pre ++ bs ++ post) (length pre) n = z.
Proof.
  unfold to_bytes. destruct (_ && _) eqn:Hb; [|done]. intros [= <-].
  apply andb_true_iff in Hb as [?%Z.leb_le ?%Z.ltb_lt].
  pose proof (slice_middle pre (be_bytes n z) post) as Hs. rewrite length_be_bytes in Hs.
  unfold u_int. rewrite Hs. by apply be_int_be_bytes.
Qed.

Lemma to_bytes_length n z bs : to_bytes n z = inr bs → length bs = n.
Proof. unfold to_bytes. destruct (_ && _); [|done]. intros [= <-]. apply length_be_bytes. Qed.

Lemma to_bytes_bytes n z bs : to_bytes n z = inr bs → Forall is_byte bs.
Proof. unfold to_bytes. destruct (_ && _); [|done]. intros [= <-]. apply be_bytes_is_byte. Qed.

(** ** Reading a name ends, within bounds *)

Section ReadName.
Context (data : octets) (Hdata : Forall is_byte data).

(** Each round adds a label or goes back to a lower offset. *)
Definition name_measure (labels : name) (offset : nat) : nat :=
  (MAX_LABELS + 1 - length labels) * S (length data) + Nat.min offset (length data).

Lemma measure_label labels label offset offset' :
  (length (labels ++ [label]) <= MAX_LABELS)%nat → (offset' <= length data)%nat →
  (name_measure (labels ++ [label]) offset' < name_measure labels offset)%nat.
Proof.
  rewrite length_app. cbn [length]. unfold name_measure. rewrite length_app. cbn [length]. intros Hl Ho.
  replace (MAX_LABELS + 1 - length labels)%nat with (S (MAX_LABELS + 1 - (length labels + 1)))%nat by lia.
  rewrite Nat.mul_succ_l. lia.
Qed.

Definition good_name (labels : name) : Prop :=
  (length labels <= MAX_LABELS)%nat ∧ Forall (λ l, (0 < length l <= 63)%nat) labels.

(** What [end_offset] is, by [jumped]. *)
Definition good_end (start offset end_offset : nat) (jumped : bool) : Prop :=
  if jumped then (start < end_offset <= length data)%nat else (start <= offset)%nat.

Lemma read_name_loop_bounded fuel labels start offset end_offset jumped :
  (name_measure labels offset < fuel)%nat → good_name labels →
  good_end start offset end_offset jumped →
  ∃ r, read_name_loop fuel data labels offset end_offset jumped = Some r ∧
    match r with
    | inr (labels', e) => good_name labels' ∧ (start < e <= length data)%nat
    | inl (DnsDecodeError why) => why ≠ Diverges
    | inl _ => False
    end.
Proof.
  revert labels offset end_offset jumped.
  induction fuel as [|fuel IH]; intros labels offset endo jumped Hf Hn He; [lia|].
  cbn [read_name_loop]. destruct (data !! offset) as [len|] eqn:Hlen; [|by eexists].
  pose proof (lookup_lt_Some _ _ _ Hlen) as Hlt.
  assert (is_byte len) as Hb by (by eapply Forall_lookup_1).
  destruct (length_byte len Hb) as [-> ->].
  destruct (192 <=? len); [destruct (data !! S offset) as [low|] eqn:Hlow; [|by eexists]|].
  - pose proof (lookup_lt_Some _ _ _ Hlow) as Hlt'.
    destruct (_ <=? _)%nat eqn:Hp; [by eexists|]. apply Nat.leb_gt in Hp. apply IH; [|done|].
    + unfold name_measure in *. lia.
    + unfold good_end in *. destruct jumped; lia.
  - destruct (len <? 64) eqn:H64; cbn [negb]; [|by eexists]. apply Z.ltb_lt in H64.
    destruct (len =? 0) eqn:H0.
    + eexists. split; [done|]. split; [done|]. unfold good_end in He. destruct jumped; lia.
    + apply Z.eqb_neq in H0. destruct (negb _) eqn:Hs; [by eexists|].
      apply negb_false_iff, Nat.eqb_eq in Hs.
      destruct (_ <? _)%nat eqn:Hm; [by eexists|]. apply Nat.ltb_ge in Hm.
      pose proof Hs as Hs'. rewrite length_slice in Hs'. unfold is_byte in Hb.
      apply IH.
      * eapply Nat.lt_le_trans; [apply measure_label; [done|lia]|]. by apply Nat.lt_succ_r.
      * split; [done|]. apply Forall_app. split; [apply Hn|]. apply Forall_singleton. lia.
      * unfold good_end in *. destruct jumped; lia.
Qed.
End ReadName.

(** Reading a name from any bytes, at any offset, ends: with a name of at
    most 128 labels of 1 to 63 bytes and an offset past it inside the message,
    or with a decode error.  It takes at most 130 rounds for each byte of the
    message and one, however the compression pointers are laid out. *)
Theorem read_name_bounded (data : octets) (offset : nat) :
  Forall is_byte data →
  match read_name data offset with
  | inr (labels, e) => good_name labels ∧ (offset < e <= length data)%nat
  | inl (DnsDecodeError why) => why ≠ Diverges
  | inl _ => False
  end.
Proof.
  intros Hdata. unfold read_name.
  destruct (read_name_loop_bounded data Hdata (name_fuel data) [] offset offset offset false)
    as (r & -> & Hr).
  - unfold name_measure, name_fuel. cbn [length]. rewrite Nat.sub_0_r. lia.
  - split; [cbn; lia|constructor].
  - unfold good_end. lia.
  - exact Hr.
Qed.

(** ** Reading back what was written *)

Lemma encode_labels_length labels out :
  encode_labels labels = inr out → (2 * length labels < length out)%nat.
Proof.
  revert out. induction labels as [|l labels IH]; intros out; cbn [encode_labels].
  - intros [= <-]. cbn. lia.
  - destruct (_ && _) eqn:Hb; [|done]. apply andb_true_iff in Hb as [?%Nat.ltb_lt _].
    destruct (encode_labels labels) as [e|o]; [done|]. intros [= <-]. specialize (IH o eq_refl).
    cbn. rewrite length_app. lia.
Qed.

Lemma read_labels_back labels out pre post acc fuel endo :
  encode_labels labels = inr out → (length labels < fuel)%nat →
  (length acc + length labels <= MAX_LABELS)%nat →
  read_name_loop fuel (pre ++ out ++ post) acc (length pre) endo false =
  Some (inr (acc ++ labels, (length pre + length out)%nat)).
Proof.
  revert out pre acc fuel. induction labels as [|l labels IH];
    intros out pre acc fuel Henc Hf Hacc; cbn [encode_labels] in Henc;
    (destruct fuel as [|fuel]; [cbn in Hf; lia|]); cbn [read_name_loop].
  - injection Henc as <-. rewrite lookup_app_r, Nat.sub_diag by lia. cbn [app lookup list_lookup].
    cbn. rewrite app_nil_r, Nat.add_1_r. done.
  - destruct (_ && _) eqn:Hb; [|done].
    apply andb_true_iff in Hb as [H0%Nat.ltb_lt H63%Nat.leb_le].
    destruct (encode_labels labels) as [e|o] eqn:Ho; [done|]. injection Henc as <-.
    set (len := Z.of_nat (length l)).
    assert ((pre ++ (len :: l ++ o) ++ post) !! length pre = Some len) as ->.
    { rewrite lookup_app_r, Nat.sub_diag by lia. done. }
    destruct (length_byte len) as [-> ->]; [unfold is_byte; lia|].
    rewrite (proj2 (Z.leb_gt _ _)), (proj2 (Z.ltb_lt _ _)), (proj2 (Z.eqb_neq _ _)) by lia.
    cbn [negb]. replace (Z.to_nat len) with (length l) by (unfold len; lia).
    replace (pre ++ (len :: l ++ o) ++ post) with ((pre ++ [len]) ++ l ++ o ++ post)
      by (cbn; rewrite <- !app_assoc; done).
    replace (S (length pre)) with (length (pre ++ [len])) by (rewrite length_app; cbn; lia).
    rewrite slice_middle, Nat.eqb_refl. cbn [negb].
    rewrite (proj2 (Nat.ltb_ge _ _)) by (rewrite length_app; cbn in *; lia).
    rewrite <- length_app, (assoc_L (++) (pre ++ [len]) l (o ++ post)).
    rewrite (IH o); [|done|cbn in Hf; lia|rewrite length_app; cbn in *; lia].
    f_equal. f_equal. f_equal; [by rewrite <- (assoc_L (++))|].
    rewrite !length_app. cbn. rewrite length_app. lia.
Qed.

(** A name is read back wherever it stands in a message. *)
Lemma read_name_back labels out pre post :
  encode_name labels = inr out →
  read_name (pre ++ out ++ post) (length pre) = inr (labels, (length pre + length out)%nat).
Proof.
  unfold encode_name. intros (o & Ho & H)%wire_bind_inr.
  destruct (_ <? _)%nat eqn:Hl; [done|]. injection H as <-. apply Nat.ltb_ge in Hl.
  pose proof (encode_labels_length _ _ Ho) as Hlen. unfold read_name.
  rewrite (read_labels_back labels o); [done|done| |].
  - unfold name_fuel. rewrite !length_app. unfold MAX_LABELS. lia.
  - cbn. unfold MAX_LABELS. lia.
Qed.

Lemma encode_name_length labels out : encode_name labels = inr out → (0 < length out)%nat.
Proof.
  unfold encode_name. intros (o & Ho & H)%wire_bind_inr. destruct (_ <? _)%nat; [done|].
  injection H as <-. pose proof (encode_labels_length _ _ Ho). lia.
Qed.

(** The field at an offset given by what precedes it. *)
Lemma u_int_at data pre bs post n z offset :
  data = pre ++ bs ++ post → offset = length pre → to_bytes n z = inr bs → u_int data offset n = z.
Proof. intros -> -> H. by eapply u_int_middle. Qed.

Lemma read_name_at data pre bs post labels offset :
  data = pre ++ bs ++ post → offset = length pre → encode_name labels = inr bs →
  read_name data offset = inr (labels, (offset + length bs)%nat).
Proof. intros -> ->. apply read_name_back. Qed.

(** Find the field inside the concatenation. *)
Ltac app_norm := rewrite <- ?app_assoc; cbn [app].

Lemma skip_questions_back qs bs pre post :
  encode_all encode_question qs = inr bs →
  skip_questions (length qs) (pre ++ bs ++ post) (length pre) = inr (length pre + length bs)%nat.
Proof.
  revert bs pre. induction qs as [|q qs IH]; intros bs pre; cbn [encode_all length skip_questions].
  - intros [= <-]. by rewrite Nat.add_0_r.
  - intros H. wire_inv H. unfold encode_question in Hb. wire_inv Hb.
    rewrite (read_name_at _ pre b1 (b2 ++ b3 ++ b0 ++ post) (q_name q));
      [|by app_norm|done|done].
    cbn [mbind wire_bind snd].
    pose proof (to_bytes_length _ _ _ Hb2) as L2. pose proof (to_bytes_length _ _ _ Hb3) as L3.
    rewrite (proj2 (Nat.ltb_ge _ _)) by (rewrite !length_app; lia).
    replace (length pre + length b1 + 4)%nat with (length (pre ++ b1 ++ b2 ++ b3))
      by (rewrite !length_app; lia).
    replace (pre ++ ((b1 ++ b2 ++ b3) ++ b0) ++ post) with ((pre ++ b1 ++ b2 ++ b3) ++ b0 ++ post)
      by (by app_norm).
    rewrite IH by done. f_equal. rewrite !length_app. lia.
Qed.

(** What a decoded record must say of the record it was encoded from. *)
Record carries (legacy : bool) (data : octets) (r : DnsRecord) (rr : ResourceRecord) : Prop := {
  ca_name : rr_name rr = dr_name r;
  ca_type : rr_type rr = dr_type r;
  ca_class : rr_class rr = CLASS_IN;
  ca_ttl : rr_ttl rr = if legacy then Z.min (dr_ttl r) LEGACY_MAX_TTL else dr_ttl r;
  ca_rdata : slice data (rr_offset rr) (rr_length rr) = dr_rdata r;
  ca_length : rr_length rr = length (dr_rdata r);
}.

(** One record: where its header and its data stand, and that they fit. *)
Lemma read_record_back legacy r b pre post count :
  encode_record legacy r = inr b →
  ∃ rr, carries legacy (pre ++ b ++ post) r rr ∧
    read_records (S count) (pre ++ b ++ post) (length pre) =
    (rest ← read_records count (pre ++ b ++ post) (length (pre ++ b)); inr (rr :: rest)).
Proof.
  unfold encode_record. intros H. wire_inv H. rename b0 into n, b1 into t, b2 into c, b3 into ttl, b4 into len.
  set (data := pre ++ (n ++ t ++ c ++ ttl ++ len ++ dr_rdata r) ++ post).
  pose proof (to_bytes_length _ _ _ Hb0) as Lt. pose proof (to_bytes_length _ _ _ Hb1) as Lc.
  pose proof (to_bytes_length _ _ _ Hb2) as Lttl. pose proof (to_bytes_length _ _ _ Hb3) as Ll.
  set (off := (length pre + length n)%nat).
  assert (u_int data off 2 = dr_type r) as Ut.
  { apply (u_int_at _ (pre ++ n) t (c ++ ttl ++ len ++ dr_rdata r ++ post));
      [unfold data; by app_norm|rewrite length_app; done|done]. }
  assert (Z.land (u_int data (off + 2) 2) 0x7FFF = CLASS_IN) as Uc.
  { erewrite (u_int_at _ (pre ++ n ++ t) c (ttl ++ len ++ dr_rdata r ++ post));
      [|unfold data; by app_norm|rewrite !length_app; unfold off; lia|exact Hb1].
    by destruct legacy, (dr_unique r). }
  assert (u_int data (off + 4) 4 = if legacy then Z.min (dr_ttl r) LEGACY_MAX_TTL else dr_ttl r) as Uttl.
  { apply (u_int_at _ (pre ++ n ++ t ++ c) ttl (len ++ dr_rdata r ++ post));
      [unfold data; by app_norm|rewrite !length_app; unfold off; lia|exact Hb2]. }
  assert (Z.to_nat (u_int data (off + 8) 2) = length (dr_rdata r)) as Ul.
  { rewrite (u_int_at _ (pre ++ n ++ t ++ c ++ ttl) len (dr_rdata r ++ post) 2 (Z.of_nat (length (dr_rdata r))));
      [lia|unfold data; by app_norm|rewrite !length_app; unfold off; lia|exact Hb3]. }
  eexists. split; [|cbn [read_records]; rewrite (read_name_at _ pre n (t ++ c ++ ttl ++ len ++ dr_rdata r ++ post) (dr_name r));
    [|unfold data; by app_norm|done|done]].
  2: { cbn [mbind wire_bind]. fold off. rewrite Ul.
       assert (length data = off + 10 + length (dr_rdata r) + length post)%nat as Ld.
       { unfold data, off. rewrite !length_app. lia. }
       rewrite !(proj2 (Nat.ltb_ge _ _)) by lia.
       replace (off + 10 + length (dr_rdata r))%nat with (length (pre ++ n ++ t ++ c ++ ttl ++ len ++ dr_rdata r))
         by (unfold off; rewrite !length_app; lia).
       reflexivity. }
  split; cbn; try done.
  replace (off + 10)%nat with (length (pre ++ n ++ t ++ c ++ ttl ++ len)) by (unfold off; rewrite !length_app; lia).
  replace data with ((pre ++ n ++ t ++ c ++ ttl ++ len) ++ dr_rdata r ++ post) by (unfold data; by app_norm).
  apply slice_middle.
Qed.

Lemma read_records_back legacy rs bs pre post :
  encode_all (encode_record legacy) rs = inr bs →
  ∃ rrs, read_records (length rs) (pre ++ bs ++ post) (length pre) = inr rrs ∧
         Forall2 (carries legacy (pre ++ bs ++ post)) rs rrs.
Proof.
  revert bs pre. induction rs as [|r rs IH]; intros bs pre; cbn [encode_all length].
  - intros [= <-]. exists []. by split.
  - intros H. wire_inv H. rewrite <- app_assoc.
    destruct (read_record_back legacy r b pre (b0 ++ post) (length rs) Hb) as (rr & Hrr & ->).
    rewrite app_assoc in Hrr |- *. destruct (IH b0 (pre ++ b) Hb0) as (rrs & -> & Hrrs).
    exists (rr :: rrs). split; [done|]. by constructor.
Qed.

(** A slice that is not cut short splits the message around it. *)
Lemma slice_split data offset n l :
  slice data offset n = l → length l = n → (0 < n)%nat →
  ∃ pre post, data = pre ++ l ++ post ∧ length pre = offset.
Proof.
  intros Hs Hl Hn. exists (take offset data), (drop n (drop offset data)).
  assert (offset + n <= length data)%nat as Hle.
  { rewrite <- Hs, length_slice in Hl. lia. }
  split; [|rewrite length_take; lia]. unfold slice in Hs. rewrite <- Hs.
  by rewrite take_drop, take_drop.
Qed.

Lemma decode_ptr_back m rr rdata target :
  slice (msg_raw m) (rr_offset rr) (rr_length rr) = rdata → rr_length rr = length rdata →
  encode_name target = inr rdata → decode_ptr m rr = inr target.
Proof.
  intros Hs Hl He. pose proof (encode_name_length _ _ He).
  destruct (slice_split _ _ _ _ Hs) as (pre & post & Hd & Hp); [lia..|].
  unfold decode_ptr, read_rdata_name.
  rewrite (read_name_at _ pre rdata post target) by done. cbn [mbind wire_bind fst snd].
  rewrite (proj2 (Nat.ltb_ge _ _)) by lia. done.
Qed.

Lemma decode_srv_back m rr rdata port target :
  slice (msg_raw m) (rr_offset rr) (rr_length rr) = rdata → rr_length rr = length rdata →
  encode_srv port target = inr rdata → decode_srv m rr = inr (port, target).
Proof.
  intros Hs Hl He. revert Hs Hl. unfold encode_srv in He. wire_inv He. intros Hs Hl.
  pose proof (to_bytes_length _ _ _ Hb) as L0. pose proof (to_bytes_length _ _ _ Hb0) as L1.
  pose proof (to_bytes_length _ _ _ Hb1) as L2. pose proof (encode_name_length _ _ Hb2) as L3.
  rewrite !length_app in Hl.
  destruct (slice_split _ _ _ _ Hs) as (pre & post & Hd & Hp); [rewrite !length_app; lia|lia|].
  unfold decode_srv, read_rdata_name. rewrite (proj2 (Nat.ltb_ge _ _)) by lia.
  rewrite (read_name_at _ (pre ++ b ++ b0 ++ b1) b2 post target);
    [|rewrite Hd; by app_norm|rewrite !length_app; lia|done].
  cbn [mbind wire_bind fst snd]. rewrite (proj2 (Nat.ltb_ge _ _)) by lia.
  cbn [mbind wire_bind]. f_equal. f_equal.
  apply (u_int_at _ (pre ++ b ++ b0) b1 (b2 ++ post)); [rewrite Hd; by app_norm|rewrite !length_app; lia|done].
Qed.

(** The header of an encoded response, field by field. *)
Lemma response_header rs ident qs bs :
  encode_response rs ident qs = inr bs →
  ∃ header qbs rbs, bs = header ++ qbs ++ rbs ∧ length header = 12%nat ∧
    encode_all encode_question qs = inr qbs ∧
    encode_all (encode_record (negb (bool_decide (qs = [])))) rs = inr rbs ∧
    u_int bs 0 2 = ident ∧ u_int bs 2 2 = 0x8400 ∧ u_int bs 4 2 = Z.of_nat (length qs) ∧
    u_int bs 6 2 = Z.of_nat (length rs) ∧ u_int bs 8 2 = 0 ∧ u_int bs 10 2 = 0.
Proof.
  unfold encode_response. intros H. wire_inv H.
  rename b into i, b0 into fl, b1 into nq, b2 into nr, b3 into z, b4 into qbs, b5 into rbs.
  exists (i ++ fl ++ nq ++ nr ++ z ++ z), qbs, rbs.
  pose proof (to_bytes_length _ _ _ Hb) as L1. pose proof (to_bytes_length _ _ _ Hb0) as L2.
  pose proof (to_bytes_length _ _ _ Hb1) as L3. pose proof (to_bytes_length _ _ _ Hb2) as L4.
  pose proof (to_bytes_length _ _ _ Hb3) as L5.
  split_and!; try done.
  - rewrite !length_app. lia.
  - apply (u_int_at _ [] i (fl ++ nq ++ nr ++ z ++ z ++ qbs ++ rbs)); [by app_norm|done|done].
  - apply (u_int_at _ i fl (nq ++ nr ++ z ++ z ++ qbs ++ rbs)); [by app_norm|done|done].
  - apply (u_int_at _ (i ++ fl) nq (nr ++ z ++ z ++ qbs ++ rbs));
      [by app_norm|rewrite !length_app; lia|done].
  - apply (u_int_at _ (i ++ fl ++ nq) nr (z ++ z ++ qbs ++ rbs));
      [by app_norm|rewrite !length_app; lia|done].
  - apply (u_int_at _ (i ++ fl ++ nq ++ nr) z (z ++ qbs ++ rbs));
      [by app_norm|rewrite !length_app; lia|done].
  - apply (u_int_at _ (i ++ fl ++ nq ++ nr ++ z) z (qbs ++ rbs));
      [by app_norm|rewrite !length_app; lia|done].
Qed.

(** C39: whatever records the advertiser can encode, discovery decodes: the
    message has the transaction id and one record per record sent, in order,
    with its name, type, class IN (the cache-flush bit masked off), TTL (capped
    at 10 for a legacy querier) and data; the target of a PTR and the port and
    target of an SRV come back as they were given.  A responder that hears the
    message sees no question in it. *)
Theorem response_roundtrip (records : list DnsRecord) (ident : Z) (questions : list Question)
    (bs : octets) :
  encode_response records ident questions = inr bs →
  let legacy := negb (bool_decide (questions = [])) in
  decode_questions bs = inr [] ∧
  ∃ m, decode_message bs = inr m ∧ msg_ident m = ident ∧
    Forall2 (λ r rr,
      carries legacy bs r rr ∧ record_rdata m rr = dr_rdata r ∧
      (∀ target, encode_name target = inr (dr_rdata r) → decode_ptr m rr = inr target) ∧
      (∀ port target, encode_srv port target = inr (dr_rdata r) →
         decode_srv m rr = inr (port, target)))
      records (msg_records m).
Proof.
  intros H. cbn zeta.
  destruct (response_header _ _ _ _ H) as (h & qbs & rbs & Hbs & Hh & Hq & Hr & U0 & U2 & U4 & U6 & U8 & U10).
  assert (¬ (length bs < 12)%nat) as Hlen by (rewrite Hbs, length_app; lia).
  unfold decode_questions, decode_message. rewrite (proj2 (Nat.ltb_ge _ _)) by lia.
  rewrite U0, U2, U4, U6, U8, U10. split; [done|]. rewrite !Nat2Z.id.
  destruct (read_records_back (negb (bool_decide (questions = []))) records rbs (h ++ qbs) [] Hr)
    as (rrs & Hrr & Hall).
  rewrite app_nil_r, <- app_assoc, <- Hbs in Hrr, Hall.
  pose proof (skip_questions_back questions qbs h rbs Hq) as Hsk. rewrite <- Hbs, Hh in Hsk.
  rewrite Hsk. cbn [mbind wire_bind]. replace (12 + length qbs)%nat with (length (h ++ qbs))
    by (rewrite length_app; lia).
  cbn [Z.to_nat]. rewrite !Nat.add_0_r, Hrr. cbn [mbind wire_bind].
  eexists. split; [done|]. split; [done|]. cbn [msg_records]. eapply Forall2_impl; [exact Hall|].
  intros r rr Hc. pose proof (ca_rdata _ _ _ _ Hc) as Hd. pose proof (ca_length _ _ _ _ Hc) as Hl.
  split_and!; [done|done| |]; intros; [by eapply decode_ptr_back|by eapply decode_srv_back].
Qed.

(** A responder reads back from a query the one question it carries: its
    name, its type and whether it asks for a unicast answer. *)
Theorem query_roundtrip (labels : name) (qtype ident : Z) (unicast : bool) (bs : octets) :
  encode_query labels qtype ident unicast = inr bs →
  decode_questions bs = inr [{| q_name := labels; q_type := qtype; q_unicast := unicast |}].
Proof.
  unfold encode_query. intros H. wire_inv H.
  rename b into i, b0 into fl, b1 into one, b2 into z, b3 into n, b4 into t, b5 into c.
  pose proof (to_bytes_length _ _ _ Hb) as L1. pose proof (to_bytes_length _ _ _ Hb0) as L2.
  pose proof (to_bytes_length _ _ _ Hb1) as L3. pose proof (to_bytes_length _ _ _ Hb2) as L4.
  pose proof (to_bytes_length _ _ _ Hb4) as L5. pose proof (to_bytes_length _ _ _ Hb5) as L6.
  set (bs := (i ++ fl ++ one ++ z ++ z ++ z) ++ n ++ t ++ c).
  assert (length bs = 16 + length n)%nat as Hlen by (unfold bs; rewrite !length_app; lia).
  unfold decode_questions. rewrite (proj2 (Nat.ltb_ge _ _)) by lia.
  rewrite (u_int_at bs i fl (one ++ z ++ z ++ z ++ n ++ t ++ c) 2 0);
    [|unfold bs; by app_norm|done|done].
  rewrite (u_int_at bs (i ++ fl) one (z ++ z ++ z ++ n ++ t ++ c) 2 1);
    [|unfold bs; by app_norm|rewrite !length_app; lia|done].
  change (Z.to_nat 1) with 1%nat. cbn [read_questions Z.land Z.eqb negb].
  rewrite (read_name_at bs (i ++ fl ++ one ++ z ++ z ++ z) n (t ++ c) labels);
    [|unfold bs; by app_norm|rewrite !length_app; lia|done].
  cbn [mbind wire_bind]. rewrite (proj2 (Nat.ltb_ge _ _)) by lia. cbn [fst].
  rewrite (u_int_at bs ((i ++ fl ++ one ++ z ++ z ++ z) ++ n) t c 2 qtype);
    [|unfold bs; by app_norm|rewrite !length_app; lia|done].
  rewrite (u_int_at bs ((i ++ fl ++ one ++ z ++ z ++ z) ++ n ++ t) c [] 2
             (Z.lor CLASS_IN (if unicast then QU_BIT else 0)));
    [|unfold bs; rewrite app_nil_r; by app_norm|rewrite !length_app; lia|exact Hb5].
  by destruct unicast.
Qed.

(** ** Samples *)

(** The service [_se._tcp.local] and a host, [h.local]. *)
Definition sample_service : name :=
  [[95; 115; 101]; [95; 116; 99; 112]; [108; 111; 99; 97; 108]].
Definition sample_host : name := [[104]; [108; 111; 99; 97; 108]].

Definition sample_srv : DnsRecord :=
  {| dr_name := sample_service; dr_type := 33; dr_ttl := 120;
     dr_rdata := default [] (match encode_srv 8443 sample_host with inr b => Some b | inl _ => None end);
     dr_unique := true |}.

Definition sample_message : octets :=
  match encode_response [sample_srv] 0 [] with inr b => b | inl _ => [] end.

Lemma read_name_bounded_witness :
  Forall is_byte sample_message ∧
  match read_name sample_message 12 with
  | inr (labels, e) => good_name labels ∧ (12 < e <= length sample_message)%nat
  | inl (DnsDecodeError why) => why ≠ Diverges
  | inl _ => False
  end.
Proof.
  assert (Forall is_byte sample_message) as H.
  { unfold is_byte. apply (bool_decide_unpack _). vm_compute. exact I. }
  split; [exact H|]. exact (read_name_bounded sample_message 12 H).
Defined.

Lemma response_roundtrip_witness :
  encode_response [sample_srv] 0 [] = inr sample_message ∧
  ∃ m, decode_message sample_message = inr m ∧ msg_ident m = 0 ∧
    (∃ rr, msg_records m = [rr] ∧ decode_srv m rr = inr (8443, sample_host)).
Proof.
  assert (encode_response [sample_srv] 0 [] = inr sample_message) as H by (vm_compute; reflexivity).
  split; [exact H|]. destruct (response_roundtrip [sample_srv] 0 [] sample_message H) as (_ & m & Hm & Hi & Hall).
  exists m. split; [exact Hm|]. split; [exact Hi|].
  apply Forall2_cons_inv_l in Hall as (rr & rest & (_ & _ & _ & Hsrv) & Hrest & ->).
  apply Forall2_nil_inv_l in Hrest as ->. exists rr. split; [reflexivity|].
  apply Hsrv. vm_compute. reflexivity.
Defined.

Lemma query_roundtrip_witness :
  ∃ bs, encode_query sample_service 12 7 true = inr bs ∧
    decode_questions bs = inr [{| q_name := sample_service; q_type := 12; q_unicast := true |}].
Proof.
  eexists. split; [vm_compute; reflexivity|].
  apply (query_roundtrip sample_service 12 7 true). vm_compute. reflexivity.
Defined.

(** A label followed by a pointer back to it, after a 12-byte header. *)
Definition looping_message : octets := replicate 12 0 ++ [1; 97; 0xC0; 12].

(** A pointer that points strictly backwards can still close a loop, if a
    label lies between its target and itself: on a message of 16 bytes the loop
    of [read_name] is still running after 256 rounds, and it is the limit on
    the number of labels that ends it. *)
Theorem backward_pointer_loops :
  read_name_loop 256 looping_message [] 12 12 false = None ∧
  read_name looping_message 12 = fault TooManyLabels.
Proof. vm_compute. auto. Qed.
