(* ===== verification/DnsSd.v ===== *)
(** * DNS-SD: announcing this client and finding servers

    The record data that [DnsWire] leaves out (TXT and addresses), the
    transports, the responder of advertise.py and the search of discover.py.

    A [str] is the list of its UTF-8 bytes.  What [str.lower] and [int] do on
    text that is not ASCII is Unicode data and a parameter, as is whether the
    Python at hand judges an IPv4-mapped IPv6 address by the IPv4 address in it
    (releases before and after 2024 differ).  An address is its packed bytes.
    The sockets are the class [Network]: what comes back for a round of queries,
    and the identifiers drawn.  Log lines are not modelled. *)

From S2P Require Import Prelude DnsWire.
From stdpp Require Import pretty.
From Stdlib Require Import QArith.
#[local] Open Scope Z_scope.

Abbreviation text := (list Z) (only parsing).

Definition octets_of (s : string) : list Z :=
  (λ c, Z.of_nat (Ascii.nat_of_ascii c)) <$> String.list_ascii_of_string s.

Class Python := {
  lower_text : text → text;
  digits_text : text → option Z;
  judges_mapped : bool;
}.

(** ** Text *)

(** The ranges of the bytes that follow a lead byte; [None]: no lead byte. *)
Definition continuations (lead : Z) : option (list (Z * Z)) :=
  let c := (0x80, 0xBF) in
  if lead <? 0x80 then Some []
  else if (0xC2 <=? lead) && (lead <=? 0xDF) then Some [c]
  else if lead =? 0xE0 then Some [(0xA0, 0xBF); c]
  else if lead =? 0xED then Some [(0x80, 0x9F); c]
  else if (0xE1 <=? lead) && (lead <=? 0xEF) then Some [c; c]
  else if lead =? 0xF0 then Some [(0x90, 0xBF); c; c]
  else if (0xF1 <=? lead) && (lead <=? 0xF3) then Some [c; c; c]
  else if lead =? 0xF4 then Some [(0x80, 0x8F); c; c]
  else None.

(** How many of the bytes that follow are in their ranges. *)
Fixpoint matching (ranges : list (Z * Z)) (b : octets) : nat :=
  match ranges, b with
  | (lo, hi) :: ranges', x :: b' => if (lo <=? x) && (x <=? hi) then S (matching ranges' b') else 0
  | _, _ => 0
  end.

(** The characters; [None] stands for a part that cannot be decoded. *)
Fixpoint utf8_loop (fuel : nat) (b : octets) : list (option octets) :=
  match fuel, b with
  | S fuel', lead :: rest =>
      match continuations lead with
      | None => None :: utf8_loop fuel' rest
      | Some ranges =>
          let n := matching ranges rest in
          (if (n =? length ranges)%nat then Some (lead :: take n rest) else None)
            :: utf8_loop fuel' (drop n rest)
      end
  | _, _ => []
  end.

Definition utf8_chars (b : octets) : list (option octets) := utf8_loop (length b) b.

(** [b.decode("utf-8")] *)
Definition decode_strict (b : octets) : option text :=
  if forallb (λ c : option octets, if c is Some _ then true else false) (utf8_chars b)
  then Some b else None.

(** [b.decode("utf-8", "replace")] *)
Definition decode_replace (b : octets) : text :=
  mjoin (default [0xEF; 0xBF; 0xBD] <$> utf8_chars b).

Definition ascii (t : text) : bool := forallb (λ b, (0 <=? b) && (b <? 0x80)) t.
Definition lower_byte (b : Z) : Z := if (65 <=? b) && (b <=? 90) then b + 32 else b.
Definition is_space (b : Z) : bool := ((9 <=? b) && (b <=? 13)) || (b =? 32).
Definition is_digit (b : Z) : bool := (48 <=? b) && (b <=? 57).

Fixpoint strip_front (t : text) : text :=
  match t with b :: t' => if is_space b then strip_front t' else t | [] => [] end.

(** The digits of a number, with single underscores between them. *)
Fixpoint digits (acc : Z) (after_digit : bool) (t : text) : option Z :=
  match t with
  | [] => if after_digit then Some acc else None
  | b :: t' =>
      if is_digit b then digits (10 * acc + (b - 48)) true t'
      else if (b =? 95) && after_digit then digits acc false t'
      else None
  end.

Definition ascii_int (t : text) : option Z :=
  let t := reverse (strip_front (reverse (strip_front t))) in
  match t with
  | 43 :: t' => digits 0 false t'
  | 45 :: t' => Z.opp <$> digits 0 false t'
  | _ => digits 0 false t
  end.

Section Text.
Context `{Python}.
Definition py_lower (t : text) : text := if ascii t then lower_byte <$> t else lower_text t.
Definition py_int (t : text) : option Z := if ascii t then ascii_int t else digits_text t.
End Text.

(** [b.partition(b"=")]: the part before, and the part after if there is a separator. *)
Fixpoint partition_eq (b : octets) : octets * option octets :=
  match b with
  | [] => ([], None)
  | x :: b' => if x =? 61 then ([], Some b') else let '(k, v) := partition_eq b' in (x :: k, v)
  end.

(** ** wire.py: TXT, addresses, names, transports *)

Definition TYPE_A : Z := 1.
Definition TYPE_PTR : Z := 12.
Definition TYPE_TXT : Z := 16.
Definition TYPE_AAAA : Z := 28.
Definition TYPE_SRV : Z := 33.
Definition TYPE_ANY : Z := 255.

Abbreviation Txt := (dict text (option text)) (only parsing).

Definition txt_bytes (kv : text * option text) : octets :=
  match kv.2 with None => kv.1 | Some v => kv.1 ++ 61 :: v end.

Definition encode_item (kv : text * option text) : Wire octets :=
  let item := txt_bytes kv in
  if (255 <? length item)%nat then inl TxtLength else inr (Z.of_nat (length item) :: item).

Definition encode_txt (values : Txt) : Wire octets :=
  out ← encode_all encode_item values;
  inr (if bool_decide (out = []) then [0] else out).

Section DecodeTxt.
Context `{Python}.

Definition txt_item (item : octets) (out : Txt) : Txt :=
  if bool_decide (item = []) then out
  else
    let '(key, value) := partition_eq item in
    match decode_strict key with
    | None => out
    | Some key =>
        let n := py_lower key in
        if dict_mem n out then out else dict_set n (decode_replace <$> value) out
    end.

Fixpoint txt_loop (fuel : nat) (rdata : octets) (out : Txt) : Wire Txt :=
  match rdata with
  | [] => inr out
  | len :: rest =>
      match fuel with
      | O => fault Diverges
      | S fuel' =>
          let n := Z.to_nat len in
          if (length rest <? n)%nat then fault TxtPastEnd
          else txt_loop fuel' (drop n rest) (txt_item (take n rest) out)
      end
  end.

Definition decode_txt (rdata : octets) : Wire Txt := txt_loop (length rdata) rdata [].
End DecodeTxt.

(** The packed address; its text is one to one with it. *)
Definition decode_address (m : DnsMessage) (r : ResourceRecord) : Wire octets :=
  let raw := record_rdata m r in
  let expected := if rr_type r =? TYPE_A then 4%nat else 16%nat in
  if (length raw =? expected)%nat then inr raw else fault AddressLength.

Definition escape (t : text) : text :=
  mjoin ((λ b, if (b =? 92) || (b =? 46) then [92; b] else [b]) <$> t).

Fixpoint join_dots (l : list text) : text :=
  match l with [] => [] | [t] => t | t :: l' => t ++ 46 :: join_dots l' end.

Definition format_name (labels : name) : text := join_dots (escape ∘ decode_replace <$> labels).

Definition fold (n : name) : name := map (map lower_byte) n.

Record MulticastTransport := mkTransport {
  tr_name : string;
  tr_domain : octets;
  tr_groups : list string;
  tr_hop_limit : Z;
  tr_port : Z;
}.

Definition MDNS : MulticastTransport :=
  mkTransport "mdns" (octets_of "local") ["224.0.0.251"; "ff02::fb"] 255 5353.
Definition XMDNS : MulticastTransport := mkTransport "xmdns" (octets_of "site") ["ff05::fb"] 255 5353.
Definition TRANSPORTS : dict string MulticastTransport := [("mdns", MDNS); ("xmdns", XMDNS)].

(** [None]: a [KeyError]. *)
Definition transports_for (selection : string) : option (list MulticastTransport) :=
  if bool_decide (selection = "off") then Some []
  else if bool_decide (selection = "both") then Some [MDNS; XMDNS]
  else (λ t, [t]) <$> dict_get selection TRANSPORTS.

Definition validate_subtype (subtype : text) : Wire text :=
  match subtype with
  | [] => inl BadSubtype
  | b :: _ =>
      if b =? 95 then inl BadSubtype
      else if bool_decide (46 ∈ subtype) || bool_decide (0 ∈ subtype) then inl BadSubtype
      else if (63 <? length subtype)%nat then inl BadSubtype
      else inr subtype
  end.

(** [t.split(".")] *)
Fixpoint split_dots (t : text) : list text :=
  match t with
  | [] => [[]]
  | b :: t' =>
      match split_dots t' with
      | p :: ps => if b =? 46 then [] :: p :: ps else (b :: p) :: ps
      | [] => [[b]]
      end
  end.

Definition service_label (t : text) : bool :=
  match t with 95 :: _ => (2 <=? length t)%nat && (length t <=? 63)%nat | _ => false end.

Definition validate_service (service : text) : Wire (text * text) :=
  match split_dots service with
  | [n; proto] =>
      if bool_decide (proto = octets_of "_tcp") || bool_decide (proto = octets_of "_udp") then
        if service_label n && service_label proto then inr (n, proto) else inl BadService
      else inl BadService
  | _ => inl BadService
  end.

(** ** advertise.py: the records *)

Definition SERVICE_TTL : Z := 4500.
Definition ADDRESS_TTL : Z := 120.

(** [str(sfdi).zfill(12)], or a [ValueError] *)
Definition sfdi_label (sfdi : N) : Wire text :=
  let digits := octets_of (pretty sfdi) in
  if (12 <? length digits)%nat then inl BadSfdi
  else inr (replicate (12 - length digits) 48 ++ digits).

Record ServiceAdvertisement := mkAd {
  ad_instance : octets;
  ad_service : octets * octets;
  ad_port : Z;
  ad_txt : Txt;
  ad_hostname : octets;
}.

Definition label_fits (l : octets) : bool := (0 <? length l)%nat && (length l <=? 63)%nat.

(** [__post_init__] *)
Definition checked (ad : ServiceAdvertisement) : Wire ServiceAdvertisement :=
  if label_fits (ad_instance ad) && label_fits (ad_hostname ad) &&
     (0 <? ad_port ad) && (ad_port ad <=? 65535)
  then inr ad else inl BadAdvertisement.

Section Records.
Context (ad : ServiceAdvertisement) (tr : MulticastTransport).
Definition service_name : name := [(ad_service ad).1; (ad_service ad).2; tr_domain tr].
Definition instance_name : name := ad_instance ad :: service_name.
Definition host_name : name := [ad_hostname ad; tr_domain tr].

Definition address_record (address : octets) : DnsRecord :=
  {| dr_name := host_name; dr_type := if (length address =? 16)%nat then TYPE_AAAA else TYPE_A;
     dr_ttl := ADDRESS_TTL; dr_rdata := address; dr_unique := true |}.

Definition ad_records (addresses : list octets) : Wire (list DnsRecord) :=
  ptr ← encode_name instance_name;
  srv ← encode_srv (ad_port ad) host_name;
  txt ← encode_txt (ad_txt ad);
  inr ([{| dr_name := service_name; dr_type := TYPE_PTR; dr_ttl := SERVICE_TTL; dr_rdata := ptr;
           dr_unique := false |};
        {| dr_name := instance_name; dr_type := TYPE_SRV; dr_ttl := SERVICE_TTL; dr_rdata := srv;
           dr_unique := true |};
        {| dr_name := instance_name; dr_type := TYPE_TXT; dr_ttl := SERVICE_TTL; dr_rdata := txt;
           dr_unique := true |}] ++ (address_record <$> addresses)).
End Records.

Definition build_advertisement (lfdi : text) (sfdi : N) (port : Z) (service : text)
    (instance version : option text) (extra_txt : dict text text) : Wire ServiceAdvertisement :=
  d ← sfdi_label sfdi;
  labels ← validate_service service;
  let txt := [(octets_of "txtvers", Some (octets_of "1")); (octets_of "lfdi", Some lfdi);
              (octets_of "sfdi", Some d)] in
  let txt := match version with None => txt | Some v => dict_set (octets_of "ver") (Some v) txt end in
  let txt := foldl (λ t kv, dict_set kv.1 (Some kv.2) t) txt extra_txt in
  let host := octets_of "py20305-" ++ d in
  let inst := match instance with Some ((_ :: _) as i) => i | _ => host end in
  checked (mkAd inst labels port txt host).

(** ** advertise.py: the responder *)

Definition ANNOUNCE_COUNT : Z := 3.
Definition ANNOUNCE_INTERVAL : Q := 1.
Definition MULTICAST_MIN_INTERVAL : Q := 1.
Definition UNICAST_BURST : Z := 10.
Definition UNICAST_WINDOW : Q := 1.

(** A time before all others is [None]. *)
Record AdvBinding := mkBinding {
  bd_transport : MulticastTransport;
  bd_records : list DnsRecord;
  bd_last_multicast : option Q;
  bd_window_start : option Q;
  bd_unicast_sent : Z;
}.

Definition new_binding (tr : MulticastTransport) (records : list DnsRecord) : AdvBinding :=
  mkBinding tr records None None 0.

(** [now - since >= d] *)
Definition elapsed (since : option Q) (now d : Q) : bool :=
  match since with None => true | Some t => Qle_bool d (now - t) end.

Definition may_respond (unicast : bool) (now : Q) (b : AdvBinding) : bool * AdvBinding :=
  if unicast then
    let b := if elapsed (bd_window_start b) now UNICAST_WINDOW
             then mkBinding (bd_transport b) (bd_records b) (bd_last_multicast b) (Some now) 0 else b in
    if UNICAST_BURST <=? bd_unicast_sent b then (false, b)
    else (true, mkBinding (bd_transport b) (bd_records b) (bd_last_multicast b) (bd_window_start b)
                  (bd_unicast_sent b + 1))
  else if elapsed (bd_last_multicast b) now MULTICAST_MIN_INTERVAL then
    (true, mkBinding (bd_transport b) (bd_records b) (Some now) (bd_window_start b) (bd_unicast_sent b))
  else (false, b).

#[export] Instance DnsRecord_eq_dec : EqDecision DnsRecord.
Proof. solve_decision. Defined.

(** Add what is not there yet. *)
Definition add_new (l wanted : list DnsRecord) : list DnsRecord :=
  foldl (λ w r, if bool_decide (r ∈ w) then w else w ++ [r]) wanted l.

Definition asks_for (q : Question) (r : DnsRecord) : bool :=
  bool_decide (fold (dr_name r) = fold (q_name q)) &&
  ((q_type q =? dr_type r) || (q_type q =? TYPE_ANY)).

Definition is_ptr (r : DnsRecord) : bool := dr_type r =? TYPE_PTR.

Definition answers_for (records : list DnsRecord) (questions : list Question) : list DnsRecord :=
  let wanted := foldl (λ w q, add_new (filter (λ r, asks_for q r = true) records) w) [] questions in
  match wanted with
  | [] => []
  | _ =>
      let wanted := if existsb is_ptr wanted
                    then add_new (filter (λ r, is_ptr r = false) records) wanted else wanted in
      filter (λ r, r ∈ wanted) records
  end.

(** What goes out, and whether to the source of the query only. *)
Record Reply := mkReply { rp_payload : octets; rp_to_source : bool }.

(** [_handle], after [recvfrom]; an exception leaves the responder's loop. *)
Definition handle (payload : octets) (source_port : Z) (now : Q) (b : AdvBinding)
    : Wire (option Reply) * AdvBinding :=
  match decode_questions payload with
  | inl (DnsDecodeError _) => (inr None, b)
  | inl e => (inl e, b)
  | inr questions =>
      match answers_for (bd_records b) questions with
      | [] => (inr None, b)
      | answers =>
          let legacy := negb (source_port =? tr_port (bd_transport b)) in
          let unicast := legacy || existsb q_unicast questions in
          let '(may, b) := may_respond unicast now b in
          if negb may then (inr None, b)
          else
            let response := if legacy then encode_response answers (u_int payload 0 2) questions
                            else encode_response answers 0 [] in
            (p ← response; inr (Some (mkReply p unicast)), b)
      end
  end.

(** The loop of [_serve], one turn of announcements or one datagram at a time. *)
Record Responder := mkResponder {
  re_bindings : list AdvBinding;
  re_announced : Z;
  re_next : Q;
}.

Inductive ServeEvent :=
  | AtTop (now : Q)
  | Datagram (binding : nat) (payload : octets) (source_port : Z) (now : Q).

(** A sent message: the binding, the payload, to the source only. *)
Abbreviation Sent := (nat * Reply)%type (only parsing).

Definition announce_all (now : Q) (bs : list AdvBinding) : Wire (list Reply) * list AdvBinding :=
  ((fix all (l : list AdvBinding) : Wire (list Reply) :=
      match l with
      | [] => inr []
      | b :: l' => p ← encode_response (bd_records b) 0 []; rest ← all l'; inr (mkReply p false :: rest)
      end) bs,
   (λ b, (may_respond false now b).2) <$> bs).

Definition serve_event (e : ServeEvent) (r : Responder) : Wire (list Sent) * Responder :=
  match e with
  | AtTop now =>
      if (re_announced r <? ANNOUNCE_COUNT) && Qle_bool (re_next r) now then
        let '(out, bs) := announce_all now (re_bindings r) in
        (l ← out; inr (imap (λ i p, (i, p)) l),
         mkResponder bs (re_announced r + 1) (now + ANNOUNCE_INTERVAL))
      else (inr [], r)
  | Datagram i payload source_port now =>
      match re_bindings r !! i with
      | None => (inr [], r)
      | Some b =>
          let '(out, b) := handle payload source_port now b in
          (p ← out; inr (match p with Some p => [(i, p)] | None => [] end),
           mkResponder (<[i := b]> (re_bindings r)) (re_announced r) (re_next r))
      end
  end.

(** [_say_goodbye] for one binding *)
Definition goodbye (b : AdvBinding) : Wire octets := encode_response (with_ttl 0 <$> bd_records b) 0 [].

(** ** discover.py *)

Definition SERVICE_LABELS : name := [octets_of "_smartenergy"; octets_of "_tcp"].
Definition MAX_INSTANCES : nat := 16.

(** Where to connect: a literal address or a name. *)
Inductive Host := Literal (packed : octets) | Named (t : text).

#[export] Instance Host_eq_dec : EqDecision Host.
Proof. solve_decision. Defined.

Record DiscoveredServer := mkServer {
  ds_instance : text;
  ds_host : Host;
  ds_port : Z;
  ds_txt : Txt;
  ds_transport : string;
}.

Definition txt_key (key : string) (txt : Txt) : option (option text) := dict_get (octets_of key) txt.

(** [txt.get(key)], and whether it is truthy *)
Definition txt_value (key : string) (txt : Txt) : option text := mjoin (txt_key key txt).
Definition non_empty (t : option text) : bool := match t with Some (_ :: _) => true | _ => false end.

Definition dcap_path (s : DiscoveredServer) : text :=
  match txt_value "dcap" (ds_txt s) with Some ((_ :: _) as t) => t | _ => octets_of "/dcap" end.
Definition function_set_path (s : DiscoveredServer) : option text :=
  match txt_value "path" (ds_txt s) with Some ((_ :: _) as t) => Some t | _ => None end.

Definition service_labels (tr : MulticastTransport) (subtype : option text) : name :=
  match subtype with
  | None => SERVICE_LABELS ++ [tr_domain tr]
  | Some st => st :: octets_of "_sub" :: SERVICE_LABELS ++ [tr_domain tr]
  end.

Definition edev_subtype (sfdi : N) : Wire text :=
  d ← sfdi_label sfdi; inr (octets_of "edev-" ++ d).

Definition first_record (m : DnsMessage) (n : name) (rtype : Z) : option ResourceRecord :=
  head (filter (λ r, rr_type r = rtype ∧ fold (rr_name r) = fold n) (msg_records m)).

Section Discover.
Context `{Python}.

(** [ipaddress.ip_address(...).is_link_local] and [.is_unspecified], of packed addresses. *)
Definition is_mapped (a : octets) : bool :=
  bool_decide (take 12 a = replicate 10 0 ++ [0xFF; 0xFF]) && (length a =? 16)%nat.

Definition judged (a : octets) : octets := if judges_mapped && is_mapped a then drop 12 a else a.

Definition is_link_local (a : octets) : bool :=
  match judged a with
  | x :: y :: rest =>
      if (length rest =? 2)%nat then (x =? 169) && (y =? 254)
      else (x =? 0xFE) && (Z.land y 0xC0 =? 0x80)
  | _ => false
  end.

Definition is_unspecified (a : octets) : bool := forallb (Z.eqb 0) (judged a).

Inductive HttpsPort := PlainHttp | InvalidPort | TlsPort (port : Z).

Definition https_port (txt : Txt) : HttpsPort :=
  match txt_key "https" txt with
  | None => PlainHttp
  | Some None | Some (Some []) => TlsPort 443
  | Some (Some v) =>
      match py_int v with
      | Some port => if (0 <? port) && (port <=? 65535) then TlsPort port else InvalidPort
      | None => InvalidPort
      end
  end.

Definition usable_address (m : DnsMessage) (r : ResourceRecord) : option octets :=
  match decode_address m r with
  | inr a => if is_link_local a then None else Some a
  | inl _ => None
  end.

(** The stable sort puts the IPv6 addresses first. *)
Definition address_for (m : DnsMessage) (target : name) : option octets :=
  let found := omap (usable_address m)
    (filter (λ r, (rr_type r = TYPE_A ∨ rr_type r = TYPE_AAAA) ∧ fold (rr_name r) = fold target)
       (msg_records m)) in
  head (filter (λ a : octets, length a = 16%nat) found ++ filter (λ a : octets, length a ≠ 16%nat) found).

Definition usable_host (h : Host) : option Host :=
  match h with
  | Named t => Some h
  | Literal a => if is_link_local a || is_unspecified a then None else Some h
  end.

(** A path rooted at "/", and not at "//". *)
Definition rooted (dcap : text) : bool :=
  match dcap with b :: rest => (b =? 47) && negb (bool_decide (head rest = Some 47)) | [] => false end.

Definition server_from_records (m : DnsMessage) (instance : name) (tr : MulticastTransport)
    (fallback_host : Host) : option DiscoveredServer :=
  match first_record m instance TYPE_SRV, first_record m instance TYPE_TXT with
  | Some srv, Some txt_record =>
      match decode_srv m srv, decode_txt (record_rdata m txt_record) with
      | inr (_, target), inr txt =>
          if negb (bool_decide (txt_value "txtvers" txt = Some (octets_of "1"))) then None
          else if negb (non_empty (txt_value "dcap" txt) && non_empty (txt_value "level" txt)) then None
          else if negb (rooted (default [] (txt_value "dcap" txt))) then None
          else
            match https_port txt with
            | PlainHttp | InvalidPort => None
            | TlsPort port =>
                host ← match address_for m target with
                       | Some a => Some (Literal a)
                       | None => usable_host fallback_host
                       end;
                Some (mkServer (format_name instance) host port txt (tr_name tr))
            end
      | _, _ => None
      end
  | _, _ => None
  end.

(** [_decode_all] *)
Definition decode_reply (idents : list Z) (reply : octets * Host) : option (DnsMessage * Host) :=
  match decode_message reply.1 with
  | inr m => if bool_decide (msg_ident m ∈ idents) then Some (m, reply.2) else None
  | inl _ => None
  end.

Definition decode_all (replies : list (octets * Host)) (idents : list Z) : list (DnsMessage * Host) :=
  omap (decode_reply idents) replies.

(** [_instances] *)
Definition ptr_instance (service : name) (m : DnsMessage) (r : ResourceRecord) : option name :=
  if bool_decide (rr_type r = TYPE_PTR) && bool_decide (fold (rr_name r) = fold service)
  then match decode_ptr m r with inr i => Some i | inl _ => None end
  else None.

Abbreviation Instance_ := (name * DnsMessage * Host)%type (only parsing).

(** The instances PTR records name, in order and with repetitions. *)
Definition named_in (service : name) (mh : DnsMessage * Host) : list Instance_ :=
  (λ i, (i, mh.1, mh.2)) <$> omap (ptr_instance service mh.1) (msg_records mh.1).

Definition note_instance (out : list Instance_) (x : Instance_) : list Instance_ :=
  if bool_decide (fold x.1.1 ∈ (λ y : Instance_, fold y.1.1) <$> out) then out else out ++ [x].

Definition instances (messages : list (DnsMessage * Host)) (service : name) : list Instance_ :=
  foldl note_instance [] (messages ≫= named_in service).

(** Named without being described in full. *)
Definition incomplete (x : Instance_) : bool :=
  bool_decide (first_record x.1.2 x.1.1 TYPE_SRV = None) ||
  bool_decide (first_record x.1.2 x.1.1 TYPE_TXT = None).

(** What the first round settles for an instance. *)
Definition described (tr : MulticastTransport) (x : Instance_) : option DiscoveredServer :=
  server_from_records x.1.2 x.1.1 tr x.2.

Definition take_described (tr : MulticastTransport) (d : dict name DiscoveredServer) (x : Instance_)
    : dict name DiscoveredServer :=
  match described tr x with
  | Some s => if dict_mem x.1.1 d then d else dict_set x.1.1 s d
  | None => d
  end.

Definition unresolved (tr : MulticastTransport) (l : list Instance_) : list name :=
  (λ x : Instance_, x.1.1) <$> filter (λ x, described tr x = None ∧ incomplete x = true) l.

(** What the second round finds. *)
Definition take_resolved (tr : MulticastTransport) (messages : list (DnsMessage * Host))
    (d : dict name DiscoveredServer) (i : name) : dict name DiscoveredServer :=
  match head (omap (λ mh : DnsMessage * Host, server_from_records mh.1 i tr mh.2) messages) with
  | Some s => dict_set i s d
  | None => d
  end.

Definition resolved (tr : MulticastTransport) (l : list name) (messages : list (DnsMessage * Host))
    : dict name DiscoveredServer := foldl (take_resolved tr messages) [] l.
End Discover.

(** The network: what a round of queries brings back within its time, and
    [secrets.randbelow(65536)]. *)
Class Network (W : Type) := {
  exchange : MulticastTransport → list octets → Q → W → list (octets * Host) * W;
  randbelow : W → Z * W;
}.

Section Search.
Context `{Python} {W : Type} `{Network W}.
#[local] Abbreviation M A := (Comp WireError W A).

Definition of_wire {A} (w : Wire A) : M A := match w with inr a => ret a | inl e => raise e end.
Definition new_ident : M Z := λ s, let '(i, s) := randbelow s in (inr i, s).
Definition ask_network (tr : MulticastTransport) (queries : list octets) (timeout : Q)
    : M (list (octets * Host)) :=
  λ s, let '(r, s) := exchange tr queries timeout s in (inr r, s).

Definition any_query (instance : name) : M (Z * octets) :=
  i <- new_ident ;; q <- of_wire (encode_query instance TYPE_ANY i true) ;; ret (i, q).

Definition resolve_instances (tr : MulticastTransport) (l : list name) (timeout : Q)
    : M (dict name DiscoveredServer) :=
  if Qle_bool timeout 0 then ret []
  else
    queries <- map_each l any_query ;;
    replies <- ask_network tr (queries.*2) timeout ;;
    ret (resolved tr l (decode_all replies (queries.*1))).

(** The second round, for what the first one left open, and the result. *)
Definition settle (tr : MulticastTransport) (time_left : Q) (found : list (name * DnsMessage * Host))
    : M (list DiscoveredServer) :=
  let servers := foldl (take_described tr) [] found in
  let missing := unresolved tr found in
  more <- (if bool_decide (missing = []) then ret [] else resolve_instances tr missing time_left) ;;
  let servers := foldl (λ d kv, dict_set kv.1 kv.2 d) servers more in
  ret (omap (λ x : name * DnsMessage * Host, dict_get x.1.1 servers) found).

(** [discover] *)
Definition discover_servers (tr : MulticastTransport) (timeout : Q) (subtype : option text)
    : M (list DiscoveredServer) :=
  match subtype with None => ret tt | Some st => of_wire (validate_subtype st) ;;; ret tt end ;;;
  let service := service_labels tr subtype in
  let ptr_timeout := (timeout * 2 / 3)%Q in
  ident <- new_ident ;;
  query <- of_wire (encode_query service TYPE_PTR ident true) ;;
  replies <- ask_network tr [query] ptr_timeout ;;
  settle tr (timeout - ptr_timeout)
    (take MAX_INSTANCES (instances (decode_all replies [ident]) service)).

(** [discover_all]: the first answer for each endpoint. *)
Definition note_server (found : dict (Host * Z) DiscoveredServer) (s : DiscoveredServer)
    : dict (Host * Z) DiscoveredServer :=
  let key := (ds_host s, ds_port s) in if dict_mem key found then found else dict_set key s found.

Definition discover_all (transports : list MulticastTransport) (timeout : Q) (subtype : option text)
    : M (list DiscoveredServer) :=
  answers <- map_each transports (λ tr, discover_servers tr timeout subtype) ;;
  ret (dict_values (foldl note_server [] (mjoin answers))).

Definition discover_for_client (transports : list MulticastTransport) (sfdi : option N)
    (subtype : option text) (timeout : Q) : M (list DiscoveredServer) :=
  match subtype, sfdi with
  | Some st, _ => discover_all transports timeout (Some st)
  | None, Some id =>
      own <- of_wire (edev_subtype id) ;;
      targeted <- discover_all transports timeout (Some own) ;;
      match targeted with
      | [] => discover_all transports timeout None
      | _ => ret targeted
      end
  | None, None => discover_all transports timeout None
  end.
End Search.
