(* ===== verification/DnsSdProps.v ===== *)
(** * Properties of DNS-SD discovery and of the responder

    - a server that answers discovery's query is found, with the port its TXT
      record gives and the address it advertises;
    - whatever datagrams arrive, a server that discovery returns can be used;
    - the responder answers for its own names only, at a bounded rate;
    - two datagrams that stop a search and a responder. *)

From S2P Require Import Prelude DnsWire DnsSd.
From Stdlib Require Import QArith Lqa.
#[local] Open Scope Z_scope.

(** ** TXT records *)

Section Txt.
Context `{Python}.

Lemma matching_le ranges b : (matching ranges b <= length b)%nat.
Proof.
  revert b. induction ranges as [|[lo hi] ranges IH]; intros [|x b]; cbn; try lia.
  destruct (_ && _); [|lia]. specialize (IH b). lia.
Qed.

(** Text that decodes is its own replacement. *)
Lemma utf8_loop_join fuel b :
  (length b <= fuel)%nat →
  forallb (λ c : option (list Z), if c is Some _ then true else false) (utf8_loop fuel b) = true →
  mjoin (default [0xEF; 0xBF; 0xBD] <$> utf8_loop fuel b) = b.
Proof.
  revert b. induction fuel as [|fuel IH]; intros [|lead rest] Hf; cbn in *; try done; [lia|].
  destruct (continuations lead) as [ranges|]; [|done].
  destruct (_ =? _)%nat; cbn; [|done]. intros Ha.
  rewrite IH; [by rewrite take_drop|rewrite length_drop; lia|done].
Qed.

Lemma decode_replace_valid t : decode_strict t = Some t → decode_replace t = t.
Proof.
  unfold decode_strict, decode_replace, utf8_chars. destruct (forallb _ _) eqn:E; [|done].
  intros _. by apply utf8_loop_join.
Qed.

Lemma decode_strict_ascii t : ascii t = true → decode_strict t = Some t.
Proof.
  unfold decode_strict, utf8_chars. intros Ha.
  assert (forallb (λ c : option (list Z), if c is Some _ then true else false)
            (utf8_loop (length t) t) = true) as ->; [|done].
  induction t as [|b t IH]; [done|]. cbn in *. apply andb_true_iff in Ha as [[H0 H1]%andb_true_iff Ha].
  unfold continuations. rewrite H1. cbn. by apply IH.
Qed.

Lemma partition_eq_key k v : 61 ∉ k → partition_eq (k ++ 61 :: v) = (k, Some v).
Proof.
  induction k as [|x k IH]; intros Hk; [done|]. cbn. apply not_elem_of_cons in Hk as [Hx Hk].
  destruct (x =? 61) eqn:E; [lia|]. by rewrite IH.
Qed.

Lemma partition_eq_none k : 61 ∉ k → partition_eq k = (k, None).
Proof.
  induction k as [|x k IH]; intros Hk; [done|]. cbn. apply not_elem_of_cons in Hk as [Hx Hk].
  destruct (x =? 61) eqn:E; [lia|]. by rewrite IH.
Qed.

(** A key that a reader takes as it is written. *)
Definition plain_key (k : text) : Prop :=
  k ≠ [] ∧ 61 ∉ k ∧ ascii k = true ∧ map lower_byte k = k.

Definition plain_txt (txt : Txt) : Prop :=
  NoDup (dict_keys txt) ∧
  Forall (λ kv : text * option text,
            plain_key kv.1 ∧ ∀ v, kv.2 = Some v → decode_strict v = Some v) txt.

Lemma txt_item_plain kv out :
  plain_key kv.1 → (∀ v, kv.2 = Some v → decode_strict v = Some v) → kv.1 ∉ dict_keys out →
  txt_item (txt_bytes kv) out = out ++ [kv].
Proof.
  destruct kv as [k ov]. intros (Hk & Heq & Ha & Hl) Hv Hnew. cbn [fst snd] in *.
  unfold txt_item, txt_bytes. cbn [fst snd].
  assert (py_lower k = k) as Hlow by (unfold py_lower; by rewrite Ha).
  rewrite bool_decide_eq_false_2 by (destruct ov, k; cbn; done).
  assert (partition_eq (match ov with Some v => k ++ 61 :: v | None => k end) = (k, ov)) as Hp.
  { destruct ov; [by apply partition_eq_key|by apply partition_eq_none]. }
  destruct ov as [v|]; rewrite Hp, decode_strict_ascii, Hlow by done.
  all: destruct (dict_mem k out) eqn:E; [by apply dict_mem_spec in E|].
  all: cbn [fmap option_fmap option_map]; rewrite ?decode_replace_valid by (by apply Hv).
  all: apply dict_set_new; done.
Qed.

Lemma txt_loop_back txt bs fuel out :
  encode_all encode_item txt = inr bs → (length bs <= fuel)%nat →
  NoDup (dict_keys (out ++ txt)) →
  Forall (λ kv : text * option text,
            plain_key kv.1 ∧ ∀ v, kv.2 = Some v → decode_strict v = Some v) txt →
  txt_loop fuel bs out = inr (out ++ txt).
Proof.
  revert bs fuel out. induction txt as [|kv txt IH]; intros bs fuel out; cbn [encode_all].
  - intros [= <-] _ _ _. destruct fuel; cbn; by rewrite app_nil_r.
  - intros Henc Hf Hnd [[Hk Hv] Hrest]%Forall_cons. wire_inv Henc.
    unfold encode_item in Hb. destruct (255 <? _)%nat eqn:H255; [done|]. injection Hb as <-.
    destruct fuel as [|fuel]; [cbn in Hf; lia|]. cbn [txt_loop app].
    rewrite Nat2Z.id, (proj2 (Nat.ltb_ge _ _)) by (rewrite length_app; lia).
    rewrite drop_app_length, take_app_length.
    rewrite txt_item_plain; [|done|done|].
    2:{ intros Hin. unfold dict_keys in *. rewrite fmap_app in Hnd.
        apply NoDup_app in Hnd as (_ & Hd & _). apply (Hd _ Hin). by left. }
    rewrite (IH b0); [by rewrite <- app_assoc|done| | |done].
    + cbn in Hf. rewrite length_app in Hf. lia.
    + by rewrite <- app_assoc.
Qed.

Lemma txt_read_back txt bs : encode_txt txt = inr bs → txt ≠ [] → plain_txt txt → decode_txt bs = inr txt.
Proof.
  unfold encode_txt. intros Henc Hne [Hnd Hall]. wire_inv Henc.
  assert (b ≠ []) as Hb0.
  { destruct txt as [|kv txt]; [done|]. cbn [encode_all] in Hb. wire_inv Hb.
    unfold encode_item in Hb0. destruct (_ <? _)%nat; [done|]. by injection Hb0 as <-. }
  rewrite bool_decide_eq_false_2 by done. unfold decode_txt.
  by apply (txt_loop_back txt b (length b) []).
Qed.
End Txt.

(** ** The responder's answer *)

Lemma elem_of_add_new l w r : r ∈ add_new l w ↔ r ∈ w ∨ r ∈ l.
Proof.
  unfold add_new. revert w. induction l as [|x l IH]; intros w; cbn; [set_solver|].
  rewrite IH. case_bool_decide; set_solver.
Qed.

(** Only records of the responder's own are sent. *)
Lemma answers_are_own records qs : answers_for records qs ⊆ records.
Proof.
  unfold answers_for. destruct (foldl _ _ _); [set_solver|]. by intros r [_ ?]%list_elem_of_filter.
Qed.

Lemma answers_asked records qs r :
  r ∈ answers_for records qs →
  ∃ q r', q ∈ qs ∧ r' ∈ records ∧ asks_for q r' = true ∧ (r' = r ∨ is_ptr r' = true).
Proof.
  unfold answers_for.
  set (wanted := foldl _ [] qs).
  assert (∀ x, x ∈ wanted → ∃ q, q ∈ qs ∧ x ∈ records ∧ asks_for q x = true) as Hw.
  { assert (∀ w x, x ∈ foldl (λ w q, add_new (filter (λ r, asks_for q r = true) records) w) w qs →
              x ∈ w ∨ ∃ q, q ∈ qs ∧ x ∈ records ∧ asks_for q x = true) as Hgen.
    { induction qs as [|q qs IH]; intros w x Hx; [by left|]. apply IH in Hx as [Hx|(q' & ? & ?)].
      - apply elem_of_add_new in Hx as [?|[??]%list_elem_of_filter]; [by left|right].
        exists q. split; [by left|done].
      - right. exists q'. split; [by right|done]. }
    intros x [Hx%elem_of_nil|?]%Hgen; done. }
  destruct wanted as [|w0 wanted'] eqn:E; [by intros ?%elem_of_nil|]. rewrite <- E in *. clear E w0 wanted'.
  intros [Hr _]%list_elem_of_filter.
  destruct (existsb is_ptr wanted) eqn:Hp.
  - apply existsb_exists in Hp as (x & Hx & Hxp). apply elem_of_add_new in Hr as [Hr|_].
    + destruct (Hw r Hr) as (q & ? & ? & ?). exists q, r. eauto.
    + destruct (Hw x) as (q & ? & ? & ?); [by apply list_elem_of_In|]. exists q, x. eauto.
  - destruct (Hw r Hr) as (q & ? & ? & ?). exists q, r. eauto.
Qed.

(** A question that is answered by the PTR record brings every record. *)
Lemma answers_ptr records q r :
  r ∈ records → is_ptr r = true → (∀ r', r' ∈ records → is_ptr r' = true → asks_for q r' = true) →
  answers_for records [q] = records.
Proof.
  intros Hr Hp Hall. unfold answers_for. cbn [foldl].
  set (wanted := add_new _ []).
  assert (∀ x, x ∈ records → is_ptr x = true → x ∈ wanted) as Hw.
  { intros x Hx Hxp. apply elem_of_add_new. right. apply list_elem_of_filter. auto. }
  destruct wanted as [|w0 wanted'] eqn:E; [by apply Hw, elem_of_nil in Hr|].
  rewrite <- E in *. clear E w0 wanted'.
  assert (existsb is_ptr wanted = true) as ->.
  { apply existsb_exists. exists r. split; [|done]. apply list_elem_of_In. auto. }
  apply filter_all. intros x Hx.
  apply elem_of_add_new. destruct (is_ptr x) eqn:E; [left; auto|]. right. apply list_elem_of_filter. auto.
Qed.

(** ** An advertised server, read back *)

Section Found.
Context `{Python} (ad : ServiceAdvertisement) (tr : MulticastTransport) (a : list Z).

(** What discovery asks of a TXT record. *)
Record offers (txt : Txt) (port : Z) : Prop := {
  of_version : txt_value "txtvers" txt = Some (octets_of "1");
  of_dcap : non_empty (txt_value "dcap" txt) = true;
  of_level : non_empty (txt_value "level" txt) = true;
  of_rooted : rooted (default [] (txt_value "dcap" txt)) = true;
  of_port : https_port txt = TlsPort port;
}.

Lemma ad_answers rs q :
  ad_records ad tr [a] = inr rs → fold (q_name q) = fold (service_name ad tr) → q_type q = TYPE_PTR →
  answers_for rs [q] = rs.
Proof.
  unfold ad_records. intros Hrs Hq Ht. wire_inv Hrs.
  eapply answers_ptr; [by left|done|]. intros r'. cbn [app fmap list_fmap].
  rewrite !elem_of_cons, elem_of_nil. intros [->|[->|[->|[->|[]]]]] Hp; try done.
  - unfold asks_for. cbn. rewrite bool_decide_eq_true_2, Ht by done. done.
  - unfold is_ptr, address_record in Hp. cbn in Hp. by destruct (length a =? 16)%nat.
Qed.

Definition found_server (port : Z) : DiscoveredServer :=
  mkServer (format_name (instance_name ad tr)) (Literal a) port (ad_txt ad) (tr_name tr).

Lemma server_read_back rs ident qs bs port :
  ad_records ad tr [a] = inr rs → encode_response rs ident qs = inr bs →
  plain_txt (ad_txt ad) → offers (ad_txt ad) port →
  length a = 4%nat ∨ length a = 16%nat → is_link_local a = false →
  ∃ m, decode_message bs = inr m ∧ msg_ident m = ident ∧
    omap (ptr_instance (service_name ad tr) m) (msg_records m) = [instance_name ad tr] ∧
    ∀ h, server_from_records m (instance_name ad tr) tr h = Some (found_server port).
Proof.
  intros Hrs Hbs Htxt Hoff Hlen Hll.
  destruct (response_roundtrip _ _ _ _ Hbs) as (_ & m & Hm & Hi & Hall).
  exists m. split; [done|]. split; [done|]. clear Hm Hi Hbs.
  unfold ad_records in Hrs. wire_inv Hrs. rename b into ptr, b0 into srv, b1 into txt.
  cbn [app fmap list_fmap] in Hall.
  apply Forall2_cons_inv_l in Hall as (r1 & l1 & (C1 & D1 & P1 & _) & Hall & E1).
  apply Forall2_cons_inv_l in Hall as (r2 & l2 & (C2 & D2 & _ & S2) & Hall & ->).
  apply Forall2_cons_inv_l in Hall as (r3 & l3 & (C3 & D3 & _ & _) & Hall & ->).
  apply Forall2_cons_inv_l in Hall as (r4 & l4 & (C4 & D4 & _ & _) & Hall & ->).
  apply Forall2_nil_inv_l in Hall as ->.
  destruct C1 as [N1 T1 _ _ _ _], C2 as [N2 T2 _ _ _ _], C3 as [N3 T3 _ _ _ _], C4 as [N4 T4 _ _ _ _].
  cbn [dr_name dr_type dr_rdata address_record] in *.
  specialize (P1 _ Hb). specialize (S2 _ _ Hb0).
  assert (rr_type r4 = TYPE_A ∨ rr_type r4 = TYPE_AAAA) as T4'.
  { rewrite T4. destruct (length a =? 16)%nat; auto. }
  assert (∀ r, rr_type r ≠ TYPE_PTR → ptr_instance (service_name ad tr) m r = None) as Hno.
  { intros r Hr. unfold ptr_instance. by rewrite bool_decide_eq_false_2. }
  split.
  - rewrite E1. cbn [omap list_omap]. unfold ptr_instance at 1.
    rewrite !bool_decide_eq_true_2, P1 by (rewrite ?N1; done). cbn [andb].
    rewrite !Hno; [done|destruct T4' as [->| ->]; done|rewrite T3; done|rewrite T2; done].
  - intros h. unfold server_from_records.
    assert (first_record m (instance_name ad tr) TYPE_SRV = Some r2) as ->.
    { unfold first_record. rewrite E1, filter_cons_False by (intros [Hx _]; by rewrite T1 in Hx).
      by rewrite filter_cons_True by (rewrite N2; done). }
    assert (first_record m (instance_name ad tr) TYPE_TXT = Some r3) as ->.
    { unfold first_record. rewrite E1, !filter_cons_False by (intros [Hx _]; by rewrite ?T1, ?T2 in Hx).
      by rewrite filter_cons_True by (rewrite N3; done). }
    assert (address_for m (host_name ad tr) = Some a) as Hadr.
    { unfold address_for. rewrite E1, !filter_cons_False
        by (intros [[Hx|Hx] _]; rewrite ?T1, ?T2, ?T3 in Hx; done).
      rewrite filter_cons_True by (rewrite N4; done). rewrite filter_nil. cbn [omap list_omap].
      unfold usable_address, decode_address. rewrite D4, T4.
      replace (length a =? _)%nat with true by (destruct Hlen as [-> | ->]; done).
      rewrite Hll. destruct Hlen as [Hl|Hl].
      - by rewrite (filter_cons_False _ a), (filter_cons_True _ a) by lia.
      - by rewrite (filter_cons_True _ a) by lia. }
    rewrite S2, D3, (txt_read_back _ _ Hb1); [|intros Hn; destruct Hoff as [Hv _ _ _ _]; by rewrite Hn in Hv|done].
    destruct Hoff as [-> -> -> -> ->]. by rewrite bool_decide_eq_true_2, Hadr by done.
Qed.
End Found.

(** ** What discovery makes of the replies *)

(** A server discovery may hand out. *)
Record usable `{Python} (s : DiscoveredServer) : Prop := {
  us_port : 0 < ds_port s <= 65535;
  us_host : match ds_host s with Literal a => is_link_local a = false | Named _ => True end;
  us_version : txt_value "txtvers" (ds_txt s) = Some (octets_of "1");
  us_level : non_empty (txt_value "level" (ds_txt s)) = true;
  us_path : ∃ rest, dcap_path s = 47 :: rest ∧ head rest ≠ Some 47;
}.

Section Replies.
Context `{Python} (tr : MulticastTransport).
#[local] Abbreviation Inst := (name * DnsMessage * Host)%type.

Lemma https_port_range txt port : https_port txt = TlsPort port → 0 < port <= 65535.
Proof.
  unfold https_port. destruct (txt_key _ _) as [[[|b v]|]|]; try (intros [= <-]; lia).
  destruct (py_int _) as [p|]; [|done]. destruct (_ && _) eqn:E; [|done].
  apply andb_true_iff in E. intros [= <-]. lia.
Qed.

Lemma address_for_usable m target a : address_for m target = Some a → is_link_local a = false.
Proof.
  unfold address_for. set (found := omap _ _).
  assert (Forall (λ a, is_link_local a = false) found) as Hf.
  { apply Forall_forall. intros x Hx. apply list_elem_of_omap in Hx as (r & _ & Hr).
    unfold usable_address in Hr. destruct (decode_address m r) as [|y]; [done|].
    destruct (is_link_local y) eqn:E; [done|]. by injection Hr as <-. }
  rewrite Forall_forall in Hf. intros Ha%head_Some_elem_of. apply Hf.
  by apply elem_of_app in Ha as [[_ ?]%list_elem_of_filter|[_ ?]%list_elem_of_filter].
Qed.

Lemma rooted_path t : rooted t = true → ∃ rest, t = 47 :: rest ∧ head rest ≠ Some 47.
Proof.
  destruct t as [|b t]; [done|]. cbn [rooted]. intros [->%Z.eqb_eq Ht%negb_true_iff]%andb_true_iff.
  exists t. split; [done|]. by apply bool_decide_eq_false in Ht.
Qed.

Lemma server_usable m i h s :
  server_from_records m i tr h = Some s → usable s.
Proof.
  unfold server_from_records. intros Hs.
  destruct (first_record m i TYPE_SRV) as [srv|]; [|done]. destruct (first_record m i TYPE_TXT) as [t|]; [|done].
  destruct (decode_srv m srv) as [|[p target]]; [done|]. destruct (decode_txt _) as [|txt]; [done|].
  case_bool_decide as Hv; cbn [negb] in Hs; [|done].
  destruct (non_empty (txt_value "dcap" txt)) eqn:Hd, (non_empty (txt_value "level" txt)) eqn:Hl;
    cbn [andb negb] in Hs; try done.
  destruct (rooted _) eqn:Hr; cbn [negb] in Hs; [|done].
  destruct (https_port txt) as [| |port] eqn:Hp; [done..|].
  apply bind_Some in Hs as (host & Hh & [= <-]).
  split; cbn; [by eapply https_port_range| |done|done|].
  - destruct (address_for m target) as [a|] eqn:Ha.
    + injection Hh as <-. by eapply address_for_usable.
    + destruct h as [b|t']; cbn in Hh; [|by injection Hh as <-].
      destruct (is_link_local b) eqn:E; [done|]. destruct (is_unspecified b); [done|]. by injection Hh as <-.
  - unfold dcap_path. cbn. destruct (txt_value "dcap" txt) as [[|b t']|]; [done| |done].
    by apply rooted_path.
Qed.

(** ** The instances *)

Lemma note_prefix l out : ∃ more, foldl note_instance out l = out ++ more.
Proof.
  revert out. induction l as [|x l IH]; intros out; cbn; [exists []; by rewrite app_nil_r|].
  unfold note_instance at 2. case_bool_decide; [apply IH|].
  destruct (IH (out ++ [x])) as [more ->]. exists (x :: more). by rewrite <- app_assoc.
Qed.

Lemma note_elem l out x : x ∈ foldl note_instance out l → x ∈ out ∨ x ∈ l.
Proof.
  revert out. induction l as [|y l IH]; intros out; cbn; [by left|]. intros [Hx|Hx]%IH; [|set_solver].
  unfold note_instance in Hx. case_bool_decide; set_solver.
Qed.

Lemma note_nodup l out :
  NoDup ((λ y : Inst, fold y.1.1) <$> out) → NoDup ((λ y : Inst, fold y.1.1) <$> foldl note_instance out l).
Proof.
  revert out. induction l as [|y l IH]; intros out Hn; cbn; [done|]. apply IH.
  unfold note_instance. case_bool_decide as E; [done|]. rewrite fmap_app. apply NoDup_app.
  split; [done|]. split; [set_solver|apply NoDup_singleton].
Qed.

Lemma instances_names_NoDup ms service n :
  NoDup ((λ y : Inst, y.1.1) <$> take n (instances ms service)).
Proof.
  apply (NoDup_fmap_1 fold). rewrite <- list_fmap_compose.
  assert (NoDup ((λ y : Inst, fold y.1.1) <$> instances ms service)) as Hn
    by (apply note_nodup; constructor).
  rewrite <- (take_drop n (instances ms service)), fmap_app in Hn. by apply NoDup_app in Hn as [? _].
Qed.

(** An instance that nothing before it names is among the first sixteen when
    fewer than sixteen come before it. *)
Lemma instance_noted pre m h post service i :
  omap (ptr_instance service m) (msg_records m) = [i] →
  (length (instances pre service) < MAX_INSTANCES)%nat →
  fold i ∉ (λ y : Inst, fold y.1.1) <$> instances pre service →
  (i, m, h) ∈ take MAX_INSTANCES (instances (pre ++ (m, h) :: post) service).
Proof.
  intros Hi Hlen Hnew. unfold instances in *. rewrite bind_app, bind_cons, foldl_app, foldl_app.
  set (out := foldl note_instance [] (pre ≫= named_in service)) in *.
  assert (named_in service (m, h) = [(i, m, h)]) as -> by (unfold named_in; cbn [fst snd]; by rewrite Hi).
  cbn [foldl]. unfold note_instance at 2. rewrite bool_decide_eq_false_2 by done.
  destruct (note_prefix (post ≫= named_in service) (out ++ [(i, m, h)])) as [more ->].
  rewrite <- app_assoc, take_app_ge by lia.
  destruct (MAX_INSTANCES - length out)%nat eqn:E; [lia|]. cbn. set_solver.
Qed.

(** ** The servers of the two rounds *)

Lemma take_described_keeps l d i s :
  dict_get i d = Some s → dict_get i (foldl (take_described tr) d l) = Some s.
Proof.
  revert d. induction l as [|x l IH]; intros d Hd; cbn; [done|]. apply IH.
  unfold take_described. destruct (described tr x); [|done]. destruct (dict_mem x.1.1 d) eqn:E; [done|].
  rewrite dict_get_set_ne; [done|]. intros Heq. subst i. unfold dict_mem in E. by rewrite Hd in E.
Qed.

Lemma take_described_get l d x s :
  NoDup ((λ y : Inst, y.1.1) <$> l) → x ∈ l → described tr x = Some s → dict_get x.1.1 d = None →
  dict_get x.1.1 (foldl (take_described tr) d l) = Some s.
Proof.
  revert d. induction l as [|y l IH]; intros d Hn Hx Hs Hd; [by apply elem_of_nil in Hx|].
  cbn. cbn in Hn. apply NoDup_cons in Hn as [Hy Hn].
  apply elem_of_cons in Hx as [->|Hx].
  - apply take_described_keeps. unfold take_described. rewrite Hs.
    unfold dict_mem. rewrite Hd. apply dict_get_set_eq.
  - apply IH; [done..|]. unfold take_described. destruct (described tr y); [|done].
    destruct (dict_mem _ _); [done|]. rewrite dict_get_set_ne; [done|].
    intros Heq. apply Hy. apply list_elem_of_fmap. eauto.
Qed.

Lemma take_described_usable l d :
  (∀ i s, dict_get i d = Some s → usable s) →
  ∀ i s, dict_get i (foldl (take_described tr) d l) = Some s → usable s.
Proof.
  revert d. induction l as [|x l IH]; intros d Hd; cbn; [done|]. apply IH.
  unfold take_described. destruct (described tr x) as [s|] eqn:E; [|done].
  destruct (dict_mem _ _); [done|]. intros i t. destruct (decide (i = x.1.1)) as [->|Hne].
  - rewrite dict_get_set_eq. intros [= <-]. by eapply server_usable.
  - rewrite dict_get_set_ne by done. apply Hd.
Qed.

Lemma resolved_spec l ms i s :
  dict_get i (resolved tr l ms) = Some s → i ∈ l ∧ usable s.
Proof.
  unfold resolved.
  assert (∀ d, (∀ s, dict_get i d = Some s → i ∈ l ∧ usable s) → ∀ l', l' ⊆ l →
            dict_get i (foldl (take_resolved tr ms) d l') = Some s → i ∈ l ∧ usable s) as Hgen.
  { intros d Hd l'. revert d Hd. induction l' as [|j l' IH]; intros d Hd Hsub; cbn; [apply Hd|].
    apply IH; [|set_solver]. intros t. unfold take_resolved.
    destruct (head _) as [s'|] eqn:E; [|apply Hd]. destruct (decide (i = j)) as [->|Hne].
    - rewrite dict_get_set_eq. intros [= <-]. split; [set_solver|].
      apply head_Some_elem_of, list_elem_of_omap in E as (mh & _ & Hs). by eapply server_usable.
    - rewrite dict_get_set_ne by done. apply Hd. }
  by apply Hgen.
Qed.

Lemma update_get (more d : dict name DiscoveredServer) i :
  dict_get i (foldl (λ d kv, dict_set kv.1 kv.2 d) d more) =
  match dict_get i (foldl (λ d kv, dict_set kv.1 kv.2 d) [] more) with Some s => Some s | None => dict_get i d end.
Proof.
  induction more as [|[k v] more IH] using rev_ind; [done|].
  rewrite !foldl_app. cbn. destruct (decide (i = k)) as [->|Hne].
  - by rewrite !dict_get_set_eq.
  - by rewrite !dict_get_set_ne.
Qed.
End Replies.

(** ** The search *)

Lemma fmap_elem_inj {A B} (f : A → B) l x y : NoDup (f <$> l) → x ∈ l → y ∈ l → f x = f y → x = y.
Proof.
  intros Hn [i Hi]%list_elem_of_lookup [j Hj]%list_elem_of_lookup Hf.
  assert (i = j) as ->; [|by rewrite Hi in Hj; injection Hj].
  apply (NoDup_lookup (f <$> l) i j (f x)); [done| |]; rewrite list_lookup_fmap, ?Hi, ?Hj; cbn; by rewrite ?Hf.
Qed.

(** What is known of the network: identifiers are below 65536, replies are bytes. *)
Class NetworkLaws (S : Type) `{Network S} : Prop := {
  randbelow_range : ∀ s, 0 <= (randbelow s).1 < 65536;
  exchange_bytes : ∀ tr qs t s, Forall (λ r : list Z * Host, Forall is_byte r.1) (exchange tr qs t s).1;
}.

Section Search.
Context `{Python} {W : Type} `{NetworkLaws W}.
#[local] Abbreviation M A := (Comp WireError W A).
#[local] Abbreviation Inst := (name * DnsMessage * Host)%type.

(** Every outcome of a computation. *)
Definition gives {A} (m : M A) (P : A → Prop) (E : WireError → Prop) : Prop :=
  ∀ s, match (m s).1 with inr a => P a | inl e => E e end.

Lemma gives_ret {A} (a : A) (P : A → Prop) E : P a → gives (ret a) P E.
Proof. by intros ? s. Qed.

Lemma gives_bind {A B} (m : M A) (f : A → M B) P Q E :
  gives m P E → (∀ a, P a → gives (f a) Q E) → gives (bind m f) Q E.
Proof.
  intros Hm Hf s. unfold bind. specialize (Hm s). destruct (m s) as [[e|a] s']; cbn in *; [done|].
  by apply Hf.
Qed.

Lemma gives_mono {A} (m : M A) (P P' : A → Prop) (E E' : WireError → Prop) :
  gives m P E → (∀ a, P a → P' a) → (∀ e, E e → E' e) → gives m P' E'.
Proof. intros Hm HP HE s. specialize (Hm s). destruct (m s).1; auto. Qed.

Lemma gives_map_each {A B} (l : list A) (f : A → M B) (Q : B → Prop) E :
  (∀ x, x ∈ l → gives (f x) Q E) → gives (map_each l f) (Forall Q) E.
Proof.
  induction l as [|x l IH]; intros Hf; cbn [map_each]; [by apply gives_ret|].
  eapply gives_bind; [apply Hf; by left|]. intros y Hy.
  eapply gives_bind; [apply IH; intros z Hz; apply Hf; by right|]. intros ys Hys.
  apply gives_ret. by constructor.
Qed.

(** A name that was decoded fails to encode only by its length. *)
Lemma encode_good n : good_name n → encode_name n = inl NameLength ∨ ∃ bs, encode_name n = inr bs.
Proof.
  intros [_ Hl]. unfold encode_name.
  assert (∃ out, encode_labels n = inr out) as [out ->].
  { induction n as [|l n IH]; cbn [encode_labels]; [eauto|]. apply Forall_cons in Hl as [Hl Hn].
    rewrite (proj2 (Nat.ltb_lt _ _)), (proj2 (Nat.leb_le _ _)) by lia.
    destruct (IH Hn) as [o ->]. cbn. eauto. }
  cbn [mbind wire_bind]. destruct (_ <? _)%nat; eauto.
Qed.

Lemma query_encodes n qtype ident bs unicast :
  encode_name n = inr bs → 0 <= ident < 65536 → 0 <= qtype < 65536 →
  ∃ q, encode_query n qtype ident unicast = inr q.
Proof.
  intros Hn Hi Ht. unfold encode_query.
  assert (∀ z, 0 <= z < 65536 → ∃ b, to_bytes 2 z = inr b) as Hz.
  { intros z Hz. unfold to_bytes. rewrite (proj2 (Z.leb_le _ _)), (proj2 (Z.ltb_lt _ _)) by (cbn; lia).
    cbn. eauto. }
  destruct (Hz ident Hi) as [? ->], (Hz qtype Ht) as [? ->]. cbn. rewrite Hn. cbn.
  destruct unicast; cbn; eauto.
Qed.

Lemma new_ident_gives : gives new_ident (λ i, 0 <= i < 65536) (λ _, False).
Proof. intros s. unfold new_ident. pose proof (randbelow_range s). by destruct (randbelow s). Qed.

Lemma ask_gives tr qs t :
  gives (ask_network tr qs t) (λ l, Forall (λ r : list Z * Host, Forall is_byte r.1) l) (λ _, False).
Proof. intros s. unfold ask_network. pose proof (exchange_bytes tr qs t s). by destruct (exchange tr qs t s). Qed.

(** Too long a name, among those the second round would ask for. *)
Definition too_long (l : list name) (e : WireError) : Prop :=
  e = NameLength ∧ ∃ i, i ∈ l ∧ encode_name i = inl NameLength.

Lemma any_query_gives l i :
  i ∈ l → good_name i → gives (any_query i) (λ _, True) (too_long l).
Proof.
  intros Hi Hg. eapply gives_bind; [eapply gives_mono; [apply new_ident_gives|done|done]|].
  intros ident Hr. cbn in Hr.
  destruct (encode_good i Hg) as [Hn|[bs Hn]].
  - intros s. unfold encode_query. destruct (query_encodes [] TYPE_ANY ident [0] true) as [q Hq]; [done..|].
    unfold encode_query in Hq. destruct (to_bytes 2 ident); [done|]. cbn in *. rewrite Hn. cbn. split; eauto.
  - destruct (query_encodes i TYPE_ANY ident bs true) as [q ->]; [done..|]. by intros s.
Qed.

Lemma resolved_nodup tr l ms : dict_wf (resolved tr l ms).
Proof.
  unfold resolved. assert (dict_wf ([] : dict name DiscoveredServer)) as Hd by constructor.
  revert Hd. generalize ([] : dict name DiscoveredServer). induction l as [|i l IH]; intros d Hd; [done|].
  cbn. apply IH. unfold take_resolved. destruct (head _); [|done]. by apply dict_set_wf.
Qed.

Lemma resolve_gives tr l t :
  Forall good_name l →
  gives (resolve_instances tr l t) (λ d, ∀ i s, (i, s) ∈ d → i ∈ l ∧ usable s) (too_long l).
Proof.
  intros Hl. unfold resolve_instances. destruct (Qle_bool t 0).
  { apply gives_ret. by intros i s ?%elem_of_nil. }
  eapply gives_bind.
  { apply gives_map_each. intros i Hi. apply any_query_gives; [done|]. by eapply Forall_forall. }
  intros qs _. eapply gives_bind; [eapply gives_mono; [apply ask_gives|done|done]|].
  intros replies _. apply gives_ret. intros i s Hi. eapply resolved_spec, dict_elem_get; [|done].
  apply resolved_nodup.
Qed.

Lemma updated_elem (more : dict name DiscoveredServer) i s :
  dict_get i (foldl (λ d kv, dict_set kv.1 kv.2 d) [] more) = Some s → (i, s) ∈ more.
Proof.
  induction more as [|[k v] more IH] using rev_ind; [done|]. rewrite foldl_app. cbn.
  destruct (decide (i = k)) as [->|Hne].
  - rewrite dict_get_set_eq. intros [= ->]. set_solver.
  - rewrite dict_get_set_ne by done. set_solver.
Qed.

(** The second round: usable servers, and every server the first round described. *)
Lemma settle_gives tr t (found : list Inst) :
  NoDup ((λ x : Inst, x.1.1) <$> found) → Forall (λ x : Inst, good_name x.1.1) found →
  gives (settle tr t found)
    (λ l, Forall usable l ∧ (length l <= length found)%nat ∧
          ∀ x s, x ∈ found → described tr x = Some s → s ∈ l)
    (too_long ((λ x : Inst, x.1.1) <$> found)).
Proof.
  intros Hnd Hg. unfold settle. set (missing := unresolved tr found).
  assert (missing ⊆ ((λ x : Inst, x.1.1) <$> found)) as Hsub.
  { intros i Hi. apply list_elem_of_fmap in Hi as (x & -> & [_ Hx]%list_elem_of_filter).
    apply list_elem_of_fmap. eauto. }
  eapply (gives_bind _ _ (λ d, ∀ i s, (i, s) ∈ d → i ∈ missing ∧ usable s)).
  { case_bool_decide; [apply gives_ret; by intros i s ?%elem_of_nil|].
    eapply gives_mono; [apply resolve_gives|done|].
    - apply Forall_forall. intros i Hi%Hsub. apply list_elem_of_fmap in Hi as (x & -> & Hx).
      by eapply Forall_forall in Hg.
    - intros e (-> & i & Hi & Hn). split; [done|]. exists i. auto. }
  intros more Hmore. apply gives_ret.
  set (d := foldl (take_described tr) [] found). set (d' := foldl _ d more).
  assert (∀ i s, dict_get i d' = Some s → usable s) as Hus.
  { intros i s. unfold d'. rewrite update_get. destruct (dict_get i (foldl _ [] more)) as [s'|] eqn:E.
    - intros [= <-]. by apply updated_elem, Hmore in E as [_ ?].
    - by apply take_described_usable. }
  split; [|split].
  - apply Forall_forall. intros s Hs. apply list_elem_of_omap in Hs as (x & _ & Hx). by eapply Hus.
  - assert (∀ (f : Inst → option DiscoveredServer) l, length (omap f l) <= length l)%nat as Hom; [|apply Hom].
    intros f l. induction l as [|x l IH]; cbn; [done|]. destruct (f x); cbn; lia.
  - intros x s Hx Hs. apply list_elem_of_omap. exists x. split; [done|]. unfold d'. rewrite update_get.
    destruct (dict_get x.1.1 (foldl _ [] more)) as [s'|] eqn:E; [|by apply take_described_get].
    apply updated_elem, Hmore in E as [Hm _]. exfalso.
    apply list_elem_of_fmap in Hm as (y & Hy & [[Hn _] Hy']%list_elem_of_filter).
    assert (x = y) as ->; [|by rewrite Hs in Hn]. by apply (fmap_elem_inj _ _ _ _ Hnd).
Qed.
Lemma named_good replies idents service x :
  Forall (λ r : list Z * Host, Forall is_byte r.1) replies →
  x ∈ instances (decode_all replies idents) service → good_name x.1.1.
Proof.
  intros Hb [Hx%elem_of_nil|Hx]%note_elem; [done|].
  apply list_elem_of_bind in Hx as ([m h] & Hx & Hm).
  apply list_elem_of_omap in Hm as ([data h'] & Hd & Hm). eapply Forall_forall in Hb; [|done]. cbn in Hb.
  unfold decode_reply in Hm. cbn in Hm. destruct (decode_message data) as [|m'] eqn:E; [done|].
  case_bool_decide; [|done]. injection Hm as -> ->.
  assert (msg_raw m = data) as Hraw.
  { unfold decode_message in E. destruct (_ <? _)%nat; [done|]. cbv zeta in E. by wire_inv E. }
  apply list_elem_of_fmap in Hx as (i & -> & Hi). cbn. apply list_elem_of_omap in Hi as (r & _ & Hi).
  cbn [fst] in Hi. unfold ptr_instance in Hi. destruct (_ && _); [|done].
  destruct (decode_ptr m r) as [|i'] eqn:Ep; [done|]. injection Hi as ->.
  unfold decode_ptr, read_rdata_name in Ep.
  apply wire_bind_inr in Ep as ([n e] & Hr & Ep). rewrite Hraw in Hr.
  pose proof (read_name_bounded data (rr_offset r) Hb) as Hn. rewrite Hr in Hn.
  destruct (_ <? _)%nat; [done|]. injection Ep as <-. by destruct Hn as [? _].
Qed.

Lemma encode_labels_total n :
  Forall (λ l : list Z, 0 < length l <= 63)%nat n →
  ∃ out, encode_labels n = inr out ∧ length out = S (sum_list ((S ∘ length) <$> n)).
Proof.
  induction n as [|l n IH]; intros Hn; [by eexists|]. apply Forall_cons in Hn as [Hl Hn].
  destruct (IH Hn) as (out & Ho & Hlen). cbn [encode_labels].
  rewrite (proj2 (Nat.ltb_lt _ _)), (proj2 (Nat.leb_le _ _)), Ho by lia. cbn [mbind wire_bind andb].
  eexists. split; [done|]. cbn. rewrite length_app, Hlen. cbn. lia.
Qed.

Lemma service_encodes tr subtype :
  label_fits (tr_domain tr) = true →
  (∀ st, subtype = Some st → validate_subtype st = inr st) →
  ∃ bs, encode_name (service_labels tr subtype) = inr bs.
Proof.
  unfold label_fits. intros [Hd0%Nat.ltb_lt Hd%Nat.leb_le]%andb_true_iff Hst. unfold encode_name.
  destruct (encode_labels_total (service_labels tr subtype)) as (out & -> & Hlen).
  { unfold service_labels. destruct subtype as [st|]; repeat apply Forall_cons_2; try (cbn; lia); try done.
    specialize (Hst st eq_refl). unfold validate_subtype in Hst. destruct st as [|b st]; [done|].
    destruct (b =? 95); [done|]. destruct (_ || _); [done|]. destruct (63 <? _)%nat eqn:E; [done|].
    apply Nat.ltb_ge in E. cbn [length] in *. lia. }
  cbn [mbind wire_bind]. rewrite Hlen, (proj2 (Nat.ltb_ge _ _)); [eauto|].
  unfold service_labels. destruct subtype as [st|]; cbn.
  2: lia.
  assert (length st <= 63)%nat; [|lia].
  specialize (Hst st eq_refl). unfold validate_subtype in Hst. destruct st as [|b st]; [cbn; lia|].
  destruct (b =? 95); [done|]. destruct (_ || _); [done|]. destruct (63 <? _)%nat eqn:E; [done|].
  by apply Nat.ltb_ge in E.
Qed.

Lemma validate_same st st' : validate_subtype st = inr st' → st' = st.
Proof.
  unfold validate_subtype. destruct st as [|b st]; [done|].
  destruct (b =? 95); [done|]. destruct (_ || _); [done|]. destruct (63 <? _)%nat; [done|]. congruence.
Qed.

(** The errors of one search. *)
Definition search_error (subtype : option text) (e : WireError) : Prop :=
  e = NameLength ∨ ∃ st, subtype = Some st ∧ validate_subtype st = inl e.

Lemma discover_servers_gives tr timeout subtype :
  label_fits (tr_domain tr) = true →
  gives (discover_servers tr timeout subtype)
    (λ l, Forall usable l ∧ (length l <= MAX_INSTANCES)%nat) (search_error subtype).
Proof.
  intros Hd. unfold discover_servers.
  eapply (gives_bind _ _ (λ _, ∀ st, subtype = Some st → validate_subtype st = inr st)).
  { intros s. destruct subtype as [st|]; cbn; [|done]. unfold bind, of_wire.
    destruct (validate_subtype st) as [e|st'] eqn:E; cbn; [right; eauto|].
    intros ? [= <-]. rewrite E. by rewrite (validate_same _ _ E). }
  intros _ Hst. destruct (service_encodes tr subtype Hd Hst) as [sb Hsb].
  eapply gives_bind; [eapply gives_mono; [apply new_ident_gives|done|done]|]. intros ident Hi. cbn in Hi.
  destruct (query_encodes (service_labels tr subtype) TYPE_PTR ident sb true) as [q ->]; [done..|].
  eapply (gives_bind _ _ (λ _, True)); [by intros s|]. intros q' _.
  eapply gives_bind; [eapply gives_mono; [apply ask_gives|done|done]|]. intros replies Hr. cbn in Hr.
  eapply gives_mono; [apply settle_gives| |].
  - apply instances_names_NoDup.
  - apply Forall_forall. intros x Hx. eapply (named_good replies [ident]); [done|].
    by apply elem_of_take in Hx as (k & Hx%list_elem_of_lookup_2 & _).
  - intros l (Hu & Hlen & _). split; [done|]. etrans; [exact Hlen|]. rewrite length_take. lia.
  - intros e [-> _]. by left.
Qed.
Lemma note_server_ok d s :
  dict_wf d → (∀ k t, (k, t) ∈ d → k = (ds_host t, ds_port t) ∧ usable t) → usable s →
  dict_wf (note_server d s) ∧
  (∀ k t, (k, t) ∈ note_server d s → k = (ds_host t, ds_port t) ∧ usable t).
Proof.
  intros Hw Hd Hs. unfold note_server. destruct (dict_mem _ d) eqn:E; [done|].
  split; [by apply dict_set_wf|]. intros k t Hk. apply dict_set_new_elem in Hk as [?|[-> ->]]; [auto|done|].
  intros Hin. apply dict_mem_spec in Hin. congruence.
Qed.

Lemma note_servers_ok l d :
  dict_wf d → (∀ k t, (k, t) ∈ d → k = (ds_host t, ds_port t) ∧ usable t) → Forall usable l →
  let d' := foldl note_server d l in
  dict_wf d' ∧ ∀ k t, (k, t) ∈ d' → k = (ds_host t, ds_port t) ∧ usable t.
Proof.
  revert d. induction l as [|s l IH]; intros d Hw Hd Hl; [done|]. apply Forall_cons in Hl as [Hs Hl].
  destruct (note_server_ok d s) as [??]; [done..|]. by apply IH.
Qed.

Definition endpoint (s : DiscoveredServer) : Host * Z := (ds_host s, ds_port s).

Lemma discover_all_gives trs timeout subtype :
  Forall (λ tr, label_fits (tr_domain tr) = true) trs →
  gives (discover_all trs timeout subtype)
    (λ l, Forall usable l ∧ NoDup (endpoint <$> l)) (search_error subtype).
Proof.
  intros Ht. unfold discover_all. eapply gives_bind.
  { apply gives_map_each. intros tr Htr. apply discover_servers_gives. by eapply Forall_forall in Ht. }
  intros answers Ha. apply gives_ret.
  destruct (note_servers_ok (mjoin answers) []) as [Hw Hd].
  - constructor.
  - by intros k t ?%elem_of_nil.
  - clear -Ha. induction Ha as [|l ls [Hl _] _ IH]; [constructor|]. cbn. by apply Forall_app.
  - set (d := foldl _ [] _) in *. unfold dict_values. split.
    + apply Forall_forall. intros s Hs. apply list_elem_of_fmap in Hs as ([k t] & -> & Hk). by apply Hd in Hk as [_ ?].
    + replace (endpoint <$> d.*2) with (dict_keys d); [done|]. unfold dict_keys.
      rewrite <- list_fmap_compose. apply list_fmap_ext. intros j [k t] Hk. cbn.
      by apply list_elem_of_lookup_2, Hd in Hk as [-> _].
Qed.

(** The errors of a search for a server: a name too long, or a subtype or an
    SFDI that cannot be asked for. *)
Definition client_error (sfdi : option N) (subtype : option text) (e : WireError) : Prop :=
  e = NameLength ∨ (∃ st, subtype = Some st ∧ validate_subtype st = inl e) ∨
  ∃ id, sfdi = Some id ∧
    (edev_subtype id = inl e ∨ ∃ st, edev_subtype id = inr st ∧ validate_subtype st = inl e).

Lemma transports_fit selection trs :
  transports_for selection = Some trs → Forall (λ tr, label_fits (tr_domain tr) = true) trs.
Proof.
  unfold transports_for. case_bool_decide; [by intros [= <-]|].
  case_bool_decide; [intros [= <-]; by repeat constructor|].
  destruct (dict_get selection TRANSPORTS) as [t|] eqn:E; [|done]. intros [= <-].
  apply dict_get_elem in E. unfold TRANSPORTS in E. rewrite !elem_of_cons, elem_of_nil in E.
  destruct E as [[= _ ->]|[[= _ ->]|[]]]; by repeat constructor.
Qed.

(** C37: Whatever datagrams anyone on the network sends, the search for a server
    ends, and a server it returns can be used: a TLS port between 1 and 65535
    from the TXT record, an address that is not link-local, the version of the
    TXT record this client reads, a schema level, and a DeviceCapability path
    that is rooted at the server and cannot name another one; no endpoint comes
    twice.  When it fails, the name of some instance was too long to ask for, or
    the configured subtype or the client's own SFDI cannot be asked for. *)
Theorem discovered_servers_usable selection trs sfdi subtype timeout (w : W) :
  transports_for selection = Some trs →
  match (discover_for_client trs sfdi subtype timeout w).1 with
  | inr servers => Forall usable servers ∧ NoDup (endpoint <$> servers)
  | inl e => client_error sfdi subtype e
  end.
Proof.
  intros Ht%transports_fit.
  assert (∀ st, (∀ e, search_error st e → client_error sfdi subtype e) →
            gives (discover_all trs timeout st)
              (λ l, Forall usable l ∧ NoDup (endpoint <$> l)) (client_error sfdi subtype)) as Hall.
  { intros st Hst. eapply gives_mono; [by apply discover_all_gives|done|done]. }
  revert w. change (gives (discover_for_client trs sfdi subtype timeout)
    (λ l, Forall usable l ∧ NoDup (endpoint <$> l)) (client_error sfdi subtype)).
  unfold discover_for_client, client_error in *. destruct subtype as [st|]; [|destruct sfdi as [id|]].
  - apply Hall. intros e [->|(? & [= <-] & ?)]; [by left|]. right; left. eauto.
  - destruct (edev_subtype id) as [e|own] eqn:E; [intros s; cbn; right; right; eauto|].
    eapply (gives_bind _ _ (λ st, st = own)); [by intros s|]. intros ? ->.
    eapply gives_bind.
    + apply Hall. intros e [->|(? & [= <-] & ?)]; [by left|]. right; right. eauto 6.
    + intros [|s l] Hl; [|by apply gives_ret]. apply Hall. intros e [->|(? & ? & ?)]; [by left|done].
  - apply Hall. intros e [->|(? & ? & ?)]; [by left|done].
Qed.
Lemma query_ident n qtype ident unicast q :
  encode_query n qtype ident unicast = inr q → u_int q 0 2 = ident.
Proof.
  unfold encode_query. intros Hq. wire_inv Hq.
  apply (u_int_at _ [] b (b0 ++ b1 ++ b2 ++ b2 ++ b2 ++ b3 ++ b4 ++ b5)); [by rewrite <- !app_assoc|done|done].
Qed.

(** The responder answers discovery's query with all its records, under the
    identifier of the query. *)
Lemma responder_answers ad tr a rs b ident query source_port now reply b' :
  ad_service ad = (octets_of "_smartenergy", octets_of "_tcp") →
  ad_records ad tr [a] = inr rs → bd_records b = rs → source_port ≠ tr_port (bd_transport b) →
  encode_query (service_labels tr None) TYPE_PTR ident true = inr query →
  handle query source_port now b = (inr (Some reply), b') →
  ∃ qs, encode_response rs ident qs = inr (rp_payload reply) ∧ rp_to_source reply = true.
Proof.
  intros Hsv Hrs Hb Hport Hq. unfold handle. rewrite (query_roundtrip _ _ _ _ _ Hq), Hb.
  assert (service_name ad tr = service_labels tr None) as Hsn by (unfold service_name; by rewrite Hsv).
  rewrite (ad_answers ad tr a rs) by (done || by rewrite Hsn).
  destruct rs as [|r rs'] eqn:E; [unfold ad_records in Hrs; wire_inv Hrs; done|]. rewrite <- E in *.
  rewrite (query_ident _ _ _ _ _ Hq), (proj2 (Z.eqb_neq _ _)) by done. cbn [negb orb].
  destruct (may_respond true now b) as [may b1]. destruct may; cbn [negb]; [|done].
  intros [= Hr _]. apply wire_bind_inr in Hr as (p & Hp & [= <-]). eauto.
Qed.

(** C36: A server on the network is found.  When a responder that advertises an
    IEEE 2030.5 service (with a TXT record of plain keys that offers TLS at
    [port]) at an address that is not link-local answers discovery's query, and
    the answer arrives among whatever other replies, of which those before it
    name fewer than sixteen instances and not this one, and no reply names an
    instance whose name cannot be asked for, then discovery returns and the
    server is in the result, with the advertised address, the port and path of
    its TXT record and its instance name. *)
Theorem advertised_server_found ad tr a rs b ident query source_port now reply b' timeout w w1 w2
    pre src post port :
  label_fits (tr_domain tr) = true →
  ad_service ad = (octets_of "_smartenergy", octets_of "_tcp") →
  plain_txt (ad_txt ad) → offers (ad_txt ad) port →
  length a = 4%nat ∨ length a = 16%nat → is_link_local a = false →
  ad_records ad tr [a] = inr rs → bd_records b = rs → source_port ≠ tr_port (bd_transport b) →
  randbelow w = (ident, w1) →
  encode_query (service_labels tr None) TYPE_PTR ident true = inr query →
  handle query source_port now b = (inr (Some reply), b') →
  let replies := pre ++ (rp_payload reply, src) :: post in
  exchange tr [query] (timeout * 2 / 3) w1 = (replies, w2) →
  let before := instances (decode_all pre [ident]) (service_labels tr None) in
  (length before < MAX_INSTANCES)%nat →
  fold (instance_name ad tr) ∉ (λ x : Inst, fold x.1.1) <$> before →
  (∀ x, x ∈ instances (decode_all replies [ident]) (service_labels tr None) →
        ∃ bs, encode_name x.1.1 = inr bs) →
  ∃ servers w', discover_servers tr timeout None w = (inr servers, w') ∧
    found_server ad tr a port ∈ servers.
Proof.
  intros Hfit Hsv Htxt Hoff Hlen Hll Hrs Hb Hport Hr Hq Hh replies Hx before Hbefore Hnew Henc.
  destruct (responder_answers ad tr a rs b ident query source_port now reply b') as (qs & Hbs & _); [done..|].
  destruct (server_read_back ad tr a rs ident qs _ port Hrs Hbs) as (m & Hm & Hi & Hptr & Hs); [done..|].
  assert (service_name ad tr = service_labels tr None) as Hsn by (unfold service_name; by rewrite Hsv).
  rewrite Hsn in Hptr.
  unfold discover_servers, bind, ret, new_ident, of_wire, ask_network. cbv beta iota zeta.
  rewrite Hr. cbv beta iota zeta. rewrite Hq. cbv beta iota zeta.  unfold ret. cbv beta iota zeta.
  rewrite Hx. cbv beta iota zeta.
  set (found := take MAX_INSTANCES _).
  pose proof (exchange_bytes tr [query] (timeout * 2 / 3)%Q w1) as Hbytes. rewrite Hx in Hbytes.
  assert ((instance_name ad tr, m, src) ∈ found) as Hin.
  { unfold found, replies, decode_all. rewrite omap_app. cbn [omap list_omap].
    unfold decode_reply at 2. cbn [fst snd]. rewrite Hm, bool_decide_eq_true_2 by (rewrite Hi; by left).
    by apply instance_noted. }
  assert (∀ x, x ∈ found → x ∈ instances (decode_all replies [ident]) (service_labels tr None)) as Hsub.
  { intros x Hf. by apply elem_of_take in Hf as (k & Hf%list_elem_of_lookup_2 & _). }
  assert (gives (settle tr (timeout - timeout * 2 / 3) found)
            (λ l, Forall usable l ∧ (length l <= length found)%nat ∧
                  ∀ x s, x ∈ found → described tr x = Some s → s ∈ l)
            (too_long ((λ x : Inst, x.1.1) <$> found))) as Hset.
  { apply settle_gives; [apply instances_names_NoDup|]. apply Forall_forall. intros x Hf%Hsub.
    by eapply named_good. }
  specialize (Hset w2). destruct (settle _ _ found w2) as [[e|l] w']; cbn in Hset.
  - destruct Hset as (_ & i & Hf & Hn). apply list_elem_of_fmap in Hf as (x & -> & Hf%Hsub).
    destruct (Henc x Hf) as [bs He]. by rewrite He in Hn.
  - exists l, w'. split; [done|]. destruct Hset as (_ & _ & Hall). by eapply Hall; [exact Hin|apply Hs].
Qed.
End Search.

(** ** The rate of the responder *)

(** A message the responder sends: when, whether it answers a query (or is an
    announcement), through which binding, and what. *)
Record Sending := mkSending { sd_at : Q; sd_answer : bool; sd_binding : nat; sd_reply : Reply }.

Definition event_at (e : ServeEvent) : Q := match e with AtTop now | Datagram _ _ _ now => now end.
Definition is_query (e : ServeEvent) : bool := match e with AtTop _ => false | Datagram _ _ _ _ => true end.
Definition sending (e : ServeEvent) (p : nat * Reply) : Sending := mkSending (event_at e) (is_query e) p.1 p.2.

(** The responder over a sequence of turns and datagrams, each of any of its
    bindings: what it sends.  An exception ends the loop. *)
Fixpoint serve (r : Responder) (l : list ServeEvent) : list Sending :=
  match l with
  | [] => []
  | e :: l' =>
      match serve_event e r with
      | (inl _, _) => []
      | (inr out, r') => (sending e <$> out) ++ serve r' l'
      end
  end.

Definition in_span (t now : Q) : bool := Qle_bool t now && negb (Qle_bool (t + 1) now).

(** What goes out through one binding; the answers to single hosts in the second
    from [t]. *)
Definition through_binding (i : nat) (l : list Sending) : list Sending := filter (λ x, sd_binding x = i) l.

Definition to_host (t : Q) (x : Sending) : Prop :=
  in_span t (sd_at x) = true ∧ rp_to_source (sd_reply x) = true.
#[local] Instance to_host_dec t x : Decision (to_host t x) := and_dec _ _.
Definition unicast_in (t : Q) (l : list Sending) : Z := Z.of_nat (length (filter (to_host t) l)).

(** What [handle] does to the budget of a binding. *)
Lemma handle_budget payload port now b r b' :
  handle payload port now b = (r, b') →
  b' = b ∧ (∀ x, r ≠ inr (Some x)) ∨
  ∃ unicast, b' = (may_respond unicast now b).2 ∧
    (∀ x, r = inr (Some x) → rp_to_source x = unicast ∧ (may_respond unicast now b).1 = true).
Proof.
  unfold handle. destruct (decode_questions payload) as [[]|qs];
    try (intros [= <- <-]; left; split; [done|congruence]).
  destruct (answers_for (bd_records b) qs) as [|r0 rest]; [intros [= <- <-]; left; by split|].
  set (unicast := _ || _). intros Hr. right. exists unicast.
  destruct (may_respond unicast now b) as [may b1]. destruct may; cbn [negb] in *.
  - injection Hr as <- <-. split; [done|]. intros x Hx. apply wire_bind_inr in Hx as (p & _ & [= <-]). done.
  - injection Hr as <- <-. by split.
Qed.

Definition sorted_times (l : list ServeEvent) : Prop := StronglySorted (λ x y, (event_at x <= event_at y)%Q) l.

Lemma in_span_spec t now : in_span t now = true ↔ (t <= now ∧ now < t + 1)%Q.
Proof.
  unfold in_span. rewrite andb_true_iff, negb_true_iff, Qle_bool_iff. split; intros [H1 H2]; split; try done.
  - apply Qnot_le_lt. intros H3%Qle_bool_iff. congruence.
  - destruct (Qle_bool (t + 1) now) eqn:E; [|done]. apply Qle_bool_iff in E. by apply Qlt_not_le in H2.
Qed.

(** What the budget still allows in the span. *)
Definition allowance (t : Q) (b : AdvBinding) : Z :=
  match bd_window_start b with
  | None => 20
  | Some s => if Qle_bool s (t - 1) then 20
              else if Qle_bool s t then 20 - bd_unicast_sent b else 10 - bd_unicast_sent b
  end.

Definition sent_ok (b : AdvBinding) : Prop := 0 <= bd_unicast_sent b <= 10.

Lemma Qle_bool_false x y : Qle_bool x y = false ↔ (y < x)%Q.
Proof.
  split; intros Hx.
  - apply Qnot_le_lt. intros Hy%Qle_bool_iff. congruence.
  - destruct (Qle_bool x y) eqn:E; [|done]. apply Qle_bool_iff in E. by apply Qlt_not_le in Hx.
Qed.

(** Decide the comparisons of times of a goal. *)
Ltac q_cases :=
  repeat match goal with
  | |- context [Qle_bool ?x ?y] => let E := fresh "E" in destruct (Qle_bool x y) eqn:E
  end;
  repeat match goal with
  | H : Qle_bool _ _ = true |- _ => apply Qle_bool_iff in H
  | H : Qle_bool _ _ = false |- _ => apply Qle_bool_false in H
  end.

Lemma may_allowance t now b unicast :
  sent_ok b → (now < t + 1)%Q →
  sent_ok (may_respond unicast now b).2 ∧
  (if in_span t now && unicast && (may_respond unicast now b).1 then 1 else 0) +
    allowance t (may_respond unicast now b).2 <= allowance t b.
Proof.
  unfold sent_ok. intros Hs Hn. unfold may_respond. destruct unicast.
  2:{ rewrite andb_false_r. cbn [andb]. destruct (elapsed _ _ _); cbn [fst snd]; (split; [done|]);
      unfold allowance; cbn [bd_window_start bd_unicast_sent]; lia. }
  assert (∀ w n, sent_ok (mkBinding (bd_transport b) (bd_records b) (bd_last_multicast b) w n) ↔ 0 <= n <= 10)
    as Hok by done.
  unfold elapsed, UNICAST_WINDOW, allowance, in_span, UNICAST_BURST. rewrite andb_true_r.
  destruct (bd_window_start b) as [s|] eqn:Ew; [destruct (Qle_bool 1 (now - s)) eqn:Ee|].
  all: cbn [bd_window_start bd_unicast_sent fst snd].
  1,3: change (10 <=? 0) with false; cbv iota; cbn [bd_window_start bd_unicast_sent fst snd].
  3: destruct (10 <=? bd_unicast_sent b) eqn:En; cbn [bd_window_start bd_unicast_sent fst snd]; rewrite ?Ew.
  all: rewrite ?andb_false_r, ?andb_true_r; q_cases; cbn [andb negb]; first [lia|exfalso; lra].
Qed.

Lemma handle_own payload port now b r b' :
  handle payload port now b = (inr (Some r), b') →
  ∃ answers ident qs, answers ⊆ bd_records b ∧ encode_response answers ident qs = inr (rp_payload r).
Proof.
  unfold handle. destruct (decode_questions payload) as [[]|qs]; try done.
  pose proof (answers_are_own (bd_records b) qs) as Hown.
  destruct (answers_for (bd_records b) qs) as [|r0 rest]; [done|].
  destruct (may_respond _ now b) as [may b1]. destruct may; cbn [negb]; [|done].
  intros [= Hr _]. apply wire_bind_inr in Hr as (p & Hp & [= <-]). cbn [rp_payload].
  destruct (negb (port =? _)); eauto.
Qed.

Lemma handle_records payload port now b : bd_records (handle payload port now b).2 = bd_records b.
Proof.
  destruct (handle payload port now b) as [r b'] eqn:E.
  apply handle_budget in E as [[-> _]|(u & -> & _)]; [done|]. cbn. unfold may_respond.
  destruct u; [destruct (elapsed _ _ _), (_ <=? _); done|by destruct (elapsed _ _ _)].
Qed.

(** *** One turn, seen from one binding *)

Lemma announce_lookup now bs l i b :
  (announce_all now bs).1 = inr l → bs !! i = Some b →
  ∃ p, l !! i = Some (mkReply p false) ∧ encode_response (bd_records b) 0 [] = inr p.
Proof.
  unfold announce_all. cbn [fst]. revert l i. induction bs as [|b0 bs IH]; intros l i; cbn; [done|].
  intros (p & Hp & (rest & Hrest & [= <-])%wire_bind_inr)%wire_bind_inr Hi.
  destruct i as [|i]; cbn in *; [injection Hi as ->; eauto|]. by apply IH.
Qed.

Lemma filter_imap {A} (l : list A) (i : nat) :
  filter (λ p : nat * A, p.1 = i) (imap (λ j p, (j, p)) l) = match l !! i with Some p => [(i, p)] | None => [] end.
Proof.
  assert (∀ n, filter (λ p : nat * A, p.1 = i) (imap (λ j p, ((n + j)%nat, p)) l) =
    if decide (n <= i)%nat then match l !! (i - n)%nat with Some p => [(i, p)] | None => [] end else []) as H.
  2:{ specialize (H 0%nat). rewrite decide_True, Nat.sub_0_r in H by lia. exact H. }
  induction l as [|x l IH]; intros n; cbn [imap]; [by case_decide|].
  rewrite filter_cons. cbn [fst]. rewrite Nat.add_0_r.
  assert (imap ((λ j p, ((n + j)%nat, p)) ∘ S) l = imap (λ j p, ((S n + j)%nat, p)) l) as ->
    by (apply imap_ext; intros; cbn; f_equal; lia).
  rewrite IH. destruct (decide (n = i)) as [->|Hne].
  - rewrite Nat.sub_diag, (decide_False (P := (S i <= i)%nat)), (decide_True (P := (i <= i)%nat)) by lia. done.
  - destruct (decide (S n <= i)%nat) as [Hle|Hle].
    + rewrite (decide_True (P := (n <= i)%nat)) by lia. by replace (i - n)%nat with (S (i - S n)) by lia.
    + by rewrite (decide_False (P := (n <= i)%nat)) by lia.
Qed.

Lemma through_sending e out i :
  through_binding i (sending e <$> out) = sending e <$> filter (λ p : nat * Reply, p.1 = i) out.
Proof.
  unfold through_binding. induction out as [|[j x] out IH]; [done|]. cbn [fmap list_fmap].
  rewrite !filter_cons. cbn [sending sd_binding fst]. case_decide; by rewrite IH.
Qed.

(** The binding afterwards, and what went out through it: nothing, or one
    message of its own records that its budget was asked for (an announcement
    goes out whatever the budget says). *)
Definition turn (e : ServeEvent) (i : nat) (b b' : AdvBinding) (l : list Sending) : Prop :=
  b' = b ∧ l = [] ∨
  ∃ unicast, b' = (may_respond unicast (event_at e) b).2 ∧
    (l = [] ∨ ∃ x, l = [mkSending (event_at e) (is_query e) i x] ∧ rp_to_source x = unicast ∧
      (if is_query e then (may_respond unicast (event_at e) b).1 = true else unicast = false) ∧
      ∃ answers ident qs, answers ⊆ bd_records b ∧ encode_response answers ident qs = inr (rp_payload x)).

Lemma serve_event_turn e r out r' i b :
  serve_event e r = (inr out, r') → re_bindings r !! i = Some b →
  ∃ b', re_bindings r' !! i = Some b' ∧ turn e i b b' (through_binding i (sending e <$> out)).
Proof.
  rewrite through_sending. destruct e as [now|j payload port now]; cbn [serve_event].
  - destruct (_ && _); [|intros [= <- <-] Hb; exists b; split; [done|by left]].
    destruct (announce_all now (re_bindings r)) as [l bs] eqn:E. intros [= Hl <-] Hb. cbn [re_bindings].
    apply wire_bind_inr in Hl as (ps & -> & [= <-]). rewrite filter_imap.
    destruct (announce_lookup now (re_bindings r) ps i b ltac:(by rewrite E) Hb) as (p & -> & Hp).
    injection E as _ <-. rewrite list_lookup_fmap, Hb. eexists. split; [done|]. right. exists false. split; [done|].
    right. exists (mkReply p false). split_and!; [done..|]. by exists (bd_records b), 0, [].
  - destruct (re_bindings r !! j) as [bj|] eqn:Ej; [|intros [= <- <-] Hb; exists b; split; [done|by left]].
    destruct (handle payload port now bj) as [o bj'] eqn:E. intros [= Ho <-] Hb. cbn [re_bindings].
    apply wire_bind_inr in Ho as (x & -> & [= <-]). destruct (decide (j = i)) as [->|Hne].
    2:{ exists b. rewrite list_lookup_insert_ne by done. split; [done|left]. split; [done|].
        destruct x; [|done]. by rewrite filter_cons_False. }
    rewrite Ej in Hb. injection Hb as ->. exists bj'.
    rewrite list_lookup_insert_eq by by eapply lookup_lt_Some. split; [done|].
    pose proof (handle_own payload port now b) as Hown. rewrite E in Hown.
    apply handle_budget in E as [[-> Hno]|(unicast & -> & Hx)].
    + left. split; [done|]. destruct x as [x|]; [by destruct (Hno x)|done].
    + right. exists unicast. split; [done|]. destruct x as [x|]; [|by left]. right. exists x.
      destruct (Hx x eq_refl). rewrite filter_cons_True by done. split_and!; [done..|]. by eapply Hown.
Qed.

Lemma turn_records e i b b' l : turn e i b b' l → bd_records b' = bd_records b.
Proof.
  intros [[-> _]|(u & -> & _)]; [done|]. unfold may_respond.
  destruct u; [destruct (elapsed _ _ _), (_ <=? _); done|by destruct (elapsed _ _ _)].
Qed.

(** *** The rates *)

Lemma serve_times r l x : x ∈ serve r l → ∃ e, e ∈ l ∧ sd_at x = event_at e.
Proof.
  revert r. induction l as [|e l IH]; intros r; cbn [serve]; [by intros ?%elem_of_nil|].
  destruct (serve_event e r) as [[?|out] r']; [by intros ?%elem_of_nil|].
  intros [(p & -> & _)%list_elem_of_fmap|(e' & He & Hx)%IH]%elem_of_app.
  - exists e. split; [left|done].
  - exists e'. split; [by right|done].
Qed.

(** Nothing more in the span once it is over. *)
Lemma span_over t r l i :
  Forall (λ e, (t + 1 <= event_at e)%Q) l → unicast_in t (through_binding i (serve r l)) = 0.
Proof.
  intros Hl. unfold unicast_in. assert (filter (to_host t) (through_binding i (serve r l)) = []) as ->; [|done].
  apply elem_of_nil_inv. intros x [[Hs _] [_ Hx]%list_elem_of_filter]%list_elem_of_filter.
  apply serve_times in Hx as (e & He & Ha). rewrite Ha in Hs. rewrite Forall_forall in Hl. specialize (Hl e He).
  apply in_span_spec in Hs as [_ Hs]. by apply Qle_not_lt in Hl.
Qed.

Lemma through_app i l l' : through_binding i (l ++ l') = through_binding i l ++ through_binding i l'.
Proof. apply filter_app. Qed.

Lemma unicast_app t l l' : unicast_in t (l ++ l') = unicast_in t l + unicast_in t l'.
Proof. unfold unicast_in. rewrite filter_app, length_app. lia. Qed.

Lemma turn_unicast t e i b b' l :
  turn e i b b' l → sent_ok b → (event_at e < t + 1)%Q →
  sent_ok b' ∧ unicast_in t l + allowance t b' <= allowance t b.
Proof.
  intros [[-> ->]|(u & -> & Hl)] Hs Hn; [done|].
  destruct (may_allowance t (event_at e) b u Hs Hn) as [Hs' Ha]. split; [done|].
  assert (unicast_in t l <= if in_span t (event_at e) && u && (may_respond u (event_at e) b).1 then 1 else 0); [|lia].
  destruct Hl as [->|(x & -> & Hu & Hm & _)]; [cbn; by case_match|].
  unfold unicast_in. rewrite filter_cons, filter_nil. case_decide as Hd; [|cbn; by case_match].
  destruct Hd as [Hd1 Hd2]. cbn in Hd1, Hd2. rewrite Hu in Hd2. subst u. rewrite Hd1, Hd2 in *.
  destruct (is_query e); [by rewrite Hm|congruence].
Qed.

Lemma serve_unicast t r l i b :
  re_bindings r !! i = Some b → sent_ok b → sorted_times l →
  unicast_in t (through_binding i (serve r l)) <= allowance t b.
Proof.
  assert (∀ b, sent_ok b → 0 <= allowance t b) as Hpos.
  { intros b0. unfold sent_ok, allowance. destruct (bd_window_start b0); [q_cases|]; lia. }
  revert r b. induction l as [|e l IH]; intros r b Hb Hs Hl; [by apply Hpos|].
  apply StronglySorted_inv in Hl as [Hl Hall]. destruct (Qlt_le_dec (event_at e) (t + 1)) as [Hn|Hn].
  2:{ rewrite span_over; [by apply Hpos|]. constructor; [done|]. eapply Forall_impl; [exact Hall|].
      intros x Hx. cbn in *. lra. }
  cbn [serve]. destruct (serve_event e r) as [[?|out] r'] eqn:E; [by apply Hpos|].
  destruct (serve_event_turn e r out r' i b E Hb) as (b' & Hb' & Ht).
  destruct (turn_unicast t e i b b' _ Ht Hs Hn) as [Hs' Ha].
  rewrite through_app, unicast_app. specialize (IH r' b' Hb' Hs' Hl). lia.
Qed.

(** An answer to the whole group. *)
Definition multicast (x : Sending) : Prop := sd_answer x = true ∧ rp_to_source (sd_reply x) = false.
#[local] Instance multicast_dec x : Decision (multicast x) := and_dec _ _.

Lemma turn_multicast e i b b' l :
  turn e i b b' l →
  (∀ s, bd_last_multicast b = Some s → ∃ s', bd_last_multicast b' = Some s' ∧ (s <= s')%Q) ∧
  (filter multicast l = [] ∨
   ∃ x, filter multicast l = [x] ∧ sd_at x = event_at e ∧ bd_last_multicast b' = Some (event_at e) ∧
     ∀ s, bd_last_multicast b = Some s → (1 <= event_at e - s)%Q).
Proof.
  intros [[-> ->]|(u & -> & Hl)].
  { split; [intros s Hs; exists s; split; [done|lra]|by left]. }
  split.
  - intros s Hs. unfold may_respond. destruct u.
    + destruct (elapsed _ _ _), (_ <=? _); cbn; exists s; (split; [done|lra]).
    + unfold elapsed, MULTICAST_MIN_INTERVAL. rewrite Hs.
      destruct (Qle_bool 1 (event_at e - s)) eqn:Ee; [|exists s; split; [done|lra]].
      apply Qle_bool_iff in Ee. exists (event_at e). split; [done|lra].
  - destruct Hl as [->|(x & -> & Hu & Hm & _)]; [by left|]. rewrite filter_cons, filter_nil.
    case_decide as Hd; [|by left]. right. destruct Hd as [Hd1 Hd2]. cbn in Hd1, Hd2. rewrite Hd1 in Hm.
    eexists. split; [done|]. split; [done|]. rewrite Hu in Hd2. subst u. rewrite Hd2 in Hm |- *.
    unfold may_respond, elapsed, MULTICAST_MIN_INTERVAL in *.
    destruct (bd_last_multicast b) as [s|]; [|done]. destruct (Qle_bool 1 (event_at e - s)) eqn:Ee; [|done].
    apply Qle_bool_iff in Ee. split; [done|]. by intros ? [= <-].
Qed.

(** Two multicast answers are a second apart. *)
Lemma serve_multicast r l i b :
  re_bindings r !! i = Some b →
  (∀ s x, bd_last_multicast b = Some s → x ∈ through_binding i (serve r l) → multicast x → (1 <= sd_at x - s)%Q) ∧
  StronglySorted (λ x y, (1 <= sd_at y - sd_at x)%Q) (filter multicast (through_binding i (serve r l))).
Proof.
  revert r b. induction l as [|e l IH]; intros r b Hb; cbn [serve].
  { split; [by intros s x _ ?%elem_of_nil|constructor]. }
  destruct (serve_event e r) as [[?|out] r'] eqn:E; [split; [by intros s x _ ?%elem_of_nil|constructor]|].
  destruct (serve_event_turn e r out r' i b E Hb) as (b' & Hb' & Ht).
  destruct (turn_multicast e i b b' _ Ht) as [Hlast Hl]. destruct (IH r' b' Hb') as [IH1 IH2].
  rewrite through_app. set (l1 := through_binding i (sending e <$> out)) in *.
  assert (∀ x, x ∈ l1 → multicast x → x ∈ filter multicast l1) as Hin by (intros; by apply list_elem_of_filter).
  split.
  - intros s x Hs [Hx|Hx]%elem_of_app Hm.
    + specialize (Hin x Hx Hm). destruct Hl as [Hl|(y & Hl & Hy & _ & Hd)]; rewrite Hl in Hin; [by apply elem_of_nil in Hin|].
      apply list_elem_of_singleton in Hin as ->. rewrite Hy. by apply Hd.
    + destruct (Hlast s Hs) as (s' & Hs' & Hle). specialize (IH1 s' x Hs' Hx Hm). lra.
  - rewrite filter_app. destruct Hl as [Hl|(y & Hl & Hy & Hb1 & _)]; rewrite Hl; [done|]. cbn. constructor; [done|].
    apply Forall_forall. intros x [Hm Hx]%list_elem_of_filter. rewrite Hy. by apply (IH1 (event_at e)).
Qed.

Lemma serve_own r l i b x :
  re_bindings r !! i = Some b → x ∈ through_binding i (serve r l) →
  ∃ answers ident qs, answers ⊆ bd_records b ∧ encode_response answers ident qs = inr (rp_payload (sd_reply x)).
Proof.
  revert r b. induction l as [|e l IH]; intros r b Hb; cbn [serve]; [by intros ?%elem_of_nil|].
  destruct (serve_event e r) as [[?|out] r'] eqn:E; [by intros ?%elem_of_nil|].
  destruct (serve_event_turn e r out r' i b E Hb) as (b' & Hb' & Ht). rewrite through_app.
  pose proof (turn_records _ _ _ _ _ Ht) as Hrec. intros [Hx|Hx]%elem_of_app; [|rewrite <- Hrec; by eapply IH].
  destruct Ht as [[_ Hl]|(u & _ & [Hl|(y & Hl & _ & _ & Hown)])]; rewrite Hl in Hx; [by apply elem_of_nil in Hx..|].
  by apply list_elem_of_singleton in Hx as ->.
Qed.

Lemma announce_length now bs l : (announce_all now bs).1 = inr l → length l = length bs.
Proof.
  unfold announce_all. cbn [fst]. revert l. induction bs as [|b bs IH]; intros l; cbn; [by intros [= <-]|].
  intros (p & _ & (rest & Hrest & [= <-])%wire_bind_inr)%wire_bind_inr. cbn. f_equal. by apply IH.
Qed.

Lemma serve_event_shape e r out r' :
  serve_event e r = (inr out, r') →
  length (re_bindings r') = length (re_bindings r) ∧ (∀ p, p ∈ out → (p.1 < length (re_bindings r))%nat) ∧
  (if is_query e then re_announced r' = re_announced r
   else (out = [] ∧ r' = r ∨ re_announced r < ANNOUNCE_COUNT ∧ re_announced r' = re_announced r + 1)).
Proof.
  destruct e as [now|j payload port now]; cbn [serve_event is_query].
  - destruct (_ && _) eqn:Ea; [|intros [= <- <-]; split_and!; [done|by intros p ?%elem_of_nil|by left]].
    apply andb_prop in Ea as [Ea _]. destruct (announce_all now (re_bindings r)) as [l bs] eqn:E. intros [= Hl <-].
    apply wire_bind_inr in Hl as (ps & -> & [= <-]). cbn [re_bindings re_announced].
    pose proof (announce_length now (re_bindings r) ps ltac:(by rewrite E)) as Hlen.
    injection E as _ <-. rewrite length_fmap. split; [done|]. split; [|right; lia].
    intros p Hp. apply elem_of_lookup_imap in Hp as (i & x & -> & Hx). cbn. apply lookup_lt_Some in Hx. lia.
  - destruct (re_bindings r !! j) as [bj|] eqn:Ej; [|intros [= <- <-]; split_and!; [done|by intros p ?%elem_of_nil|done]].
    destruct (handle payload port now bj) as [o bj']. intros [= Ho <-]. apply wire_bind_inr in Ho as (x & _ & [= <-]).
    cbn [re_bindings re_announced]. rewrite length_insert. split_and!; [done| |done].
    intros p Hp. apply lookup_lt_Some in Ej. destruct x; [|by apply elem_of_nil in Hp].
    by apply list_elem_of_singleton in Hp as ->.
Qed.

Lemma serve_index r l x : x ∈ serve r l → (sd_binding x < length (re_bindings r))%nat.
Proof.
  revert r. induction l as [|e l IH]; intros r; cbn [serve]; [by intros ?%elem_of_nil|].
  destruct (serve_event e r) as [[?|out] r'] eqn:E; [by intros ?%elem_of_nil|].
  destruct (serve_event_shape e r out r' E) as (Hlen & Hout & _).
  intros [(p & -> & Hp)%list_elem_of_fmap|Hx%IH]%elem_of_app; [by apply Hout|by rewrite <- Hlen].
Qed.

(** The announcements through one binding. *)
Definition announcements (i : nat) (l : list Sending) : list Sending :=
  filter (λ x, sd_answer x = false) (through_binding i l).

Lemma serve_announcements r l i b :
  re_bindings r !! i = Some b → re_announced r <= ANNOUNCE_COUNT →
  Z.of_nat (length (announcements i (serve r l))) + re_announced r <= ANNOUNCE_COUNT.
Proof.
  revert r b. induction l as [|e l IH]; intros r b Hb Hle; cbn [serve]; [cbn; lia|].
  destruct (serve_event e r) as [[?|out] r'] eqn:E; [cbn; lia|].
  destruct (serve_event_turn e r out r' i b E Hb) as (b' & Hb' & Ht).
  destruct (serve_event_shape e r out r' E) as (_ & _ & Hann).
  unfold announcements. rewrite through_app, filter_app, length_app. fold (announcements i (serve r' l)).
  set (l1 := through_binding i (sending e <$> out)) in *.
  assert (length l1 <= 1)%nat as H1.
  { destruct Ht as [[_ ->]|(u & _ & [->|(x & -> & _)])]; cbn; lia. }
  pose proof (length_filter (λ x, sd_answer x = false) l1) as H2.
  destruct (is_query e) eqn:Eq.
  - assert (filter (λ x, sd_answer x = false) l1 = []) as ->.
    { apply elem_of_nil_inv. intros x [Hx [_ (p & -> & _)%list_elem_of_fmap]%list_elem_of_filter]%list_elem_of_filter.
      cbn in Hx. congruence. }
    specialize (IH r' b' Hb' ltac:(lia)). cbn. lia.
  - destruct Hann as [[-> ->]|[Hlt Ha]].
    + specialize (IH r b Hb Hle). cbn. lia.
    + specialize (IH r' b' Hb' ltac:(lia)). lia.
Qed.

(** Bounds of the bindings add up. *)
Lemma unicast_total t n (l : list Sending) :
  (∀ x, x ∈ l → (sd_binding x < n)%nat) → (∀ i, unicast_in t (through_binding i l) <= 20) →
  unicast_in t l <= 20 * Z.of_nat n.
Proof.
  assert (∀ n l, unicast_in t l = unicast_in t (filter (λ x, sd_binding x ≠ n) l) + unicast_in t (through_binding n l)) as Hsplit.
  { clear. intros n l. unfold unicast_in, through_binding. induction l as [|x l IH]; [done|].
    destruct (decide (sd_binding x = n)) as [Hx|Hx].
    - rewrite (filter_cons_False (λ x, sd_binding x ≠ n)), (filter_cons_True (λ x, sd_binding x = n)) by naive_solver.
      rewrite !(filter_cons (to_host t)). case_decide; cbn [length]; lia.
    - rewrite (filter_cons_True (λ x, sd_binding x ≠ n)), (filter_cons_False (λ x, sd_binding x = n)) by done.
      rewrite !(filter_cons (to_host t)). case_decide; cbn [length]; lia. }
  revert l. induction n as [|n IH]; intros l Hidx Hb.
  { destruct l as [|x l]; [done|]. specialize (Hidx x ltac:(left)). lia. }
  rewrite (Hsplit n l). specialize (Hb n) as Hn.
  assert (unicast_in t (filter (λ x, sd_binding x ≠ n) l) <= 20 * Z.of_nat n); [|lia]. apply IH.
  - intros x [Hne Hx%Hidx]%list_elem_of_filter. lia.
  - intros i. etrans; [|apply (Hb i)]. pose proof (Hsplit n (through_binding i l)) as Hi.
    unfold through_binding in Hi |- *.
    assert (∀ P Q : Sending → Prop, ∀ (HP : ∀ x, Decision (P x)) (HQ : ∀ x, Decision (Q x)),
      filter P (filter Q l) = filter Q (filter P l)) as Hc.
    { clear. intros P Q HP HQ. rewrite !list_filter_filter. apply list_filter_iff. tauto. }
    rewrite (Hc (λ x, sd_binding x = i) (λ x, sd_binding x ≠ n)). unfold unicast_in in *. lia.
Qed.

(** The bindings of a responder, one per group it could open. *)
Definition responder (groups : list (MulticastTransport * list DnsRecord)) (next : Q) : Responder :=
  mkResponder ((λ g, new_binding g.1 g.2) <$> groups) 0 next.

(** C38: Whatever datagrams reach the responder, through whichever of its
    bindings (one for each group of its transports), and whenever it announces:
    what it sends through a binding consists of that binding's own records only;
    two answers to one group are at least a second apart; in any second at most
    twenty answers go to single hosts through one binding, however the queries
    fall (ten in each of the binding's own windows), and so at most twenty times
    the number of bindings in all; and no more announcements than
    [_ANNOUNCE_COUNT] go out through a binding (these are not counted among the
    answers, and are no more held back by the budget). *)
Theorem responder_rate_bounded groups next l :
  sorted_times l →
  let sent := serve (responder groups next) l in
  (∀ x, x ∈ sent → ∃ g answers ident qs, groups !! sd_binding x = Some g ∧ answers ⊆ g.2 ∧
     encode_response answers ident qs = inr (rp_payload (sd_reply x))) ∧
  (∀ i, StronglySorted (λ x y, (1 <= sd_at y - sd_at x)%Q) (filter multicast (through_binding i sent))) ∧
  (∀ i t, unicast_in t (through_binding i sent) <= 20) ∧
  (∀ t, unicast_in t sent <= 20 * Z.of_nat (length groups)) ∧
  (∀ i, Z.of_nat (length (announcements i sent)) <= ANNOUNCE_COUNT).
Proof.
  intros Hl sent.
  assert (∀ i, (∃ g, groups !! i = Some g ∧ re_bindings (responder groups next) !! i = Some (new_binding g.1 g.2)) ∨
    through_binding i sent = []) as Hi.
  { intros i. destruct (groups !! i) as [g|] eqn:Eg.
    - left. exists g. cbn. by rewrite list_lookup_fmap, Eg.
    - right. apply elem_of_nil_inv. intros x [<- Hx%serve_index]%list_elem_of_filter. cbn in Hx.
      rewrite length_fmap in Hx. by apply lookup_ge_None in Eg; lia. }
  assert (∀ i t, unicast_in t (through_binding i sent) <= 20) as Huni.
  { intros i t. destruct (Hi i) as [(g & _ & Hb)| ->]; [|done]. by apply (serve_unicast t _ l i _ Hb). }
  split_and!; [| |done| |].
  - intros x Hx. assert (x ∈ through_binding (sd_binding x) sent) as Hx' by by apply list_elem_of_filter.
    destruct (Hi (sd_binding x)) as [(g & Hg & Hb)|E]; [|rewrite E in Hx'; by apply elem_of_nil in Hx'].
    destruct (serve_own _ l _ _ x Hb Hx') as (answers & ident & qs & Ha & Hp). by exists g, answers, ident, qs.
  - intros i. destruct (Hi i) as [(g & _ & Hb)| ->]; [|constructor]. apply (serve_multicast _ l i _ Hb).
  - intros t. apply unicast_total; [|done]. intros x Hx%serve_index. cbn in Hx. by rewrite length_fmap in Hx.
  - intros i. destruct (Hi i) as [(g & _ & Hb)|E]; [|unfold announcements; by rewrite E].
    pose proof (serve_announcements _ l i _ Hb ltac:(done)). cbn in *. fold sent in H. lia.
Qed.

(** ** A network on which the statements hold *)

#[local] Instance plain_python : Python :=
  {| lower_text := id; digits_text _ := None; judges_mapped := true |}.

Definition bytes_only (r : list Z * Host) : bool := forallb (λ b, (0 <=? b) && (b <? 256)) r.1.

(** A script of what comes back, round by round. *)
#[local] Instance script : Network (list (list (list Z * Host))) := {|
  exchange _ _ _ w := (filter (λ r, bytes_only r = true) (default [] (head w)), drop 1 w);
  randbelow w := (7, w);
|}.

#[local] Instance script_laws : NetworkLaws (list (list (list Z * Host))).
Proof.
  split; [done|]. intros tr qs t w. cbn. apply Forall_forall. intros r [Hr _]%list_elem_of_filter.
  apply Forall_forall. intros b Hb. unfold bytes_only in Hr. rewrite forallb_forall in Hr.
  specialize (Hr b ltac:(by apply list_elem_of_In)). unfold is_byte. lia.
Qed.

Definition sample_txt : Txt :=
  [(octets_of "txtvers", Some (octets_of "1")); (octets_of "dcap", Some (octets_of "/dcap"));
   (octets_of "level", Some (octets_of "-S1")); (octets_of "https", Some (octets_of "8443"))].

Definition sample_ad : ServiceAdvertisement :=
  mkAd (octets_of "server-1") (octets_of "_smartenergy", octets_of "_tcp") 80 sample_txt (octets_of "h").

Definition sample_address : list Z := [192; 168; 1; 9].

Definition or_nil {A} (w : WireError + list A) : list A := match w with inr l => l | inl _ => [] end.

Definition sample_records : list DnsRecord := or_nil (ad_records sample_ad MDNS [sample_address]).
Definition ptr_query : list Z := or_nil (encode_query (service_labels MDNS None) TYPE_PTR 7 true).
Definition sample_binding : AdvBinding := new_binding MDNS sample_records.

Definition sample_reply : Reply :=
  match (handle ptr_query 50000 0 sample_binding).1 with
  | inr (Some r) => r
  | _ => mkReply [] false
  end.

Definition sample_network : list (list (list Z * Host)) :=
  [[([1; 2; 3], Named []); (rp_payload sample_reply, Literal sample_address)]].

Lemma advertised_server_found_witness :
  ∃ servers w', discover_servers MDNS 3 None sample_network = (inr servers, w') ∧
    found_server sample_ad MDNS sample_address 8443 ∈ servers.
Proof.
  apply (advertised_server_found sample_ad MDNS sample_address sample_records sample_binding 7 ptr_query
           50000 0 sample_reply (handle ptr_query 50000 0 sample_binding).2 3 sample_network sample_network []
           [([1; 2; 3], Named [])] (Literal sample_address) [] 8443).
  - reflexivity.
  - reflexivity.
  - split.
    { repeat (apply NoDup_cons; split; [rewrite ?elem_of_cons, elem_of_nil; intuition discriminate|]).
      constructor. }
    repeat (apply Forall_cons_2; [split; [split_and!; [discriminate|apply (bool_decide_unpack _); vm_compute; exact I
      |vm_compute; reflexivity|vm_compute; reflexivity]|intros v [= <-]; vm_compute; reflexivity]|]). constructor.
  - split; vm_compute; reflexivity.
  - by left.
  - vm_compute. reflexivity.
  - vm_compute. reflexivity.
  - reflexivity.
  - done.
  - reflexivity.
  - vm_compute. reflexivity.
  - vm_compute. reflexivity.
  - vm_compute. reflexivity.
  - vm_compute. lia.
  - vm_compute. by intros ?%elem_of_nil.
  - intros x Hx. assert (encode_name <$> ((λ y : name * DnsMessage * Host, y.1.1) <$>
      instances (decode_all ([([1; 2; 3], Named [])] ++ [(rp_payload sample_reply, Literal sample_address)]) [7])
        (service_labels MDNS None)) = [encode_name (instance_name sample_ad MDNS)]) as Hall
      by (vm_compute; reflexivity).
    assert (encode_name x.1.1 = encode_name (instance_name sample_ad MDNS)) as ->.
    { apply list_elem_of_singleton. rewrite <- Hall. apply list_elem_of_fmap. exists x.1.1.
      split; [reflexivity|]. apply list_elem_of_fmap. exists x. split; [reflexivity|]. exact Hx. }
    eexists. vm_compute. reflexivity.
Defined.

Lemma discovered_servers_usable_witness :
  transports_for "mdns" = Some [MDNS] ∧
  match (discover_for_client [MDNS] None None 3 sample_network).1 with
  | inr servers => Forall usable servers ∧ NoDup (endpoint <$> servers)
  | inl e => client_error None None e
  end.
Proof. split; [reflexivity|]. by apply (discovered_servers_usable "mdns"). Defined.

(** Three queries within a second, the last to the group. *)
(** Two groups, each announced to, each asked by a host and by the group. *)
Definition two_groups : list (MulticastTransport * list DnsRecord) :=
  [(MDNS, sample_records); (MDNS, sample_records)].
Definition sample_turns : list ServeEvent :=
  [AtTop 0; Datagram 0 ptr_query 50000 0; Datagram 1 ptr_query 50000 (1 # 2); Datagram 1 ptr_query 5353 (3 # 2)].

Lemma responder_rate_bounded_witness :
  let sent := serve (responder two_groups 0) sample_turns in
  length sent = 5%nat ∧ unicast_in 0 sent = 2 ∧ (∀ t, unicast_in t sent <= 40) ∧
  (∀ i, Z.of_nat (length (announcements i sent)) <= 3).
Proof.
  cbv zeta. split; [vm_compute; reflexivity|]. split; [vm_compute; reflexivity|].
  destruct (responder_rate_bounded two_groups 0 sample_turns) as (_ & _ & _ & H1 & H2); [|split; [exact H1|exact H2]].
  repeat constructor; cbn; discriminate.
Defined.

(** ** Where the code does not behave as intended *)

(** A name of five labels of 63 bytes: it decodes, and is too long to encode. *)
Definition long_name : name := replicate 5 (replicate 63 97).

Definition long_bytes : list Z := or_nil (encode_labels long_name).

(** A reply that names the instance [long_name] and does not describe it. *)
Definition hostile_reply : list Z :=
  or_nil (encode_response
    [{| dr_name := service_labels MDNS None; dr_type := TYPE_PTR; dr_ttl := 10; dr_rdata := long_bytes;
        dr_unique := false |}] 7 []).

(** One datagram ends the search with an uncaught [ValueError], although the
    server's own answer has arrived: an instance name that decodes and is longer
    than a DNS name may be is asked for in the second round.  Without the
    datagram the server is found. *)
Example hostile_instance_aborts_discovery :
  (discover_servers MDNS 3 None
     [[(rp_payload sample_reply, Literal sample_address); (hostile_reply, Named [])]]).1 = inl NameLength ∧
  match (discover_servers MDNS 3 None [[(rp_payload sample_reply, Literal sample_address)]]).1 with
  | inr [s] => ds_port s = 8443
  | _ => False
  end.
Proof. vm_compute. auto. Qed.

(** A query with two questions: the service, and a name that is too long. *)
Definition hostile_query : list Z :=
  take 4 ptr_query ++ [0; 2] ++ drop 6 ptr_query ++ long_bytes ++ [0; 12; 0; 1].

(** One datagram stops the responder: the answer to a legacy querier echoes its
    questions, and echoing a name that is too long raises a [ValueError] that
    leaves the loop. *)
Example hostile_question_stops_responder :
  (handle hostile_query 50000 0 sample_binding).1 = inl NameLength.
Proof. vm_compute. reflexivity. Qed.

(** An announcement within a second of an answer is sent without taking the
    budget, so that a further answer follows it within a second: the records go
    to the group at 1, at 1.2 and at 2.1 seconds. *)
Example announcement_not_counted :
  let query := or_nil (encode_query (service_labels MDNS None) TYPE_PTR 0 false) in
  let r0 := mkResponder [sample_binding] 0 0 in
  let r1 := (serve_event (AtTop 0) r0).2 in
  let a := serve_event (Datagram 0 query 5353 1) r1 in
  let b := serve_event (AtTop (12 # 10)) a.2 in
  let c := serve_event (Datagram 0 query 5353 (21 # 10)) b.2 in
  length (or_nil a.1) = 1%nat ∧ length (or_nil b.1) = 1%nat ∧ length (or_nil c.1) = 1%nat.
Proof. vm_compute. auto. Qed.
