(* ===== verification/Tariff.v ===== *)
(** * Pricing (events/tariff.py, events/response.py)

    [active_interval], the selection of the TimeTariffInterval in effect, and
    [TariffProcessor]: on each poll it acknowledges the intervals of the tariff
    tree and relays the price of each rate component whose active interval has
    changed.

    Like the event processor, a coroutine runs alone between two awaits and
    anything may run at an await ([t_interfere]).  A task cancelled while it
    fetches prices is left out; one cancelled while it posts is not. *)

From S2P Require Import Prelude Controls Randomization Response ProcState.

(** ** Data *)

Record TariffInterval := {
  ti_mrid : bytes;
  ti_start : Z;
  ti_duration : Z;
  ti_randomize_start : option Z;
  ti_randomize_duration : option Z;
  ti_status : option Z;                  (* EventStatus.currentStatus *)
  ti_creation : option Z;
  ti_tier : Z;
  ti_response_required : option (list Z);
  ti_reply_to : option string;
  ti_prices_link : option string;
}.

Record RateComponentState := { rc_href : string; rc_intervals : list TariffInterval }.

Record TariffProfileState := {
  tp_href : string;
  tp_primacy : Z;
  tp_currency : option Z;
  tp_multiplier : option Z;
  tp_rate_components : list RateComponentState;
  tp_fsa : option string;
}.

(** A ConsumptionTariffInterval's price. *)
Record PriceBlock := { pb_price : option Z; pb_start_value : Z; pb_block : Z }.

(** The "price" form of a schedule notification. *)
Record PriceNotification := {
  pn_current_status : option Z;
  pn_mrid : string;
  pn_program : string;
  pn_primacy : Z;
  pn_start : Z;
  pn_duration : Z;
  pn_end : Z;
  pn_lfdis : list string;
  pn_randomization : option Z * option Z;
  pn_tier : Z;
  pn_currency : option Z;
  pn_multiplier : option Z;
  pn_rate_component : string;
  pn_prices : list PriceBlock;
}.

Record PriceResponse := { pr_lfdi : bytes; pr_status : ResponseCode; pr_subject : bytes; pr_created : Z }.

(** ** Selecting the interval in effect *)

Definition INACTIVE_STATUSES : list Z := [2; 3; 4].

Definition is_cancelled (ti : TariffInterval) : bool :=
  match ti_status ti with None => false | Some st => bool_decide (st ∈ INACTIVE_STATUSES) end.

(** [draw mrid i m] is the [i]-th [random.randint(0, m)] made for an mRID. *)
Definition interval_offsets (draw : bytes → nat → Z → Z) (ti : TariffInterval) (cache : RandCache)
    : (Z * Z) * RandCache :=
  get_offsets (draw (ti_mrid ti)) (ti_mrid ti) (ti_randomize_start ti) (ti_randomize_duration ti)
    (ti_start ti) (ti_duration ti) cache.

Definition effective_window (draw : bytes → nat → Z → Z) (ti : TariffInterval) (cache : RandCache)
    : (Z * Z) * RandCache :=
  let '((start_offset, dur_offset), cache') := interval_offsets draw ti cache in
  let start := ti_start ti + start_offset in
  ((start, start + ti_duration ti + dur_offset), cache').

(** The order of Python tuples. *)
Definition key_gt (k k' : Z * Z) : bool :=
  (k'.1 <? k.1) || ((k.1 =? k'.1) && (k'.2 <? k.2)).

Definition consider (draw : bytes → nat → Z → Z) (now : Z)
    (st : option (TariffInterval * (Z * Z)) * RandCache) (ti : TariffInterval)
    : option (TariffInterval * (Z * Z)) * RandCache :=
  if is_cancelled ti then st
  else
    let '((start, end_), cache) := effective_window draw ti st.2 in
    if negb ((start <=? now) && (now <? end_)) then (st.1, cache)
    else
      let key := (default 0 (ti_creation ti), start) in
      match st.1 with
      | None => (Some (ti, key), cache)
      | Some (_, best_key) => (if key_gt key best_key then Some (ti, key) else st.1, cache)
      end.

Definition active_interval (draw : bytes → nat → Z → Z) (intervals : list TariffInterval)
    (now : Z) (cache : RandCache) : option TariffInterval * RandCache :=
  let '(best, cache') := foldl (consider draw now) (None, cache) intervals in
  (fst <$> best, cache').

(** ** The processor *)

Inductive TariffAction :=
  | PostPrice (path : string) (body : PriceResponse) (outcome : PostOutcome)
  | RelayPrice (n : PriceNotification).

Record Tariff := mkTariff {
  t_rand : RandCache;
  t_active : dict string (option bytes);
  t_tracker : ResponseTracker;
  t_profiles : dict string TariffProfileState;     (* shared with discovery *)
  t_devices : list bytes;                          (* the LFDIs of the end devices, shared *)
  t_log : list TariffAction;
  t_tick : nat;
}.

Definition set_t_rand v s := mkTariff v (t_active s) (t_tracker s) (t_profiles s) (t_devices s)
  (t_log s) (t_tick s).
Definition set_t_active v s := mkTariff (t_rand s) v (t_tracker s) (t_profiles s) (t_devices s)
  (t_log s) (t_tick s).
Definition set_t_tracker v s := mkTariff (t_rand s) (t_active s) v (t_profiles s) (t_devices s)
  (t_log s) (t_tick s).
Definition set_t_profiles v s := mkTariff (t_rand s) (t_active s) (t_tracker s) v (t_devices s)
  (t_log s) (t_tick s).
Definition set_t_log v s := mkTariff (t_rand s) (t_active s) (t_tracker s) (t_profiles s)
  (t_devices s) v (t_tick s).
Definition set_t_tick v s := mkTariff (t_rand s) (t_active s) (t_tracker s) (t_profiles s)
  (t_devices s) (t_log s) v.

Class TariffEnv := {
  t_interfere : nat → Tariff → Tariff;
  t_clock : nat → option string → Z;                 (* the server clock, per FSA scope *)
  t_draw : nat → bytes → nat → Z → Z;
  t_post : nat → string → PriceResponse → PostOutcome;
  t_future : nat → resp_key → bool;
  t_fetch : nat → string → option (list PriceBlock); (* [None]: the GET failed *)
  t_patience : nat;
}.

Inductive TariffExn := RuntimeError | TKeyError | TCancelled | TBlocked.

Abbreviation T A := (Comp TariffExn Tariff A) (only parsing).

Section Processor.
Context {E : TariffEnv}.

Definition t_await : T unit :=
  modify (λ s, set_t_tick (S (t_tick s)) (t_interfere (t_tick s) s)).

Definition t_emit (a : TariffAction) : T unit := modify (λ s, set_t_log (t_log s ++ [a]) s).

Definition t_track (f : ResponseTracker → ResponseTracker) : T unit :=
  modify (λ s, set_t_tracker (f (t_tracker s)) s).

(** [ResponseTracker.reserve] *)
Fixpoint reserve_price (fuel : nat) (k : resp_key) : T bool :=
  sent_already <- get (λ s, dict_mem k (sent (t_tracker s))) ;;
  if (sent_already : bool) then ret false
  else
    claimed <- get (λ s, bool_decide (k ∈ in_flight (t_tracker s))) ;;
    if negb claimed then t_track (claim k) ;;; ret true
    else match fuel with
    | O => raise TBlocked
    | S fuel' =>
        landed <- get (λ s, t_future (t_tick s) k) ;;
        t_await ;;; if (landed : bool) then ret false else reserve_price fuel' k
    end.

Definition post_price_response (ti : TariffInterval) (code : ResponseCode) (lfdi : bytes)
    (now_ts : Z) : T unit :=
  if negb (response_required_allows (ti_response_required ti) code) then ret tt
  else match ti_reply_to ti with
  | None | Some "" => ret tt
  | Some path =>
      let k := (ti_mrid ti, code, lfdi) in
      mine <- reserve_price t_patience k ;;
      if negb mine then ret tt
      else
        let body := {| pr_lfdi := lfdi; pr_status := code; pr_subject := ti_mrid ti;
                       pr_created := now_ts |} in
        outcome <- get (λ s, t_post (t_tick s) path body) ;;
        t_await ;;;
        t_emit (PostPrice path body outcome) ;;;
        match outcome with
        | PostOk => t_track (mark_sent k now_ts)
        | PostFailed => t_track (release k)
        | PostCancelled => t_track (release k) ;;; raise TCancelled
        end
  end.

(** [for x in d.values()], where [d] may change at an await: by position, with
    the error for a dictionary that has changed size. *)
Fixpoint each_value {A B} (size : nat) (todo i : nat) (values : Tariff → list A)
    (f : A → B → T B) (acc : B) : T B :=
  l <- get values ;;
  if negb (length l =? size)%nat then raise RuntimeError
  else match todo with
  | O => ret acc
  | S todo' =>
      match l !! i with
      | None => ret acc
      | Some x => acc' <- f x acc ;; each_value size todo' (S i) values f acc'
      end
  end.

Definition over_values {A B} (values : Tariff → list A) (f : A → B → T B) (acc : B) : T B :=
  n <- get (λ s, length (values s)) ;; each_value n n 0 values f acc.

Definition ack_received (ti : TariffInterval) (now : Z) : T unit :=
  if negb (response_required_allows (ti_response_required ti) ACKNOWLEDGED) then ret tt
  else over_values t_devices (λ lfdi _, post_price_response ti ACKNOWLEDGED lfdi now) tt.

(** The prices, or [None] when the fetch failed. *)
Definition fetch_prices (ti : TariffInterval) : T (option (list PriceBlock)) :=
  match ti_prices_link ti with
  | None | Some "" => ret (Some [])
  | Some href => answer <- get (λ s, t_fetch (t_tick s) href) ;; t_await ;;; ret answer
  end.

Definition build_notification (tp : TariffProfileState) (rc : RateComponentState)
    (ti : TariffInterval) (prices : list PriceBlock) (lfdis : list string) : T PriceNotification :=
  w <- get (λ s, effective_window (t_draw (t_tick s)) ti (t_rand s)) ;;
  modify (set_t_rand w.2) ;;;
  let '(start, end_) := w.1 in
  ret {| pn_current_status := ti_status ti; pn_mrid := hex (ti_mrid ti); pn_program := tp_href tp;
         pn_primacy := tp_primacy tp; pn_start := start; pn_duration := end_ - start; pn_end := end_;
         pn_lfdis := lfdis; pn_randomization := (ti_randomize_start ti, ti_randomize_duration ti);
         pn_tier := ti_tier ti; pn_currency := tp_currency tp; pn_multiplier := tp_multiplier tp;
         pn_rate_component := rc_href rc; pn_prices := prices |}.

Definition relay_if_changed (tp : TariffProfileState) (rc : RateComponentState)
    (interval : option TariffInterval) (lfdis : list string) : T unit :=
  prev <- get (λ s, mjoin (dict_get (rc_href rc) (t_active s))) ;;
  if bool_decide (ti_mrid <$> interval = prev) then ret tt
  else match interval with
  | None => modify (λ s, set_t_active (dict_set (rc_href rc) None (t_active s)) s)
  | Some ti =>
      prices <- fetch_prices ti ;;
      match prices with
      | None => ret tt
      | Some blocks =>
          modify (λ s, set_t_active (dict_set (rc_href rc) (Some (ti_mrid ti)) (t_active s)) s) ;;;
          n <- build_notification tp rc ti blocks lfdis ;;
          t_emit (RelayPrice n)
      end
  end.

(** What a poll has seen: the mRIDs and the rate components of the tree. *)
Abbreviation seen := (list bytes * list string)%type (only parsing).

Definition process_rate_component (tp : TariffProfileState) (lfdis : list string) (now : Z)
    (rc : RateComponentState) : T unit :=
  for_each (rc_intervals rc) (λ ti, ack_received ti now) ;;;
  active <- get (λ s, active_interval (t_draw (t_tick s)) (rc_intervals rc) now (t_rand s)) ;;
  modify (set_t_rand active.2) ;;;
  relay_if_changed tp rc active.1 lfdis.

Definition process_profile (lfdis : list string) (tp : TariffProfileState) (acc : seen) : T seen :=
  now <- get (λ s, t_clock (t_tick s) (tp_fsa tp)) ;;
  for_each (tp_rate_components tp) (process_rate_component tp lfdis now) ;;;
  ret (acc.1 ++ (ti_mrid <$> (tp_rate_components tp ≫= rc_intervals)),
       acc.2 ++ (rc_href <$> tp_rate_components tp)).

(** The earliest of the tree's clocks. *)
Definition earliest_clock (s : Tariff) : Z :=
  match t_clock (t_tick s) <$> (tp_fsa <$> dict_values (t_profiles s)) with
  | [] => t_clock (t_tick s) None
  | c :: cs => foldl Z.min c cs
  end.

Definition process_tariffs : T unit :=
  pruned <- get (λ s, rand_prune (earliest_clock s) RAND_GRACE (t_rand s)) ;;
  match pruned with
  | None => raise TKeyError
  | Some rand =>
      modify (set_t_rand rand) ;;;
      lfdis <- get (λ s, hex <$> t_devices s) ;;
      match lfdis with
      | [] => ret tt
      | _ =>
          live <- over_values (λ s, dict_values (t_profiles s)) (process_profile lfdis) ([], []) ;;
          t_track (retain_mrids (list_to_set live.1)) ;;;
          modify (λ s, set_t_active (filter (λ hm, hm.1 ∈ live.2) (t_active s)) s)
      end
  end.
End Processor.

(** ** The interval in effect *)

Definition cached (ti : TariffInterval) (cache : RandCache) : option (Z * Z) :=
  dict_get (ti_mrid ti) (rc_cache cache).

(** The window an interval has once its offsets are drawn. *)
Definition window (ti : TariffInterval) (offs : Z * Z) : Z * Z :=
  (ti_start ti + offs.1, ti_start ti + offs.1 + ti_duration ti + offs.2).

(** Not cancelled, drawn, and its window contains [now]. *)
Definition in_effect (now : Z) (cache : RandCache) (ti : TariffInterval) : Prop :=
  is_cancelled ti = false ∧
  ∃ offs, cached ti cache = Some offs ∧ (window ti offs).1 <= now < (window ti offs).2.

(** Newest creation first, then latest effective start. *)
Definition rank (cache : RandCache) (ti : TariffInterval) : Z * Z :=
  (default 0 (ti_creation ti), match cached ti cache with Some o => ti_start ti + o.1 | None => 0 end).

Definition keeps_draws (cache cache' : RandCache) : Prop :=
  ∀ m o, dict_get m (rc_cache cache) = Some o → dict_get m (rc_cache cache') = Some o.

Lemma effective_window_spec draw ti cache :
  ∃ offs cache', effective_window draw ti cache = (window ti offs, cache') ∧
    cached ti cache' = Some offs ∧ keeps_draws cache cache' ∧
    (∀ offs', cached ti cache = Some offs' → offs' = offs ∧ cache' = cache).
Proof.
  unfold effective_window, interval_offsets, get_offsets, cached.
  destruct (dict_get (ti_mrid ti) (rc_cache cache)) as [[a b]|] eqn:Hc.
  - exists (a, b), cache. split_and!; [done|done|by intros ?|]. intros o [= <-]. done.
  - eexists (_, _), _. split_and!; [reflexivity|apply dict_get_set_eq| |done].
    intros m o Hm. cbn. rewrite dict_get_set_ne; [done|]. congruence.
Qed.

Lemma in_effect_keeps now cache cache' ti :
  keeps_draws cache cache' → is_Some (cached ti cache) →
  (in_effect now cache' ti ↔ in_effect now cache ti) ∧ rank cache' ti = rank cache ti.
Proof.
  intros Hk [o Ho]. assert (cached ti cache' = Some o) as Ho' by (by apply Hk).
  unfold in_effect, rank. by rewrite Ho, Ho'.
Qed.

Lemma key_gt_trans k1 k2 k3 : key_gt k2 k1 = true → key_gt k3 k1 = false → key_gt k3 k2 = false.
Proof.
  unfold key_gt. destruct k1, k2, k3. cbn.
  rewrite !orb_true_iff, !orb_false_iff, !andb_true_iff, !andb_false_iff.
  rewrite !Z.ltb_ge, !Z.ltb_lt, !Z.eqb_neq, !Z.eqb_eq. lia.
Qed.

(** What the loop has established after the intervals [l]. *)
Record selected (now : Z) (l : list TariffInterval)
    (st : option (TariffInterval * (Z * Z)) * RandCache) : Prop := {
  se_drawn : ∀ ti, ti ∈ l → is_cancelled ti = false → is_Some (cached ti st.2);
  se_none : st.1 = None → ∀ ti, ti ∈ l → ¬ in_effect now st.2 ti;
  se_best : ∀ ti k, st.1 = Some (ti, k) →
    ti ∈ l ∧ in_effect now st.2 ti ∧ k = rank st.2 ti ∧
    ∀ ti', ti' ∈ l → in_effect now st.2 ti' → key_gt (rank st.2 ti') k = false;
}.

(** The selection so far, seen with a larger cache. *)
Lemma selected_keeps now l best cache cache' :
  selected now l (best, cache) → keeps_draws cache cache' → selected now l (best, cache').
Proof.
  intros [Hd Hn Hb] Hk. cbn in *.
  assert (∀ ti, ti ∈ l → is_cancelled ti = false →
    (in_effect now cache' ti ↔ in_effect now cache ti) ∧ rank cache' ti = rank cache ti) as Hsame.
  { intros ti Hin Hc. apply in_effect_keeps; [done|by apply Hd]. }
  split; cbn.
  - intros ti Hin Hc. destruct (Hd ti Hin Hc) as [o Ho]. exists o. by apply Hk.
  - intros Hbn ti Hin Hi. apply (Hn Hbn ti Hin). apply Hsame; [done|apply Hi|done].
  - intros ti k ->. destruct (Hb ti k eq_refl) as (Hin & Hi & -> & Hmax).
    destruct (Hsame ti Hin (proj1 Hi)) as [He Hr]. split_and!; [done|by apply He|done|].
    intros ti' Hin' Hi'. destruct (Hsame ti' Hin' (proj1 Hi')) as [He' ->]. by apply Hmax, He'.
Qed.

(** A cancelled interval changes nothing. *)
Lemma selected_cancelled now l st ti :
  is_cancelled ti = true → selected now l st → selected now (l ++ [ti]) st.
Proof.
  intros Hc [Hd Hn Hb].
  assert (∀ ti', ti' ∈ l ++ [ti] → is_cancelled ti' = false → ti' ∈ l) as Hold.
  { intros ti' [?| ->%list_elem_of_singleton]%elem_of_app ?; [done|congruence]. }
  split.
  - intros ti' Hin Hc'. by apply Hd; [apply Hold|].
  - intros Hbn ti' Hin Hi. apply (Hn Hbn ti'); [apply Hold; [done|apply Hi]|done].
  - intros ti' k Hk. destruct (Hb ti' k Hk) as (Hin & Hi & Hr & Hmax).
    split_and!; [apply elem_of_app; by left|done|done|].
    intros ti'' Hin'' Hi''. apply Hmax; [apply Hold; [done|apply Hi'']|done].
Qed.

Lemma key_gt_irrefl k : key_gt k k = false.
Proof. unfold key_gt. by rewrite !Z.ltb_irrefl, andb_false_r. Qed.

(** An interval drawn now joins the list: it replaces the best one when it is
    in effect and ranks higher. *)
Lemma selected_drawn now l best cache ti :
  selected now l (best, cache) → is_cancelled ti = false → is_Some (cached ti cache) →
  let better := match best with Some (_, k) => key_gt (rank cache ti) k | None => true end in
  (in_effect now cache ti → better = true → selected now (l ++ [ti]) (Some (ti, rank cache ti), cache)) ∧
  (in_effect now cache ti → better = false → selected now (l ++ [ti]) (best, cache)) ∧
  (¬ in_effect now cache ti → selected now (l ++ [ti]) (best, cache)).
Proof.
  intros [Hd Hn Hb] Hc Ho. cbn in Hd, Hn, Hb. cbn zeta.
  assert (∀ ti', ti' ∈ l ++ [ti] → is_cancelled ti' = false → is_Some (cached ti' cache)) as Hd'.
  { intros ti' [?| ->%list_elem_of_singleton]%elem_of_app ?; [by apply Hd|done]. }
  assert (∀ ti', ti' ∈ l → ti' ∈ l ++ [ti]) as Hl by (intros; apply elem_of_app; by left).
  split_and!; intros Hi.
  - intros Hgt. split; cbn; [done|done|]. intros ti' k [= <- <-].
    split_and!; [apply elem_of_app; right; by apply list_elem_of_singleton|done|done|].
    intros ti'' [Hin''| ->%list_elem_of_singleton]%elem_of_app Hi''; [|apply key_gt_irrefl].
    destruct best as [[bt bk]|]; [|by destruct (Hn eq_refl ti'')].
    destruct (Hb bt bk eq_refl) as (_ & _ & _ & Hmax).
    eapply key_gt_trans; [exact Hgt|by apply Hmax].
  - intros Hgt. destruct best as [[bt bk]|]; [|done]. split; cbn; [done|done|].
    intros ti' k [= <- <-]. destruct (Hb bt bk eq_refl) as (Hbin & Hbi & -> & Hmax).
    split_and!; [auto..|].
    intros ti'' [Hin''| ->%list_elem_of_singleton]%elem_of_app Hi''; [by apply Hmax|done].
  - split; cbn; [done| |].
    + intros -> ti' [?| ->%list_elem_of_singleton]%elem_of_app; [by apply Hn|done].
    + intros ti' k ->. destruct (Hb ti' k eq_refl) as (Hbin & Hbi & -> & Hmax). split_and!; [auto..|].
      intros ti'' [Hin''| ->%list_elem_of_singleton]%elem_of_app Hi''; [by apply Hmax|done].
Qed.

Lemma consider_selected draw now l st ti :
  selected now l st → selected now (l ++ [ti]) (consider draw now st ti).
Proof.
  intros Hs. destruct st as [best cache]. unfold consider.
  destruct (is_cancelled ti) eqn:Hc; [by apply selected_cancelled|]. cbn [fst snd].
  destruct (effective_window_spec draw ti cache) as (o & cache' & -> & Hco & Hk & _).
  destruct (selected_drawn now l best cache' ti) as (Hbetter & Hworse & Hout);
    [by eapply selected_keeps|done|by eexists|].
  unfold in_effect in Hbetter, Hworse, Hout. rewrite Hco in Hbetter, Hworse, Hout.
  destruct (window ti o) as [a e] eqn:Hw.
  assert (rank cache' ti = (default 0 (ti_creation ti), a)) as Hrank.
  { unfold rank, window in *. rewrite Hco. by simplify_eq. }
  rewrite <- Hrank.
  destruct ((a <=? now) && (now <? e)) eqn:Hb; cbn [negb].
  - apply andb_true_iff in Hb as [?%Z.leb_le ?%Z.ltb_lt].
    assert (is_cancelled ti = false ∧ ∃ offs, Some o = Some offs ∧ (window ti offs).1 <= now < (window ti offs).2)
      as Hi by (split; [done|]; exists o; rewrite Hw; done).
    destruct best as [[bt bk]|]; [destruct (key_gt _ bk) eqn:Hgt|]; auto.
  - apply Hout. intros (_ & o' & [= <-] & Hwin). rewrite Hw in Hwin. cbn in Hwin.
    rewrite (proj2 (Z.leb_le _ _)), (proj2 (Z.ltb_lt _ _)) in Hb by lia. done.
Qed.

Lemma fold_selected draw now cache l :
  selected now l (foldl (consider draw now) (None, cache) l).
Proof.
  induction l as [|ti l IH] using rev_ind.
  - split; cbn; [set_solver|set_solver|done].
  - rewrite foldl_app. cbn. by apply consider_selected.
Qed.

(** [active_interval] returns an interval in effect: not cancelled, drawn
    from the list, its effective window containing [now]; of several it returns
    one of the newest creation and, among those, of the latest effective start;
    and it returns none only when none is in effect.  The windows are those of
    the cache it leaves, so asking for an interval's window again, whatever
    [random] would return, gives the one it was chosen by. *)
Theorem active_interval_correct (draw : bytes → nat → Z → Z) (intervals : list TariffInterval)
    (now : Z) (cache : RandCache) :
  let '(res, cache') := active_interval draw intervals now cache in
  match res with
  | Some ti =>
      ti ∈ intervals ∧ in_effect now cache' ti ∧
      (∀ ti', ti' ∈ intervals → in_effect now cache' ti' →
         key_gt (rank cache' ti') (rank cache' ti) = false) ∧
      (∀ draw', ∃ start end_,
         effective_window draw' ti cache' = ((start, end_), cache') ∧ start <= now < end_)
  | None => ∀ ti, ti ∈ intervals → ¬ in_effect now cache' ti
  end ∧
  (∀ ti, ti ∈ intervals → is_cancelled ti = false → is_Some (cached ti cache')).
Proof.
  unfold active_interval. pose proof (fold_selected draw now cache intervals) as Hs.
  destruct (foldl _ _ _) as [[[ti k]|] cache']; cbn; destruct Hs as [Hd Hn Hb]; cbn in *.
  - split; [|exact Hd]. destruct (Hb ti k eq_refl) as (Hin & Hi & -> & Hmax). split_and!; [done..|].
    intros draw'. destruct Hi as (_ & o & Ho & Hw).
    destruct (effective_window_spec draw' ti cache') as (o' & c' & Hrun & _ & _ & Hsame).
    destruct (Hsame o Ho) as [-> ->]. rewrite Hrun. destruct (window ti o') as [a e]. by exists a, e.
  - split; [|exact Hd]. by apply Hn.
Qed.

(** ** Acknowledgements *)

(** The acknowledgements that reached the server. *)
Definition landed (log : list TariffAction) : list resp_key :=
  omap (λ a, match a with
             | PostPrice _ b PostOk => Some (pr_subject b, pr_status b, pr_lfdi b)
             | _ => None
             end) log.

Definition is_sent (k : resp_key) (s : Tariff) : Prop := k ∈ dict_keys (sent (t_tracker s)).

(** Each response lands at most once, is not one already sent, and is recorded. *)
Definition acked (s s' : Tariff) : Prop :=
  ∃ new, t_log s' = t_log s ++ new ∧ NoDup (landed new) ∧ (∀ k, k ∈ landed new → ¬ is_sent k s) ∧
    (∀ k, is_sent k s' ↔ is_sent k s ∨ k ∈ landed new).

Record progresses (s s' : Tariff) : Prop := {
  pg_profiles : t_profiles s' = t_profiles s;
  pg_devices : t_devices s' = t_devices s;
  pg_rand : rand_wf (t_rand s) → rand_wf (t_rand s');
  pg_claims : in_flight (t_tracker s) = [] → in_flight (t_tracker s') = [];
  pg_acked : acked s s';
}.

#[export] Instance acked_preorder : PreOrder acked.
Proof.
  split.
  - intros s. exists []. rewrite app_nil_r. split_and!; [done|constructor|by intros k ?%elem_of_nil|].
    intros k. rewrite elem_of_nil. tauto.
  - intros s1 s2 s3 (n1 & L1 & D1 & F1 & S1) (n2 & L2 & D2 & F2 & S2). exists (n1 ++ n2).
    unfold landed in *. rewrite L2, L1, app_assoc, omap_app. split_and!; [done| | |].
    + apply NoDup_app. split_and!; [done| |done]. intros k Hk Hk2. apply (F2 k Hk2), S1. by right.
    + intros k [Hk|Hk]%elem_of_app; [by apply F1|]. intros Hs. apply (F2 k Hk), S1. by left.
    + intros k. rewrite S2, S1, elem_of_app. tauto.
Qed.

#[export] Instance progresses_preorder : PreOrder progresses.
Proof.
  split; [intros s; by split|].
  intros s1 s2 s3 [] []. split; [congruence|congruence|auto|auto|by etrans].
Qed.

(** Nothing sent, nothing emitted. *)
Lemma progresses_quiet s s' :
  t_profiles s' = t_profiles s → t_devices s' = t_devices s → t_tracker s' = t_tracker s →
  t_log s' = t_log s → (rand_wf (t_rand s) → rand_wf (t_rand s')) → progresses s s'.
Proof.
  intros Hp Hd Ht Hl Hr. split; [done|done|done|by rewrite Ht|].
  exists []. rewrite app_nil_r. split_and!; [done|constructor|by intros k ?%elem_of_nil|].
  unfold is_sent. rewrite Ht. intros k. rewrite elem_of_nil. tauto.
Qed.

(** [m] returns from [s] by progress only, and [Q] holds of the result. *)
Definition runs {A} (m : T A) (s : Tariff) (Q : A → Tariff → Prop) : Prop :=
  ∃ a s', m s = (inr a, s') ∧ progresses s s' ∧ Q a s'.

Lemma runs_ret {A} (a : A) s (Q : A → Tariff → Prop) : Q a s → runs (ret a) s Q.
Proof. intros HQ. by exists a, s. Qed.

Lemma runs_bind {A B} (m : T A) (k : A → T B) s P Q :
  runs m s P → (∀ a s1, progresses s s1 → P a s1 → runs (k a) s1 Q) → runs (bind m k) s Q.
Proof.
  intros (a & s1 & Hm & Hp & HP) Hk. destruct (Hk a s1 Hp HP) as (b & s2 & Hk2 & Hp2 & HQ).
  exists b, s2. unfold bind. rewrite Hm. split; [done|]. split; [by etrans|done].
Qed.

Lemma runs_get {A B} (g : Tariff → A) (k : A → T B) s Q : runs (k (g s)) s Q → runs (bind (get g) k) s Q.
Proof. done. Qed.

Lemma runs_modify f s (Q : unit → Tariff → Prop) : progresses s (f s) → Q tt (f s) → runs (modify f) s Q.
Proof. intros Hp HQ. by exists tt, (f s). Qed.

Lemma runs_weaken {A} (m : T A) s (P Q : A → Tariff → Prop) :
  runs m s P → (∀ a s', progresses s s' → P a s' → Q a s') → runs m s Q.
Proof. intros (a & s' & Hm & Hp & HP) H. exists a, s'. auto. Qed.

Lemma runs_for_each {A} (l : list A) (f : A → T unit) (P : A → Tariff → Prop) s :
  (∀ x s1 s2, progresses s1 s2 → P x s1 → P x s2) →
  (∀ x s1, x ∈ l → progresses s s1 → runs (f x) s1 (λ _, P x)) →
  runs (for_each l f) s (λ _ s', ∀ x, x ∈ l → P x s').
Proof.
  intros Hk. revert s. induction l as [|x l IH]; intros s Hf; cbn [for_each].
  - apply runs_ret. by intros x ?%elem_of_nil.
  - eapply runs_bind; [apply Hf; [left|done]|]. intros [] s1 H1 Hx.
    eapply runs_weaken.
    + apply IH. intros y s2 Hy H2. apply Hf; [by right|by etrans].
    + intros [] s2 H2 Hl y [->|Hy]%elem_of_cons; [by eapply Hk|by apply Hl].
Qed.

(** A loop over a dictionary that stays as it is. *)
Lemma runs_over_values {E : TariffEnv} {A B} (values : Tariff → list A) (f : A → B → T B) (acc : B) s
    (I : list A → B → Tariff → Prop) :
  (∀ s1 s2, progresses s1 s2 → values s2 = values s1) →
  I [] acc s →
  (∀ done x acc s1, done ++ [x] `prefix_of` values s → progresses s s1 → I done acc s1 →
     runs (f x acc) s1 (I (done ++ [x]))) →
  runs (over_values values f acc) s (I (values s)).
Proof.
  intros Hv H0 Hf. unfold over_values. apply runs_get.
  assert (∀ rest done acc s1, values s = done ++ rest → progresses s s1 → I done acc s1 →
    runs (each_value (length (values s)) (length rest) (length done) values f acc) s1 (I (values s)))
    as H; [|by apply (H (values s) [])].
  clear acc H0. induction rest as [|x rest IH]; intros done acc s1 Hd Hp HI;
    cbn [each_value length]; apply runs_get; rewrite (Hv _ _ Hp), Nat.eqb_refl; cbn [negb].
  - apply runs_ret. by rewrite Hd, app_nil_r.
  - rewrite Hd at 1. rewrite list_lookup_middle by done. eapply runs_bind.
    + apply Hf; [rewrite Hd; exists rest; by rewrite <- app_assoc|done|exact HI].
    + intros acc' s2 H2 HI2. replace (S (length done)) with (length (done ++ [x]))
        by (rewrite length_app; cbn; lia).
      apply IH; [by rewrite Hd, <- app_assoc|by etrans|done].
Qed.

Section Polls.
Context {E : TariffEnv}.
Hypothesis Hcalm : ∀ n s, t_interfere n s = s.
Hypothesis Hpost : ∀ n path body, t_post n path body ≠ PostCancelled.

(** The interval asks for an acknowledgement and says where to send it. *)
Definition wants_ack (ti : TariffInterval) : Prop :=
  response_required_allows (ti_response_required ti) ACKNOWLEDGED = true ∧
  ∃ path, ti_reply_to ti = Some path ∧ path ≠ "".

Definition server_up : Prop := ∀ n path body, t_post n path body = PostOk.

Definition ack_done (ti : TariffInterval) (lfdi : bytes) (s : Tariff) : Prop :=
  server_up → wants_ack ti → is_sent (ti_mrid ti, ACKNOWLEDGED, lfdi) s.

Lemma is_sent_progresses k s s' : progresses s s' → is_sent k s → is_sent k s'.
Proof. intros [_ _ _ _ (new & _ & _ & _ & H)] Hk. apply H. by left. Qed.

Lemma ack_done_progresses ti lfdi s s' : progresses s s' → ack_done ti lfdi s → ack_done ti lfdi s'.
Proof. intros Hp Hd Hup Hw. eapply is_sent_progresses; [exact Hp|by apply Hd]. Qed.

Lemma t_await_runs s (Q : unit → Tariff → Prop) :
  (∀ s', t_tracker s' = t_tracker s → t_log s' = t_log s → progresses s s' → Q tt s') → runs t_await s Q.
Proof.
  intros HQ. unfold t_await. assert (progresses s (set_t_tick (S (t_tick s)) (t_interfere (t_tick s) s))).
  { rewrite Hcalm. by apply progresses_quiet. }
  apply runs_modify; [done|]. apply HQ; [by rewrite Hcalm..|done].
Qed.

Lemma post_price_runs ti lfdi now s :
  in_flight (t_tracker s) = [] →
  runs (post_price_response ti ACKNOWLEDGED lfdi now) s (λ _, ack_done ti lfdi).
Proof.
  intros Hc. unfold post_price_response.
  destruct (response_required_allows _ _) eqn:Hal; cbn [negb];
    [|apply runs_ret; intros _ [Hw _]; congruence].
  destruct (ti_reply_to ti) as [[|c path]|] eqn:Hpath;
    try (apply runs_ret; intros _ (_ & p & Hp & Hne); congruence).
  set (k := (ti_mrid ti, ACKNOWLEDGED, lfdi)).
  assert ((reserve_price t_patience k s = (inr false, s) ∧ is_sent k s) ∨
          (reserve_price t_patience k s = (inr true, set_t_tracker (claim k (t_tracker s)) s) ∧ ¬ is_sent k s))
    as [[Hres Hk]|[Hres Hk]].
  { unfold is_sent. rewrite <- dict_mem_spec.
    destruct t_patience; cbn [reserve_price]; unfold bind, get;
      (destruct (dict_mem k (sent (t_tracker s))); [by left|]); right; rewrite Hc; by split. }
  { unfold bind at 1. exists tt, s. rewrite Hres. split; [done|]. split; [done|]. by intros _ _. }
  unfold runs, bind at 1. rewrite Hres. cbn [negb]. unfold bind, get, t_await, t_emit, t_track, modify.
  set (body := {| pr_lfdi := lfdi |}).
  destruct (t_post _ _ body) eqn:Ho; [| |by destruct (Hpost _ _ _ Ho)];
    eexists tt, _; (split; [reflexivity|]); rewrite Hcalm; (split; [split; cbn; try done|]).
  - intros _. rewrite Hc. case_decide as Hd; [by destruct (Hd eq_refl)|done].
  - exists [PostPrice (String c path) body PostOk]. split_and!; [done|apply NoDup_singleton| |].
    + by intros k' ->%list_elem_of_singleton.
    + unfold is_sent. cbn. intros k'. rewrite elem_of_dict_set_keys, list_elem_of_singleton. tauto.
  - intros _ _. unfold is_sent. cbn. rewrite elem_of_dict_set_keys. by left.
  - intros _. rewrite Hc. case_decide as Hd; [by destruct (Hd eq_refl)|done].
  - exists [PostPrice (String c path) body PostFailed]. split_and!; [done|constructor|by intros k' ?%elem_of_nil|].
    intros k'. rewrite elem_of_nil. tauto.
  - intros Hup. by rewrite Hup in Ho.
Qed.

Lemma ack_received_runs ti now s :
  in_flight (t_tracker s) = [] →
  runs (ack_received ti now) s (λ _ s', ∀ lfdi, lfdi ∈ t_devices s → ack_done ti lfdi s').
Proof.
  intros Hc. unfold ack_received. destruct (response_required_allows _ _) eqn:Hal; cbn [negb];
    [|apply runs_ret; intros lfdi _ _ [Hw _]; congruence].
  apply (runs_over_values _ _ _ s (λ done (_ : unit) s', ∀ lfdi, lfdi ∈ done → ack_done ti lfdi s')).
  - intros s1 s2 Hp. apply pg_devices, Hp.
  - by intros lfdi ?%elem_of_nil.
  - intros done lfdi [] s1 _ Hp Hdone. eapply runs_weaken; [apply post_price_runs; by apply (pg_claims _ _ Hp)|].
    intros [] s2 H2 Hl lfdi' [Hin| ->%list_elem_of_singleton]%elem_of_app; [|done].
    eapply ack_done_progresses; [done|by apply Hdone].
Qed.

Lemma set_rand_progresses rand s : (rand_wf (t_rand s) → rand_wf rand) → progresses s (set_t_rand rand s).
Proof. intros Hr. by apply progresses_quiet. Qed.

Lemma effective_window_wf draw ti cache :
  rand_wf cache → rand_wf (effective_window draw ti cache).2.
Proof.
  intros Hwf. unfold effective_window, interval_offsets.
  pose proof (get_offsets_wf (draw (ti_mrid ti)) (ti_mrid ti) (ti_randomize_start ti)
    (ti_randomize_duration ti) (ti_start ti) (ti_duration ti) cache Hwf) as H.
  by destruct (get_offsets _ _ _ _ _ _ _) as [[? ?] ?].
Qed.

Lemma active_interval_wf draw intervals now cache :
  rand_wf cache → rand_wf (active_interval draw intervals now cache).2.
Proof.
  intros Hwf. unfold active_interval.
  assert (∀ st, rand_wf st.2 → rand_wf (foldl (consider draw now) st intervals).2) as H.
  { induction intervals as [|ti l IH]; intros st Hst; cbn; [done|]. apply IH. unfold consider.
    destruct (is_cancelled ti); [done|]. pose proof (effective_window_wf draw ti st.2 Hst) as Hw.
    destruct (effective_window draw ti st.2) as [[a e] c]. destruct (negb _); [done|].
    by destruct (st.1) as [[? ?]|]. }
  specialize (H (None, cache) Hwf). by destruct (foldl _ _ _).
Qed.

Lemma emit_price_progresses n s : progresses s (set_t_log (t_log s ++ [RelayPrice n]) s).
Proof.
  split; try done. exists [RelayPrice n]. split_and!; [done|constructor|by intros k ?%elem_of_nil|].
  intros k. rewrite elem_of_nil. tauto.
Qed.

Lemma relay_if_changed_runs tp rc interval lfdis s :
  runs (relay_if_changed tp rc interval lfdis) s (λ _ _, True).
Proof.
  unfold relay_if_changed. apply runs_get. destruct (bool_decide _); [by apply runs_ret|].
  destruct interval as [ti|]; [|apply runs_modify; [by apply progresses_quiet|done]].
  apply (runs_bind _ _ _ (λ _ _, True)).
  - unfold fetch_prices. destruct (ti_prices_link ti) as [[|c h]|]; [by apply runs_ret| |by apply runs_ret].
    apply runs_get. eapply (runs_bind _ _ _ (λ _ _, True)); [by apply t_await_runs|]. intros [] s1 _ _.
    by apply runs_ret.
  - intros [blocks|] s1 _ _; [|by apply runs_ret].
    eapply (runs_bind _ _ _ (λ _ _, True)); [apply runs_modify; [by apply progresses_quiet|done]|].
    intros [] s2 _ _. apply (runs_bind _ _ _ (λ _ _, True)).
    + unfold build_notification. apply runs_get.
      eapply (runs_bind _ _ _ (λ _ _, True)).
      * apply runs_modify; [|done]. apply set_rand_progresses. apply effective_window_wf.
      * intros [] s3 _ _. destruct (effective_window _ _ _) as [[a e] c]. by apply runs_ret.
    + intros n s3 _ _. apply runs_modify; [apply emit_price_progresses|done].
Qed.

(** Every interval of the component has been acknowledged for every device. *)
Definition rc_done (rc : RateComponentState) (devices : list bytes) (s : Tariff) : Prop :=
  ∀ ti lfdi, ti ∈ rc_intervals rc → lfdi ∈ devices → ack_done ti lfdi s.

Lemma rc_done_progresses rc devices s s' : progresses s s' → rc_done rc devices s → rc_done rc devices s'.
Proof. intros Hp Hd ti lfdi Hti Hl. eapply ack_done_progresses; [done|by apply Hd]. Qed.

Lemma process_rate_component_runs tp lfdis now rc s :
  in_flight (t_tracker s) = [] →
  runs (process_rate_component tp lfdis now rc) s (λ _, rc_done rc (t_devices s)).
Proof.
  intros Hc. unfold process_rate_component.
  eapply runs_bind.
  - apply (runs_for_each _ _ (λ ti s', ∀ lfdi, lfdi ∈ t_devices s → ack_done ti lfdi s')).
    + intros ti s1 s2 Hp Hd lfdi Hl. eapply ack_done_progresses; [done|by apply Hd].
    + intros ti s1 _ Hp. rewrite <- (pg_devices _ _ Hp). apply ack_received_runs. by apply (pg_claims _ _ Hp).
  - intros [] s1 _ Hd. apply runs_get.
    eapply (runs_bind _ _ _ (λ _, rc_done rc (t_devices s))).
    + apply runs_modify; [apply set_rand_progresses, active_interval_wf|].
      intros ti lfdi Hti Hl. by apply Hd.
    + intros [] s2 _ Hd2. eapply runs_weaken; [apply relay_if_changed_runs|].
      intros [] s3 H3 _. by eapply rc_done_progresses.
Qed.

(** ... of the profile, and the poll has noted its mRIDs. *)
Definition tp_done (tp : TariffProfileState) (mrids : list bytes) (devices : list bytes) (s : Tariff) : Prop :=
  ∀ rc, rc ∈ tp_rate_components tp →
    rc_done rc devices s ∧ ∀ ti, ti ∈ rc_intervals rc → ti_mrid ti ∈ mrids.

Lemma process_profile_runs lfdis tp acc s :
  in_flight (t_tracker s) = [] →
  runs (process_profile lfdis tp acc) s
    (λ acc' s', tp_done tp acc'.1 (t_devices s) s' ∧ acc.1 ⊆ acc'.1).
Proof.
  intros Hc. unfold process_profile. apply runs_get. eapply runs_bind.
  - apply (runs_for_each _ _ (λ rc s', rc_done rc (t_devices s) s')).
    + intros rc s1 s2 Hp. by apply rc_done_progresses.
    + intros rc s1 _ Hp. rewrite <- (pg_devices _ _ Hp). apply process_rate_component_runs.
      by apply (pg_claims _ _ Hp).
  - intros [] s1 _ Hd. apply runs_ret. split; [|set_solver]. intros rc Hrc. split; [by apply Hd|].
    intros ti Hti. apply elem_of_app. right. apply list_elem_of_fmap. exists ti. split; [done|].
    apply list_elem_of_bind. by exists rc.
Qed.

(** The intervals of the tree. *)
Definition served (s : Tariff) : list TariffInterval :=
  (dict_values (t_profiles s) ≫= tp_rate_components) ≫= rc_intervals.

Lemma elem_of_served ti s :
  ti ∈ served s ↔ ∃ tp rc, tp ∈ dict_values (t_profiles s) ∧ rc ∈ tp_rate_components tp ∧
                           ti ∈ rc_intervals rc.
Proof.
  unfold served. rewrite list_elem_of_bind. setoid_rewrite list_elem_of_bind. naive_solver.
Qed.

Lemma walk_runs lfdis s :
  in_flight (t_tracker s) = [] →
  runs (over_values (λ s, dict_values (t_profiles s)) (process_profile lfdis) ([], [])) s
    (λ live s', ∀ tp, tp ∈ dict_values (t_profiles s) → tp_done tp live.1 (t_devices s) s').
Proof.
  intros Hc.
  apply (runs_over_values (λ s, dict_values (t_profiles s)) _ _ s
           (λ done (acc : list bytes * list string) s',
           ∀ tp, tp ∈ done → tp_done tp acc.1 (t_devices s) s')).
  - intros s1 s2 Hp. by rewrite (pg_profiles _ _ Hp).
  - by intros tp ?%elem_of_nil.
  - intros done tp acc s1 _ Hp Hdone.
    eapply runs_weaken; [apply process_profile_runs; by apply (pg_claims _ _ Hp)|].
    rewrite (pg_devices _ _ Hp). intros acc' s2 H2 [Htp Hsub] tp'
      [Hin| ->%list_elem_of_singleton]%elem_of_app; [|done].
    intros rc Hrc. destruct (Hdone tp' Hin rc Hrc) as [Hd Hm]. split; [by eapply rc_done_progresses|].
    intros ti Hti. by apply Hsub, Hm.
Qed.

(** A pricing poll that nothing disturbs always returns; no acknowledgement
    lands twice, and none that was already recorded lands again; the record of
    an interval the server still serves is kept, so a later poll does not
    acknowledge it again; and when the server accepts what is posted, every
    interval of the tree that asks for an acknowledgement has been acknowledged
    for every device, by this poll or an earlier one. *)
Theorem price_acks_exactly_once (s : Tariff) :
  rand_wf (t_rand s) → in_flight (t_tracker s) = [] → t_devices s ≠ [] →
  ∃ s' new, process_tariffs s = (inr tt, s') ∧
    rand_wf (t_rand s') ∧ in_flight (t_tracker s') = [] ∧
    t_log s' = t_log s ++ new ∧ NoDup (landed new) ∧ (∀ k, k ∈ landed new → ¬ is_sent k s) ∧
    ∀ ti lfdi, ti ∈ served s → lfdi ∈ t_devices s →
      let k := (ti_mrid ti, ACKNOWLEDGED, lfdi) in
      (is_sent k s' ↔ is_sent k s ∨ k ∈ landed new) ∧ (server_up → wants_ack ti → is_sent k s').
Proof.
  intros Hwf Hc Hdev. unfold process_tariffs. unfold bind at 1, get at 1.
  destruct (rand_prune_ok (earliest_clock s) RAND_GRACE (t_rand s) Hwf) as (rand & -> & Hrand & _).
  unfold bind at 1, modify at 1, bind at 1, get at 1. set (s0 := set_t_rand rand s).
  change (t_devices s) with (t_devices s0) in Hdev |- *.
  destruct (t_devices s0) as [|d ds] eqn:Hd; [done|]. cbn [fmap list_fmap].
  destruct (walk_runs (hex d :: (hex <$> ds)) s0 Hc) as (live & s1 & Hrun & Hp & Hdone).
  unfold bind at 1. change (list_fmap bytes string hex ds) with (hex <$> ds). rewrite Hrun.
  unfold bind, t_track, modify. rewrite Hd in Hdone.
  destruct Hp as [_ _ Hr1 Hc1 (new & Hlog & Hnd & Hfresh & Hsent)].
  eexists _, new. split; [reflexivity|]. split; [by apply Hr1|]. split; [by apply Hc1|].
  split; [exact Hlog|]. split; [exact Hnd|]. split; [exact Hfresh|].
  intros ti lfdi (tp & rc & Htp & Hrc & Hti)%elem_of_served Hl. cbn zeta.
  destruct (Hdone tp Htp rc Hrc) as [Hack Hm].
  assert (∀ k, k.1.1 = ti_mrid ti →
    k ∈ dict_keys (filter (λ ks : resp_key * Z, ks.1.1.1 ∈ (list_to_set live.1 : gset bytes)) (sent (t_tracker s1)))
    ↔ is_sent k s1) as Hret.
  { intros k Hk. unfold is_sent, dict_keys. rewrite !list_elem_of_fmap.
    setoid_rewrite list_elem_of_filter. split; [naive_solver|]. intros ([k' z] & -> & Hin).
    exists (k', z). split_and!; [done| |done]. cbn in *. rewrite Hk, elem_of_list_to_set. by apply Hm. }
  unfold is_sent at 1 3. cbn [t_tracker set_t_active set_t_tracker retain_mrids sent].
  rewrite Hret by done. split; [apply Hsent|]. intros Hup Hw. by apply Hack.
Qed.
End Polls.

(** ** Runs *)

Definition tariff_env : TariffEnv :=
  {| t_interfere := λ _ s, s; t_clock := λ _ _, 1000; t_draw := λ _ _ _ _, 0;
     t_post := λ _ _ _, PostOk; t_future := λ _ _, true;
     t_fetch := λ _ _, Some [{| pb_price := Some 25; pb_start_value := 0; pb_block := 0 |}];
     t_patience := 0 |}.

Definition sample_interval (mrid : bytes) (start duration : Z) : TariffInterval :=
  {| ti_mrid := mrid; ti_start := start; ti_duration := duration; ti_randomize_start := None;
     ti_randomize_duration := None; ti_status := Some 0; ti_creation := Some 1; ti_tier := 1;
     ti_response_required := Some [1]; ti_reply_to := Some "/rsp"; ti_prices_link := Some "/cti" |}.

Definition sample_profile : TariffProfileState :=
  {| tp_href := "/tp/1"; tp_primacy := 1; tp_currency := Some 36; tp_multiplier := Some (-3);
     tp_rate_components :=
       [{| rc_href := "/tp/1/rc/1";
           rc_intervals := [sample_interval "I1" 900 600; sample_interval "I2" 1500 600] |}];
     tp_fsa := None |}.

Definition sample_tariff : Tariff :=
  mkTariff empty_rand [] empty_tracker [("/tp/1", sample_profile)] ["A"] [] 0.

Lemma price_acks_exactly_once_witness :
  ∃ s' new, @process_tariffs tariff_env sample_tariff = (inr tt, s') ∧ t_log s' = [] ++ new ∧
    landed new = [("I1", ACKNOWLEDGED, "A"); ("I2", ACKNOWLEDGED, "A")].
Proof.
  destruct (price_acks_exactly_once (E := tariff_env) (λ _ _, eq_refl) ltac:(discriminate) sample_tariff)
    as (s' & new & Hrun & _ & _ & Hlog & _).
  - split; [constructor|constructor|done].
  - reflexivity.
  - discriminate.
  - exists s', new. split; [exact Hrun|]. split; [exact Hlog|].
    vm_compute in Hrun. injection Hrun as <-. cbn in Hlog. subst new. vm_compute. reflexivity.
Defined.

(** What was relayed, by rate component and interval. *)
Definition relayed_prices (log : list TariffAction) : list (string * string) :=
  omap (λ a, match a with RelayPrice n => Some (pn_rate_component n, pn_mrid n) | _ => None end) log.

(** The tree is taken at its word.  When one poll finds it empty, as after a
    walk whose fetches all failed, the poll forgets what it acknowledged and
    relayed, and the next poll that finds the same intervals again acknowledges
    them a second time and relays the unchanged price a second time. *)
Theorem empty_walk_repeats :
  let poll tree s := (@process_tariffs tariff_env (set_t_profiles tree s)).2 in
  let tree := [("/tp/1", sample_profile)] in
  let s2 := poll tree (poll tree sample_tariff) in
  let s4 := poll tree (poll [] s2) in
  landed (t_log s2) = [("I1", ACKNOWLEDGED, "A"); ("I2", ACKNOWLEDGED, "A")] ∧
  landed (t_log s4) = [("I1", ACKNOWLEDGED, "A"); ("I2", ACKNOWLEDGED, "A");
                       ("I1", ACKNOWLEDGED, "A"); ("I2", ACKNOWLEDGED, "A")] ∧
  relayed_prices (t_log s2) = [("/tp/1/rc/1", hex "I1")] ∧
  relayed_prices (t_log s4) = [("/tp/1/rc/1", hex "I1"); ("/tp/1/rc/1", hex "I1")].
Proof. vm_compute. auto. Qed.
