(* ===== verification/Scaling.v ===== *)
(** * Scaling: telemetry/scale_factor.py and telemetry/scaling.py

    Connector values, as integers with a power-of-ten multiplier.

    A float stands here for the decimal that [str] shows of it, [m * 10^e];
    every finite float has one.  The products and quotients of the source are
    taken exactly and its roundings at their decimal ties, so the last binary
    digit of float arithmetic is not modelled. *)

From Stdlib Require Import Ascii.
From S2P Require Import Prelude.

(** ** Floats *)

Inductive Float :=
| Fin (m e : Z)
| Inf
| NaN.

Inductive PyErr := OverflowError | ValueError.

(** [round(a / b)] for [0 < b]: to the nearest integer, ties to even. *)
Definition div_round (a b : Z) : Z :=
  let q := a / b in
  match Z.compare (2 * (a mod b)) b with
  | Lt => q
  | Gt => q + 1
  | Eq => if Z.even q then q else q + 1
  end.

(** [int(a / b)] for [0 < b]. *)
Definition trunc (a b : Z) : Z := Z.quot a b.

(** A decimal times a power of ten, as a fraction. *)
Definition numer (m e : Z) : Z := m * 10 ^ Z.max 0 e.
Definition denom (e : Z) : Z := 10 ^ Z.max 0 (- e).

(** ** Scale factors *)

(** [round(value, 9)], in units of 1e-9. *)
Definition round9 (m e : Z) : Z := div_round (numer m (e + 9)) (denom (e + 9)).

(** The trailing zeros of a number taken off: [n = m * 10^t]. *)
Fixpoint strip (fuel : nat) (n t : Z) : Z * Z :=
  match fuel with
  | O => (n, t)
  | S fuel' => if n mod 10 =? 0 then strip fuel' (n / 10) (t + 1) else (n, t)
  end.

(** The number of digits of [n > 0]. *)
Fixpoint ndigits (fuel : nat) (n : Z) : Z :=
  match fuel with
  | O => 0
  | S fuel' => if n <? 10 then 1 else 1 + ndigits fuel' (n / 10)
  end.

Definition size (n : Z) : nat := S (Z.to_nat (Z.log2 n)).

Definition digit (n : Z) : Ascii.ascii := Ascii.ascii_of_nat (48 + Z.to_nat n).

(** The last [k] digits of [n]. *)
Fixpoint last_digits (k : nat) (n : Z) : list Ascii.ascii :=
  match k with
  | O => []
  | S k' => last_digits k' (n / 10) ++ [digit (n mod 10)]
  end.

(** [e-05], [e+16], [e+100] *)
Definition exponent_text (x : Z) : list Ascii.ascii :=
  "e"%char :: (if x <? 0 then "-"%char else "+"%char)
    :: last_digits (Z.to_nat (Z.max 2 (ndigits (size (Z.abs x)) (Z.abs x)))) (Z.abs x).

(** What [str] shows after the point, of a value in units of 1e-9; [None]: it
    shows no point.  [str] writes [0.0001] and [1e-05], [1000000000000000.0] and
    [1e+16]. *)
Definition after_point (r : Z) : option (list Ascii.ascii) :=
  let a := Z.abs r in
  if a =? 0 then Some ["0"%char]
  else
    let '(m, t) := strip (size a) a (-9) in
    let n := ndigits (size m) m in
    let point := n + t in
    if (-4 <? point) && (point <=? 16) then
      Some (if 0 <=? t then ["0"%char] else last_digits (Z.to_nat (- t)) m)
    else if n =? 1 then None
    else Some (last_digits (Z.to_nat (n - 1)) m ++ exponent_text (point - 1)).

(** [text.rstrip("0")] *)
Fixpoint lstrip0 (l : list Ascii.ascii) : list Ascii.ascii :=
  match l with
  | c :: l' => if decide (c = "0"%char) then lstrip0 l' else l
  | [] => []
  end.
Definition rstrip0 (l : list Ascii.ascii) : list Ascii.ascii := rev (lstrip0 (rev l)).

(** [_clamp_int16], one round per digit too many. *)
Definition fits (x : Z) : bool := (-32768 <=? x) && (x <=? 32767).

Fixpoint clamp_loop (fuel : nat) (x mult : Z) : Z * Z :=
  match fuel with
  | O => (x, mult)
  | S fuel' => if fits x then (x, mult) else clamp_loop fuel' (div_round x 10) (mult + 1)
  end.

Definition clamp_int16 (x mult : Z) : Z * Z := clamp_loop (size (Z.abs x)) x mult.

Definition float_to_int (v : Float) : PyErr + Z * Z :=
  match v with
  | Inf => inl OverflowError               (* int(inf) *)
  | NaN => inl ValueError
  | Fin m e =>
      let r := round9 m e in
      inr match rstrip0 <$> after_point r with
          | Some ((_ :: _) as places) =>
              let k := Z.of_nat (length places) in
              clamp_int16 (div_round (r * 10 ^ k) (10 ^ 9)) (- k)
          | _ => clamp_int16 (trunc r (10 ^ 9)) 0
          end
  end.

(** What a connector may report; a bool is an int. *)
Inductive Val :=
| VNone
| VStr
| VList
| VInt (z : Z)
| VFloat (f : Float)
| VDict (d : dict string Val)
| VOther.

(** [value_name] and [multiplier] of the result; [None]: the field is left out. *)
Record ScaleFactor := mkSF { sf_value : Z; sf_multiplier : Z }.

Definition convert_dict_sf (d : dict string Val) (value_name : string) : PyErr + option ScaleFactor :=
  let val := match dict_get "value" d with Some v => Some v | None => dict_get value_name d end in
  match val, dict_get "multiplier" d with
  | Some VNone, _ | None, _ => inr None
  | Some v, Some (VInt mult) =>
      if (mult <? -128) || (127 <? mult) then inr None
      else
        match v with
        | VFloat f =>
            match float_to_int f with
            | inl err => inl err
            | inr (val, mult) => let '(val, mult) := clamp_int16 val mult in inr (Some (mkSF val mult))
            end
        | VInt val => let '(val, mult) := clamp_int16 val mult in inr (Some (mkSF val mult))
        | _ => inr None
        end
  | Some _, _ => inr None
  end.

Definition get_sf (value : Val) (value_name : string) : PyErr + option ScaleFactor :=
  match value with
  | VNone | VStr | VList | VOther => inr None
  | VDict d => convert_dict_sf d value_name
  | VInt z =>
      match float_to_int (Fin z 0) with
      | inl err => inl err
      | inr (val, mult) => inr (Some (mkSF val mult))
      end
  | VFloat f =>
      match float_to_int f with
      | inl err => inl err
      | inr (val, mult) => inr (Some (mkSF val mult))
      end
  end.

(** The fields of the binding that take a scale factor. *)
Definition to_active_power (v : Val) := get_sf v "value".
Definition to_apparent_power (v : Val) := get_sf v "value".
Definition to_watt_hour (v : Val) := get_sf v "value".
Definition to_amp_hour (v : Val) := get_sf v "value".
Definition to_current_rms (v : Val) := get_sf v "value".
Definition to_reactive_power (v : Val) := get_sf v "value".
Definition to_reactive_susceptance (v : Val) := get_sf v "value".
Definition to_voltage_rms (v : Val) := get_sf v "value".
Definition to_power_factor (v : Val) := get_sf v "displacement".

(** ** Readings with a flow direction: telemetry/scaling.py *)

Definition FLOW_NORMAL : Z := 1.
Definition FLOW_REVERSE : Z := 19.

Record ScaledReading := mkReading { sr_value : Z; flow_direction : Z }.

(** [int(raw * 10**p)] *)
Definition int_of (p : Z) (raw : Float) : PyErr + Z :=
  match raw with
  | Inf => inl OverflowError
  | NaN => inl ValueError
  | Fin m e => inr (trunc (numer m (e + p)) (denom (e + p)))
  end.

Definition nothing : ScaledReading := mkReading 0 FLOW_NORMAL.

(** The sign goes into the flow direction. *)
Definition signed (p : Z) (raw : option Float) : PyErr + ScaledReading :=
  match raw with
  | None => inr nothing
  | Some f =>
      match int_of p f with
      | inl err => inl err
      | inr value => inr (if value <? 0 then mkReading (Z.abs value) FLOW_REVERSE else mkReading value FLOW_NORMAL)
      end
  end.

(** The sign is dropped. *)
Definition magnitude (p : Z) (raw : option Float) : PyErr + ScaledReading :=
  match raw with
  | None => inr nothing
  | Some f =>
      match int_of p f with
      | inl err => inl err
      | inr value => inr (mkReading (Z.abs value) FLOW_NORMAL)
      end
  end.

Definition scale_w := signed 0.
Definition scale_wh := magnitude 0.
Definition scale_var := signed 0.
Definition scale_hz := magnitude 3.
Definition scale_v := magnitude 1.
Definition scale_pf := signed 3.
Definition scale_va := signed 0.
Definition scale_a := signed 1.

Example float_to_int_e1 : float_to_int (Fin 314 (-2)) = inr (314, -2). Proof. reflexivity. Qed.
Example float_to_int_e2 : float_to_int (Fin 500000 0) = inr (5000, 2). Proof. vm_compute. reflexivity. Qed.
Example float_to_int_e3 : float_to_int (Fin 1 (-1)) = inr (1, -1). Proof. vm_compute. reflexivity. Qed.
Example float_to_int_e4 : float_to_int (Fin 5 (-5)) = inr (0, 0). Proof. vm_compute. reflexivity. Qed.
Example float_to_int_e5 : float_to_int (Fin 15 (-6)) = inr (2, -5). Proof. vm_compute. reflexivity. Qed.
Example float_to_int_e6 : float_to_int (Fin 15 15) = inr (15000, 12). Proof. vm_compute. reflexivity. Qed.
Example float_to_int_e7 : float_to_int (Fin (-40000) 0) = inr (-4000, 1). Proof. vm_compute. reflexivity. Qed.

(** ** Lemmas *)

Lemma div_round_near a b : 0 < b → 2 * Z.abs (a - b * div_round a b) <= b.
Proof.
  intros Hb. unfold div_round. pose proof (Z.div_mod a b ltac:(lia)). pose proof (Z.mod_pos_bound a b Hb).
  destruct (Z.compare_spec (2 * (a mod b)) b); [destruct (Z.even _)|..]; nia.
Qed.

Lemma div_round_exact a b : 0 < b → div_round (a * b) b = a.
Proof.
  intros Hb. unfold div_round. rewrite Z.mod_mul, Z.div_mul by lia.
  destruct (Z.compare_spec (2 * 0) b); lia.
Qed.

Lemma fits_spec x : fits x = true ↔ -32768 <= x <= 32767.
Proof. unfold fits. lia. Qed.

(** Rounding one digit away at least halves a number too large. *)
Lemma div_round_log2 x : fits x = false → 0 < Z.log2 (Z.abs x) ∧ Z.log2 (Z.abs (div_round x 10)) < Z.log2 (Z.abs x).
Proof.
  intros Hf. unfold fits in Hf. pose proof (div_round_near x 10 ltac:(lia)) as Hd.
  assert (1 <= Z.log2 (Z.abs x)) as H1 by (apply Z.log2_le_pow2; lia).
  split; [lia|]. assert (0 < Z.abs (div_round x 10)) as Hp by lia. apply Z.log2_lt_pow2; [done|].
  pose proof (Z.log2_spec (Z.abs x) ltac:(lia)) as [_ Hs]. rewrite Z.pow_succ_r in Hs by lia. lia.
Qed.

(** What [_clamp_int16] does to a number [x] of [mult] places: [j] rounds. *)
Lemma clamp_loop_spec fuel x mult :
  (Z.to_nat (Z.log2 (Z.abs x)) < fuel)%nat →
  ∃ i j, clamp_loop fuel x mult = (i, mult + j) ∧ 0 <= j ∧ fits i = true ∧
    9 * Z.abs (x - i * 10 ^ j) <= 5 * (10 ^ j - 1) ∧
    (0 < j → 3277 <= Z.abs i) ∧
    (∀ c y, fits c = true → 0 <= y → x = c * 10 ^ y → x = i * 10 ^ j).
Proof.
  revert x mult. induction fuel as [|fuel IH]; intros x mult Hf; [lia|]. cbn [clamp_loop].
  destruct (fits x) eqn:Ex.
  { exists x, 0. rewrite Z.add_0_r, Z.pow_0_r. split_and!; try lia; done. }
  destruct (div_round_log2 x Ex) as [Hl Hd]. pose proof (div_round_near x 10 ltac:(lia)) as Hn.
  set (x' := div_round x 10) in *.
  destruct (IH x' (mult + 1)) as (i & j & Hr & Hj & Hi & He & Hbig & Hex).
  { assert (Z.to_nat (Z.log2 (Z.abs x')) < Z.to_nat (Z.log2 (Z.abs x)))%nat; [|lia].
    apply Z2Nat.inj_lt; [apply Z.log2_nonneg|lia|done]. }
  exists i, (j + 1). rewrite Z.pow_add_r, Z.pow_1_r by lia.
  split_and!; [rewrite Hr; f_equal; lia|lia|done|lia| |].
  - intros _. destruct (decide (0 < j)); [by apply Hbig|]. assert (j = 0) as -> by lia.
    unfold fits in Ex. rewrite Z.pow_0_r in He. lia.
  - intros c y Hc Hy ->. destruct (decide (y = 0)) as [->|Hy0].
    { rewrite Z.pow_0_r, Z.mul_1_r in Ex. congruence. }
    assert (c * 10 ^ y = c * 10 ^ (y - 1) * 10) as Hcy.
    { replace (10 ^ y) with (10 ^ Z.succ (y - 1)) by (f_equal; lia). rewrite Z.pow_succ_r by lia. lia. }
    assert (x' = c * 10 ^ (y - 1)) as Hx' by (unfold x'; rewrite Hcy; by apply div_round_exact).
    rewrite Hcy, <- Hx', (Hex c (y - 1)) by (done || lia). lia.
Qed.

Lemma pow10_pos k : 0 <= k → 0 < 10 ^ k.
Proof. intros. by apply Z.pow_pos_nonneg. Qed.

Lemma log2_div10 n : 10 <= n → 0 <= Z.log2 (n / 10) < Z.log2 n.
Proof.
  intros Hn. split; [apply Z.log2_nonneg|]. pose proof (Z.div_mod n 10 ltac:(lia)).
  pose proof (Z.mod_pos_bound n 10 ltac:(lia)). apply Z.log2_lt_pow2; [lia|].
  pose proof (Z.log2_spec n ltac:(lia)) as [_ H1]. rewrite Z.pow_succ_r in H1 by apply Z.log2_nonneg. lia.
Qed.

Lemma strip_spec fuel n t :
  0 < n → (Z.to_nat (Z.log2 n) < fuel)%nat →
  ∃ m t', strip fuel n t = (m, t') ∧ t <= t' ∧ 0 < m ∧ m mod 10 ≠ 0 ∧ n = m * 10 ^ (t' - t).
Proof.
  revert n t. induction fuel as [|fuel IH]; intros n t Hn Hf; [lia|]. cbn [strip].
  destruct (n mod 10 =? 0) eqn:E.
  - apply Z.eqb_eq in E. pose proof (Z.div_mod n 10 ltac:(lia)) as Hd.
    destruct (IH (n / 10) (t + 1)) as (m & t' & Hs & Ht & Hm & Hm10 & Hn'); [lia| |].
    { pose proof (log2_div10 n ltac:(lia)). lia. }
    exists m, t'. split_and!; [done|lia|done|done|].
    replace (t' - t) with (Z.succ (t' - (t + 1))) by lia. rewrite Z.pow_succ_r by lia. lia.
  - apply Z.eqb_neq in E. exists n, t. rewrite Z.sub_diag, Z.pow_0_r. split_and!; done || lia.
Qed.

Lemma ndigits_spec fuel n :
  0 < n → (Z.to_nat (Z.log2 n) < fuel)%nat →
  1 <= ndigits fuel n ∧ 10 ^ (ndigits fuel n - 1) <= n < 10 ^ ndigits fuel n.
Proof.
  revert n. induction fuel as [|fuel IH]; intros n Hn Hf; [lia|]. cbn [ndigits].
  destruct (n <? 10) eqn:E; [apply Z.ltb_lt in E; cbn; lia|]. apply Z.ltb_ge in E.
  pose proof (Z.div_mod n 10 ltac:(lia)). pose proof (Z.mod_pos_bound n 10 ltac:(lia)).
  destruct (IH (n / 10)) as (H1 & H2 & H3); [lia| |].
  { pose proof (log2_div10 n ltac:(lia)). lia. }
  set (k := ndigits fuel (n / 10)) in *. split; [lia|].
  replace (1 + k - 1) with (Z.succ (k - 1)) by lia. replace (1 + k) with (Z.succ k) by lia.
  rewrite !Z.pow_succ_r by lia. lia.
Qed.

Lemma length_last_digits k n : length (last_digits k n) = k.
Proof. revert n. induction k as [|k IH]; intros n; [done|]. cbn. rewrite length_app, IH. cbn. lia. Qed.

Lemma digit_zero n : 0 <= n < 10 → digit n = "0"%char → n = 0.
Proof.
  intros Hn. assert (n = 0 ∨ n = 1 ∨ n = 2 ∨ n = 3 ∨ n = 4 ∨ n = 5 ∨ n = 6 ∨ n = 7 ∨ n = 8 ∨ n = 9) as H by lia.
  repeat destruct H as [->|H]; subst; done.
Qed.

Lemma rstrip0_kept l c : c ≠ "0"%char → rstrip0 (l ++ [c]) = l ++ [c].
Proof.
  intros Hc. unfold rstrip0. rewrite rev_app_distr. cbn. rewrite decide_False by done.
  cbn. by rewrite rev_involutive.
Qed.

Lemma rstrip0_snoc l c : rstrip0 (l ++ [c]) = if decide (c = "0"%char) then rstrip0 l else l ++ [c].
Proof.
  unfold rstrip0. rewrite rev_app_distr. cbn. case_decide; [done|]. cbn. by rewrite rev_involutive.
Qed.

Lemma rstrip0_at_least l c rest :
  c ≠ "0"%char → (length l < length (rstrip0 (l ++ c :: rest)))%nat.
Proof.
  intros Hc. induction rest as [|x rest IH] using rev_ind.
  - rewrite rstrip0_kept by done. rewrite length_app. cbn. lia.
  - rewrite app_comm_cons, app_assoc, rstrip0_snoc. case_decide; [done|]. rewrite !length_app. cbn. lia.
Qed.

(** The decimal places that are multiplied away. *)
Definition places (r : Z) : Z :=
  match rstrip0 <$> after_point r with Some l => Z.of_nat (length l) | None => 0 end.

Lemma places_nonneg r : 0 <= places r.
Proof. unfold places. destruct (rstrip0 <$> _); lia. Qed.

Lemma last_digits_kept k m : m mod 10 ≠ 0 → 0 < m → rstrip0 (last_digits (S k) m) = last_digits (S k) m.
Proof.
  intros Hm Hp. cbn. apply rstrip0_kept. intros Hd. apply Hm, digit_zero; [|done]. by apply Z.mod_pos_bound.
Qed.

(** They leave no fraction, for values that [str] shows down to their last
    digit. *)
Lemma places_exact r :
  100000 <= Z.abs r →
  (places r <= 9 ∨ 10 ^ 25 <= Z.abs r) ∧ (r * 10 ^ places r) mod 10 ^ 9 = 0.
Proof.
  intros Hr. pose proof (places_nonneg r) as Hk.
  destruct (strip_spec (size (Z.abs r)) (Z.abs r) (-9)) as (m & t & Hs & Ht & Hm & Hm10 & Ha); [lia|unfold size; lia|].
  destruct (ndigits_spec (size m) m Hm) as (Hn1 & Hlo & Hhi); [unfold size; lia|].
  set (n := ndigits (size m) m) in *.
  assert (-4 < n + t) as Hpt.
  { destruct (Z.lt_ge_cases (-4) (n + t)) as [|Hle]; [done|]. exfalso.
    assert (Z.abs r < 10 ^ 5); [|lia]. rewrite Ha.
    apply Z.lt_le_trans with (10 ^ n * 10 ^ (t - -9)); [apply Z.mul_lt_mono_pos_r; [apply pow10_pos; lia|done]|].
    rewrite <- Z.pow_add_r by lia. apply Z.pow_le_mono_r; lia. }
  assert ((0 <= places r + t) ∧ (places r <= 9 ∨ 10 ^ 25 <= Z.abs r)) as [Hkt Hd].
  { unfold places, after_point in *. rewrite (proj2 (Z.eqb_neq (Z.abs r) 0)) in * by lia. rewrite Hs in *.
    fold n in Hk |- *. rewrite (proj2 (Z.ltb_lt (-4) _)) in * by done. cbn [andb] in *.
    destruct (n + t <=? 16) eqn:E16; [apply Z.leb_le in E16|apply Z.leb_gt in E16].
    - cbn [fmap option_fmap option_map]. destruct (0 <=? t) eqn:Et; [apply Z.leb_le in Et|apply Z.leb_gt in Et].
      { change (rstrip0 ["0"%char]) with (@nil ascii). cbn [length]. lia. }
      replace (Z.to_nat (- t)) with (S (Z.to_nat (- t - 1))) by lia.
      rewrite last_digits_kept, length_last_digits by done. lia.
    - assert (10 ^ 25 <= Z.abs r) as Hbig.
      { rewrite Ha. apply Z.le_trans with (10 ^ (n - 1) * 10 ^ (t - -9)).
        - rewrite <- Z.pow_add_r by lia. apply Z.pow_le_mono_r; lia.
        - apply Z.mul_le_mono_nonneg_r; [pose proof (pow10_pos (t - -9)); lia|done]. }
      split; [|by right]. destruct (n =? 1) eqn:E1; [apply Z.eqb_eq in E1; cbn; lia|apply Z.eqb_neq in E1].
      cbn [fmap option_fmap option_map]. unfold exponent_text.
      set (sg := if n + t - 1 <? 0 then _ else _).
      assert (sg ≠ "0"%char) as Hsg by (unfold sg; destruct (_ <? _); discriminate).
      pose proof (rstrip0_at_least (last_digits (Z.to_nat (n - 1)) m ++ ["e"%char]) sg
        (last_digits (Z.to_nat (Z.max 2 (ndigits (size (Z.abs (n + t - 1))) (Z.abs (n + t - 1))))) (Z.abs (n + t - 1))) Hsg) as Hl.
      rewrite <- app_assoc in Hl. cbn [app] in Hl. rewrite length_app, length_last_digits in Hl. cbn [length] in Hl. lia. }
  split; [done|]. set (k := places r) in *.
  replace (r * 10 ^ k) with (Z.sgn r * m * 10 ^ (t + k) * 10 ^ 9); [by apply Z.mod_mul|].
  rewrite <- Z.mul_assoc, <- Z.pow_add_r by lia. replace (t + k + 9) with ((t - -9) + k) by lia.
  rewrite Z.pow_add_r by lia. assert (r = Z.sgn r * Z.abs r) as Hsg by (pose proof (Z.sgn_abs r); lia).
  rewrite Hsg at 2. rewrite Ha. ring.
Qed.

Lemma clamp_spec x mult :
  ∃ i j, clamp_int16 x mult = (i, mult + j) ∧ 0 <= j ∧ fits i = true ∧
    9 * Z.abs (x - i * 10 ^ j) <= 5 * (10 ^ j - 1) ∧
    (0 < j → 3277 <= Z.abs i) ∧
    (∀ c y, fits c = true → 0 <= y → x = c * 10 ^ y → x = i * 10 ^ j).
Proof. apply clamp_loop_spec. unfold size. lia. Qed.

(** Rounds of clamping cost less than one part in 5897. *)
Lemma clamp_error x i j :
  0 <= j → 9 * Z.abs (x - i * 10 ^ j) <= 5 * (10 ^ j - 1) → (0 < j → 3277 <= Z.abs i) →
  5897 * Z.abs (x - i * 10 ^ j) <= Z.abs x.
Proof.
  intros Hj He Hi. destruct (decide (0 < j)) as [Hp|Hp].
  - pose proof (pow10_pos j Hj). specialize (Hi Hp).
    assert (3277 * 10 ^ j <= Z.abs (i * 10 ^ j)) by (rewrite Z.abs_mul, (Z.abs_eq (10 ^ j)) by lia; nia). lia.
  - assert (j = 0) as -> by lia. rewrite Z.pow_0_r in He. lia.
Qed.

Lemma float_to_int_eq m e :
  100000 <= Z.abs (round9 m e) →
  float_to_int (Fin m e) =
  inr (clamp_int16 (round9 m e * 10 ^ places (round9 m e) / 10 ^ 9) (- places (round9 m e))).
Proof.
  intros Hr. destruct (places_exact _ Hr) as [_ Hm]. cbn [float_to_int]. set (r := round9 m e) in *.
  unfold places in *. destruct (rstrip0 <$> after_point r) as [[|c l]|]; f_equal.
  1, 3: cbn [length Z.of_nat] in *; rewrite Z.mul_1_r in *; f_equal; unfold trunc;
    rewrite (Z.div_mod r (10 ^ 9)) at 1 by lia; rewrite Hm, Z.add_0_r, Z.mul_comm; by apply Z.quot_mul.
  set (k := Z.of_nat (length (c :: l))) in *. f_equal.
  rewrite (Z.div_mod (r * 10 ^ k) (10 ^ 9)) at 1 by lia. rewrite Hm, Z.add_0_r, Z.mul_comm.
  by apply div_round_exact.
Qed.

(** From the clamped number of [k] places to units of 1e-9. *)
Lemma in_units r k i j :
  0 <= k → 0 <= j → 0 <= j - k + 9 → (r * 10 ^ k) mod 10 ^ 9 = 0 →
  (r - i * 10 ^ (j - k + 9)) * 10 ^ k = (r * 10 ^ k / 10 ^ 9 - i * 10 ^ j) * 10 ^ 9.
Proof.
  intros Hk Hj Hjk Hm. pose proof (Z.div_mod (r * 10 ^ k) (10 ^ 9) ltac:(lia)) as Hd. rewrite Hm in Hd.
  assert (10 ^ (j - k + 9) * 10 ^ k = 10 ^ j * 10 ^ 9) as Hp
    by (rewrite <- !Z.pow_add_r by lia; f_equal; lia).
  rewrite Z.mul_sub_distr_r, <- Z.mul_assoc, Hp. lia.
Qed.

(** A number that a connector reports, of at least 0.0001, is posted as an
    integer that fits in an xs:short with a multiplier of at least -9, and the
    two together are off by less than one part in 5897 of the number rounded to
    nine places, and not at all if any such pair represents it. *)
Theorem float_to_int_accurate (m e : Z) :
  let r := round9 m e in
  100000 <= Z.abs r →
  ∃ i mult, float_to_int (Fin m e) = inr (i, mult) ∧ -32768 <= i <= 32767 ∧ -9 <= mult ∧
    2 * Z.abs (numer m (e + 9) - denom (e + 9) * r) <= denom (e + 9) ∧
    5897 * Z.abs (r - i * 10 ^ (mult + 9)) <= Z.abs r ∧
    ∀ c x, -32768 <= c <= 32767 → -9 <= x → r = c * 10 ^ (x + 9) → r = i * 10 ^ (mult + 9).
Proof.
  intros r Hr. rewrite float_to_int_eq by done. fold r. destruct (places_exact r Hr) as [Hd Hm].
  pose proof (places_nonneg r) as Hk. set (k := places r) in *. set (N := r * 10 ^ k / 10 ^ 9).
  assert (r * 10 ^ k = N * 10 ^ 9) as HN
    by (unfold N; pose proof (Z.div_mod (r * 10 ^ k) (10 ^ 9) ltac:(lia)); lia).
  destruct (clamp_spec N (- k)) as (i & j & Hc & Hj & Hi & He & Hbig & Hex). rewrite Hc.
  pose proof (pow10_pos j Hj) as Hpj. pose proof (pow10_pos k Hk) as Hpk. apply fits_spec in Hi as Hi'.
  assert (-9 <= - k + j) as Hmult.
  { destruct Hd as [Hk9|Hr25]; [lia|]. destruct (Z.lt_ge_cases (- k + j) (-9)) as [Hlt|]; [|done]. exfalso.
    assert (10 ^ (16 + k) <= Z.abs N) as HNb.
    { rewrite Z.pow_add_r by lia. apply (f_equal Z.abs) in HN. rewrite !Z.abs_mul in HN.
      rewrite (Z.abs_eq (10 ^ k)), (Z.abs_eq (10 ^ 9)) in HN by lia. nia. }
    assert (10 ^ (5 + j) <= 10 ^ (16 + k)) by (apply Z.pow_le_mono_r; lia).
    rewrite (Z.pow_add_r 10 5 j) in * by lia.
    assert (Z.abs (i * 10 ^ j) <= 32768 * 10 ^ j) by (rewrite Z.abs_mul, (Z.abs_eq (10 ^ j)) by lia; nia). lia. }
  assert ((r - i * 10 ^ (- k + j + 9)) * 10 ^ k = (N - i * 10 ^ j) * 10 ^ 9) as Hu.
  { replace (- k + j + 9) with (j - k + 9) by lia. apply in_units; [done|done|lia|done]. }
  exists i, (- k + j). split_and!; [done|lia|lia|done| | |].
  - unfold r, round9. apply div_round_near. apply pow10_pos. lia.
  - pose proof (clamp_error N i j Hj He Hbig) as Herr.
    apply (f_equal Z.abs) in Hu, HN. rewrite !Z.abs_mul in Hu, HN.
    rewrite (Z.abs_eq (10 ^ k)), (Z.abs_eq (10 ^ 9)) in Hu, HN by lia. nia.
  - intros c x Hc' Hx Hrc. assert (N = i * 10 ^ j) as HNi; [|nia].
    destruct (Z.lt_ge_cases (x + k) 0) as [Hneg|Hpos].
    + apply (Hex N 0); [|done|lia]. apply fits_spec.
      assert (c = N * 10 ^ (- (x + k))) as Hcn; [|pose proof (pow10_pos (- (x + k))); nia].
      assert (c * (10 ^ (x + 9) * 10 ^ k) * 10 ^ (- (x + k)) = N * 10 ^ (- (x + k)) * 10 ^ 9) as H1
        by (rewrite Z.mul_assoc, <- Hrc, HN; ring).
      rewrite <- Z.mul_assoc, <- !Z.pow_add_r in H1 by lia.
      replace (x + 9 + k + - (x + k)) with 9 in H1 by lia. lia.
    + apply (Hex c (x + k)); [by apply fits_spec|lia|].
      assert (c * (10 ^ (x + 9) * 10 ^ k) = N * 10 ^ 9) as H1 by (rewrite Z.mul_assoc, <- Hrc; done).
      rewrite <- Z.pow_add_r in H1 by lia. replace (x + 9 + k) with (x + k + 9) in H1 by lia.
      rewrite Z.pow_add_r in H1 by lia. lia.
Qed.

(** A witness: 123.456 kW. *)
Lemma float_to_int_accurate_witness :
  let r := round9 123456 0 in
  100000 <= Z.abs r ∧ ∃ i mult, float_to_int (Fin 123456 0) = inr (i, mult) ∧ -32768 <= i <= 32767 ∧
    5897 * Z.abs (r - i * 10 ^ (mult + 9)) <= Z.abs r.
Proof.
  assert (100000 <= Z.abs (round9 123456 0)) as H by (vm_compute; discriminate).
  split; [exact H|]. destruct (float_to_int_accurate 123456 0 H) as (i & mult & H1 & H2 & _ & _ & H3 & _).
  exists i, mult. split; [exact H1|]. split; [exact H2|exact H3].
Defined.

(** A pair that fits is left alone. *)
Lemma clamp_fits x mult : fits x = true → clamp_int16 x mult = (x, mult).
Proof. intros Hx. unfold clamp_int16, size. cbn [clamp_loop]. by rewrite Hx. Qed.

Lemma float_to_int_fits v i mult : float_to_int v = inr (i, mult) → fits i = true.
Proof.
  destruct v as [m e| |]; [|done..]. cbn [float_to_int]. intros [= H].
  assert (∀ x k, clamp_int16 x k = (i, mult) → fits i = true) as Hc.
  { intros x k E. destruct (clamp_spec x k) as (i' & j & E' & _ & Hi & _). congruence. }
  destruct (rstrip0 <$> after_point (round9 m e)) as [[|c l]|]; by eapply Hc.
Qed.

(** An integer with its multiplier keeps its value the same way. *)
Theorem dict_int_accurate (z mult : Z) (name : string) :
  -128 <= mult <= 127 →
  ∃ i j, get_sf (VDict [("value", VInt z); ("multiplier", VInt mult)]) name = inr (Some (mkSF i (mult + j))) ∧
    0 <= j ∧ -32768 <= i <= 32767 ∧ 5897 * Z.abs (z - i * 10 ^ j) <= Z.abs z.
Proof.
  intros Hm. cbn [get_sf]. unfold convert_dict_sf. change (dict_get "value" _) with (Some (VInt z)).
  change (dict_get "multiplier" _) with (Some (VInt mult)). cbn iota beta.
  rewrite (proj2 (Z.ltb_ge mult (-128))), (proj2 (Z.ltb_ge 127 mult)) by lia. cbn [orb].
  destruct (clamp_spec z mult) as (i & j & -> & Hj & Hi & He & Hbig & _). exists i, j.
  split_and!; [done|done|by apply fits_spec..|]. by apply clamp_error.
Qed.

(** ** Unintended behaviour *)

(** The multiplier a connector reports with a float is ignored: the float is
    converted with a multiplier of its own, which replaces the one given, so
    1.5 with multiplier 3 is posted as 1.5 instead of 1500. *)
Theorem float_multiplier_ignored (f : Float) (mult : Z) (name : string) :
  -128 <= mult <= 127 →
  get_sf (VDict [("value", VFloat f); ("multiplier", VInt mult)]) name = get_sf (VFloat f) name.
Proof.
  intros Hm. cbn [get_sf]. unfold convert_dict_sf. change (dict_get "value" _) with (Some (VFloat f)).
  change (dict_get "multiplier" _) with (Some (VInt mult)). cbn iota beta.
  rewrite (proj2 (Z.ltb_ge mult (-128))), (proj2 (Z.ltb_ge 127 mult)) by lia. cbn [orb].
  destruct (float_to_int f) as [err|[i k]] eqn:Ef; [done|]. by rewrite clamp_fits by (by eapply float_to_int_fits).
Qed.

Lemma float_multiplier_ignored_witness :
  get_sf (VDict [("value", VFloat (Fin 15 (-1))); ("multiplier", VInt 3)]) "value" = inr (Some (mkSF 15 (-1))).
Proof. etrans; [apply (float_multiplier_ignored (Fin 15 (-1)) 3 "value"); lia|]. vm_compute. reflexivity. Defined.

(** Below 0.0001 [str] uses an exponent, and a number of one digit is posted as
    zero. *)
Theorem small_floats_vanish :
  float_to_int (Fin 1 (-4)) = inr (1, -4) ∧ float_to_int (Fin 9 (-5)) = inr (0, 0).
Proof. vm_compute. done. Qed.

(** What a signed reading says is the number, cut off after its last place. *)
Theorem signed_reading (p m e : Z) :
  ∃ sr, signed p (Some (Fin m e)) = inr sr ∧ 0 <= sr_value sr ∧
    (if decide (flow_direction sr = FLOW_REVERSE) then - sr_value sr else sr_value sr) =
      trunc (numer m (e + p)) (denom (e + p)).
Proof.
  cbn [signed int_of]. eexists. split; [done|]. destruct (_ <? 0) eqn:E; cbn.
  - apply Z.ltb_lt in E. rewrite decide_True by done. lia.
  - apply Z.ltb_ge in E. by rewrite decide_False.
Qed.
