(* ===== verification/Mirror.v ===== *)
(** * Mirror: telemetry/mup.py and connectors/reading.py

    Which MirrorMeterReadings a device's readings become: their mRIDs, the
    ReadingTypes they are registered with in the MirrorUsagePoint, and the
    values posted under them.

    An LFDI and an mRID are lists of hex digits, as numbers, so that lower-casing
    an LFDI has nothing to do; a value is a decimal, as in [Scaling].  The
    SHA-256 of a text is a parameter. *)

From stdpp Require Import pretty.
From S2P Require Import Prelude Scaling.

#[local] Open Scope Z_scope.

(** ** Readings: connectors/reading.py *)

Record Reading := mkRead {
  rd_uom : Z;
  rd_value : Float;
  rd_phase : Z;
  rd_kind : Z;
  rd_qualifier : Z;
  rd_accumulation : Z;
  rd_flow : option Z;
  rd_multiplier : option Z;
  rd_quality : option Z;
}.

(** What a connector returns: [None] is an object that is not a [Reading] with
    integer codes and a number. *)
Abbreviation Entry := (option Reading).

Record ReadingIdentity := mkIdentity {
  id_uom : Z;
  id_phase : Z;
  id_kind : Z;
  id_qualifier : Z;
  id_accumulation : Z;
  id_flow : option Z;
  id_multiplier : Z;
}.

#[export] Instance ReadingIdentity_eq : EqDecision ReadingIdentity.
Proof. solve_decision. Defined.

Definition UOM_A : Z := 5.
Definition UOM_V : Z := 29.
Definition UOM_HZ : Z := 33.
Definition UOM_W : Z := 38.
Definition UOM_VA : Z := 61.
Definition UOM_VAR : Z := 63.
Definition UOM_PF : Z := 65.
Definition UOM_WH : Z := 72.

Definition DEFAULT_MULTIPLIER : dict Z Z := [(UOM_HZ, -3); (UOM_V, -1); (UOM_PF, -3); (UOM_A, -1)].

Definition effective_multiplier (r : Reading) (defaults : dict Z Z) : Z :=
  match rd_multiplier r with Some m => m | None => default 0 (dict_get (rd_uom r) defaults) end.

Definition reading_identity (r : Reading) (defaults : dict Z Z) : ReadingIdentity :=
  mkIdentity (rd_uom r) (rd_phase r) (rd_kind r) (rd_qualifier r) (rd_accumulation r) (rd_flow r)
    (effective_multiplier r defaults).

Definition is_uint8 (code : Z) : bool := (0 <=? code) && (code <=? 255).

Definition is_valid_reading (r : Reading) : bool :=
  forallb is_uint8 [rd_uom r; rd_phase r; rd_kind r; rd_qualifier r; rd_accumulation r] &&
  from_option is_uint8 true (rd_flow r) &&
  from_option (λ m, (-9 <=? m) && (m <=? 9)) true (rd_multiplier r) &&
  from_option (λ f, (0 <=? f) && (f <=? 65535)) true (rd_quality r) &&
  match rd_value r with Fin _ _ => true | _ => false end.

(** [valid_readings], for the identities seen. *)
Fixpoint keep_valid (seen : list ReadingIdentity) (entries : list Entry) : list Reading :=
  match entries with
  | [] => []
  | Some r :: rest =>
      if is_valid_reading r && negb (bool_decide (reading_identity r DEFAULT_MULTIPLIER ∈ seen))
      then r :: keep_valid (reading_identity r DEFAULT_MULTIPLIER :: seen) rest
      else keep_valid seen rest
  | None :: rest => keep_valid seen rest
  end.
Definition valid_readings (entries : list Entry) : list Reading := keep_valid [] entries.

(** ** Roles, profiles and directions *)

Inductive DeviceRole := DER | SITE_METER | DER_METER.
Inductive ReadingProfile := DEFAULT | SIGNED_LOAD_CONVENTION | SIGNED_AS_REPORTED.
Inductive PowerDirection := BySign | NET | SPLIT.      (* [BySign]: DEFAULT *)

#[export] Instance ReadingProfile_eq : EqDecision ReadingProfile.
Proof. solve_decision. Defined.

Definition ROLE_FLAGS_DER : Z := 0x49.
Definition ROLE_FLAGS_SITE : Z := 0x03.
Definition ROLE_FLAG_REVENUE_QUALITY : Z := 0x10.

Definition role_flags_for (role : DeviceRole) (revenue_quality : bool) : Z :=
  let flags := match role with SITE_METER => ROLE_FLAGS_SITE | _ => ROLE_FLAGS_DER end in
  if revenue_quality then Z.lor flags ROLE_FLAG_REVENUE_QUALITY else flags.

Definition profile_value (p : ReadingProfile) : string :=
  match p with
  | DEFAULT => "default"
  | SIGNED_LOAD_CONVENTION => "signed_load_convention"
  | SIGNED_AS_REPORTED => "signed_as_reported"
  end.

Definition FLOW_NOT_APPLICABLE : Z := 0.
Definition FLOW_NET : Z := 4.

Definition SIGNED_UOMS : list Z := [UOM_W; UOM_VAR; UOM_VA; UOM_A; UOM_PF].
Definition DIRECTED_UOMS : list Z := [UOM_W; UOM_VAR].
Definition SIGNED_LOAD_MULTIPLIER : dict Z Z := dict_set UOM_A 0 DEFAULT_MULTIPLIER.

Definition UOM_NAME : dict Z string :=
  [(UOM_W, "Real Power"); (UOM_VAR, "Reactive Power"); (UOM_HZ, "Frequency"); (UOM_V, "Voltage");
   (UOM_PF, "Power Factor"); (UOM_VA, "Apparent Power"); (UOM_A, "Current"); (UOM_WH, "Real Energy")].
Definition PHASE_NAME : dict Z string :=
  [(128, "A"); (64, "B"); (32, "C"); (129, "AN"); (65, "BN"); (33, "CN"); (132, "AB"); (66, "BC"); (40, "CA");
   (224, "ABC"); (225, "ABCN"); (136, "S1"); (16, "S1N"); (8, "S2N"); (24, "S12N"); (134, "S12")].
Definition DATA_QUALIFIER_NAME : dict Z string := [(2, "avg"); (8, "max"); (9, "min")].
Definition DIRECTION_SUFFIX : dict Z string :=
  [(FLOW_NET, "(net)"); (FLOW_NORMAL, "(forward)"); (FLOW_REVERSE, "(reverse)")].
Definition LINE_OF_PHASE : dict Z Z := [(128, 1); (129, 1); (64, 2); (65, 2); (32, 3); (33, 3)].

(** ** The slots of release 0.16 *)

Abbreviation Slots := (dict ReadingIdentity (Z * string)).

Definition identity_ (uom phase kind dq acc : Z) (flow : option Z) (multiplier : Z) : ReadingIdentity :=
  mkIdentity uom phase kind dq acc flow multiplier.

Definition system_entries (total_phases : list Z) (amp_multiplier : Z) : list (ReadingIdentity * (Z * string)) :=
  mjoin ((λ phase,
    [(identity_ UOM_W phase 37 12 12 None 0, (1, "Real Power"));
     (identity_ UOM_VAR phase 37 12 12 None 0, (2, "Reactive Power"));
     (identity_ UOM_VA phase 37 12 12 None 0, (6, "Apparent Power"));
     (identity_ UOM_A phase 37 12 12 None amp_multiplier, (7, "Current"))]) <$> total_phases) ++
  [(identity_ UOM_HZ 0 37 12 12 None (-3), (3, "Frequency"));
   (identity_ UOM_V 0 37 2 12 None (-1), (4, "Voltage"));
   (identity_ UOM_PF 0 0 12 12 None (-3), (5, "Power Factor"))].

Definition line_entries (amp_multiplier line phase v_phase : Z) : list (ReadingIdentity * (Z * string)) :=
  let base := 10 + (line - 1) * 6 in
  let name s := (s +:+ " L" +:+ pretty line)%string in
  [(identity_ UOM_W phase 37 12 12 None 0, (base, name "Real Power"));
   (identity_ UOM_VAR phase 37 12 12 None 0, (base + 1, name "Reactive Power"));
   (identity_ UOM_V v_phase 37 2 12 None (-1), (base + 2, name "Voltage"));
   (identity_ UOM_PF phase 0 12 12 None (-3), (base + 3, name "Power Factor"));
   (identity_ UOM_VA phase 37 12 12 None 0, (base + 4, name "Apparent Power"));
   (identity_ UOM_A phase 37 12 12 None amp_multiplier, (base + 5, name "Current"))].

Definition per_line_entries (amp_multiplier : Z) : list (ReadingIdentity * (Z * string)) :=
  line_entries amp_multiplier 1 128 129 ++ line_entries amp_multiplier 2 64 65 ++ line_entries amp_multiplier 3 32 33.

Definition table (entries : list (ReadingIdentity * (Z * string))) : Slots :=
  foldl (λ d e, dict_set e.1 e.2 d) [] entries.

Definition DEFAULT_SLOTS : Slots := table
  (system_entries [0] (-1) ++ per_line_entries (-1) ++
   [(identity_ UOM_WH 0 12 12 9 (Some FLOW_NORMAL) 0, (61, "Real Energy (forward)"));
    (identity_ UOM_WH 0 12 12 9 (Some FLOW_REVERSE) 0, (62, "Real Energy (reverse)"))]).

Definition signed_load_table (total_phases : list Z) : Slots := table
  (per_line_entries 0 ++ system_entries total_phases 0 ++
   ((λ phase, (identity_ UOM_WH phase 0 12 12 None 0, (8, "State of Energy"))) <$> total_phases) ++
   [(identity_ UOM_V 132 37 12 12 None (-1), (28, "Voltage L1-L2"));
    (identity_ UOM_V 66 37 12 12 None (-1), (29, "Voltage L2-L3"));
    (identity_ UOM_V 40 37 12 12 None (-1), (30, "Voltage L3-L1"))]).

Definition SIGNED_LOAD_SLOTS : Slots := signed_load_table [0; 132; 224].
Definition SIGNED_LOAD_SLOTS_SINGLE_PHASE : Slots := signed_load_table [0; 128; 132; 224].

Definition AS_REPORTED_SLOT_OFFSET : Z := 70.
Definition AS_REPORTED_SLOTS : Slots :=
  (λ e, (e.1, (e.2.1 + AS_REPORTED_SLOT_OFFSET, e.2.2))) <$> filter (λ e, e.2.1 <= 27) DEFAULT_SLOTS.
Definition AS_REPORTED_SIGNED_UOMS : list Z := [UOM_W; UOM_VAR; UOM_PF].

Definition LINE_2_3_PHASES : list Z := [64; 65; 32; 33].
Definition MULTI_PHASE_TOTAL_PHASES : list Z := [132; 224].
Definition TOTAL_UOMS : list Z := [UOM_W; UOM_VAR; UOM_VA; UOM_A; UOM_WH].
Definition MULTI_PHASE_ONLY_SLOTS : list Z := [10; 16; 22].
Definition DIRECTED_SLOT_BASE : dict Z Z := [(FLOW_NET, 31); (FLOW_NORMAL, 41); (FLOW_REVERSE, 51)].
Definition DIRECTED_OFFSET : dict Z Z := [(1, 0); (2, 1); (10, 2); (11, 3); (16, 4); (17, 5); (22, 6); (23, 7)].

(** ** mRIDs *)

Abbreviation digits := (list Z).

(** The last [k] decimal digits of [n], and all of them. *)
Fixpoint decimals (k : nat) (n : Z) : digits :=
  match k with O => [] | S k' => decimals k' (n / 10) ++ [n mod 10] end.
Definition str_int (n : Z) : digits := decimals (Z.to_nat (ndigits (size n) n)) n.
Definition of_digits (base : Z) (ds : digits) : Z := foldl (λ acc d, acc * base + d) 0 ds.

Definition compute_sfdi (lfdi : digits) : Z :=
  let sfdi_str := str_int (of_digits 16 (take 9 lfdi)) in
  let check_digit := (10 - (foldl Z.add 0 sfdi_str) mod 10) mod 10 in
  of_digits 10 (sfdi_str ++ [check_digit]).

(** [f"{n:012d}"] *)
Definition padded12 (n : Z) : digits := decimals (Z.to_nat (Z.max 12 (ndigits (size n) n))) n.
(** [f"{DEFAULT_PEN:08x}"] *)
Definition PEN_HEX : digits := [0; 0; 0; 0; 13; 1; 7; 14].

Definition create_mrid (lfdi : digits) (index : Z) : digits :=
  padded12 (compute_sfdi lfdi) ++
  (if index <? 10 then decimals 1 index ++ take 11 lfdi else decimals 2 index ++ take 10 lfdi) ++ PEN_HEX.

Definition HASHED_MARKER : Z := 15.

Definition hex_text (ds : digits) : string :=
  String.string_of_list_ascii ((λ d, hex_digit (Z.to_nat d)) <$> ds).

Definition join (parts : list string) : string := String.concat "|" parts.
Definition hashed_text (lfdi : digits) (i : ReadingIdentity) (salt : string) : string :=
  join ([hex_text lfdi; pretty (id_uom i); pretty (id_phase i); pretty (id_kind i); pretty (id_qualifier i);
         pretty (id_accumulation i); from_option pretty "" (id_flow i); pretty (id_multiplier i)] ++
        (if decide (salt = "") then [] else [salt])).

(** ** Readings to MirrorMeterReadings *)

Record ReadingType := mkType {
  rt_accumulation : Z;
  rt_commodity : Z;
  rt_qualifier : Z;
  rt_flow : option Z;
  rt_kind : Z;
  rt_multiplier : Z;
  rt_uom : Z;
  rt_phase : option Z;
}.

Record RegisteredReading := mkRegistered {
  rr_mrid : digits;
  rr_description : string;
  rr_type : ReadingType;
  rr_order : Z * Z * Z;
}.
Abbreviation Registration := (dict digits RegisteredReading).

Record Posted := mkPosted {
  po_mrid : digits;
  po_description : string;
  po_order : Z * Z * Z;
  po_reading : Reading;
  po_uom : Z;
  po_phase : Z;
  po_kind : Z;
  po_qualifier : Z;
  po_accumulation : Z;
  po_multiplier : Z;
  po_commodity : Z;
  po_flow : option Z;
  po_line : Z;
}.

Definition description (i : ReadingIdentity) (flow : option Z) : string :=
  let name :=
    if decide (id_uom i = UOM_WH ∧ id_kind i = 0) then "State of Energy"
    else default ("uom " +:+ pretty (id_uom i))%string (dict_get (id_uom i) UOM_NAME) in
  let parts := [name] ++
    (if decide (id_phase i = 0) then []
     else [default ("phase " +:+ pretty (id_phase i))%string (dict_get (id_phase i) PHASE_NAME)]) ++
    option_list (dict_get (id_qualifier i) DATA_QUALIFIER_NAME) ++
    option_list (flow ≫= λ f, dict_get f DIRECTION_SUFFIX) in
  String.substring 0 32 (String.concat " " parts).

(** Stable, by a key that is a triple of integers. *)
Definition order_leb (a b : Z * Z * Z) : bool :=
  match a, b with
  | (a1, a2, a3), (b1, b2, b3) =>
      (a1 <? b1) || ((a1 =? b1) && ((a2 <? b2) || ((a2 =? b2) && (a3 <=? b3))))
  end.
Fixpoint insert_by {A} (key : A → Z * Z * Z) (x : A) (l : list A) : list A :=
  match l with
  | [] => [x]
  | y :: l' => if order_leb (key x) (key y) then x :: l else y :: insert_by key x l'
  end.
Definition sort_by {A} (key : A → Z * Z * Z) (l : list A) : list A := foldr (insert_by key) [] l.

Definition legacy_slot (legacy : option (Z * string)) (flow own_flow : option Z) : option Z :=
  match legacy with
  | None => None
  | Some (slot, _) =>
      if decide (flow = own_flow) then Some slot
      else match dict_get slot DIRECTED_OFFSET, flow with
           | Some offset, Some f => (λ base, base + offset) <$> dict_get f DIRECTED_SLOT_BASE
           | _, _ => None
           end
  end.

Definition line_of (r : Reading) (legacy : option (Z * string)) : Z :=
  match legacy with
  | Some (slot, _) => if (10 <=? slot) && (slot <=? 27) then (slot - 10) / 6 + 1 else 0
  | None => default 0 (dict_get (rd_phase r) LINE_OF_PHASE)
  end.

Definition wired_multi (phase uom : Z) : bool :=
  bool_decide (phase ∈ LINE_2_3_PHASES) ||
  (bool_decide (phase ∈ MULTI_PHASE_TOTAL_PHASES) && bool_decide (uom ∈ TOTAL_UOMS)).

Definition is_multi_phase (lfdi : digits) (readings : list Reading) (registered : Registration) : bool :=
  existsb (λ r, wired_multi (rd_phase r) (rd_uom r)) readings ||
  existsb (λ slot, dict_mem (create_mrid lfdi slot) registered) MULTI_PHASE_ONLY_SLOTS ||
  existsb (λ e, wired_multi (default 0 (rt_phase (rr_type e))) (rt_uom (rr_type e))) (dict_values registered).

Section Posting.
(** The first eleven hex digits of the SHA-256 of a text. *)
Context (digest : string → digits).

Definition hashed_mrid (lfdi : digits) (i : ReadingIdentity) (salt : string) : digits :=
  padded12 (compute_sfdi lfdi) ++ [HASHED_MARKER] ++ digest (hashed_text lfdi i salt) ++ PEN_HEX.

Section Device.
Context (lfdi : digits) (profile : ReadingProfile) (direction : PowerDirection).

Definition signed_load : bool := bool_decide (profile = SIGNED_LOAD_CONVENTION).
Definition as_reported : bool := bool_decide (profile = SIGNED_AS_REPORTED).

Definition slots_of (multi_phase : bool) : Slots :=
  match profile with
  | DEFAULT => DEFAULT_SLOTS
  | SIGNED_AS_REPORTED => AS_REPORTED_SLOTS
  | SIGNED_LOAD_CONVENTION => if multi_phase then SIGNED_LOAD_SLOTS else SIGNED_LOAD_SLOTS_SINGLE_PHASE
  end.
Definition defaults_of : dict Z Z := if signed_load then SIGNED_LOAD_MULTIPLIER else DEFAULT_MULTIPLIER.

Definition directions : list Z :=
  if signed_load || as_reported then []
  else match direction with NET => [FLOW_NET] | SPLIT => [FLOW_NORMAL; FLOW_REVERSE] | BySign => [] end.

Definition with_flow (i : ReadingIdentity) (flow : option Z) : ReadingIdentity :=
  mkIdentity (id_uom i) (id_phase i) (id_kind i) (id_qualifier i) (id_accumulation i) flow (id_multiplier i).

Definition variants (r : Reading) (i : ReadingIdentity) : list (option Z * ReadingIdentity) :=
  if bool_decide (directions ≠ [] ∧ rd_uom r ∈ DIRECTED_UOMS ∧ rd_flow r = None)
  then (λ d, (Some d, with_flow i (Some d))) <$> directions
  else [(rd_flow r, i)].

Definition post_one (slots : Slots) (position : nat) (r : Reading) (rank : nat) (v : option Z * ReadingIdentity)
    : Posted :=
  let i := reading_identity r defaults_of in
  let legacy := dict_get i slots in
  let '(flow, variant) := v in
  let '(mrid, desc, order) :=
    match legacy_slot legacy flow (id_flow i), legacy with
    | Some slot, Some (number, text) =>
        (create_mrid lfdi slot,
         match flow with
         | Some f => if decide (flow = id_flow i) then text
                     else (text +:+ " " +:+ default "" (dict_get f DIRECTION_SUFFIX))%string
         | None => text
         end, (0, number, Z.of_nat rank))
    | _, _ => (hashed_mrid lfdi variant (profile_value profile), description variant flow,
               (1, Z.of_nat position, Z.of_nat rank))
    end in
  mkPosted mrid desc order r (rd_uom r) (rd_phase r)
    (if signed_load then 0 else rd_kind r) (if signed_load then 0 else rd_qualifier r) (rd_accumulation r)
    (id_multiplier i) (if signed_load then 0 else 1)
    (match flow with Some _ => flow | None => if signed_load then Some FLOW_NOT_APPLICABLE else None end)
    (line_of r (if as_reported then (λ e, (e.1 - AS_REPORTED_SLOT_OFFSET, e.2)) <$> legacy else legacy)).

(** Everything the loop meets, and what it keeps: each mRID once. *)
Definition met (slots : Slots) (valid : list Reading) : list Posted :=
  mjoin (imap (λ position r,
    imap (post_one slots position r) (variants r (reading_identity r defaults_of))) valid).

Fixpoint each_mrid_once (seen : list digits) (l : list Posted) : list Posted :=
  match l with
  | [] => []
  | p :: l' => if bool_decide (po_mrid p ∈ seen) then each_mrid_once seen l'
               else p :: each_mrid_once (po_mrid p :: seen) l'
  end.

Definition is_declared (declared : option (list ReadingIdentity)) (r : Reading) : bool :=
  match declared with
  | Some ds => if as_reported then bool_decide (reading_identity r DEFAULT_MULTIPLIER ∈ ds) else true
  | None => true
  end.

Definition posted_readings (entries : list Entry) (registered : Registration)
    (declared : option (list ReadingIdentity)) : list Posted :=
  let valid := List.filter (is_declared declared) (valid_readings entries) in
  sort_by po_order (each_mrid_once [] (met (slots_of (is_multi_phase lfdi valid registered)) valid)).

(** ** Registration *)

(** [raw * 10 ** -multiplier], truncated; and rounded half away from zero. *)
Definition scale_truncated (raw : Float) (multiplier : Z) : Z :=
  match raw with Fin m e => trunc (numer m (e - multiplier)) (denom (e - multiplier)) | _ => 0 end.
Definition scale_half_away (raw : Float) (multiplier : Z) : Z :=
  match raw with
  | Fin m e =>
      let n := numer m (e - multiplier) in
      let d := denom (e - multiplier) in
      Z.sgn n * ((2 * Z.abs n + d) / (2 * d))
  | _ => 0
  end.

Definition registration_flow (p : Posted) : Z :=
  match po_flow p with
  | Some f => f
  | None => if bool_decide (po_uom p ∈ SIGNED_UOMS) && (scale_truncated (rd_value (po_reading p)) (po_multiplier p) <? 0)
            then FLOW_REVERSE else FLOW_NORMAL
  end.

Definition reading_type (p : Posted) (flow : option Z) : ReadingType :=
  mkType (po_accumulation p) (po_commodity p) (po_qualifier p) flow (po_kind p) (po_multiplier p) (po_uom p)
    (if po_phase p =? 0 then None else Some (po_phase p)).

(** [declared] in the order of its elements' [repr]. *)
Definition placeholders (declared : list ReadingIdentity) (present : list Reading) : list Reading :=
  List.filter is_valid_reading
    ((λ i, mkRead (id_uom i) (Fin 0 0) (id_phase i) (id_kind i) (id_qualifier i) (id_accumulation i) (id_flow i)
             (Some (id_multiplier i)) None) <$>
     filter (λ i, i ∉ (λ r, reading_identity r DEFAULT_MULTIPLIER) <$> present) declared).

Definition undeclared_readings (entries : list Entry) (declared : list ReadingIdentity) : list ReadingIdentity :=
  filter (λ i, i ∉ declared) ((λ r, reading_identity r DEFAULT_MULTIPLIER) <$> valid_readings entries).

Definition registers (p : Posted) : RegisteredReading :=
  mkRegistered (po_mrid p) (po_description p)
    (reading_type p (match profile with DEFAULT => Some (registration_flow p) | _ => po_flow p end)) (po_order p).

Definition candidates (entries : list Entry) (declared : option (list ReadingIdentity)) : list Entry :=
  entries ++ match declared with
             | Some ds => if as_reported then Some <$> placeholders ds (valid_readings entries) else []
             | None => []
             end.

Definition plan_registration (entries : list Entry) (registered : Registration)
    (declared : option (list ReadingIdentity)) : Registration :=
  let plan := foldl (λ plan p, if dict_mem (po_mrid p) plan then plan else dict_set (po_mrid p) (registers p) plan)
                registered (posted_readings (candidates entries declared) registered declared) in
  sort_by (λ e, rr_order e.2) plan.

(** ** The MirrorUsagePoint and its readings *)

Record MirrorUsagePoint := mkMup {
  mu_mrid : digits;
  mu_description : string;
  mu_role_flags : list Z;                (* two bytes *)
  mu_device_lfdi : digits;
  mu_readings : list (digits * string * ReadingType);
  mu_post_rate : Z;
}.

Definition ROLE_DESCRIPTION (role : DeviceRole) : string :=
  match role with DER => "DER" | SITE_METER => "Site meter" | DER_METER => "DER meter" end.

(** [mup_mrid] *)
Definition mup_mrid : digits := create_mrid lfdi 0.

Definition create_mup (entries : list Entry) (post_rate : Z) (registered : Registration) (role : DeviceRole)
    (revenue_quality : bool) (device_lfdi : option digits) (declared : option (list ReadingIdentity))
    : MirrorUsagePoint :=
  mkMup mup_mrid (ROLE_DESCRIPTION role +:+ " " +:+ hex_text (take 8 lfdi))%string
    (be_bytes 2 (role_flags_for role revenue_quality)) (default lfdi device_lfdi)
    ((λ e, (rr_mrid e, rr_description e, rr_type e)) <$> dict_values (plan_registration entries registered declared))
    post_rate.

Definition QUALITY_FLAGS_VALID : Z := 1.
Definition QUALITY_FLAGS_QUESTIONABLE : Z := Z.shiftl 1 4.

(** The sixteen bits, as a number. *)
Definition quality_flags (r : Reading) (stale : bool) : Z :=
  let resolved := default QUALITY_FLAGS_VALID (rd_quality r) in
  if stale then Z.land (Z.lor resolved QUALITY_FLAGS_QUESTIONABLE) (Z.lnot QUALITY_FLAGS_VALID) else resolved.

Definition default_value (p : Posted) : Z :=
  let scaled := scale_truncated (rd_value (po_reading p)) (po_multiplier p) in
  if decide (po_flow p = Some FLOW_NET) then scaled
  else if decide (po_flow p = Some FLOW_NORMAL ∧ rd_flow (po_reading p) = None) then Z.max scaled 0
  else if decide (po_flow p = Some FLOW_REVERSE ∧ rd_flow (po_reading p) = None) then Z.max (- scaled) 0
  else Z.abs scaled.

Definition signed_load_value (p : Posted) (var_by_line : dict Z Z) (role : DeviceRole) : Z :=
  let scaled := scale_half_away (rd_value (po_reading p)) (po_multiplier p) in
  let flow := rd_flow (po_reading p) in
  if decide (flow ≠ None ∧ ¬ (flow = Some FLOW_NET ∧ po_uom p ∈ DIRECTED_UOMS)) then Z.abs scaled
  else if decide (po_uom p ∈ DIRECTED_UOMS) then match role with SITE_METER => scaled | _ => - scaled end
  else if decide (po_uom p = UOM_PF) then
    match dict_get (po_line p) var_by_line with
    | Some var => if var <? 0 then - Z.abs scaled else Z.abs scaled
    | None => Z.abs scaled
    end
  else Z.abs scaled.

Definition as_reported_value (p : Posted) : Z :=
  let scaled := scale_half_away (rd_value (po_reading p)) (po_multiplier p) in
  if decide (rd_flow (po_reading p) = None ∧ po_uom p ∈ AS_REPORTED_SIGNED_UOMS) then scaled else Z.abs scaled.

(** [setdefault]: the first of each line. *)
Definition vars_by_line (role : DeviceRole) (l : list Posted) : dict Z Z :=
  foldl (λ d p,
    if decide (po_uom p = UOM_VAR ∧ rd_flow (po_reading p) = None) then
      if dict_mem (po_line p) d then d else dict_set (po_line p) (signed_load_value p [] role) d
    else d) [] l.

Record MeterReading := mkMeterReading {
  mm_mrid : digits;
  mm_description : string;
  mm_quality : Z;
  mm_duration : Z;
  mm_start : Z;
  mm_value : Z;
  mm_last_update : Z;
  mm_next_update : option Z;
}.

Definition DATA_QUALIFIER_INSTANTANEOUS : Z := 12.

Definition value_of (role : DeviceRole) (l : list Posted) (p : Posted) : Z :=
  match profile with
  | SIGNED_LOAD_CONVENTION => signed_load_value p (vars_by_line role l) role
  | SIGNED_AS_REPORTED => as_reported_value p
  | DEFAULT => default_value p
  end.

Definition meter_reading (role : DeviceRole) (timestamp post_rate : Z) (next_update : option Z) (stale : bool)
    (l : list Posted) (p : Posted) : MeterReading :=
  mkMeterReading (po_mrid p) (po_description p) (quality_flags (po_reading p) stale)
    (if signed_load then 0 else if po_qualifier p =? DATA_QUALIFIER_INSTANTANEOUS then 0 else post_rate)
    timestamp (value_of role l p) timestamp next_update.

Definition create_meter_reading_list (entries : list Entry) (timestamp post_rate : Z) (next_update : option Z)
    (stale : bool) (registered : option Registration) (role : DeviceRole)
    (declared : option (list ReadingIdentity)) : list MeterReading :=
  let l := posted_readings entries (default [] registered) declared in
  meter_reading role timestamp post_rate next_update stale l <$>
    List.filter (λ p, from_option (dict_mem (po_mrid p)) true registered) l.
End Device.
End Posting.
