(* ===== verification/MirrorProps.v ===== *)
(** * MirrorProps: readings and their registration

    About [Mirror]: a registration only grows and settles, an mRID stands for
    one ReadingType, the values of the directions agree, and the identifiers
    have their form. *)

From Stdlib Require Import Ascii.
From stdpp Require Import pretty.
From S2P Require Import Prelude Scaling Mirror.

#[local] Open Scope Z_scope.

(** ** Sorting *)

Lemma order_leb_total a b : order_leb a b = false → order_leb b a = true.
Proof. destruct a as [[a1 a2] a3], b as [[b1 b2] b3]. cbn. lia. Qed.

Lemma order_leb_trans a b c : order_leb a b = true → order_leb b c = true → order_leb a c = true.
Proof. destruct a as [[a1 a2] a3], b as [[b1 b2] b3], c as [[c1 c2] c3]. cbn. lia. Qed.

Section Sort.
Context {A : Type} (key : A → Z * Z * Z).

Definition in_order (x y : A) : Prop := order_leb (key x) (key y) = true.

Lemma insert_by_perm x l : insert_by key x l ≡ₚ x :: l.
Proof.
  induction l as [|y l IH]; cbn; [done|]. case_match; [done|]. rewrite IH. apply Permutation_swap.
Qed.

Lemma sort_by_perm l : sort_by key l ≡ₚ l.
Proof. induction l as [|x l IH]; cbn; [done|]. by rewrite insert_by_perm, IH. Qed.

Lemma insert_by_sorted x l : StronglySorted in_order l → StronglySorted in_order (insert_by key x l).
Proof.
  induction 1 as [|y l Hl IH Hy]; cbn; [repeat constructor|]. destruct (order_leb (key x) (key y)) eqn:E.
  - repeat (constructor; try done). eapply Forall_impl; [exact Hy|]. intros z Hz. by eapply order_leb_trans.
  - constructor; [done|]. rewrite insert_by_perm. constructor; [by apply order_leb_total|done].
Qed.

Lemma sort_by_sorted l : StronglySorted in_order (sort_by key l).
Proof. induction l; cbn; [constructor|by apply insert_by_sorted]. Qed.
End Sort.

Lemma dict_get_perm {K V} `{EqDecision K} (d d' : dict K V) (k : K) :
  d ≡ₚ d' → dict_wf d → dict_get k d = dict_get k d'.
Proof.
  intros Hp Hw. assert (dict_wf d') as Hw' by (unfold dict_wf, dict_keys in *; by rewrite <- Hp).
  destruct (dict_get k d') as [v|] eqn:E.
  - apply dict_elem_get; [done|]. rewrite Hp. by apply dict_get_elem.
  - apply dict_get_None. apply dict_get_None in E. unfold dict_keys in *. by rewrite Hp.
Qed.

(** ** Each mRID once *)

Lemma each_mrid_once_spec seen l :
  NoDup (po_mrid <$> each_mrid_once seen l) ∧
  (∀ p, p ∈ each_mrid_once seen l → p ∈ l ∧ po_mrid p ∉ seen) ∧
  (∀ p, p ∈ l → po_mrid p ∉ seen → po_mrid p ∈ po_mrid <$> each_mrid_once seen l).
Proof.
  revert seen. induction l as [|q l IH]; intros seen; cbn.
  { split_and!; [constructor|by intros p Hp%not_elem_of_nil..]. }
  case_bool_decide as Hq.
  - destruct (IH seen) as (H1 & H2 & H3). split_and!; [done| |].
    + intros p [? ?]%H2. split; [by right|done].
    + intros p [->|Hp]%elem_of_cons Hn; [done|]. by apply H3.
  - destruct (IH (po_mrid q :: seen)) as (H1 & H2 & H3). cbn. split_and!.
    + constructor; [|done]. intros (p & Hm & [_ Hp]%H2)%list_elem_of_fmap. apply Hp. rewrite <- Hm. by left.
    + intros p [->|[Hp Hn]%H2]%elem_of_cons; [split; [by left|done]|]. split; [by right|]. set_solver.
    + intros p [->|Hp]%elem_of_cons Hn; [by left|].
      destruct (decide (po_mrid p = po_mrid q)) as [->|Hne]; [by left|]. right. apply H3; [done|set_solver].
Qed.

Section Device.
Context (digest : string → digits) (lfdi : digits) (profile : ReadingProfile) (direction : PowerDirection).

Abbreviation posted_readings := (posted_readings digest lfdi profile direction).
Abbreviation plan_registration := (plan_registration digest lfdi profile direction).
Abbreviation post_one := (post_one digest lfdi profile).
Abbreviation met := (met digest lfdi profile direction).
Abbreviation registers := (registers profile).
Abbreviation candidates := (candidates profile).
Abbreviation slots_of := (slots_of profile).

Definition mrids (l : list Posted) : list digits := po_mrid <$> l.

Lemma elem_of_met slots valid p :
  p ∈ met slots valid ↔ ∃ position r rank v,
    valid !! position = Some r ∧ variants profile direction r (reading_identity r (defaults_of profile)) !! rank = Some v ∧
    p = post_one slots position r rank v.
Proof.
  unfold met. rewrite list_elem_of_join. split.
  - intros (l & Hp & Hl). apply elem_of_lookup_imap in Hl as (position & r & -> & Hr).
    apply elem_of_lookup_imap in Hp as (rank & v & -> & Hv). by exists position, r, rank, v.
  - intros (position & r & rank & v & Hr & Hv & ->). eexists. split; [|apply elem_of_lookup_imap; by exists position, r].
    apply elem_of_lookup_imap. by exists rank, v.
Qed.

(** What is posted of valid readings, and from which table. *)
Definition valid_of (entries : list Entry) (declared : option (list ReadingIdentity)) : list Reading :=
  List.filter (is_declared profile declared) (valid_readings entries).

Definition met_of (entries : list Entry) (registered : Registration) (declared : option (list ReadingIdentity))
    : list Posted :=
  let valid := valid_of entries declared in
  met (slots_of (is_multi_phase lfdi valid registered)) valid.

Lemma posted_spec entries registered declared :
  let l := posted_readings entries registered declared in
  NoDup (mrids l) ∧ (∀ p, p ∈ l → p ∈ met_of entries registered declared) ∧
  (∀ p, p ∈ met_of entries registered declared → po_mrid p ∈ mrids l) ∧ StronglySorted (in_order po_order) l.
Proof.
  cbv zeta. unfold Mirror.posted_readings. fold (valid_of entries declared).
  fold (met_of entries registered declared).
  destruct (each_mrid_once_spec [] (met_of entries registered declared)) as (H1 & H2 & H3).
  pose proof (sort_by_perm po_order (each_mrid_once [] (met_of entries registered declared))) as Hp.
  unfold mrids. split_and!; [by rewrite Hp| | |apply sort_by_sorted].
  - intros p. rewrite Hp. intros Hin. by apply H2 in Hin as [? _].
  - intros p Hin. rewrite Hp. apply H3; [done|apply not_elem_of_nil].
Qed.

(** ** Registration *)

Definition add_new (plan : Registration) (p : Posted) : Registration :=
  if dict_mem (po_mrid p) plan then plan else dict_set (po_mrid p) (registers p) plan.

Lemma add_all_spec l plan :
  dict_wf plan →
  let plan' := foldl add_new plan l in
  dict_wf plan' ∧ (∀ m e, dict_get m plan = Some e → dict_get m plan' = Some e) ∧
  (∀ m, m ∈ dict_keys plan' ↔ m ∈ dict_keys plan ∨ m ∈ mrids l) ∧
  (∀ m e, dict_get m plan' = Some e → dict_get m plan = Some e ∨ ∃ p, p ∈ l ∧ m = po_mrid p ∧ e = registers p).
Proof.
  revert plan. induction l as [|p l IH]; intros plan W; cbn.
  { split_and!; [done|done| |by left]. intros m. unfold mrids. cbn. rewrite elem_of_nil. tauto. }
  assert (dict_wf (add_new plan p)) as W1 by (unfold add_new; case_match; [done|by apply dict_set_wf]).
  destruct (IH _ W1) as (H1 & H2 & H3 & H4). unfold mrids. cbn.
  unfold add_new in *. destruct (dict_mem (po_mrid p) plan) eqn:Em.
  - apply dict_mem_spec in Em. split_and!; [done|done| |].
    + intros m. rewrite H3, elem_of_cons. unfold mrids. naive_solver.
    + intros m e [?|(q & Hq & -> & ->)]%H4; [by left|]. right. exists q. split_and!; [by right|done..].
  - assert (po_mrid p ∉ dict_keys plan) as Hn by (rewrite <- dict_mem_spec; congruence). split_and!; [done| | |].
    + intros m e Hm. apply H2. rewrite dict_get_set_ne; [done|]. intros ->. apply Hn.
      apply dict_get_elem in Hm. apply list_elem_of_fmap. by exists (po_mrid p, e).
    + intros m. rewrite H3, elem_of_dict_set_keys, elem_of_cons. unfold mrids. naive_solver.
    + intros m e [Hm|(q & Hq & -> & ->)]%H4.
      * destruct (decide (m = po_mrid p)) as [->|Hne].
        -- rewrite dict_get_set_eq in Hm. injection Hm as <-. right. exists p. split_and!; [by left|done..].
        -- rewrite dict_get_set_ne in Hm by done. by left.
      * right. exists q. split_and!; [by right|done..].
Qed.

Lemma plan_spec (entries : list Entry) (registered : Registration) (declared : option (list ReadingIdentity)) :
  dict_wf registered →
  let plan := plan_registration entries registered declared in
  let posted := posted_readings (candidates entries declared) registered declared in
  dict_wf plan ∧ (∀ m e, dict_get m registered = Some e → dict_get m plan = Some e) ∧
  (∀ m, m ∈ dict_keys plan ↔ m ∈ dict_keys registered ∨ m ∈ mrids posted) ∧
  (∀ m e, dict_get m plan = Some e → dict_get m registered = Some e ∨
     ∃ p, p ∈ posted ∧ m = po_mrid p ∧ e = registers p) ∧
  StronglySorted (in_order (λ e, rr_order e.2)) plan.
Proof.
  intros W. cbv zeta. unfold Mirror.plan_registration. fold add_new.
  destruct (add_all_spec (posted_readings (candidates entries declared) registered declared) registered W)
    as (H1 & H2 & H3 & H4).
  set (plan := foldl add_new _ _) in *. pose proof (sort_by_perm (λ e, rr_order e.2) plan) as Hp.
  assert (∀ m, dict_get m (sort_by (λ e, rr_order e.2) plan) = dict_get m plan) as Hg.
  { intros m. symmetry. by apply dict_get_perm. }
  split_and!; [unfold dict_wf, dict_keys; by rewrite Hp| | | |apply sort_by_sorted].
  - intros m e. rewrite Hg. apply H2.
  - intros m. rewrite <- H3. unfold dict_keys. by rewrite Hp.
  - intros m e. rewrite Hg. apply H4.
Qed.

(** A plan keeps every MirrorMeterReading registered before, with its
    ReadingType, order and description, whatever this cycle's readings are; it
    adds one for each reading that posts under an mRID not registered yet, as
    the reading stands now, and nothing else; and it is in the order of the
    MirrorUsagePoint. *)
Theorem plan_only_grows (entries : list Entry) (registered : Registration) (declared : option (list ReadingIdentity)) :
  dict_wf registered →
  let plan := plan_registration entries registered declared in
  let posted := posted_readings (candidates entries declared) registered declared in
  dict_wf plan ∧ (∀ m e, dict_get m registered = Some e → dict_get m plan = Some e) ∧
  (∀ m, m ∈ dict_keys plan ↔ m ∈ dict_keys registered ∨ m ∈ mrids posted) ∧
  (∀ m e, dict_get m plan = Some e → dict_get m registered = Some e ∨
     ∃ p, p ∈ posted ∧ m = po_mrid p ∧ e = registers p) ∧
  StronglySorted (in_order (λ e, rr_order e.2)) plan.
Proof. apply plan_spec. Qed.
End Device.

(** ** mRIDs *)

(** The first eleven digits of the LFDI are one decimal digit over and over. *)
Definition repeats (lfdi : digits) : Prop := ∃ d, 0 <= d < 10 ∧ take 11 lfdi = replicate 11 d.

Lemma take_shift (l : digits) d : (11 <= length l)%nat → take 11 l = d :: take 10 l → take 11 l = replicate 11 d.
Proof.
  intros Hl. do 11 (destruct l as [|? l]; [cbn in Hl; lia|]). cbn. intros H. simplify_eq. done.
Qed.

Lemma slot_mrid_inj lfdi s t :
  (11 <= length lfdi)%nat → ¬ repeats lfdi → 0 <= s < 100 → 0 <= t < 100 →
  create_mrid lfdi s = create_mrid lfdi t → s = t.
Proof.
  intros Hl Hn Hs Ht H. unfold create_mrid in H. apply app_inv_head in H.
  apply app_inv_tail in H. cbn [decimals app] in H.
  assert (∀ x y, 0 <= x < 10 → 10 <= y < 100 →
    [x mod 10] ++ take 11 lfdi = [y / 10 mod 10; y mod 10] ++ take 10 lfdi → False) as Hmix.
  { intros x y Hx Hy [= Hd Hr]. apply Hn. exists (y mod 10). split; [apply Z.mod_pos_bound; lia|]. by apply take_shift. }
  destruct (s <? 10) eqn:Es, (t <? 10) eqn:Et; cbn in H.
  - injection H as H. Z.div_mod_to_equations. lia.
  - exfalso. apply (Hmix s t); [lia..|done].
  - exfalso. apply (Hmix t s); [lia..|done].
  - injection H as H1 H2. Z.div_mod_to_equations. lia.
Qed.

Lemma hashed_not_slot digest lfdi i salt s : 0 <= s < 100 → hashed_mrid digest lfdi i salt ≠ create_mrid lfdi s.
Proof.
  intros Hs H. unfold hashed_mrid, create_mrid in H. apply app_inv_head in H. cbn [decimals app] in H.
  unfold HASHED_MARKER in H. destruct (s <? 10) eqn:Es; cbn in H; injection H as H _; Z.div_mod_to_equations; lia.
Qed.

(** *** The hashed text *)

Fixpoint no_bar (s : string) : bool :=
  match s with EmptyString => true | String c s' => negb (bool_decide (c = "|"%char)) && no_bar s' end.

Lemma bar_split x y s t :
  no_bar x = true → no_bar y = true → (x +:+ "|" +:+ s = y +:+ "|" +:+ t)%string → x = y ∧ s = t.
Proof.
  revert y. induction x as [|c x IH]; intros [|c' y] Hx Hy H; cbn in *; simplify_eq; try done.
  apply andb_true_iff in Hx as [_ Hx], Hy as [_ Hy]. by destruct (IH y Hx Hy) as [-> ->].
Qed.

Lemma small_no_bar z : -9 <= z <= 255 → no_bar (pretty z) = true.
Proof.
  intros Hz. assert (forallb (λ z, no_bar (pretty z)) (seqZ (-9) 265) = true) as H by (vm_compute; reflexivity).
  rewrite forallb_forall in H. apply H, list_elem_of_In, elem_of_seqZ. lia.
Qed.

Lemma small_nonempty z : -9 <= z <= 255 → pretty z ≠ "".
Proof.
  intros Hz. assert (forallb (λ z, negb (String.eqb (pretty z) "")) (seqZ (-9) 265) = true) as H
    by (vm_compute; reflexivity).
  rewrite forallb_forall in H. specialize (H z). rewrite <- list_elem_of_In, elem_of_seqZ in H.
  intros E. rewrite E in H. specialize (H ltac:(lia)). discriminate.
Qed.

Definition small_code (z : Z) : Prop := -9 <= z <= 255.
Definition small_identity (i : ReadingIdentity) : Prop :=
  small_code (id_uom i) ∧ small_code (id_phase i) ∧ small_code (id_kind i) ∧ small_code (id_qualifier i) ∧
  small_code (id_accumulation i) ∧ from_option small_code True (id_flow i) ∧ small_code (id_multiplier i).

Lemma flow_no_bar f : from_option small_code True f → no_bar (from_option pretty "" f) = true.
Proof. destruct f; cbn; [apply small_no_bar|done]. Qed.

Lemma hashed_text_inj lfdi salt i j :
  salt ≠ "" → small_identity i → small_identity j → hashed_text lfdi i salt = hashed_text lfdi j salt → i = j.
Proof.
  intros Hs (H1 & H2 & H3 & H4 & H5 & H6 & H7) (J1 & J2 & J3 & J4 & J5 & J6 & J7).
  unfold hashed_text, join. rewrite decide_False by done. cbn. intros H.
  apply (inj (String.append _)) in H. apply (inj (String.append _)) in H.
  repeat match type of H with
  | (pretty ?a +:+ "|" +:+ _)%string = (pretty ?b +:+ "|" +:+ _)%string =>
      let E := fresh "E" in apply bar_split in H as [E H]; [apply (inj pretty) in E|by apply small_no_bar..]
  end.
  apply bar_split in H as [Ef H]; [|by apply flow_no_bar..].
  apply bar_split in H as [Em _]; [apply (inj pretty) in Em|by apply small_no_bar..].
  destruct i as [? ? ? ? ? f ?], j as [? ? ? ? ? g ?]. cbn in *. subst. f_equal.
  destruct f as [f|], g as [g|]; cbn in Ef; [by apply (inj pretty) in Ef as ->| | |done]; exfalso.
  - exact (small_nonempty f H6 Ef).
  - exact (small_nonempty g J6 (eq_sym Ef)).
Qed.

(** ** One ReadingType for an mRID *)

(** The identity of what is posted. *)
Definition variant_of (p : Posted) : ReadingIdentity :=
  mkIdentity (po_uom p) (po_phase p) (po_kind p) (po_qualifier p) (po_accumulation p) (po_flow p) (po_multiplier p).

(** Every identity that has a slot, with it. *)
Definition slot_list (slots : Slots) : list (ReadingIdentity * Z) :=
  mjoin ((λ e, (e.1, e.2.1) ::
    match dict_get e.2.1 DIRECTED_OFFSET with
    | Some offset => (λ b, (with_flow e.1 (Some b.1), b.2 + offset)) <$> DIRECTED_SLOT_BASE
    | None => []
    end) <$> slots).

Lemma variants_spec profile direction r i v :
  id_flow i = rd_flow r → v ∈ variants profile direction r i →
  v.2 = with_flow i v.1 ∧ (v.1 = rd_flow r ∨ ∃ d, v.1 = Some d ∧ d ∈ [FLOW_NET; FLOW_NORMAL; FLOW_REVERSE]).
Proof.
  intros Hi. unfold variants. case_bool_decide as Hd.
  - intros (d & -> & Hin)%list_elem_of_fmap. split; [done|]. right. exists d. split; [done|].
    unfold directions in Hin. destruct (signed_load profile || as_reported profile); [by apply not_elem_of_nil in Hin|].
    destruct direction; set_solver.
  - intros ->%list_elem_of_singleton. split; [|by left]. destruct i; cbn in *. by subst.
Qed.

Lemma keep_valid_valid seen entries : Forall (λ r, is_valid_reading r = true) (keep_valid seen entries).
Proof.
  revert seen. induction entries as [|[r|] entries IH]; intros seen; cbn; [constructor| |apply IH].
  destruct (is_valid_reading r) eqn:E; cbn; [|apply IH]. case_bool_decide; cbn; [apply IH|by constructor].
Qed.

Lemma valid_of_valid profile entries declared r :
  r ∈ valid_of profile entries declared → is_valid_reading r = true.
Proof.
  unfold valid_of. rewrite list_elem_of_In, filter_In, <- list_elem_of_In. intros [Hr _].
  pose proof (keep_valid_valid [] entries) as H. rewrite Forall_forall in H. by apply H.
Qed.

Lemma valid_small r profile : is_valid_reading r = true → small_identity (reading_identity r (defaults_of profile)).
Proof.
  unfold is_valid_reading, is_uint8, small_identity, small_code. cbn. intros H.
  assert (-9 <= effective_multiplier r (defaults_of profile) <= 255) as Hm.
  { unfold effective_multiplier. destruct (rd_multiplier r) as [m|]; cbn in H; [lia|].
    destruct (dict_get (rd_uom r) (defaults_of profile)) as [m|] eqn:E; cbn; [|lia].
    apply dict_get_elem in E. assert (Forall (λ e, -9 <= e.2 <= 255) (defaults_of profile)) as Hd
      by (unfold defaults_of; destruct (signed_load profile); repeat constructor; cbn; lia).
    rewrite Forall_forall in Hd. by apply (Hd _ E). }
  destruct (rd_flow r); cbn in *; lia.
Qed.

Section Types.
Context (digest : string → digits) (lfdi : digits) (profile : ReadingProfile).
Hypothesis Hp : profile ≠ SIGNED_LOAD_CONVENTION.

Lemma posted_mrid direction slots valid p :
  Forall (λ r, is_valid_reading r = true) valid → p ∈ met digest lfdi profile direction slots valid →
  small_identity (variant_of p) ∧ po_commodity p = 1 ∧
  (po_mrid p = hashed_mrid digest lfdi (variant_of p) (profile_value profile) ∨
   ∃ s, (variant_of p, s) ∈ slot_list slots ∧ po_mrid p = create_mrid lfdi s).
Proof using Hp.
  intros Hv (position & r & rank & v & Hr & Hin & ->)%elem_of_met.
  assert (is_valid_reading r = true) as Hval by (rewrite Forall_forall in Hv; eapply Hv, list_elem_of_lookup; eauto).
  assert (signed_load profile = false) as Hsl by (unfold signed_load; by apply bool_decide_false).
  pose proof (valid_small r profile Hval) as Hsm. set (i := reading_identity r (defaults_of profile)) in *.
  apply list_elem_of_lookup_2, variants_spec in Hin as [Hv2 Hfl]; [|done]. destruct v as [flow variant]. cbn in Hv2, Hfl.
  assert (variant_of (post_one digest lfdi profile slots position r rank (flow, variant)) = with_flow i flow) as He.
  { unfold post_one, variant_of. rewrite Hsl. case_match. cbn. destruct p as [mrid desc]. cbn. by destruct flow. }
  rewrite He. split; [|split].
  - destruct Hsm as (?&?&?&?&?&Hf&?). split_and!; try done. cbn. destruct Hfl as [->|(d & -> & Hd)]; [done|].
    cbn. unfold small_code. set_unfold in Hd. unfold FLOW_NET, FLOW_NORMAL, FLOW_REVERSE in Hd. lia.
  - unfold post_one. rewrite Hsl. case_match. by destruct p.
  - unfold post_one. fold i. destruct (dict_get i slots) as [[number text]|] eqn:El; cbn [legacy_slot].
    2: { left. cbn. by subst variant. }
    apply dict_get_elem in El. unfold legacy_slot. destruct (decide (flow = id_flow i)) as [Hf|Hf].
    + right. exists number. cbn. split; [|done]. unfold slot_list. apply list_elem_of_join.
      eexists. split; [|apply list_elem_of_fmap; eexists; split; [reflexivity|exact El]]. cbn.
      replace (with_flow i flow) with i by (subst flow; by destruct i). by left.
    + destruct (dict_get number DIRECTED_OFFSET) as [offset|] eqn:Eo; [|left; cbn; by subst variant].
      destruct flow as [f|]; [|left; cbn; by subst variant].
      destruct (dict_get f DIRECTED_SLOT_BASE) as [base|] eqn:Eb; cbn; [|left; by subst variant].
      right. exists (base + offset). split; [|done]. unfold slot_list. apply list_elem_of_join.
      eexists. split; [|apply list_elem_of_fmap; eexists; split; [reflexivity|exact El]]. cbn [fst snd]. rewrite Eo. apply elem_of_cons. right.
      apply list_elem_of_fmap. exists (f, base). split; [done|]. by apply dict_get_elem.
Qed.

Lemma slots_once b :
  NoDup (slot_list (slots_of profile b)).*2 ∧ Forall (λ e, 0 <= e.2 < 100) (slot_list (slots_of profile b)).
Proof using Hp.
  destruct profile; [|done|]; (split; [apply (bool_decide_unpack _); vm_compute; exact I|]);
    apply Forall_forall; intros e He;
    match type of He with e ∈ ?l =>
    assert (forallb (λ e, (0 <=? e.2) && (e.2 <? 100)) l = true) as H by (vm_compute; reflexivity) end;
    rewrite forallb_forall in H; specialize (H e); rewrite <- list_elem_of_In in H; specialize (H He); lia.
Qed.

Lemma slots_of_same b b' : slots_of profile b = slots_of profile b'.
Proof using Hp. by destruct profile. Qed.
End Types.

(** Outside the signed-load profile an mRID stands for one ReadingType.  Two
    readings of a device that post under the same mRID, in whatever cycles, with
    whatever registered and declared then, and even with the direction of power
    configured differently, have the same unit, phase, kind, qualifier,
    accumulation, multiplier, commodity and fixed flow direction; unless the
    digests of their two texts agree, or the LFDI begins with eleven times the same
    decimal digit. *)
Theorem mrid_fixes_reading_type (digest : string → digits) (lfdi : digits) (profile : ReadingProfile)
    (direction direction' : PowerDirection) (e e' : list Entry) (r r' : Registration)
    (d d' : option (list ReadingIdentity)) (p q : Posted) :
  let text x := hashed_text lfdi (variant_of x) (profile_value profile) in
  (digest (text p) = digest (text q) → text p = text q) → (11 <= length lfdi)%nat → ¬ repeats lfdi →
  profile ≠ SIGNED_LOAD_CONVENTION →
  p ∈ posted_readings digest lfdi profile direction e r d →
  q ∈ posted_readings digest lfdi profile direction' e' r' d' →
  po_mrid p = po_mrid q →
  po_flow p = po_flow q ∧ ∀ flow, reading_type p flow = reading_type q flow.
Proof.
  intros text Hdi Hlen Hrep Hprof Hp Hq Hm.
  apply posted_spec in Hp. apply posted_spec in Hq.
  assert (∀ e d, Forall (λ r, is_valid_reading r = true) (valid_of profile e d)) as Hval.
  { intros e0 d0. apply Forall_forall. intros x. apply valid_of_valid. }
  apply posted_mrid in Hp as (Sp & Cp & Mp); [|done..]. apply posted_mrid in Hq as (Sq & Cq & Mq); [|done..].
  set (slots := slots_of profile (is_multi_phase lfdi (valid_of profile e d) r)) in *.
  rewrite (slots_of_same profile Hprof _ (is_multi_phase lfdi (valid_of profile e d) r)) in Mq. fold slots in Mq.
  destruct (slots_once profile Hprof (is_multi_phase lfdi (valid_of profile e d) r)) as [Hnd Hrange]. fold slots in Hnd, Hrange.
  rewrite Forall_forall in Hrange.
  assert (variant_of p = variant_of q) as Hv.
  { destruct Mp as [Mp|(s & Hs & Mp)], Mq as [Mq|(t & Ht & Mq)]; rewrite Mp, Mq in Hm.
    - unfold hashed_mrid in Hm. apply app_inv_head, app_inv_head, app_inv_tail, Hdi in Hm.
      apply hashed_text_inj in Hm; [done| |done..]. by destruct profile.
    - exfalso. eapply hashed_not_slot; [|exact Hm]. by apply (Hrange _ Ht).
    - exfalso. eapply hashed_not_slot; [|symmetry; exact Hm]. by apply (Hrange _ Hs).
    - apply slot_mrid_inj in Hm as ->; [|done|done|by apply (Hrange _ Hs)|by apply (Hrange _ Ht)].
      apply list_elem_of_lookup in Hs as [n Hn], Ht as [n' Hn'].
      assert (n = n') as ->; [|congruence].
      eapply (NoDup_lookup _ _ _ _ Hnd); rewrite list_lookup_fmap; [by rewrite Hn|by rewrite Hn']. }
  unfold variant_of in Hv. injection Hv as E1 E2 E3 E4 E5 E6 E7. split; [done|]. intros flow. unfold reading_type.
  by rewrite E1, E2, E3, E4, E5, E7, Cp, Cq.
Qed.

(** ** A registration settles *)

Lemma existsb_false_iff {A} (f : A → bool) (l : list A) : existsb f l = false ↔ ∀ x, In x l → f x = false.
Proof.
  rewrite <- not_true_iff_false, existsb_exists. split.
  - intros H x Hx. apply not_true_iff_false. intros Hf. apply H. eauto.
  - intros H (x & Hx & Hf). rewrite H in Hf; done.
Qed.

Lemma single_phase_slots i s text :
  dict_get i SIGNED_LOAD_SLOTS_SINGLE_PHASE = Some (s, text) →
  0 <= s < 100 ∧ (s ∈ MULTI_PHASE_ONLY_SLOTS → wired_multi (id_phase i) (id_uom i) = true).
Proof.
  intros Hi%dict_get_elem.
  assert (forallb (λ e, (0 <=? e.2.1) && (e.2.1 <? 100) &&
    implb (bool_decide (e.2.1 ∈ MULTI_PHASE_ONLY_SLOTS)) (wired_multi (id_phase e.1) (id_uom e.1)))
    SIGNED_LOAD_SLOTS_SINGLE_PHASE = true) as H by (vm_compute; reflexivity).
  rewrite forallb_forall in H. specialize (H (i, (s, text))). rewrite <- list_elem_of_In in H.
  specialize (H Hi). cbn [fst snd] in H. apply andb_true_iff in H as [H1 H2]. split; [lia|].
  intros Hs. rewrite bool_decide_true in H2 by done. by destruct (wired_multi _ _).
Qed.

Section Settles.
Context (digest : string → digits) (lfdi : digits) (profile : ReadingProfile) (direction : PowerDirection).
Hypothesis (Hlen : (11 <= length lfdi)%nat) (Hrep : ¬ repeats lfdi).

(** Under the signed-load profile readings post under their own slot or a hash. *)
Lemma posted_signed_load slots valid p :
  profile = SIGNED_LOAD_CONVENTION → p ∈ met digest lfdi profile direction slots valid →
  ∃ r, r ∈ valid ∧ po_uom p = rd_uom r ∧ po_phase p = rd_phase r ∧
    ((∃ v salt, po_mrid p = hashed_mrid digest lfdi v salt) ∨
     ∃ i s text, dict_get i slots = Some (s, text) ∧ id_phase i = rd_phase r ∧ id_uom i = rd_uom r ∧
       po_mrid p = create_mrid lfdi s).
Proof using.
  intros -> (position & r & rank & v & Hr & Hin & ->)%elem_of_met. exists r. split; [by eapply list_elem_of_lookup_2|].
  set (i := reading_identity r (defaults_of SIGNED_LOAD_CONVENTION)) in *.
  unfold variants in Hin. rewrite bool_decide_false in Hin by (intros [Hd _]; by apply Hd).
  apply list_elem_of_lookup_2, list_elem_of_singleton in Hin as ->.
  unfold post_one. fold i. destruct (dict_get i slots) as [[number text]|] eqn:El; cbn [legacy_slot].
  - rewrite decide_True by done. cbn. split_and!; [done..|]. right. by exists i, number, text.
  - cbn. split_and!; [done..|]. left. eauto.
Qed.

(** A plan says of the wiring what the readings and the registration said. *)
Lemma multi_phase_stable entries registered declared :
  profile = SIGNED_LOAD_CONVENTION → dict_wf registered →
  let plan := plan_registration digest lfdi profile direction entries registered declared in
  let valid := valid_of profile (candidates profile entries declared) declared in
  is_multi_phase lfdi valid plan = is_multi_phase lfdi valid registered.
Proof using Hlen Hrep.
  intros Hp W. cbv zeta. set (cand := candidates profile entries declared).
  set (valid := valid_of profile cand declared).
  destruct (plan_spec digest lfdi profile direction entries registered declared W) as (Wp & Hkeep & Hkeys & Hnew & _).
  fold cand in Hnew, Hkeys. set (plan := Mirror.plan_registration _ _ _ _ _ _ _) in *.
  destruct (is_multi_phase lfdi valid registered) eqn:Em.
  - unfold is_multi_phase in *. rewrite !orb_true_iff, !existsb_exists in Em |- *.
    destruct Em as [[?|(s & Hs & Hm)]|(e & He & Hm)]; [by left; left| |].
    + left. right. exists s. split; [done|]. apply dict_mem_spec. apply Hkeys. left. by apply dict_mem_spec.
    + right. exists e. split; [|done]. rewrite <- list_elem_of_In in He |- *.
      apply list_elem_of_fmap in He as ([m e'] & -> & He). apply dict_elem_get, Hkeep, dict_get_elem in He; [|done].
      apply list_elem_of_fmap. by exists (m, e').
  - destruct (is_multi_phase lfdi valid plan) eqn:Ep; [exfalso|done].
    assert (∀ p, p ∈ Mirror.posted_readings digest lfdi profile direction cand registered declared →
      p ∈ met digest lfdi profile direction SIGNED_LOAD_SLOTS_SINGLE_PHASE valid) as Hmet.
    { intros p Hin. apply posted_spec in Hin. unfold met_of in Hin. fold valid in Hin. rewrite Em in Hin. by subst profile. }
    unfold is_multi_phase in Em, Ep. rewrite !orb_false_iff in Em. destruct Em as [[E1 E2] E3].
    rewrite E1 in Ep. cbn [orb] in Ep. rewrite orb_true_iff, !existsb_exists in Ep.
    rewrite existsb_false_iff in E1. rewrite existsb_false_iff in E2. rewrite existsb_false_iff in E3.
    destruct Ep as [(s & Hs & Hm)|(e & He & Hm)].
    + apply dict_mem_spec, Hkeys in Hm as [Hm|(p & Hm & Hin)%list_elem_of_fmap].
      { apply dict_mem_spec in Hm. rewrite (E2 s Hs) in Hm. done. }
      apply Hmet, posted_signed_load in Hin as (r & Hr & _ & _ & [(v & salt & Hh)|(i & t & text & Hi & Hph & Hu & Hc)]);
        [| |done].
      * rewrite Hh in Hm. symmetry in Hm. apply hashed_not_slot in Hm; [done|]. cbn in Hs. lia.
      * apply single_phase_slots in Hi as [Ht Hw]. rewrite Hc in Hm. apply slot_mrid_inj in Hm as <-; [|done..|cbn in Hs; lia|done].
        rewrite <- list_elem_of_In in Hs. specialize (Hw Hs). rewrite Hph, Hu in Hw. rewrite (E1 r) in Hw; [done|]. by apply list_elem_of_In.
    + rewrite <- list_elem_of_In in He. apply list_elem_of_fmap in He as ([m e'] & -> & He). cbn in Hm.
      apply dict_elem_get in He; [|done]. apply Hnew in He as [He|(p & Hin & -> & ->)].
      * apply dict_get_elem in He. rewrite (E3 e') in Hm; [done|]. apply list_elem_of_In, list_elem_of_fmap. by exists (m, e').
      * apply Hmet, posted_signed_load in Hin as (r & Hr & Hu & Hph & _); [|done]. cbn in Hm. rewrite Hu, Hph in Hm.
        destruct (rd_phase r =? 0) eqn:E0; cbn in Hm; [vm_compute in Hm; done|].
        rewrite (E1 r) in Hm; [done|]. by apply list_elem_of_In.
Qed.

Lemma met_after_plan entries registered declared :
  dict_wf registered →
  let plan := plan_registration digest lfdi profile direction entries registered declared in
  let cand := candidates profile entries declared in
  met_of digest lfdi profile direction cand plan declared = met_of digest lfdi profile direction cand registered declared.
Proof using Hlen Hrep.
  intros W. cbv zeta. unfold met_of. destruct (decide (profile = SIGNED_LOAD_CONVENTION)) as [Hp|Hp].
  - by rewrite multi_phase_stable.
  - f_equal. by apply slots_of_same.
Qed.

Lemma keep_valid_app seen a b : ∃ rest, keep_valid seen (a ++ b) = keep_valid seen a ++ rest.
Proof.
  revert seen. induction a as [|[r|] a IH]; intros seen; cbn; [by eexists| |by apply IH].
  destruct (is_valid_reading r && _); [|by apply IH]. destruct (IH (reading_identity r DEFAULT_MULTIPLIER :: seen)) as [rest ->].
  by exists rest.
Qed.

(** What the readings alone post is among what the plan has met. *)
Lemma met_candidates entries registered declared p :
  p ∈ met_of digest lfdi profile direction entries registered declared →
  p ∈ met_of digest lfdi profile direction (candidates profile entries declared) registered declared.
Proof.
  destruct (decide (as_reported profile = true)) as [Ha|Ha].
  - unfold met_of. rewrite !elem_of_met. intros (position & r & rank & v & Hr & Hv & Hp).
    assert (profile ≠ SIGNED_LOAD_CONVENTION) as Hns by (apply bool_decide_eq_true in Ha; congruence).
    rewrite (slots_of_same profile Hns _ (is_multi_phase lfdi (valid_of profile entries declared) registered)).
    exists position, r, rank, v. split_and!; [|done..].
    unfold valid_of, valid_readings, candidates in *.
    match goal with |- context [keep_valid [] (entries ++ ?x)] => destruct (keep_valid_app [] entries x) as [rest ->] end.
    rewrite List.filter_app. by apply lookup_app_l_Some.
  - unfold candidates. apply not_true_is_false in Ha. rewrite Ha. by destruct declared; rewrite app_nil_r.
Qed.

(** A registration settles.  Once the plan of a cycle's readings is registered,
    planning the same readings again adds nothing, so that nothing is registered
    twice; and every reading of the cycle posts under an mRID that the plan has
    registered, so that none of its values is held back. *)
Theorem registration_settles (entries : list Entry) (registered : Registration) (declared : option (list ReadingIdentity)) :
  dict_wf registered →
  let plan := plan_registration digest lfdi profile direction entries registered declared in
  (∀ m, m ∈ dict_keys (plan_registration digest lfdi profile direction entries plan declared) ↔ m ∈ dict_keys plan) ∧
  ∀ p, p ∈ posted_readings digest lfdi profile direction entries plan declared → po_mrid p ∈ dict_keys plan.
Proof using Hlen Hrep.
  intros W plan. set (cand := candidates profile entries declared).
  destruct (plan_spec digest lfdi profile direction entries registered declared W) as (Wp & _ & Hkeys & _). fold plan cand in Wp, Hkeys.
  assert (∀ p, p ∈ met_of digest lfdi profile direction cand plan declared → po_mrid p ∈ dict_keys plan) as Hin.
  { intros p. unfold plan, cand. rewrite met_after_plan by done. intros Hp. apply Hkeys. right. by apply posted_spec. }
  split.
  - intros m. destruct (plan_spec digest lfdi profile direction entries plan declared Wp) as (_ & _ & -> & _). fold cand.
    split; [|by left]. intros [?|(p & -> & Hp)%list_elem_of_fmap]; [done|]. by apply Hin, posted_spec.
  - intros p Hp. apply posted_spec, met_candidates in Hp. by apply Hin.
Qed.
End Settles.

(** ** Values *)

Ltac flow_cases :=
  unfold FLOW_NET, FLOW_NORMAL, FLOW_REVERSE in *;
  repeat (let Hd := fresh "Hd" in case_decide as Hd; [try (exfalso; naive_solver)|try (exfalso; apply Hd; done)]).

(** The ways to tell a direction agree.  Of a reading that sets none, the net
    value is the forward one less the reverse one; those two are magnitudes, one
    of them zero; the default value is the magnitude, and it is that of the
    direction the reading registers with. *)
Theorem directions_agree (p : Posted) :
  rd_flow (po_reading p) = None → po_flow p = None →
  let at_ flow := mkPosted (po_mrid p) (po_description p) (po_order p) (po_reading p) (po_uom p) (po_phase p) (po_kind p)
    (po_qualifier p) (po_accumulation p) (po_multiplier p) (po_commodity p) (Some flow) (po_line p) in
  let net := default_value (at_ FLOW_NET) in
  let forward := default_value (at_ FLOW_NORMAL) in
  let reverse := default_value (at_ FLOW_REVERSE) in
  net = forward - reverse ∧ 0 <= forward ∧ 0 <= reverse ∧ (forward = 0 ∨ reverse = 0) ∧
  default_value p = forward + reverse ∧
  (po_uom p ∈ SIGNED_UOMS → default_value p = default_value (at_ (registration_flow p))).
Proof.
  intros Hr Hf. unfold default_value, registration_flow. cbn. rewrite Hr, Hf.
  set (x := scale_truncated _ _).
  split_and!; try (flow_cases; lia). intros Hu. rewrite (bool_decide_true _ Hu). cbn [andb].
  destruct (x <? 0) eqn:E; flow_cases; lia.
Qed.

(** ** The short form of an LFDI *)

Lemma length_decimals k n : length (decimals k n) = k.
Proof. revert n. induction k as [|k IH]; intros n; [done|]. cbn. rewrite length_app, IH. cbn. lia. Qed.

Lemma of_digits_snoc b l d : of_digits b (l ++ [d]) = of_digits b l * b + d.
Proof. unfold of_digits. by rewrite foldl_app. Qed.

Lemma of_digits_decimals k n : 0 <= n < 10 ^ Z.of_nat k → of_digits 10 (decimals k n) = n.
Proof.
  revert n. induction k as [|k IH]; intros n Hn; [cbn in *; lia|]. cbn [decimals]. rewrite of_digits_snoc, IH.
  - pose proof (Z.div_mod n 10). lia.
  - rewrite Nat2Z.inj_succ, Z.pow_succ_r in Hn by lia. split; [apply Z.div_pos; lia|]. apply Z.div_lt_upper_bound; lia.
Qed.

Lemma of_digits_bound b l : 1 < b → Forall (λ d, 0 <= d < b) l → 0 <= of_digits b l < b ^ Z.of_nat (length l).
Proof.
  intros Hb. induction l as [|d l IH] using rev_ind; intros Hl; [cbn; lia|].
  apply Forall_app in Hl as [Hl Hd]. apply Forall_cons in Hd as [Hd _]. specialize (IH Hl).
  rewrite of_digits_snoc, length_app. cbn [length].
  replace (Z.of_nat (length l + 1)) with (Z.succ (Z.of_nat (length l))) by lia.
  rewrite Z.pow_succ_r by lia.
  assert (b * (of_digits b l + 1) <= b * b ^ Z.of_nat (length l)) by (apply Z.mul_le_mono_nonneg_l; lia). nia.
Qed.

Definition sum (l : digits) : Z := foldl Z.add 0 l.
Lemma sum_snoc l d : sum (l ++ [d]) = sum l + d.
Proof. unfold sum. by rewrite foldl_app. Qed.

(** Leading zeros add nothing. *)
Lemma sum_decimals k k' n : 0 <= n < 10 ^ Z.of_nat k → (k <= k')%nat → sum (decimals k' n) = sum (decimals k n).
Proof.
  revert k n. induction k' as [|k' IH]; intros k n Hn Hk.
  { by replace k with O by lia. }
  cbn [decimals]. rewrite sum_snoc. destruct k as [|k].
  - cbn in Hn. assert (n = 0) as -> by lia. change (0 / 10) with 0. rewrite (IH O); [done|cbn; lia|lia].
  - cbn [decimals]. rewrite sum_snoc, (IH k); [done| |lia].
    rewrite Nat2Z.inj_succ, Z.pow_succ_r in Hn by lia. split; [apply Z.div_pos; lia|]. apply Z.div_lt_upper_bound; lia.
Qed.

Lemma ndigits_enough n : 0 <= n → 1 <= ndigits (size n) n ∧ n < 10 ^ ndigits (size n) n.
Proof.
  intros Hn. destruct (decide (n = 0)) as [->|]; [vm_compute; split; [discriminate|reflexivity]|].
  destruct (ndigits_spec (size n) n); [lia|unfold size; lia|]. lia.
Qed.

Lemma ndigits_at_most n k : 0 <= n < 10 ^ k → 1 <= k → ndigits (size n) n <= k.
Proof.
  intros Hn Hk. destruct (decide (n = 0)) as [->|]; [vm_compute ndigits; lia|].
  destruct (ndigits_spec (size n) n) as [H1 [H2 _]]; [lia|unfold size; lia|].
  destruct (Z.le_gt_cases (ndigits (size n) n) k); [done|]. exfalso.
  assert (10 ^ k <= 10 ^ (ndigits (size n) n - 1)) by (apply Z.pow_le_mono_r; lia). lia.
Qed.

(** The SFDI of an LFDI is a number of at most twelve digits: the first 36 bits
    of the LFDI, and a last digit that makes the sum of them all a multiple of
    ten.  So every mRID made from a slot or a hash of eleven digits has 32 hex
    digits, which are sixteen bytes. *)
Theorem sfdi_and_mrid_form (digest : string → digits) (lfdi : digits) (s : Z) (i : ReadingIdentity) (salt : string) :
  length lfdi = 40%nat → Forall (λ d, 0 <= d < 16) lfdi → (∀ text, length (digest text) = 11%nat) →
  let sfdi := compute_sfdi lfdi in
  sfdi / 10 = of_digits 16 (take 9 lfdi) ∧ 0 <= sfdi < 10 ^ 12 ∧ sum (decimals 12 sfdi) mod 10 = 0 ∧
  length (create_mrid lfdi s) = 32%nat ∧ length (hashed_mrid digest lfdi i salt) = 32%nat.
Proof.
  intros Hl Hd Hdig. cbv zeta. set (base := of_digits 16 (take 9 lfdi)).
  assert (0 <= base < 16 ^ 9) as Hb.
  { assert (length (take 9 lfdi) = 9%nat) as H9 by (rewrite length_take; lia).
    pose proof (of_digits_bound 16 (take 9 lfdi) ltac:(lia) (Forall_take _ _ _ Hd)) as H. by rewrite H9 in H. }
  set (check := (10 - sum (str_int base) mod 10) mod 10).
  destruct (ndigits_enough base) as [Hn1 Hn2]; [lia|].
  assert (of_digits 10 (str_int base) = base) as Hs by (apply of_digits_decimals; rewrite Z2Nat.id by lia; lia).
  assert (compute_sfdi lfdi = base * 10 + check) as Hsf.
  { unfold compute_sfdi. fold base. rewrite of_digits_snoc, Hs. done. }
  assert (0 <= check < 10) as Hc by (apply Z.mod_pos_bound; lia).
  assert (0 <= compute_sfdi lfdi < 10 ^ 12) as Hr by (rewrite Hsf; lia).
  assert (length (padded12 (compute_sfdi lfdi)) = 12%nat) as Hp.
  { unfold padded12. rewrite length_decimals. rewrite Z.max_l; [done|]. apply ndigits_at_most; lia. }
  split_and!; try lia.
  - rewrite Hsf. symmetry. apply (Z.div_unique_pos _ 10 base check); lia.
  - change (decimals 12 (compute_sfdi lfdi)) with (decimals 11 (compute_sfdi lfdi / 10) ++ [compute_sfdi lfdi mod 10]).
    rewrite sum_snoc.
    assert (compute_sfdi lfdi / 10 = base) as -> by (rewrite Hsf; symmetry; apply (Z.div_unique_pos _ 10 base check); lia).
    assert (compute_sfdi lfdi mod 10 = check) as -> by (rewrite Hsf; symmetry; apply (Z.mod_unique_pos _ 10 base check); lia).
    rewrite (sum_decimals (Z.to_nat (ndigits (size base) base)) 11).
    + fold (str_int base). unfold check. set (x := sum (str_int base)). clearbody x. clear. Z.div_mod_to_equations. lia.
    + rewrite Z2Nat.id by lia. lia.
    + pose proof (ndigits_at_most base 11 ltac:(lia) ltac:(lia)). lia.
  - unfold create_mrid. rewrite !length_app, Hp. cbn [length PEN_HEX].
    case_match; rewrite length_app, length_decimals, length_take; lia.
  - unfold hashed_mrid. rewrite !length_app, Hp, Hdig. done.
Qed.

(** ** Samples *)

Definition sample_lfdi : digits :=
  [3; 14; 4; 15; 4; 5; 12; 2; 1; 10; 11; 9; 0; 7; 13; 3; 8; 8; 2; 15; 3; 14; 4; 15; 4; 5; 12; 2; 1; 10; 11; 9; 0; 7; 13;
   3; 8; 8; 2; 15].
(** A stand-in for the hash: the length of the text in eleven digits. *)
Definition sample_digest (text : string) : digits := decimals 11 (Z.of_nat (String.length text)).
Definition sample_reading (uom value phase : Z) : Reading := mkRead uom (Fin value 0) phase 37 12 12 None None None.
Definition power : Reading := sample_reading UOM_W 1500 0.
Definition demand : Reading := sample_reading UOM_VA 1600 64.

Definition sample_plan (profile : ReadingProfile) (entries : list Entry) (registered : Registration) : Registration :=
  plan_registration sample_digest sample_lfdi profile SPLIT entries registered None.

Lemma plan_only_grows_witness :
  let first := sample_plan DEFAULT [Some power] [] in
  length first = 2%nat ∧
  ∀ m e, dict_get m first = Some e → dict_get m (sample_plan DEFAULT [Some demand; None] first) = Some e.
Proof.
  intros first. split; [reflexivity|].
  apply (plan_only_grows sample_digest sample_lfdi DEFAULT SPLIT [Some demand; None] first None).
  apply (bool_decide_unpack _). vm_compute. exact I.
Defined.

Lemma not_repeats_sample : ¬ repeats sample_lfdi.
Proof. intros (d & _ & H). cbn in H. injection H. intros. lia. Qed.

Lemma registration_settles_witness :
  length (posted_readings sample_digest sample_lfdi SIGNED_LOAD_CONVENTION SPLIT [Some power; Some demand]
    (sample_plan SIGNED_LOAD_CONVENTION [Some power; Some demand] []) None) = 2%nat ∧
  ∀ p, p ∈ posted_readings sample_digest sample_lfdi SIGNED_LOAD_CONVENTION SPLIT [Some power; Some demand]
         (sample_plan SIGNED_LOAD_CONVENTION [Some power; Some demand] []) None →
       po_mrid p ∈ dict_keys (sample_plan SIGNED_LOAD_CONVENTION [Some power; Some demand] []).
Proof.
  split; [vm_compute; reflexivity|].
  apply (registration_settles sample_digest sample_lfdi SIGNED_LOAD_CONVENTION SPLIT ltac:(cbn; lia) not_repeats_sample
    [Some power; Some demand] [] None).
  constructor.
Defined.

(** The forward part of a power, in one cycle and in another. *)
Definition forward_power (value : Z) : Posted :=
  post_one sample_digest sample_lfdi DEFAULT DEFAULT_SLOTS 0 (sample_reading UOM_W value 0) 0
    (Some FLOW_NORMAL, with_flow (reading_identity (sample_reading UOM_W value 0) (defaults_of DEFAULT)) (Some FLOW_NORMAL)).

Lemma mrid_fixes_reading_type_witness :
  po_mrid (forward_power 10) = po_mrid (forward_power (-3)) ∧
  ∀ flow, reading_type (forward_power 10) flow = reading_type (forward_power (-3)) flow.
Proof.
  split; [vm_compute; reflexivity|].
  apply (mrid_fixes_reading_type sample_digest sample_lfdi DEFAULT SPLIT SPLIT [Some (sample_reading UOM_W 10 0)]
    [Some (sample_reading UOM_W (-3) 0)] [] [] None None); try done.
  - cbn. lia.
  - apply not_repeats_sample.
  - apply list_elem_of_lookup. exists 0%nat. vm_compute. reflexivity.
  - apply list_elem_of_lookup. exists 0%nat. vm_compute. reflexivity.
Defined.

Definition by_sign (value : Z) : Posted :=
  post_one sample_digest sample_lfdi DEFAULT DEFAULT_SLOTS 0 (sample_reading UOM_W value 0) 0
    (None, reading_identity (sample_reading UOM_W value 0) (defaults_of DEFAULT)).

Lemma directions_agree_witness : registration_flow (by_sign (-7)) = FLOW_REVERSE ∧ default_value (by_sign (-7)) = 7.
Proof.
  split; [reflexivity|]. destruct (directions_agree (by_sign (-7))) as (_ & _ & _ & _ & H & _); [reflexivity..|].
  rewrite H. reflexivity.
Defined.

Lemma sfdi_and_mrid_form_witness : compute_sfdi sample_lfdi = 167261215054 ∧ length (create_mrid sample_lfdi 61) = 32%nat.
Proof.
  split; [vm_compute; reflexivity|].
  refine (proj1 (proj2 (proj2 (proj2 (sfdi_and_mrid_form sample_digest sample_lfdi 61 (variant_of (by_sign 0)) "default" _ _ _))))).
  - reflexivity.
  - apply (bool_decide_unpack _). vm_compute. exact I.
  - intros text. apply length_decimals.
Defined.

(** Under the signed-load profile the totals of a split-phase device and of a
    three-phase one share an mRID, and their ReadingTypes differ. *)
Example signed_load_totals_share_mrid :
  let post phase := post_one sample_digest sample_lfdi SIGNED_LOAD_CONVENTION SIGNED_LOAD_SLOTS 0 (sample_reading UOM_W 5 phase)
    0 (None, reading_identity (sample_reading UOM_W 5 phase) (defaults_of SIGNED_LOAD_CONVENTION)) in
  po_mrid (post 132) = po_mrid (post 224) ∧ reading_type (post 132) (Some 0) ≠ reading_type (post 224) (Some 0).
Proof. split; [vm_compute; reflexivity|]. vm_compute. discriminate. Qed.

(** An LFDI that repeats a digit: the power of the system and that of the first
    line share an mRID, and only one of them is posted. *)
Example repeated_digit_loses_reading :
  create_mrid (replicate 40 0) 1 = create_mrid (replicate 40 0) 10 ∧
  length (posted_readings sample_digest (replicate 40 0) DEFAULT BySign
    [Some (sample_reading UOM_W 5 0); Some (sample_reading UOM_W 3 128)] [] None) = 1%nat.
Proof. split; vm_compute; reflexivity. Qed.
