(* ===== verification/Metering.v ===== *)
(** * Metering: telemetry/manager.py and telemetry/log_events.py

    [TelemetryManager]: one cycle of a device after another, with the answers of
    the device and of the server; what a device's state keeps when metering is
    started again; checkpoints of the registrations.

    A cycle runs in one piece: the scheduler never runs two of a device at once,
    and what starts or stops the device meanwhile is taken to come before or
    after it.  Warnings and diagnostics are left out. *)

From S2P Require Import Prelude Scaling Mirror.

#[local] Open Scope Z_scope.

(** ** Alarms: telemetry/log_events.py *)

Definition DER_ALARM_BITS : list Z := [0; 1; 2; 3; 4; 5; 6; 7; 8; 9; 10].
Definition MAPPED_ALARM_MASK : Z := bits_of DER_ALARM_BITS.

(** [None]: [ValueError] *)
Definition alarm_log_event_code (bit : Z) (returned_to_normal : bool) : option Z :=
  if bool_decide (bit ∈ DER_ALARM_BITS) then Some (2 * bit + if returned_to_normal then 1 else 0) else None.

Definition alarm_bits_to_log_events (previous current : Z) : list (Z * Z) :=
  omap (λ bit,
    if Z.testbit (Z.lxor previous current) bit then
      (λ code, (bit, code)) <$> alarm_log_event_code bit (negb (Z.testbit current bit))
    else None) DER_ALARM_BITS.

(** ** State *)

Record DeviceTelemetryState := mkDevice {
  dt_lfdi : digits;
  dt_mup_posted : bool;
  dt_href : option string;
  dt_registered : Registration;
  dt_rejected : option (gset digits);
  dt_declaration : option (list ReadingIdentity);
  dt_post_rate : Z;
  dt_server_rate : option Z;
  dt_log_href : option string;
  dt_availability_href : option string;
  dt_log_id : nat;
  dt_alarm : Z;                          (* last_alarm_status *)
  dt_blocked : bool;
  dt_role : DeviceRole;
  dt_revenue : bool;
  dt_mirror : option digits;
}.

Definition posted_under (d : DeviceTelemetryState) : digits := default (dt_lfdi d) (dt_mirror d).

Definition set_mup (posted : bool) (href : option string) (d : DeviceTelemetryState) : DeviceTelemetryState :=
  mkDevice (dt_lfdi d) posted href (dt_registered d) (dt_rejected d) (dt_declaration d) (dt_post_rate d)
    (dt_server_rate d) (dt_log_href d) (dt_availability_href d) (dt_log_id d) (dt_alarm d) (dt_blocked d) (dt_role d)
    (dt_revenue d) (dt_mirror d).
Definition set_registration (r : Registration) (rejected : option (gset digits)) (decl : option (list ReadingIdentity))
    (d : DeviceTelemetryState) : DeviceTelemetryState :=
  mkDevice (dt_lfdi d) (dt_mup_posted d) (dt_href d) r rejected decl (dt_post_rate d) (dt_server_rate d) (dt_log_href d)
    (dt_availability_href d) (dt_log_id d) (dt_alarm d) (dt_blocked d) (dt_role d) (dt_revenue d) (dt_mirror d).
Definition set_rates (rate : Z) (server : option Z) (d : DeviceTelemetryState) : DeviceTelemetryState :=
  mkDevice (dt_lfdi d) (dt_mup_posted d) (dt_href d) (dt_registered d) (dt_rejected d) (dt_declaration d) rate server
    (dt_log_href d) (dt_availability_href d) (dt_log_id d) (dt_alarm d) (dt_blocked d) (dt_role d) (dt_revenue d)
    (dt_mirror d).
Definition set_alarms (id : nat) (alarm : Z) (d : DeviceTelemetryState) : DeviceTelemetryState :=
  mkDevice (dt_lfdi d) (dt_mup_posted d) (dt_href d) (dt_registered d) (dt_rejected d) (dt_declaration d)
    (dt_post_rate d) (dt_server_rate d) (dt_log_href d) (dt_availability_href d) id alarm (dt_blocked d) (dt_role d)
    (dt_revenue d) (dt_mirror d).
Definition set_blocked (d : DeviceTelemetryState) : DeviceTelemetryState :=
  mkDevice (dt_lfdi d) (dt_mup_posted d) (dt_href d) (dt_registered d) (dt_rejected d) (dt_declaration d)
    (dt_post_rate d) (dt_server_rate d) (dt_log_href d) (dt_availability_href d) (dt_log_id d) (dt_alarm d) true
    (dt_role d) (dt_revenue d) (dt_mirror d).

(** ** What a cycle meets and does *)

(** An answer to a request: what it returns, the status of a refusal, or another
    failure. *)
Inductive Reply (A : Type) := Accepted (a : A) | Refused (status : Z) | NoReply.
Arguments Accepted {A}. Arguments Refused {A}. Arguments NoReply {A}.

(** A MirrorUsagePoint as the server lists it. *)
Record ListedMup := { lm_href : option string; lm_device_lfdi : option digits; lm_mrid : option digits }.

Record Cycle := {
  cy_provisioned : bool;                 (* true without the gate *)
  cy_history : bool;                     (* the device has an interval history *)
  cy_connects : bool;                    (* the connector resolves *)
  cy_readings : option (list Entry);     (* [None]: never read successfully *)
  cy_declared : option (list ReadingIdentity);
  cy_stale : bool;
  cy_acquired : Z;
  cy_now : Z;
  cy_mup : Reply (option string);        (* the Location *)
  cy_readback : option (option Z);       (* the postRate of the MUP *)
  cy_mup_list : option (list ListedMup);
  cy_readings_reply : Reply unit;
  cy_alarm : option Z;                   (* the status read, and its alarms *)
  cy_log_acked : nat → bool;             (* by logEventID *)
  cy_availability : bool;                (* the read succeeds *)
}.

(** A POST that is not acknowledged was refused, or its answer was lost: then
    the server may have taken it all the same. *)
Inductive Effect :=
| Integrates (w var : option Float)      (* the interval history's observe *)
| Interrupts                             (* and its interrupt *)
| PostsMup (mup : MirrorUsagePoint) (acked : bool)
| PostsReadings (href : string) (l : list MeterReading)
| PostsLogEvent (id : nat) (code : Z) (acked : bool)
| PutsAvailability (href : string)
| DeclaresRate (rate : Z)
| RegistrationChanged.

Definition keys_of (r : Registration) : gset digits := list_to_set (dict_keys r).

Definition MIN_POST_RATE : Z := 30.

Definition PER_LINE_PHASES : list Z := [128; 129; 64; 65; 32; 33].

(** [_total]; an entry that is no reading has no such fields. *)
Definition total_of (entries : list Entry) (uom : Z) : option Float :=
  match List.find (λ r, (rd_uom r =? uom) && negb (bool_decide (rd_phase r ∈ PER_LINE_PHASES)) && (rd_kind r =? 37) &&
          (rd_qualifier r =? 12) && bool_decide (rd_flow r = None ∨ rd_flow r = Some FLOW_NET)) (omap id entries) with
  | Some r => Some (rd_value r)
  | None => None
  end.

Section Manager.
Context (digest : string → digits) (profile : ReadingProfile) (direction : PowerDirection).

Definition plan_of (d : DeviceTelemetryState) (entries : list Entry) (declared : option (list ReadingIdentity))
    : Registration :=
  plan_registration digest (dt_lfdi d) profile direction entries (dt_registered d) declared.

Definition readback_post_rate (readback : option (option Z)) (d : DeviceTelemetryState)
    : DeviceTelemetryState * list Effect :=
  match readback with
  | Some (Some offered) =>
      if offered <=? 0 then (d, [])
      else
        let rate := Z.max (Z.min MIN_POST_RATE (dt_post_rate d)) offered in
        if rate =? dt_post_rate d then (set_rates (dt_post_rate d) (Some rate) d, [])
        else (set_rates rate (Some rate) d, [DeclaresRate rate])
  | _ => (d, [])
  end.

Definition post_mup (c : Cycle) (entries : list Entry) (declared : option (list ReadingIdentity))
    (d : DeviceTelemetryState) : DeviceTelemetryState * list Effect :=
  let plan := plan_of d entries declared in
  let mup := create_mup digest (dt_lfdi d) profile direction entries (dt_post_rate d) (dt_registered d) (dt_role d)
               (dt_revenue d) (Some (posted_under d)) declared in
  match cy_mup c with
  | Accepted location =>
      let changed := if decide (keys_of plan = keys_of (dt_registered d)) then [] else [RegistrationChanged] in
      let d' := set_registration plan None declared (set_mup true (dt_href d) d) in
      let '(d'', rates) :=
        match location with
        | Some ((String _ _) as href) => readback_post_rate (cy_readback c) (set_mup true (Some href) d')
        | _ => (d', [])
        end in
      (d'', PostsMup mup true :: changed ++ rates)
  | Refused status =>
      (if dt_mup_posted d && (400 <=? status) && (status <? 500)
       then set_registration (dt_registered d) (Some (keys_of plan)) (dt_declaration d) d
       else if status =? 403 then set_blocked d else d, [PostsMup mup false])
  | NoReply => (d, [PostsMup mup false])
  end.

Definition registration_grew (entries : list Entry) (d : DeviceTelemetryState) : bool :=
  let plan := plan_of d entries (dt_declaration d) in
  if decide (dt_rejected d = Some (keys_of plan)) then false
  else negb (bool_decide (keys_of plan = keys_of (dt_registered d))).

Definition discover_mup_href (mups : option (list ListedMup)) (d : DeviceTelemetryState) : option string :=
  match mups with
  | Some l =>
      match List.find (λ m, bool_decide (lm_device_lfdi m = Some (posted_under d)) &&
               from_option (λ id, bool_decide (id = mup_mrid (dt_lfdi d))) true (lm_mrid m)) l with
      | Some m => lm_href m
      | None => None
      end
  | None => None
  end.

Definition truthy_text (s : option string) : option string := match s with Some EmptyString => None | _ => s end.

Definition post_readings (c : Cycle) (entries : list Entry) (next_update : Z) (d : DeviceTelemetryState)
    : DeviceTelemetryState * list Effect :=
  let d := match truthy_text (dt_href d) with
           | Some _ => d
           | None => set_mup (dt_mup_posted d) (discover_mup_href (cy_mup_list c) d) d
           end in
  match truthy_text (dt_href d) with
  | None => (d, [])
  | Some href =>
      let l := create_meter_reading_list digest (dt_lfdi d) profile direction entries (cy_acquired c) (dt_post_rate d)
                 (Some next_update) (cy_stale c) (Some (dt_registered d)) (dt_role d) (dt_declaration d) in
      if bool_decide (profile = SIGNED_AS_REPORTED ∧ l = []) then (d, [])
      else
        (match cy_readings_reply c with
         | Refused status =>
             if (status =? 400) || (status =? 404) then set_mup false None d
             else if status =? 403 then set_blocked d else d
         | _ => d
         end, [PostsReadings href l])
  end.

(** The loop over the transitions, which a POST that fails leaves. *)
Fixpoint post_transitions (acked : nat → bool) (alarm : Z) (events : list (Z * Z)) (d : DeviceTelemetryState)
    : DeviceTelemetryState * list Effect :=
  match events with
  | [] => (d, [])
  | (bit, code) :: rest =>
      if acked (dt_log_id d) then
        let status := if Z.testbit alarm bit then Z.lor (dt_alarm d) (Z.shiftl 1 bit)
                      else Z.land (dt_alarm d) (Z.lnot (Z.shiftl 1 bit)) in
        let r := post_transitions acked alarm rest (set_alarms (S (dt_log_id d)) status d) in
        (r.1, PostsLogEvent (dt_log_id d) code true :: r.2)
      else (d, [PostsLogEvent (dt_log_id d) code false])
  end.

Definition post_log_event (c : Cycle) (d : DeviceTelemetryState) : DeviceTelemetryState * list Effect :=
  match truthy_text (dt_log_href d), cy_alarm c with
  | Some _, Some alarm =>
      let events := alarm_bits_to_log_events (dt_alarm d) alarm in
      let d := set_alarms (dt_log_id d)
                 (Z.lor (Z.land (dt_alarm d) MAPPED_ALARM_MASK) (Z.land alarm (Z.lnot MAPPED_ALARM_MASK))) d in
      post_transitions (cy_log_acked c) alarm events d
  | _, _ => (d, [])
  end.

Definition put_der_availability (c : Cycle) (d : DeviceTelemetryState) : list Effect :=
  match truthy_text (dt_availability_href d) with
  | Some href => if cy_availability c then [PutsAvailability href] else []
  | None => []
  end.

Definition is_der (role : DeviceRole) : bool := match role with DER => true | _ => false end.

Definition then_ (r : DeviceTelemetryState * list Effect) (f : DeviceTelemetryState → DeviceTelemetryState * list Effect)
    : DeviceTelemetryState * list Effect :=
  let r' := f r.1 in (r'.1, r.2 ++ r'.2).

(** Stage 1 *)
Definition mirror_stage (c : Cycle) (entries : list Entry) (d : DeviceTelemetryState)
    : DeviceTelemetryState * list Effect :=
  if negb (dt_mup_posted d) then post_mup c entries (cy_declared c) d
  else
    then_ (if registration_grew entries d then post_mup c entries None d else (d, []))
      (λ d, post_readings c entries (cy_now c + dt_post_rate d) d).

Definition keep_interval (c : Cycle) (entries : list Entry) : list Effect :=
  if negb (cy_history c) then []
  else if cy_stale c then [Interrupts] else [Integrates (total_of entries UOM_W) (total_of entries UOM_VAR)].

Definition metering_cycle (c : Cycle) (d : DeviceTelemetryState) : DeviceTelemetryState * list Effect :=
  if dt_blocked d || negb (cy_provisioned c) || negb (cy_connects c) then (d, [])
  else match cy_readings c with
       | None => (d, [])
       | Some entries =>
           then_ (then_ (d, keep_interval c entries) (mirror_stage c entries))
             (λ d, if is_der (dt_role d) then then_ (post_log_event c d) (λ d, (d, put_der_availability c d)) else (d, []))
       end.
End Manager.

(** ** The manager *)

Record Manager := mkManager {
  mg_devices : dict digits DeviceTelemetryState;
  mg_restored : dict digits Registration;
}.

Record Start := {
  st_post_rate : Z;
  st_log_href : option string;
  st_availability_href : option string;
  st_role : DeviceRole;
  st_revenue : bool;
  st_mirror : option digits;
}.

Definition new_device (lfdi : digits) (s : Start) : DeviceTelemetryState :=
  mkDevice lfdi false None [] None None (st_post_rate s) None (st_log_href s) (st_availability_href s) 0 0 false
    (st_role s) (st_revenue s) (st_mirror s).

(** What is kept of the state from before. *)
Definition carry_over (old : option DeviceTelemetryState) (d : DeviceTelemetryState) : DeviceTelemetryState :=
  match old with
  | None => d
  | Some o =>
      let d :=
        if dt_mup_posted o then
          let d := set_registration (dt_registered o) (dt_rejected o) (dt_declaration o) (set_mup true (dt_href o) d) in
          let d := match dt_server_rate o with Some r => set_rates r (Some r) d | None => d end in
          set_alarms (dt_log_id o) (dt_alarm d) d
        else d in
      let d := set_alarms (dt_log_id d) (dt_alarm o) d in
      if dt_blocked o then set_blocked d else d
  end.

Definition start_metering (lfdi : digits) (s : Start) (m : Manager) : Manager :=
  let d := carry_over (dict_get lfdi (mg_devices m)) (new_device lfdi s) in
  let d := match dt_registered d, dict_get lfdi (mg_restored m) with
           | [], Some r => set_registration r (dt_rejected d) (dt_declaration d) d
           | _, _ => d
           end in
  mkManager (dict_set lfdi d (mg_devices m)) (mg_restored m).

Definition stop_metering (lfdi : digits) (m : Manager) : Manager :=
  mkManager (dict_del lfdi (mg_devices m)) (mg_restored m).

(** [to_checkpoint], without its order and its encoding. *)
Definition to_checkpoint (m : Manager) : dict digits Registration :=
  filter (λ e, e.2 ≠ [])
    (foldl (λ d e, match dt_registered e.2 with [] => d | r => dict_set e.1 r d end) (mg_restored m) (mg_devices m)).

Definition restore_one (m : Manager) (e : digits * Registration) : Manager :=
  let '(lfdi, r) := e in
  mkManager
    (match dict_get lfdi (mg_devices m) with
     | Some d => match dt_registered d with
                 | [] => dict_set lfdi (set_registration r (dt_rejected d) (dt_declaration d) d) (mg_devices m)
                 | _ => mg_devices m
                 end
     | None => mg_devices m
     end) (dict_set lfdi r (mg_restored m)).
Definition restore_from_checkpoint (data : dict digits Registration) (m : Manager) : Manager :=
  foldl restore_one m data.

Definition run_cycle (digest : string → digits) (profile : ReadingProfile) (direction : PowerDirection) (lfdi : digits)
    (c : Cycle) (m : Manager) : Manager * list Effect :=
  match dict_get lfdi (mg_devices m) with
  | None => (m, [])
  | Some d =>
      let r := metering_cycle digest profile direction c d in
      (mkManager (dict_set lfdi r.1 (mg_devices m)) (mg_restored m), r.2)
  end.

(** ** LogEvents an operator triggers

    They do not touch the alarms on record; [acked] tells of each logEventID
    whether its POST is acknowledged, and a POST that is not raises. *)

Definition post_and_record (acked : nat → bool) (code : Z) (d : DeviceTelemetryState)
    : bool * DeviceTelemetryState * list Effect :=
  let id := dt_log_id d in
  if acked id then (true, set_alarms (S id) (dt_alarm d) d, [PostsLogEvent id code true])
  else (false, d, [PostsLogEvent id code false]).

Inductive LogEventError := UnknownDevice | NoLogEventList | NotOneAlarm (n : nat) | PostFails.

Fixpoint post_codes (acked : nat → bool) (events : list (Z * Z)) (d : DeviceTelemetryState)
    : option LogEventError * DeviceTelemetryState * list Effect :=
  match events with
  | [] => (None, d, [])
  | (_, code) :: rest =>
      let '(ok, d', tr) := post_and_record acked code d in
      if (ok : bool) then let '(e, d'', tr') := post_codes acked rest d' in (e, d'', tr ++ tr') else (Some PostFails, d', tr)
  end.

(** [post_log_event] *)
Definition post_alarms (acked : nat → bool) (alarm : Z) (d : DeviceTelemetryState)
    : option LogEventError * DeviceTelemetryState * list Effect :=
  match truthy_text (dt_log_href d) with
  | None => (Some NoLogEventList, d, [])
  | Some _ => post_codes acked (alarm_bits_to_log_events 0 alarm) d
  end.

Definition LOG_EVENT_BURST_COUNT : nat := 5.

Fixpoint burst (n : nat) (acked : nat → bool) (code : Z) (d : DeviceTelemetryState)
    : nat * DeviceTelemetryState * list Effect :=
  match n with
  | O => (0%nat, d, [])
  | S n' =>
      let '(ok, d', tr) := post_and_record acked code d in
      if (ok : bool) then let '(posted, d'', tr') := burst n' acked code d' in (S posted, d'', tr ++ tr') else (0%nat, d', tr)
  end.

Definition post_log_event_burst (acked : nat → bool) (lfdi : digits) (alarm : Z) (m : Manager)
    : (LogEventError + nat) * Manager * list Effect :=
  match dict_get lfdi (mg_devices m) with
  | None => (inl UnknownDevice, m, [])
  | Some d =>
      match truthy_text (dt_log_href d) with
      | None => (inl NoLogEventList, m, [])
      | Some _ =>
          match alarm_bits_to_log_events 0 alarm with
          | [(_, code)] =>
              let '(posted, d', tr) := burst LOG_EVENT_BURST_COUNT acked code d in
              (inr posted, mkManager (dict_set lfdi d' (mg_devices m)) (mg_restored m), tr)
          | events => (inl (NotOneAlarm (length events)), m, [])
          end
      end
  end.

Definition find_device_with_log_events (m : Manager) : option digits :=
  fst <$> List.find (λ e, bool_decide (is_Some (truthy_text (dt_log_href e.2)))) (mg_devices m).
