(* ===== verification/MeteringProps.v ===== *)
(** * MeteringProps: cycles of a device and their traces

    About [Metering]: what a device posts follows what it has registered, alarms
    are reported as they occur, a block is kept; and a start after a reset
    forgets the registration. *)

From S2P Require Import Prelude Scaling Mirror MirrorProps Metering.

#[local] Open Scope Z_scope.

(** ** Runs *)

(** Cycles of the device and starts of its metering. *)
Inductive Step := RunsCycle (c : Cycle) | Starts (s : Start).

Section Runs.
Context (digest : string → digits) (profile : ReadingProfile) (direction : PowerDirection) (lfdi : digits).

Definition take_step (m : Manager) (st : Step) : Manager * list Effect :=
  match st with
  | RunsCycle c => run_cycle digest profile direction lfdi c m
  | Starts s => (start_metering lfdi s m, [])
  end.

Fixpoint run (l : list Step) (m : Manager) : Manager * list Effect :=
  match l with
  | [] => (m, [])
  | st :: l' => let r := take_step m st in let r' := run l' r.1 in (r'.1, r.2 ++ r'.2)
  end.

(** A start keeps the registration, unless the MirrorUsagePoint was given up. *)
Definition keeps_registration (m : Manager) : Prop :=
  ∀ d, dict_get lfdi (mg_devices m) = Some d → dt_mup_posted d = true ∨ dt_registered d = [].

Fixpoint safe_run (l : list Step) (m : Manager) : Prop :=
  match l with
  | [] => True
  | st :: l' => match st with Starts _ => keeps_registration m | _ => True end ∧ safe_run l' (take_step m st).1
  end.
End Runs.

(** ** What was registered before *)

Definition acked_mups (tr : list Effect) : list MirrorUsagePoint :=
  omap (λ e, match e with PostsMup mup true => Some mup | _ => None end) tr.

(** The MirrorUsagePoints the server may hold: the last one acknowledged, or one
    posted since, taken although its answer was lost. *)
Definition since_ack (held : list MirrorUsagePoint) (e : Effect) : list MirrorUsagePoint :=
  match e with
  | PostsMup mup true => [mup]
  | PostsMup mup false => match held with [] => [] | _ => held ++ [mup] end
  | _ => held
  end.
Definition may_hold (tr : list Effect) : list MirrorUsagePoint := foldl since_ack [] tr.

(** Readings are posted only once a MirrorUsagePoint is acknowledged, under mRIDs
    of every one the server may hold since; and a MirrorUsagePoint repeats
    whatever one acknowledged before registered. *)
Definition follows (before : list Effect) (e : Effect) : Prop :=
  match e with
  | PostsReadings _ l => may_hold before ≠ [] ∧
      ∀ mup r, mup ∈ may_hold before → r ∈ l → mm_mrid r ∈ (λ x, x.1.1) <$> mu_readings mup
  | PostsMup mup _ => ∀ mup', mup' ∈ acked_mups before → ∀ x, x ∈ mu_readings mup' → x ∈ mu_readings mup
  | _ => True
  end.

Definition all_follow (tr : list Effect) : Prop := ∀ before e after, tr = before ++ e :: after → follows before e.

Lemma all_follow_app tr tr' :
  all_follow tr → (∀ before e after, tr' = before ++ e :: after → follows (tr ++ before) e) → all_follow (tr ++ tr').
Proof.
  intros H H' before e after Heq. apply app_eq_app in Heq as (k & [[-> Heq]|[-> Heq]]).
  - destruct k as [|x k]; cbn in *.
    + specialize (H' [] e after). rewrite !app_nil_r in *. apply H'. by rewrite Heq.
    + injection Heq as <- ->. by apply (H before e k).
  - by apply (H' k e after).
Qed.

Lemma follow_one tr x : follows tr x → ∀ before e after, [x] = before ++ e :: after → follows (tr ++ before) e.
Proof. intros H [|y before] e after Heq; cbn in Heq; [injection Heq as <- _; by rewrite app_nil_r|by destruct before]. Qed.

Lemma acked_mups_app tr tr' : acked_mups (tr ++ tr') = acked_mups tr ++ acked_mups tr'.
Proof. apply omap_app. Qed.

Definition neutral (e : Effect) : Prop :=
  match e with PostsReadings _ _ | PostsMup _ _ => False | _ => True end.

Lemma acked_neutral es : Forall neutral es → acked_mups es = [].
Proof. induction 1 as [|e es He _ IH]; [done|]. unfold acked_mups in *. cbn. by destruct e as [| |? []| | | | |]. Qed.

Lemma may_hold_neutral tr es : Forall neutral es → may_hold (tr ++ es) = may_hold tr.
Proof.
  intros Hn. unfold may_hold. rewrite foldl_app. generalize (foldl since_ack [] tr) as h.
  induction Hn as [|e es He _ IH]; intros h; [done|]. cbn. by destruct e as [| |? []| | | | |].
Qed.

Lemma may_hold_acked tr : may_hold tr = [] ↔ acked_mups tr = [].
Proof.
  induction tr as [|e tr IH] using rev_ind; [done|]. unfold may_hold in *. rewrite foldl_snoc, acked_mups_app.
  destruct e as [| |? []| | | | |]; cbn; rewrite ?app_nil_r; try done.
  - split; [done|]. by intros [_ ?]%app_eq_nil.
  - rewrite <- IH. destruct (foldl since_ack [] tr); [done|]. split; [by intros [??]%app_eq_nil|done].
Qed.

Lemma neutral_follow tr es : all_follow tr → Forall neutral es → all_follow (tr ++ es).
Proof.
  intros H Hn. apply all_follow_app; [done|]. intros before e after ->.
  apply Forall_app in Hn as [_ Hn]. apply Forall_cons in Hn as [Hn _]. by destruct e.
Qed.

(** *** The state of a device and its trace *)

Definition mup_entries (r : Registration) : list (digits * string * ReadingType) :=
  (λ e, (rr_mrid e, rr_description e, rr_type e)) <$> dict_values r.

Record registration_wf (r : Registration) : Prop := {
  rw_keys : dict_wf r;
  rw_own : ∀ m e, dict_get m r = Some e → rr_mrid e = m;
}.

(** [base]: the registration the device was restored with. *)
Record device_inv (base : Registration) (d : DeviceTelemetryState) (tr : list Effect) : Prop := {
  di_base : ∀ m e, dict_get m base = Some e → dict_get m (dt_registered d) = Some e;
  di_wf : registration_wf (dt_registered d);
  di_posted : dt_mup_posted d = true →
    ∃ mup, last (acked_mups tr) = Some mup ∧ mu_readings mup = mup_entries (dt_registered d);
  di_kept : ∀ mup x, mup ∈ acked_mups tr → x ∈ mu_readings mup → x ∈ mup_entries (dt_registered d);
  di_held : ∀ mup x, mup ∈ may_hold tr → x ∈ mup_entries (dt_registered d) → x ∈ mu_readings mup;
  di_follow : all_follow tr;
}.

Lemma mup_entries_kept r r' :
  dict_wf r → (∀ m e, dict_get m r = Some e → dict_get m r' = Some e) → ∀ x, x ∈ mup_entries r → x ∈ mup_entries r'.
Proof.
  intros W H x (e & -> & ([m e'] & -> & He)%list_elem_of_fmap)%list_elem_of_fmap.
  apply dict_elem_get, H, dict_get_elem in He; [|done].
  apply list_elem_of_fmap. exists e'. split; [done|]. apply list_elem_of_fmap. by exists (m, e').
Qed.

Lemma mup_entries_mrid r m : registration_wf r → m ∈ dict_keys r → m ∈ (λ x, x.1.1) <$> mup_entries r.
Proof.
  intros [W Hown] ([k e] & -> & He)%list_elem_of_fmap. apply dict_elem_get in He as Hg; [|done].
  apply list_elem_of_fmap. exists (rr_mrid e, rr_description e, rr_type e). split; [symmetry; by apply Hown|].
  apply list_elem_of_fmap. exists e. split; [done|]. apply list_elem_of_fmap. by exists (k, e).
Qed.

Lemma inv_neutral base d d' tr es :
  device_inv base d tr → Forall neutral es → dt_registered d' = dt_registered d →
  (dt_mup_posted d' = true → dt_mup_posted d = true) → device_inv base d' (tr ++ es).
Proof.
  intros [B W P K H F] Hn Hr Hp. pose proof (acked_neutral es Hn) as Ha.
  split; rewrite ?Hr, ?acked_mups_app, ?Ha, ?app_nil_r, ?(may_hold_neutral tr es) by done;
    [done|done|auto|done|done|by apply neutral_follow].
Qed.

Section Cycle.
Context (digest : string → digits) (profile : ReadingProfile) (direction : PowerDirection) (base : Registration).

Abbreviation device_inv := (device_inv base).
Abbreviation plan_of := (plan_of digest profile direction).
Abbreviation post_mup := (post_mup digest profile direction).
Abbreviation post_readings := (post_readings digest profile direction).

Lemma plan_of_wf d entries declared :
  registration_wf (dt_registered d) →
  registration_wf (plan_of d entries declared) ∧
  ∀ m e, dict_get m (dt_registered d) = Some e → dict_get m (plan_of d entries declared) = Some e.
Proof.
  intros [W Hown]. destruct (plan_spec digest (dt_lfdi d) profile direction entries (dt_registered d) declared W)
    as (Wp & Hkeep & _ & Hnew & _).
  split; [split; [done|]|done]. intros m e [He|(p & _ & -> & ->)]%Hnew; [by apply Hown|done].
Qed.

Lemma readback_same readback d :
  let r := readback_post_rate readback d in
  dt_registered r.1 = dt_registered d ∧ dt_mup_posted r.1 = dt_mup_posted d ∧ Forall neutral r.2.
Proof.
  unfold readback_post_rate. destruct readback as [[offered|]|]; cbn; [|by split_and!..].
  repeat case_match; cbn; by repeat constructor.
Qed.

(** A MirrorUsagePoint that is not acknowledged, whether the server took it or
    not. *)
Lemma inv_unacked d d' tr mup :
  device_inv d tr → all_follow (tr ++ [PostsMup mup false]) →
  (∀ x, x ∈ mup_entries (dt_registered d) → x ∈ mu_readings mup) →
  dt_registered d' = dt_registered d → (dt_mup_posted d' = true → dt_mup_posted d = true) →
  device_inv d' (tr ++ [PostsMup mup false]).
Proof.
  intros [B W P K H F] Hfol Hsub Hr Hp.
  split; rewrite ?Hr, ?acked_mups_app; cbn; rewrite ?app_nil_r; [done|done|auto|done| |done].
  intros mup' x. unfold may_hold. rewrite foldl_snoc. cbn. fold (may_hold tr). destruct (may_hold tr) eqn:E; [by intros ?%elem_of_nil|].
  intros [Hin| ->%list_elem_of_singleton]%elem_of_app; [|auto]. by apply H.
Qed.

Lemma post_mup_inv c entries declared d tr :
  device_inv d tr → device_inv (post_mup c entries declared d).1 (tr ++ (post_mup c entries declared d).2).
Proof.
  intros I. destruct (plan_of_wf d entries declared (di_wf _ _ _ I)) as [Wp Hkeep].
  unfold Metering.post_mup. set (mup := create_mup _ _ _ _ _ _ _ _ _ _ _). set (plan := plan_of d entries declared) in *.
  assert (mu_readings mup = mup_entries plan) as Hm by done.
  pose proof (mup_entries_kept _ _ (rw_keys _ (di_wf _ _ _ I)) Hkeep) as Hgrow.
  assert (∀ b, all_follow (tr ++ [PostsMup mup b])) as Hfol.
  { intros b. apply all_follow_app; [apply I|]. apply follow_one. cbn. intros mup' Hin x Hx.
    apply Hgrow. by eapply di_kept. }
  destruct (cy_mup c) as [location|status|].
  2,3: apply (inv_unacked d); [done..|repeat case_match; done|repeat case_match; done].
  assert (device_inv (set_registration plan None declared (set_mup true (dt_href d) d)) (tr ++ [PostsMup mup true])) as I1.
  { split; rewrite ?acked_mups_app; cbn; [intros m e He; by apply Hkeep, (di_base _ _ _ I)|done| | | |done].
    - intros _. exists mup. by rewrite last_snoc.
    - intros mup' x [Hin| ->%list_elem_of_singleton]%elem_of_app Hx; [|by rewrite <- Hm].
      apply Hgrow. by eapply di_kept.
    - intros mup' x. unfold may_hold. rewrite foldl_snoc. by intros ->%list_elem_of_singleton. }
  set (changed := if decide _ then _ else _).
  assert (Forall neutral changed) as Hch by (unfold changed; case_decide; by repeat constructor).
  set (d1 := set_registration plan None declared (set_mup true (dt_href d) d)) in *.
  assert (∀ href, let r := readback_post_rate (cy_readback c) (set_mup true (Some href) d1) in
    device_inv r.1 (tr ++ PostsMup mup true :: changed ++ r.2)) as Hrb.
  { intros href r. destruct (readback_same (cy_readback c) (set_mup true (Some href) d1)) as (H1 & H2 & H3).
    change (PostsMup mup true :: changed ++ r.2) with ([PostsMup mup true] ++ (changed ++ r.2)). rewrite app_assoc.
    apply (inv_neutral base d1); [done|by apply Forall_app|done|done]. }
  assert (device_inv d1 (tr ++ PostsMup mup true :: changed ++ [])) as Hno.
  { change (PostsMup mup true :: changed ++ []) with ([PostsMup mup true] ++ (changed ++ [])). rewrite app_assoc, app_nil_r.
    by apply (inv_neutral base d1). }
  destruct location as [[|a href]|]; [exact Hno| |exact Hno].
  specialize (Hrb (String a href)). cbv zeta in Hrb.
  destruct (readback_post_rate (cy_readback c) (set_mup true (Some (String a href)) d1)) as [d'' rates]. exact Hrb.
Qed.

Lemma post_readings_inv c entries next d tr :
  device_inv d tr → dt_mup_posted d = true →
  device_inv (post_readings c entries next d).1 (tr ++ (post_readings c entries next d).2).
Proof.
  intros I Hp. unfold Metering.post_readings.
  set (d1 := match truthy_text (dt_href d) with Some _ => d | None => _ end).
  assert (dt_registered d1 = dt_registered d ∧ dt_mup_posted d1 = true) as [Hr Hp1] by (unfold d1; by case_match).
  assert (device_inv d1 tr) as I1.
  { rewrite <- (app_nil_r tr). by apply (inv_neutral base d); [|constructor|..]. }
  clearbody d1. destruct (truthy_text (dt_href d1)) as [href|]; [|by rewrite app_nil_r].
  set (l := create_meter_reading_list _ _ _ _ _ _ _ _ _ _ _ _). case_bool_decide; [by rewrite app_nil_r|]. cbn [fst snd].
  set (d2 := match cy_readings_reply c with Refused _ => _ | _ => _ end).
  assert (dt_registered d2 = dt_registered d1 ∧ (dt_mup_posted d2 = true → dt_mup_posted d1 = true)) as [Hr2 Hp2]
    by (unfold d2; repeat case_match; done).
  destruct I1 as [B W P K Hh F]. destruct (P Hp1) as (mup & Hl & Hm).
  split; rewrite ?acked_mups_app, ?Hr2; cbn; rewrite ?app_nil_r; [done|done|by intros H2; apply P, Hp2|done| |].
  { unfold may_hold. rewrite foldl_snoc. exact Hh. }
  apply all_follow_app; [done|]. apply follow_one. cbn. split.
  { intros Hno%may_hold_acked. by rewrite Hno in Hl. }
  intros mup' r Hmup (p & -> & Hin)%list_elem_of_fmap. cbn.
  assert (∀ k, k ∈ (λ x, x.1.1) <$> mup_entries (dt_registered d1) → k ∈ (λ x, x.1.1) <$> mu_readings mup') as Hsub.
  { intros k (x & -> & Hx)%list_elem_of_fmap. apply list_elem_of_fmap. exists x. split; [done|]. by apply Hh. }
  apply Hsub, mup_entries_mrid; [done|]. apply list_elem_of_In, filter_In in Hin as [_ Hin]. cbn in Hin. by apply dict_mem_spec.
Qed.

Lemma transitions_same acked alarm events d :
  let r := post_transitions acked alarm events d in
  dt_registered r.1 = dt_registered d ∧ dt_mup_posted r.1 = dt_mup_posted d ∧ Forall neutral r.2.
Proof.
  revert d. induction events as [|[bit code] events IH]; intros d; cbn; [by repeat constructor|].
  destruct (acked (dt_log_id d)); cbn; [|by repeat constructor].
  destruct (IH (set_alarms (S (dt_log_id d)) (if Z.testbit alarm bit then Z.lor (dt_alarm d) (Z.shiftl 1 bit)
    else Z.land (dt_alarm d) (Z.lnot (Z.shiftl 1 bit))) d)) as (H1 & H2 & H3).
  split_and!; [by rewrite H1|by rewrite H2|by constructor].
Qed.

Lemma log_event_same c d :
  let r := post_log_event c d in
  dt_registered r.1 = dt_registered d ∧ dt_mup_posted r.1 = dt_mup_posted d ∧ Forall neutral r.2.
Proof.
  unfold post_log_event. destruct (truthy_text _); [|by repeat constructor]. destruct (cy_alarm c); [|by repeat constructor].
  match goal with |- context [post_transitions ?a ?b ?e ?d'] => destruct (transitions_same a b e d') as (H1 & H2 & H3) end.
  by split_and!.
Qed.

Lemma mirror_stage_inv c entries d tr :
  device_inv d tr →
  let r := mirror_stage digest profile direction c entries d in device_inv r.1 (tr ++ r.2).
Proof.
  intros I. unfold mirror_stage. destruct (dt_mup_posted d) eqn:Hp; cbn [negb]; [|by apply post_mup_inv].
  unfold then_. cbn [fst snd]. rewrite app_assoc. destruct (registration_grew _ _ _ entries d).
  - pose proof (post_mup_inv c entries None d tr I) as I1. apply post_readings_inv; [done|].
    unfold Metering.post_mup. destruct (cy_mup c) as [[[|a href]|]|status|]; cbn; try done.
    + destruct (readback_same (cy_readback c) (set_mup true (Some (String a href))
        (set_registration (plan_of d entries None) None None (set_mup true (dt_href d) d)))) as (_ & H & _).
      by destruct (readback_post_rate _ _).
    + by repeat case_match.
  - cbn [fst snd]. rewrite app_nil_r. by apply post_readings_inv.
Qed.

Lemma cycle_inv c d tr :
  device_inv d tr →
  let r := metering_cycle digest profile direction c d in device_inv r.1 (tr ++ r.2).
Proof.
  intros I. unfold metering_cycle. destruct (dt_blocked d || _ || _); [by rewrite app_nil_r|].
  destruct (cy_readings c) as [entries|]; [|by rewrite app_nil_r]. unfold then_. cbn [fst snd].
  assert (device_inv d (tr ++ keep_interval c entries)) as I0.
  { apply (inv_neutral base d); try done. unfold keep_interval. repeat case_match; by repeat constructor. }
  pose proof (mirror_stage_inv c entries d _ I0) as I1. cbv zeta in I1.
  destruct (mirror_stage _ _ _ c entries d) as [d1 e1]. cbn [fst snd] in *.
  destruct (is_der (dt_role d1)); cbn [fst snd]; rewrite !app_assoc in *; [|by rewrite app_nil_r].
  destruct (log_event_same c d1) as (H1 & H2 & H3). rewrite <- (app_assoc _ (post_log_event c d1).2).
  apply (inv_neutral base d1); [done| |done|by rewrite H2]. apply Forall_app. split; [done|].
  unfold put_der_availability. repeat case_match; by repeat constructor.
Qed.
End Cycle.

(** ** Registrations over a run *)

Section Registrations.
Context (digest : string → digits) (profile : ReadingProfile) (direction : PowerDirection) (lfdi : digits).

Definition restored_of (m : Manager) : Registration := default [] (dict_get lfdi (mg_restored m)).

Record manager_inv (m : Manager) (tr : list Effect) : Prop := {
  mi_restored : registration_wf (restored_of m);
  mi_device : ∀ d, dict_get lfdi (mg_devices m) = Some d → device_inv (restored_of m) d tr;
  mi_absent : dict_get lfdi (mg_devices m) = None → acked_mups tr = [];
  mi_follow : all_follow tr;
}.

(** The device a start makes, from the one before. *)
Definition restart (o : option DeviceTelemetryState) (s : Start) : DeviceTelemetryState := carry_over o (new_device lfdi s).

Lemma started_registration m s :
  ∃ d, dict_get lfdi (mg_devices (start_metering lfdi s m)) = Some d ∧
    dt_mup_posted d = from_option dt_mup_posted false (dict_get lfdi (mg_devices m)) ∧
    dt_registered d =
      match dict_get lfdi (mg_devices m) with
      | Some o => if dt_mup_posted o then match dt_registered o with [] => restored_of m | r => r end else restored_of m
      | None => restored_of m
      end.
Proof.
  unfold start_metering, restored_of. cbn [mg_devices]. rewrite dict_get_set_eq. eexists. split; [done|].
  set (d := carry_over _ _).
  assert (dt_mup_posted d = from_option dt_mup_posted false (dict_get lfdi (mg_devices m)) ∧
    dt_registered d = match dict_get lfdi (mg_devices m) with
      | Some o => if dt_mup_posted o then dt_registered o else [] | None => [] end) as [Hp Hr].
  { unfold d, carry_over. destruct (dict_get lfdi (mg_devices m)) as [o|]; [|done]. cbn.
    destruct (dt_mup_posted o), (dt_blocked o), (dt_server_rate o); done. }
  clearbody d. rewrite Hr.
  destruct (dict_get lfdi (mg_devices m)) as [o|]; [destruct (dt_mup_posted o); [destruct (dt_registered o)|]|];
    destruct (dict_get lfdi (mg_restored m)); cbn; rewrite ?Hr; done.
Qed.

Lemma included_in_nil (r : Registration) : (∀ m e, dict_get m r = Some e → dict_get m ([] : Registration) = Some e) → r = [].
Proof. destruct r as [|[m e] r]; [done|]. intros H. exfalso.
  destruct (dict_get m ((m, e) :: r)) as [x|] eqn:E; [by apply H in E|]. apply dict_get_None in E. apply E. by left.
Qed.

Lemma metering_start_inv m s tr :
  manager_inv m tr → keeps_registration lfdi m → manager_inv (start_metering lfdi s m) tr.
Proof.
  intros [Hres Hdev Habs Hf] Hk. destruct (started_registration m s) as (d & Hd & Hp & Hr).
  split; [done| |by rewrite Hd|done]. intros d' Hd'. rewrite Hd in Hd'. injection Hd' as <-.
  change (restored_of (start_metering lfdi s m)) with (restored_of m).
  destruct (dict_get lfdi (mg_devices m)) as [o|] eqn:Eo; cbn in Hp.
  - destruct (Hdev o eq_refl) as [B W P K Hh F].
    assert (dt_registered o = [] → restored_of m = []) as Hnil by (intros H; apply included_in_nil; by rewrite <- H).
    assert (dt_registered d = dt_registered o) as Hsame.
    { rewrite Hr. destruct (dt_mup_posted o) eqn:E; [destruct (dt_registered o); auto|].
      destruct (Hk o Eo) as [?|H]; [congruence|]. rewrite H. auto. }
    split; rewrite ?Hsame, ?Hp; done.
  - pose proof (Habs eq_refl) as Ha. pose proof (proj2 (may_hold_acked tr) Ha) as Hh.
    split; rewrite ?Hr, ?Hp, ?Ha, ?Hh; [done|done|done| | |done]; by intros mup x ?%not_elem_of_nil.
Qed.

Lemma metering_step_inv st m tr :
  manager_inv m tr → match st with Starts _ => keeps_registration lfdi m | _ => True end →
  let r := take_step digest profile direction lfdi m st in manager_inv r.1 (tr ++ r.2).
Proof.
  intros I Hk. destruct st as [c|s]; cbn; [|rewrite app_nil_r; by apply metering_start_inv].
  unfold run_cycle. destruct (dict_get lfdi (mg_devices m)) as [d|] eqn:Ed; cbn; [|by rewrite app_nil_r].
  pose proof (cycle_inv digest profile direction (restored_of m) c d tr (mi_device _ _ I d Ed)) as Ic. cbv zeta in Ic.
  split; cbn; [apply I| |rewrite dict_get_set_eq; done|apply Ic].
  intros d'. rewrite dict_get_set_eq. intros [= <-]. exact Ic.
Qed.

Lemma run_inv l m tr :
  manager_inv m tr → safe_run digest profile direction lfdi l m →
  let r := run digest profile direction lfdi l m in manager_inv r.1 (tr ++ r.2).
Proof.
  revert m tr. induction l as [|st l IH]; intros m tr I; cbn; [by rewrite app_nil_r|]. intros [Hk Hs].
  rewrite app_assoc. apply IH; [by apply metering_step_inv|done].
Qed.

End Registrations.

(** ** Alarms *)

(** The codes of the LogEvents the server has acknowledged. *)
Definition delivered (tr : list Effect) : list Z :=
  omap (λ e, match e with PostsLogEvent _ code true => Some code | _ => None end) tr.

(** The alarms a server holds that reads them: an even code raises one that is
    not there, an odd one ends one that is; [None]: a code that does neither. *)
Definition hear (s : option Z) (code : Z) : option Z :=
  match s with
  | Some x =>
      let bit := code / 2 in
      if Z.even code then (if Z.testbit x bit then None else Some (Z.setbit x bit))
      else (if Z.testbit x bit then Some (Z.clearbit x bit) else None)
  | None => None
  end.
Definition heard (codes : list Z) : option Z := foldl hear (Some 0) codes.

(** On the bits that have a code. *)
Definition same_alarms (x y : Z) : Prop := ∀ bit, bit ∈ DER_ALARM_BITS → Z.testbit x bit = Z.testbit y bit.

Definition knows (tr : list Effect) (alarm : Z) : Prop := ∃ x, heard (delivered tr) = Some x ∧ same_alarms x alarm.

Lemma delivered_app tr tr' : delivered (tr ++ tr') = delivered tr ++ delivered tr'.
Proof. apply omap_app. Qed.

Lemma knows_silent tr es alarm : delivered es = [] → knows tr alarm → knows (tr ++ es) alarm.
Proof. unfold knows. by rewrite delivered_app; intros ->; rewrite app_nil_r. Qed.

Lemma alarm_bit_nonneg bit : bit ∈ DER_ALARM_BITS → 0 <= bit.
Proof. unfold DER_ALARM_BITS. set_unfold. lia. Qed.

Lemma alarm_events_spec previous current bit code :
  (bit, code) ∈ alarm_bits_to_log_events previous current →
  bit ∈ DER_ALARM_BITS ∧ Z.testbit previous bit ≠ Z.testbit current bit ∧
  code = 2 * bit + if Z.testbit current bit then 0 else 1.
Proof.
  unfold alarm_bits_to_log_events. intros (b & Hb & H)%list_elem_of_omap.
  destruct (Z.testbit (Z.lxor previous current) b) eqn:E; [|done]. unfold alarm_log_event_code in H.
  rewrite bool_decide_true in H by done. cbn in H. injection H as -> <-. rewrite Z.lxor_spec in E.
  split_and!; [done| |by destruct (Z.testbit current bit)]. by destruct (Z.testbit previous bit), (Z.testbit current bit).
Qed.

Lemma omap_fst_sublist {A B} (f : A → option (A * B)) (l : list A) :
  (∀ a y, f a = Some y → y.1 = a) → sublist (omap f l).*1 l.
Proof.
  intros Hf. induction l as [|a l IH]; cbn; [constructor|]. destruct (f a) as [y|] eqn:E; [|by constructor].
  cbn. rewrite (Hf a y E). by constructor.
Qed.

Lemma alarm_events_nodup previous current : NoDup (alarm_bits_to_log_events previous current).*1.
Proof.
  eapply sublist_NoDup; [|apply omap_fst_sublist]; [apply (bool_decide_unpack _); vm_compute; exact I|].
  intros b y. destruct (Z.testbit _ b); [|done]. unfold alarm_log_event_code. case_bool_decide; cbn; [|done].
  by intros [= <-].
Qed.

(** An event heard puts its bit where the device has it. *)
Lemma hear_event x current bit :
  0 <= bit → Z.testbit x bit ≠ Z.testbit current bit →
  ∃ y, hear (Some x) (2 * bit + if Z.testbit current bit then 0 else 1) = Some y ∧
    Z.testbit y bit = Z.testbit current bit ∧ ∀ b, 0 <= b → b ≠ bit → Z.testbit y b = Z.testbit x b.
Proof.
  intros Hb Hx. unfold hear. destruct (Z.testbit current bit) eqn:Ec.
  - replace ((2 * bit + 0) / 2) with bit by (Z.div_mod_to_equations; lia).
    rewrite Z.add_0_r, Z.even_mul. cbn [Z.even orb]. destruct (Z.testbit x bit); [done|].
    eexists. split; [done|]. split; [by apply Z.setbit_eq|]. intros b H1 H2. apply Z.setbit_neq; lia.
  - replace ((2 * bit + 1) / 2) with bit by (Z.div_mod_to_equations; lia).
    rewrite Z.even_add, Z.even_mul. cbn [Z.even orb eqb]. destruct (Z.testbit x bit); [|done].
    eexists. split; [done|]. split; [by apply Z.clearbit_eq|]. intros b H1 H2. apply Z.clearbit_neq; lia.
Qed.

Definition moved (alarm bit status : Z) : Z :=
  if Z.testbit alarm bit then Z.lor status (Z.shiftl 1 bit) else Z.land status (Z.lnot (Z.shiftl 1 bit)).

Lemma moved_bits alarm bit status b :
  0 <= bit → 0 <= b → Z.testbit (moved alarm bit status) b = if decide (b = bit) then Z.testbit alarm bit else Z.testbit status b.
Proof.
  intros Hbit Hb. unfold moved. assert (Z.testbit (Z.shiftl 1 bit) b = bool_decide (b = bit)) as Hs.
  { rewrite Z.shiftl_1_l. destruct (decide (b = bit)) as [->|Hne].
    - rewrite bool_decide_true by done. by apply Z.pow2_bits_true.
    - rewrite bool_decide_false by done. by apply Z.pow2_bits_false. }
  destruct (Z.testbit alarm bit); rewrite ?Z.lor_spec, ?Z.land_spec, ?Z.lnot_spec, Hs by lia;
    destruct (decide (b = bit)) as [->|Hne].
  - rewrite bool_decide_true by done. apply orb_true_r.
  - rewrite bool_decide_false by done. apply orb_false_r.
  - rewrite bool_decide_true by done. apply andb_false_r.
  - rewrite bool_decide_false by done. apply andb_true_r.
Qed.

Lemma transitions_heard acked alarm events d tr :
  NoDup events.*1 →
  (∀ bit code, (bit, code) ∈ events → bit ∈ DER_ALARM_BITS ∧ Z.testbit (dt_alarm d) bit ≠ Z.testbit alarm bit ∧
     code = 2 * bit + if Z.testbit alarm bit then 0 else 1) →
  knows tr (dt_alarm d) →
  let r := post_transitions acked alarm events d in
  knows (tr ++ r.2) (dt_alarm r.1) ∧
  ((∀ id, acked id = true) → ∀ bit, bit ∈ DER_ALARM_BITS →
     Z.testbit (dt_alarm r.1) bit = if bool_decide (bit ∈ events.*1) then Z.testbit alarm bit else Z.testbit (dt_alarm d) bit).
Proof.
  revert d tr. induction events as [|[bit code] events IH]; intros d tr Hnd Hev Hk; cbn [post_transitions fst snd].
  { rewrite app_nil_r. split; [done|]. intros _ bit _. by rewrite bool_decide_false by apply not_elem_of_nil. }
  apply NoDup_cons in Hnd as [Hnin Hnd]. destruct (Hev bit code) as (Hbit & Hdiff & ->); [by left|].
  pose proof (alarm_bit_nonneg bit Hbit) as Hpos.
  destruct (acked (dt_log_id d)) eqn:Ea; cbn [fst snd].
  2: { split; [by apply knows_silent|]. intros Hall. by rewrite Hall in Ea. }
  set (d1 := set_alarms _ _ d).
  assert (dt_alarm d1 = moved alarm bit (dt_alarm d)) as Hd1 by done.
  set (e := PostsLogEvent _ _ true). destruct (IH d1 (tr ++ [e])) as [IH1 IH2]; [done| | |].
  - intros b c Hin. destruct (Hev b c) as (Hb & Hdf & Hc); [by right|]. split_and!; [done| |done].
    rewrite Hd1, moved_bits by (auto using alarm_bit_nonneg). rewrite decide_False; [done|].
    intros ->. apply Hnin. apply list_elem_of_fmap. by exists (bit, c).
  - destruct Hk as (x & Hx & Hsame). destruct (hear_event x alarm bit Hpos) as (y & Hy & Hyb & Hyo).
    { by rewrite Hsame. }
    exists y. split.
    + rewrite delivered_app. cbn. unfold heard in *. rewrite foldl_app, Hx. exact Hy.
    + intros b Hb. pose proof (alarm_bit_nonneg b Hb). rewrite Hd1, moved_bits by done.
      case_decide as E; [by subst|]. rewrite Hyo by done. by apply Hsame.
  - rewrite <- app_assoc in IH1. split; [done|]. intros Hall b Hb. rewrite IH2 by done. cbn [fmap list_fmap fst].
    pose proof (alarm_bit_nonneg b Hb). rewrite Hd1, moved_bits by done.
    destruct (decide (b = bit)) as [->|Hne].
    + rewrite (bool_decide_false (_ ∈ _)) by done. rewrite bool_decide_true by by left. done.
    + rewrite (bool_decide_ext (b ∈ events.*1) (b ∈ bit :: events.*1)); [done|].
      rewrite elem_of_cons. naive_solver.
Qed.

(** The first stage says nothing of alarms. *)
Definition quiet (d : DeviceTelemetryState) (r : DeviceTelemetryState * list Effect) : Prop :=
  delivered r.2 = [] ∧ dt_alarm r.1 = dt_alarm d ∧ dt_log_href r.1 = dt_log_href d ∧ dt_role r.1 = dt_role d.

Lemma unheard_then d r f : quiet d r → quiet r.1 (f r.1) → quiet d (then_ r f).
Proof.
  intros (H1 & H2 & H3 & H4) (J1 & J2 & J3 & J4). unfold quiet, then_. cbn [fst snd]. rewrite delivered_app.
  split_and!; [by rewrite H1, J1|congruence..].
Qed.

Lemma quiet_readback readback d : quiet d (readback_post_rate readback d).
Proof. unfold readback_post_rate. destruct readback as [[offered|]|]; [|done..]. repeat case_match; done. Qed.

Section Alarms.
Context (digest : string → digits) (profile : ReadingProfile) (direction : PowerDirection).

Lemma quiet_post_mup c entries declared d : quiet d (post_mup digest profile direction c entries declared d).
Proof.
  unfold post_mup. destruct (cy_mup c) as [location|status|]; [|repeat case_match; done|done].
  set (mup := create_mup _ _ _ _ _ _ _ _ _ _ _). set (changed := if decide _ then _ else _).
  set (d1 := set_registration _ None declared _).
  assert (delivered (PostsMup mup true :: changed) = []) as Hc by (unfold changed; by case_decide).
  assert (quiet d (d1, PostsMup mup true :: changed)) as Hq by done.
  destruct location as [[|a href]|]; cbn [fst snd]; rewrite ?app_nil_r; try exact Hq.
  pose proof (quiet_readback (cy_readback c) (set_mup true (Some (String a href)) d1)) as Hb.
  pose proof (unheard_then d (set_mup true (Some (String a href)) d1, PostsMup mup true :: changed)
    (readback_post_rate (cy_readback c)) Hq Hb) as H.
  unfold then_ in H. cbn [fst snd] in H. by destruct (readback_post_rate _ _).
Qed.

Lemma quiet_post_readings c entries next d : quiet d (post_readings digest profile direction c entries next d).
Proof. unfold post_readings. repeat case_match; done. Qed.

Lemma quiet_mirror_stage c entries d : quiet d (mirror_stage digest profile direction c entries d).
Proof.
  unfold mirror_stage. destruct (negb (dt_mup_posted d)); [apply quiet_post_mup|].
  apply unheard_then; [|apply quiet_post_readings]. destruct (registration_grew _ _ _ entries d); [apply quiet_post_mup|done].
Qed.

Lemma quiet_first_stage c entries d :
  quiet d (then_ (d, keep_interval c entries) (mirror_stage digest profile direction c entries)).
Proof.
  apply unheard_then; [|apply quiet_mirror_stage]. unfold keep_interval. repeat case_match; done.
Qed.

Lemma mask_bits bit : bit ∈ DER_ALARM_BITS → Z.testbit MAPPED_ALARM_MASK bit = true.
Proof.
  intros H. assert (forallb (Z.testbit MAPPED_ALARM_MASK) DER_ALARM_BITS = true) as Hm by (vm_compute; reflexivity).
  rewrite forallb_forall in Hm. by apply Hm, list_elem_of_In.
Qed.

Lemma log_event_heard c d tr :
  knows tr (dt_alarm d) →
  let r := post_log_event c d in
  knows (tr ++ r.2) (dt_alarm r.1) ∧
  ∀ alarm, truthy_text (dt_log_href d) ≠ None → cy_alarm c = Some alarm → (∀ id, cy_log_acked c id = true) →
    same_alarms (dt_alarm r.1) alarm.
Proof.
  intros Hk. unfold post_log_event. destruct (truthy_text (dt_log_href d)) as [href|]; [|by rewrite app_nil_r].
  destruct (cy_alarm c) as [alarm|]; [|by rewrite app_nil_r].
  set (d1 := set_alarms _ _ d).
  assert (∀ bit, bit ∈ DER_ALARM_BITS → Z.testbit (dt_alarm d1) bit = Z.testbit (dt_alarm d) bit) as Hsame.
  { intros bit Hb. pose proof (alarm_bit_nonneg bit Hb). cbn. rewrite Z.lor_spec, !Z.land_spec, Z.lnot_spec, mask_bits by done.
    by rewrite andb_true_r, andb_false_r, orb_false_r. }
  destruct (transitions_heard (cy_log_acked c) alarm (alarm_bits_to_log_events (dt_alarm d) alarm) d1 tr) as [H1 H2].
  - apply alarm_events_nodup.
  - intros bit code (Hb & Hd & Hc)%alarm_events_spec. rewrite Hsame by done. done.
  - destruct Hk as (x & Hx & Hxs). exists x. split; [done|]. intros bit Hb. rewrite Hsame by done. by apply Hxs.
  - split; [done|]. intros a _ [= <-] Hall bit Hb. rewrite H2 by done. case_bool_decide as Hin; [done|]. rewrite Hsame by done.
    destruct (Bool.bool_dec (Z.testbit (dt_alarm d) bit) (Z.testbit alarm bit)) as [E|E]; [done|]. exfalso. apply Hin.
    apply list_elem_of_fmap. exists (bit, 2 * bit + if negb (Z.testbit alarm bit) then 1 else 0). split; [done|].
    unfold alarm_bits_to_log_events. apply list_elem_of_omap. exists bit. split; [done|].
    rewrite Z.lxor_spec. replace (xorb _ _) with true by by destruct (Z.testbit (dt_alarm d) bit), (Z.testbit alarm bit).
    unfold alarm_log_event_code. by rewrite bool_decide_true.
Qed.

Lemma cycle_heard c d tr :
  knows tr (dt_alarm d) →
  let r := metering_cycle digest profile direction c d in
  knows (tr ++ r.2) (dt_alarm r.1) ∧
  ∀ alarm, dt_blocked d = false → cy_provisioned c = true → cy_connects c = true → cy_readings c ≠ None →
    dt_role d = DER → truthy_text (dt_log_href d) ≠ None → cy_alarm c = Some alarm → (∀ id, cy_log_acked c id = true) →
    same_alarms (dt_alarm r.1) alarm.
Proof.
  intros Hk. unfold metering_cycle. destruct (dt_blocked d || _ || _) eqn:Eb.
  { rewrite app_nil_r. split; [done|]. intros alarm H1 H2 H3. rewrite H1, H2, H3 in Eb. done. }
  destruct (cy_readings c) as [entries|]; [|by rewrite app_nil_r].
  pose proof (quiet_first_stage c entries d) as (Q1 & Q2 & Q3 & Q4).
  set (r := then_ (d, keep_interval c entries) _) in *. clearbody r. unfold then_. cbv zeta. cbn [fst snd]. rewrite app_assoc.
  assert (knows (tr ++ r.2) (dt_alarm r.1)) as Hk1 by (rewrite Q2; by apply knows_silent).
  destruct (is_der (dt_role r.1)) eqn:Er; cbn [fst snd].
  - destruct (log_event_heard c r.1 _ Hk1) as [H1 H2]. rewrite app_assoc. split.
    + apply knows_silent; [|done]. unfold put_der_availability. repeat case_match; done.
    + intros alarm _ _ _ _ _ Hl Ha Hall. apply H2; [by rewrite Q3|done..].
  - rewrite app_nil_r. split; [done|]. intros alarm _ _ _ _ Hrole. by rewrite Q4, Hrole in Er.
Qed.

(** C34: alarms are reported as they occur.  Over any cycles, whichever POSTs are
    acknowledged, and any starts, the LogEvents acknowledged raise an alarm only
    when it is not up and end one only when it is, and leave up exactly those the
    client takes the server to know; and after a cycle that reaches a device
    with a list of LogEvents and whose POSTs are all acknowledged, these are the
    alarms the device reported. *)
Theorem alarms_reported_as_they_occur (lfdi : digits) (m : Manager) (l : list Step) :
  dict_get lfdi (mg_devices m) = None →
  let r := run digest profile direction lfdi l m in
  ∀ d, dict_get lfdi (mg_devices r.1) = Some d →
  knows r.2 (dt_alarm d) ∧
  ∀ c alarm, dt_blocked d = false → cy_provisioned c = true → cy_connects c = true → cy_readings c ≠ None →
    dt_role d = DER → truthy_text (dt_log_href d) ≠ None → cy_alarm c = Some alarm → (∀ id, cy_log_acked c id = true) →
    knows (r.2 ++ (metering_cycle digest profile direction c d).2) alarm.
Proof.
  intros Hn. cbv zeta.
  assert (∀ l m tr, (∀ d, dict_get lfdi (mg_devices m) = Some d → knows tr (dt_alarm d)) →
    (dict_get lfdi (mg_devices m) = None → knows tr 0) →
    ∀ d, dict_get lfdi (mg_devices (run digest profile direction lfdi l m).1) = Some d →
      knows (tr ++ (run digest profile direction lfdi l m).2) (dt_alarm d)) as Hrun.
  { clear. induction l as [|st l IH]; intros m tr Hd Hz; cbn; [by rewrite app_nil_r|]. rewrite app_assoc. apply IH.
    - destruct st as [c|s]; cbn.
      + unfold run_cycle. destruct (dict_get lfdi (mg_devices m)) as [d|] eqn:Ed; cbn; [|by rewrite Ed].
        intros d'. rewrite dict_get_set_eq. intros [= <-]. by apply cycle_heard, Hd.
      + rewrite app_nil_r. intros d'. rewrite dict_get_set_eq. intros [= <-].
        assert (knows tr (dt_alarm (carry_over (dict_get lfdi (mg_devices m)) (new_device lfdi s)))) as H.
        { destruct (dict_get lfdi (mg_devices m)) as [o|]; cbn; [|by apply Hz]. specialize (Hd o eq_refl).
          destruct (dt_mup_posted o), (dt_blocked o), (dt_server_rate o); done. }
        by repeat case_match.
    - destruct st as [c|s]; cbn; [|by rewrite dict_get_set_eq]. unfold run_cycle.
      destruct (dict_get lfdi (mg_devices m)) as [d|] eqn:Ed; cbn; [by rewrite dict_get_set_eq|].
      rewrite app_nil_r. by rewrite Ed. }
  intros d Hd. assert (knows (run digest profile direction lfdi l m).2 (dt_alarm d)) as Hk.
  { apply (Hrun l m []); [by rewrite Hn| |done]. intros _. exists 0. split; [done|]. by intros bit. }
  split; [done|]. intros c alarm H1 H2 H3 H4 H5 H6 H7 H8.
  destruct (cycle_heard c d _ Hk) as [(x & Hx & Hxs) Hal]. exists x. split; [done|]. intros bit Hb.
  rewrite Hxs by done. by apply Hal.
Qed.
End Alarms.

(** ** A block *)

(** A device the server has forbidden to post makes no request any more, however
    often its metering is started. *)
Theorem block_is_kept (digest : string → digits) (profile : ReadingProfile) (direction : PowerDirection) (lfdi : digits)
    (l : list Step) (m : Manager) (d : DeviceTelemetryState) :
  dict_get lfdi (mg_devices m) = Some d → dt_blocked d = true →
  let r := run digest profile direction lfdi l m in
  r.2 = [] ∧ ∃ d', dict_get lfdi (mg_devices r.1) = Some d' ∧ dt_blocked d' = true.
Proof.
  revert m d. induction l as [|st l IH]; intros m d Hd Hb; cbn; [eauto|].
  destruct st as [c|s]; cbn.
  - unfold run_cycle. rewrite Hd. unfold metering_cycle. rewrite Hb. cbn. eapply IH; [apply dict_get_set_eq|done].
  - eapply IH; [apply dict_get_set_eq|]. rewrite Hd. cbn. rewrite Hb.
    destruct (dt_mup_posted d), (dt_server_rate d); cbn; repeat case_match; done.
Qed.

(** ** The rate of posting *)

(** A server moves the rate of a device within bounds: never below the shorter of
    the rate it posted with and half a minute, and to what it asks for above. *)
Theorem server_rate_bounded (readback : option (option Z)) (d : DeviceTelemetryState) :
  let r := (readback_post_rate readback d).1 in
  Z.min MIN_POST_RATE (dt_post_rate d) <= dt_post_rate r ∧
  (dt_post_rate r ≠ dt_post_rate d → dt_server_rate r = Some (dt_post_rate r) ∧
     ∃ offered, readback = Some (Some offered) ∧ 0 < offered ∧ dt_post_rate r = Z.max (Z.min MIN_POST_RATE (dt_post_rate d)) offered).
Proof.
  unfold readback_post_rate. destruct readback as [[offered|]|]; cbn; [|split; [lia|done]..].
  destruct (offered <=? 0) eqn:E; cbn; [split; [lia|done]|]. case_match eqn:E2; cbn; [split; [lia|done]|]. split; [lia|]. intros _. split; [done|].
  exists offered. split_and!; [done|lia|done].
Qed.

(** ** Samples *)

Definition sample_start : Start :=
  {| st_post_rate := 300; st_log_href := Some "/log"; st_availability_href := None; st_role := DER; st_revenue := false;
     st_mirror := None |}.
Definition sample_cycle (watts alarm : Z) (reply : Reply unit) : Cycle :=
  {| cy_provisioned := true; cy_history := false; cy_connects := true;
     cy_readings := Some [Some (sample_reading UOM_W watts 0)];
     cy_declared := None; cy_stale := false; cy_acquired := 1000; cy_now := 1010; cy_mup := Accepted (Some "/mup/1");
     cy_readback := Some (Some 60); cy_mup_list := None; cy_readings_reply := reply; cy_alarm := Some alarm;
     cy_log_acked := λ _, true; cy_availability := true |}.
Definition no_devices : Manager := mkManager [] [].
Definition sample_run := run sample_digest DEFAULT BySign sample_lfdi.

(** Registered, posted, given up at a 404, and registered again. *)
Definition ordinary : list Step :=
  [Starts sample_start; RunsCycle (sample_cycle 1500 1 (Accepted tt)); RunsCycle (sample_cycle (-200) 6 (Refused 404));
   RunsCycle (sample_cycle (-300) 4 (Accepted tt)); Starts sample_start; RunsCycle (sample_cycle (-300) 4 (Accepted tt))].


Lemma alarms_reported_as_they_occur_witness :
  delivered (sample_run ordinary no_devices).2 = [0; 1; 2; 4; 3] ∧ knows (sample_run ordinary no_devices).2 4.
Proof.
  split; [vm_compute; reflexivity|].
  destruct (alarms_reported_as_they_occur sample_digest DEFAULT BySign sample_lfdi no_devices ordinary eq_refl
    (default (new_device sample_lfdi sample_start)
       (dict_get sample_lfdi (mg_devices (sample_run ordinary no_devices).1)))) as [H _]; [vm_compute; reflexivity|].
  exact H.
Defined.

(** A start of metering between a MirrorUsagePoint given up and its next POST
    forgets what was registered.  The server has taken the power of a device as
    delivered; it answers 404 to the readings, the hrefs are read afresh, and the
    next MirrorUsagePoint registers the same mRID the other way round. *)
Theorem restart_after_reset_forgets :
  let r := sample_run [Starts sample_start; RunsCycle (sample_cycle 1500 0 (Accepted tt));
    RunsCycle (sample_cycle 1500 0 (Refused 404)); Starts sample_start;
    RunsCycle (sample_cycle (-200) 0 (Accepted tt))] no_devices in
  ∃ first second mrid text t1 t2, acked_mups r.2 = [first; second] ∧
    mu_readings first = [(mrid, text, t1)] ∧ mu_readings second = [(mrid, text, t2)] ∧
    rt_flow t1 = Some FLOW_NORMAL ∧ rt_flow t2 = Some FLOW_REVERSE ∧ ¬ all_follow r.2.
Proof.
  cbv zeta. do 6 eexists. repeat (split; [vm_compute; reflexivity|]).
  intros H. match type of H with all_follow ?t =>
    assert (t = [PostsMup _ true; RegistrationChanged; DeclaresRate _; PostsReadings _ _; PostsMup _ true;
                 RegistrationChanged; DeclaresRate _]) as E by (vm_compute; reflexivity); rewrite E in H end.
  specialize (H [PostsMup _ true; RegistrationChanged; DeclaresRate _; PostsReadings _ _] (PostsMup _ true) _ eq_refl).
  cbn in H. specialize (H _ ltac:(by left) _ ltac:(by left)). apply list_elem_of_singleton in H.
  apply (f_equal (λ x, rt_flow x.2)) in H. vm_compute in H. discriminate H.
Qed.

(** ** Bursts *)

Lemma burst_spec n acked code d :
  let '(posted, d', tr) := burst n acked code d in
  (posted <= n)%nat ∧ d' = set_alarms (dt_log_id d + posted) (dt_alarm d) d ∧
  tr = ((λ id, PostsLogEvent id code true) <$> seq (dt_log_id d) posted) ++
       (if decide (posted = n) then [] else [PostsLogEvent (dt_log_id d + posted) code false]) ∧
  (∀ id, (dt_log_id d <= id < dt_log_id d + posted)%nat → acked id = true) ∧
  (posted ≠ n → acked (dt_log_id d + posted)%nat = false).
Proof.
  revert d. induction n as [|n IH]; intros d; cbn.
  - rewrite Nat.add_0_r. split_and!; [lia|by destruct d|done|lia|done].
  - unfold post_and_record. destruct (acked (dt_log_id d)) eqn:Ea.
    + specialize (IH (set_alarms (S (dt_log_id d)) (dt_alarm d) d)).
      destruct (burst n acked code _) as [[posted d'] tr]. cbn in IH. destruct IH as (I1 & -> & -> & I4 & I5).
      rewrite <- plus_n_Sm. split_and!; [lia|done| |..].
      * cbn. repeat case_decide; [done|lia|lia|done].
      * intros id Hid. destruct (decide (id = dt_log_id d)) as [->|]; [done|]. apply I4. lia.
      * intros Hne. apply I5. lia.
    + rewrite Nat.add_0_r. split_and!; [lia|by destruct d|done|lia|done].
Qed.

(** A burst tells how many LogEvents it has posted: the acknowledged ones have
    the one code of the one alarm asked for, and the next logEventIDs, without
    a gap; a burst of fewer than five has stopped at a POST that failed; the
    alarms on record stay as they are.  A bitmap of no or of several alarms, a
    device without a list of LogEvents and an unknown device are refused, and
    nothing is posted. *)
Theorem burst_posts_what_it_tells (acked : nat → bool) (lfdi : digits) (alarm : Z) (m : Manager) :
  match post_log_event_burst acked lfdi alarm m with
  | (inr posted, m', tr) => ∃ d bit code, dict_get lfdi (mg_devices m) = Some d ∧
      alarm_bits_to_log_events 0 alarm = [(bit, code)] ∧ (posted <= 5)%nat ∧
      delivered tr = replicate posted code ∧
      omap (λ e, match e with PostsLogEvent id _ true => Some id | _ => None end) tr = seq (dt_log_id d) posted ∧
      dict_get lfdi (mg_devices m') = Some (set_alarms (dt_log_id d + posted) (dt_alarm d) d) ∧
      (posted < 5 → acked (dt_log_id d + posted) = false)%nat
  | (inl e, m', tr) => m' = m ∧ tr = [] ∧ e ≠ PostFails
  end.
Proof.
  unfold post_log_event_burst. destruct (dict_get lfdi (mg_devices m)) as [d|] eqn:Ed; [|by split_and!].
  destruct (truthy_text (dt_log_href d)); [|by split_and!].
  destruct (alarm_bits_to_log_events 0 alarm) as [|[bit code] [|]]; try by split_and!.
  pose proof (burst_spec LOG_EVENT_BURST_COUNT acked code d) as H.
  destruct (burst LOG_EVENT_BURST_COUNT acked code d) as [[posted d'] tr]. destruct H as (H1 & -> & -> & _ & H5).
  exists d, bit, code. unfold LOG_EVENT_BURST_COUNT in *. split_and!; [done..|lia| | |apply dict_get_set_eq|intros; apply H5; lia].
  - unfold delivered. rewrite omap_app. case_decide; cbn; rewrite app_nil_r; clear; generalize (dt_log_id d);
      induction posted as [|n IH]; intros k; cbn; try done; f_equal; apply IH.
  - rewrite omap_app. case_decide; cbn; rewrite app_nil_r; clear; generalize (dt_log_id d);
      induction posted as [|n IH]; intros k; cbn; try done; f_equal; apply IH.
Qed.
