(* ===== verification/DerResources.v ===== *)
(** * DerResources: telemetry/der_resource_manager.py

    [DerResourceManager] PUTs what a device can do and how it is set, each in a
    cycle of its own, and under [on_change] only when it differs from what was
    PUT before.  The cycles are cut at their awaits and interleave with one
    another and with starts and stops; the scheduler never runs a key's cycle
    twice at once ([Polling]).  The server keeps the last content it took for
    each href.  A cycle may fail or be cancelled at any await (a start or a stop
    of the device cancels it through the scheduler), also after its PUT has
    reached the server; the hrefs of such PUTs are kept, for the properties,
    until the next PUT to them is answered.

    Capabilities, configurations and the bodies built of them are any types with
    a decidable equality, and building a body is any function that may fail. *)

From S2P Require Import Prelude.

Inductive PutPolicy := periodic | on_change.
Inductive Resource := Capability | Settings.

#[export] Instance PutPolicy_eq : EqDecision PutPolicy.
Proof. solve_decision. Defined.
#[export] Instance Resource_eq : EqDecision Resource.
Proof. solve_decision. Defined.

Section Manager.
Context {Data Body : Type} `{EqDecision Data, EqDecision Body}.
(** [build_der_capability] and [to_xml]; [build_der_settings], which may raise
    [ValueError]. *)
Context (capability_body : Data → option Body) (settings_build : Data → bool) (policy : PutPolicy).

(** What a PUT carries: a body, or the configuration it is built from, apart from
    the time in it. *)
Inductive Content := Cap (b : Body) | Conf (c : Data).

Record DeviceDerState := mkDer {
  de_capability : option string;
  de_settings : option string;
  de_status : option string;
  de_last_settings : option Data;        (* last_settings_data *)
}.

(** Where a cycle waits: for the connector's data, or for the answer to its PUT,
    which has reached the server or not. *)
Inductive Wait :=
| Fetching
| Putting (href : string) (content : Content) (previous : option (string * Body)) (landed : bool).

Record DerTask := mkDerTask { ta_kind : Resource; ta_lfdi : string; ta_state : nat; ta_wait : Wait }.

Record DerMgr := mkDerMgr {
  dm_heap : list DeviceDerState;         (* the state objects ever made *)
  dm_devices : gmap string nat;
  dm_sent_capability : gmap string (string * Body);
  dm_sent_settings : gmap string (string * Data);
  dm_tasks : gmap nat DerTask;              (* the cycles under way *)
  dm_server : gmap string Content;
  dm_lost : gset string;                 (* PUTs taken and not answered *)
}.

Definition new_der_mgr : DerMgr := mkDerMgr [] ∅ ∅ ∅ ∅ ∅ ∅.

Definition set_der_tasks (ts : gmap nat DerTask) (m : DerMgr) : DerMgr :=
  mkDerMgr (dm_heap m) (dm_devices m) (dm_sent_capability m) (dm_sent_settings m) ts (dm_server m)
    (dm_lost m).
Definition waits (i : nat) (t : DerTask) (w : Wait) (m : DerMgr) : DerMgr :=
  set_der_tasks (<[i := mkDerTask (ta_kind t) (ta_lfdi t) (ta_state t) w]> (dm_tasks m)) m.
Definition ends (i : nat) (m : DerMgr) : DerMgr := set_der_tasks (delete i (dm_tasks m)) m.

(** *** Called from outside *)

Definition start_device (lfdi : string) (capability settings status : option string) (m : DerMgr) : DerMgr :=
  mkDerMgr (dm_heap m ++ [mkDer capability settings status None]) (<[lfdi := length (dm_heap m)]> (dm_devices m))
    (dm_sent_capability m) (dm_sent_settings m) (dm_tasks m) (dm_server m) (dm_lost m).
Definition stop_device (lfdi : string) (m : DerMgr) : DerMgr :=
  mkDerMgr (dm_heap m) (delete lfdi (dm_devices m)) (delete lfdi (dm_sent_capability m)) (delete lfdi (dm_sent_settings m))
    (dm_tasks m) (dm_server m) (dm_lost m).
Definition forget_sent (m : DerMgr) : DerMgr :=
  mkDerMgr (dm_heap m) (dm_devices m) ∅ ∅ (dm_tasks m) (dm_server m) (dm_lost m).

(** *** The cycles *)

Definition href_of (k : Resource) (d : DeviceDerState) : option string :=
  match k with Capability => de_capability d | Settings => de_settings d end.

(** A cycle looks its device up; with no device or no href it is over. *)
Definition cycle_begins (i : nat) (k : Resource) (lfdi : string) (m : DerMgr) : DerMgr :=
  match dm_devices m !! lfdi ≫= λ s, (λ d, (s, d)) <$> dm_heap m !! s with
  | Some (s, d) => match href_of k d with
                   | Some _ => set_der_tasks (<[i := mkDerTask k lfdi s Fetching]> (dm_tasks m)) m
                   | None => m
                   end
  | None => m
  end.

(** What it does with the data it has read. *)
Inductive Verdict := Ends | Skips (href : string) (content : Content) | Puts (href : string) (content : Content).

Definition capability_decides (lfdi href : string) (data : Data) (m : DerMgr) : Verdict :=
  match capability_body data with
  | None => Ends
  | Some body =>
      if decide (policy = on_change ∧ dm_sent_capability m !! lfdi = Some (href, body)) then Skips href (Cap body)
      else Puts href (Cap body)
  end.

Definition settings_decides (lfdi href : string) (last : option Data) (data : Data) (m : DerMgr) : Verdict :=
  let unchanged :=
    match policy with
    | on_change => bool_decide (dm_sent_settings m !! lfdi = Some (href, data))
    | periodic => bool_decide (last = Some data)
    end in
  if unchanged then Skips href (Conf data)
  else if settings_build data then Puts href (Conf data) else Ends.

Definition decides (t : DerTask) (data : Data) (m : DerMgr) : Verdict :=
  match dm_heap m !! ta_state t with
  | None => Ends
  | Some d =>
      match href_of (ta_kind t) d, ta_kind t with
      | Some href, Capability => capability_decides (ta_lfdi t) href data m
      | Some href, Settings => settings_decides (ta_lfdi t) href (de_last_settings d) data m
      | None, _ => Ends
      end
  end.

Definition data_read (i : nat) (t : DerTask) (data : Data) (m : DerMgr) : DerMgr :=
  match decides t data m with
  | Puts href content => waits i t (Putting href content (dm_sent_capability m !! ta_lfdi t) false) m
  | _ => ends i m
  end.

Definition put_lands (i : nat) (t : DerTask) (href : string) (content : Content) (previous : option (string * Body)) (m : DerMgr)
    : DerMgr :=
  let m := waits i t (Putting href content previous true) m in
  mkDerMgr (dm_heap m) (dm_devices m) (dm_sent_capability m) (dm_sent_settings m) (dm_tasks m)
    (<[href := content]> (dm_server m)) (dm_lost m).

Definition capability_answered (lfdi href : string) (body : Body) (previous : option (string * Body)) (m : DerMgr) : DerMgr :=
  match policy with
  | periodic => m
  | on_change =>
      mkDerMgr (dm_heap m) (dm_devices m) (<[lfdi := (href, body)]> (dm_sent_capability m))
        (match previous with
         | Some (_, b) => if decide (b = body) then dm_sent_settings m else delete lfdi (dm_sent_settings m)
         | None => dm_sent_settings m
         end) (dm_tasks m) (dm_server m) (dm_lost m)
  end.

Definition settings_answered (lfdi href : string) (s : nat) (data : Data) (m : DerMgr) : DerMgr :=
  mkDerMgr (alter (λ d, mkDer (de_capability d) (de_settings d) (de_status d) (Some data)) s (dm_heap m)) (dm_devices m)
    (dm_sent_capability m)
    (match policy with periodic => dm_sent_settings m | on_change => <[lfdi := (href, data)]> (dm_sent_settings m) end)
    (dm_tasks m) (dm_server m) (dm_lost m).

Definition lose (f : gset string → gset string) (m : DerMgr) : DerMgr :=
  mkDerMgr (dm_heap m) (dm_devices m) (dm_sent_capability m) (dm_sent_settings m) (dm_tasks m) (dm_server m) (f (dm_lost m)).

Definition answered (i : nat) (t : DerTask) (href : string) (content : Content) (previous : option (string * Body)) (m : DerMgr)
    : DerMgr :=
  lose (λ l, l ∖ {[href]})
    (ends i match content with
            | Cap body => capability_answered (ta_lfdi t) href body previous m
            | Conf data => settings_answered (ta_lfdi t) href (ta_state t) data m
            end).

(** The cycle fails or is cancelled, wherever it waits. *)
Definition gives_up (i : nat) (t : DerTask) (m : DerMgr) : DerMgr :=
  match ta_wait t with
  | Putting href _ _ true => lose (λ l, {[href]} ∪ l) (ends i m)
  | _ => ends i m
  end.

(** Whose resource an href is: two devices, or two resources, have no href in
    common. *)
Context (owner : string → Resource * string).
Definition own (k : Resource) (lfdi : string) (href : option string) : Prop := from_option (λ h, owner h = (k, lfdi)) True href.

Definition idle (k : Resource) (lfdi : string) (m : DerMgr) : Prop :=
  ∀ i t, dm_tasks m !! i = Some t → (ta_kind t, ta_lfdi t) ≠ (k, lfdi).

Inductive der_step : DerMgr → DerMgr → Prop :=
| starts m lfdi cap set status :
    own Capability lfdi cap → own Settings lfdi set → der_step m (start_device lfdi cap set status m)
| stops m lfdi : der_step m (stop_device lfdi m)
| forgets m : der_step m (forget_sent m)
| begins m i k lfdi : dm_tasks m !! i = None → idle k lfdi m → der_step m (cycle_begins i k lfdi m)
| reads m i t data :
    dm_tasks m !! i = Some t → ta_wait t = Fetching → der_step m (data_read i t data m)
| lands m i t href content previous :
    dm_tasks m !! i = Some t → ta_wait t = Putting href content previous false →
    der_step m (put_lands i t href content previous m)
| is_answered m i t href content previous :
    dm_tasks m !! i = Some t → ta_wait t = Putting href content previous true →
    der_step m (answered i t href content previous m)
| fails m i t : dm_tasks m !! i = Some t → der_step m (gives_up i t m).
End Manager.

Arguments Content : clear implicits.
Arguments DerMgr : clear implicits.
Arguments DerTask : clear implicits.
Arguments DeviceDerState : clear implicits.
