(* ===== verification/DerResourceProps.v ===== *)
(** * DerResourceProps: what the server holds of a device

    About [DerResources]: under [on_change] a cycle leaves a PUT out only when the
    server already holds what it would carry; and how a lost answer or a stop
    during a PUT defeats it. *)

From S2P Require Import Prelude DerResources.

Section Held.
Context {Data Body : Type} `{EqDecision Data, EqDecision Body}.
Context (capability_body : Data → option Body) (settings_build : Data → bool) (owner : string → Resource * string).

Abbreviation DerMgr := (DerMgr Data Body).
Abbreviation DerTask := (DerTask Data Body).
Abbreviation step := (der_step capability_body settings_build on_change owner).

Definition key_of (t : DerTask) : Resource * string := (ta_kind t, ta_lfdi t).
Definition fits_kind (k : Resource) (c : Content Data Body) : Prop :=
  match k, c with Capability, Cap _ | Settings, Conf _ => True | _, _ => False end.

(** The PUT of a cycle of [key] to [href] has reached the server, and the cycle
    waits for its answer or is over without it. *)
Definition in_flight (m : DerMgr) (key : Resource * string) (href : string) : Prop :=
  href ∈ dm_lost m ∨
  ∃ i t c previous, dm_tasks m !! i = Some t ∧ key_of t = key ∧ ta_wait t = Putting href c previous true.

Record held_inv (m : DerMgr) : Prop := {
  hi_devices : ∀ lfdi s d k, dm_devices m !! lfdi = Some s → dm_heap m !! s = Some d → own owner k lfdi (href_of k d);
  hi_tasks : ∀ i t d, dm_tasks m !! i = Some t → dm_heap m !! ta_state t = Some d →
    own owner (ta_kind t) (ta_lfdi t) (href_of (ta_kind t) d);
  hi_fresh : ∀ lfdi s, dm_devices m !! lfdi = Some s → (s < length (dm_heap m))%nat;
  hi_known : ∀ i t, dm_tasks m !! i = Some t → (ta_state t < length (dm_heap m))%nat;
  hi_once : ∀ i j t u, dm_tasks m !! i = Some t → dm_tasks m !! j = Some u → key_of t = key_of u → i = j;
  hi_put : ∀ i t href c previous landed, dm_tasks m !! i = Some t → ta_wait t = Putting href c previous landed →
    owner href = key_of t ∧ fits_kind (ta_kind t) c ∧ (landed = true → dm_server m !! href = Some c);
  hi_capability : ∀ lfdi href body, dm_sent_capability m !! lfdi = Some (href, body) →
    owner href = (Capability, lfdi) ∧ (dm_server m !! href = Some (Cap body) ∨ in_flight m (Capability, lfdi) href);
  hi_settings : ∀ lfdi href data, dm_sent_settings m !! lfdi = Some (href, data) →
    owner href = (Settings, lfdi) ∧ (dm_server m !! href = Some (Conf data) ∨ in_flight m (Settings, lfdi) href);
}.

Lemma in_flight_tasks (m m' : DerMgr) key href :
  dm_lost m ⊆ dm_lost m' →
  (∀ i t, dm_tasks m !! i = Some t →
     (∀ h c p, ta_wait t = Putting h c p true → h ∈ dm_lost m') ∨ dm_tasks m' !! i = Some t) →
  in_flight m key href → in_flight m' key href.
Proof.
  intros Hl H [Hin|(i & t & c & p & Ht & Hk & Hw)]; [left; by apply Hl|].
  destruct (H i t Ht) as [Hn|Ht']; [left; by eapply Hn|right]. by exists i, t, c, p.
Qed.

(** A task ends without an answer. *)
Lemma gives_up_inv m i t :
  held_inv m → dm_tasks m !! i = Some t → held_inv (gives_up i t m).
Proof.
  intros I Ht. destruct I.
  assert (dm_tasks (gives_up i t m) = delete i (dm_tasks m) ∧ dm_heap (gives_up i t m) = dm_heap m ∧
    dm_devices (gives_up i t m) = dm_devices m ∧ dm_server (gives_up i t m) = dm_server m ∧
    dm_sent_capability (gives_up i t m) = dm_sent_capability m ∧ dm_sent_settings (gives_up i t m) = dm_sent_settings m ∧
    dm_lost m ⊆ dm_lost (gives_up i t m)) as (Et & Eh & Ed & Es & Ec & Ee & El).
  { unfold gives_up. destruct (ta_wait t) as [|h c p []]; split_and!; try done. cbn. set_solver. }
  assert (∀ key href, in_flight m key href → in_flight (gives_up i t m) key href) as Hfl.
  { intros key href. apply in_flight_tasks; [done|]. intros j u Hu. rewrite Et.
    destruct (decide (i = j)) as [->|Hne]; [left|right; by rewrite lookup_delete_ne].
    rewrite Ht in Hu. injection Hu as <-. intros h c p Hw. unfold gives_up. rewrite Hw. cbn. set_solver. }
  split; rewrite ?Et, ?Eh, ?Ed, ?Es, ?Ec, ?Ee; try done.
  - intros j u d [_ Hu]%lookup_delete_Some. by apply hi_tasks0 with j.
  - intros j u [_ Hu]%lookup_delete_Some. by eapply hi_known0.
  - intros j k u v [_ Hu]%lookup_delete_Some [_ Hv]%lookup_delete_Some. by eapply hi_once0.
  - intros j u href c p l [_ Hu]%lookup_delete_Some. by eapply hi_put0.
  - intros lfdi href body Hs. destruct (hi_capability0 _ _ _ Hs) as [Ho' [Hl|Hl]]; (split; [exact Ho'|]); [by left|right; by apply Hfl].
  - intros lfdi href data Hs. destruct (hi_settings0 _ _ _ Hs) as [Ho' [Hl|Hl]]; (split; [exact Ho'|]); [by left|right; by apply Hfl].
Qed.

(** A task goes on to wait for an answer. *)
Lemma waits_inv m i t href c previous :
  held_inv m → dm_tasks m !! i = Some t → ta_wait t = Fetching →
  owner href = key_of t → fits_kind (ta_kind t) c → held_inv (waits i t (Putting href c previous false) m).
Proof.
  intros I Ht Hw Ho Hf. destruct I.
  assert (∀ key h, in_flight m key h → in_flight (waits i t (Putting href c previous false) m) key h) as Hfl.
  { intros key h. apply in_flight_tasks; [done|]. intros j u Hu. cbn.
    destruct (decide (i = j)) as [->|Hne]; [left; rewrite Ht in Hu; injection Hu as <-; intros ???; by rewrite Hw|].
    right. by rewrite lookup_insert_ne. }
  assert (∀ j u, dm_tasks (waits i t (Putting href c previous false) m) !! j = Some u →
    ∃ u0, dm_tasks m !! j = Some u0 ∧ key_of u0 = key_of u ∧ ta_state u0 = ta_state u ∧ ta_kind u0 = ta_kind u ∧
      ta_lfdi u0 = ta_lfdi u) as Hold.
  { intros j u. cbn. rewrite lookup_insert_Some. intros [[<- <-]|[Hne Hu]]; [by exists t|by exists u]. }
  split; try done.
  - intros j u d (u0 & Hu & Hk & Hs & Hkd & Hl)%Hold. rewrite <- Hs, <- Hkd, <- Hl. by apply (hi_tasks0 j).
  - intros j u (u0 & Hu & _ & Hs & _)%Hold. rewrite <- Hs. by eapply hi_known0.
  - intros j k u v (u0 & Hu & Hk & _)%Hold (v0 & Hv & Hk' & _)%Hold. rewrite <- Hk, <- Hk'. by apply hi_once0.
  - intros j u h c' p l. cbn. rewrite lookup_insert_Some. intros [[<- <-]|[Hne Hu]]; [|by apply hi_put0 with j].
    cbn. intros [= <- <- <- <-]. by split_and!.
  - intros lfdi h body Hs. destruct (hi_capability0 _ _ _ Hs) as [Ho' [Hl|Hl]]; (split; [exact Ho'|]); [by left|right; by apply Hfl].
  - intros lfdi h data Hs. destruct (hi_settings0 _ _ _ Hs) as [Ho' [Hl|Hl]]; (split; [exact Ho'|]); [by left|right; by apply Hfl].
Qed.

Lemma begins_inv m i k lfdi :
  held_inv m → dm_tasks m !! i = None → idle k lfdi m → held_inv (cycle_begins i k lfdi m).
Proof.
  intros I Hi Hidle. unfold cycle_begins. destruct (dm_devices m !! lfdi) as [s|] eqn:Es; [|done]. cbn.
  destruct (dm_heap m !! s) as [d|] eqn:Ed; [|done]. cbn. destruct (href_of k d) as [href|] eqn:Eh; [|done]. destruct I.
  assert (∀ key href, in_flight m key href →
    in_flight (set_der_tasks (<[i := mkDerTask k lfdi s Fetching]> (dm_tasks m)) m) key href) as Hfl.
  { intros key h. apply in_flight_tasks; [done|]. intros j u Hu. right. cbn. rewrite lookup_insert_ne; congruence. }
  split; cbn; try done.
  - intros j u d' [[<- <-]|[_ Hu]]%lookup_insert_Some Hd'; cbn in *; [|by apply hi_tasks0 with j].
    simplify_eq. by eapply hi_devices0.
  - intros j u [[<- <-]|[_ Hu]]%lookup_insert_Some; cbn; [by eapply hi_fresh0|by eapply hi_known0].
  - intros j j' u v [[<- <-]|[Hj Hu]]%lookup_insert_Some [[<- <-]|[Hj' Hv]]%lookup_insert_Some Hk; [done| | |by eapply hi_once0].
    + by destruct (Hidle _ _ Hv).
    + by destruct (Hidle _ _ Hu).
  - intros j u h c p l [[<- <-]|[_ Hu]]%lookup_insert_Some; [done|by apply hi_put0 with j].
  - intros lf h body Hs. destruct (hi_capability0 _ _ _ Hs) as [Ho' [Hl|Hl]]; (split; [exact Ho'|]); [by left|right; by apply Hfl].
  - intros lf h data Hs. destruct (hi_settings0 _ _ _ Hs) as [Ho' [Hl|Hl]]; (split; [exact Ho'|]); [by left|right; by apply Hfl].
Qed.

Lemma lands_inv m i t href c previous :
  held_inv m → dm_tasks m !! i = Some t → ta_wait t = Putting href c previous false →
  held_inv (put_lands i t href c previous m).
Proof.
  intros I Ht Hw. destruct I. destruct (hi_put0 _ _ _ _ _ _ Ht Hw) as (Ho & Hf & _).
  assert (∀ j u, dm_tasks (put_lands i t href c previous m) !! j = Some u →
    ∃ u0, dm_tasks m !! j = Some u0 ∧ key_of u0 = key_of u ∧ ta_state u0 = ta_state u ∧ ta_kind u0 = ta_kind u ∧
      ta_lfdi u0 = ta_lfdi u) as Hold.
  { intros j u. cbn. rewrite lookup_insert_Some. intros [[<- <-]|[Hne Hu]]; [by exists t|by exists u]. }
  assert (∀ key h, owner h = key → (h = href ∧ in_flight (put_lands i t href c previous m) key h) ∨
    (h ≠ href ∧ (in_flight m key h → in_flight (put_lands i t href c previous m) key h))) as Hfl.
  { intros key h <-. destruct (decide (h = href)) as [->|Hne]; [left|right]; (split; [done|]).
    - right. exists i, (mkDerTask (ta_kind t) (ta_lfdi t) (ta_state t) (Putting href c previous true)), c, previous.
      cbn. rewrite lookup_insert_eq. by rewrite Ho.
    - apply in_flight_tasks; [done|]. intros j u Hu. cbn.
      destruct (decide (i = j)) as [->|Hij]; [left; rewrite Ht in Hu; injection Hu as <-; intros ???; by rewrite Hw|].
      right. by rewrite lookup_insert_ne. }
  split; try done.
  - intros j u d (u0 & Hu & Hk & Hs & Hkd & Hl)%Hold. rewrite <- Hs, <- Hkd, <- Hl. by apply (hi_tasks0 j).
  - intros j u (u0 & Hu & _ & Hs & _)%Hold. rewrite <- Hs. by eapply hi_known0.
  - intros j k u v (u0 & Hu & Hk & _)%Hold (v0 & Hv & Hk' & _)%Hold. rewrite <- Hk, <- Hk'. by apply hi_once0.
  - intros j u h c' p l. cbn. rewrite lookup_insert_Some. intros [[<- <-]|[Hne Hu]].
    + cbn. intros [= <- <- <- <-]. split_and!; [done..|]. intros _. apply lookup_insert_eq.
    + intros Hwu. destruct (hi_put0 _ _ _ _ _ _ Hu Hwu) as (Ho' & Hf' & Hs'). split_and!; [done..|]. intros Hl.
      rewrite lookup_insert_ne; [by apply Hs'|]. intros <-. apply Hne. apply (hi_once0 _ _ _ _ Ht Hu). congruence.
  - intros lfdi h body Hs. destruct (hi_capability0 _ _ _ Hs) as [Hoh Hh]. split; [done|].
    destruct (Hfl _ _ Hoh) as [[-> ?]|[Hne Hfl']]; [by right|]. cbn. rewrite lookup_insert_ne by done. naive_solver.
  - intros lfdi h data Hs. destruct (hi_settings0 _ _ _ Hs) as [Hoh Hh]. split; [done|].
    destruct (Hfl _ _ Hoh) as [[-> ?]|[Hne Hfl']]; [by right|]. cbn. rewrite lookup_insert_ne by done. naive_solver.
Qed.

(** What changes nothing but the records and the state objects. *)
Lemma records_inv (m m' : DerMgr) :
  held_inv m → dm_devices m' = dm_devices m → dm_tasks m' = dm_tasks m → dm_server m' = dm_server m →
  dm_lost m' = dm_lost m →
  length (dm_heap m') = length (dm_heap m) →
  (∀ s d', dm_heap m' !! s = Some d' → ∃ d, dm_heap m !! s = Some d ∧ ∀ k, href_of k d' = href_of k d) →
  (∀ lfdi href body, dm_sent_capability m' !! lfdi = Some (href, body) →
     dm_sent_capability m !! lfdi = Some (href, body) ∨ owner href = (Capability, lfdi) ∧ dm_server m !! href = Some (Cap body)) →
  (∀ lfdi href data, dm_sent_settings m' !! lfdi = Some (href, data) →
     dm_sent_settings m !! lfdi = Some (href, data) ∨ owner href = (Settings, lfdi) ∧ dm_server m !! href = Some (Conf data)) →
  held_inv m'.
Proof.
  intros I Hd Ht Hs Hlo Hl Hh Hc Hst. destruct I.
  assert (∀ key h, in_flight m key h → in_flight m' key h) as Hfl.
  { intros key h. apply in_flight_tasks; [by rewrite Hlo|]. intros j u Hu. right. by rewrite Ht. }
  split; rewrite ?Hd, ?Ht, ?Hs, ?Hl; try done.
  - intros lfdi s d k Hs' (d0 & Hd0 & Hk)%Hh. rewrite Hk. by eapply hi_devices0.
  - intros j u d Hu (d0 & Hd0 & Hk)%Hh. rewrite Hk. by eapply hi_tasks0.
  - intros lfdi href body [H|[Ho H]]%Hc; [|by split; [|left]]. destruct (hi_capability0 _ _ _ H) as [Ho [Hl'|Hl']]; (split; [done|]);
      [by left|right; by apply Hfl].
  - intros lfdi href data [H|[Ho H]]%Hst; [|by split; [|left]]. destruct (hi_settings0 _ _ _ H) as [Ho [Hl'|Hl']]; (split; [done|]);
      [by left|right; by apply Hfl].
Qed.

(** The answer comes: what was in flight is on record. *)
Lemma answered_inv m i t href c previous :
  held_inv m → dm_tasks m !! i = Some t → ta_wait t = Putting href c previous true →
  held_inv (answered on_change i t href c previous m).
Proof.
  intros I Ht Hw. destruct (hi_put m I _ _ _ _ _ _ Ht Hw) as (Ho & Hf & Hserver). specialize (Hserver eq_refl).
  set (m1 := match c with Cap b => capability_answered on_change (ta_lfdi t) href b previous m
             | Conf d => settings_answered on_change (ta_lfdi t) href (ta_state t) d m end).
  assert (dm_tasks m1 = dm_tasks m ∧ dm_server m1 = dm_server m) as [Et Es] by (unfold m1; by destruct c).
  assert (held_inv m1) as I1.
  { unfold m1. destruct c as [body|data]; destruct (ta_kind t) eqn:Ek; try done; unfold key_of in Ho; rewrite Ek in Ho;
      (apply (records_inv m); [done..| | | |]; cbn).
    - done.
    - intros s d Hd. by exists d.
    - intros lfdi h b [[<- [= <- <-]]|[Hne H]]%lookup_insert_Some; [by right|by left].
    - intros lfdi h d H. left. destruct previous as [[h' b]|]; [|done]. case_decide; [done|].
      by apply lookup_delete_Some in H as [_ ?].
    - by rewrite length_alter.
    - intros s d'. rewrite list_lookup_alter. case_decide as E; [subst s|intros Hd; by exists d'].
      destruct (dm_heap m !! ta_state t) as [d|]; [|done]. cbn. intros [= <-]. exists d. split; [done|]. by intros [].
    - by left.
    - intros lfdi h d [[<- [= <- <-]]|[Hne H]]%lookup_insert_Some; [by right|by left]. }
  assert (∀ lfdi h b, dm_sent_capability m1 !! lfdi = Some (h, b) → (Capability, lfdi) = key_of t → h = href → c = Cap b) as Hcap.
  { intros lfdi h b H [= Ek El] ->. unfold m1 in H. destruct c as [body|data]; [|by rewrite <- Ek in Hf]. cbn in H.
    subst lfdi. rewrite lookup_insert_eq in H. congruence. }
  assert (∀ lfdi h b, dm_sent_settings m1 !! lfdi = Some (h, b) → (Settings, lfdi) = key_of t → h = href → c = Conf b) as Hset.
  { intros lfdi h b H [= Ek El] ->. unfold m1 in H. destruct c as [body|data]; [by rewrite <- Ek in Hf|]. cbn in H.
    subst lfdi. rewrite lookup_insert_eq in H. congruence. }
  set (m2 := lose (λ l, l ∖ {[href]}) (ends i m1)).
  assert (∀ key h, owner h = key → in_flight m1 key h → (key = key_of t ∧ h = href) ∨ in_flight m2 key h) as Hfl.
  { intros key h Hoh Hif. destruct (decide (h = href)) as [->|Hne]; [left; by rewrite <- Hoh, <- Ho|right].
    destruct Hif as [Hin|(j & u & c' & p & Hu & Hk & Hwu)]; [left; cbn; set_solver|right].
    rewrite Et in Hu. exists j, u, c', p. cbn. rewrite Et, lookup_delete_ne; [done|]. intros <-. congruence. }
  unfold answered. fold m1. fold m2. destruct I1.
  split; cbn; try done.
  - intros j u d [_ Hu]%lookup_delete_Some. by apply hi_tasks0 with j.
  - intros j u [_ Hu]%lookup_delete_Some. by eapply hi_known0.
  - intros j k u v [_ Hu]%lookup_delete_Some [_ Hv]%lookup_delete_Some. by eapply hi_once0.
  - intros j u h c' p l [_ Hu]%lookup_delete_Some. by eapply hi_put0.
  - intros lfdi h body Hs. destruct (hi_capability0 _ _ _ Hs) as [Ho' [Hl|Hl]]; (split; [done|]); [by left|].
    destruct (Hfl _ _ Ho' Hl) as [[Hk ->]|?]; [|by right].
    left. rewrite Es, Hserver. f_equal. by eapply Hcap.
  - intros lfdi h data Hs. destruct (hi_settings0 _ _ _ Hs) as [Ho' [Hl|Hl]]; (split; [done|]); [by left|].
    destruct (Hfl _ _ Ho' Hl) as [[Hk ->]|?]; [|by right].
    left. rewrite Es, Hserver. f_equal. by eapply Hset.
Qed.

Lemma der_start_inv m lfdi cap set status :
  held_inv m → own owner Capability lfdi cap → own owner Settings lfdi set →
  held_inv (start_device lfdi cap set status m).
Proof.
  intros I Hc Hs. destruct I.
  split; cbn; try done.
  - intros l s d k [[<- <-]|[Hne Hl]]%lookup_insert_Some Hd.
    + rewrite lookup_app_r, Nat.sub_diag in Hd by done. injection Hd as <-. by destruct k.
    + rewrite lookup_app_l in Hd by by eapply hi_fresh0. by eapply hi_devices0.
  - intros j u d Hu Hd. rewrite lookup_app_l in Hd by by eapply hi_known0. by eapply hi_tasks0.
  - intros l s. rewrite length_app. cbn. intros [[<- <-]|[Hne Hl]]%lookup_insert_Some; [lia|]. apply hi_fresh0 in Hl. lia.
  - intros j u Hu. rewrite length_app. apply hi_known0 in Hu. lia.
Qed.

Lemma stop_inv m lfdi : held_inv m → held_inv (stop_device lfdi m).
Proof.
  intros I. destruct I.
  assert (∀ key h, in_flight m key h → in_flight (stop_device lfdi m) key h) as Hfl.
  { intros key h. apply in_flight_tasks; [done|]. by right. }
  split; cbn; try done.
  - intros l s d k [_ Hl]%lookup_delete_Some. by eapply hi_devices0.
  - intros l s [_ Hl]%lookup_delete_Some. by eapply hi_fresh0.
  - intros l h b [_ H]%lookup_delete_Some. destruct (hi_capability0 _ _ _ H) as [Ho [?|?]]; (split; [done|]); [by left|right; by apply Hfl].
  - intros l h b [_ H]%lookup_delete_Some. destruct (hi_settings0 _ _ _ H) as [Ho [?|?]]; (split; [done|]); [by left|right; by apply Hfl].
Qed.

(** A decision to PUT names an href of the task's own. *)
Lemma decides_puts m i t data href c :
  held_inv m → dm_tasks m !! i = Some t →
  decides capability_body settings_build on_change t data m = Puts href c → owner href = key_of t ∧ fits_kind (ta_kind t) c.
Proof.
  intros I Ht. unfold decides. destruct (dm_heap m !! ta_state t) as [d|] eqn:Ed; [|done].
  pose proof (hi_tasks m I i t d Ht Ed) as Ho. unfold key_of. destruct (ta_kind t); cbn in *.
  - destruct (de_capability d) as [h|]; [|done]. unfold capability_decides. destruct (capability_body data); [|done].
    case_decide; [done|]. by intros [= <- <-].
  - destruct (de_settings d) as [h|]; [|done]. unfold settings_decides. case_bool_decide; [done|].
    destruct (settings_build data); [|done]. by intros [= <- <-].
Qed.

Lemma der_step_inv m m' : held_inv m → step m m' → held_inv m'.
Proof.
  intros I Hs. destruct Hs as [m lfdi cap set status H1 H2|m lfdi|m|m i k lfdi Hi Hid|m i t data Ht Hw|m i t href c p Ht Hw|
    m i t href c p Ht Hw|m i t Ht]; [by apply der_start_inv|by apply stop_inv| |by apply begins_inv| |by apply lands_inv|
    by apply answered_inv|by apply gives_up_inv].
  - apply (records_inv m); try done. intros s d Hd. by exists d.
  - unfold data_read. destruct (decides _ _ _ t data m) as [| |href c] eqn:Ed.
    1,2: pose proof (gives_up_inv m i t I Ht) as Hg; unfold gives_up in Hg; by rewrite Hw in Hg.
    destruct (decides_puts m i t data href c I Ht Ed). by apply waits_inv.
Qed.

Lemma der_reachable_inv m : rtc step new_der_mgr m → held_inv m.
Proof.
  intros H. assert (held_inv new_der_mgr) as I0 by (split; cbn; intros; by simplify_map_eq).
  revert I0. induction H as [|x y z Hs _ IH]; [done|]. intros I. by apply IH, (der_step_inv x).
Qed.

(** C35: under [on_change] a cycle leaves a PUT out only when the server holds what
    it would carry, or the last PUT to its href that reached the server was
    never answered.  Whatever starts, stops and other cycles come between its
    steps, whichever requests fail, and wherever cycles are cancelled: when a
    cycle decides that nothing has changed, the server has that capability, or
    settings made from that configuration, at the href the cycle uses, unless
    an earlier cycle's PUT to it was taken without an answer coming back, and no
    PUT to it has been answered since; and when a PUT is answered, what it
    carried is there.  No two resources have an href in common, and the server
    takes a PUT while its cycle waits, or never. *)
Theorem skipped_put_is_held (m : DerMgr) (i : nat) (t : DerTask) :
  rtc step new_der_mgr m → dm_tasks m !! i = Some t →
  (ta_wait t = Fetching → ∀ data href c,
     decides capability_body settings_build on_change t data m = Skips href c →
     dm_server m !! href = Some c ∨ href ∈ dm_lost m) ∧
  (∀ href c previous, ta_wait t = Putting href c previous true →
     let m' := answered on_change i t href c previous m in
     dm_server m' !! href = Some c ∧ href ∉ dm_lost m').
Proof.
  intros Hr Ht. pose proof (der_reachable_inv m Hr) as I. split.
  - intros Hw data href c. unfold decides. destruct (dm_heap m !! ta_state t) as [d|] eqn:Ed; [|done].
    assert (∀ k h, ta_kind t = k → in_flight m (k, ta_lfdi t) h → h ∈ dm_lost m) as Hno.
    { intros k h Hk [?|(j & u & c' & p & Hu & Hku & Hwu)]; [done|]. assert (j = i) as ->.
      { apply (hi_once m I j i u t Hu Ht). by rewrite Hku, <- Hk. }
      rewrite Ht in Hu. injection Hu as <-. congruence. }
    destruct (ta_kind t) eqn:Ek; cbn.
    + destruct (de_capability d) as [h|]; [|done]. unfold capability_decides. destruct (capability_body data) as [b|]; [|done].
      case_decide as Hd; [|done]. intros [= <- <-]. destruct Hd as [_ Hs].
      destruct (hi_capability m I _ _ _ Hs) as [_ [?|Hf]]; [by left|]. right. by apply Hno in Hf.
    + destruct (de_settings d) as [h|]; [|done]. unfold settings_decides. case_bool_decide as Hs.
      * intros [= <- <-]. destruct (hi_settings m I _ _ _ Hs) as [_ [?|Hf]]; [by left|]. right. by apply Hno in Hf.
      * by destruct (settings_build data).
  - intros href c previous Hw. destruct (hi_put m I _ _ _ _ _ _ Ht Hw) as (_ & _ & H). specialize (H eq_refl).
    unfold answered. cbv zeta. split; [by destruct c|]. cbn. set_solver.
Qed.
End Held.

(** ** Samples *)

Definition sample_owner (href : string) : Resource * string := if decide (href = "/cap") then (Capability, "d") else (Settings, "d").
Abbreviation sample_step := (der_step (Data := Z) (Body := Z) Some (λ _, true) on_change sample_owner).

Definition started : DerMgr Z Z := start_device "d" (Some "/cap") (Some "/set") None new_der_mgr.

Lemma started_reachable : rtc sample_step new_der_mgr started.
Proof. apply rtc_once, starts; reflexivity. Qed.

(** A cycle of a resource that PUTs [c], up to the answer. *)
Definition fetching (k : Resource) : DerTask Z Z := mkDerTask k "d" 0 Fetching.
Definition begun (k : Resource) (m : DerMgr Z Z) : DerMgr Z Z := cycle_begins 0 k "d" m.
Definition put_task (k : Resource) (href : string) (c : Content Z Z) (p : option (string * Z)) (landed : bool) : DerTask Z Z :=
  mkDerTask k "d" 0 (Putting href c p landed).
Definition put_under_way (k : Resource) (href : string) (c : Content Z Z) (data : Z) (m : DerMgr Z Z) : DerMgr Z Z :=
  let p := dm_sent_capability m !! "d" in
  put_lands 0 (put_task k href c p false) href c p (data_read Some (λ _, true) on_change 0 (fetching k) data (begun k m)).

Lemma put_under_way_steps k href c data m :
  dm_tasks m = ∅ → dm_tasks (begun k m) !! 0%nat = Some (fetching k) →
  dm_tasks (data_read Some (λ _, true) on_change 0 (fetching k) data (begun k m)) !! 0%nat =
    Some (put_task k href c (dm_sent_capability m !! "d") false) →
  rtc sample_step m (put_under_way k href c data m).
Proof.
  intros H0 H1 H2. eapply rtc_l; [apply (begins _ _ _ _ m 0 k "d"); [by rewrite H0|]|].
  { intros i t. by rewrite H0. }
  eapply rtc_l; [by apply (reads _ _ _ _ _ 0 (fetching k) data)|].
  eapply rtc_l; [by eapply (lands _ _ _ _ _ 0)|]. apply rtc_refl.
Qed.

(** Settings 1, PUT and answered. *)
Definition once : DerMgr Z Z :=
  let m := put_under_way Settings "/set" (Conf 1) 1 started in
  answered on_change 0 (put_task Settings "/set" (Conf 1) None true) "/set" (Conf 1) None m.

Lemma once_reachable : rtc sample_step new_der_mgr once.
Proof.
  etrans; [apply started_reachable|]. etrans.
  - apply (put_under_way_steps Settings "/set" (Conf 1) 1); vm_compute; reflexivity.
  - apply rtc_once, is_answered; vm_compute; reflexivity.
Qed.

Lemma skipped_put_is_held_witness :
  decides Some (λ _, true) on_change (fetching Settings) 1 (begun Settings once) = Skips "/set" (Conf 1) ∧
  dm_server (begun Settings once) !! "/set" = Some (Conf 1).
Proof.
  split; [vm_compute; reflexivity|].
  assert (rtc sample_step new_der_mgr (begun Settings once)) as Hr.
  { eapply rtc_r; [apply once_reachable|]. apply begins; [vm_compute; reflexivity|].
    intros i t H. replace (dm_tasks once) with (∅ : gmap nat (DerTask Z Z)) in H by (vm_compute; reflexivity). done. }
  destruct (proj1 (skipped_put_is_held Some (λ _, true) sample_owner (begun Settings once) 0 (fetching Settings) Hr
    ltac:(vm_compute; reflexivity)) eq_refl 1 "/set" (Conf 1) ltac:(vm_compute; reflexivity)) as [H|H]; [exact H|].
  apply (bool_decide_eq_true_2 _) in H. vm_compute in H. discriminate.
Defined.

(** An answer that is lost leaves the server with other settings for as long as
    the device keeps its own.  The settings are 1 and known to the server; 2 reach
    it, but the answer does not come; they are 1 again, and every cycle finds
    nothing changed, while the server holds 2. *)
Theorem lost_answer_leaves_old_settings :
  ∃ m, rtc sample_step new_der_mgr m ∧
    decides Some (λ _, true) on_change (fetching Settings) 1 (begun Settings m) = Skips "/set" (Conf 1) ∧
    dm_server (begun Settings m) !! "/set" = Some (Conf 2) ∧ dm_tasks m = ∅ ∧ dm_lost m = {["/set"]}.
Proof.
  exists (gives_up 0 (put_task Settings "/set" (Conf 2) None true) (put_under_way Settings "/set" (Conf 2) 2 once)). split_and!; [|vm_compute; reflexivity..].
  etrans; [apply once_reachable|]. etrans.
  - apply (put_under_way_steps Settings "/set" (Conf 2) 2); vm_compute; reflexivity.
  - eapply rtc_once, fails; vm_compute; reflexivity.
Qed.

(** A device stopped while its capability is PUT is on record again when the
    answer comes, so that the capability is not PUT when the device returns. *)
Theorem stop_during_put_keeps_record :
  ∃ m m', rtc sample_step new_der_mgr m ∧ rtc sample_step (stop_device "d" m) m' ∧
    dm_sent_capability (stop_device "d" m) !! "d" = None ∧
    decides Some (λ _, true) on_change (mkDerTask Capability "d" 1 Fetching) 7
      (start_device "d" (Some "/cap") (Some "/set") None m') = Skips "/cap" (Cap 7).
Proof.
  exists (put_under_way Capability "/cap" (Cap 7) 7 started).
  eexists. split_and!.
  - etrans; [apply started_reachable|]. apply put_under_way_steps; vm_compute; reflexivity.
  - apply rtc_once, (is_answered _ _ _ _ _ 0 (put_task Capability "/cap" (Cap 7) None true) "/cap" (Cap 7) None);
      vm_compute; reflexivity.
  - vm_compute. reflexivity.
  - vm_compute. reflexivity.
Qed.
