(* ===== verification/Coordinator.v ===== *)
(** * Coordinator: telemetry/coordinator.py

    [TelemetryCoordinator] starts, restarts and stops two managers for a set of
    devices: the metering manager, built once the server offers a
    MirrorUsagePointList, and the manager of the DER resources.  What it relies
    on of a manager is the class [Manages]: a start of a device registers it with
    what it is given, a stop takes it out, and neither touches another device.
    [Metering] and [DerResources] are its two instances.

    An LFDI is its hex digits, which lower-casing leaves alone. *)

From S2P Require Import Prelude Mirror Metering DerResources.

(** An LFDI as both managers may be given it. *)
Definition hex_digits (l : digits) : Prop := Forall (λ d, 0 <= d < 16) l.

(** ** What a manager promises *)

Class Manages (M R : Type) := {
  fresh_manager : M;
  starts : digits → Z → R → M → M;                (* a device, its rate, what it is given *)
  stops : digits → M → M;
  holds : M → digits → option R;
  sound : M → Prop;
  fresh_sound : sound fresh_manager;
  starts_sound l rate r m : sound m → sound (starts l rate r m);
  stops_sound l m : sound m → sound (stops l m);
  fresh_holds l : holds fresh_manager l = None;
  starts_holds l rate r m : sound m → holds (starts l rate r m) l = Some r;
  starts_other l rate r m l' : sound m → hex_digits l → hex_digits l' → l' ≠ l →
    holds (starts l rate r m) l' = holds m l';
  stops_holds l m : sound m → holds (stops l m) l = None;
  stops_other l m l' : sound m → hex_digits l → hex_digits l' → l' ≠ l →
    holds (stops l m) l' = holds m l';
}.

(** The metering manager saves and restores what it registered with the server,
    and the other forgets what it has sent: neither changes what it is given. *)
Class Restores (M R Ck : Type) `{Manages M R} := {
  restore : Ck → M → M;
  save : M → Ck;
  restore_sound ck m : sound m → sound (restore ck m);
  restore_holds ck m l : sound m → holds (restore ck m) l = holds m l;
}.

Class Forgets (M R : Type) `{Manages M R} := {
  forget : M → M;
  forget_sound m : sound m → sound (forget m);
  forget_holds m l : sound m → holds (forget m) l = holds m l;
}.

(** What the metering manager is given of a device, and the DER resource manager. *)
Record Metered := mkMetered {
  me_log_href : option string;
  me_availability_href : option string;
  me_role : DeviceRole;
  me_revenue : bool;
  me_mirror : option digits;
}.

Record DerHrefs := mkDerHrefs {
  dh_capability : option string; dh_settings : option string; dh_status : option string }.

(** ** The coordinator *)

Inductive MirrorUnder := under_site | under_own.

Record DeviceRoleConfig := mkRole { rc_role : DeviceRole; rc_revenue : bool; rc_mirror : MirrorUnder }.

Definition DER_ROLE : DeviceRoleConfig := mkRole DER false under_site.

Definition is_der (r : DeviceRole) : bool := match r with DER => true | _ => false end.

(** What discovery holds of an EndDevice. *)
Record DeviceState := mkDeviceState {
  ds_lfdi : digits;                               (* lfdi.hex() *)
  ds_post_rate : option Z;
  ds_log_href : option string;
  ds_availability_href : option string;
  ds_capability_href : option string;
  ds_settings_href : option string;
  ds_status_href : option string;
}.

(** [client.state]: the EndDevices in order, and the MirrorUsagePointList. *)
Record ClientState := mkClientState { cs_devices : list DeviceState; cs_mup_list : string }.

Section Coordinator.
Context {T D Ck : Type} `{Restores T Metered Ck, Forgets D DerHrefs}.
(** The configuration; [client_lfdi] is the certificate's. *)
Context (roles : dict digits DeviceRoleConfig) (site_lfdi client_lfdi : option digits) (post_rate : Z).

Record Coord := mkCoord {
  co_started : dict digits bool;
  co_telemetry : option T;
  co_der : option D;
  co_last_mup : string;                           (* _last_mup_list_href *)
  co_warned_no_mup : bool;
  co_warned_no_site : bool;
  co_checkpoint : option Ck;                      (* _pending_checkpoint *)
}.

Definition new_coordinator (lfdis : list digits) : Coord :=
  mkCoord (foldl (λ d l, dict_set l false d) [] lfdis) None None "" false false None.

Definition set_started (d : dict digits bool) (c : Coord) : Coord :=
  mkCoord d (co_telemetry c) (co_der c) (co_last_mup c) (co_warned_no_mup c) (co_warned_no_site c) (co_checkpoint c).
Definition set_telemetry (t : option T) (c : Coord) : Coord :=
  mkCoord (co_started c) t (co_der c) (co_last_mup c) (co_warned_no_mup c) (co_warned_no_site c) (co_checkpoint c).
Definition set_der (d : option D) (c : Coord) : Coord :=
  mkCoord (co_started c) (co_telemetry c) d (co_last_mup c) (co_warned_no_mup c) (co_warned_no_site c) (co_checkpoint c).
Definition set_warned_site (b : bool) (c : Coord) : Coord :=
  mkCoord (co_started c) (co_telemetry c) (co_der c) (co_last_mup c) (co_warned_no_mup c) b (co_checkpoint c).

(** [restore_from_checkpoint] *)
Definition restore_checkpoint (data : Ck) (c : Coord) : Coord :=
  mkCoord (co_started c) (restore data <$> co_telemetry c) (co_der c) (co_last_mup c) (co_warned_no_mup c)
    (co_warned_no_site c) (Some data).

Definition checkpoint (c : Coord) : option Ck := save <$> co_telemetry c.

Definition setup_telemetry (st : ClientState) (c : Coord) : Coord :=
  match co_telemetry c with
  | Some _ => c
  | None =>
      if bool_decide (cs_mup_list st = "") then
        mkCoord (co_started c) None (co_der c) (co_last_mup c) true (co_warned_no_site c) (co_checkpoint c)
      else
        let t := match co_checkpoint c with Some ck => restore ck fresh_manager | None => fresh_manager end in
        mkCoord (co_started c) (Some t) (co_der c) (cs_mup_list st) false (co_warned_no_site c) (co_checkpoint c)
  end.

Definition setup_der_resources (c : Coord) : Coord :=
  match co_der c with Some _ => c | None => set_der (Some fresh_manager) c end.

Definition setup (st : ClientState) (c : Coord) : Coord := setup_der_resources (setup_telemetry st c).

Definition forget_sent_der_resources (c : Coord) : Coord := set_der (forget <$> co_der c) c.

(** [_mup_list_href]: the path readings are posted to. *)
Definition mup_list_href (st : ClientState) (c : Coord) : string * Coord :=
  if bool_decide (cs_mup_list st = "") then (co_last_mup c, c)
  else (cs_mup_list st,
        mkCoord (co_started c) (co_telemetry c) (co_der c) (cs_mup_list st) (co_warned_no_mup c)
          (co_warned_no_site c) (co_checkpoint c)).

(** [_mirror_lfdi] *)
Definition mirror_lfdi (role : DeviceRoleConfig) (c : Coord) : option digits * Coord :=
  match rc_role role, rc_mirror role with
  | SITE_METER, under_site =>
      let site := match site_lfdi with Some s => Some s | None => client_lfdi end in
      (site, match site with None => set_warned_site true c | Some _ => c end)
  | _, _ => (None, c)
  end.

(** [_device_post_rate]: the first rate a matching EndDevice gives. *)
Definition device_post_rate (st : ClientState) (lfdi : digits) : Z :=
  default post_rate
    (head (omap (λ d, if bool_decide (ds_lfdi d = lfdi) then
                        match ds_post_rate d with Some r => if 0 <? r then Some r else None | None => None end
                      else None) (cs_devices st))).

(** The loops of [_telemetry_hrefs] and [_start_der_resources_for_device]. *)
Definition or_first (a b : option string) : option string := match a with Some _ => a | None => b end.

(** [a or b]: an empty path is passed over. *)
Definition or_else (a b : option string) : option string :=
  match a with Some "" | None => b | Some _ => a end.

Definition telemetry_hrefs (st : ClientState) (lfdi : digits) : option string * option string :=
  foldl (λ acc d, if bool_decide (ds_lfdi d = lfdi) then
                    (or_first acc.1 (ds_log_href d), or_first acc.2 (ds_availability_href d))
                  else acc) (None, None) (cs_devices st).

Definition der_hrefs (st : ClientState) (lfdi : digits) : DerHrefs :=
  foldl (λ acc d, if bool_decide (ds_lfdi d = lfdi) then
                    mkDerHrefs (or_else (dh_capability acc) (ds_capability_href d))
                      (or_else (dh_settings acc) (ds_settings_href d))
                      (or_else (dh_status acc) (ds_status_href d))
                  else acc) (mkDerHrefs None None None) (cs_devices st).

Definition role_of (lfdi : digits) : DeviceRoleConfig := default DER_ROLE (dict_get lfdi roles).

(** One device of [start_device_telemetry]. *)
Definition start_target (st : ClientState) (c : Coord) (target : digits) : Coord :=
  if default true (dict_get target (co_started c)) then c
  else
    let role := role_of target in
    let '(mirror, c) := mirror_lfdi role c in
    let rate := device_post_rate st (default target mirror) in
    let c :=
      match co_telemetry c with
      | None => c
      | Some t =>
          let '(log_href, avail_href) :=
            if is_der (rc_role role) then telemetry_hrefs st target else (None, None) in
          set_telemetry (Some (starts target rate
            (mkMetered log_href avail_href (rc_role role) (rc_revenue role) mirror) t)) c
      end in
    let c :=
      if is_der (rc_role role) then
        match co_der c with
        | None => c
        | Some d => set_der (Some (starts target rate (der_hrefs st target) d)) c
        end
      else c in
    set_started (dict_set target true (co_started c)) c.

(** [setdefault] *)
Definition add_device (lfdi : digits) (c : Coord) : Coord :=
  match dict_get lfdi (co_started c) with
  | Some _ => c
  | None => set_started (dict_set lfdi false (co_started c)) c
  end.

Definition start_device_telemetry (st : ClientState) (lfdi : option digits) (c : Coord) : Coord :=
  match lfdi with
  | Some l => start_target st (add_device l c) l
  | None => foldl (start_target st) c (dict_keys (co_started c))
  end.

Definition stop_device_telemetry (lfdi : digits) (c : Coord) : Coord :=
  mkCoord (dict_del lfdi (co_started c)) (stops lfdi <$> co_telemetry c) (stops lfdi <$> co_der c)
    (co_last_mup c) (co_warned_no_mup c) (co_warned_no_site c) (co_checkpoint c).

Definition restart_device_telemetry (st : ClientState) (c : Coord) : Coord :=
  let c := setup_telemetry st c in
  let c := set_started ((λ e, (e.1, false)) <$> co_started c) c in
  start_device_telemetry st None c.

(** What may be called, with what discovery holds then. *)
Inductive CoordOp :=
  | OpSetup (st : ClientState)
  | OpStart (st : ClientState) (lfdi : option digits)
  | OpStop (lfdi : digits)
  | OpRestart (st : ClientState)
  | OpRestore (data : Ck)
  | OpForget
  | OpHref (st : ClientState).

Definition coord_op (op : CoordOp) (c : Coord) : Coord :=
  match op with
  | OpSetup st => setup st c
  | OpStart st lfdi => start_device_telemetry st lfdi c
  | OpStop lfdi => stop_device_telemetry lfdi c
  | OpRestart st => restart_device_telemetry st c
  | OpRestore data => restore_checkpoint data c
  | OpForget => forget_sent_der_resources c
  | OpHref st => (mup_list_href st c).2
  end.

End Coordinator.
