(* ===== verification/CoordinatorProps.v ===== *)
(** * Properties of the telemetry coordinator

    After a restart, which follows every rediscovery, the managers hold exactly
    the devices registered, with what the discovered state says of each.  The two
    managers keep the promises the proof rests on. *)

From S2P Require Import Prelude Mirror Metering DerResources Coordinator.

(** ** The managers keep their promises *)

#[local] Instance digits_inhabited : Inhabited digits := populate [].

Definition metered_of (d : DeviceTelemetryState) : Metered :=
  mkMetered (dt_log_href d) (dt_availability_href d) (dt_role d) (dt_revenue d) (dt_mirror d).

Definition start_of (rate : Z) (r : Metered) : Start :=
  {| st_post_rate := rate; st_log_href := me_log_href r; st_availability_href := me_availability_href r;
     st_role := me_role r; st_revenue := me_revenue r; st_mirror := me_mirror r |}.

Lemma carry_over_given old d : metered_of (carry_over old d) = metered_of d.
Proof. unfold carry_over. repeat (case_match; try done). Qed.

Lemma start_metering_given l rate r m :
  metered_of <$> dict_get l (mg_devices (start_metering l (start_of rate r) m)) = Some r.
Proof.
  unfold start_metering. cbn [mg_devices]. rewrite dict_get_set_eq. cbn. f_equal.
  assert (metered_of (carry_over (dict_get l (mg_devices m)) (new_device l (start_of rate r))) = r) as E.
  { rewrite carry_over_given. by destruct r. }
  destruct (dt_registered _); [destruct (dict_get l (mg_restored m))|]; exact E.
Qed.

Lemma restore_given data m l :
  metered_of <$> dict_get l (mg_devices (restore_from_checkpoint data m)) = metered_of <$> dict_get l (mg_devices m).
Proof.
  unfold restore_from_checkpoint. revert m. induction data as [|[l0 r] data IH]; intros m; [done|].
  cbn [foldl]. rewrite IH. unfold restore_one. cbn [mg_devices].
  destruct (dict_get l0 (mg_devices m)) as [d|] eqn:Ed; [|done].
  destruct (dt_registered d); [|done]. rewrite dict_get_set. case_decide as E; [|done]. subst. by rewrite Ed.
Qed.

#[export, refine] Instance metering_manages : Manages Manager Metered := {
  fresh_manager := mkManager [] [];
  starts l rate r m := start_metering l (start_of rate r) m;
  stops := stop_metering;
  holds m l := metered_of <$> dict_get l (mg_devices m);
  sound _ := True;
}.
Proof.
  - done.
  - done.
  - done.
  - done.
  - intros l rate r m _. apply start_metering_given.
  - intros l rate r m l' _ _ _ Hne. unfold start_metering. cbn [mg_devices]. by rewrite dict_get_set_ne.
  - intros l m _. unfold stop_metering. cbn [mg_devices]. rewrite dict_get_del. by rewrite decide_True.
  - intros l m l' _ _ _ Hne. unfold stop_metering. cbn [mg_devices]. rewrite dict_get_del. by rewrite decide_False.
Defined.

#[export, refine] Instance metering_restores : Restores Manager Metered (dict digits Registration) := {
  restore := restore_from_checkpoint;
  save := to_checkpoint;
}.
Proof.
  - done.
  - intros ck m l _. apply restore_given.
Defined.

(** LFDIs of hex digits differ as texts. *)
Lemma hex_digit_inj a b : 0 <= a < 16 → 0 <= b < 16 → hex_digit (Z.to_nat a) = hex_digit (Z.to_nat b) → a = b.
Proof.
  intros Ha Hb. set (x := Z.to_nat a). set (y := Z.to_nat b).
  assert (x ∈ seq 0 16 ∧ y ∈ seq 0 16) as [Hx Hy] by (rewrite !elem_of_seq; lia).
  intros E. cut (x = y); [lia|]. revert x Hx y Hy E.
  assert (Forall (λ x, Forall (λ y, hex_digit x = hex_digit y → x = y) (seq 0 16)) (seq 0 16)) as Hall
    by (apply (bool_decide_unpack _); vm_compute; exact I).
  intros x Hx y Hy. rewrite Forall_forall in Hall. specialize (Hall x Hx). rewrite Forall_forall in Hall. by apply Hall.
Qed.

Lemma hex_text_inj l l' : hex_digits l → hex_digits l' → hex_text l = hex_text l' → l = l'.
Proof.
  unfold hex_text. intros Hl Hl' E.
  apply (f_equal String.list_ascii_of_string) in E. rewrite !String.list_ascii_of_string_of_list_ascii in E.
  revert l' Hl' E. induction Hl as [|d l Hd Hl IH]; intros [|d' l'] Hl' E; try done.
  apply Forall_cons in Hl' as [Hd' Hl']. injection E as E1 E2. f_equal; [by apply hex_digit_inj|by apply IH].
Qed.

Section DerManager.
Context {Data Body : Type}.

Definition der_given (m : DerMgr Data Body) (l : digits) : option DerHrefs :=
  d ← (dm_devices m !! hex_text l ≫= λ i, dm_heap m !! i);
  Some (mkDerHrefs (de_capability d) (de_settings d) (de_status d)).

(** Every device has its state object. *)
Definition der_sound (m : DerMgr Data Body) : Prop :=
  ∀ k i, dm_devices m !! k = Some i → (i < length (dm_heap m))%nat.

#[export, refine] Instance der_manages : Manages (DerMgr Data Body) DerHrefs := {
  fresh_manager := new_der_mgr;
  starts l _ r m := start_device (hex_text l) (dh_capability r) (dh_settings r) (dh_status r) m;
  stops l m := stop_device (hex_text l) m;
  holds := der_given;
  sound := der_sound;
}.
Proof.
  - intros k i E. cbn in E. by rewrite lookup_empty in E.
  - intros l rate r m Hs k i. cbn. rewrite length_app. cbn.
    intros [[_ <-]|[_ E]]%lookup_insert_Some; [lia|]. apply Hs in E. lia.
  - intros l m Hs k i. cbn. intros [_ E]%lookup_delete_Some. by eapply Hs.
  - intros l. unfold der_given. cbn. by rewrite lookup_empty.
  - intros l rate r m Hs. unfold der_given. cbn. rewrite lookup_insert_eq. cbn.
    rewrite lookup_app_r, Nat.sub_diag by lia. cbn. by destruct r.
  - intros l rate r m l' Hs Hl Hl' Hne. unfold der_given. cbn.
    rewrite lookup_insert_ne by (intros E; apply Hne; by apply hex_text_inj).
    destruct (dm_devices m !! hex_text l') as [i|] eqn:E; [|done]. cbn.
    rewrite lookup_app_l; [done|]. by eapply Hs.
  - intros l m Hs. unfold der_given. cbn. by rewrite lookup_delete_eq.
  - intros l m l' Hs Hl Hl' Hne. unfold der_given. cbn.
    rewrite lookup_delete_ne; [done|]. intros E. apply Hne. by apply hex_text_inj.
Defined.

#[export, refine] Instance der_forgets : Forgets (DerMgr Data Body) DerHrefs := { forget := forget_sent }.
Proof.
  - done.
  - done.
Defined.
End DerManager.

(** ** Restarts *)

Section Restart.
Context {T D Ck : Type} `{Restores T Metered Ck, Forgets D DerHrefs}.
Context (roles : dict digits DeviceRoleConfig) (site_lfdi client_lfdi : option digits) (post_rate : Z).

#[local] Abbreviation Coord := (@Coord T D Ck).
#[local] Abbreviation start_target := (start_target roles site_lfdi client_lfdi post_rate).
#[local] Abbreviation restart := (restart_device_telemetry roles site_lfdi client_lfdi post_rate).
#[local] Abbreviation coord_op := (coord_op roles site_lfdi client_lfdi post_rate).

(** What each manager holds of a device. *)
Definition metered (c : Coord) (l : digits) : option Metered := co_telemetry c ≫= λ t, holds t l.
Definition der_held (c : Coord) (l : digits) : option DerHrefs := co_der c ≫= λ d, holds d l.

Definition managers_sound (c : Coord) : Prop :=
  (∀ t, co_telemetry c = Some t → sound t) ∧ (∀ d, co_der c = Some d → sound d).

(** What discovery says a device is metered as. *)
Definition expected (st : ClientState) (l : digits) : Metered :=
  let role := role_of roles l in
  let hrefs := if is_der (rc_role role) then telemetry_hrefs st l else (None, None) in
  mkMetered hrefs.1 hrefs.2 (rc_role role) (rc_revenue role)
    (match rc_role role, rc_mirror role with
     | SITE_METER, under_site => match site_lfdi with Some s => Some s | None => client_lfdi end
     | _, _ => None
     end).

Definition expected_der (st : ClientState) (l : digits) : option DerHrefs :=
  if is_der (rc_role (role_of roles l)) then Some (der_hrefs st l) else None.

Lemma mirror_lfdi_state role (c : Coord) :
  co_started (mirror_lfdi site_lfdi client_lfdi role c).2 = co_started c ∧
  co_telemetry (mirror_lfdi site_lfdi client_lfdi role c).2 = co_telemetry c ∧
  co_der (mirror_lfdi site_lfdi client_lfdi role c).2 = co_der c ∧
  (mirror_lfdi site_lfdi client_lfdi role c).1 =
    match rc_role role, rc_mirror role with
    | SITE_METER, under_site => match site_lfdi with Some s => Some s | None => client_lfdi end
    | _, _ => None
    end.
Proof. unfold mirror_lfdi. by destruct (rc_role role), (rc_mirror role), site_lfdi, client_lfdi. Qed.

(** One device is started: what the coordinator holds after. *)
Lemma start_target_eq st (c : Coord) target :
  dict_get target (co_started c) = Some false →
  ∃ rate, let c' := start_target st c target in
    co_started c' = dict_set target true (co_started c) ∧
    co_telemetry c' = starts target rate (expected st target) <$> co_telemetry c ∧
    co_der c' = if is_der (rc_role (role_of roles target))
                then starts target rate (der_hrefs st target) <$> co_der c else co_der c.
Proof.
  intros Hf. unfold Coordinator.start_target. rewrite Hf. cbn [default].
  destruct (mirror_lfdi_state (role_of roles target) c) as (E1 & E2 & E3 & E4).
  destruct (mirror_lfdi _ _ _ c) as [mirror c1] eqn:Em. cbn [fst snd] in *. subst mirror.
  set (rate := device_post_rate _ _ _). exists rate. unfold expected.
  rewrite <- E1, <- E2, <- E3. destruct c1 as [sd te de mu wm ws ck]. cbn [co_telemetry co_der co_started].
  destruct (is_der (rc_role (role_of roles target))) eqn:Ed;
    [destruct (telemetry_hrefs st target) as [lh ah]|]; cbn [fst snd]; destruct te, de; done.
Qed.

(** The devices, and what the managers hold, fit together. *)
Record coherent (c : Coord) : Prop := {
  ch_sound : managers_sound c;
  ch_keys : NoDup (dict_keys (co_started c));
  ch_hex : Forall hex_digits (dict_keys (co_started c));
  ch_gone l : hex_digits l → dict_get l (co_started c) = None → metered c l = None ∧ der_held c l = None;
  ch_meters l : hex_digits l → is_der (rc_role (role_of roles l)) = false → der_held c l = None;
}.

Lemma key_hex (c : Coord) l b : coherent c → dict_get l (co_started c) = Some b → hex_digits l.
Proof.
  intros Hc E%dict_get_elem. eapply (proj1 (Forall_forall _ _) (ch_hex _ Hc)). apply list_elem_of_fmap. by exists (l, b).
Qed.

(** What a start of [target] does to what is held of it, and that it does nothing
    else. *)
Record started_as (st : ClientState) (c : Coord) (target : digits) (c' : Coord) : Prop := {
  sa_started l : dict_get l (co_started c') = if decide (l = target) then Some true else dict_get l (co_started c);
  sa_keys : dict_keys (co_started c') = dict_keys (co_started c);
  sa_metered l : hex_digits l → metered c' l =
    if decide (l = target) then (λ _, expected st l) <$> co_telemetry c else metered c l;
  sa_der l : hex_digits l → der_held c' l =
    if decide (l = target ∧ is_der (rc_role (role_of roles l)) = true)
    then (λ _, der_hrefs st l) <$> co_der c else der_held c l;
  sa_telemetry : is_Some (co_telemetry c') ↔ is_Some (co_telemetry c);
  sa_der_built : is_Some (co_der c') ↔ is_Some (co_der c);
  sa_sound : managers_sound c';
}.

Lemma dict_set_keys_same {V} (k : digits) (v v0 : V) (d : dict digits V) :
  dict_get k d = Some v0 → dict_keys (dict_set k v d) = dict_keys d.
Proof. intros E. rewrite dict_set_keys. unfold dict_mem. by rewrite E. Qed.

Lemma start_target_as st (c : Coord) target :
  coherent c → dict_get target (co_started c) = Some false → started_as st c target (start_target st c target).
Proof.
  intros Hc Hf. pose proof (key_hex _ _ _ Hc Hf) as Ht. destruct (ch_sound _ Hc) as [Hs1 Hs2].
  destruct (start_target_eq st c target Hf) as (rate & E1 & E2 & E3). cbn in E1, E2, E3.
  set (c' := start_target st c target) in *. split.
  - intros l. rewrite E1. apply dict_get_set.
  - rewrite E1. by eapply dict_set_keys_same.
  - intros l Hl. unfold metered. rewrite E2. destruct (co_telemetry c) as [t|]; cbn; [|by case_decide].
    case_decide as E; [subst; apply starts_holds|apply starts_other]; auto.
  - intros l Hl. unfold der_held. rewrite E3.
    destruct (is_der (rc_role (role_of roles target))) eqn:Ed.
    + destruct (co_der c) as [d|]; cbn; [|by case_decide].
      destruct (decide (l = target)) as [->|Hne].
      * rewrite decide_True by done. apply starts_holds. auto.
      * rewrite decide_False by naive_solver. apply starts_other; auto.
    + rewrite decide_False; [done|]. intros [-> E]. congruence.
  - rewrite E2. destruct (co_telemetry c); split; intros [? ?]; done || eauto.
  - rewrite E3. destruct (is_der _); [|done]. destruct (co_der c); split; intros [? ?]; done || eauto.
  - split.
    + intros t. rewrite E2. destruct (co_telemetry c); intros [= <-]. apply starts_sound. auto.
    + intros d. rewrite E3. destruct (is_der _); [|auto]. destruct (co_der c); intros [= <-]. apply starts_sound. auto.
Qed.

Lemma started_as_coherent st c target c' :
  coherent c → is_Some (dict_get target (co_started c)) → started_as st c target c' → coherent c'.
Proof.
  intros Hc [b Hb] Hs. pose proof (key_hex _ _ _ Hc Hb) as Ht. split.
  - apply Hs.
  - rewrite (sa_keys _ _ _ _ Hs). apply Hc.
  - rewrite (sa_keys _ _ _ _ Hs). apply Hc.
  - intros l Hl. rewrite (sa_started _ _ _ _ Hs). case_decide as E; [done|]. intros Hg.
    rewrite (sa_metered _ _ _ _ Hs), (sa_der _ _ _ _ Hs) by done. rewrite !decide_False by naive_solver.
    by apply (ch_gone _ Hc).
  - intros l Hl Hr. rewrite (sa_der _ _ _ _ Hs) by done. rewrite decide_False by (rewrite Hr; naive_solver).
    by apply (ch_meters _ Hc).
Qed.

Lemma start_target_skips st (c : Coord) target :
  dict_get target (co_started c) ≠ Some false → start_target st c target = c.
Proof. intros Hn. unfold Coordinator.start_target. by destruct (dict_get target _) as [[]|]. Qed.

Lemma start_target_coherent st (c : Coord) target :
  coherent c → coherent (start_target st c target) ∧
    dict_keys (co_started (start_target st c target)) = dict_keys (co_started c).
Proof.
  intros Hc. destruct (decide (dict_get target (co_started c) = Some false)) as [E|Hn].
  - pose proof (start_target_as st c target Hc E) as Hs. split; [|apply Hs]. by eapply started_as_coherent; eauto.
  - by rewrite start_target_skips.
Qed.

Lemma start_all_coherent st (c : Coord) ks :
  coherent c → coherent (foldl (start_target st) c ks) ∧
    dict_keys (co_started (foldl (start_target st) c ks)) = dict_keys (co_started c).
Proof.
  revert c. induction ks as [|k ks IH]; intros c Hc; [done|]. cbn [foldl].
  destruct (start_target_coherent st c k Hc) as [Hc' <-]. by apply IH.
Qed.

Lemma const_fmap {A A' B} (x : B) (o : option A) (o' : option A') :
  (is_Some o ↔ is_Some o') → (λ _, x) <$> o = (λ _, x) <$> o'.
Proof. destruct o, o'; intros [Hx Hy]; try done; [destruct (Hx ltac:(eauto))|destruct (Hy ltac:(eauto))]; done. Qed.

(** All of a list of devices, none of them started yet. *)
Lemma start_all_as st (c : Coord) ks :
  coherent c → NoDup ks → (∀ k, k ∈ ks → dict_get k (co_started c) = Some false) →
  let c' := foldl (start_target st) c ks in
  (is_Some (co_telemetry c') ↔ is_Some (co_telemetry c)) ∧ (is_Some (co_der c') ↔ is_Some (co_der c)) ∧
  ∀ l, hex_digits l →
    metered c' l = (if decide (l ∈ ks) then (λ _, expected st l) <$> co_telemetry c else metered c l) ∧
    der_held c' l = (if decide (l ∈ ks ∧ is_der (rc_role (role_of roles l)) = true)
                     then (λ _, der_hrefs st l) <$> co_der c else der_held c l) ∧
    dict_get l (co_started c') = (if decide (l ∈ ks) then Some true else dict_get l (co_started c)).
Proof.
  revert c. induction ks as [|k ks IH]; intros c Hc Hnd Hf; cbn [foldl].
  { split_and!; [done|done|]. intros l _. by rewrite !decide_False by (rewrite elem_of_nil; naive_solver). }
  apply NoDup_cons in Hnd as [Hk Hnd].
  pose proof (start_target_as st c k Hc (Hf k ltac:(left))) as Hs.
  pose proof (started_as_coherent st c k _ Hc ltac:(rewrite (Hf k); [eauto|left]) Hs) as Hc'.
  destruct (IH _ Hc' Hnd) as (Ht & Hd & Hl).
  { intros k' Hk'. rewrite (sa_started _ _ _ _ Hs), decide_False by (intros ->; done). apply Hf. by right. }
  split_and!; [rewrite Ht; apply Hs|rewrite Hd; apply Hs|]. intros l Hx. destruct (Hl l Hx) as (E1 & E2 & E3).
  rewrite E1, E2, E3, (sa_started _ _ _ _ Hs), (sa_metered _ _ _ _ Hs), (sa_der _ _ _ _ Hs) by done.
  rewrite (const_fmap _ _ _ (sa_telemetry _ _ _ _ Hs)), (const_fmap _ _ _ (sa_der_built _ _ _ _ Hs)).
  destruct (decide (l = k)) as [->|Hne].
  - rewrite !(decide_False (P := k ∈ ks)), (decide_False (P := k ∈ ks ∧ _)) by naive_solver.
    rewrite !(decide_True (P := k ∈ k :: ks)) by left. split_and!; [done| |done].
    destruct (is_der _); [rewrite !decide_True by (split; [left || done|done])|rewrite !decide_False by naive_solver]; done.
  - rewrite (decide_False (P := l = k ∧ _)) by naive_solver.
    assert (l ∈ k :: ks ↔ l ∈ ks) as Hin by (rewrite elem_of_cons; naive_solver).
    repeat case_decide; try done; naive_solver.
Qed.

(** *** The other operations *)

(** Same devices and same holdings. *)
Lemma coherent_same (c c' : Coord) :
  coherent c → co_started c' = co_started c → (∀ l, metered c' l = metered c l) →
  (∀ l, der_held c' l = der_held c l) → managers_sound c' → coherent c'.
Proof.
  intros [Hs Hk Hh Hg Hm] E Et Ed Hs'. split; rewrite ?E; try done.
  - intros l Hl Hn. rewrite Et, Ed. by apply Hg.
  - intros l Hl Hr. rewrite Ed. by apply Hm.
Qed.

Lemma setup_telemetry_same st (c : Coord) :
  managers_sound c →
  co_started (setup_telemetry st c) = co_started c ∧ co_der (setup_telemetry st c) = co_der c ∧
  (∀ l, metered (setup_telemetry st c) l = metered c l) ∧ managers_sound (setup_telemetry st c) ∧
  (cs_mup_list st ≠ "" → is_Some (co_telemetry (setup_telemetry st c))).
Proof.
  intros [Hs Hd]. unfold setup_telemetry. destruct (co_telemetry c) as [t|] eqn:Et.
  { rewrite Et. split_and!; try done. by split; [rewrite Et|]. }
  case_bool_decide as Em; cbn.
  { split_and!; try done. intros l. unfold metered. cbn. by rewrite Et. }
  set (t := match co_checkpoint c with Some _ => _ | None => _ end).
  assert (sound t ∧ ∀ l, holds t l = None) as [Ht Hh].
  { unfold t. destruct (co_checkpoint c) as [ck|].
    - split; [apply restore_sound, fresh_sound|]. intros l. rewrite restore_holds by apply fresh_sound. apply fresh_holds.
    - split; [apply fresh_sound|apply fresh_holds]. }
  split_and!; try done; cbn.
  - intros l. unfold metered. cbn. rewrite Et. apply Hh.
  - split; [|done]. by intros t' [= <-].
Qed.

Lemma setup_telemetry_coherent st c : coherent c → coherent (setup_telemetry st c).
Proof.
  intros Hc. destruct (setup_telemetry_same st c (ch_sound _ Hc)) as (E & Ed & Et & Hs & _).
  apply (coherent_same c); try done. intros l. unfold der_held. by rewrite Ed.
Qed.

Lemma setup_der_coherent c : coherent c → coherent (setup_der_resources c).
Proof.
  intros Hc. unfold setup_der_resources. destruct (co_der c) as [d|] eqn:Ed; [done|].
  destruct (ch_sound _ Hc) as [Hs Hd]. apply (coherent_same c); try done.
  - intros l. unfold der_held. cbn. rewrite Ed. apply fresh_holds.
  - split; [done|]. intros d [= <-]. apply fresh_sound.
Qed.

Lemma add_device_coherent l c : hex_digits l → coherent c → coherent (add_device l c).
Proof.
  intros Hl Hc. unfold add_device. destruct (dict_get l (co_started c)) eqn:E; [done|].
  destruct Hc as [Hs Hk Hh Hg Hm]. split; cbn; [done| | | |done].
  - by apply dict_set_wf.
  - apply Forall_forall. intros k [->|Hin]%elem_of_dict_set_keys; [done|]. by apply (proj1 (Forall_forall _ _) Hh).
  - intros l' Hl'. rewrite dict_get_set. case_decide; [done|]. by apply Hg.
Qed.

Lemma stop_coherent l c : hex_digits l → coherent c → coherent (stop_device_telemetry l c).
Proof.
  intros Hl [[Hs Hd] Hk Hh Hg Hm].
  assert (∀ l', hex_digits l' → metered (stop_device_telemetry l c) l' = if decide (l' = l) then None else metered c l') as Et.
  { intros l' Hl'. unfold metered. cbn. destruct (co_telemetry c) as [t|]; cbn; [|by case_decide].
    case_decide as E; [subst; apply stops_holds|apply stops_other]; auto. }
  assert (∀ l', hex_digits l' → der_held (stop_device_telemetry l c) l' = if decide (l' = l) then None else der_held c l') as Ed.
  { intros l' Hl'. unfold der_held. cbn. destruct (co_der c) as [d|]; cbn; [|by case_decide].
    case_decide as E; [subst; apply stops_holds|apply stops_other]; auto. }
  split.
  - split; cbn; [destruct (co_telemetry c)|destruct (co_der c)]; intros ? [= <-]; apply stops_sound; auto.
  - by apply dict_del_wf.
  - apply Forall_forall. intros k [Hin _]%dict_del_keys. by apply (proj1 (Forall_forall _ _) Hh).
  - intros l' Hl'. rewrite Et, Ed by done. cbn [stop_device_telemetry co_started]. rewrite dict_get_del.
    case_decide; [done|]. by apply Hg.
  - intros l' Hl' Hr. rewrite Ed by done. case_decide; [done|]. by apply Hm.
Qed.

Lemma restore_coherent data c : coherent c → coherent (restore_checkpoint data c).
Proof.
  intros Hc. destruct (ch_sound _ Hc) as [Hs Hd]. apply (coherent_same c); try done.
  - intros l. unfold metered. cbn. destruct (co_telemetry c) as [t|]; [|done]. cbn. apply restore_holds. auto.
  - split; [|done]. cbn. destruct (co_telemetry c); intros ? [= <-]. apply restore_sound. auto.
Qed.

Lemma forget_coherent c : coherent c → coherent (forget_sent_der_resources c).
Proof.
  intros Hc. destruct (ch_sound _ Hc) as [Hs Hd]. apply (coherent_same c); try done.
  - intros l. unfold der_held. cbn. destruct (co_der c) as [d|]; [|done]. cbn. apply forget_holds. auto.
  - split; [done|]. cbn. destruct (co_der c); intros ? [= <-]. apply forget_sound. auto.
Qed.

(** The devices set back to not started. *)
Lemma unstart_coherent c : coherent c → coherent (set_started ((λ e, (e.1, false)) <$> co_started c) c).
Proof.
  assert (dict_keys ((λ e : digits * bool, (e.1, false)) <$> co_started c) = dict_keys (co_started c)) as E.
  { unfold dict_keys. rewrite <- list_fmap_compose. done. }
  intros [Hs Hk Hh Hg Hm]. split; cbn [co_started set_started]; rewrite ?E; try done.
  intros l Hl Hn%dict_get_None. rewrite E in Hn. apply Hg; [done|]. by apply dict_get_None.
Qed.

(** *** Any sequence of operations *)

Definition op_hex (op : @CoordOp Ck) : Prop :=
  match op with OpStart _ (Some l) | OpStop l => hex_digits l | _ => True end.

(** Whether a device is registered: configured or started by name, and not
    stopped since. *)
Definition registers (l : digits) (b : bool) (op : @CoordOp Ck) : bool :=
  match op with
  | OpStart _ (Some l') => b || bool_decide (l' = l)
  | OpStop l' => b && bool_decide (l' ≠ l)
  | _ => b
  end.

Definition registered (lfdis : list digits) (ops : list (@CoordOp Ck)) (l : digits) : bool :=
  foldl (registers l) (bool_decide (l ∈ lfdis)) ops.

Definition after (lfdis : list digits) (ops : list (@CoordOp Ck)) : Coord :=
  foldl (λ c op, coord_op op c) (new_coordinator lfdis) ops.

Lemma coord_op_coherent op c : op_hex op → coherent c → coherent (coord_op op c).
Proof.
  intros Hop Hc. destruct op as [st|st [l|]|l|st|data| |st]; cbn.
  - by apply setup_der_coherent, setup_telemetry_coherent.
  - by apply start_target_coherent, add_device_coherent.
  - by apply start_all_coherent.
  - by apply stop_coherent.
  - by apply start_all_coherent, unstart_coherent, setup_telemetry_coherent.
  - by apply restore_coherent.
  - by apply forget_coherent.
  - unfold mup_list_href. case_bool_decide; [done|]. by apply (coherent_same c); try apply Hc.
Qed.

Lemma keys_get (d d' : dict digits bool) l :
  dict_keys d = dict_keys d' → is_Some (dict_get l d) ↔ is_Some (dict_get l d').
Proof. intros E. rewrite <- !not_eq_None_Some, !dict_get_None. by rewrite E. Qed.

Lemma setup_started st (c : Coord) : managers_sound c → co_started (setup st c) = co_started c.
Proof.
  intros Hs. unfold setup, setup_der_resources. destruct (setup_telemetry_same st c Hs) as (E & _).
  by destruct (co_der _).
Qed.

Lemma unstart_keys (d : dict digits bool) : dict_keys ((λ e, (e.1, false)) <$> d) = dict_keys d.
Proof. unfold dict_keys. by rewrite <- list_fmap_compose. Qed.

Lemma unstart_get (d : dict digits bool) l : l ∈ dict_keys d → dict_get l ((λ e, (e.1, false)) <$> d) = Some false.
Proof.
  rewrite <- (unstart_keys d). intros ([k b] & -> & Hin)%list_elem_of_fmap.
  induction d as [|[k0 b0] d IH]; [by apply elem_of_nil in Hin|]. cbn [fmap list_fmap fst] in *.
  change (dict_get ?x ((?y, ?b) :: ?r)) with (if decide (x = y) then Some b else dict_get x r).
  case_decide as E; [done|]. apply elem_of_cons in Hin as [[= -> ->]|Hin]; [done|by apply IH].
Qed.

Lemma coord_op_registers op c l :
  op_hex op → coherent c →
  is_Some (dict_get l (co_started (coord_op op c))) ↔
    registers l (bool_decide (is_Some (dict_get l (co_started c)))) op = true.
Proof.
  intros Hop Hc. destruct op as [st|st [l'|]|l'|st|data| |st]; cbn; rewrite ?bool_decide_eq_true; try done.
  - by rewrite setup_started by apply Hc.
  - rewrite orb_true_iff, !bool_decide_eq_true.
    rewrite (keys_get _ (co_started (add_device l' c))) by (by apply start_target_coherent, add_device_coherent).
    unfold add_device. destruct (dict_get l' (co_started c)) eqn:E.
    + split; [by left|]. intros [Hs|<-]; [done|]. rewrite E. eauto.
    + cbn. rewrite dict_get_set. case_decide as El.
      * split; [by right|]. intros _. eauto.
      * naive_solver.
  - apply keys_get. by apply start_all_coherent.
  - rewrite andb_true_iff, !bool_decide_eq_true, dict_get_del. case_decide as El; subst; [|naive_solver].
    split; [by intros [? ?]|naive_solver].
  - unfold restart_device_telemetry. rewrite (keys_get _ (co_started c)); [done|].
    destruct (setup_telemetry_same st c (ch_sound _ Hc)) as (E & _). unfold start_device_telemetry.
    etrans; [apply start_all_coherent; by apply unstart_coherent, setup_telemetry_coherent|].
    cbn [set_started co_started]. by rewrite unstart_keys, E.
  - unfold mup_list_href. by case_bool_decide.
Qed.

Lemma new_coherent lfdis :
  Forall hex_digits lfdis → coherent (new_coordinator lfdis) ∧
    ∀ l, is_Some (dict_get l (co_started (new_coordinator (T:=T) (D:=D) (Ck:=Ck) lfdis))) ↔ l ∈ lfdis.
Proof.
  intros Hh. assert (∀ d : dict digits bool, NoDup (dict_keys d) →
    NoDup (dict_keys (foldl (λ d l, dict_set l false d) d lfdis)) ∧
    ∀ k, k ∈ dict_keys (foldl (λ d l, dict_set l false d) d lfdis) ↔ k ∈ dict_keys d ∨ k ∈ lfdis) as Hd.
  { clear Hh. induction lfdis as [|l lfdis IH]; intros d Hd; cbn [foldl].
    - split; [done|]. intros k. rewrite elem_of_nil. naive_solver.
    - destruct (IH (dict_set l false d)) as [Hn Hk]; [by apply dict_set_wf|]. split; [done|].
      intros k. rewrite Hk, elem_of_dict_set_keys, elem_of_cons. naive_solver. }
  destruct (Hd []) as [Hn Hk]; [constructor|]. split; [split|].
  - by split.
  - exact Hn.
  - apply Forall_forall. intros k [[]%elem_of_nil|Hin]%Hk. by apply (proj1 (Forall_forall _ _) Hh).
  - by intros l Hl _.
  - by intros l Hl _.
  - intros l. rewrite <- not_eq_None_Some, dict_get_None. cbn [new_coordinator co_started]. rewrite Hk.
    change (dict_keys []) with (@nil digits). rewrite elem_of_nil. destruct (decide (l ∈ lfdis)); naive_solver.
Qed.

Lemma after_coherent lfdis ops :
  Forall hex_digits lfdis → Forall op_hex ops →
  coherent (after lfdis ops) ∧ ∀ l, is_Some (dict_get l (co_started (after lfdis ops))) ↔ registered lfdis ops l = true.
Proof.
  intros Hl. destruct (new_coherent lfdis Hl) as [Hc Hk]. unfold after, registered.
  induction ops as [|op ops IH] using rev_ind; intros Ho.
  - split; [done|]. intros l. cbn. by rewrite bool_decide_eq_true.
  - apply Forall_app in Ho as [Ho [Hop _]%Forall_cons]. destruct (IH Ho) as [Hc' Hr]. rewrite foldl_app. cbn [foldl].
    split; [by apply coord_op_coherent|]. intros l. rewrite foldl_app. cbn [foldl].
    rewrite coord_op_registers by done. specialize (Hr l).
    destruct (foldl (registers l) _ ops).
    + by rewrite bool_decide_eq_true_2 by (by apply Hr).
    + by rewrite bool_decide_eq_false_2 by (by intros ?%Hr).
Qed.

(** C29: whatever was set up, started, stopped, restored or discovered before, after
    a restart the managers hold exactly the registered devices, those configured
    or started by name and not stopped since, each with the paths, the role and
    the mirror LFDI that the discovered state and the configuration give it now: no
    path of an earlier discovery is left, a meter has no DER resources, a stopped
    device does not come back, and a MirrorUsagePointList that appears late is
    adopted. *)
Theorem restart_follows_discovery lfdis ops st l :
  Forall hex_digits lfdis → Forall op_hex ops → hex_digits l →
  let c := restart st (after lfdis ops) in
  (cs_mup_list st ≠ "" → is_Some (co_telemetry c)) ∧
  if registered lfdis ops l then
    dict_get l (co_started c) = Some true ∧
    (is_Some (co_telemetry c) → metered c l = Some (expected st l)) ∧
    (is_Some (co_der c) → der_held c l = expected_der st l)
  else dict_get l (co_started c) = None ∧ metered c l = None ∧ der_held c l = None.
Proof.
  intros Hlf Hop Hl. cbv zeta. destruct (after_coherent lfdis ops Hlf Hop) as [Hc Hr]. specialize (Hr l).
  set (c0 := after lfdis ops) in *. unfold restart_device_telemetry.
  destruct (setup_telemetry_same st c0 (ch_sound _ Hc)) as (E & Ed & Et & Hs & Hmup).
  pose proof (setup_telemetry_coherent st c0 Hc) as Hc1. set (c1 := setup_telemetry st c0) in *.
  pose proof (unstart_coherent c1 Hc1) as Hc2. set (c2 := set_started _ c1) in *.
  change (start_device_telemetry _ _ _ _ st None c2) with (foldl (start_target st) c2 (dict_keys (co_started c2))).
  destruct (start_all_as st c2 (dict_keys (co_started c2)) Hc2 (ch_keys _ Hc2)) as (Ht & Hd & Hall).
  { intros k Hk. cbn. apply unstart_get. cbn in Hk. by rewrite unstart_keys in Hk. }
  split; [intros Hm; apply Ht; by apply Hmup|].
  destruct (Hall l Hl) as (E1 & E2 & E3). rewrite E1, E2, E3. clear Hall E1 E2 E3.
  assert (l ∈ dict_keys (co_started c2) ↔ registered lfdis ops l = true) as Hin.
  { cbn. rewrite unstart_keys, E, <- Hr, <- not_eq_None_Some, dict_get_None. split; [tauto|].
    destruct (decide (l ∈ dict_keys (co_started c0))); tauto. }
  change (co_telemetry c2) with (co_telemetry c1). change (co_der c2) with (co_der c1).
  destruct (registered lfdis ops l).
  - rewrite !(decide_True (P := l ∈ _)) by (by apply Hin). split_and!; [done| |].
    + intros [t Et1]%Ht. change (co_telemetry c2) with (co_telemetry c1) in Et1. by rewrite Et1.
    + intros [d Ed1]%Hd. change (co_der c2) with (co_der c1) in Ed1. unfold expected_der. destruct (is_der _) eqn:Er.
      * rewrite decide_True by (split; [by apply Hin|done]). by rewrite Ed1.
      * rewrite decide_False by naive_solver. by apply (ch_meters _ Hc2).
  - assert (l ∉ dict_keys (co_started c2)) as Hn by (by intros ?%Hin).
    rewrite !(decide_False (P := l ∈ dict_keys (co_started c2))) by done. rewrite decide_False by naive_solver.
    apply dict_get_None in Hn. split; [done|]. by apply (ch_gone _ Hc2).
Qed.
End Restart.

(** ** A run *)

(** Device [1a] and site meter [2b]; the server moves the device's resources and
    offers a MirrorUsagePointList after the first start; a third device is removed. *)
Definition device_at (lfdi : digits) (base : string) : DeviceState :=
  mkDeviceState lfdi (Some 60) (Some (base +:+ "/log")) None (Some (base +:+ "/cap")) (Some (base +:+ "/set")) None.

Definition before_move : ClientState := mkClientState [device_at [1; 10] "/old"; device_at [3; 12] "/gone"] "".
Definition after_move : ClientState := mkClientState [device_at [1; 10] "/new"; device_at [3; 12] "/gone"] "/mup".

Definition site_roles : dict digits DeviceRoleConfig := [([2; 11], mkRole SITE_METER true under_site)].

Definition site_ops : list (@CoordOp (dict digits Registration)) :=
  [OpSetup before_move; OpStart before_move None; OpStop [3; 12]].

Lemma restart_follows_discovery_witness :
  let c := restart_device_telemetry (D := DerMgr Z Z) site_roles (Some [15]) None 300 after_move
             (after site_roles (Some [15]) None 300 [[1; 10]; [2; 11]; [3; 12]] site_ops) in
  metered c [1; 10] = Some (mkMetered (Some "/new/log") None DER false None) ∧
  metered c [2; 11] = Some (mkMetered None None SITE_METER true (Some [15])) ∧
  metered c [3; 12] = None ∧
  der_held c [1; 10] = Some (mkDerHrefs (Some "/new/cap") (Some "/new/set") None) ∧ der_held c [2; 11] = None.
Proof.
  pose proof (λ l, restart_follows_discovery (T := Manager) (D := DerMgr Z Z) site_roles (Some [15]) None 300
    [[1; 10]; [2; 11]; [3; 12]] site_ops after_move l) as Hr.
  assert (Forall hex_digits [[1; 10]; [2; 11]; [3; 12]]) as Hx by (repeat constructor; lia).
  assert (Forall op_hex site_ops) as Ho by (repeat constructor; lia).
  intros c. assert (is_Some (co_telemetry c) ∧ is_Some (co_der c)) as [Ht Hd]
    by (split; vm_compute; eexists; reflexivity).
  destruct (Hr [1; 10] Hx Ho ltac:(repeat constructor; lia)) as (_ & _ & H1 & H1').
  destruct (Hr [2; 11] Hx Ho ltac:(repeat constructor; lia)) as (_ & _ & H2 & H2').
  destruct (Hr [3; 12] Hx Ho ltac:(repeat constructor; lia)) as (_ & _ & H3 & _).
  refine (conj _ (conj _ (conj _ (conj _ _)))).
  - etrans; [exact (H1 Ht)|reflexivity].
  - etrans; [exact (H2 Ht)|reflexivity].
  - exact H3.
  - etrans; [exact (H1' Hd)|reflexivity].
  - etrans; [exact (H2' Hd)|reflexivity].
Defined.
