(* ===== verification/Http.v ===== *)
(** * Http: lists and statuses of client/http.py

    [get_list] reads a list page by page; and what the statuses of a response
    become, for a GET and for a write, and so for the retries of [Retry]. *)

From S2P Require Import Prelude Retry.
From Stdlib Require Import QArith.

#[local] Open Scope Z_scope.

(** ** Statuses *)

Record Response := { rs_status : Z; rs_location : option string; rs_retry_after : option Z }.

(** [_check_redirect_or_rate_limit]; a Retry-After that is no integer counts as
    none. *)
Definition check_redirect_or_rate_limit (r : Response) : option Failure :=
  if bool_decide (rs_status r ∈ [301; 302; 307; 308]) then
    Some (Sep2RedirectError (rs_status r) (Some (default "" (rs_location r))))
  else if rs_status r =? 429 then Some (Sep2RateLimitError (rs_retry_after r))
  else None.

(** What a response to a GET raises before its body is parsed. *)
Definition get_failure (r : Response) : option Failure :=
  match check_redirect_or_rate_limit r with
  | Some f => Some f
  | None =>
      if rs_status r =? 204 then Some (OtherError "Sep2NoContentError")
      else if rs_status r =? 200 then None else Some (OtherError "Sep2ProtocolError")
  end.

(** [_check_and_record_write] *)
Definition write_failure (ok_statuses : list Z) (r : Response) : option Failure :=
  if bool_decide (rs_status r ∈ ok_statuses) then None else Some (OtherError "Sep2ProtocolError").

Definition POST_STATUSES : list Z := [200; 201; 204].
Definition PUT_STATUSES : list Z := [200; 204].

(** ** Lists *)

Section Lists.
Context {Item : Type}.

Record Page := mkPage { pg_items : list Item; pg_all : Z; pg_results : Z }.

Inductive GetError := Sep2NoContentError | Sep2ProtocolError (status : Z) | OtherGetError.

Definition LIMIT : Z := 50.

(** What the server answers for the items from [start] on. *)
Context (get_page : Z → GetError + Page).

(** [None]: the fuel has run out. *)
Fixpoint get_pages (fuel : nat) (start : Z) : option (GetError + list Page) :=
  match fuel with
  | O => None
  | S fuel' =>
      match get_page start with
      | inl Sep2NoContentError => Some (if start =? 0 then inr [] else inl (Sep2ProtocolError 204))
      | inl (Sep2ProtocolError status) =>
          Some (if (status =? 404) && (start =? 0) then inr [] else inl (Sep2ProtocolError status))
      | inl e => Some (inl e)
      | inr page =>
          let start' := start + pg_results page in
          if (pg_all page <=? start') || (pg_results page =? 0) then Some (inr [page])
          else rest ← get_pages fuel' start';
               Some (match rest with inl e => inl e | inr pages => inr (page :: pages) end)
      end
  end.

Definition get_list (fuel : nat) : option (GetError + list Page) := get_pages fuel 0.
End Lists.
Arguments Page : clear implicits.

(** ** Reading a list *)

Section Whole.
Context {Item : Type} (get_page : Z → GetError + Page Item).

(** Every page but the last moves on, so that the number of items the server
    tells bounds the pages. *)
Lemma get_pages_end fuel start bound :
  (∀ s page, get_page s = inr page → 0 <= pg_results page ∧ pg_all page <= bound) →
  0 <= start → bound - start < Z.of_nat fuel → (0 < fuel)%nat → is_Some (get_pages get_page fuel start).
Proof.
  intros Hp. revert start. induction fuel as [|fuel IH]; intros start Hs Hf H0; [lia|]. cbn.
  destruct (get_page start) as [[]|page] eqn:E; [by eexists..|]. destruct (Hp _ _ E) as [Hr Ha].
  destruct ((pg_all page <=? start + pg_results page) || (pg_results page =? 0)) eqn:Ed; [by eexists|].
  destruct (IH (start + pg_results page)) as [x Hx]; [lia..|]. rewrite Hx. by eexists.
Qed.

(** A list that stays as it is, served in pages of at least one item. *)
Definition serves (items : list Item) : Prop :=
  ∀ s, 0 <= s → ∃ n, (s < Z.of_nat (length items) → 0 < n) ∧ 0 <= n ∧
    get_page s = inr (mkPage (take (Z.to_nat n) (drop (Z.to_nat s) items)) (Z.of_nat (length items))
                        (Z.of_nat (length (take (Z.to_nat n) (drop (Z.to_nat s) items))))).

Lemma get_pages_whole items fuel start :
  serves items → 0 <= start → Z.of_nat (length items) - start < Z.of_nat fuel → (0 < fuel)%nat →
  ∃ pages, get_pages get_page fuel start = Some (inr pages) ∧ mjoin (pg_items <$> pages) = drop (Z.to_nat start) items ∧
    (length pages <= Nat.max 1 (length items - Z.to_nat start))%nat.
Proof.
  intros Hserves. revert start. induction fuel as [|fuel IH]; intros start Hs Hf H0; [lia|]. cbn.
  destruct (Hserves start Hs) as (n & Hn & Hn0 & ->). cbn.
  set (k := length (take (Z.to_nat n) (drop (Z.to_nat start) items))).
  assert (k = Nat.min (Z.to_nat n) (length items - Z.to_nat start)) as Hk by (unfold k; rewrite length_take, length_drop; lia).
  clearbody k.
  destruct ((Z.of_nat (length items) <=? start + Z.of_nat k) || (Z.of_nat k =? 0)) eqn:Ed.
  - eexists. split; [done|]. split; [|cbn; lia]. cbn. rewrite app_nil_r. apply take_ge. rewrite length_drop.
    destruct (Z.le_gt_cases (Z.of_nat (length items)) start); [lia|]. specialize (Hn ltac:(lia)). lia.
  - destruct (IH (start + Z.of_nat k)) as (pages & Hpg & Hj & Hl); [lia..|]. rewrite Hpg. cbn.
    eexists. split; [done|]. split; [|cbn; lia].
    match goal with |- mjoin (pg_items <$> (?p :: pages)) = _ =>
      change (mjoin (pg_items <$> (p :: pages))) with (pg_items p ++ mjoin (pg_items <$> pages)) end.
    rewrite Hj. cbn [pg_items].
    replace (Z.to_nat (start + Z.of_nat k)) with (Z.to_nat start + k)%nat by lia.
    rewrite <- drop_drop. etrans; [|apply (take_drop (Z.to_nat n))]. f_equal.
    destruct (Nat.le_gt_cases (Z.to_nat n) (length items - Z.to_nat start)); [by replace k with (Z.to_nat n) by lia|].
    rewrite !drop_ge; [done|rewrite length_drop; lia..].
Qed.

(** C40: a list is read to its end.  Whatever a server answers, as long as the
    counts it tells are no negative ones and stay below a bound, [get_list] ends
    within as many requests; a list that is absent or empty at its first page is
    read as no pages, and no later page is taken for the end.  Of a list that
    stays as it is, in pages of any size, all items come, each once and in their
    order, with no more requests than there are items. *)
Theorem list_read_to_its_end (bound : nat) :
  ((∀ s page, get_page s = inr page → 0 <= pg_results page ∧ pg_all page <= Z.of_nat bound) →
     is_Some (get_list get_page (S bound))) ∧
  (get_page 0 = inl Sep2NoContentError ∨ get_page 0 = inl (Sep2ProtocolError 404) → get_list get_page (S bound) = Some (inr [])) ∧
  (∀ fuel start, 0 < start → get_pages get_page fuel start ≠ Some (inr [])) ∧
  (∀ items, serves items → length items = bound →
     ∃ pages, get_list get_page (S bound) = Some (inr pages) ∧ mjoin (pg_items <$> pages) = items ∧
       (length pages <= Nat.max 1 bound)%nat).
Proof.
  split_and!.
  - intros Hp. apply (get_pages_end _ _ (Z.of_nat bound)); [done|lia..].
  - unfold get_list. cbn. by intros [->| ->].
  - intros [|fuel] start Hs; [done|]. cbn. destruct (get_page start) as [[]|page]; cbn.
    1-3: repeat case_match; try done; lia.
    case_match; [done|]. destruct (get_pages get_page fuel _) as [[]|]; done.
  - intros items Hs <-. destruct (get_pages_whole items (S (length items)) 0) as (pages & H1 & H2 & H3); [done|lia..|].
    exists pages. split_and!; [done..|]. by rewrite Nat.sub_0_r in H3.
Qed.
End Whole.

(** ** Writes *)

(** A write that is answered 429 is given up at once, where a GET would wait as
    long as the server asks and try again. *)
Theorem rate_limited_write_not_retried (p : RetryPolicy) (seconds : Z) :
  1 < max_transient p → seconds ≠ 0 →
  let r := {| rs_status := 429; rs_location := None; rs_retry_after := Some seconds |} in
  (∃ f, write_failure POST_STATUSES r = Some f ∧ ∀ fuel rest,
     with_retry (A := unit) p (λ n, if decide (n = 0)%nat then inl f else rest n) (S fuel) 0 0 0 = Some (Reraised f, [])) ∧
  (∃ f, get_failure r = Some f ∧
     with_retry p (λ n, if decide (n = 0)%nat then inl f else inr tt) 2 0 0 0 = Some (Returned tt, [inject_Z seconds])).
Proof.
  intros Hm Hs r. split.
  - exists (OtherError "Sep2ProtocolError"). split; [reflexivity|]. intros fuel rest. reflexivity.
  - exists (Sep2RateLimitError (Some seconds)). split; [done|].
    assert ((max_transient p <=? 1) = false) as E by lia. assert ((seconds =? 0) = false) as E0 by lia.
    cbn. rewrite decide_True by done. cbn. change (Z.of_nat 1) with 1. rewrite E, (decide_False (P := (1 = 0)%nat)) by done.
    cbn. by rewrite E0.
Qed.

(** ** Samples *)

Definition sample_items : list nat := seq 0 120.
Definition sample_page (s : Z) : GetError + Page nat :=
  let l := take 50 (drop (Z.to_nat s) sample_items) in inr (mkPage l 120 (Z.of_nat (length l))).

Example sample_list_read :
  get_list sample_page 4 = Some (inr [mkPage (seq 0 50) 120 50; mkPage (seq 50 50) 120 50; mkPage (seq 100 20) 120 20]).
Proof. vm_compute. reflexivity. Qed.

Lemma sample_serves : serves sample_page sample_items.
Proof. intros s Hs. exists 50. split; [lia|]. split; [lia|]. reflexivity. Qed.

Lemma list_read_to_its_end_witness :
  ∃ pages, get_list sample_page 121 = Some (inr pages) ∧ mjoin (pg_items <$> pages) = sample_items ∧
    (length pages <= 120)%nat.
Proof. exact (proj2 (proj2 (proj2 (list_read_to_its_end sample_page 120))) sample_items sample_serves eq_refl). Defined.
