(* ===== verification/Walk.v ===== *)
(** * Walk: client/discovery.py

    Discovery walks the server's resources from the DeviceCapability down and
    fills the discovered state; the refreshes walk parts of them again.  What
    the server answers to each request is a function of the number of requests
    so far and of the href ([Server]); a walk runs in one piece.

    A list is read page by page by [get_list] ([Http]), so a list that is absent
    or empty at its first page has no pages here. *)

From S2P Require Import Prelude Controls Discovered Timebase Polling Randomization Response ProcState Tariff.

(** ** Answers *)

(** [Protocol 204] is also [Sep2NoContentError]; [Fault]: any other [Exception];
    [Cancelled] is none. *)
Inductive WalkError := Protocol (status : Z) | Payload | Fault | Cancelled.

Definition is_absent (status : Z) : bool := (status =? 404) || (status =? 204).
Definition is_exception (e : WalkError) : bool := match e with Cancelled => false | _ => true end.

(** [_extract_href]; an absent link and one without href are both [None]. *)
Definition extract_href (link : option string) : option string :=
  match link with Some EmptyString => None | _ => link end.

(** The resources, as far as discovery looks into them; links by their href. *)
Record Dcap := {
  dc_poll_rate : option Z;
  dc_time : option string;
  dc_self_device : option string;
  dc_mup_list : option string;
  dc_edev_list : option string;
  dc_derp_list : option string;
  dc_csipaus : bool;                     (* the body names csipaus *)
}.
Record TimeRes := { ti_time : option Z; ti_quality : option Z; ti_poll_rate : option Z }.
Record SelfDev := { sd_poll_rate : option Z; sd_subscribable : bool; sd_der_list : option string }.
Record Der := {
  der_settings : option string;
  der_capability : option string;
  der_status : option string;
  der_availability : option string;
  der_current_controls : option string;
  der_subscribable : bool;
}.
Record Fsa := {
  fs_href : option string;
  fs_derp_list : option string;
  fs_tariff_list : option string;
  fs_time : option string;
}.
Record EndDevice := {
  en_href : option string;
  en_lfdi : option bytes;
  en_log_events : option string;
  en_sub_list : option string;
  en_registration : option string;
  en_der_list : option string;
  en_fsa_list : option string;
}.
Record Derprogram := {
  pr_href : option string;
  pr_primacy : option Z;
  pr_default : option string;
  pr_control_list : option string;
  pr_curve_list : option string;
}.
Record RateComponent := { rr_href : option string; rr_tti_list : option string }.
Record TariffProfile := {
  tf_href : option string;
  tf_primacy : option Z;
  tf_currency : option Z;
  tf_multiplier : option Z;
  tf_rate_components : option string;
}.

(** A page of a list, with the attributes that are read of it. *)
Record WPage (A : Type) := mkWPage { wp_items : list A; wp_poll_rate : option Z; wp_subscribable : bool }.
Arguments mkWPage {A}.
Arguments wp_items {A}.
Arguments wp_poll_rate {A}.
Arguments wp_subscribable {A}.

Abbreviation Answer A := (nat → string → WalkError + A).
Abbreviation ListAnswer A := (Answer (list (WPage A))).

Class Server := {
  sv_dcap : Answer Dcap;
  sv_time : Answer TimeRes;
  sv_self_device : Answer SelfDev;
  sv_sub_rate : Answer (option Z);       (* the pollRate of a SubscriptionList *)
  sv_registration : Answer unit;
  sv_default : Answer (DefaultDercontrol * bool);   (* and subscribable *)
  sv_edevs : ListAnswer EndDevice;
  sv_ders : ListAnswer Der;
  sv_fsas : ListAnswer Fsa;
  sv_programs : ListAnswer Derprogram;
  sv_controls : ListAnswer Dercontrol;
  sv_curves : ListAnswer FieldVal;
  sv_tariffs : ListAnswer TariffProfile;
  sv_rates : ListAnswer RateComponent;
  sv_intervals : ListAnswer TariffInterval;
  sv_clock : nat → Clock;                (* when the answer comes *)
  sv_multi_der : bool;                   (* profile.allows_multi_der *)
  sv_extensions : option (list string);  (* profile.extensions *)
}.

(** ** The discovered state *)

Record DerHrefs := mkDerHrefs {
  dh_settings : option string;
  dh_capability : option string;
  dh_status : option string;
  dh_availability : option string;
  dh_current_controls : option string;
}.

Record SelfDeviceState := mkSelf {
  sf_device : SelfDev;
  sf_href : string;
  sf_ders : list Der;
  sf_der_hrefs : DerHrefs;               (* current_controls is not kept *)
  sf_der_subscribable : bool;
}.

(** [EndDeviceState] *)
Record Edev := mkEdev {
  es_device : EndDevice;
  es_lfdi : bytes;
  es_ders : list Der;
  es_der_hrefs : DerHrefs;
  es_fsas : list Fsa;                    (* fsa_list *)
  es_log_events : option string;
  es_registration : option string;
  es_sub_list : option string;
  es_fsa_list_subscribable : bool;
  es_derp_list_subscribable : bool;
}.

(** [DerProgramState], with the resource it was made of. *)
Record Prog := mkProg {
  pg_program : Derprogram;
  pg_state : DerProgramState;
  pg_derc_list_subscribable : bool;
  pg_dderc_subscribable : bool;
}.

Record RateFlags := { rf_tti_list : option string; rf_subscribable : bool }.

(** What a poll asks of the processors and of the client. *)
Inductive PollCall :=
| CancelProgram (href : string)
| ProcessControls (href : string)
| ProcessTariffs
| StructuralChange.

Record Found := mkFound {
  w_dcap : option Dcap;
  w_time : option TimeRes;
  w_time_href : option string;
  w_mup_list : option string;
  w_self_device : option SelfDeviceState;
  w_edevs : dict string Edev;
  w_programs : dict string Prog;
  w_mapping : DeviceMapping;
  w_poll_rates : dict string (option Z);
  w_csip_aus : bool;
  w_pricing : bool;                      (* pricing_enabled *)
  w_tariffs : dict string (TariffProfileState * list RateFlags);
  w_fsa_time : dict string (string * TimeRes);
  w_fsa_time_hrefs : dict string string;
  w_previous_fsas : dict string (gset string);
  (* of the client *)
  w_base : Timebase;
  w_prefixes : dict string string;       (* update_discovered_devices *)
  w_calls : list PollCall;
  w_tick : nat;                          (* requests so far *)
}.

Abbreviation W := (Comp WalkError Found).

Definition set_dcap v s :=
  mkFound (Some v) (w_time s) (w_time_href s) (w_mup_list s) (w_self_device s) (w_edevs s) (w_programs s) (w_mapping
    s) (w_poll_rates s) (w_csip_aus s) (w_pricing s) (w_tariffs s) (w_fsa_time s) (w_fsa_time_hrefs s)
    (w_previous_fsas s) (w_base s) (w_prefixes s) (w_calls s) (w_tick s).
Definition set_time h v s :=
  mkFound (w_dcap s) v h (w_mup_list s) (w_self_device s) (w_edevs s) (w_programs s) (w_mapping s) (w_poll_rates s)
    (w_csip_aus s) (w_pricing s) (w_tariffs s) (w_fsa_time s) (w_fsa_time_hrefs s) (w_previous_fsas s) (w_base s)
    (w_prefixes s) (w_calls s) (w_tick s).
Definition set_mup_list v s :=
  mkFound (w_dcap s) (w_time s) (w_time_href s) v (w_self_device s) (w_edevs s) (w_programs s) (w_mapping s)
    (w_poll_rates s) (w_csip_aus s) (w_pricing s) (w_tariffs s) (w_fsa_time s) (w_fsa_time_hrefs s) (w_previous_fsas
    s) (w_base s) (w_prefixes s) (w_calls s) (w_tick s).
Definition set_self_device v s :=
  mkFound (w_dcap s) (w_time s) (w_time_href s) (w_mup_list s) v (w_edevs s) (w_programs s) (w_mapping s)
    (w_poll_rates s) (w_csip_aus s) (w_pricing s) (w_tariffs s) (w_fsa_time s) (w_fsa_time_hrefs s) (w_previous_fsas
    s) (w_base s) (w_prefixes s) (w_calls s) (w_tick s).
Definition set_edevs v s :=
  mkFound (w_dcap s) (w_time s) (w_time_href s) (w_mup_list s) (w_self_device s) v (w_programs s) (w_mapping s)
    (w_poll_rates s) (w_csip_aus s) (w_pricing s) (w_tariffs s) (w_fsa_time s) (w_fsa_time_hrefs s) (w_previous_fsas
    s) (w_base s) (w_prefixes s) (w_calls s) (w_tick s).
Definition set_programs v s :=
  mkFound (w_dcap s) (w_time s) (w_time_href s) (w_mup_list s) (w_self_device s) (w_edevs s) v (w_mapping s)
    (w_poll_rates s) (w_csip_aus s) (w_pricing s) (w_tariffs s) (w_fsa_time s) (w_fsa_time_hrefs s) (w_previous_fsas
    s) (w_base s) (w_prefixes s) (w_calls s) (w_tick s).
Definition set_mapping v s :=
  mkFound (w_dcap s) (w_time s) (w_time_href s) (w_mup_list s) (w_self_device s) (w_edevs s) (w_programs s) v
    (w_poll_rates s) (w_csip_aus s) (w_pricing s) (w_tariffs s) (w_fsa_time s) (w_fsa_time_hrefs s) (w_previous_fsas
    s) (w_base s) (w_prefixes s) (w_calls s) (w_tick s).
Definition set_poll_rates v s :=
  mkFound (w_dcap s) (w_time s) (w_time_href s) (w_mup_list s) (w_self_device s) (w_edevs s) (w_programs s)
    (w_mapping s) v (w_csip_aus s) (w_pricing s) (w_tariffs s) (w_fsa_time s) (w_fsa_time_hrefs s) (w_previous_fsas
    s) (w_base s) (w_prefixes s) (w_calls s) (w_tick s).
Definition set_csip_aus v s :=
  mkFound (w_dcap s) (w_time s) (w_time_href s) (w_mup_list s) (w_self_device s) (w_edevs s) (w_programs s)
    (w_mapping s) (w_poll_rates s) v (w_pricing s) (w_tariffs s) (w_fsa_time s) (w_fsa_time_hrefs s)
    (w_previous_fsas s) (w_base s) (w_prefixes s) (w_calls s) (w_tick s).
Definition set_tariffs v s :=
  mkFound (w_dcap s) (w_time s) (w_time_href s) (w_mup_list s) (w_self_device s) (w_edevs s) (w_programs s)
    (w_mapping s) (w_poll_rates s) (w_csip_aus s) (w_pricing s) v (w_fsa_time s) (w_fsa_time_hrefs s)
    (w_previous_fsas s) (w_base s) (w_prefixes s) (w_calls s) (w_tick s).
Definition set_fsa_times t h s :=
  mkFound (w_dcap s) (w_time s) (w_time_href s) (w_mup_list s) (w_self_device s) (w_edevs s) (w_programs s)
    (w_mapping s) (w_poll_rates s) (w_csip_aus s) (w_pricing s) (w_tariffs s) t h (w_previous_fsas s) (w_base s)
    (w_prefixes s) (w_calls s) (w_tick s).
Definition set_previous_fsas v s :=
  mkFound (w_dcap s) (w_time s) (w_time_href s) (w_mup_list s) (w_self_device s) (w_edevs s) (w_programs s)
    (w_mapping s) (w_poll_rates s) (w_csip_aus s) (w_pricing s) (w_tariffs s) (w_fsa_time s) (w_fsa_time_hrefs s) v
    (w_base s) (w_prefixes s) (w_calls s) (w_tick s).
Definition set_base v s :=
  mkFound (w_dcap s) (w_time s) (w_time_href s) (w_mup_list s) (w_self_device s) (w_edevs s) (w_programs s)
    (w_mapping s) (w_poll_rates s) (w_csip_aus s) (w_pricing s) (w_tariffs s) (w_fsa_time s) (w_fsa_time_hrefs s)
    (w_previous_fsas s) v (w_prefixes s) (w_calls s) (w_tick s).
Definition set_prefixes v s :=
  mkFound (w_dcap s) (w_time s) (w_time_href s) (w_mup_list s) (w_self_device s) (w_edevs s) (w_programs s)
    (w_mapping s) (w_poll_rates s) (w_csip_aus s) (w_pricing s) (w_tariffs s) (w_fsa_time s) (w_fsa_time_hrefs s)
    (w_previous_fsas s) (w_base s) v (w_calls s) (w_tick s).
Definition set_calls v s :=
  mkFound (w_dcap s) (w_time s) (w_time_href s) (w_mup_list s) (w_self_device s) (w_edevs s) (w_programs s)
    (w_mapping s) (w_poll_rates s) (w_csip_aus s) (w_pricing s) (w_tariffs s) (w_fsa_time s) (w_fsa_time_hrefs s)
    (w_previous_fsas s) (w_base s) (w_prefixes s) v (w_tick s).
Definition set_requests v s :=
  mkFound (w_dcap s) (w_time s) (w_time_href s) (w_mup_list s) (w_self_device s) (w_edevs s) (w_programs s)
    (w_mapping s) (w_poll_rates s) (w_csip_aus s) (w_pricing s) (w_tariffs s) (w_fsa_time s) (w_fsa_time_hrefs s)
    (w_previous_fsas s) (w_base s) (w_prefixes s) (w_calls s) v.

(** [DiscoveredState.clear] *)
Definition clear_found (s : Found) : Found :=
  mkFound None None None None None [] [] empty_mapping [] false (w_pricing s) [] [] [] [] (w_base s) (w_prefixes s)
    (w_calls s) (w_tick s).

Definition new_found (pricing : bool) (base : Timebase) : Found :=
  mkFound None None None None None [] [] empty_mapping [] false pricing [] [] [] [] base [] [] 0.

(** What the event engine reads of it. *)
Definition disc_of (s : Found) : DiscoveredState :=
  mkDisc ((λ kv, (kv.1, {| ed_href := kv.1; ed_lfdi := es_lfdi kv.2 |})) <$> w_edevs s)
    ((λ kv, (kv.1, pg_state kv.2)) <$> w_programs s) (w_mapping s).

(** The programs seen, and the FSAs whose list broke off. *)
Abbreviation Seen := (gset string * gset (option string))%type.

(** ** The walk *)

Section Walk.
Context `{Server}.

Definition fetch {A} (answer : Answer A) (href : string) : W A :=
  λ s, (answer (w_tick s) href, set_requests (S (w_tick s)) s).

(** [try: m except ...], with the handler's [raise] for what it lets through. *)
Definition try_ {A} (m : W A) (handler : WalkError → W A) : W A :=
  λ s, match m s with
       | (inl e, s') => handler e s'
       | r => r
       end.

(** A [for] loop that carries a local value. *)
Fixpoint fold_each {A B} (l : list A) (b : B) (f : A → B → W B) : W B :=
  match l with
  | [] => ret b
  | x :: l' => b' <- f x b ;; fold_each l' b' f
  end.

Definition observe_time (fsa : option string) (href : string) (t : TimeRes) : W unit :=
  modify (λ s, set_base (observe_time_resource (sv_clock (w_tick s)) (ti_time t) (ti_quality t) fsa href (w_base s)) s).

(** [if key not in state.poll_rates and rate is not None: ...] *)
Definition first_rate (key : string) (rate : option Z) : W unit :=
  modify (λ s, if dict_mem key (w_poll_rates s) then s
               else match rate with
                    | Some _ => set_poll_rates (dict_set key (normalize_poll_rate rate DEFAULT_POLL_RATE) (w_poll_rates s)) s
                    | None => s
                    end).

(** *** DERs *)

Definition first_href (links : list (option string)) : option string := head (omap extract_href links).

Definition der_child_hrefs (ders : list Der) : DerHrefs :=
  let candidates := if sv_multi_der then ders else take 1 ders in
  mkDerHrefs (first_href (der_settings <$> candidates)) (first_href (der_capability <$> candidates))
    (first_href (der_status <$> candidates)) (first_href (der_availability <$> candidates))
    (first_href (der_current_controls <$> candidates)).

Definition no_hrefs : DerHrefs := mkDerHrefs None None None None None.
Definition items {A} (pages : list (WPage A)) : list A := mjoin (wp_items <$> pages).
Definition any_subscribable {A} (pages : list (WPage A)) : bool := existsb wp_subscribable pages.

(** [except Sep2ProtocolError / Sep2PayloadError]: the default. *)
Definition contained {A} (a : A) (e : WalkError) : W A :=
  match e with Protocol _ | Payload => ret a | _ => raise e end.

Definition discover_self_device (dcap : Dcap) : W (option SelfDeviceState) :=
  match extract_href (dc_self_device dcap) with
  | None => ret None
  | Some href =>
      sdev <- try_ (d <- fetch sv_self_device href ;; ret (Some d)) (contained None) ;;
      match sdev with
      | None => ret None
      | Some d =>
          let bare := mkSelf d href [] no_hrefs false in
          match extract_href (sd_der_list d) with
          | None => ret (Some bare)
          | Some der_href =>
              try_ (pages <- fetch sv_ders der_href ;;
                    match pages with
                    | [] => ret (Some bare)
                    | _ => let ders := items pages in
                           ret (Some (mkSelf d href ders (der_child_hrefs ders)
                                        (from_option der_subscribable false (head ders))))
                    end) (contained (Some bare))
          end
      end
  end.

(** *** Programs *)

Definition verify_registration (reg_href : string) : W unit :=
  try_ (fetch sv_registration reg_href)
    (λ e, match e with
          | Protocol status => if is_absent status then ret tt else raise e
          | _ => raise e
          end).

Definition fetch_default (href : string) : W (option DefaultDercontrol * bool) :=
  try_ (d <- fetch sv_default href ;; ret (Some d.1, d.2))
    (λ e, match e with
          | Protocol status => if is_absent status then ret (None, false) else raise e
          | Payload => ret (None, false)
          | _ => raise e
          end).

(** [except Sep2PayloadError ... except Exception]: the default. *)
Definition skipped {A} (a : A) (e : WalkError) : W A := if is_exception e then ret a else raise e.

Definition discover_program (derp : Derprogram) (href : string) (fsa : option string) : W Prog :=
  dderc <- match extract_href (pr_default derp) with
           | None => ret (None, false)
           | Some h => fetch_default h
           end ;;
  derc <- match extract_href (pr_control_list derp) with
          | None => ret ([], false, false)
          | Some h => try_ (pages <- fetch sv_controls h ;; ret (items pages, any_subscribable pages, true))
                        (skipped ([], false, false))
          end ;;
  curves <- match extract_href (pr_curve_list derp) with
            | None => ret []
            | Some h => try_ (pages <- fetch sv_curves h ;; ret (items pages)) (skipped [])
            end ;;
  ret (mkProg derp
         {| ps_href := href; ps_primacy := default 0 (pr_primacy derp); ps_default := dderc.1; ps_controls := derc.1.1;
            ps_curves := curves; ps_fsa := fsa; ps_controls_complete := derc.2;
            ps_control_list_link := pr_control_list derp; ps_default_link := pr_default derp |}
         derc.1.2 dderc.2).

(** One entry of a DERProgramList; the mapping is a local of [discover]. *)
Definition discover_entry (edev_href : string) (fsa : option string) (derp : Derprogram) (m : DeviceMapping)
    : W DeviceMapping :=
  match extract_href (pr_href derp) with
  | None => ret m
  | Some href =>
      let m := mapping_add href edev_href m in
      known <- get (λ s, dict_mem href (w_programs s)) ;;
      if (known : bool) then ret m
      else ps <- discover_program derp href fsa ;;
           modify (λ s, set_programs (dict_set href ps (w_programs s)) s) ;;; ret m
  end.

Definition discover_programs_from_pages (pages : list (WPage Derprogram)) (edev_href : string) (fsa : option string)
    (m : DeviceMapping) : W DeviceMapping :=
  fold_each pages m (λ page m,
    first_rate "derp" (wp_poll_rate page) ;;;
    fold_each (wp_items page) m (discover_entry edev_href fsa)).

(** *** Tariffs *)

Definition discover_rate_component (rc : RateComponent) (href : string) : W (RateComponentState * RateFlags) :=
  match extract_href (rr_tti_list rc) with
  | None => ret ({| rc_href := href; rc_intervals := [] |}, {| rf_tti_list := None; rf_subscribable := false |})
  | Some h =>
      r <- try_ (pages <- fetch sv_intervals h ;; ret (items pages, any_subscribable pages)) (skipped ([], false)) ;;
      ret ({| rc_href := href; rc_intervals := r.1 |}, {| rf_tti_list := Some h; rf_subscribable := r.2 |})
  end.

Definition discover_rate_components (l : list RateComponent) : W (list (RateComponentState * RateFlags)) :=
  map_each (omap (λ rc, (λ h, (rc, h)) <$> extract_href (rr_href rc)) l) (λ rch, discover_rate_component rch.1 rch.2).

Definition discover_tariff_profile (tp : TariffProfile) (href : string) (fsa : option string)
    : W (TariffProfileState * list RateFlags) :=
  rcs <- match extract_href (tf_rate_components tp) with
         | None => ret []
         | Some h => try_ (pages <- fetch sv_rates h ;; discover_rate_components (items pages)) (skipped [])
         end ;;
  ret ({| tp_href := href; tp_primacy := default 0 (tf_primacy tp); tp_currency := tf_currency tp;
          tp_multiplier := tf_multiplier tp; tp_rate_components := rcs.*1; tp_fsa := fsa |}, rcs.*2).

Definition discover_tariffs_for_fsa (fsa : Fsa) : W unit :=
  match extract_href (fs_tariff_list fsa) with
  | None => ret tt
  | Some h =>
      pages <- try_ (fetch sv_tariffs h)
                 (λ e, match e with
                       | Protocol status => if is_absent status then ret [] else raise e
                       | Payload => ret []
                       | _ => raise e
                       end) ;;
      for_each pages (λ page,
        first_rate "tariff" (wp_poll_rate page) ;;;
        for_each (wp_items page) (λ tp,
          match extract_href (tf_href tp) with
          | None => ret tt
          | Some href =>
              known <- get (λ s, dict_mem href (w_tariffs s)) ;;
              if (known : bool) then ret tt
              else p <- discover_tariff_profile tp href (fs_href fsa) ;;
                   modify (λ s, set_tariffs (dict_set href p (w_tariffs s)) s)
          end))
  end.

(** *** Devices *)

(** [except Sep2ProtocolError: if _paging_fault(exc) ... else raise]: the list
    counts as empty. *)
Definition paged {A} (e : WalkError) : W (option A) :=
  match e with
  | Protocol status => if is_absent status then ret None else raise e
  | _ => raise e
  end.
Definition fetch_paged {A} (answer : Answer A) (href : string) : W (option A) :=
  try_ (pages <- fetch answer href ;; ret (Some pages)) paged.

(** The Time of an FSA: its href is on record before it is read. *)
Definition discover_fsa_time (fsa : Fsa) : W unit :=
  match extract_href (fs_time fsa), extract_href (fs_href fsa) with
  | Some time_href, Some fsa_href =>
      modify (λ s, set_fsa_times (w_fsa_time s) (dict_set fsa_href time_href (w_fsa_time_hrefs s)) s) ;;;
      known <- get (λ s, dict_mem fsa_href (w_fsa_time s)) ;;
      if (known : bool) then ret tt
      else
        t <- fetch_paged sv_time time_href ;;
        match t with
        | None => ret tt
        | Some t =>
            modify (λ s, set_fsa_times (dict_set fsa_href (time_href, t) (w_fsa_time s)) (w_fsa_time_hrefs s) s) ;;;
            observe_time (Some fsa_href) time_href t
        end
  | _, _ => ret tt
  end.

Definition add_fsa (fsa : Fsa) (e : Edev) : Edev :=
  mkEdev (es_device e) (es_lfdi e) (es_ders e) (es_der_hrefs e) (es_fsas e ++ [fsa]) (es_log_events e)
    (es_registration e) (es_sub_list e) (es_fsa_list_subscribable e) (es_derp_list_subscribable e).
Definition set_fsas (fsas : list Fsa) (e : Edev) : Edev :=
  mkEdev (es_device e) (es_lfdi e) (es_ders e) (es_der_hrefs e) fsas (es_log_events e)
    (es_registration e) (es_sub_list e) (es_fsa_list_subscribable e) (es_derp_list_subscribable e).
Definition set_fsa_flags (fsa_list derp_list : bool) (e : Edev) : Edev :=
  mkEdev (es_device e) (es_lfdi e) (es_ders e) (es_der_hrefs e) (es_fsas e) (es_log_events e) (es_registration e)
    (es_sub_list e) fsa_list derp_list.
Definition set_ders (ders : list Der) (hrefs : DerHrefs) (e : Edev) : Edev :=
  mkEdev (es_device e) (es_lfdi e) ders hrefs (es_fsas e) (es_log_events e) (es_registration e) (es_sub_list e)
    (es_fsa_list_subscribable e) (es_derp_list_subscribable e).
Definition with_device (device : EndDevice) (e : Edev) : Edev :=
  mkEdev device (default "" (en_lfdi device)) (es_ders e) (es_der_hrefs e) (es_fsas e) (es_log_events e)
    (es_registration e) (es_sub_list e) (es_fsa_list_subscribable e) (es_derp_list_subscribable e).

(** One FSA of a device, with the device's state and the mapping as locals. *)
Definition discover_fsa (edev_href : string) (fsa : Fsa) (em : Edev * DeviceMapping) : W (Edev * DeviceMapping) :=
  let e := add_fsa fsa em.1 in
  pricing <- get w_pricing ;;
  when pricing (discover_tariffs_for_fsa fsa) ;;;
  match extract_href (fs_derp_list fsa) with
  | None => ret (e, em.2)
  | Some h =>
      pages <- fetch_paged sv_programs h ;;
      match pages with
      | None => ret (e, em.2)
      | Some pages =>
          let e := set_fsa_flags (es_fsa_list_subscribable e) (es_derp_list_subscribable e || any_subscribable pages) e in
          m <- discover_programs_from_pages pages edev_href (fs_href fsa) em.2 ;;
          discover_fsa_time fsa ;;;
          ret (e, m)
      end
  end.

Definition discover_fsa_list (edev_href : string) (em : Edev * DeviceMapping) : W (Edev * DeviceMapping) :=
  match extract_href (en_fsa_list (es_device em.1)) with
  | None => ret em
  | Some h =>
      pages <- fetch_paged sv_fsas h ;;
      fold_each (default [] pages) em (λ page em,
        first_rate "fsa" (wp_poll_rate page) ;;;
        let e := set_fsa_flags (es_fsa_list_subscribable em.1 || wp_subscribable page) (es_derp_list_subscribable em.1) em.1 in
        fold_each (wp_items page) (e, em.2) (discover_fsa edev_href))
  end.

Definition discover_der_list (e : Edev) : W Edev :=
  match extract_href (en_der_list (es_device e)) with
  | None => ret e
  | Some h => try_ (pages <- fetch sv_ders h ;;
                    ret (set_ders (items pages) (der_child_hrefs (items pages)) e)) (contained e)
  end.

(** The pollRate of the first SubscriptionList there is. *)
Definition discover_sub_rate (e : EndDevice) : W unit :=
  match extract_href (en_sub_list e) with
  | None => ret tt
  | Some h =>
      known <- get (λ s, dict_mem "sub" (w_poll_rates s)) ;;
      if (known : bool) then ret tt
      else try_ (rate <- fetch sv_sub_rate h ;;
                 modify (λ s, set_poll_rates (dict_set "sub" (normalize_poll_rate rate DEFAULT_POLL_RATE)
                                                (w_poll_rates s)) s)) (skipped tt)
  end.

(** [{fsa.href for fsa in fsa_list if fsa.href}] *)
Definition fsa_hrefs (fsas : list Fsa) : gset string := list_to_set (omap (λ f, extract_href (fs_href f)) fsas).

(** The programs of the DeviceCapability, for a device without FSAs. *)
Definition discover_fallback (dcap : Dcap) (edev_href : string) (fsas : list Fsa) (m : DeviceMapping) : W DeviceMapping :=
  match fsas, extract_href (dc_derp_list dcap) with
  | [], Some h =>
      try_ (pages <- fetch sv_programs h ;; discover_programs_from_pages pages edev_href None m)
        (λ e, match e with
              | Protocol status => if is_absent status then ret m else raise e
              | _ => raise e
              end)
  | _, _ => ret m
  end.

Definition new_edev (e : EndDevice) : Edev :=
  mkEdev e (default "" (en_lfdi e)) [] no_hrefs [] (extract_href (en_log_events e)) (extract_href (en_registration e))
    (extract_href (en_sub_list e)) false false.

Definition discover_end_device (pins : list string) (dcap : Dcap) (device : EndDevice) (m : DeviceMapping)
    : W DeviceMapping :=
  match extract_href (en_href device) with
  | None => ret m
  | Some href =>
      discover_sub_rate device ;;;
      e <- discover_der_list (new_edev device) ;;
      em <- discover_fsa_list href (e, m) ;;
      m <- discover_fallback dcap href (es_fsas em.1) em.2 ;;
      modify (λ s, set_previous_fsas (dict_set href (fsa_hrefs (es_fsas em.1)) (w_previous_fsas s)) s) ;;;
      match es_registration em.1 with
      | Some reg => when (bool_decide (hex (es_lfdi em.1) ∈ pins)) (verify_registration reg)
      | None => ret tt
      end ;;;
      modify (λ s, set_edevs (dict_set href em.1 (w_edevs s)) s) ;;;
      ret m
  end.

(** *** The whole *)

Definition set_time_poll_rate (s : Found) : Found :=
  match w_time_href s, w_fsa_time_hrefs s with
  | None, [] => s
  | _, _ =>
      let asked := ((λ ht, ti_poll_rate ht.2) <$> dict_values (w_fsa_time s)) ++
                   match w_time s with Some t => [ti_poll_rate t] | None => [] end in
      let rates := filter (λ r, 0 < r)%Z (omap id asked) in
      let shortest := match rates with [] => None | r :: rs => Some (foldl Z.min r rs) end in
      let fallback := match dict_get "dcap" (w_poll_rates s) with Some (Some r) => r | _ => DEFAULT_POLL_RATE end in
      set_poll_rates (dict_set "time" (normalize_poll_rate shortest fallback) (w_poll_rates s)) s
  end.

Definition register_device_prefixes (s : Found) : Found :=
  set_prefixes ((λ he, (he.1, hex (es_lfdi he.2))) <$> filter (λ he, es_lfdi he.2 ≠ "") (w_edevs s)) s.

(** With programs and no rate of theirs, that of the DeviceCapability. *)
Definition set_derp_poll_rate (s : Found) : Found :=
  match w_programs s with
  | [] => s
  | _ => if dict_mem "derp" (w_poll_rates s) then s
         else
           let fallback := match dict_get "dcap" (w_poll_rates s) with Some (Some r) => r | _ => DEFAULT_POLL_RATE end in
           set_poll_rates (dict_set "derp" (normalize_poll_rate None fallback) (w_poll_rates s)) s
  end.

Definition discover_end_devices (pins : list string) (dcap : Dcap) (h : string) : W DeviceMapping :=
  pages <- fetch sv_edevs h ;;
  fold_each pages empty_mapping (λ page m,
    first_rate "edev" (wp_poll_rate page) ;;;
    fold_each (wp_items page) m (discover_end_device pins dcap)).

Definition discover (pins : list string) (dcap_path : string) : W unit :=
  modify clear_found ;;;
  dcap <- fetch sv_dcap dcap_path ;;
  modify (set_dcap dcap) ;;;
  modify (λ s, set_poll_rates (dict_set "dcap" (normalize_poll_rate (dc_poll_rate dcap) DEFAULT_POLL_RATE)
                                 (w_poll_rates s)) s) ;;;
  modify (set_csip_aus match sv_extensions with
                       | Some extensions => negb (bool_decide (extensions = []))
                       | None => dc_csipaus dcap
                       end) ;;;
  match extract_href (dc_time dcap) with
  | None => ret tt
  | Some h =>
      modify (set_time (Some h) None) ;;;
      t <- fetch sv_time h ;;
      modify (set_time (Some h) (Some t)) ;;;
      observe_time None h t
  end ;;;
  self <- discover_self_device dcap ;;
  modify (set_self_device self) ;;;
  match self with
  | None => ret tt
  | Some d => modify (λ s, set_poll_rates (dict_set "sdev" (normalize_poll_rate (sd_poll_rate (sf_device d))
                                                              DEFAULT_POLL_RATE) (w_poll_rates s)) s)
  end ;;;
  modify (set_mup_list (extract_href (dc_mup_list dcap))) ;;;
  match extract_href (dc_edev_list dcap) with
  | None => modify (λ s, register_device_prefixes (set_time_poll_rate s))
  | Some h =>
      m <- discover_end_devices pins dcap h ;;
      modify (λ s, register_device_prefixes (set_time_poll_rate (set_derp_poll_rate (set_mapping m s))))
  end.

(** ** The refreshes *)

Definition on_program (href : string) (f : Prog → Prog) (s : Found) : Found :=
  match dict_get href (w_programs s) with
  | Some p => set_programs (dict_set href (f p) (w_programs s)) s
  | None => s
  end.

Definition with_state (f : DerProgramState → DerProgramState) (p : Prog) : Prog :=
  mkProg (pg_program p) (f (pg_state p)) (pg_derc_list_subscribable p) (pg_dderc_subscribable p).
Definition set_default (d : option DefaultDercontrol) (p : DerProgramState) : DerProgramState :=
  {| ps_href := ps_href p; ps_primacy := ps_primacy p; ps_default := d; ps_controls := ps_controls p;
     ps_curves := ps_curves p; ps_fsa := ps_fsa p; ps_controls_complete := ps_controls_complete p;
     ps_control_list_link := ps_control_list_link p; ps_default_link := ps_default_link p |}.
Definition set_curves (curves : list FieldVal) (p : DerProgramState) : DerProgramState :=
  {| ps_href := ps_href p; ps_primacy := ps_primacy p; ps_default := ps_default p; ps_controls := ps_controls p;
     ps_curves := curves; ps_fsa := ps_fsa p; ps_controls_complete := ps_controls_complete p;
     ps_control_list_link := ps_control_list_link p; ps_default_link := ps_default_link p |}.
Definition set_controls (controls : list Dercontrol) (p : DerProgramState) : DerProgramState :=
  {| ps_href := ps_href p; ps_primacy := ps_primacy p; ps_default := ps_default p; ps_controls := controls;
     ps_curves := ps_curves p; ps_fsa := ps_fsa p; ps_controls_complete := true;
     ps_control_list_link := ps_control_list_link p; ps_default_link := ps_default_link p |}.

(** What a refresh makes of an error: a 404 or 204 is [absent], any other status
    and a cancellation are raised, and any other [Exception] keeps what is held. *)
Definition refreshed {A} (answer : Answer A) (href : string) (store : A → Found → Found) (absent : Found → Found)
    : W unit :=
  try_ (a <- fetch answer href ;; modify (store a))
    (λ e, match e with
          | Protocol status => if is_absent status then modify absent else raise e
          | Payload | Fault => ret tt
          | Cancelled => raise e
          end).

Definition refresh_default (href : string) (derp : Derprogram) : W unit :=
  let store d := on_program href (with_state (set_default d)) in
  match extract_href (pr_default derp) with
  | None => modify (store None)
  | Some h => refreshed sv_default h (λ d, store (Some d.1)) (store None)
  end.

Definition refresh_curves_for_program (href : string) (derp : Derprogram) : W unit :=
  let store l := on_program href (with_state (set_curves l)) in
  match extract_href (pr_curve_list derp) with
  | None => modify (store [])
  | Some h => refreshed sv_curves h (λ pages, store (items pages)) id
  end.

Definition refresh_control_list (href : string) (derp : Derprogram) : W unit :=
  match extract_href (pr_control_list derp) with
  | None => ret tt
  | Some h => refreshed sv_controls h (λ pages, on_program href (with_state (set_controls (items pages)))) id
  end.

(** The body of [refresh_der_controls] and of [refresh_der_controls_for_program]. *)
Definition refresh_program (href : string) (derp : Derprogram) : W unit :=
  refresh_default href derp ;;; refresh_curves_for_program href derp ;;; refresh_control_list href derp.

Definition refresh_der_controls : W unit :=
  programs <- get w_programs ;;
  for_each programs (λ hp, refresh_program hp.1 (pg_program hp.2)).

Definition refresh_der_controls_for_program (href : string) : W bool :=
  p <- get (λ s, dict_get href (w_programs s)) ;;
  match p with
  | None => ret false
  | Some p => refresh_program href (pg_program p) ;;; ret true
  end.

Definition update_device (device : EndDevice) (s : Found) : Found :=
  match extract_href (en_href device) with
  | None => s
  | Some href =>
      match dict_get href (w_edevs s) with
      | Some e => set_edevs (dict_set href (with_device device e) (w_edevs s)) s
      | None => s
      end
  end.

Definition refresh_end_device_lists : W unit :=
  dcap <- get w_dcap ;;
  match dcap ≫= λ d, extract_href (dc_edev_list d) with
  | None => ret tt
  | Some h =>
      pages <- try_ (pages <- fetch sv_edevs h ;; ret (Some pages))
                 (λ e, match e with Protocol _ => ret None | _ => raise e end) ;;
      match pages with
      | None => ret tt
      | Some pages => modify (λ s, register_device_prefixes (foldl (λ s d, update_device d s) s (items pages)))
      end
  end.

(** What goes with an FSA that is not listed any more. *)
Definition forget_fsa_of (fsa : string) (s : Found) : Found :=
  set_base (forget_fsa fsa (w_base s))
    (set_fsa_times (dict_del fsa (w_fsa_time s)) (dict_del fsa (w_fsa_time_hrefs s)) s).

Definition fsas_read (edev_href : string) (fsas : list Fsa) (removed : list string) : W (list string) :=
  modify (λ s, match dict_get edev_href (w_edevs s) with
               | Some e => set_edevs (dict_set edev_href (set_fsas fsas e) (w_edevs s)) s
               | None => s
               end) ;;;
  gone <- get (λ s, elements (default ∅ (dict_get edev_href (w_previous_fsas s)) ∖ fsa_hrefs fsas)) ;;
  removed <- fold_each gone removed (λ fsa removed,
    programs <- get (λ s, programs_from_fsa fsa (disc_of s)) ;;
    modify (forget_fsa_of fsa) ;;;
    ret (removed ++ programs)) ;;
  modify (λ s, set_previous_fsas (dict_set edev_href (fsa_hrefs fsas) (w_previous_fsas s)) s) ;;;
  ret removed.

Definition refresh_function_set_assignments (skip : gset string) : W (list string) :=
  edevs <- get w_edevs ;;
  fold_each edevs [] (λ he removed,
    match extract_href (en_fsa_list (es_device he.2)) with
    | None => ret removed
    | Some h =>
        if decide (h ∈ skip) then ret removed
        else
          pages <- fetch_paged sv_fsas h ;;
          match pages with
          | None => ret removed
          | Some pages => fsas_read he.1 (items pages) removed
          end
    end).

Definition refresh_tariffs : W unit :=
  pricing <- get w_pricing ;;
  when pricing
    (modify (set_tariffs []) ;;;
     edevs <- get w_edevs ;;
     for_each edevs (λ he, for_each (es_fsas he.2) discover_tariffs_for_fsa)).

Definition set_resource (derp : Derprogram) (p : Prog) : Prog :=
  let st := pg_state p in
  mkProg derp
    {| ps_href := ps_href st; ps_primacy := default 0 (pr_primacy derp); ps_default := ps_default st;
       ps_controls := ps_controls st; ps_curves := ps_curves st; ps_fsa := ps_fsa st;
       ps_controls_complete := ps_controls_complete st; ps_control_list_link := pr_control_list derp;
       ps_default_link := pr_default derp |}
    (pg_derc_list_subscribable p) (pg_dderc_subscribable p).

Definition refresh_entry (edev_href : string) (fsa : option string) (derp : Derprogram) (seen : Seen) : W Seen :=
  match extract_href (pr_href derp) with
  | None => ret seen
  | Some href =>
      modify (λ s, set_mapping (mapping_add href edev_href (w_mapping s)) s) ;;;
      known <- get (λ s, dict_mem href (w_programs s)) ;;
      (if (known : bool) then modify (on_program href (set_resource derp))
       else ps <- discover_program derp href fsa ;;
            modify (λ s, set_programs (dict_set href ps (w_programs s)) s)) ;;;
      ret (seen.1 ∪ {[href]}, seen.2)
  end.

Definition refresh_fsa_programs (edev_href : string) (fsa : Fsa) (seen : Seen) : W Seen :=
  match extract_href (fs_derp_list fsa) with
  | None => ret seen
  | Some h =>
      pages <- fetch_paged sv_programs h ;;
      match pages with
      | None => ret (seen.1, seen.2 ∪ {[fs_href fsa]})
      | Some pages => fold_each (items pages) seen (refresh_entry edev_href (fs_href fsa))
      end
  end.

Definition stale (seen : Seen) (hp : string * Prog) : Prop :=
  hp.1 ∉ seen.1 ∧ ps_fsa (pg_state hp.2) ∉ seen.2.
#[export] Instance stale_dec seen hp : base.Decision (stale seen hp).
Proof. unfold stale. apply _. Defined.

Definition prune_programs (removed : list string) (s : Found) : Found :=
  foldl (λ s h, set_mapping (mapping_remove_program h (w_mapping s))
                  (set_programs (dict_del h (w_programs s)) s)) s removed.

Definition refresh_der_programs : W (list string) :=
  edevs <- get w_edevs ;;
  match edevs with
  | [] => ret []
  | _ =>
      seen <- fold_each edevs (∅, ∅) (λ he seen, fold_each (es_fsas he.2) seen (refresh_fsa_programs he.1)) ;;
      removed <- get (λ s, dict_keys (filter (stale seen) (w_programs s))) ;;
      modify (prune_programs removed) ;;;
      ret removed
  end.

(** ** The polls of client/csip_client.py *)

Definition call (c : PollCall) : W unit := modify (λ s, set_calls (w_calls s ++ [c]) s).

(** [callback]: a handler of structural changes is set. *)
Definition do_poll_dcap (dcap_path : string) (callback : bool) : W unit :=
  dcap <- fetch sv_dcap dcap_path ;;
  modify (set_dcap dcap) ;;;
  mup <- get w_mup_list ;;
  when (bool_decide (mup = None) && bool_decide (is_Some (extract_href (dc_mup_list dcap))) && callback)
    (call StructuralChange).

Definition do_poll_edev : W unit := refresh_end_device_lists.

Definition do_poll_fsa (subscribed : gset string) : W unit :=
  removed <- refresh_function_set_assignments subscribed ;;
  for_each removed (λ h,
    call (CancelProgram h) ;;;
    modify (λ s, set_programs (dict_del h (w_programs s)) s)).

Definition do_poll_derp : W unit :=
  removed <- refresh_der_programs ;;
  for_each removed (λ h, call (CancelProgram h)) ;;;
  refresh_der_controls ;;;
  programs <- get w_programs ;;
  for_each (dict_keys programs) (λ h, call (ProcessControls h)).

Definition do_poll_tariff : W unit := refresh_tariffs ;;; call ProcessTariffs.

Definition do_poll_derp_targeted (resource : string) : W bool :=
  program <- get (λ s, find_program_for_resource resource (disc_of s)) ;;
  match program with
  | None => ret false
  | Some href =>
      found <- refresh_der_controls_for_program href ;;
      when found (call (ProcessControls href)) ;;;
      ret found
  end.
End Walk.
