(* ===== verification/WalkProps.v ===== *)
(** * WalkProps: what discovery finds and what its refreshes keep

    Total correctness of the walk ([wp]), its rules, and the theorems about
    [discover], the refreshes and the polls of client/csip_client.py. *)

From S2P Require Import Prelude Controls Discovered Timebase Polling Randomization Response ProcState Tariff Walk.

(** ** Total correctness *)

Definition wp {E S A} (m : Comp E S A) (s : S) (Q : A → S → Prop) : Prop :=
  ∃ a s', m s = (inr a, s') ∧ Q a s'.

Section Wp.
Context {E S : Type}.
Implicit Types s : S.

Lemma wp_ret {A} (a : A) s (Q : A → S → Prop) : Q a s → wp (ret a : Comp E S A) s Q.
Proof. intros H. by exists a, s. Qed.
Lemma wp_get {A} (f : S → A) s (Q : A → S → Prop) : Q (f s) s → wp (get f : Comp E S A) s Q.
Proof. intros H. by exists (f s), s. Qed.
Lemma wp_modify (f : S → S) s (Q : unit → S → Prop) : Q tt (f s) → wp (modify f : Comp E S unit) s Q.
Proof. intros H. by exists tt, (f s). Qed.
Lemma wp_bind {A B} (m : Comp E S A) (f : A → Comp E S B) s (Q : B → S → Prop) :
  wp m s (λ a s', wp (f a) s' Q) → wp (bind m f) s Q.
Proof. intros (a & s' & Hm & b & s'' & Hf & HQ). exists b, s''. split; [|done]. unfold bind. by rewrite Hm. Qed.
Lemma wp_mono {A} (m : Comp E S A) s (P Q : A → S → Prop) : wp m s P → (∀ a s', P a s' → Q a s') → wp m s Q.
Proof. intros (a & s' & Hm & HP) H. exists a, s'. eauto. Qed.

Lemma wp_when (b : bool) (m : Comp E S unit) s (Q : unit → S → Prop) :
  (b = true → wp m s Q) → (b = false → Q tt s) → wp (when b m) s Q.
Proof. destruct b; cbn; intros H1 H2; [by apply H1|by apply wp_ret, H2]. Qed.

(** A loop over [l], with what holds after each part of it. *)
Lemma wp_for_each {A} (l : list A) (f : A → Comp E S unit) (I : list A → S → Prop) :
  (∀ pre x post s, l = pre ++ x :: post → I pre s → wp (f x) s (λ _, I (pre ++ [x]))) →
  ∀ s, I [] s → wp (for_each l f) s (λ _, I l).
Proof.
  intros Hf. assert (∀ post pre s, l = pre ++ post → I pre s → wp (for_each post f) s (λ _, I l)) as H.
  { induction post as [|x post IH]; intros pre s -> HI; cbn.
    - apply wp_ret. by rewrite app_nil_r.
    - apply wp_bind. eapply wp_mono; [by eapply Hf|]. cbn. intros _ s' HI'.
      apply (IH (pre ++ [x])); [|done]. by rewrite <- app_assoc. }
  intros s. by apply (H l []).
Qed.
End Wp.

Lemma wp_fold_each {A B} (l : list A) (b : B) (f : A → B → W B) (I : list A → B → Found → Prop) :
  (∀ pre x post b s, l = pre ++ x :: post → I pre b s → wp (f x b) s (I (pre ++ [x]))) →
  ∀ s, I [] b s → wp (fold_each l b f) s (I l).
Proof.
  intros Hf. assert (∀ post pre b s, l = pre ++ post → I pre b s → wp (fold_each post b f) s (I l)) as H.
  { clear b. induction post as [|x post IH]; intros pre b s -> HI; cbn.
    - apply wp_ret. by rewrite app_nil_r.
    - apply wp_bind. eapply wp_mono; [by eapply Hf|]. cbn. intros b' s' HI'.
      apply (IH (pre ++ [x])); [|done]. by rewrite <- app_assoc. }
  intros s. by apply (H l []).
Qed.

Lemma wp_map_each {A B} (l : list A) (f : A → W B) (R : relation Found) `{!PreOrder R} :
  (∀ x s, x ∈ l → wp (f x) s (λ _ s', R s s')) → ∀ s, wp (map_each l f) s (λ _ s', R s s').
Proof.
  induction l as [|x l IH]; intros Hf s; cbn; [by apply wp_ret|].
  apply wp_bind. eapply wp_mono; [apply Hf; left|]. cbn. intros y s' H1.
  apply wp_bind. eapply wp_mono; [apply IH; intros; apply Hf; by right|]. cbn. intros ys s'' H2.
  apply wp_ret. by trans s'.
Qed.

Lemma wp_fetch {A} (answer : Answer A) (href : string) (s : Found) (Q : A → Found → Prop) a :
  answer (w_tick s) href = inr a → Q a (set_requests (S (w_tick s)) s) → wp (fetch answer href) s Q.
Proof. intros Ha HQ. exists a, (set_requests (S (w_tick s)) s). split; [|done]. unfold fetch. by rewrite Ha. Qed.

(** A request inside a [try]: answered, or an error for the handler. *)
Lemma wp_try_fetch {A B} (answer : Answer A) (href : string) (k : A → W B) (handler : WalkError → W B)
    (s : Found) (Q : B → Found → Prop) :
  (∀ a, answer (w_tick s) href = inr a → wp (k a) (set_requests (S (w_tick s)) s) Q) →
  (∀ e, answer (w_tick s) href = inl e → wp (handler e) (set_requests (S (w_tick s)) s) Q) →
  wp (try_ (bind (fetch answer href) k) handler) s Q.
Proof.
  intros Hk Hh. unfold wp, try_, bind, fetch. destruct (answer (w_tick s) href) as [e|a].
  - apply (Hh e eq_refl).
  - destruct (Hk a eq_refl) as (b & s' & Hb & HQ). exists b, s'. by rewrite Hb.
Qed.

(** ** A server whose resources can be read

    Which answers discovery copes with: the resources it cannot do without
    answer, lists and optional resources may be absent, and what is optional
    altogether may fail in any way. *)

Definition answers {A} (r : WalkError + A) : Prop := match r with inr _ => True | inl _ => False end.
Definition or_absent {A} (r : WalkError + A) : Prop :=
  match r with inl (Protocol status) => is_absent status = true | inl _ => False | inr _ => True end.
Definition or_unusable {A} (r : WalkError + A) : Prop :=
  match r with inl (Protocol status) => is_absent status = true | inl Payload => True | inl _ => False | inr _ => True end.
Definition or_refused {A} (r : WalkError + A) : Prop :=
  match r with inl (Protocol _) | inl Payload => True | inl _ => False | inr _ => True end.
Definition not_cancelled {A} (r : WalkError + A) : Prop := match r with inl Cancelled => False | _ => True end.

Class Readable (sv : Server) : Prop := {
  rd_dcap : ∀ n h, answers (sv_dcap n h);
  rd_edevs : ∀ n h, answers (sv_edevs n h);
  rd_time : ∀ n h, or_absent (sv_time n h);
  rd_global_time : ∀ n m p h dcap, sv_dcap n p = inr dcap → extract_href (dc_time dcap) = Some h → answers (sv_time m h);
  rd_fsas : ∀ n h, or_absent (sv_fsas n h);
  rd_programs : ∀ n h, or_absent (sv_programs n h);
  rd_registration : ∀ n h, or_absent (sv_registration n h);
  rd_default : ∀ n h, or_unusable (sv_default n h);
  rd_tariffs : ∀ n h, or_unusable (sv_tariffs n h);
  rd_self_device : ∀ n h, or_refused (sv_self_device n h);
  rd_ders : ∀ n h, or_refused (sv_ders n h);
  rd_sub_rate : ∀ n h, not_cancelled (sv_sub_rate n h);
  rd_controls : ∀ n h, not_cancelled (sv_controls n h);
  rd_curves : ∀ n h, not_cancelled (sv_curves n h);
  rd_rates : ∀ n h, not_cancelled (sv_rates n h);
  rd_intervals : ∀ n h, not_cancelled (sv_intervals n h);
}.

(** Lists and defaults do not change between two requests. *)
Class Steady (sv : Server) : Prop := {
  st_edevs : ∀ n h, sv_edevs n h = sv_edevs 0 h;
  st_fsas : ∀ n h, sv_fsas n h = sv_fsas 0 h;
  st_programs : ∀ n h, sv_programs n h = sv_programs 0 h;
  st_default : ∀ n h, sv_default n h = sv_default 0 h;
  st_controls : ∀ n h, sv_controls n h = sv_controls 0 h;
  st_curves : ∀ n h, sv_curves n h = sv_curves 0 h;
}.

(** ** What the parts of the walk leave alone *)

(** Devices, programs and the mapping. *)
Record frame (s s' : Found) : Prop := mkFrame {
  fr_edevs : w_edevs s' = w_edevs s;
  fr_programs : w_programs s' = w_programs s;
  fr_mapping : w_mapping s' = w_mapping s;
  fr_previous : w_previous_fsas s' = w_previous_fsas s;
  fr_dcap : w_dcap s' = w_dcap s;
}.

#[export] Instance frame_preorder : PreOrder frame.
Proof. split; [done|]. intros s1 s2 s3 [] []. split; congruence. Qed.

Ltac framed := by (split; cbn; repeat case_match).

Section Parts.
Context `{sv : Server, !Readable sv}.

Lemma first_rate_frame key rate s : wp (first_rate key rate) s (λ _ s', frame s s').
Proof. apply wp_modify. framed. Qed.

Lemma discover_self_device_frame dcap s : wp (discover_self_device dcap) s (λ _ s', frame s s').
Proof.
  unfold discover_self_device. destruct (extract_href _) as [href|]; [|by apply wp_ret].
  apply wp_bind, wp_try_fetch.
  - intros d _. apply wp_ret. destruct (extract_href (sd_der_list d)) as [h|]; [|apply wp_ret; framed].
    apply wp_try_fetch.
    + intros pages _. destruct pages; apply wp_ret; framed.
    + intros e He. pose proof (rd_ders (sv:=sv) (S (w_tick s)) h) as Hr. cbn in He. rewrite He in Hr.
      destruct e; try done; apply wp_ret; framed.
  - intros e He. pose proof (rd_self_device (sv:=sv) (w_tick s) href) as Hr. rewrite He in Hr.
    destruct e; try done; do 2 apply wp_ret; framed.
Qed.

Lemma discover_der_list_spec e s :
  wp (discover_der_list e) s (λ e' s', frame s s' ∧ es_device e' = es_device e ∧ es_fsas e' = es_fsas e ∧
    es_lfdi e' = es_lfdi e ∧ es_registration e' = es_registration e).
Proof.
  unfold discover_der_list. destruct (extract_href _) as [h|]; [|by apply wp_ret].
  apply wp_try_fetch.
  - intros pages _. apply wp_ret. split_and!; [framed|done..].
  - intros x He. pose proof (rd_ders (sv:=sv) (w_tick s) h) as Hr. rewrite He in Hr.
    destruct x; try done; apply wp_ret; (split_and!; [framed|done..]).
Qed.

Lemma discover_sub_rate_frame e s : wp (discover_sub_rate e) s (λ _ s', frame s s').
Proof.
  unfold discover_sub_rate. destruct (extract_href _) as [h|]; [|by apply wp_ret].
  apply wp_bind, wp_get. case_match; [by apply wp_ret|]. apply wp_try_fetch.
  - intros rate _. apply wp_modify. framed.
  - intros x He. pose proof (rd_sub_rate (sv:=sv) (w_tick s) h) as Hr. rewrite He in Hr.
    destruct x; try done; apply wp_ret; framed.
Qed.

Lemma verify_registration_frame h s : wp (verify_registration h) s (λ _ s', frame s s').
Proof.
  unfold verify_registration. pose proof (rd_registration (sv:=sv) (w_tick s) h) as Hr.
  unfold wp, try_, fetch. destruct (sv_registration (w_tick s) h) as [[status| | |]|[]]; try done; cbn in Hr.
  - rewrite Hr. eexists _, _. split; [done|]. framed.
  - eexists _, _. split; [done|]. framed.
Qed.

(** [fetch_paged] gives the pages, or [None] for a list that broke off. *)
Lemma wp_fetch_paged {A} (answer : Answer A) h s (Q : option A → Found → Prop) :
  (∀ n h, or_absent (answer n h)) →
  Q (match answer (w_tick s) h with inr a => Some a | inl _ => None end) (set_requests (S (w_tick s)) s) →
  wp (fetch_paged answer h) s Q.
Proof.
  intros Hr HQ. specialize (Hr (w_tick s) h). apply wp_try_fetch.
  - intros a Ha. apply wp_ret. by rewrite Ha in HQ.
  - intros e He. rewrite He in HQ, Hr. destruct e; try done. cbn in *. rewrite Hr. by apply wp_ret.
Qed.

Lemma discover_fsa_time_frame fsa s : wp (discover_fsa_time fsa) s (λ _ s', frame s s').
Proof.
  unfold discover_fsa_time. destruct (extract_href (fs_time fsa)) as [h|]; [|by apply wp_ret].
  destruct (extract_href (fs_href fsa)) as [f|]; [|by apply wp_ret].
  apply wp_bind, wp_modify, wp_bind, wp_get. case_match; [apply wp_ret; framed|].
  apply wp_bind, wp_fetch_paged; [apply rd_time|]. destruct (sv_time _ h); [apply wp_ret; framed|].
  apply wp_bind, wp_modify, wp_modify. framed.
Qed.

Lemma discover_rate_component_frame rc h s : wp (discover_rate_component rc h) s (λ _ s', frame s s').
Proof.
  unfold discover_rate_component. destruct (extract_href _) as [l|]; [|by apply wp_ret].
  apply wp_bind, wp_try_fetch.
  - intros pages _. apply wp_ret, wp_ret. framed.
  - intros e He. pose proof (rd_intervals (sv:=sv) (w_tick s) l) as Hr. rewrite He in Hr.
    destruct e; try done; apply wp_ret, wp_ret; framed.
Qed.

Lemma discover_tariff_profile_frame tp h fsa s : wp (discover_tariff_profile tp h fsa) s (λ _ s', frame s s').
Proof.
  unfold discover_tariff_profile. apply wp_bind. destruct (extract_href _) as [l|]; [|by apply wp_ret, wp_ret].
  apply wp_try_fetch.
  - intros pages _. eapply wp_mono; [apply (wp_map_each _ _ frame); intros; apply discover_rate_component_frame|].
    cbn. intros rcs s' Hf. apply wp_ret. by etrans; [|done].
  - intros e He. pose proof (rd_rates (sv:=sv) (w_tick s) l) as Hr. rewrite He in Hr.
    destruct e; try done; apply wp_ret, wp_ret; framed.
Qed.

Lemma discover_tariffs_frame fsa s : wp (discover_tariffs_for_fsa fsa) s (λ _ s', frame s s').
Proof.
  unfold discover_tariffs_for_fsa. destruct (extract_href _) as [h|]; [|by apply wp_ret].
  assert (∀ pages s0, frame s s0 → wp (for_each pages (λ page,
        first_rate "tariff" (wp_poll_rate page) ;;;
        for_each (wp_items page) (λ tp,
          match extract_href (tf_href tp) with
          | None => ret tt
          | Some href =>
              known <- get (λ s, dict_mem href (w_tariffs s)) ;;
              if (known : bool) then ret tt
              else p <- discover_tariff_profile tp href (fs_href fsa) ;;
                   modify (λ s, set_tariffs (dict_set href p (w_tariffs s)) s)
          end))) s0 (λ _ s', frame s s')) as Hpages.
  { intros pages s0. apply (wp_for_each _ _ (λ _, frame s)). intros _ page _ s1 _ H1.
    apply wp_bind. eapply wp_mono; [apply first_rate_frame|]. cbn. intros _ s2 H2.
    apply (wp_for_each _ _ (λ _, frame s)); [|by etrans]. intros _ tp _ s3 _ H3.
    destruct (extract_href (tf_href tp)); [|by apply wp_ret]. apply wp_bind, wp_get.
    case_match; [by apply wp_ret|]. apply wp_bind. eapply wp_mono; [apply discover_tariff_profile_frame|].
    cbn. intros p s5 H5. apply wp_modify. trans s3; [done|]. trans s5; [done|]. framed. }
  apply wp_bind. pose proof (rd_tariffs (sv:=sv) (w_tick s) h) as Hr.
  unfold wp at 1, try_, fetch. destruct (sv_tariffs (w_tick s) h) as [[status| | |]|pages]; try done; cbn in Hr.
  - rewrite Hr. eexists _, _. split; [done|]. apply Hpages. framed.
  - eexists _, _. split; [done|]. apply Hpages. framed.
  - eexists _, _. split; [done|]. apply Hpages. framed.
Qed.
End Parts.

(** ** What a server lists *)

Section Listed.
Context `{sv : Server}.

Definition read_list {A} (answer : ListAnswer A) (link : option string) : list A :=
  match extract_href link with
  | None => []
  | Some h => match answer 0%nat h with inr pages => items pages | inl _ => [] end
  end.

Definition fsas_of (device : EndDevice) : list Fsa := read_list sv_fsas (en_fsa_list device).

(** The programs of a device, each with the FSA that lists it. *)
Definition fsa_programs (f : Fsa) : list (Derprogram * option string) :=
  (λ p, (p, fs_href f)) <$> read_list sv_programs (fs_derp_list f).
Definition programs_of (dcap : Dcap) (device : EndDevice) : list (Derprogram * option string) :=
  match fsas_of device with
  | [] => (λ p, (p, None)) <$> read_list sv_programs (dc_derp_list dcap)
  | fsas => mjoin (fsa_programs <$> fsas)
  end.

(** A program with what the server holds of it. *)
Definition served_program (derp : Derprogram) (href : string) (fsa : option string) : Prog :=
  let dderc := match extract_href (pr_default derp) with
               | Some h => match sv_default 0%nat h with inr d => (Some d.1, d.2) | inl _ => (None, false) end
               | None => (None, false)
               end in
  let derc := match extract_href (pr_control_list derp) with
              | Some h => match sv_controls 0%nat h with
                          | inr pages => (items pages, any_subscribable pages, true)
                          | inl _ => ([], false, false)
                          end
              | None => ([], false, false)
              end in
  mkProg derp
    {| ps_href := href; ps_primacy := default 0%Z (pr_primacy derp); ps_default := dderc.1; ps_controls := derc.1.1;
       ps_curves := read_list sv_curves (pr_curve_list derp); ps_fsa := fsa; ps_controls_complete := derc.2;
       ps_control_list_link := pr_control_list derp; ps_default_link := pr_default derp |}
    derc.1.2 dderc.2.

(** A program, the FSA that lists it and the device it is listed for. *)
Abbreviation Entry := (Derprogram * option string * string)%type.
Definition entries_for (d : string) (l : list (Derprogram * option string)) : list Entry := (λ pf, (pf.1, pf.2, d)) <$> l.

(** The href of an entry's program. *)
Definition names (t : Entry) (p : string) : Prop := extract_href (pr_href t.1.1) = Some p.

(** The mapping and the programs are those of the entries. *)
Record tracks (L : list Entry) (m : DeviceMapping) (s : Found) : Prop := mkTracks {
  tk_wf : mapping_wf m;
  tk_pairs : ∀ p d, d ∈ devices_in m p ↔ ∃ t, t ∈ L ∧ names t p ∧ t.2 = d;
  tk_dict : dict_wf (w_programs s);
  tk_known : ∀ p, p ∈ dict_keys (w_programs s) ↔ ∃ t, t ∈ L ∧ names t p;
  tk_content : ∀ p pg, dict_get p (w_programs s) = Some pg →
    ∃ t, t ∈ L ∧ names t p ∧ pg = served_program t.1.1 p t.1.2;
}.

Lemma tracks_frame L m s s' : tracks L m s → frame s s' → tracks L m s'.
Proof. intros [] []. by split; rewrite ?fr_programs0. Qed.

Lemma elem_of_entries d l t : t ∈ entries_for d l ↔ t.1 ∈ l ∧ t.2 = d.
Proof.
  unfold entries_for. rewrite list_elem_of_fmap. destruct t as [[p f] d']. cbn. split.
  - intros ([p' f'] & [= -> -> ->] & H). done.
  - intros [H ->]. by exists (p, f).
Qed.

Lemma mapping_add_devices p d m p' d' :
  mapping_wf m → d' ∈ devices_in (mapping_add p d m) p' ↔ d' ∈ devices_in m p' ∨ (p' = p ∧ d' = d).
Proof.
  intros W. rewrite mapping_add_lookup. pose proof (map_symmetric m W p d) as Hs. case_decide as H.
  - destruct H as [-> _]. rewrite elem_of_app, list_elem_of_singleton. naive_solver.
  - split; [by left|]. intros [?|[-> ->]]; [done|]. apply Hs. destruct (decide (p ∈ programs_in m d)); tauto.
Qed.

Context `{!Readable sv, !Steady sv}.

Lemma fetch_default_spec h s :
  wp (fetch_default h) s (λ r s', frame s s' ∧
    r = match sv_default 0%nat h with inr d => (Some d.1, d.2) | inl _ => (None, false) end).
Proof.
  apply wp_try_fetch; rewrite st_default.
  - intros d Hd. apply wp_ret. rewrite Hd. split; [framed|done].
  - intros e He. pose proof (rd_default (sv:=sv) 0%nat h) as Hr. rewrite He in Hr |- *. destruct e; try done; cbn in *.
    + rewrite Hr. apply wp_ret. split; [framed|done].
    + apply wp_ret. split; [framed|done].
Qed.

Lemma discover_program_spec derp href fsa s :
  wp (discover_program derp href fsa) s (λ p s', frame s s' ∧ p = served_program derp href fsa).
Proof.
  unfold discover_program, served_program. apply wp_bind.
  apply (wp_mono _ _ (λ r s', frame s s' ∧ r = match extract_href (pr_default derp) with
               | Some h => match sv_default 0%nat h with inr d => (Some d.1, d.2) | inl _ => (None, false) end
               | None => (None, false)
               end)).
  { destruct (extract_href (pr_default derp)); [apply fetch_default_spec|]. by apply wp_ret. }
  intros r1 s1 [H1 ->]. apply wp_bind.
  apply (wp_mono _ _ (λ r s', frame s s' ∧ r = match extract_href (pr_control_list derp) with
              | Some h => match sv_controls 0%nat h with
                          | inr pages => (items pages, any_subscribable pages, true)
                          | inl _ => ([], false, false)
                          end
              | None => ([], false, false)
              end)).
  { destruct (extract_href (pr_control_list derp)) as [h|]; [|by apply wp_ret]. apply wp_try_fetch; rewrite st_controls.
    - intros pages ->. apply wp_ret. split; [|done]. trans s1; [done|framed].
    - intros e He. pose proof (rd_controls (sv:=sv) 0%nat h) as Hr. rewrite He in Hr |- *.
      destruct e; try done; apply wp_ret; (split; [|done]); (trans s1; [done|framed]). }
  intros r2 s2 [H2 ->]. apply wp_bind.
  apply (wp_mono _ _ (λ r s', frame s s' ∧ r = read_list sv_curves (pr_curve_list derp))).
  { unfold read_list. destruct (extract_href (pr_curve_list derp)) as [h|]; [|by apply wp_ret]. apply wp_try_fetch; rewrite st_curves.
    - intros pages ->. apply wp_ret. split; [|done]. trans s2; [done|framed].
    - intros e He. pose proof (rd_curves (sv:=sv) 0%nat h) as Hr. rewrite He in Hr |- *.
      destruct e; try done; apply wp_ret; (split; [|done]); (trans s2; [done|framed]). }
  intros r3 s3 [H3 ->]. by apply wp_ret.
Qed.

(** Neither devices nor the DeviceCapability change. *)
Record edev_frame (s s' : Found) : Prop := mkEdevFrame {
  ef_edevs : w_edevs s' = w_edevs s;
  ef_dcap : w_dcap s' = w_dcap s;
  ef_previous : w_previous_fsas s' = w_previous_fsas s;
}.

#[export] Instance edev_frame_preorder : PreOrder edev_frame.
Proof. split; [done|]. intros s1 s2 s3 [] []. split; congruence. Qed.
Lemma frame_edev s s' : frame s s' → edev_frame s s'.
Proof. by intros []. Qed.

Lemma discover_entry_tracks d fsa derp L m s :
  tracks L m s →
  wp (discover_entry d fsa derp m) s (λ m' s', tracks (L ++ [(derp, fsa, d)]) m' s' ∧ edev_frame s s').
Proof.
  intros [W P D K C]. unfold discover_entry. destruct (extract_href (pr_href derp)) as [href|] eqn:Eh.
  2:{ apply wp_ret. split; [|done]. split; [done| |done|..].
      - intros p d'. rewrite P. setoid_rewrite elem_of_app. setoid_rewrite list_elem_of_singleton. unfold names.
        split; [naive_solver|]. intros (t & [?| ->] & Hn & Hd); [naive_solver|]. cbn in Hn. congruence.
      - intros p. rewrite K. setoid_rewrite elem_of_app. setoid_rewrite list_elem_of_singleton. unfold names.
        split; [naive_solver|]. intros (t & [?| ->] & Hn); [naive_solver|]. cbn in Hn. congruence.
      - intros p pg H. destruct (C p pg H) as (t & ? & ?). exists t. split; [|done]. apply elem_of_app. by left. }
  assert (∀ p t', t' = (derp, fsa, d) → names t' p ↔ p = href) as Hn.
  { intros p t' ->. unfold names. cbn. rewrite Eh. naive_solver. }
  assert (∀ p d', d' ∈ devices_in (mapping_add href d m) p ↔
    ∃ t, t ∈ L ++ [(derp, fsa, d)] ∧ names t p ∧ t.2 = d') as P'.
  { intros p d'. rewrite mapping_add_devices, P by done. setoid_rewrite elem_of_app. setoid_rewrite list_elem_of_singleton.
    split.
    - intros [(t & ? & ? & ?)|[-> ->]]; [naive_solver|]. exists (derp, fsa, d). split_and!; [by right|by apply Hn|done].
    - intros (t & [?| ->] & Ht & Hd); [naive_solver|]. right. by apply Hn in Ht. }
  apply wp_bind, wp_get. destruct (dict_mem href (w_programs s)) eqn:Em.
  - apply dict_mem_spec in Em. apply wp_ret. split; [|done]. split; [by apply mapping_add_wf|done|done|..].
    + intros p. rewrite K. setoid_rewrite elem_of_app. setoid_rewrite list_elem_of_singleton.
      split; [naive_solver|]. intros (t & [?| ->] & Ht); [naive_solver|]. apply Hn in Ht as ->; [|done].
      apply K in Em. naive_solver.
    + intros p pg Hg. destruct (C p pg Hg) as (t & ? & ?). exists t. split; [|done]. apply elem_of_app. by left.
  - assert (href ∉ dict_keys (w_programs s)) as Hnew by (rewrite <- dict_mem_spec; by rewrite Em).
    apply wp_bind. eapply wp_mono; [apply discover_program_spec|]. cbn. intros pg s' [F ->].
    apply wp_bind, wp_modify, wp_ret. destruct F as [F1 F2 F3 F4 F5]. split; [|by split].
    split; cbn; rewrite ?F2; [by apply mapping_add_wf|done|by apply dict_set_wf|..].
    + intros p. rewrite elem_of_dict_set_keys, K. setoid_rewrite elem_of_app. setoid_rewrite list_elem_of_singleton. split.
      * intros [->|(t & ? & ?)]; [|naive_solver]. exists (derp, fsa, d). split; [by right|by apply Hn].
      * intros (t & [?| ->] & Ht); [naive_solver|]. left. by apply Hn in Ht.
    + intros p pg. rewrite dict_get_set. case_decide as Hp.
      * intros [= <-]. subst. exists (derp, fsa, d). split_and!; [apply elem_of_app; right; by left|by apply Hn|done].
      * intros Hg. destruct (C p pg Hg) as (t & ? & ?). exists t. split; [|done]. apply elem_of_app. by left.
Qed.

Lemma entries_app d l l' : entries_for d (l ++ l') = entries_for d l ++ entries_for d l'.
Proof. apply fmap_app. Qed.

Lemma items_snoc {A} (pages : list (WPage A)) page : items (pages ++ [page]) = items pages ++ wp_items page.
Proof. unfold items. rewrite fmap_app, join_app. cbn. by rewrite app_nil_r. Qed.

Lemma programs_from_pages_tracks pages d fsa L m s :
  tracks L m s →
  wp (discover_programs_from_pages pages d fsa m) s (λ m' s',
    tracks (L ++ entries_for d ((λ p, (p, fsa)) <$> items pages)) m' s' ∧ edev_frame s s').
Proof.
  intros T. apply (wp_fold_each _ _ _ (λ pre m' s',
    tracks (L ++ entries_for d ((λ p, (p, fsa)) <$> items pre)) m' s' ∧ edev_frame s s')).
  2:{ cbn. rewrite app_nil_r. by split. }
  intros pre page _ m1 s1 _ [T1 F1]. apply wp_bind. eapply wp_mono; [apply first_rate_frame|]. cbn. intros _ s2 F2.
  rewrite items_snoc, fmap_app, entries_app.
  apply (wp_fold_each _ _ _ (λ l m' s',
    tracks (L ++ entries_for d ((λ p, (p, fsa)) <$> items pre) ++ entries_for d ((λ p, (p, fsa)) <$> l)) m' s' ∧ edev_frame s s')).
  - intros l derp _ m3 s3 _ [T3 F3]. eapply wp_mono; [by apply discover_entry_tracks|]. cbn. intros m4 s4 [T4 F4].
    rewrite fmap_app, entries_app, !app_assoc. rewrite !app_assoc in T4. split; [done|by trans s3].
  - cbn. rewrite app_nil_r. split; [by eapply tracks_frame|]. trans s1; [done|by apply frame_edev].
Qed.

(** What a device's state has of the device. *)
Record describes (device : EndDevice) (fsas : list Fsa) (e : Edev) : Prop := mkDescribes {
  db_device : es_device e = device;
  db_fsas : es_fsas e = fsas;
  db_lfdi : es_lfdi e = default "" (en_lfdi device);
}.

Lemma discover_fsa_tracks device d fsa fsas L em s :
  tracks L em.2 s → describes device fsas em.1 →
  wp (discover_fsa d fsa em) s (λ em' s',
    tracks (L ++ entries_for d (fsa_programs fsa)) em'.2 s' ∧ describes device (fsas ++ [fsa]) em'.1 ∧ edev_frame s s').
Proof.
  intros T [B1 B2 B3]. destruct em as [e m]. cbn in *. unfold discover_fsa. cbn.
  assert (describes device (fsas ++ [fsa]) (add_fsa fsa e)) as B by (split; cbn; congruence).
  apply wp_bind, wp_get, wp_bind.
  apply (wp_mono _ _ (λ _ s', frame s s')).
  { apply wp_when; intros _; [apply discover_tariffs_frame|done]. }
  intros _ s1 F1. pose proof (tracks_frame _ _ _ _ T F1) as T1. unfold fsa_programs, read_list.
  destruct (extract_href (fs_derp_list fsa)) as [h|].
  2:{ apply wp_ret. cbn. rewrite app_nil_r. split_and!; [done..|by apply frame_edev]. }
  apply wp_bind, wp_fetch_paged; [apply rd_programs|]. rewrite st_programs.
  set (s2 := set_requests _ s1). assert (frame s1 s2) as F2 by framed.
  destruct (sv_programs 0%nat h) as [e0|pages].
  { apply wp_ret. cbn. rewrite app_nil_r. split_and!; [by eapply tracks_frame|done|]. apply frame_edev. by trans s1. }
  apply wp_bind. eapply wp_mono; [apply programs_from_pages_tracks; by eapply tracks_frame|]. cbn.
  intros m3 s3 [T3 F3]. apply wp_bind. eapply wp_mono; [apply discover_fsa_time_frame|]. cbn. intros _ s4 F4.
  apply wp_ret. cbn. split_and!; [by eapply tracks_frame|by destruct B|].
  trans s3; [|by apply frame_edev]. trans s2; [|done]. apply frame_edev. by trans s1.
Qed.

Lemma discover_fsa_list_tracks device d L em s :
  tracks L em.2 s → describes device [] em.1 →
  wp (discover_fsa_list d em) s (λ em' s',
    tracks (L ++ entries_for d (mjoin (fsa_programs <$> fsas_of device))) em'.2 s' ∧
    describes device (fsas_of device) em'.1 ∧ edev_frame s s').
Proof.
  intros T B. unfold discover_fsa_list, fsas_of, read_list. rewrite (db_device _ _ _ B).
  destruct (extract_href (en_fsa_list device)) as [h|].
  2:{ apply wp_ret. cbn. rewrite app_nil_r. by split_and!. }
  apply wp_bind, wp_fetch_paged; [apply rd_fsas|]. rewrite st_fsas.
  set (s1 := set_requests _ s). assert (frame s s1) as F1 by framed.
  pose (pages := match sv_fsas 0%nat h with inr pages => pages | inl _ => [] end).
  replace (default [] _) with pages by (unfold pages; by destruct (sv_fsas 0%nat h)).
  replace (match sv_fsas 0%nat h with inl _ => [] | inr pages => items pages end) with (items pages)
    by (unfold pages; by destruct (sv_fsas 0%nat h)).
  pose (J fsas em' s' := tracks (L ++ entries_for d (mjoin (fsa_programs <$> fsas))) em'.2 s' ∧
    describes device fsas em'.1 ∧ edev_frame s s').
  fold (J (items pages)). apply (wp_fold_each _ _ _ (λ pre, J (items pre))).
  2:{ unfold J. cbn. rewrite app_nil_r. split_and!; [by eapply tracks_frame|done|by apply frame_edev]. }
  intros pre page _ em2 s2 _ (T2 & B2 & F2). apply wp_bind. eapply wp_mono; [apply first_rate_frame|]. cbn. intros _ s3 F3.
  rewrite items_snoc. apply (wp_fold_each _ _ _ (λ l, J (items pre ++ l))).
  - intros l fsa _ em4 s4 _ (T4 & B4 & F4). eapply wp_mono; [by apply (discover_fsa_tracks device _ _ (items pre ++ l))|].
    cbn. intros em5 s5 (T5 & B5 & F5). unfold J. rewrite !app_assoc.
    rewrite (fmap_app _ (items pre ++ l)), join_app, entries_app. cbn. rewrite app_nil_r, app_assoc.
    split_and!; [done..|by trans s4].
  - unfold J. rewrite app_nil_r. split_and!; [by eapply tracks_frame| |trans s2; [done|by apply frame_edev]].
    destruct B2. by split.
Qed.

Lemma discover_fallback_tracks dcap d fsas L m s :
  tracks L m s →
  wp (discover_fallback dcap d fsas m) s (λ m' s',
    tracks (L ++ entries_for d match fsas with
                           | [] => (λ p, (p, None)) <$> read_list sv_programs (dc_derp_list dcap)
                           | _ => []
                           end) m' s' ∧ edev_frame s s').
Proof.
  intros T. unfold discover_fallback. destruct fsas as [|f fsas].
  2:{ apply wp_ret. cbn. rewrite app_nil_r. by split. }
  unfold read_list. destruct (extract_href (dc_derp_list dcap)) as [h|].
  2:{ apply wp_ret. cbn. rewrite app_nil_r. by split. }
  apply wp_try_fetch; rewrite st_programs.
  - intros pages ->. eapply wp_mono; [apply programs_from_pages_tracks; by eapply tracks_frame; [|framed]|]. cbn.
    intros m' s' [T' F']. split; [done|]. etrans; [apply frame_edev|done]. framed.
  - intros e He. pose proof (rd_programs (sv:=sv) 0%nat h) as Hr. rewrite He in Hr |- *. destruct e; try done. cbn in Hr. rewrite Hr.
    apply wp_ret. cbn. rewrite app_nil_r. split; [by eapply tracks_frame; [|framed]|]. apply frame_edev. framed.
Qed.

(** The devices found so far are those listed, each with its FSAs. *)
Record devices_found (devs : list EndDevice) (s : Found) : Prop := mkDevices {
  df_dict : dict_wf (w_edevs s);
  df_keys : ∀ d, d ∈ dict_keys (w_edevs s) ↔ ∃ device, device ∈ devs ∧ extract_href (en_href device) = Some d;
  df_content : ∀ d e, dict_get d (w_edevs s) = Some e →
    ∃ device, device ∈ devs ∧ extract_href (en_href device) = Some d ∧ describes device (fsas_of device) e ∧
      dict_get d (w_previous_fsas s) = Some (fsa_hrefs (fsas_of device));
}.

Definition device_entries (dcap : Dcap) (device : EndDevice) : list Entry :=
  match extract_href (en_href device) with
  | Some d => entries_for d (programs_of dcap device)
  | None => []
  end.

Lemma discover_end_device_tracks pins dcap device devs L m s :
  tracks L m s → devices_found devs s →
  wp (discover_end_device pins dcap device m) s (λ m' s',
    tracks (L ++ device_entries dcap device) m' s' ∧ devices_found (devs ++ [device]) s' ∧ w_dcap s' = w_dcap s).
Proof.
  intros T [D1 D2 D3]. unfold discover_end_device, device_entries. destruct (extract_href (en_href device)) as [d|] eqn:Eh.
  2:{ apply wp_ret. rewrite app_nil_r. split_and!; [done| |done]. split; [done|..].
      - intros d. rewrite D2. setoid_rewrite elem_of_app. setoid_rewrite list_elem_of_singleton.
        split; [naive_solver|]. intros (x & [?| ->] & Hx); [naive_solver|congruence].
      - intros d e He. destruct (D3 d e He) as (x & Hx & Hr). exists x. split; [|done]. apply elem_of_app. by left. }
  apply wp_bind. eapply wp_mono; [apply discover_sub_rate_frame|]. cbn. intros _ s1 F1.
  apply wp_bind. eapply wp_mono; [apply discover_der_list_spec|]. cbn. intros e s2 (F2 & E1 & E2 & E3 & E4).
  apply wp_bind. eapply wp_mono.
  { apply (discover_fsa_list_tracks device d L (e, m)); [|by split].
    cbn. eapply tracks_frame; [done|]. by trans s1. }
  cbn. intros em s3 (T3 & B3 & F3). rewrite (db_fsas _ _ _ B3).
  apply wp_bind. eapply wp_mono; [by apply discover_fallback_tracks|]. cbn. intros m4 s4 [T4 F4].
  apply wp_bind, wp_modify, wp_bind.
  set (s5 := set_previous_fsas _ s4).
  apply (wp_mono _ _ (λ _ s', frame s5 s')).
  { destruct (es_registration em.1); [|by apply wp_ret]. apply wp_when; intros _; [apply verify_registration_frame|done]. }
  intros _ s6 F6. apply wp_bind, wp_modify, wp_ret.
  assert (w_edevs s6 = w_edevs s ∧ w_dcap s6 = w_dcap s ∧ w_programs s6 = w_programs s4 ∧
    w_previous_fsas s6 = dict_set d (fsa_hrefs (fsas_of device)) (w_previous_fsas s)) as (Q1 & Q2 & Q3 & Q4).
  { destruct F1, F2, F3, F4, F6. unfold s5 in *. cbn in *. split_and!; congruence. }
  split_and!; [| |done].
  - replace (programs_of dcap device) with (mjoin (fsa_programs <$> fsas_of device) ++
      match fsas_of device with [] => (λ p, (p, None)) <$> read_list sv_programs (dc_derp_list dcap) | _ => [] end).
    2:{ unfold programs_of. destruct (fsas_of device); [done|by rewrite app_nil_r]. }
    rewrite entries_app, app_assoc. destruct T4. split; cbn; by rewrite ?Q3.
  - split; cbn; rewrite ?Q1, ?Q4; [by apply dict_set_wf|..].
    + intros d'. rewrite elem_of_dict_set_keys, D2. setoid_rewrite elem_of_app. setoid_rewrite list_elem_of_singleton. split.
      * intros [->|(x & ? & ?)]; [|naive_solver]. exists device. split; [by right|done].
      * intros (x & [?| ->] & Hx); [naive_solver|]. left. congruence.
    + intros d' e'. rewrite !dict_get_set. case_decide as Hd.
      * intros [= <-]. subst d'. exists device. split_and!; [apply elem_of_app; right; by left|done..].
      * intros He. destruct (D3 d' e' He) as (x & Hx & Hr). exists x. split; [|done]. apply elem_of_app. by left.
Qed.

(** The devices a server lists, and what it lists for them. *)
Definition listed_devices (dcap : Dcap) : list EndDevice := read_list sv_edevs (dc_edev_list dcap).
Definition assigned (dcap : Dcap) : list Entry := mjoin (device_entries dcap <$> listed_devices dcap).

Lemma nothing_tracked s : w_programs s = [] → tracks [] empty_mapping s.
Proof.
  intros Hp. split; rewrite ?Hp; cbn; [apply mapping_empty_wf| |constructor| |done].
  - intros p d. rewrite elem_of_nil. split; [done|]. by intros (t & ?%elem_of_nil & ?).
  - intros p. rewrite elem_of_nil. split; [done|]. by intros (t & ?%elem_of_nil & ?).
Qed.
Lemma no_devices s : w_edevs s = [] → devices_found [] s.
Proof.
  intros He. split; rewrite ?He; cbn; [constructor| |done].
  intros d. rewrite elem_of_nil. split; [done|]. by intros (t & ?%elem_of_nil & ?).
Qed.

Lemma discover_end_devices_tracks pins dcap h s :
  w_edevs s = [] → w_programs s = [] → extract_href (dc_edev_list dcap) = Some h →
  wp (discover_end_devices pins dcap h) s (λ m s',
    tracks (assigned dcap) m s' ∧ devices_found (listed_devices dcap) s' ∧ w_dcap s' = w_dcap s).
Proof.
  intros He Hp Eh. unfold discover_end_devices, assigned, listed_devices, read_list. rewrite Eh.
  pose proof (rd_edevs (sv:=sv) (w_tick s) h) as Hr.
  destruct (sv_edevs (w_tick s) h) as [x|pages] eqn:Ea; [done|].
  apply wp_bind, (wp_fetch _ _ _ _ pages); [done|]. set (s1 := set_requests _ s).
  rewrite st_edevs in Ea. rewrite Ea.
  pose (J devs m s' := tracks (mjoin (device_entries dcap <$> devs)) m s' ∧ devices_found devs s' ∧ w_dcap s' = w_dcap s).
  fold (J (items pages)). apply (wp_fold_each _ _ _ (λ pre, J (items pre))).
  2:{ split_and!; [by apply nothing_tracked|by apply no_devices|done]. }
  intros pre page _ m2 s2 _ (T2 & D2 & C2). apply wp_bind. eapply wp_mono; [apply first_rate_frame|]. cbn. intros _ s3 F3.
  rewrite items_snoc. apply (wp_fold_each _ _ _ (λ l, J (items pre ++ l))).
  - intros l device _ m4 s4 _ (T4 & D4 & C4). eapply wp_mono; [by eapply discover_end_device_tracks|]. cbn.
    intros m5 s5 (T5 & D5 & C5). unfold J. rewrite !app_assoc, (fmap_app _ (items pre ++ l)), join_app. cbn. rewrite app_nil_r.
    split_and!; [done..|congruence].
  - unfold J. rewrite app_nil_r. destruct F3 as [G1 G2 G3 G4 G5]. split_and!; [by eapply tracks_frame| |congruence].
    destruct D2. by split; rewrite ?G1, ?G4.
Qed.

Lemma last_steps_frame s : frame s (register_device_prefixes (set_time_poll_rate s)).
Proof. unfold set_time_poll_rate. framed. Qed.
Lemma derp_rate_frame s : frame s (set_derp_poll_rate s).
Proof. unfold set_derp_poll_rate. framed. Qed.

Lemma discover_root_frame dcap s :
  (∀ h, extract_href (dc_time dcap) = Some h → ∀ n, answers (sv_time n h)) →
  wp (match extract_href (dc_time dcap) with
      | None => ret tt
      | Some h =>
          modify (set_time (Some h) None) ;;;
          t <- fetch sv_time h ;;
          modify (set_time (Some h) (Some t)) ;;;
          observe_time None h t
      end) s (λ _ s', frame s s').
Proof.
  intros Ht. destruct (extract_href (dc_time dcap)) as [h|]; [|by apply wp_ret].
  apply wp_bind, wp_modify, wp_bind. pose proof (Ht h eq_refl (w_tick s)) as Hr.
  destruct (sv_time (w_tick s) h) as [e|t] eqn:Et; [done|].
  eapply wp_fetch; [done|]. apply wp_bind, wp_modify, wp_modify. framed.
Qed.

(** What discovery leaves of a DeviceCapability's resources. *)
Definition found_as (dcap : Dcap) (s : Found) : Prop :=
  tracks (assigned dcap) (w_mapping s) s ∧ devices_found (listed_devices dcap) s ∧ w_dcap s = Some dcap.

Lemma discover_tracks pins path s dcap :
  sv_dcap (w_tick s) path = inr dcap → wp (discover pins path) s (λ _, found_as dcap).
Proof.
  intros Hd.
  unfold discover. apply wp_bind, wp_modify, wp_bind, (wp_fetch _ _ _ _ dcap); [done|].
  apply wp_bind, wp_modify, wp_bind, wp_modify, wp_bind, wp_modify.
  match goal with |- wp _ ?st _ => set (s1 := st) end. apply wp_bind.
  eapply wp_mono; [apply discover_root_frame; intros h Hh n; by eapply rd_global_time|]. cbn. intros _ s2 F2.
  apply wp_bind. eapply wp_mono; [apply discover_self_device_frame|]. cbn. intros self s3 F3.
  apply wp_bind, wp_modify, wp_bind.
  apply (wp_mono _ _ (λ _ s', frame s3 s')); [destruct self; [apply wp_modify|apply wp_ret]; framed|].
  intros _ s4 F4. apply wp_bind, wp_modify.
  assert (w_edevs s4 = [] ∧ w_programs s4 = [] ∧ w_mapping s4 = empty_mapping ∧ w_dcap s4 = Some dcap) as (Q1 & Q2 & Q3 & Q4).
  { destruct F2 as [A1 A2 A3 A4 A5], F3 as [B1 B2 B3 B4 B5], F4 as [C1 C2 C3 C4 C5].
    rewrite C1, C2, C3, C5, B1, B2, B3, B5, A1, A2, A3, A5. done. }
  set (s5 := set_mup_list _ s4). assert (frame s4 s5) as F5 by framed.
  destruct (extract_href (dc_edev_list dcap)) as [h|] eqn:Eh.
  - apply wp_bind. eapply wp_mono; [by apply discover_end_devices_tracks|]. cbn. intros m s6 (T6 & D6 & C6).
    apply wp_modify. unfold found_as.
    match goal with |- context[register_device_prefixes (set_time_poll_rate ?x)] => set (s7 := x) end.
    pose proof (last_steps_frame s7) as [G1 G2 G3 G4 G5].
    pose proof (derp_rate_frame (set_mapping m s6)) as [H1 H2 H3 H4 H5]. fold s7 in H1, H2, H3, H4, H5. cbn in H1, H2, H3, H4, H5.
    rewrite G3, H3. split_and!; [|destruct D6; by split; rewrite ?G1, ?G4, ?H1, ?H4|rewrite G5, H5, C6; exact Q4].
    destruct T6. by split; rewrite ?G2, ?H2.
  - apply wp_modify. pose proof (last_steps_frame s5) as [G1 G2 G3 G4 G5]. unfold found_as, assigned, listed_devices, read_list.
    rewrite Eh, G3. split_and!.
    + apply (tracks_frame _ _ s5); [|by split]. unfold s5. cbn. rewrite Q3. apply nothing_tracked. done.
    + apply no_devices. rewrite G1. done.
    + rewrite G5. done.
Qed.

(** C16: discovery finds what the server assigns.  From a server that lists the same
    while it is walked, and whose resources can be read as far as discovery
    needs them (lists may be absent or break off, and what is optional may fail
    in any way), [discover] returns; the devices are those listed, with their
    FSAs; a program is mapped to a device exactly when an FSA of the device
    lists it, or the DeviceCapability does and the device has no FSAs; the
    programs known are those mapped to some device, each with the default,
    controls and curves the server holds, and with its controls marked
    complete only when their list could be read. *)
Theorem discovery_finds_assignments (pins : list string) (path : string) (s : Found) (dcap : Dcap) :
  sv_dcap (w_tick s) path = inr dcap →
  ∃ s', discover pins path s = (inr tt, s') ∧ w_dcap s' = Some dcap ∧ mapping_wf (w_mapping s') ∧
    (∀ d, d ∈ dict_keys (w_edevs s') ↔ ∃ device, device ∈ listed_devices dcap ∧ extract_href (en_href device) = Some d) ∧
    (∀ d e, dict_get d (w_edevs s') = Some e → ∃ device, device ∈ listed_devices dcap ∧
       extract_href (en_href device) = Some d ∧ describes device (fsas_of device) e) ∧
    (∀ p d, d ∈ devices_in (w_mapping s') p ↔ ∃ t, t ∈ assigned dcap ∧ names t p ∧ t.2 = d) ∧
    (∀ p, p ∈ dict_keys (w_programs s') ↔ ∃ d, d ∈ devices_in (w_mapping s') p) ∧
    (∀ p pg, dict_get p (w_programs s') = Some pg →
       ∃ t, t ∈ assigned dcap ∧ names t p ∧ pg = served_program t.1.1 p t.1.2).
Proof.
  intros Hd. destruct (discover_tracks pins path s dcap Hd) as ([] & s' & Hs & [W P D K C] & [E1 E2 E3] & Hc).
  exists s'. split_and!; [done..| | | |done].
  - intros d e He. destruct (E3 d e He) as (x & ? & ? & ? & _). by exists x.
  - done.
  - intros p. rewrite K. setoid_rewrite P. naive_solver.
Qed.

(** ** Refreshing the programs *)

(** What the FSAs on record list, and the FSAs whose list breaks off. *)
Definition relisted (edevs : dict string Edev) : list Entry :=
  mjoin ((λ he, entries_for he.1 (mjoin (fsa_programs <$> es_fsas he.2))) <$> edevs).
Definition breaks_off (fsa : Fsa) : bool :=
  match extract_href (fs_derp_list fsa) with
  | Some h => match sv_programs 0%nat h with inl _ => true | inr _ => false end
  | None => false
  end.
Definition broken (edevs : dict string Edev) : list (option string) :=
  fs_href <$> List.filter breaks_off (mjoin ((λ he, es_fsas he.2) <$> edevs)).

(** A program keeps what was read of it and where it came from. *)
Record keeps (p q : Prog) : Prop := mkKeeps {
  kp_fsa : ps_fsa (pg_state q) = ps_fsa (pg_state p);
  kp_controls : ps_controls (pg_state q) = ps_controls (pg_state p);
  kp_complete : ps_controls_complete (pg_state q) = ps_controls_complete (pg_state p);
  kp_default : ps_default (pg_state q) = ps_default (pg_state p);
  kp_curves : ps_curves (pg_state q) = ps_curves (pg_state p);
}.
#[export] Instance keeps_preorder : PreOrder keeps.
Proof. split; [done|]. intros p q r [] []. split; congruence. Qed.

(** A program held, or the one a new entry brings. *)
Definition comes_from (held : dict string Prog) (L : list Entry) (p : string) (pg : Prog) : Prop :=
  match dict_get p held with
  | Some old => keeps old pg
  | None => ∃ t, t ∈ L ∧ names t p ∧ keeps (served_program t.1.1 p t.1.2) pg
  end.

(** A listed program has the resource of one of its entries. *)
Definition up_to_date (L : list Entry) (p : string) (pg : Prog) : Prop :=
  (∃ t, t ∈ L ∧ names t p) → ∃ t, t ∈ L ∧ names t p ∧ pg_program pg = t.1.1 ∧
    ps_primacy (pg_state pg) = default 0%Z (pr_primacy t.1.1).

Section Refresh.
Context (s0 : Found).

Record follows (L : list Entry) (B : list (option string)) (seen : Seen) (s : Found) : Prop := mkFollows {
  fo_seen : ∀ p, p ∈ seen.1 ↔ ∃ t, t ∈ L ∧ names t p;
  fo_broken : ∀ f, f ∈ seen.2 ↔ f ∈ B;
  fo_wf : mapping_wf (w_mapping s);
  fo_pairs : ∀ p d, d ∈ devices_in (w_mapping s) p ↔
    d ∈ devices_in (w_mapping s0) p ∨ ∃ t, t ∈ L ∧ names t p ∧ t.2 = d;
  fo_dict : dict_wf (w_programs s);
  fo_keys : ∀ p, p ∈ dict_keys (w_programs s) ↔ p ∈ dict_keys (w_programs s0) ∨ ∃ t, t ∈ L ∧ names t p;
  fo_content : ∀ p pg, dict_get p (w_programs s) = Some pg →
    comes_from (w_programs s0) L p pg ∧ up_to_date L p pg;
  fo_edevs : w_edevs s = w_edevs s0;
}.

Lemma comes_from_more L t p pg held : comes_from held L p pg → comes_from held (L ++ [t]) p pg.
Proof.
  unfold comes_from. destruct (dict_get p held); [done|]. intros (t' & ? & ?). exists t'. split; [|done].
  apply elem_of_app. by left.
Qed.

Lemma refresh_entry_follows d fsa derp L B seen s :
  follows L B seen s → wp (refresh_entry d fsa derp seen) s (follows (L ++ [(derp, fsa, d)]) B).
Proof.
  intros [S1 S2 W P D K C E]. unfold refresh_entry. destruct (extract_href (pr_href derp)) as [href|] eqn:Eh.
  2:{ assert (∀ t p, t ∈ L ++ [(derp, fsa, d)] → names t p → t ∈ L) as Hin.
      { intros t p [?| ->%list_elem_of_singleton]%elem_of_app Hn; [done|]. unfold names in Hn. cbn in Hn. congruence. }
      apply wp_ret. split; try done.
      - intros p. rewrite S1. setoid_rewrite elem_of_app. split; [naive_solver|].
        intros (t & Ht & Hn). exists t. split; [|done]. eapply Hin; [by apply elem_of_app|done].
      - intros p d'. rewrite P. setoid_rewrite elem_of_app. split; [naive_solver|].
        intros [?|(t & Ht & Hn & Hd)]; [by left|right]. exists t. split; [|done]. eapply Hin; [by apply elem_of_app|done].
      - intros p. rewrite K. setoid_rewrite elem_of_app. split; [naive_solver|].
        intros [?|(t & Ht & Hn)]; [by left|right]. exists t. split; [|done]. eapply Hin; [by apply elem_of_app|done].
      - intros p pg Hg. destruct (C p pg Hg) as [C1 C2]. split; [by apply comes_from_more|].
        intros (t & Ht & Hn). destruct C2 as (t' & ? & ?); [exists t; split; [by eapply Hin|done]|].
        exists t'. split; [|done]. apply elem_of_app. by left. }
  assert (names (derp, fsa, d) href) as Hhref by done.
  assert (∀ p, (∃ t, t ∈ L ++ [(derp, fsa, d)] ∧ names t p) ↔ (∃ t, t ∈ L ∧ names t p) ∨ p = href) as HL.
  { intros p. setoid_rewrite elem_of_app. setoid_rewrite list_elem_of_singleton. split.
    - intros (t & [?| ->] & Hn); [naive_solver|]. right. unfold names in Hn. cbn in Hn. congruence.
    - intros [(t & ? & ?)| ->]; naive_solver. }
  assert (∀ p d', (∃ t, t ∈ L ++ [(derp, fsa, d)] ∧ names t p ∧ t.2 = d') ↔
    (∃ t, t ∈ L ∧ names t p ∧ t.2 = d') ∨ (p = href ∧ d' = d)) as HLd.
  { intros p d'. setoid_rewrite elem_of_app. setoid_rewrite list_elem_of_singleton. split.
    - intros (t & [?| ->] & Hn & Hd); [naive_solver|]. right. unfold names in Hn. cbn in *. split; congruence.
    - intros [(t & ? & ? & ?)|[-> ->]]; naive_solver. }
  assert (mapping_wf (mapping_add href d (w_mapping s))) as W' by by apply mapping_add_wf.
  assert (∀ p d', d' ∈ devices_in (mapping_add href d (w_mapping s)) p ↔
    d' ∈ devices_in (w_mapping s0) p ∨ ∃ t, t ∈ L ++ [(derp, fsa, d)] ∧ names t p ∧ t.2 = d') as P'.
  { intros p d'. rewrite mapping_add_devices, P, HLd by done. tauto. }
  assert (∀ p, p ∈ seen.1 ∪ {[href]} ↔ ∃ t, t ∈ L ++ [(derp, fsa, d)] ∧ names t p) as S1'.
  { intros p. rewrite elem_of_union, elem_of_singleton, S1, HL. tauto. }
  assert (∀ p pg, p ≠ href → dict_get p (w_programs s) = Some pg →
    comes_from (w_programs s0) (L ++ [(derp, fsa, d)]) p pg ∧ up_to_date (L ++ [(derp, fsa, d)]) p pg) as C'.
  { intros p pg Hp Hg. destruct (C p pg Hg) as [C1 C2]. split; [by apply comes_from_more|].
    intros Hex. apply HL in Hex as [Hex| ->]; [|done]. destruct (C2 Hex) as (t' & ? & ?). exists t'. split; [|done].
    apply elem_of_app. by left. }
  assert (∀ pg, pg_program pg = derp → ps_primacy (pg_state pg) = default 0%Z (pr_primacy derp) →
    up_to_date (L ++ [(derp, fsa, d)]) href pg) as U.
  { intros pg Hg1 Hg2 _. exists (derp, fsa, d). split_and!; [apply elem_of_app; right; by left|done..]. }
  apply wp_bind, wp_modify, wp_bind, wp_get. cbn. destruct (dict_mem href (w_programs s)) eqn:Em.
  - apply wp_bind, wp_modify, wp_ret. apply dict_mem_spec in Em.
    destruct (dict_get href (w_programs s)) as [old|] eqn:Eold; [|by apply dict_get_None in Eold].
    unfold on_program. cbn. rewrite Eold. split; cbn; [done|done|done|done|by apply dict_set_wf|..|done].
    + intros p. rewrite elem_of_dict_set_keys, K, HL. split; [|naive_solver].
      intros [->|?]; [by right; right|tauto].
    + intros p pg. rewrite dict_get_set. case_decide as Hp; [|by apply C'; rewrite ?Hp].
      intros [= <-]. subst p. split; [|by apply U]. destruct (C href old Eold) as [C1 _].
      apply (comes_from_more _ (derp, fsa, d)) in C1. unfold comes_from in *.
      destruct (dict_get href (w_programs s0)); [by trans old|]. destruct C1 as (t & ? & ? & ?). exists t.
      split_and!; [done..|by trans old].
  - assert (href ∉ dict_keys (w_programs s)) as Hnew by (rewrite <- dict_mem_spec; by rewrite Em).
    apply wp_bind, wp_bind. eapply wp_mono; [apply discover_program_spec|]. cbn. intros pg s1 [[F1 F2 F3 F4 F5] ->].
    apply wp_modify, wp_ret. cbn in *. split; cbn; rewrite ?F2, ?F3, ?F1; [done|done|done|done|by apply dict_set_wf|..|done].
    + intros p. rewrite elem_of_dict_set_keys, K, HL. naive_solver.
    + intros p pg. rewrite dict_get_set. case_decide as Hp; [|by apply C'].
      intros [= <-]. subst p. split; [|by apply U]. unfold comes_from.
      assert (href ∉ dict_keys (w_programs s0)) as Hn0 by (intros ?; apply Hnew, K; by left).
      apply dict_get_None in Hn0. rewrite Hn0. exists (derp, fsa, d). split_and!; [apply elem_of_app; right; by left|done..].
Qed.

Lemma follows_frame L B seen s s' : follows L B seen s → frame s s' → follows L B seen s'.
Proof. intros [] []. by split; rewrite ?fr_programs0, ?fr_mapping0, ?fr_edevs0. Qed.

Lemma refresh_fsa_follows d fsa L B seen s :
  follows L B seen s →
  wp (refresh_fsa_programs d fsa seen) s
    (follows (L ++ entries_for d (fsa_programs fsa)) (B ++ (fs_href <$> List.filter breaks_off [fsa]))).
Proof.
  intros Fo. unfold refresh_fsa_programs, fsa_programs, read_list. cbn. unfold breaks_off at 1.
  destruct (extract_href (fs_derp_list fsa)) as [h|]; [|apply wp_ret; cbn; by rewrite !app_nil_r].
  apply wp_bind, wp_fetch_paged; [apply rd_programs|]. rewrite st_programs.
  set (s1 := set_requests _ s). assert (follows L B seen s1) as Fo1 by (eapply follows_frame; [done|framed]).
  destruct (sv_programs 0%nat h) as [e|pages].
  - apply wp_ret. cbn. rewrite app_nil_r. destruct Fo1. split; try done. cbn. intros f.
    rewrite elem_of_union, elem_of_singleton, elem_of_app, list_elem_of_singleton, fo_broken0. done.
  - cbn. rewrite app_nil_r. apply (wp_fold_each _ _ _ (λ l, follows (L ++ entries_for d ((λ p, (p, fs_href fsa)) <$> l)) B)).
    + intros pre derp _ seen2 s2 _ F2. rewrite fmap_app, entries_app, app_assoc. by apply refresh_entry_follows.
    + cbn. by rewrite app_nil_r.
Qed.

Lemma refresh_devices_follow edevs s seen :
  follows [] [] seen s →
  wp (fold_each edevs seen (λ he seen, fold_each (es_fsas he.2) seen (refresh_fsa_programs he.1))) s
    (follows (relisted edevs) (broken edevs)).
Proof.
  intros Fo. apply (wp_fold_each _ _ _ (λ pre, follows (relisted pre) (broken pre))); [|done].
  intros pre [h e] _ seen1 s1 _ F1. cbn.
  replace (relisted (pre ++ [(h, e)])) with (relisted pre ++ entries_for h (mjoin (fsa_programs <$> es_fsas e))).
  2:{ unfold relisted. rewrite fmap_app, join_app. cbn. by rewrite app_nil_r. }
  replace (broken (pre ++ [(h, e)])) with (broken pre ++ (fs_href <$> List.filter breaks_off (es_fsas e))).
  2:{ unfold broken. rewrite fmap_app, join_app, List.filter_app, fmap_app. cbn. by rewrite app_nil_r. }
  apply (wp_fold_each _ _ _ (λ l, follows (relisted pre ++ entries_for h (mjoin (fsa_programs <$> l)))
    (broken pre ++ (fs_href <$> List.filter breaks_off l)))).
  - intros l fsa _ seen2 s2 _ F2. rewrite fmap_app, join_app, entries_app, List.filter_app, fmap_app, !app_assoc.
    replace (mjoin (fsa_programs <$> [fsa])) with (fsa_programs fsa) by (cbn; by rewrite app_nil_r).
    by apply refresh_fsa_follows.
  - cbn. by rewrite !app_nil_r.
Qed.
End Refresh.

Lemma prune_programs_edevs removed s : w_edevs (prune_programs removed s) = w_edevs s.
Proof. revert s. induction removed as [|h l IH]; intros s; [done|]. exact (IH _). Qed.

Lemma prune_programs_spec removed s :
  mapping_wf (w_mapping s) →
  let s' := prune_programs removed s in
  mapping_wf (w_mapping s') ∧
  (∀ p, dict_get p (w_programs s') = if decide (p ∈ removed) then None else dict_get p (w_programs s)) ∧
  (∀ p, devices_in (w_mapping s') p = if decide (p ∈ removed) then [] else devices_in (w_mapping s) p).
Proof.
  revert s. induction removed as [|h removed IH]; intros s W.
  - cbn. split_and!; [done|intros p; by rewrite decide_False by apply not_elem_of_nil..].
  - set (s1 := set_mapping (mapping_remove_program h (w_mapping s)) (set_programs (dict_del h (w_programs s)) s)).
    change (prune_programs (h :: removed) s) with (prune_programs removed s1). cbv zeta.
    destruct (IH s1) as (W' & G & M); [by apply mapping_remove_wf|]. split_and!; [done|..]; intros p; rewrite ?G, ?M; cbn.
    + rewrite dict_get_del. repeat case_decide; set_solver.
    + rewrite mapping_remove_lookup. repeat case_decide; set_solver.
Qed.

(** What a refresh of the programs makes of a state. *)
Definition refreshed_as (s : Found) (removed : list string) (s' : Found) : Prop :=
  let listed := relisted (w_edevs s) in
  mapping_wf (w_mapping s') ∧ w_edevs s' = w_edevs s ∧
  (∀ p, p ∈ removed ↔ ∃ pg, dict_get p (w_programs s) = Some pg ∧ ¬ (∃ t, t ∈ listed ∧ names t p) ∧
     ps_fsa (pg_state pg) ∉ broken (w_edevs s)) ∧
  (∀ p pg, dict_get p (w_programs s') = Some pg →
     p ∉ removed ∧ comes_from (w_programs s) listed p pg ∧ up_to_date listed p pg) ∧
  (∀ p, p ∈ dict_keys (w_programs s') ↔
     p ∉ removed ∧ (p ∈ dict_keys (w_programs s) ∨ ∃ t, t ∈ listed ∧ names t p)) ∧
  (∀ p d, d ∈ devices_in (w_mapping s') p ↔
     p ∉ removed ∧ (d ∈ devices_in (w_mapping s) p ∨ ∃ t, t ∈ listed ∧ names t p ∧ t.2 = d)).

Lemma refresh_der_programs_spec s :
  w_edevs s ≠ [] → mapping_wf (w_mapping s) → dict_wf (w_programs s) → wp refresh_der_programs s (refreshed_as s).
Proof.
  intros Hne W D.
  assert (follows s [] [] (∅, ∅) s) as F0.
  { assert (∀ P : Entry → Prop, ¬ ∃ t, t ∈ ([] : list Entry) ∧ P t) as Hno by (intros P (t & ?%elem_of_nil & _); done).
    split; cbn; try done.
    - intros p. split; [by intros ?%elem_of_empty|]. intros He. by apply Hno in He.
    - intros f. by rewrite elem_of_empty, elem_of_nil.
    - intros p d. split; [by left|]. intros [?|He]; [done|by apply Hno in He].
    - intros p. split; [by left|]. intros [?|He]; [done|by apply Hno in He].
    - intros p pg Hg. split; [unfold comes_from; by rewrite Hg|]. intros He. by apply Hno in He. }
  pose proof (refresh_devices_follow s (w_edevs s) s _ F0) as (seen & s1 & H1 & [S1 S2 W1 P1 D1 K1 C1 E1]).
  set (removed := dict_keys (filter (stale seen) (w_programs s1))).
  exists removed, (prune_programs removed s1).
  destruct (prune_programs_spec removed s1 W1) as (W2 & G2 & M2).
  assert (∀ p, p ∈ removed ↔ ∃ pg, dict_get p (w_programs s1) = Some pg ∧ stale seen (p, pg)) as Hrem.
  { intros p. unfold removed, dict_keys. rewrite list_elem_of_fmap. split.
    - intros ([p' pg] & -> & [Hst Hin]%list_elem_of_filter). exists pg. split; [by apply dict_elem_get|done].
    - intros (pg & Hg & Hst). exists (p, pg). split; [done|]. apply list_elem_of_filter. split; [done|by apply dict_get_elem]. }
  split; [|unfold refreshed_as; cbv zeta; split_and!].
  - unfold refresh_der_programs, bind, get. destruct (w_edevs s) as [|he edevs] eqn:Ee; [done|]. by rewrite H1.
  - done.
  - by rewrite prune_programs_edevs.
  - intros p. rewrite Hrem. unfold stale. cbn. setoid_rewrite S1. setoid_rewrite S2. split.
    + intros (pg & Hg & Hs & Hf). destruct (C1 p pg Hg) as [Hc _]. unfold comes_from in Hc.
      destruct (dict_get p (w_programs s)) as [old|]; [|naive_solver]. exists old. split_and!; [done..|].
      by rewrite <- (kp_fsa _ _ Hc).
    + intros (old & Hold & Hs & Hf). destruct (dict_get p (w_programs s1)) as [pg|] eqn:Eg.
      * exists pg. split_and!; [done..|]. destruct (C1 p pg Eg) as [Hc _]. unfold comes_from in Hc. rewrite Hold in Hc.
        by rewrite (kp_fsa _ _ Hc).
      * apply dict_get_None in Eg. exfalso. apply Eg, K1. left. apply dict_get_elem in Hold.
        apply list_elem_of_fmap. by exists (p, old).
  - intros p pg. rewrite G2. case_decide; [done|]. intros Hg. split; [done|]. by apply C1.
  - intros p. rewrite <- K1. pose proof (dict_get_None p (w_programs (prune_programs removed s1))) as N'.
    pose proof (dict_get_None p (w_programs s1)) as N1. rewrite G2 in N'. case_decide; [tauto|].
    destruct (decide (p ∈ dict_keys (w_programs s1))), (decide (p ∈ dict_keys (w_programs (prune_programs removed s1)))); tauto.
  - intros p d. rewrite M2. case_decide; [|rewrite P1; tauto]. rewrite elem_of_nil. tauto.
Qed.


Lemma refresh_no_programs s : w_programs s = [] → refresh_der_controls s = (inr tt, s).
Proof. intros Hp. unfold refresh_der_controls, bind, get. by rewrite Hp. Qed.

Lemma calls_run l s :
  for_each l (λ h, call (CancelProgram h)) s = (inr tt, set_calls (w_calls s ++ (CancelProgram <$> l)) s : Found).
Proof.
  revert s. induction l as [|h l IH]; intros s; cbn; [rewrite app_nil_r; by destruct s|].
  unfold bind, call, modify. fold (call (CancelProgram h)). etrans; [apply IH|]. cbn. by rewrite <- app_assoc.
Qed.

(** Programs of the DeviceCapability do not outlive the first poll.  From a
    server whose devices have no FSAs, discovery takes the programs the
    DeviceCapability lists, as meant for such servers; the next poll of the
    programs, from the same server, removes all of them and cancels their
    events. *)
Theorem fallback_programs_pruned (pins : list string) (path : string) (s : Found) (dcap : Dcap) :
  sv_dcap (w_tick s) path = inr dcap → (∀ device, device ∈ listed_devices dcap → fsas_of device = []) →
  ∃ s1 s2, discover pins path s = (inr tt, s1) ∧ do_poll_derp s1 = (inr tt, s2) ∧
    (∀ t p, t ∈ assigned dcap → names t p →
       p ∈ dict_keys (w_programs s1) ∧ t.2 ∈ devices_in (w_mapping s1) p ∧
       p ∉ dict_keys (w_programs s2) ∧ devices_in (w_mapping s2) p = [] ∧ CancelProgram p ∈ w_calls s2).
Proof.
  intros Hd Hnone.
  destruct (discover_tracks pins path s dcap Hd) as ([] & s1 & Hs1 & [W P D K C] & [E1 E2 E3] & _).
  assert (∀ he, he ∈ w_edevs s1 → es_fsas he.2 = []) as Hfsas.
  { intros [h e] He. destruct (E3 h e) as (device & Hdev & _ & [_ B _] & _); [by apply dict_elem_get|].
    cbn. rewrite B. by apply Hnone. }
  assert (relisted (w_edevs s1) = [] ∧ broken (w_edevs s1) = []) as [Hl Hb].
  { clear -Hfsas. unfold relisted, broken. induction (w_edevs s1) as [|he l IH]; [done|]. cbn. rewrite (Hfsas he) by left.
    apply IH. intros ??. apply Hfsas. by right. }
  assert (∃ removed s2, refresh_der_programs s1 = (inr removed, s2) ∧ w_programs s2 = [] ∧
    ∀ p, p ∈ dict_keys (w_programs s1) → p ∈ removed ∧ devices_in (w_mapping s2) p = []) as (removed & s2 & R1 & R2 & R3).
  { destruct (decide (dict_keys (w_edevs s1) = [])) as [He|He].
    - assert (w_edevs s1 = []) as He' by (by destruct (w_edevs s1)). exists [], s1.
      assert (w_programs s1 = []) as Hp.
      { destruct (w_programs s1) as [|[p pg] l] eqn:Ep; [done|]. exfalso. destruct (proj1 (K p)) as (t & Ht & _); [by left|].
        unfold assigned in Ht. apply list_elem_of_join in Ht as (l' & Ht & Hl'). apply list_elem_of_fmap in Hl' as (device & -> & Hdev). unfold device_entries in Ht.
        destruct (extract_href (en_href device)) as [d|] eqn:Eh; [|by apply elem_of_nil in Ht].
        assert (d ∈ dict_keys (w_edevs s1)) as Hk by (apply E2; eauto). rewrite He in Hk. by apply elem_of_nil in Hk. }
      rewrite Hp. split_and!; [|done|intros p Hk; by apply elem_of_nil in Hk].
      unfold refresh_der_programs, bind, get. by rewrite He'.
    - destruct (refresh_der_programs_spec s1) as (removed & s2 & R & _ & _ & R1 & _ & R2 & R3); [|done..|].
      { intros He'. by rewrite He' in He. }
      rewrite Hl, Hb in R1. rewrite Hl in R2, R3. exists removed, s2.
      assert (∀ p, p ∈ dict_keys (w_programs s1) → p ∈ removed) as Hrem.
      { intros p Hk. apply R1. destruct (dict_get p (w_programs s1)) as [pg|] eqn:Eg; [|by apply dict_get_None in Eg].
        exists pg. split_and!; [done| |apply not_elem_of_nil]. intros (t & Ht & _). by apply elem_of_nil in Ht. }
      assert (∀ p, ¬ ∃ t : Entry, t ∈ ([] : list Entry) ∧ names t p) as Hno by (intros p (t & Ht & _); by apply elem_of_nil in Ht).
      split_and!; [done| |].
      + destruct (w_programs s2) as [|[p pg] l] eqn:Ep; [done|]. exfalso.
        destruct (proj1 (R2 p)) as [Hr [Hk|Hk]]; [by left|by apply Hr, Hrem|by apply Hno in Hk].
      + intros p Hk. split; [by apply Hrem|]. destruct (devices_in (w_mapping s2) p) as [|d l] eqn:Ed; [done|].
        destruct (proj1 (R3 p d)) as [Hr _]; [rewrite Ed; by left|]. by apply Hrem in Hk. }
  eexists s1, _. split; [done|]. split.
  { unfold do_poll_derp, bind. rewrite R1, calls_run. rewrite refresh_no_programs by done. unfold get. cbn. rewrite R2. done. }
  intros t p Ht Hn. assert (p ∈ dict_keys (w_programs s1)) as Hk by (apply K; eauto).
  destruct (R3 p Hk) as [Hr Hm]. cbn. rewrite R2. split_and!; [done|apply P; eauto|apply not_elem_of_nil|done|].
  apply elem_of_app. right. apply list_elem_of_fmap. eauto.
Qed.
End Listed.

(** ** Refreshing the controls *)

Section Controls.
Context `{sv : Server}.

(** A program after its resources have been read again. *)
Definition refreshed_state (derp : Derprogram) (st : DerProgramState) : DerProgramState :=
  {| ps_href := ps_href st; ps_primacy := ps_primacy st;
     ps_default := match extract_href (pr_default derp) with
                   | None => None
                   | Some h => match sv_default 0%nat h with
                               | inr d => Some d.1
                               | inl (Protocol _) => None
                               | inl _ => ps_default st
                               end
                   end;
     ps_controls := match extract_href (pr_control_list derp) with
                    | None => ps_controls st
                    | Some h => match sv_controls 0%nat h with inr pages => items pages | inl _ => ps_controls st end
                    end;
     ps_curves := match extract_href (pr_curve_list derp) with
                  | None => []
                  | Some h => match sv_curves 0%nat h with inr pages => items pages | inl _ => ps_curves st end
                  end;
     ps_fsa := ps_fsa st;
     ps_controls_complete := match extract_href (pr_control_list derp) with
                             | None => ps_controls_complete st
                             | Some h => match sv_controls 0%nat h with inr _ => true | inl _ => ps_controls_complete st end
                             end;
     ps_control_list_link := ps_control_list_link st; ps_default_link := ps_default_link st |}.
Definition refreshed_program (p : Prog) : Prog := with_state (refreshed_state (pg_program p)) p.

(** Absent, unusable or out of reach, but neither refused nor cancelled. *)
Definition or_kept {A} (r : WalkError + A) : Prop :=
  match r with inl (Protocol status) => is_absent status = true | inl Cancelled => False | _ => True end.

(** The state with only the program at one place replaced. *)
Record at_place (a b : dict string Prog) (h : string) (s : Found) (p : Prog) (s' : Found) : Prop := mkPlace {
  pl_programs : w_programs s' = a ++ (h, p) :: b;
  pl_mapping : w_mapping s' = w_mapping s;
  pl_edevs : w_edevs s' = w_edevs s;
}.

Lemma on_program_place a b h s p s' f :
  dict_wf (a ++ (h, p) :: b) → at_place a b h s p s' → at_place a b h s (f p) (on_program h f s').
Proof.
  intros W [P M E]. destruct (dict_middle a b h p (f p) W) as [Hg Hs]. unfold on_program. rewrite P, Hg. split; [exact Hs|done..].
Qed.

Lemma place_tick a b h s p s' n : at_place a b h s p s' → at_place a b h s p (set_requests n s').
Proof. by intros []. Qed.

Context `{!Steady sv}.
Context (default_kept : ∀ h, or_kept (sv_default 0%nat h)) (curves_kept : ∀ h, or_kept (sv_curves 0%nat h))
  (controls_kept : ∀ h, or_kept (sv_controls 0%nat h)).

Lemma wp_refreshed {A} (answer : Answer A) h store absent s (Q : Found → Prop) :
  or_kept (answer (w_tick s) h) →
  (let s1 := set_requests (S (w_tick s)) s in
   match answer (w_tick s) h with inr a => Q (store a s1) | inl (Protocol _) => Q (absent s1) | inl _ => Q s1 end) →
  wp (refreshed answer h store absent) s (λ _, Q).
Proof.
  intros Hk HQ. apply wp_try_fetch.
  - intros a Ha. apply wp_modify. by rewrite Ha in HQ.
  - intros e He. rewrite He in HQ, Hk. destruct e; cbn in *; try done.
    + rewrite Hk. by apply wp_modify.
    + by apply wp_ret.
    + by apply wp_ret.
Qed.

Lemma refresh_program_place a b h s p s1 :
  dict_wf (a ++ (h, p) :: b) → at_place a b h s p s1 →
  wp (refresh_program h (pg_program p)) s1 (λ _, at_place a b h s (refreshed_program p)).
Proof.
  intros W P1. set (derp := pg_program p).
  set (d := match extract_href (pr_default derp) with
            | None => None
            | Some l => match sv_default 0%nat l with
                        | inr d => Some d.1 | inl (Protocol _) => None | inl _ => ps_default (pg_state p) end
            end).
  set (p2 := with_state (set_default d) p).
  apply wp_bind. apply (wp_mono _ _ (λ _, at_place a b h s p2)).
  { unfold refresh_default, p2, d. destruct (extract_href (pr_default derp)) as [l|].
    - apply wp_refreshed; rewrite st_default; [apply default_kept|]. cbv zeta.
      destruct (sv_default 0%nat l) as [[]|x]; try (apply on_program_place; [done|by apply place_tick]);
        (replace (with_state _ p) with p by (destruct p as [? [] ? ?]; done); by apply place_tick).
    - by apply wp_modify, on_program_place. }
  intros _ s2 P2. set (c := match extract_href (pr_curve_list derp) with
                  | None => []
                  | Some l => match sv_curves 0%nat l with inr pages => items pages | inl _ => ps_curves (pg_state p) end
                  end).
  set (p3 := with_state (set_curves c) p2). assert (dict_wf (a ++ (h, p2) :: b)) as W2.
  { unfold dict_wf, dict_keys in *. rewrite fmap_app in *. done. }
  apply wp_bind. apply (wp_mono _ _ (λ _, at_place a b h s p3)).
  { unfold refresh_curves_for_program, p3, c. destruct (extract_href (pr_curve_list derp)) as [l|].
    - apply wp_refreshed; rewrite st_curves; [apply curves_kept|]. cbv zeta.
      destruct (sv_curves 0%nat l) as [[]|x]; try (apply on_program_place; [done|by apply place_tick]);
        (replace (with_state _ p2) with p2 by (subst p2; by destruct p as [? [] ? ?]); by apply place_tick).
    - by apply wp_modify, on_program_place. }
  intros _ s3 P3. assert (dict_wf (a ++ (h, p3) :: b)) as W3.
  { unfold dict_wf, dict_keys in *. rewrite fmap_app in *. done. }
  unfold refresh_control_list, refreshed_program, refreshed_state. fold derp d c.
  destruct (extract_href (pr_control_list derp)) as [l|] eqn:El.
  - apply wp_refreshed; rewrite st_controls; [apply controls_kept|]. cbv zeta.
    destruct (sv_controls 0%nat l) as [[]|x].
    5: refine (on_program_place a b h s p3 _ (with_state (set_controls (items x))) W3 _).
    all: exact (place_tick _ _ _ _ _ _ _ P3).
  - apply wp_ret. exact P3.
Qed.

(** A refresh of the controls is what the server holds.  From a server that
    lists the same meanwhile and refuses no resource outright, it returns, and
    every program has the default, the curves and the controls the server has
    now: without its link the default and the curves are gone, absent the
    default is, and what cannot be read is kept as it was; the controls count
    as complete from the first time their list is read as a whole. *)
Theorem controls_refreshed (s : Found) :
  dict_wf (w_programs s) →
  ∃ s', refresh_der_controls s = (inr tt, s') ∧ w_mapping s' = w_mapping s ∧ w_edevs s' = w_edevs s ∧
    w_programs s' = (λ hp, (hp.1, refreshed_program hp.2)) <$> w_programs s.
Proof using All.
  intros W. set (f := λ hp : string * Prog, (hp.1, refreshed_program hp.2)).
  assert (wp refresh_der_controls s (λ _ s', w_mapping s' = w_mapping s ∧ w_edevs s' = w_edevs s ∧
    w_programs s' = f <$> w_programs s)) as ([] & s' & H & ? & ? & ?); [|by exists s'].
  apply wp_bind, wp_get.
  eapply wp_mono; [apply (wp_for_each _ _ (λ pre s', w_mapping s' = w_mapping s ∧ w_edevs s' = w_edevs s ∧
    w_programs s' = (f <$> pre) ++ drop (length pre) (w_programs s)))|].
  - intros pre [h p] post s1 Hl (M & E & P). cbn.
    rewrite Hl, drop_app_length in P.
    eapply wp_mono; [apply (refresh_program_place (f <$> pre) post h s p)|].
    + rewrite Hl in W. unfold dict_wf, dict_keys in *. rewrite fmap_app in *. cbn in *. rewrite <- list_fmap_compose. done.
    + by split.
    + intros _ s2 [P2 M2 E2]. split_and!; [done..|]. rewrite P2, Hl, length_app, fmap_app, <- app_assoc. cbn. f_equal. f_equal.
      rewrite <- drop_drop, drop_app_length. done.
  - done.
  - cbn. intros _ s' (M & E & P). split_and!; [done..|]. by rewrite P, drop_all, app_nil_r.
Qed.
End Controls.

(** A curve list that the server refuses keeps the controls from being refreshed,
    although its failures are meant to be logged and passed over. *)
Theorem curve_fault_withholds_controls `{sv : Server} (s : Found) (h l : string) (p : Prog) (status : Z) :
  dict_get h (w_programs s) = Some p → extract_href (pr_curve_list (pg_program p)) = Some l →
  (∀ n, sv_curves n l = inl (Protocol status)) → is_absent status = false →
  ∃ e s' p', refresh_der_controls_for_program h s = (inl e, s') ∧ dict_get h (w_programs s') = Some p' ∧
    ps_controls (pg_state p') = ps_controls (pg_state p).
Proof.
  intros Hp Hl Hc Ha. unfold refresh_der_controls_for_program, bind at 1, get. cbn beta iota. rewrite Hp.
  unfold refresh_program.
  assert (∃ s1 p1 r, refresh_default h (pg_program p) s = (r, s1) ∧ dict_get h (w_programs s1) = Some p1 ∧
    ps_controls (pg_state p1) = ps_controls (pg_state p)) as (s1 & p1 & r & H1 & Hp1 & Hc1).
  { unfold refresh_default, refreshed, on_program, try_, fetch, bind, modify, raise, ret.
    destruct (extract_href (pr_default (pg_program p))) as [d|]; [destruct (sv_default (w_tick s) d) as [[st| | |]|x]|];
      try (destruct (is_absent st)); cbn; rewrite ?Hp; eexists _, _, _;
      (split; [reflexivity|]); cbn; (split; [first [apply dict_get_set_eq|exact Hp]|done]). }
  destruct r as [e|[]].
  - exists e, s1, p1. split_and!; [|done..]. unfold bind. by rewrite H1.
  - exists (Protocol status), (set_requests (S (w_tick s1)) s1), p1. split_and!; [|done..].
    unfold bind. rewrite H1. unfold refresh_curves_for_program, refreshed, try_, bind, fetch. rewrite Hl, Hc, Ha. done.
Qed.

(** ** Samples *)

Definition list_at {A} (l : dict string (list A)) : ListAnswer A :=
  λ _ h, inr match dict_get h l with Some xs => [mkWPage xs (Some 60%Z) true] | None => [] end.

Definition sample_device (href : string) (fsa_list : option string) : EndDevice :=
  {| en_href := Some href; en_lfdi := Some href; en_log_events := None; en_sub_list := Some "/sub";
     en_registration := Some "/rg"; en_der_list := Some "/der"; en_fsa_list := fsa_list |}.
Definition sample_derp (href : string) : Derprogram :=
  {| pr_href := Some href; pr_primacy := Some 1%Z; pr_default := Some "/dderc";
     pr_control_list := Some (String.append href "/derc"); pr_curve_list := Some "/dc" |}.
Definition sample_fsa (href : string) : Fsa :=
  {| fs_href := Some href; fs_derp_list := Some (String.append href "/derp"); fs_tariff_list := None;
     fs_time := Some "/tm" |}.
Definition sample_control : Dercontrol :=
  {| m_rid := "m"; dercontrol_base := {| base_fields := []; other_element := [] |}; interval_start := 0%Z;
     interval_duration := 60%Z; randomize_start := None; randomize_duration := None; event_status := None;
     creation_time := None; response_required := None; reply_to := None |}.
Definition walk_dcap (derp_list : option string) : Dcap :=
  {| dc_poll_rate := Some 300%Z; dc_time := Some "/tm"; dc_self_device := Some "/sdev"; dc_mup_list := None;
     dc_edev_list := Some "/edev"; dc_derp_list := derp_list; dc_csipaus := false |}.

(** The controls of program /Q cannot be read; optional resources fail. *)
Definition walk_server (devices : list EndDevice) (fsas : dict string (list Fsa)) (programs : dict string (list Derprogram))
    (derp_list : option string) : Server :=
  {| sv_dcap _ _ := inr (walk_dcap derp_list);
     sv_time _ _ := inr {| ti_time := Some 1000%Z; ti_quality := Some 3%Z; ti_poll_rate := Some 60%Z |};
     sv_self_device _ _ := inl (Protocol 500); sv_sub_rate _ _ := inl Fault; sv_registration _ _ := inl (Protocol 404);
     sv_default _ _ := inl Payload; sv_edevs := list_at [("/edev", devices)]; sv_ders _ _ := inl (Protocol 503);
     sv_fsas := list_at fsas; sv_programs := list_at programs;
     sv_controls _ h := if decide (h = "/Q/derc") then inl Fault else inr [mkWPage [sample_control] None true];
     sv_curves _ _ := inl Fault; sv_tariffs := list_at []; sv_rates := list_at []; sv_intervals := list_at [];
     sv_clock _ := {| wall := 0; mono := 0 |}; sv_multi_der := false; sv_extensions := None |}.

Instance walk_server_readable devices fsas programs derp_list : Readable (walk_server devices fsas programs derp_list).
Proof. split; intros; cbn; repeat case_decide; done. Qed.
Instance walk_server_steady devices fsas programs derp_list : Steady (walk_server devices fsas programs derp_list).
Proof. by split. Qed.

(** Two devices whose FSAs share a program, and one without FSAs. *)
Definition shared_server : Server :=
  walk_server [sample_device "/d1" (Some "/d1/fsa"); sample_device "/d2" (Some "/d2/fsa"); sample_device "/d3" None]
    [("/d1/fsa", [sample_fsa "/fa"]); ("/d2/fsa", [sample_fsa "/fb"])]
    [("/fa/derp", [sample_derp "/P"]); ("/fb/derp", [sample_derp "/P"; sample_derp "/Q"]); ("/derp", [sample_derp "/R"])]
    (Some "/derp").

(** The same after the FSA of the first device has gone. *)
Definition unshared_server : Server :=
  walk_server [sample_device "/d1" (Some "/d1/fsa"); sample_device "/d2" (Some "/d2/fsa"); sample_device "/d3" None]
    [("/d1/fsa", []); ("/d2/fsa", [sample_fsa "/fb"])]
    [("/fa/derp", [sample_derp "/P"]); ("/fb/derp", [sample_derp "/P"; sample_derp "/Q"]); ("/derp", [sample_derp "/R"])]
    (Some "/derp").

Definition walk_start : Found := new_found false (new_timebase true 60 None).
Definition after {A} (m : W A) (s : Found) : Found := (m s).2.

Example shared_discovered :
  let s := after (@discover shared_server [] "/dcap") walk_start in
  program_to_devices (w_mapping s) = [("/P", ["/d1"; "/d2"]); ("/Q", ["/d2"]); ("/R", ["/d3"])] ∧
  ((λ hp, (hp.1, ps_controls_complete (pg_state hp.2), ps_fsa (pg_state hp.2))) <$> w_programs s) =
    [("/P", true, Some "/fa"); ("/Q", false, Some "/fb"); ("/R", true, None)] ∧
  w_poll_rates s = [("dcap", Some 300%Z); ("edev", Some 60%Z); ("fsa", Some 60%Z); ("derp", Some 60%Z); ("time", Some 60%Z)].
Proof. vm_compute. done. Qed.

Lemma discovery_finds_assignments_witness :
  ∃ s', @discover shared_server [] "/dcap" walk_start = (inr tt, s') ∧
    "/d2" ∈ devices_in (w_mapping s') "/Q" ∧ "/R" ∈ dict_keys (w_programs s').
Proof.
  destruct (@discovery_finds_assignments shared_server _ _ [] "/dcap" walk_start (walk_dcap (Some "/derp")) eq_refl)
    as (s' & H & _ & _ & _ & _ & P & K & _).
  exists s'. split; [exact H|]. split.
  - apply P. exists (sample_derp "/Q", Some "/fb", "/d2"). split; [|split; reflexivity].
    apply list_elem_of_lookup. exists 2%nat. vm_compute. reflexivity.
  - apply K. exists "/d3". apply P. exists (sample_derp "/R", None, "/d3"). split; [|split; reflexivity].
    apply list_elem_of_lookup. exists 3%nat. vm_compute. reflexivity.
Defined.

Definition shared_found : Found := after (@discover shared_server [] "/dcap") walk_start.


Lemma controls_refreshed_witness :
  ∃ s', @refresh_der_controls shared_server shared_found = (inr tt, s') ∧
    (ps_controls_complete ∘ pg_state <$> dict_get "/P" (w_programs s')) = Some true.
Proof.
  destruct (@discover_tracks shared_server _ _ [] "/dcap" walk_start (walk_dcap (Some "/derp")) eq_refl)
    as ([] & s1 & H1 & T1 & _).
  destruct (@controls_refreshed shared_server _) with (s := shared_found) as (s' & H & _ & _ & P).
  - intros h. exact I.
  - intros h. exact I.
  - intros h. cbn. case_decide; exact I.
  - unfold shared_found, after. rewrite H1. exact (tk_dict _ _ _ T1).
  - exists s'. split; [exact H|]. rewrite P. vm_compute. reflexivity.
Defined.

(** A server without FSAs. *)
Definition plain_server : Server :=
  walk_server [sample_device "/d1" None; sample_device "/d2" None] [] [("/derp", [sample_derp "/R"])] (Some "/derp").

Lemma fallback_programs_pruned_witness :
  ∃ s1 s2, @discover plain_server [] "/dcap" walk_start = (inr tt, s1) ∧ @do_poll_derp plain_server s1 = (inr tt, s2) ∧
    "/d2" ∈ devices_in (w_mapping s1) "/R" ∧ CancelProgram "/R" ∈ w_calls s2.
Proof.
  destruct (@fallback_programs_pruned plain_server _ _ [] "/dcap" walk_start (walk_dcap (Some "/derp")) eq_refl)
    as (s1 & s2 & H1 & H2 & H).
  - intros device Hd. repeat (apply elem_of_cons in Hd as [->|Hd]; [reflexivity|]). by apply elem_of_nil in Hd.
  - exists s1, s2. split_and!; [exact H1|exact H2|..];
      destruct (H (sample_derp "/R", None, "/d2") "/R") as (_ & Hm & _ & _ & Hc); try done;
      apply list_elem_of_lookup; exists 1%nat; vm_compute; reflexivity.
Defined.

(** A device keeps a program its FSA has gone from.  Two devices share a
    program through an FSA each; the FSA of the first goes away.  The poll of the
    FSAs cancels the program's events, also for the second device, whose FSA
    still lists it; the next poll of the programs finds the program anew and
    maps it to both devices again, and processes its controls, although the
    server lists it for the second one only. *)
Theorem unassigned_device_keeps_program :
  let s1 := after (@do_poll_fsa unshared_server ∅) shared_found in
  let s2 := after (@do_poll_derp unshared_server) s1 in
  @programs_of unshared_server (walk_dcap None) (sample_device "/d1" (Some "/d1/fsa")) = [] ∧
  w_calls s1 = [CancelProgram "/P"] ∧ dict_mem "/P" (w_programs s1) = false ∧
  dict_mem "/P" (w_programs s2) = true ∧ devices_in (w_mapping s2) "/P" = ["/d1"; "/d2"] ∧
  ProcessControls "/P" ∈ w_calls s2.
Proof.
  cbv zeta. split_and!; [vm_compute; reflexivity..|]. apply list_elem_of_lookup. exists 3%nat. vm_compute. reflexivity.
Qed.
