(* ===== verification/SunspecDevice.v ===== *)
(** * The SunSpec device as the Modbus core sees it

    The values and errors of connectors/sunspec/_modbus.py, and the interface it
    uses of the third-party [pysunspec2] client: a table of scanned models whose
    points carry a cached raw [value] and scaled [cvalue], filled by [read()] and
    sent by [write()].  [Sunspec2] is that interface; nothing is assumed of it
    until [SunspecProps.v], where the properties name the laws they rely on. *)

From S2P Require Import Prelude Controls Response Scaling.
From Stdlib Require Import Ascii QArith.
#[local] Open Scope Z_scope.

(** ** Python values and numbers

    A float is a rational number, an infinity or NaN; arithmetic on finite floats
    is exact, and overflow is kept. *)

Inductive Flt := FFin (q : Q) | FInf (neg : bool) | FNaN.

Inductive CoreVal :=
  | CNone
  | CBool (b : bool)
  | CInt (z : Z)
  | CFlt (f : Flt)
  | CStr (s : string)
  | CList (l : list CoreVal)
  | CDict (d : list (string * CoreVal)).

Abbreviation CoreParams := (dict string CoreVal) (only parsing).

(** The integers [float()] takes: the first that rounds out of range is
    [2^1024 - 2^970]. *)
Definition FLOAT_LIMIT : Z := 2 ^ 1024 - 2 ^ 970.

Definition float_of_int (z : Z) : option Q :=
  if Z.abs z <? FLOAT_LIMIT then Some (inject_Z z) else None.

(** A finite float result, or the infinity it overflows to. *)
Definition fin (q : Q) : Flt :=
  if Qle_bool (inject_Z FLOAT_LIMIT) q then FInf false
  else if Qle_bool q (inject_Z (- FLOAT_LIMIT)) then FInf true else FFin q.

(** [bool(v)] *)
Definition truthy (v : CoreVal) : bool :=
  match v with
  | CNone => false
  | CBool b => b
  | CInt z => negb (z =? 0)
  | CFlt (FFin q) => negb (Qeq_bool q 0)
  | CFlt _ => true
  | CStr s => negb (bool_decide (s = ""))
  | CList l => match l with [] => false | _ => true end
  | CDict d => match d with [] => false | _ => true end
  end.

Definition is_none (v : CoreVal) : bool := match v with CNone => true | _ => false end.

(** A value in arithmetic and comparisons; a bool is an int. *)
Definition num_of (v : CoreVal) : option Q :=
  match v with
  | CBool b => Some (if b then 1%Q else 0%Q)
  | CInt z => Some (inject_Z z)
  | CFlt (FFin q) => Some q
  | _ => None
  end.

(** [v == w] for the values an enable point takes. *)
Definition py_eq (v w : CoreVal) : bool :=
  match num_of v, num_of w with
  | Some a, Some b => Qeq_bool a b
  | None, None => is_none v && is_none w
  | _, _ => false
  end.

Definition is_one (v : CoreVal) : bool := py_eq v (CInt 1).

(** [params.get(name, default)] *)
Definition param (name : string) (dflt : CoreVal) (p : CoreParams) : CoreVal :=
  default dflt (dict_get name p).

(** [min(a, b)]: the first of two equal numbers. *)
Definition qmin (a b : Q) : Q := if Qle_bool a b then a else b.

(** [round(q)], ties to even. *)
Definition round_q (q : Q) : Z := div_round (Qnum q) (Zpos (Qden q)).

(** ** Errors *)

Inductive SExn :=
  | Declared (e : DispatchError)                  (* ConnectorValueError, ModeNotSupportedError *)
  | ConnectorConnectionError (permanent : bool)
  | ConnectorTimeoutError
  | ConnectorWriteError
  | LibError (message : string)                   (* raised by pysunspec2 *)
  | PyError (name : string).                      (* raised by Python itself *)

(** As the dispatcher sees it. *)
Definition dispatch_error (e : SExn) : DispatchError :=
  match e with
  | Declared d => d
  | ConnectorConnectionError _ => OtherDispatchError "ConnectorConnectionError"
  | ConnectorTimeoutError => OtherDispatchError "ConnectorTimeoutError"
  | ConnectorWriteError => OtherDispatchError "ConnectorWriteError"
  | LibError _ => OtherDispatchError "Exception"
  | PyError n => OtherDispatchError n
  end.

(** *** Permanent Modbus exceptions *)

Definition PERMANENT_MODBUS_CODES : list Z := [1; 2; 3; 4].

Fixpoint strip_prefix (pre s : string) : option string :=
  match pre, s with
  | EmptyString, _ => Some s
  | String a pre', String b s' => if Ascii.eqb a b then strip_prefix pre' s' else None
  | _, _ => None
  end.

(** [\d+], greedily: [int] of the digits [s] starts with. *)
Fixpoint leading_digits (acc : option Z) (s : string) : option Z :=
  match s with
  | String c s' =>
      match digit_of c with
      | Some d => leading_digits (Some (default 0 acc * 10 + d)) s'
      | None => acc
      end
  | EmptyString => acc
  end.

(** [:?\s*(\d+)] at the start of [s]. *)
Definition code_after (s : string) : option Z :=
  leading_digits None (lstrip (default s (strip_prefix ":" s))).

(** [_MODBUS_EXCEPTION_RE.search]: the group of the leftmost match. *)
Fixpoint modbus_code (s : string) : option Z :=
  match (strip_prefix "Modbus exception" s ≫= code_after), s with
  | Some n, _ => Some n
  | None, String _ s' => modbus_code s'
  | None, EmptyString => None
  end.

Definition permanent_message (s : string) : bool :=
  match modbus_code s with Some n => bool_decide (n ∈ PERMANENT_MODBUS_CODES) | None => false end.

(** The messages this core raises itself never have the pattern. *)
Definition is_permanent_modbus_error (e : SExn) : bool :=
  match e with LibError m => permanent_message m | _ => false end.

(** ** Points and blocks *)

Inductive Point :=
  | Pt (m : Z) (name : string)                    (* model.<name>, dotted inside a group *)
  | CrvPt (m : Z) (name : string)                 (* model.Crv[1].<name> *)
  | CrvPtPt (m : Z) (i : nat) (name : string)     (* model.Crv[1].Pt[i].<name> *)
  | CtlPt (m : Z) (name : string).                (* model.Ctl[1].<name> *)

#[export] Instance Point_eq_dec : EqDecision Point.
Proof. solve_decision. Defined.

(** What one [read()] or [write()] covers. *)
Inductive Block := AModel (m : Z) | APoint (p : Point) | ACrv (m : Z) | ACtl (m : Z).

(** ** The client's interface *)

Class Sunspec2 (D : Type) := {
  model_ids_of : D → list Z;                      (* the int keys of target.models *)
  value : D → Point → option Z;                   (* point.value; None: not implemented *)
  cvalue : D → Point → CoreVal;                   (* point.cvalue; None also without the point *)
  crv_count : D → Z → nat;                        (* len(model.Crv) *)
  ctl_count : D → Z → nat;                        (* len(model.Ctl) *)
  pt_count : D → Z → nat;                         (* len(model.Crv[1].Pt) *)
  set_value : Point → CoreVal → D → option string * D;
  set_cvalue : Point → CoreVal → D → option string * D;
  read : Block → D → option string * D;
  write : Block → D → option string * D;
  scan : D → option string * D;
  disconnect : D → option string * D;
  connect : D → option string * D;
  sleep : Q → D → D;                              (* time.sleep *)
  monotonic : D → Q;                              (* time.monotonic() *)
  wall_time : D → Z;                              (* int(time.time()) *)
}.

(** The same model, through its handle. *)
Definition has_model {D} `{Sunspec2 D} (d : D) (m : Z) : bool := bool_decide (m ∈ model_ids_of d).
