(* ===== verification/SunspecMeter.v ===== *)
(** * SunSpec meters (connectors/sunspec/_meter.py)

    Which sign of a meter's real power is import, learned from the energy totals
    by [PowerSignCalibrator], and the monitoring values of a meter model in the
    frame of its role. *)

From S2P Require Import Prelude SunspecDevice.
From Stdlib Require Import QArith Qabs.
#[local] Open Scope Z_scope.

Definition METER_MODEL_IDS : list Z := [201; 202; 203; 204; 211; 212; 213; 214; 220].

Definition METER_AC_TYPE : dict Z Z :=
  [(201, 0); (202, 1); (203, 2); (204, 2); (211, 0); (212, 1); (213, 2); (214, 2)].

Definition CALIBRATION_OBSERVATIONS : Z := 2.
Definition CONTRADICTION_LIMIT : Z := 3.
Definition FIXED_SIGNS : dict string Z := [("import_positive", 1); ("export_positive", -1)].

(** ** The calibrator *)

Record Calibrator := mkCal {
  cal_sign : option Z;
  cal_candidate : option Z;
  cal_agreements : Z;
  cal_contradictions : Z;
  cal_warned : bool;
  cal_totals : option (Flt * Flt);
}.

(** [__init__]; [None] is its [ValueError]. *)
Definition new_calibrator (power_sign : string) : option Calibrator :=
  if bool_decide (power_sign = "auto") || dict_mem power_sign FIXED_SIGNS then
    Some (mkCal (dict_get power_sign FIXED_SIGNS) None 0 0 false None)
  else None.

(** [_is_number] with [float()] of the number. *)
Definition as_flt (v : CoreVal) : option Flt :=
  match v with
  | CInt z => Some (FFin (inject_Z z))
  | CFlt f => Some f
  | _ => None
  end.

(** [a - b] *)
Definition fsub (a b : Flt) : Flt :=
  match a, b with
  | FFin x, FFin y => fin (x - y)
  | FNaN, _ | _, FNaN => FNaN
  | FInf n, FInf m => if Bool.eqb n m then FNaN else FInf n
  | FInf n, FFin _ => FInf n
  | FFin _, FInf n => FInf (negb n)
  end.

Definition fpos (a : Flt) : bool :=
  match a with FFin x => negb (Qle_bool x 0) | FInf n => negb n | FNaN => false end.
Definition fzero (a : Flt) : bool := match a with FFin x => Qeq_bool x 0 | _ => false end.

Definition with_totals (t : option (Flt * Flt)) (c : Calibrator) : Calibrator :=
  mkCal (cal_sign c) (cal_candidate c) (cal_agreements c) (cal_contradictions c) (cal_warned c) t.

(** [_evidence] *)
Definition evidence (w imported exported : CoreVal) (c : Calibrator) : option Z * Calibrator :=
  match as_flt imported, as_flt exported with
  | Some i, Some e =>
      let c' := with_totals (Some (i, e)) c in
      match cal_totals c, as_flt w with
      | Some (i0, e0), Some p =>
          if fzero p then (None, c')
          else
            let rose_imp := fsub i i0 in
            let rose_exp := fsub e e0 in
            let positive := if fpos p then 1 else -1 in
            if fpos rose_imp && fzero rose_exp then (Some positive, c')
            else if fpos rose_exp && fzero rose_imp then (Some (- positive), c')
            else (None, c')
      | _, _ => (None, c')
      end
  | _, _ => (None, with_totals None c)
  end.

(** [_learn] *)
Definition learn (ev : Z) (c : Calibrator) : Calibrator :=
  let agrees := bool_decide (Some ev = cal_candidate c) in
  let n := if agrees then cal_agreements c + 1 else 1 in
  mkCal (if CALIBRATION_OBSERVATIONS <=? n then Some ev else cal_sign c)
        (if agrees then cal_candidate c else Some ev) n (cal_contradictions c) (cal_warned c)
        (cal_totals c).

(** [observe]: the sign is [cal_sign] of the result. *)
Definition observe_meter (w imported exported : CoreVal) (c : Calibrator) : Calibrator :=
  let '(ev, c) := evidence w imported exported c in
  match ev, cal_sign c with
  | None, _ => c
  | Some v, None => learn v c
  | Some v, Some s =>
      if v =? s then
        mkCal (Some s) (cal_candidate c) (cal_agreements c) 0 (cal_warned c) (cal_totals c)
      else
        let n := cal_contradictions c + 1 in
        mkCal (Some s) (cal_candidate c) (cal_agreements c) n
              (cal_warned c || (CONTRADICTION_LIMIT <=? n)) (cal_totals c)
  end.

(** ** Reading a meter model *)

(** [value * factor] and [abs(value)] of a numeric point. *)
Definition times (v : CoreVal) (factor : Z) : CoreVal :=
  match v with
  | CInt z => CInt (z * factor)
  | CFlt (FFin q) => CFlt (FFin (q * inject_Z factor))
  | CFlt (FInf n) => CFlt (FInf (xorb n (factor <? 0)))
  | v => v
  end.

Definition magnitude_of (v : CoreVal) : CoreVal :=
  match v with
  | CInt z => CInt (Z.abs z)
  | CFlt (FFin q) => CFlt (FFin (Qabs q))
  | CFlt (FInf _) => CFlt (FInf false)
  | v => v
  end.

Inductive PhaseKind := KOriented | KMagnitude | KValue.

Definition PHASE_POINTS : list (string * string * PhaseKind) :=
  [("Wph", "WL", KOriented); ("VARph", "VarL", KOriented); ("PhVph", "VL", KValue);
   ("PFph", "PFL", KMagnitude); ("VAph", "VAL", KValue); ("Aph", "AL", KValue)].

Definition LINE_TO_LINE_POINTS : list (string * string) :=
  [("PPVphAB", "VL1L2"); ("PPVphBC", "VL2L3"); ("PPVphCA", "VL3L1")].

(** [dict.update]: entry by entry. *)
Definition update_with (new out : dict string CoreVal) : dict string CoreVal :=
  foldl (λ o kv, dict_set kv.1 kv.2 o) out new.

Definition add_if_any (out block : dict string CoreVal) : dict string CoreVal :=
  if existsb (λ kv, negb (is_none kv.2)) block then update_with block out else out.

Definition add_if_some (out : dict string CoreVal) (kv : string * CoreVal)
    : dict string CoreVal :=
  if is_none kv.2 then out else dict_set kv.1 kv.2 out.

Section Meter.
Context {D : Type} `{Sunspec2 D}.
Variable d : D.
Variable model_id : Z.

Definition point (name : string) : CoreVal := cvalue d (Pt model_id name).

Definition oriented (name : string) (factor : option Z) : CoreVal :=
  match factor with Some f => times (point name) f | None => CNone end.

Definition magnitude_point (name : string) : CoreVal := magnitude_of (point name).

(** The values of one line, under the key of each. *)
Definition line_block (factor : option Z) (line phase : string) : dict string CoreVal :=
  (λ pk : string * string * PhaseKind,
     let '(p, key, kind) := pk in
     let name := p +:+ phase in
     (key +:+ line, match kind with
                    | KOriented => oriented name factor
                    | KMagnitude => magnitude_point name
                    | KValue => point name
                    end)) <$> PHASE_POINTS.

Definition phase_values (factor : option Z) : dict string CoreVal :=
  let lines := [("1", "A"); ("2", "B"); ("3", "C")] in
  let blocks := (λ lp : string * string, line_block factor lp.1 lp.2) <$> lines in
  foldl add_if_some (foldl add_if_any [] blocks)
    ((λ pk : string * string, (pk.2, point pk.1)) <$> LINE_TO_LINE_POINTS).

Definition read_meter (role : string) (c : Calibrator) : dict string CoreVal * Calibrator :=
  let imported := point "TotWhImp" in
  let exported := point "TotWhExp" in
  let c' := observe_meter (point "W") imported exported c in
  let site := bool_decide (role = "site_meter") in
  let factor := (λ s, if site then s else - s) <$> cal_sign c' in
  let voltage := point "PhV" in
  let result :=
    [("W", oriented "W" factor); ("Var", oriented "VAR" factor); ("Hz", point "Hz");
     ("V", if is_none voltage then point "PPV" else voltage); ("PF", magnitude_point "PF");
     ("VA", point "VA"); ("A", point "A")] in
  let result :=
    match dict_get model_id METER_AC_TYPE with
    | Some t => dict_set "ACType" (CInt t) result
    | None => result
    end in
  let result := update_with (phase_values factor) result in
  let '(forward, reverse) := if site then (imported, exported) else (exported, imported) in
  (foldl add_if_some result [("WhFwd", forward); ("WhRev", reverse)], c').
End Meter.
