(* ===== verification/SunspecCore.v ===== *)
(** * The SunSpec Modbus core (connectors/sunspec/_modbus.py)

    The state [SunSpecModbusConnector] keeps between calls, its construction
    (scan and readiness check), its reads (monitoring, nameplate, status,
    configuration) and its controls.  Each operation is a [Comp] over [Core],
    which holds the device client: what it did before it raised is kept.  A
    model handle is its number; [_get_model] reads it again. *)

From S2P Require Import Prelude Controls Response SunspecDevice SunspecMeter.
From Stdlib Require Import QArith Qabs Qpower.
#[local] Open Scope Z_scope.

(** ** Validation of control values *)

Definition refuse_value : SExn := Declared ConnectorValueError.

(** [_as_number] *)
Definition as_number (v : CoreVal) : SExn + Q :=
  match v with
  | CInt z => match float_of_int z with Some q => inr q | None => inl refuse_value end
  | CFlt (FFin q) => inr q
  | _ => inl refuse_value
  end.

Definition within (lo hi : Q) (v : CoreVal) : SExn + Q :=
  match as_number v with
  | inr q => if Qle_bool lo q && Qle_bool q hi then inr q else inl refuse_value
  | inl e => inl e
  end.

Definition require_power_factor (v : CoreVal) : SExn + Q := within 0 1 v.
Definition require_percent (v : CoreVal) : SExn + Q := within 0 100 v.

Definition require_watts (v : CoreVal) : SExn + Q :=
  match as_number v with
  | inr q => if Qle_bool 0 q then inr q else inl refuse_value
  | inl e => inl e
  end.

(** [10 ** sf], [W_SF] being a raw point. *)
Definition ten_to (sf : Z) : Q := Qpower 10 sf.

Definition require_uint16_watts (watts : Q) (w_sf : option Z) : SExn + Q :=
  match w_sf with
  | None => inl (PyError "TypeError")
  | Some sf =>
      let raw := round_q (watts / ten_to sf)%Q in
      if (0 <=? raw) && (raw <=? 65535) then inr watts else inl refuse_value
  end.

(** ** State *)

Inductive PSlot := any | inj | gen.

Definition P_LIM_PCT_CONTROLS (s : PSlot) : string :=
  match s with any => "opModMaxLimW" | inj => "opModMaxLimWInject" | gen => "opModGenLimW" end.

(** [_p_lim_slots]: whether each limit is on, and its percent of WMax. *)
Record PSlots := mkSlots {
  slot_any : bool * option Q; slot_inj : bool * option Q; slot_gen : bool * option Q }.

Definition get_slot (s : PSlot) (l : PSlots) : bool * option Q :=
  match s with any => slot_any l | inj => slot_inj l | gen => slot_gen l end.
Definition set_slot (s : PSlot) (v : bool * option Q) (l : PSlots) : PSlots :=
  match s with
  | any => mkSlots v (slot_inj l) (slot_gen l)
  | inj => mkSlots (slot_any l) v (slot_gen l)
  | gen => mkSlots (slot_any l) (slot_inj l) v
  end.

Inductive CSlot := cabs | cload.

(** [_charge_limits]: the watts each charge-direction limit asks for. *)
Record Charges := mkCharges { charge_abs : option Q; charge_load : option Q }.

Definition get_charge (s : CSlot) (l : Charges) : option Q :=
  match s with cabs => charge_abs l | cload => charge_load l end.
Definition set_charge (s : CSlot) (v : option Q) (l : Charges) : Charges :=
  match s with cabs => mkCharges v (charge_load l) | cload => mkCharges (charge_abs l) v end.

(** What the [report] callback is told, by its deduplication key. *)
Inductive SReport :=
  | ScanFailed (permanent : bool) (attempts : nat)
  | ReadFailed (permanent : bool) (m : Z).

Record Core (D : Type) := mkCore {
  dev : D;
  p_lim_slots : PSlots;
  gen_lim_watts : option Q;
  gen_lim_unconfirmed : bool;
  inj_setting : option Q;                         (* _p_lim_w_settings["inj"] *)
  charge_limits : Charges;
  wmax_baseline : option Q;
  p_lim_abs_warned : bool;
  unsupported_reported : gset string;
  storage_retry_at : Q;
  calibrator : Calibrator;
  meter_model_id : option Z;
  role_hint_given : bool;                         (* this endpoint is in _ROLE_HINTS_GIVEN *)
  reports : list SReport;
}.
Arguments mkCore {D}.
Arguments dev {D}.
Arguments p_lim_slots {D}.
Arguments gen_lim_watts {D}.
Arguments gen_lim_unconfirmed {D}.
Arguments inj_setting {D}.
Arguments charge_limits {D}.
Arguments wmax_baseline {D}.
Arguments p_lim_abs_warned {D}.
Arguments unsupported_reported {D}.
Arguments storage_retry_at {D}.
Arguments calibrator {D}.
Arguments meter_model_id {D}.
Arguments role_hint_given {D}.
Arguments reports {D}.

Section Setters.
Context {D : Type}.
Variable s : Core D.

Definition with_dev (d : D) : Core D :=
  mkCore d (p_lim_slots s) (gen_lim_watts s) (gen_lim_unconfirmed s) (inj_setting s)
    (charge_limits s) (wmax_baseline s) (p_lim_abs_warned s) (unsupported_reported s)
    (storage_retry_at s) (calibrator s) (meter_model_id s) (role_hint_given s) (reports s).
Definition with_slots (l : PSlots) : Core D :=
  mkCore (dev s) l (gen_lim_watts s) (gen_lim_unconfirmed s) (inj_setting s)
    (charge_limits s) (wmax_baseline s) (p_lim_abs_warned s) (unsupported_reported s)
    (storage_retry_at s) (calibrator s) (meter_model_id s) (role_hint_given s) (reports s).
(** The three values a generation limit keeps beside its slot. *)
Definition with_gen (w : option Q) (unconfirmed : bool) : Core D :=
  mkCore (dev s) (p_lim_slots s) w unconfirmed (inj_setting s)
    (charge_limits s) (wmax_baseline s) (p_lim_abs_warned s) (unsupported_reported s)
    (storage_retry_at s) (calibrator s) (meter_model_id s) (role_hint_given s) (reports s).
Definition with_inj (w : option Q) : Core D :=
  mkCore (dev s) (p_lim_slots s) (gen_lim_watts s) (gen_lim_unconfirmed s) w
    (charge_limits s) (wmax_baseline s) (p_lim_abs_warned s) (unsupported_reported s)
    (storage_retry_at s) (calibrator s) (meter_model_id s) (role_hint_given s) (reports s).
Definition with_charges (l : Charges) : Core D :=
  mkCore (dev s) (p_lim_slots s) (gen_lim_watts s) (gen_lim_unconfirmed s) (inj_setting s)
    l (wmax_baseline s) (p_lim_abs_warned s) (unsupported_reported s)
    (storage_retry_at s) (calibrator s) (meter_model_id s) (role_hint_given s) (reports s).
Definition with_baseline (w : option Q) : Core D :=
  mkCore (dev s) (p_lim_slots s) (gen_lim_watts s) (gen_lim_unconfirmed s) (inj_setting s)
    (charge_limits s) w (p_lim_abs_warned s) (unsupported_reported s)
    (storage_retry_at s) (calibrator s) (meter_model_id s) (role_hint_given s) (reports s).
Definition with_warned (abs_warned : bool) (reported : gset string) (hint : bool) : Core D :=
  mkCore (dev s) (p_lim_slots s) (gen_lim_watts s) (gen_lim_unconfirmed s) (inj_setting s)
    (charge_limits s) (wmax_baseline s) abs_warned reported
    (storage_retry_at s) (calibrator s) (meter_model_id s) hint (reports s).
Definition with_meter (retry_at : Q) (c : Calibrator) (m : option Z) : Core D :=
  mkCore (dev s) (p_lim_slots s) (gen_lim_watts s) (gen_lim_unconfirmed s) (inj_setting s)
    (charge_limits s) (wmax_baseline s) (p_lim_abs_warned s) (unsupported_reported s)
    retry_at c m (role_hint_given s) (reports s).
Definition with_report (r : SReport) : Core D :=
  mkCore (dev s) (p_lim_slots s) (gen_lim_watts s) (gen_lim_unconfirmed s) (inj_setting s)
    (charge_limits s) (wmax_baseline s) (p_lim_abs_warned s) (unsupported_reported s)
    (storage_retry_at s) (calibrator s) (meter_model_id s) (role_hint_given s)
    (reports s ++ [r]).
End Setters.

(** A construction's state before the scan. *)
Definition new_core {D} (d : D) (c : Calibrator) (hint : bool) : Core D :=
  mkCore d (mkSlots (false, None) (false, None) (false, None)) None false None
    (mkCharges None None) None false ∅ 0 c None hint [].

Section CoreOps.
Context {D : Type} `{Sunspec2 D}.
#[local] Abbreviation M A := (Comp SExn (Core D) A).

(** ** The client's calls *)

Definition lib (f : D → option string * D) : M unit := λ s,
  let '(r, d) := f (dev s) in
  (match r with None => inr tt | Some m => inl (LibError m) end, with_dev s d).
Definition wait (q : Q) : M unit := modify (λ s, with_dev s (sleep q (dev s))).
Definition ask {A} (f : D → A) : M A := get (λ s, f (dev s)).
Definition lift {A} (r : SExn + A) : M A := match r with inr a => ret a | inl e => raise e end.

(** [try: m; except Exception]: the exception as a value. *)
Definition caught {A} (m : M A) : M (SExn + A) := λ s, let '(r, s') := m s in (inr r, s').

Definition report (r : SReport) : M unit := modify (λ s, with_report s r).

(** ** Helpers *)

Definition reconnect : M unit :=
  caught (lib disconnect) ;;;
  r <- caught (lib connect) ;;
  match r with inl _ => raise (ConnectorConnectionError false) | inr _ => ret tt end.

Definition get_model (m : Z) : M unit :=
  found <- ask (λ d, has_model d m) ;;
  if negb found then raise (ConnectorConnectionError false)
  else
    r <- caught (lib (read (AModel m))) ;;
    match r with
    | inr _ => ret tt
    | inl e =>
        if is_permanent_modbus_error e then
          report (ReadFailed true m) ;;; raise (ConnectorConnectionError true)
        else
          report (ReadFailed false m) ;;;
          reconnect ;;;
          r2 <- caught (lib (read (AModel m))) ;;
          match r2 with inr _ => ret tt | inl _ => raise (ConnectorConnectionError false) end
    end.

(** [_MB_READBACK_DELAY] is half a second. *)
Definition update_enable (p : Point) (v : CoreVal) : M unit :=
  lib (set_cvalue p v) ;;;
  lib (write (APoint p)) ;;;
  lib (read (APoint p)) ;;;
  held <- ask (λ d, cvalue d p) ;;
  if py_eq held v then ret tt
  else
    wait (1 # 2) ;;;
    lib (read (APoint p)) ;;;
    held2 <- ask (λ d, cvalue d p) ;;
    if py_eq held2 v then ret tt else raise ConnectorWriteError.

(** The polling loops of [_adopt_curve] and [_adopt_control]: at most [left]
    rounds, one a second. *)
Fixpoint adopt_poll (result : Point) (left : nat) : M unit :=
  match left with
  | O => raise ConnectorTimeoutError
  | S left' =>
      wait 1 ;;;
      lib (read (APoint result)) ;;;
      r <- ask (λ d, value d result) ;;
      match r with
      | Some 2 => raise ConnectorWriteError
      | Some 1 => ret tt
      | _ => adopt_poll result left'
      end
  end.

Definition adopt_curve (m : Z) : M unit :=
  lib (set_value (Pt m "AdptCrvReq") (CInt 2)) ;;;
  lib (write (APoint (Pt m "AdptCrvReq"))) ;;;
  adopt_poll (Pt m "AdptCrvRslt") 5.

Definition adopt_control (m : Z) : M unit :=
  lib (set_value (Pt m "AdptCtlReq") (CInt 2)) ;;;
  lib (write (APoint (Pt m "AdptCtlReq"))) ;;;
  adopt_poll (Pt m "AdptCtlRslt") 5.

Definition require_curve_capacity (m : Z) (n_points : nat) : M unit :=
  capacity <- ask (λ d, pt_count d m) ;;
  if (capacity <? n_points)%nat then raise ConnectorWriteError else ret tt.

Definition unimplemented_points (d : D) (m : Z) (names : list string) : list string :=
  filter (λ n, value d (Pt m n) = None) names.

(** [_rate_setting_is_supported(model_702, slot, point)] *)
Definition rate_setting_is_supported (d : D) (rating setting : string) : bool :=
  match value d (Pt 702 setting), value d (Pt 702 rating) with
  | Some _, Some r => negb (r =? 0)
  | _, _ => false
  end.

Definition charge_supported (d : D) : bool :=
  rate_setting_is_supported d "WChaRteMaxRtg" "WChaRteMax".

Definition control_unsupported {A} (control : string) : M A :=
  modify (λ s, with_warned s (p_lim_abs_warned s) ({[control]} ∪ unsupported_reported s)
                 (role_hint_given s)) ;;;
  raise (Declared ModeNotSupportedError).

(** ** Construction: the scan and its readiness check *)

Definition model_ids (d : D) : list Z := merge_sort Z.le (model_ids_of d).

Definition suggest_meter_role : M unit :=
  found <- ask model_ids ;;
  given <- get role_hint_given ;;
  let meters := filter (λ m, m ∈ METER_MODEL_IDS) found in
  if bool_decide (meters = []) || existsb (λ m, (700 <=? m) && (m <? 800)) found || given
  then ret tt
  else modify (λ s, with_warned s (p_lim_abs_warned s) (unsupported_reported s) true).

Definition require_value (p : Point) : M unit :=
  v <- ask (λ d, value d p) ;;
  match v with None => raise (ConnectorConnectionError false) | Some _ => ret tt end.

Definition verify_nameplate_readable : M unit :=
  found <- ask (λ d, has_model d 702) ;;
  if negb found then suggest_meter_role ;;; raise (ConnectorConnectionError false)
  else
    lib (read (AModel 702)) ;;;
    require_value (Pt 702 "WMaxRtg") ;;;
    require_value (Pt 702 "W_SF").

Definition verify_meter_readable : M unit :=
  found <- ask model_ids ;;
  match head (filter (λ m, m ∈ found) METER_MODEL_IDS) with
  | None => raise (ConnectorConnectionError false)
  | Some m =>
      lib (read (AModel m)) ;;;
      require_value (Pt m "W") ;;;
      modify (λ s, with_meter s (storage_retry_at s) (calibrator s) (Some m))
  end.

Definition scan_once (role : string) : M unit :=
  lib scan ;;;
  if bool_decide (role = "der") then verify_nameplate_readable else verify_meter_readable.

(** The attempts left after [made]; the value is the last error with the
    attempts made, [None] when one succeeded. *)
Fixpoint scan_loop (role : string) (retry_delay : Q) (left made : nat) (last : option SExn)
    : M (option (option SExn * nat)) :=
  match left with
  | O => ret (Some (last, made))
  | S left' =>
      r <- caught (scan_once role) ;;
      match r with
      | inr _ => ret None
      | inl e =>
          if is_permanent_modbus_error e then ret (Some (Some e, S made))
          else
            when (bool_decide (left' ≠ O)) (wait retry_delay) ;;;
            scan_loop role retry_delay left' (S made) (Some e)
      end
  end.

Definition scan_with_readiness_check (role : string) (retries : nat) (retry_delay : Q) : M unit :=
  r <- scan_loop role retry_delay retries 0 None ;;
  match r with
  | None => ret tt
  | Some (last, made) =>
      let permanent := match last with Some e => is_permanent_modbus_error e | None => false end in
      report (ScanFailed permanent made) ;;;
      raise (ConnectorConnectionError permanent)
  end.

Definition ROLES : list string := ["der"; "site_meter"; "der_meter"].

(** [__init__], for a client object [d] of a known transport. *)
Definition construct (role power_sign : string) (retries : nat) (retry_delay : Q) (hint : bool)
    (d : D) : SExn + Core D :=
  if bool_decide (role ∈ ROLES) then
    match new_calibrator power_sign with
    | None => inl (PyError "ValueError")
    | Some c =>
        match scan_with_readiness_check role retries retry_delay (new_core d c hint) with
        | (inr _, s) => inr s
        | (inl e, _) => inl e
        end
    end
  else inl (PyError "ValueError").

Definition charge_limit_supported (d : D) : bool := has_model d 702 && charge_supported d.

(** ** Reads *)

Definition MONITORING_DEFAULT : dict string CoreVal :=
  (λ k, (k, CNone)) <$> ["W"; "Var"; "Hz"; "V"; "PF"; "VA"; "A"].

Definition monitoring_line (d : D) (line : string) : dict string CoreVal :=
  (λ k, (k +:+ line, cvalue d (Pt 701 (k +:+ line)))) <$> ["WL"; "VarL"; "VL"; "PFL"; "VAL"; "AL"].

Definition monitoring_701 (d : D) : dict string CoreVal :=
  let point n := cvalue d (Pt 701 n) in
  let result := [("W", point "W"); ("Var", point "Var"); ("Hz", point "Hz"); ("V", point "LLV");
                 ("PF", point "PF"); ("VA", point "VA"); ("A", point "A")] in
  let result := match value d (Pt 701 "ACType") with
                | Some t => dict_set "ACType" (CInt t) result
                | None => result
                end in
  let result := foldl add_if_any result (monitoring_line d <$> ["1"; "2"; "3"]) in
  foldl add_if_some result ((λ k, (k, point k)) <$> ["VL1L2"; "VL2L3"; "VL3L1"]).

(** [_STORAGE_RETRY_SECONDS] is 600. *)
Definition add_storage (result : dict string CoreVal) : M (dict string CoreVal) :=
  due <- get (λ s, has_model (dev s) 713 && Qle_bool (storage_retry_at s) (monotonic (dev s))) ;;
  if negb due then ret result
  else
    r <- caught (get_model 713) ;;
    match r with
    | inr _ => ask (λ d, add_if_some result ("WHAvail", cvalue d (Pt 713 "WHAvail")))
    | inl (ConnectorConnectionError _) =>
        modify (λ s, with_meter s (monotonic (dev s) + 600)%Q (calibrator s) (meter_model_id s)) ;;;
        ret result
    | inl e => raise e
    end.

(** [except ConnectorConnectionError: return dflt] around a model read. *)
Definition or_default {A} (m : Z) (dflt : A) (k : M A) : M A :=
  r <- caught (get_model m) ;;
  match r with
  | inr _ => k
  | inl (ConnectorConnectionError _) => ret dflt
  | inl e => raise e
  end.

Definition fetch_monitoring (role : string) : M (dict string CoreVal) :=
  meter <- get meter_model_id ;;
  match meter with
  | Some m =>
      or_default m MONITORING_DEFAULT
        (r <- get (λ s, read_meter (dev s) m role (calibrator s)) ;;
         modify (λ s, with_meter s (storage_retry_at s) r.2 (meter_model_id s)) ;;;
         ret r.1)
  | None =>
      or_default 701 MONITORING_DEFAULT (result <- ask monitoring_701 ;; add_storage result)
  end.

(** An entry with its scale factor, where both points are implemented. *)
Definition sf_entry (d : D) (e : string * string * string) : option (string * CoreVal) :=
  let '(key, val_key, sf) := e in
  v ← value d (Pt 702 key);
  mult ← value d (Pt 702 sf);
  Some (key, CDict [(val_key, CInt v); ("multiplier", CInt mult)]).

Definition NAMEPLATE_ENTRIES : list (string * string * string) :=
  [("WMaxRtg", "value", "W_SF"); ("WOvrExtRtg", "value", "W_SF");
   ("WOvrExtRtgPF", "displacement", "PF_SF"); ("WUndExtRtg", "value", "W_SF");
   ("WUndExtRtgPF", "displacement", "PF_SF"); ("VAMaxRtg", "value", "VA_SF");
   ("VarMaxInjRtg", "value", "Var_SF"); ("VarMaxAbsRtg", "value", "Var_SF");
   ("WChaRteMaxRtg", "value", "W_SF"); ("WDisChaRteMaxRtg", "value", "W_SF");
   ("VAChaRteMaxRtg", "value", "VA_SF"); ("VNomRtg", "value", "V_SF");
   ("VMaxRtg", "value", "V_SF"); ("VMinRtg", "value", "V_SF");
   ("ReactSusceptRtg", "value", "S_SF")].

Definition CONFIGURATION_ENTRIES : list (string * string * string) :=
  [("WMax", "value", "W_SF"); ("WMaxOvrExt", "value", "W_SF");
   ("WOvrExtPF", "displacement", "PF_SF"); ("WMaxUndExt", "value", "W_SF");
   ("WUndExtPF", "displacement", "PF_SF"); ("VAMax", "value", "VA_SF");
   ("VarMaxInj", "value", "Var_SF"); ("VarMaxAbs", "value", "Var_SF");
   ("WChaRteMax", "value", "W_SF"); ("WDisChaRteMax", "value", "W_SF");
   ("VAChaRteMax", "value", "VA_SF"); ("VNom", "value", "V_SF");
   ("VMax", "value", "V_SF"); ("VMin", "value", "V_SF")].

Definition GEN_LIM_DOE_BIT : Z := 4.
Definition LOAD_LIM_DOE_BIT : Z := 8.

Definition gen_lim_advertised (d : D) : bool :=
  has_model d 704 && bool_decide (unimplemented_points d 704 ["WMaxLimPct"] = []).

Definition doe_modes (d : D) : Z :=
  Z.lor (if gen_lim_advertised d then GEN_LIM_DOE_BIT else 0)
        (if charge_limit_supported d then LOAD_LIM_DOE_BIT else 0).

Definition fetch_nameplate : M (dict string CoreVal) :=
  get_model 702 ;;;
  require_value (Pt 702 "WMaxRtg") ;;;
  require_value (Pt 702 "W_SF") ;;;
  ask (λ d, omap (sf_entry d) NAMEPLATE_ENTRIES ++
            [("NorOpCatRtg", cvalue d (Pt 702 "NorOpCatRtg"));
             ("AbnOpCatRtg", cvalue d (Pt 702 "AbnOpCatRtg"));
             ("CtrlModes", cvalue d (Pt 702 "CtrlModes"));
             ("DoeModesSupported", CInt (doe_modes d))]).

Definition fetch_configuration : M (dict string CoreVal) :=
  get_model 702 ;;;
  ask (λ d, omap (sf_entry d) CONFIGURATION_ENTRIES ++
            [("CtrlModes", cvalue d (Pt 702 "CtrlModes"));
             ("DoeModesEnabled", CInt (doe_modes d))]).

Definition stamped (now : Z) (v : CoreVal) : CoreVal :=
  CDict [("dateTime", CInt now); ("value", v)].

Definition fetch_status : M (dict string CoreVal) :=
  or_default 701 []
    (ask (λ d, let now := wall_time d in
       [("connectStatus", stamped now (cvalue d (Pt 701 "ConnSt")));
        ("inverterStatus", stamped now (cvalue d (Pt 701 "InvSt")));
        ("manufacturerStatus", stamped now (CStr "NoErr"));
        ("operationalModeStatus", stamped now (cvalue d (Pt 701 "St")));
        ("alarmStatus", cvalue d (Pt 701 "Alrm"));
        ("readingTime", CInt now)])).

(** ** Curves and droop *)

Definition as_list (v : CoreVal) : M (list CoreVal) :=
  match v with CList l => ret l | _ => raise (PyError "TypeError") end.

(** [v or 0] *)
Definition or_zero (v : CoreVal) : CoreVal := if truthy v then v else CInt 0.

(** [model.Crv[1]] and [model.Ctl[1]] *)
Definition second_curve (m : Z) : M unit :=
  n <- ask (λ d, crv_count d m) ;;
  if (n <? 2)%nat then raise (PyError "IndexError") else ret tt.
Definition second_control (m : Z) : M unit :=
  n <- ask (λ d, ctl_count d m) ;;
  if (n <? 2)%nat then raise (PyError "IndexError") else ret tt.

(** [for i, (x, y) in enumerate(zip(xs, ys, strict=True))] *)
Fixpoint set_points (m : Z) (xname yname : string) (i : nat) (xs ys : list CoreVal) : M unit :=
  match xs, ys with
  | [], [] => ret tt
  | x :: xs', y :: ys' =>
      lib (set_cvalue (CrvPtPt m i xname) x) ;;;
      lib (set_cvalue (CrvPtPt m i yname) y) ;;;
      set_points m xname yname (S i) xs' ys'
  | _, _ => raise (PyError "ValueError")
  end.

Definition len (l : list CoreVal) : CoreVal := CInt (Z.of_nat (length l)).

Definition update_qv (params : CoreParams) : M unit :=
  get_model 705 ;;;
  update_enable (Pt 705 "Ena") (param "qv_mode_enable" (CInt 0) params) ;;;
  if negb (is_one (param "qv_mode_enable" CNone params)) then ret tt
  else
    let auto_vref := if truthy (param "qv_vref_auto_ena" CNone params) then CInt 1 else CInt 0 in
    second_curve 705 ;;;
    v_pts <- as_list (param "qv_curve_v_pts" (CList []) params) ;;
    require_curve_capacity 705 (length v_pts) ;;;
    lib (set_value (CrvPt 705 "ActPt") (len v_pts)) ;;;
    lib (set_value (CrvPt 705 "DeptRef") (CInt 3)) ;;;
    lib (set_value (CrvPt 705 "Pri") (CInt 1)) ;;;
    lib (set_cvalue (CrvPt 705 "VRef") (param "qv_vref" (CInt 0) params)) ;;;
    lib (set_cvalue (CrvPt 705 "VRefAutoEna") auto_vref) ;;;
    lib (set_cvalue (CrvPt 705 "VRefAutoTms") (or_zero (param "qv_vref_olrt" CNone params))) ;;;
    lib (set_cvalue (CrvPt 705 "RspTms") (or_zero (param "qv_olrt" CNone params))) ;;;
    q_pts <- as_list (param "qv_curve_q_pts" (CList []) params) ;;
    set_points 705 "V" "Var" 0 v_pts q_pts ;;;
    lib (write (ACrv 705)) ;;;
    adopt_curve 705.

Definition update_pv (params : CoreParams) : M unit :=
  get_model 706 ;;;
  update_enable (Pt 706 "Ena") (param "pv_mode_enable" (CInt 0) params) ;;;
  if negb (is_one (param "pv_mode_enable" CNone params)) then ret tt
  else
    second_curve 706 ;;;
    v_pts <- as_list (param "pv_curve_v_pts" (CList []) params) ;;
    require_curve_capacity 706 (length v_pts) ;;;
    lib (set_value (CrvPt 706 "ActPt") (len v_pts)) ;;;
    lib (set_value (CrvPt 706 "DeptRef") (CInt 0)) ;;;
    lib (set_cvalue (CrvPt 706 "RspTms") (or_zero (param "pv_olrt" CNone params))) ;;;
    p_pts <- as_list (param "pv_curve_p_pts" (CList []) params) ;;
    set_points 706 "V" "W" 0 v_pts p_pts ;;;
    lib (write (ACrv 706)) ;;;
    adopt_curve 706.

Definition update_qp (params : CoreParams) : M unit :=
  get_model 712 ;;;
  update_enable (Pt 712 "Ena") (param "qp_mode_enable" (CInt 0) params) ;;;
  if negb (is_one (param "qp_mode_enable" CNone params)) then ret tt
  else
    second_curve 712 ;;;
    p_pts <- as_list (param "qp_curve_p_pts" (CList []) params) ;;
    require_curve_capacity 712 (length p_pts) ;;;
    lib (set_value (CrvPt 712 "ActPt") (len p_pts)) ;;;
    lib (set_value (CrvPt 712 "DeptRef") (CInt 3)) ;;;
    q_pts <- as_list (param "qp_curve_q_pts" (CList []) params) ;;
    set_points 712 "W" "Var" 0 p_pts q_pts ;;;
    lib (write (ACrv 712)) ;;;
    adopt_curve 712.

Definition update_pf (params : CoreParams) : M unit :=
  get_model 711 ;;;
  update_enable (Pt 711 "Ena") (param "pf_mode_enable" (CInt 0) params) ;;;
  if negb (is_one (param "pf_mode_enable" CNone params)) then ret tt
  else
    second_control 711 ;;;
    lib (set_cvalue (CtlPt 711 "RspTms") (param "pf_olrt" (CInt 0) params)) ;;;
    lib (set_cvalue (CtlPt 711 "DbOf") (param "pf_dbof" (CInt 0) params)) ;;;
    lib (set_cvalue (CtlPt 711 "DbUf") (param "pf_dbuf" (CInt 0) params)) ;;;
    lib (set_cvalue (CtlPt 711 "KOf") (param "pf_kof" (CInt 0) params)) ;;;
    lib (set_cvalue (CtlPt 711 "KUf") (param "pf_kuf" (CInt 0) params)) ;;;
    when (negb (is_none (param "pf_pmin" CNone params)))
      (lib (set_cvalue (CtlPt 711 "PMin") (param "pf_pmin" CNone params))) ;;;
    lib (write (ACtl 711)) ;;;
    adopt_control 711.

(** ** Active-power limits on model 704 WMaxLimPct *)

Definition active_pct (slot : bool * option Q) : option Q := if slot.1 then slot.2 else None.

(** [slot == (False, None)] *)
Definition is_clear (slot : bool * option Q) : bool :=
  match slot with (false, None) => true | _ => false end.

Definition candidates (l : PSlots) : list Q :=
  omap active_pct [slot_any l; slot_inj l; slot_gen l].

(** [min(list)] *)
Definition list_min (l : list Q) : option Q :=
  match l with [] => None | q :: l' => Some (foldl qmin q l') end.

(** [_compute_merged_inject_pct]: [None] is [(False, None)]. *)
Definition compute_merged_inject_pct (l : PSlots) : option Q := list_min (candidates l).

Definition num (q : Q) : CoreVal := CFlt (FFin q).

Definition apply_inject_pct_slot (slot : PSlot) (enabled : bool) (pct : option Q) : M unit :=
  modify (λ s, with_slots s (set_slot slot (enabled, pct) (p_lim_slots s))) ;;;
  get_model 704 ;;;
  merged <- get (λ s, compute_merged_inject_pct (p_lim_slots s)) ;;
  missing <- ask (λ d, unimplemented_points d 704 ["WMaxLimPct"]) ;;
  when (bool_decide (is_Some merged) && bool_decide (missing ≠ []))
    (control_unsupported (P_LIM_PCT_CONTROLS slot)) ;;;
  update_enable (Pt 704 "WMaxLimPctEna") (CInt (if merged is Some _ then 1 else 0)) ;;;
  match merged with
  | None => ret tt
  | Some pct =>
      lib (set_cvalue (Pt 704 "WMaxLimPct") (num pct)) ;;;
      lib (write (AModel 704))
  end.

(** [opModMaxLimW].  The value beside a slot that is off is never read; it is
    kept when it is a number. *)
Definition update_p_lim (params : CoreParams) : M unit :=
  let enabled := is_one (param "p_lim_mode_enable" (CInt 0) params) in
  let raw := param "p_lim_w" CNone params in
  if enabled && negb (is_none raw) then
    pct <- lift (require_percent raw) ;;
    apply_inject_pct_slot any enabled (Some pct)
  else apply_inject_pct_slot any enabled (num_of raw).

(** [_watts_as_pct_of_wmax]: the base, and the percent held to +-100. *)
Definition nonzero (v : CoreVal) : option Q := if truthy v then num_of v else None.

Definition pct_base (d : D) : option Q :=
  match nonzero (cvalue d (Pt 702 "WMax")) with
  | Some w => Some w
  | None => nonzero (cvalue d (Pt 702 "WMaxRtg"))
  end.

Definition clamped_pct (watts wmax : Q) : Q :=
  let pct := (watts / wmax * 100)%Q in
  if Qle_bool (Qabs pct) 100 then pct else if Qle_bool pct 0 then (-100)%Q else 100%Q.

Definition watts_as_pct_of_wmax (watts : Q) : M (option Q) :=
  get_model 702 ;;;
  base <- ask pct_base ;;
  ret (clamped_pct watts <$> base).

Definition apply_gen_lim_slot (watts pct : option Q) : M unit :=
  previous <- get (λ s, slot_gen (p_lim_slots s)) ;;
  r <- caught (apply_inject_pct_slot gen (bool_decide (is_Some watts)) pct) ;;
  match r with
  | inl e =>
      modify (λ s, with_slots s (set_slot gen previous (p_lim_slots s))) ;;;
      modify (λ s, with_gen s (gen_lim_watts s) true) ;;;
      raise e
  | inr _ => modify (λ s, with_gen s watts false)
  end.

Definition update_gen_lim (params : CoreParams) : M unit :=
  let enabled := is_one (param "gen_lim_mode_enable" (CInt 0) params) in
  let watts := param "gen_lim_w" CNone params in
  if enabled && is_none watts then ret tt
  else if negb enabled then
    pending <- get (λ s, negb (is_clear (slot_gen (p_lim_slots s))) || gen_lim_unconfirmed s) ;;
    when pending (apply_gen_lim_slot None None) ;;;
    modify (λ s, with_gen s None (gen_lim_unconfirmed s))
  else
    w <- lift (require_watts watts) ;;
    pct <- watts_as_pct_of_wmax w ;;
    match pct with
    | None => control_unsupported "opModGenLimW"
    | Some p => apply_gen_lim_slot (Some w) (Some p)
    end.

Definition refresh_gen_lim_pct : M unit :=
  w <- get gen_lim_watts ;;
  match w with
  | None => ret tt
  | Some watts =>
      pct <- watts_as_pct_of_wmax watts ;;
      match pct with None => ret tt | Some p => apply_gen_lim_slot (Some watts) (Some p) end
  end.

(** ** Charge-direction limits on model 702 WChaRteMax *)

Definition active_charges (l : Charges) : list Q := omap id [charge_abs l; charge_load l].

(** The value WChaRteMax takes; the rating is a number while it is supported. *)
Definition charge_target (l : Charges) (rating : option Q) : SExn + Q :=
  match rating with
  | None => inl (PyError "TypeError")
  | Some r => inr (match list_min (active_charges l) with Some m => qmin m r | None => r end)
  end.

Definition write_charge_limit (read_first : bool) : M unit :=
  when read_first (get_model 702) ;;;
  ok <- ask charge_supported ;;
  if negb ok then ret tt
  else
    limits <- get charge_limits ;;
    target <- (rating <- ask (λ d, num_of (cvalue d (Pt 702 "WChaRteMaxRtg"))) ;;
               lift (charge_target limits rating)) ;;
    sf <- ask (λ d, value d (Pt 702 "W_SF")) ;;
    lift (require_uint16_watts target sf) ;;;
    lib (set_cvalue (Pt 702 "WChaRteMax") (num target)) ;;;
    lib (write (AModel 702)).

(** [read_first] is [model_702 is None]. *)
Definition set_charge_limit (slot : CSlot) (watts : option Q) (read_first : bool) : M unit :=
  previous <- get (λ s, get_charge slot (charge_limits s)) ;;
  modify (λ s, with_charges s (set_charge slot watts (charge_limits s))) ;;;
  r <- caught (write_charge_limit read_first) ;;
  match r with
  | inr _ => ret tt
  | inl e =>
      modify (λ s, with_charges s (set_charge slot previous (charge_limits s))) ;;; raise e
  end.

Definition update_load_lim (params : CoreParams) : M unit :=
  let enabled := is_one (param "load_lim_mode_enable" (CInt 0) params) in
  let watts := param "load_lim_w" CNone params in
  if enabled && is_none watts then ret tt
  else if negb enabled then set_charge_limit cload None true
  else
    w <- lift (require_watts watts) ;;
    get_model 702 ;;;
    ok <- ask charge_supported ;;
    if negb ok then control_unsupported "opModLoadLimW"
    else set_charge_limit cload (Some w) false.

(** ** The watts limits opModMaxLimWInject and opModMaxLimWAbsorb *)

(** [_mirror_inject_onto_wmax]; the capture happens before the write. *)
Definition mirror_inject_onto_wmax (watts : Q) : M unit :=
  wmax <- ask (λ d, value d (Pt 702 "WMax")) ;;
  match wmax with
  | None => ret tt
  | Some _ =>
      modify (λ s, match wmax_baseline s with
                   | None => with_baseline s (num_of (cvalue (dev s) (Pt 702 "WMax")))
                   | Some _ => s
                   end) ;;;
      rtg <- ask (λ d, nonzero (cvalue d (Pt 702 "WMaxRtg"))) ;;
      lib (set_cvalue (Pt 702 "WMax")
             (num (match rtg with Some r => qmin watts r | None => watts end)))
  end.

Definition restore_mirrored_wmax : M unit :=
  baseline <- get wmax_baseline ;;
  match baseline with
  | None => ret tt
  | Some w =>
      get_model 702 ;;;
      lib (set_cvalue (Pt 702 "WMax") (num w)) ;;;
      lib (write (AModel 702)) ;;;
      refresh_gen_lim_pct ;;;
      modify (λ s, with_baseline s None)
  end.

(** The fallback routes of [_apply_p_lim_w_without_register]. *)
Definition apply_inj_without_register (watts : Q) : M unit :=
  modify (λ s, with_inj s None) ;;;
  pct <- watts_as_pct_of_wmax watts ;;
  match pct with None => ret tt | Some p => apply_inject_pct_slot inj true (Some p) end.

Definition apply_abs_without_register : M unit :=
  modify (λ s, with_warned s true (unsupported_reported s) (role_hint_given s)).

(** [_update_p_lim_w_sync(params, "inj")] *)
Definition clear_p_lim_inj (enabled : bool) : M unit :=
  modify (λ s, with_inj s None) ;;;
  restore_mirrored_wmax ;;;
  fallback <- get (λ s, negb (is_clear (slot_inj (p_lim_slots s)))) ;;
  when fallback (apply_inject_pct_slot inj enabled None).

Definition update_p_lim_inj (params : CoreParams) : M unit :=
  let enabled := is_one (param "p_lim_mode_enable" (CInt 0) params) in
  let watts := param "p_lim_watts" CNone params in
  if negb enabled || is_none watts then clear_p_lim_inj enabled
  else
    w <- lift (require_watts watts) ;;
    get_model 702 ;;;
    ok <- ask (λ d, rate_setting_is_supported d "WDisChaRteMaxRtg" "WDisChaRteMax") ;;
    if negb ok then apply_inj_without_register w
    else
      sf <- ask (λ d, value d (Pt 702 "W_SF")) ;;
      lift (require_uint16_watts w sf) ;;;
      lib (set_cvalue (Pt 702 "WDisChaRteMax") (num w)) ;;;
      mirror_inject_onto_wmax w ;;;
      lib (write (AModel 702)) ;;;
      modify (λ s, with_inj s (Some w)) ;;;
      refresh_gen_lim_pct.

(** [_update_p_lim_w_sync(params, "abs")] *)
Definition update_p_lim_abs (params : CoreParams) : M unit :=
  let enabled := is_one (param "p_lim_mode_enable" (CInt 0) params) in
  let watts := param "p_lim_watts" CNone params in
  if negb enabled then
    modify (λ s, with_warned s false (unsupported_reported s) (role_hint_given s)) ;;;
    set_charge_limit cabs None true
  else if is_none watts then ret tt
  else
    w <- lift (require_watts watts) ;;
    get_model 702 ;;;
    ok <- ask charge_supported ;;
    if negb ok then apply_abs_without_register
    else set_charge_limit cabs (Some w) false.

(** ** Setpoints *)

Definition VAR_SET_MOD : dict Z Z := [(2, 1); (3, 2); (8, 3)].

Definition var_set_mod (ref : CoreVal) : option Z :=
  match ref with
  | CInt z => dict_get z VAR_SET_MOD
  | CBool b => dict_get (if b then 1 else 0) VAR_SET_MOD
  | _ => None
  end.

Definition require_points (control : string) (m : Z) (names : list string) : M unit :=
  missing <- ask (λ d, unimplemented_points d m names) ;;
  when (bool_decide (missing ≠ [])) (control_unsupported control).

Definition update_const_q (params : CoreParams) : M unit :=
  get_model 704 ;;;
  if negb (truthy (param "const_q_mode_enable" CNone params)) then
    update_enable (Pt 704 "VarSetEna") (CInt 0)
  else
    match var_set_mod (param "ref_type" CNone params) with
    | None => ret tt
    | Some mod_ =>
        require_points "opModFixedVar" 704 ["VarSetPct"; "VarSetMod"; "VarSetPri"] ;;;
        update_enable (Pt 704 "VarSetEna") (CInt 1) ;;;
        lib (set_cvalue (Pt 704 "VarSetPct") (param "const_q_pct" (CInt 0) params)) ;;;
        lib (set_value (Pt 704 "VarSetMod") (CInt mod_)) ;;;
        lib (set_value (Pt 704 "VarSetPri") (CInt 1)) ;;;
        lib (write (AModel 704))
    end.

Definition update_fixed_w (params : CoreParams) : M unit :=
  let on := is_one (param "WSetEna" CNone params) in
  get_model 704 ;;;
  when on (require_points "opModFixedW" 704 ["WSetMod"; "WSetPct"]) ;;;
  update_enable (Pt 704 "WSetEna") (param "WSetEna" (CInt 0) params) ;;;
  if negb on then ret tt
  else
    lib (set_value (Pt 704 "WSetMod") (param "WSetMod" (CInt 0) params)) ;;;
    lib (set_cvalue (Pt 704 "WSetPct") (param "WSet" (CInt 0) params)) ;;;
    lib (write (AModel 704)).

(** The percent of a signed target, which may be infinite. *)
Definition target_pct (watts : CoreVal) (wmax : Q) : SExn + CoreVal :=
  match watts with
  | CFlt (FInf n) => inr (num (if xorb n (negb (Qle_bool 0 wmax)) then (-100)%Q else 100%Q))
  | CFlt FNaN => inr (CFlt FNaN)
  | v => match num_of v with
         | Some w => inr (num (clamped_pct w wmax))
         | None => inl (PyError "TypeError")
         end
  end.

Inductive Route := RWatts | RPercent (pct : CoreVal) | RIgnored.

Definition target_route (watts : CoreVal) : M Route :=
  missing <- ask (λ d, unimplemented_points d 704 ["WSetMod"; "WSet"]) ;;
  missing_pct <- ask (λ d, unimplemented_points d 704 ["WSetMod"; "WSetPct"]) ;;
  if bool_decide (missing = []) then ret RWatts
  else if bool_decide (missing_pct = []) then
    get_model 702 ;;;
    base <- ask pct_base ;;
    match base with
    | None => ret RIgnored
    | Some wmax => pct <- lift (target_pct watts wmax) ;; ret (RPercent pct)
    end
  else control_unsupported "opModTargetW".

Definition update_target_w (params : CoreParams) : M unit :=
  let enable := param "mode_enable" (CInt 0) params in
  let watts := param "watts" CNone params in
  get_model 704 ;;;
  if is_one enable && is_none watts then ret tt
  else if negb (is_one enable) then update_enable (Pt 704 "WSetEna") enable
  else
    route <- target_route watts ;;
    match route with
    | RIgnored => ret tt
    | RWatts =>
        update_enable (Pt 704 "WSetEna") enable ;;;
        lib (set_value (Pt 704 "WSetMod") (CInt 1)) ;;;
        lib (set_cvalue (Pt 704 "WSet") watts) ;;;
        lib (write (AModel 704))
    | RPercent pct =>
        update_enable (Pt 704 "WSetEna") enable ;;;
        lib (set_value (Pt 704 "WSetMod") (CInt 0)) ;;;
        lib (set_cvalue (Pt 704 "WSetPct") pct) ;;;
        lib (write (AModel 704))
    end.

(** *** Fixed power factors *)

Record PFSide := mkSide {
  side_key : string; side_ena : string; side_group : string; side_control : string;
  side_over_excited : Z }.

Definition PF_SIDES : list PFSide :=
  [mkSide "inj" "PFWInjEna" "PFWInj" "opModFixedPFInjectW" 0;
   mkSide "abs" "PFWAbsEna" "PFWAbs" "opModFixedPFAbsorbW" 1].

(** [params.get(key) or {}] *)
Definition side_params (key : string) (params : CoreParams) : SExn + CoreParams :=
  let v := param key CNone params in
  if truthy v then match v with CDict d => inr d | _ => inl (PyError "AttributeError") end
  else inr [].

Definition update_pf_side (params : CoreParams) (side : PFSide) : M unit :=
  p <- lift (side_params (side_key side) params) ;;
  if truthy (param "mode" CNone p) then
    raw <- lift (match dict_get "pf" p with Some v => inr v | None => inl (PyError "KeyError") end) ;;
    pf <- lift (require_power_factor raw) ;;
    let exc := if truthy (param "excitation" CNone p) then side_over_excited side
               else 1 - side_over_excited side in
    require_points (side_control side) 704
      [side_group side +:+ ".Ext"; side_group side +:+ ".PF"] ;;;
    update_enable (Pt 704 (side_ena side)) (CInt 1) ;;;
    lib (set_cvalue (Pt 704 (side_group side +:+ ".Ext")) (CInt exc)) ;;;
    lib (set_cvalue (Pt 704 (side_group side +:+ ".PF")) (num pf)) ;;;
    lib (write (AModel 704))
  else
    present <- ask (λ d, bool_decide (unimplemented_points d 704 [side_ena side] = [])) ;;
    when present (update_enable (Pt 704 (side_ena side)) (CInt 0)).

Definition update_const_pf (params : CoreParams) : M unit :=
  get_model 704 ;;; for_each PF_SIDES (update_pf_side params).

Definition update_connect (params : CoreParams) : M unit :=
  found <- ask (λ d, has_model d 703) ;;
  when (negb found) (control_unsupported "opModConnect") ;;;
  get_model 703 ;;;
  update_enable (Pt 703 "ES") (CInt (if truthy (param "connected" (CBool true) params) then 1 else 0)).

(** ** The public methods: each runs under the connector's lock, so their effect
    is that of the synchronous body. *)
Definition core_update (method : string) : option (CoreParams → M unit) :=
  dict_get method
    [("update_qv", update_qv); ("update_pv", update_pv); ("update_qp", update_qp);
     ("update_p_lim", update_p_lim); ("update_p_lim_inj", update_p_lim_inj);
     ("update_p_lim_abs", update_p_lim_abs); ("update_gen_lim", update_gen_lim);
     ("update_load_lim", update_load_lim); ("update_pf", update_pf);
     ("update_const_q", update_const_q); ("update_fixed_w", update_fixed_w);
     ("update_target_w", update_target_w); ("update_const_pf", update_const_pf);
     ("update_connect", update_connect)].
End CoreOps.
