(* ===== verification/SunspecLaws.v ===== *)
(** * What the SunSpec properties rely on of [pysunspec2] and the device

    [DeviceLaws]: the device has registers ([reg]); only a write changes a
    setting.  [Reliable]: in addition the link never fails, a read fills the
    cache from the registers, a write sends the points set since then, a scaled
    point is written as the nearest raw value, and a 16-bit value that fits is
    taken.  [Sim] is a device that satisfies both, for the witnesses, and
    [Faulty] adds a plan of link failures to it and satisfies [DeviceLaws]. *)

From S2P Require Import Prelude Controls Response Scaling SunspecDevice.
From Stdlib Require Import QArith Qabs Qround.
#[local] Open Scope Z_scope.

(** What a block covers. *)
Definition covers (b : Block) (p : Point) : bool :=
  match b, p with
  | AModel m, (Pt m' _ | CrvPt m' _ | CrvPtPt m' _ _ | CtlPt m' _) => m =? m'
  | APoint q, _ => bool_decide (p = q)
  | ACrv m, (CrvPt m' _ | CrvPtPt m' _ _) => m =? m'
  | ACtl m, CtlPt m' _ => m =? m'
  | _, _ => false
  end.

(** The registers that hold settings and ratings; the others report what the
    device does. *)
Definition setting (p : Point) : bool :=
  match p with
  | Pt m n => bool_decide (m ∈ [702; 703; 704; 705; 706; 711; 712]) &&
              bool_decide (n ∉ ["AdptCrvRslt"; "AdptCtlRslt"])
  | _ => true
  end.

Class DeviceLaws (D : Type) `{Sunspec2 D} := {
  reg : D → Point → option Z;
  set_value_reg p v d q : setting q = true → reg (set_value p v d).2 q = reg d q;
  set_cvalue_reg p v d q : setting q = true → reg (set_cvalue p v d).2 q = reg d q;
  read_reg b d q : setting q = true → reg (read b d).2 q = reg d q;
  disconnect_reg d q : setting q = true → reg (disconnect d).2 q = reg d q;
  connect_reg d q : setting q = true → reg (connect d).2 q = reg d q;
  sleep_reg t d q : setting q = true → reg (sleep t d) q = reg d q;
}.

(** The 16-bit points of models 702 and 704 the limits use. *)
Definition LIMIT_POINTS : list Point :=
  [Pt 702 "WMax"; Pt 702 "WMaxRtg"; Pt 702 "WDisChaRteMax"; Pt 702 "WDisChaRteMaxRtg";
   Pt 702 "WChaRteMax"; Pt 702 "WChaRteMaxRtg"; Pt 704 "WMaxLimPct"; Pt 704 "WMaxLimPctEna"].

Definition WATT_POINTS : list string :=
  ["WMax"; "WMaxRtg"; "WDisChaRteMax"; "WDisChaRteMaxRtg"; "WChaRteMax"; "WChaRteMaxRtg"].

Definition U16 (z : Z) : Prop := 0 <= z <= 65535.

Class Reliable (D : Type) `{DeviceLaws D} := {
  scale : Point → Q;                     (* ten to the point's scale factor *)
  encode : Point → Q → Z;                (* the raw value the cvalue setter stores *)
  dirty : D → Point → bool;              (* set since the last read or write *)
  scale_pos p : (0 < scale p)%Q;
  scale_enable : scale (Pt 704 "WMaxLimPctEna") = 1%Q;
  w_sf : Z;                              (* model 702 W_SF *)
  scale_watts n : n ∈ WATT_POINTS → scale (Pt 702 n) = Qpower 10 w_sf;
  scale_percent : (100 <= 65535 * scale (Pt 704 "WMaxLimPct"))%Q;
  encode_nearest p q : (Qabs (inject_Z (encode p q) * scale p - q) <= (1 # 2) * scale p)%Q;
  u16_reg d p z : p ∈ LIMIT_POINTS → reg d p = Some z → U16 z;
  cvalue_num d p : p ∈ LIMIT_POINTS →
    num_of (cvalue d p) = (λ z, inject_Z z * scale p)%Q <$> value d p;
  cvalue_truthy d p : p ∈ LIMIT_POINTS →
    truthy (cvalue d p) = match value d p with Some z => negb (z =? 0) | None => false end;
  read_ok b d : (read b d).1 = None;
  read_value b d p : value (read b d).2 p = if covers b p then reg d p else value d p;
  read_dirty b d p : dirty (read b d).2 p = if covers b p then false else dirty d p;
  read_models b d : model_ids_of (read b d).2 = model_ids_of d;
  set_cvalue_ok p v d q : num_of v = Some q → is_Some (value d p) →
    (set_cvalue p v d).1 = None;
  set_cvalue_value p v d q : num_of v = Some q → is_Some (value d p) →
    ∀ p', value (set_cvalue p v d).2 p' =
          if decide (p' = p) then Some (encode p q) else value d p';
  set_cvalue_dirty p v d q : num_of v = Some q → is_Some (value d p) →
    ∀ p', dirty (set_cvalue p v d).2 p' = if decide (p' = p) then true else dirty d p';
  set_cvalue_models p v d : model_ids_of (set_cvalue p v d).2 = model_ids_of d;
  write_ok b d :
    (∀ p z, covers b p = true → dirty d p = true → value d p = Some z → U16 z) →
    (write b d).1 = None;
  write_reg b d :
    (∀ p z, covers b p = true → dirty d p = true → value d p = Some z → U16 z) →
    ∀ p, setting p = true →
         reg (write b d).2 p = if covers b p && dirty d p then value d p else reg d p;
  write_value b d p : value (write b d).2 p = value d p;
  write_dirty b d p : dirty (write b d).2 p = if covers b p then false else dirty d p;
  write_models b d : model_ids_of (write b d).2 = model_ids_of d;
}.

(** ** A device that satisfies the laws *)

#[export] Instance Point_countable : Countable Point.
Proof.
  refine (inj_countable'
    (λ p, match p with
          | Pt m n => (0%Z, m, 0%nat, n) | CrvPt m n => (1, m, 0%nat, n)
          | CrvPtPt m i n => (2, m, i, n) | CtlPt m n => (3, m, 0%nat, n)
          end)
    (λ t, let '(k, m, i, n) := t in
          if decide (k = 0) then Pt m n else if decide (k = 1) then CrvPt m n
          else if decide (k = 2) then CrvPtPt m i n else CtlPt m n) _).
  by intros [].
Defined.

(** Registers, the client's cache of them, and the points set since. *)
Record Sim := mkSim { sm_reg : gmap Point Z; sm_val : gmap Point Z; sm_dirty : gset Point }.

(** The registers hold 16 bits. *)
Definition sim_regs (d : Sim) : gmap Point Z := (λ z, z `mod` 65536) <$> sm_reg d.

Definition sim_scale (p : Point) : Q := if decide (p = Pt 704 "WMaxLimPct") then 1 # 10 else 1.
Definition sim_encode (p : Point) (q : Q) : Z := round_q (q / sim_scale p).

Definition sim_cvalue (d : Sim) (p : Point) : CoreVal :=
  match sm_val d !! p with
  | None => CNone
  | Some z => if decide (p = Pt 704 "WMaxLimPct") then CFlt (FFin (inject_Z z * (1 # 10))%Q)
              else CInt z
  end.

Definition sim_store (p : Point) (z : option Z) (d : Sim) : option string * Sim :=
  match z, sm_val d !! p with
  | Some z, Some _ => (None, mkSim (sm_reg d) (<[p := z]> (sm_val d)) ({[p]} ∪ sm_dirty d))
  | _, _ => (Some "unimplemented point", d)
  end.

Definition sim_read (b : Block) (d : Sim) : option string * Sim :=
  (None, mkSim (sm_reg d)
           (filter (λ pz, covers b pz.1 = true) (sim_regs d) ∪
            filter (λ pz, covers b pz.1 = false) (sm_val d))
           (filter (λ p, covers b p = false) (sm_dirty d))).

Definition sent (b : Block) (d : Sim) (p : Point) : bool := covers b p && bool_decide (p ∈ sm_dirty d).

Definition sim_write (b : Block) (d : Sim) : option string * Sim :=
  (None, mkSim (filter (λ pz, sent b d pz.1 = true) (sm_val d) ∪
                filter (λ pz, sent b d pz.1 = false) (sm_reg d))
           (sm_val d) (filter (λ p, covers b p = false) (sm_dirty d))).

(** The models found are 701 to 706, 711 and 712, with room for four curve points. *)
#[export] Instance Sim_sunspec2 : Sunspec2 Sim := {
  model_ids_of _ := [701; 702; 703; 704; 705; 706; 711; 712];
  value d p := sm_val d !! p;
  cvalue := sim_cvalue;
  crv_count _ _ := 2%nat;
  ctl_count _ _ := 2%nat;
  pt_count _ _ := 4%nat;
  set_value p v := sim_store p (match v with CInt z => Some z | _ => None end);
  set_cvalue p v := sim_store p (sim_encode p <$> num_of v);
  read := sim_read;
  write := sim_write;
  scan d := (None, d);
  disconnect d := (None, d);
  connect d := (None, d);
  sleep _ d := d;
  monotonic _ := 0%Q;
  wall_time _ := 0;
}.

Lemma sim_store_reg p z d : sm_reg (sim_store p z d).2 = sm_reg d.
Proof. unfold sim_store. by repeat case_match. Qed.

#[export] Instance Sim_laws : DeviceLaws Sim.
Proof.
  refine (Build_DeviceLaws _ _ (λ d p, sim_regs d !! p) _ _ _ _ _ _); intros; cbn; try done;
    unfold sim_regs; by rewrite ?sim_store_reg.
Defined.

Lemma round_q_nearest (q : Q) : (Qabs (inject_Z (round_q q) - q) <= 1 # 2)%Q.
Proof.
  destruct q as [n d]. apply Qabs_Qle_condition.
  unfold round_q, div_round, Qle; cbn -[Z.mul Z.modulo Z.div].
  pose proof (Z.div_mod n (Zpos d) ltac:(done)) as E.
  pose proof (Z.mod_pos_bound n (Zpos d) ltac:(done)) as B.
  set (r := n mod Z.pos d) in *. set (k := n / Z.pos d) in *.
  destruct (Z.compare_spec (2 * r) (Z.pos d)); [destruct (Z.even k)|..]; split; nia.
Qed.

Lemma filter_lookup_bool (f : Point → bool) (b : bool) (m : gmap Point Z) (p : Point) :
  filter (λ pz : Point * Z, f pz.1 = b) m !! p = if Bool.eqb (f p) b then m !! p else None.
Proof.
  rewrite map_lookup_filter. destruct (m !! p) as [z|] eqn:E; cbn; [|by case_match].
  destruct (decide (f p = b)) as [<-|Hne]; [by rewrite option_guard_True, Bool.eqb_reflx|].
  rewrite option_guard_False by done. by rewrite (proj2 (Bool.eqb_false_iff _ _)).
Qed.

Lemma filter_union_lookup (f : Point → bool) (m1 m2 : gmap Point Z) (p : Point) :
  (filter (λ pz : Point * Z, f pz.1 = true) m1 ∪ filter (λ pz : Point * Z, f pz.1 = false) m2) !! p =
  if f p then m1 !! p else m2 !! p.
Proof.
  rewrite lookup_union, !filter_lookup_bool.
  by destruct (f p); cbn; [destruct (m1 !! p)|destruct (m2 !! p)].
Qed.

Lemma sim_dirty_filter (b : Block) (p : Point) (l : gset Point) :
  bool_decide (p ∈ filter (λ p, covers b p = false) l) =
  if covers b p then false else bool_decide (p ∈ l).
Proof.
  destruct (covers b p) eqn:E.
  - apply bool_decide_eq_false. rewrite elem_of_filter, E. naive_solver.
  - apply bool_decide_ext. rewrite elem_of_filter. naive_solver.
Qed.

Lemma sim_store_implemented p v d q (Hv : num_of v = Some q) (Hd : is_Some (sm_val d !! p)) :
  sim_store p (sim_encode p <$> num_of v) d =
  (None, mkSim (sm_reg d) (<[p := sim_encode p q]> (sm_val d)) ({[p]} ∪ sm_dirty d)).
Proof. rewrite Hv. destruct Hd as [z Hz]. cbn. by rewrite Hz. Qed.

Lemma sim_write_reg b d p :
  (∀ p z, covers b p = true → bool_decide (p ∈ sm_dirty d) = true → sm_val d !! p = Some z → U16 z) →
  sim_regs (sim_write b d).2 !! p =
  if covers b p && bool_decide (p ∈ sm_dirty d) then sm_val d !! p else sim_regs d !! p.
Proof.
  intros Hu. unfold sim_regs at 1. rewrite lookup_fmap. cbn.
  rewrite filter_union_lookup. unfold sent.
  destruct (covers b p && bool_decide (p ∈ sm_dirty d)) eqn:E.
  - apply andb_true_iff in E as [E1 E2]. destruct (sm_val d !! p) as [z|] eqn:Ez; cbn; [|done].
    f_equal. apply Z.mod_small. specialize (Hu p z E1 E2 Ez). unfold U16 in Hu. lia.
  - unfold sim_regs. by rewrite lookup_fmap.
Qed.

#[export] Instance Sim_reliable : Reliable Sim.
Proof.
  refine (Build_Reliable _ _ _ sim_scale sim_encode (λ d p, bool_decide (p ∈ sm_dirty d))
            _ _ 0 _ _ _ _ _ _ _ _ _ _ _ _ _ _ _ _ _ _ _).
  - intros p. unfold sim_scale. by case_decide.
  - done.
  - intros n Hn. unfold sim_scale. by rewrite decide_False.
  - done.
  - intros p q. unfold sim_encode. pose proof (round_q_nearest (q / sim_scale p)) as Hr.
    assert (0 < sim_scale p)%Q as Hs by (unfold sim_scale; by case_decide).
    assert (inject_Z (round_q (q / sim_scale p)) * sim_scale p - q ==
            (inject_Z (round_q (q / sim_scale p)) - q / sim_scale p) * sim_scale p)%Q as ->.
    { field. intros E. rewrite E in Hs. done. }
    rewrite Qabs_Qmult, (Qabs_pos (sim_scale p)) by (by apply Qlt_le_weak).
    apply Qmult_le_compat_r; [done|by apply Qlt_le_weak].
  - intros d p z _. cbn. unfold sim_regs. rewrite lookup_fmap.
    destruct (sm_reg d !! p) as [y|]; cbn; [|done]. intros [= <-].
    unfold U16. pose proof (Z.mod_pos_bound y 65536). lia.
  - intros d p Hp. cbn. unfold sim_cvalue, sim_scale. destruct (sm_val d !! p); cbn; [|done].
    case_decide; cbn; [done|]. f_equal. unfold inject_Z, Qmult. cbn. f_equal. lia.
  - intros d p Hp. cbn. unfold sim_cvalue. destruct (sm_val d !! p) as [z|]; cbn; [|done].
    case_decide; cbn; [|done]. f_equal. unfold Qeq_bool. cbn.
    destruct (Z.eqb_spec z 0) as [->|Hz]; [done|]. cbn.
    destruct z; done.
  - done.
  - intros b d p. cbn. by rewrite filter_union_lookup.
  - intros b d p. cbn. apply sim_dirty_filter.
  - done.
  - intros p v d q Hv Hd. cbn. by erewrite sim_store_implemented.
  - intros p v d q Hv Hd p'. cbn. erewrite sim_store_implemented by done. cbn.
    case_decide; [by subst; rewrite lookup_insert_eq|by rewrite lookup_insert_ne].
  - intros p v d q Hv Hd p'. cbn. erewrite sim_store_implemented by done. cbn.
    case_decide; [subst; apply bool_decide_eq_true; set_solver|apply bool_decide_ext; set_solver].
  - done.
  - done.
  - intros b d Hu p _. by apply sim_write_reg.
  - done.
  - intros b d p. cbn. apply sim_dirty_filter.
  - done.
Defined.

(** ** The same device behind a link that fails as planned *)

(** One link operation: it succeeds, fails, or fails after it took effect. *)
Inductive Fault := FNone | FFails (message : string) | FLands (message : string).

Record Faulty := mkFaulty { fl_dev : Sim; fl_plan : list Fault }.

Definition planned (op : Sim → option string * Sim) (d : Faulty) : option string * Faulty :=
  match fl_plan d with
  | FFails m :: plan => (Some m, mkFaulty (fl_dev d) plan)
  | FLands m :: plan => (Some m, mkFaulty (op (fl_dev d)).2 plan)
  | plan => ((op (fl_dev d)).1, mkFaulty (op (fl_dev d)).2 (tail plan))
  end.

Definition unplanned (op : Sim → option string * Sim) (d : Faulty) : option string * Faulty :=
  ((op (fl_dev d)).1, mkFaulty (op (fl_dev d)).2 (fl_plan d)).

#[export] Instance Faulty_sunspec2 : Sunspec2 Faulty := {
  model_ids_of d := model_ids_of (fl_dev d);
  value d := value (fl_dev d);
  cvalue d := cvalue (fl_dev d);
  crv_count d := crv_count (fl_dev d);
  ctl_count d := ctl_count (fl_dev d);
  pt_count d := pt_count (fl_dev d);
  set_value p v := unplanned (set_value p v);
  set_cvalue p v := unplanned (set_cvalue p v);
  read b := planned (read b);
  write b := planned (write b);
  scan := planned scan;
  disconnect := unplanned disconnect;
  connect := planned connect;
  sleep _ d := d;
  monotonic _ := 0%Q;
  wall_time _ := 0;
}.

Lemma planned_reg op d p :
  (∀ d', reg (op d').2 p = reg d' p) → reg (fl_dev (planned op d).2) p = reg (fl_dev d) p.
Proof.
  intros Hop. unfold planned. destruct (fl_plan d) as [|[]]; cbn [snd fl_dev]; auto.
Qed.

#[export] Instance Faulty_laws : DeviceLaws Faulty.
Proof.
  refine (Build_DeviceLaws _ _ (λ d, reg (fl_dev d)) _ _ _ _ _ _); intros.
  - by apply set_value_reg.
  - by apply set_cvalue_reg.
  - apply planned_reg. intros. by apply read_reg.
  - done.
  - by apply planned_reg.
  - done.
Defined.
