(* ===== verification/SunspecLimits.v ===== *)
(** * The limits of the SunSpec core on a link without failures

    Five controls share two registers and move a third: opModMaxLimW,
    opModMaxLimWInject and opModGenLimW meet on model 704 WMaxLimPct,
    opModMaxLimWAbsorb and opModLoadLimW on model 702 WChaRteMax, and an inject
    limit lowers model 702 WMax, the base WMaxLimPct is a percent of.  [limits_ok]
    is what the connector keeps true of its record and the device's registers;
    every control keeps it, whatever its parameters. *)

From Stdlib Require Import QArith Qabs Qpower Lqa.
From S2P Require Import Prelude Controls Response Scaling SunspecDevice SunspecMeter SunspecCore.
From S2P Require Import SunspecLaws.
#[local] Open Scope Z_scope.

(** ** Rounding *)

Lemma inject_Z_lt_succ (a b : Z) : ¬ a <= b → (inject_Z b + 1 <= inject_Z a)%Q.
Proof. intros Hab. change 1%Q with (inject_Z 1). rewrite <- inject_Z_plus, <- Zle_Qle. lia. Qed.

Lemma nearest_le (e z : Z) (s q : Q) :
  (0 < s)%Q → (Qabs (inject_Z e * s - q) <= (1 # 2) * s)%Q → (q < (inject_Z z + (1 # 2)) * s)%Q → e <= z.
Proof.
  intros Hs [_ Hn]%Qabs_Qle_condition Hq. destruct (decide (e <= z)) as [|Hc]; [done|].
  apply inject_Z_lt_succ in Hc. exfalso.
  assert ((inject_Z z + 1) * s <= inject_Z e * s)%Q by (apply Qmult_le_compat_r; lra). lra.
Qed.

Lemma nearest_ge (e z : Z) (s q : Q) :
  (0 < s)%Q → (Qabs (inject_Z e * s - q) <= (1 # 2) * s)%Q → ((inject_Z z - (1 # 2)) * s < q)%Q → z <= e.
Proof.
  intros Hs [Hn _]%Qabs_Qle_condition Hq. destruct (decide (z <= e)) as [|Hc]; [done|].
  apply inject_Z_lt_succ in Hc. exfalso.
  assert ((inject_Z e + 1) * s <= inject_Z z * s)%Q by (apply Qmult_le_compat_r; lra). lra.
Qed.

Lemma nearest_exact (e z : Z) (s : Q) :
  (0 < s)%Q → (Qabs (inject_Z e * s - inject_Z z * s) <= (1 # 2) * s)%Q → e = z.
Proof. intros Hs Hn. apply Z.le_antisymm; [eapply nearest_le|eapply nearest_ge]; eauto; lra. Qed.

(** [round] is the nearest integer; a value it takes to at most [b] is below
    [b + 1/2] when [b] is odd (a tie goes to the even side). *)
Lemma round_q_lt (q : Q) (b : Z) :
  Z.odd b = true → round_q q <= b → (q < inject_Z b + (1 # 2))%Q.
Proof.
  destruct q as [n d]. unfold round_q, div_round, Qlt. cbn -[Z.mul Z.modulo Z.div].
  intros Hb Hr. pose proof (Z.div_mod n (Zpos d) ltac:(done)) as E.
  pose proof (Z.mod_pos_bound n (Zpos d) ltac:(done)) as B.
  set (r := n mod Z.pos d) in *. set (k := n / Z.pos d) in *.
  assert (2 * r < Z.pos d ∧ k <= b ∨ k + 1 <= b) as [[H1 H2]|H1]; [|nia..].
  destruct (Z.compare_spec (2 * r) (Z.pos d)); [|auto..]. destruct (Z.even k) eqn:Ek; [|auto].
  right. assert (k ≠ b); [|lia]. intros ->. rewrite <- Z.negb_odd, Hb in Ek. done.
Qed.

Lemma round_q_range (q : Q) (z : Z) :
  (0 <= q)%Q → (q <= inject_Z z)%Q → 0 <= round_q q <= z.
Proof.
  intros H0 Hz. pose proof (round_q_nearest q) as Hn.
  assert (Qabs (inject_Z (round_q q) * 1 - q) <= (1 # 2) * 1)%Q as Hn' by (by rewrite !Qmult_1_r).
  split; [eapply nearest_ge|eapply nearest_le]; [|exact Hn'| | |exact Hn'|]; try done.
  - change (inject_Z 0) with 0%Q. lra.
  - lra.
Qed.

(** ** Percents of WMax *)

Lemma qmin_le_l a b : (qmin a b <= a)%Q.
Proof.
  unfold qmin. destruct (Qle_bool a b) eqn:E; [lra|].
  destruct (Qlt_le_dec b a); [lra|]. apply Qle_bool_iff in q. congruence.
Qed.
Lemma qmin_le_r a b : (qmin a b <= b)%Q.
Proof. unfold qmin. destruct (Qle_bool a b) eqn:E; [by apply Qle_bool_iff|lra]. Qed.
Lemma qmin_ge a b c : (c <= a)%Q → (c <= b)%Q → (c <= qmin a b)%Q.
Proof. unfold qmin. by destruct (Qle_bool a b). Qed.

Lemma foldl_qmin_le (l : list Q) (a : Q) :
  (foldl qmin a l <= a)%Q ∧ ∀ x, x ∈ l → (foldl qmin a l <= x)%Q.
Proof.
  revert a. induction l as [|y l IH]; intros a; cbn.
  - split; [lra|]. intros x Hx. by apply elem_of_nil in Hx.
  - destruct (IH (qmin a y)) as [H1 H2]. pose proof (qmin_le_l a y). pose proof (qmin_le_r a y).
    split; [lra|]. intros x [->|Hx]%elem_of_cons; [lra|by apply H2].
Qed.

Lemma foldl_qmin_ge (l : list Q) (a c : Q) :
  (c <= a)%Q → (∀ x, x ∈ l → (c <= x)%Q) → (c <= foldl qmin a l)%Q.
Proof.
  revert a. induction l as [|y l IH]; intros a Ha Hl; cbn; [done|].
  apply IH; [apply qmin_ge; [done|apply Hl; left]|intros x Hx; apply Hl; by right].
Qed.

Lemma list_min_le (l : list Q) (m x : Q) : list_min l = Some m → x ∈ l → (m <= x)%Q.
Proof.
  destruct l as [|y l]; [done|]. intros [= <-]. destruct (foldl_qmin_le l y) as [H1 H2].
  intros [->|Hx]%elem_of_cons; [done|by apply H2].
Qed.

Lemma list_min_ge (l : list Q) (m c : Q) :
  list_min l = Some m → (∀ x, x ∈ l → (c <= x)%Q) → (c <= m)%Q.
Proof.
  destruct l as [|y l]; [done|]. intros [= <-] Hl.
  apply foldl_qmin_ge; [apply Hl; left|intros x Hx; apply Hl; by right].
Qed.

Lemma foldl_qmin_elem (l : list Q) (a : Q) : foldl qmin a l = a ∨ foldl qmin a l ∈ l.
Proof.
  revert a. induction l as [|y l IH]; intros a; cbn; [by left|].
  destruct (IH (qmin a y)) as [->|Hin]; [|right; by right].
  unfold qmin. destruct (Qle_bool a y); [by left|right; left].
Qed.

Lemma list_min_elem (l : list Q) (m : Q) : list_min l = Some m → m ∈ l.
Proof.
  destruct l as [|y l]; [done|]. intros [= <-].
  destruct (foldl_qmin_elem l y) as [->|Hin]; [left|by right].
Qed.

(** A percent [q] of a base [b] that allows at most [w] still does after the
    register's rounding, up to half a unit. *)
Lemma encoded_bound (z : Z) (s q b w : Q) :
  (0 < s)%Q → (0 < b)%Q → (Qabs (inject_Z z * s - q) <= (1 # 2) * s)%Q → (q * b <= 100 * w)%Q →
  (inject_Z z * s * b / 100 <= w + (1 # 2) * s * b / 100)%Q.
Proof.
  intros Hs Hb [_ Hn]%Qabs_Qle_condition Hq. unfold Qdiv. change (/ 100)%Q with (1 # 100)%Q.
  assert (inject_Z z * s <= q + (1 # 2) * s)%Q as Hz by lra.
  apply (Qmult_le_compat_r _ _ b) in Hz; lra.
Qed.

Lemma clamped_pct_ok (w base : Q) :
  (0 <= w)%Q → (0 < base)%Q →
  (0 <= clamped_pct w base)%Q ∧ (clamped_pct w base <= 100)%Q ∧
  (clamped_pct w base * base <= 100 * w)%Q.
Proof.
  intros Hw Hb. unfold clamped_pct.
  assert (0 <= w / base)%Q as H0 by (apply Qle_shift_div_l; lra).
  assert (w / base * base == w)%Q as Hm by (field; lra).
  set (x := (w / base)%Q) in *.
  rewrite Qabs_pos by lra. destruct (Qle_bool (x * 100) 100) eqn:E.
  - apply Qle_bool_iff in E. repeat split; [lra..|]. rewrite <- Hm at 1. lra.
  - assert (100 < x * 100)%Q as Hx.
    { destruct (Qlt_le_dec 100 (x * 100)) as [|Hle]; [done|].
      apply Qle_bool_iff in Hle. congruence. }
    destruct (Qle_bool (x * 100) 0) eqn:E0; [apply Qle_bool_iff in E0; lra|].
    repeat split; [lra..|]. rewrite <- Hm.
    assert (1 * base <= x * base)%Q by (apply Qmult_le_compat_r; lra). lra.
Qed.

(** ** The client's calls on a reliable link *)

Abbreviation Ena := (Pt 704 "WMaxLimPctEna") (only parsing).
Abbreviation Pct := (Pt 704 "WMaxLimPct") (only parsing).
Abbreviation WMax := (Pt 702 "WMax") (only parsing).
Abbreviation WMaxRtg := (Pt 702 "WMaxRtg") (only parsing).
Abbreviation WDis := (Pt 702 "WDisChaRteMax") (only parsing).
Abbreviation WDisRtg := (Pt 702 "WDisChaRteMaxRtg") (only parsing).
Abbreviation WCha := (Pt 702 "WChaRteMax") (only parsing).
Abbreviation WChaRtg := (Pt 702 "WChaRteMaxRtg") (only parsing).

Section Limits.
Context {D : Type} `{Reliable D}.
#[local] Abbreviation M A := (Comp SExn (Core D) A).

Definition rd (m : Z) (d : D) : D := (read (AModel m) d).2.

Lemma with_dev_dev (s : Core D) d : dev (with_dev s d) = d.
Proof. done. Qed.

Lemma lib_read b (s : Core D) : lib (read b) s = (inr tt, with_dev s (read b (dev s)).2).
Proof. unfold lib. pose proof (read_ok b (dev s)). destruct (read b (dev s)). cbn in *. by subst. Qed.

Lemma get_model_ok m (s : Core D) :
  m ∈ model_ids_of (dev s) → get_model m s = (inr tt, with_dev s (rd m (dev s))).
Proof.
  intros Hm. unfold get_model, ask, bind, get, has_model. rewrite bool_decide_true by done. cbn.
  unfold caught. by rewrite lib_read.
Qed.

Lemma lib_set_cvalue p v q (s : Core D) :
  num_of v = Some q → is_Some (value (dev s) p) →
  lib (set_cvalue p v) s = (inr tt, with_dev s (set_cvalue p v (dev s)).2).
Proof.
  intros Hv Hp. unfold lib. pose proof (set_cvalue_ok p v (dev s) q Hv Hp).
  destruct (set_cvalue p v (dev s)). cbn in *. by subst.
Qed.

Definition sendable (b : Block) (d : D) : Prop :=
  ∀ p z, covers b p = true → dirty d p = true → value d p = Some z → U16 z.

Lemma lib_write b (s : Core D) :
  sendable b (dev s) → lib (write b) s = (inr tt, with_dev s (write b (dev s)).2).
Proof.
  intros Hb. unfold lib. pose proof (write_ok b (dev s) Hb).
  destruct (write b (dev s)). cbn in *. by subst.
Qed.

Lemma encode_exact p z : encode p (inject_Z z * scale p) = z.
Proof. eapply nearest_exact; [apply scale_pos|apply encode_nearest]. Qed.

Lemma encode_enable z : encode Ena (inject_Z z) = z.
Proof.
  pose proof (encode_nearest Ena (inject_Z z)) as Hn. rewrite scale_enable in Hn.
  apply (nearest_exact _ _ 1); [lra|]. by rewrite (Qmult_1_r (inject_Z z)).
Qed.

Lemma rd_reg m d q : setting q = true → reg (rd m d) q = reg d q.
Proof. apply read_reg. Qed.
Lemma rd_value m d q : value (rd m d) q = if covers (AModel m) q then reg d q else value d q.
Proof. apply read_value. Qed.
Lemma rd_dirty m d q : dirty (rd m d) q = if covers (AModel m) q then false else dirty d q.
Proof. apply read_dirty. Qed.
Lemma rd_models m d : model_ids_of (rd m d) = model_ids_of d.
Proof. apply read_models. Qed.

(** *** A verified enable *)

Definition after_enable (p : Point) (z : Z) (d : D) : D :=
  (read (APoint p) (write (APoint p) (set_cvalue p (CInt z) d).2).2).2.

Section Enable.
Variables (z : Z) (d : D).
Hypothesis Hz : U16 z.
Hypothesis Hd : is_Some (value d Ena).

Lemma enable_sendable : sendable (APoint Ena) (set_cvalue Ena (CInt z) d).2.
Proof.
  intros p y Hc _ Hy. cbn in Hc. apply bool_decide_eq_true in Hc as ->.
  rewrite (set_cvalue_value _ _ _ (inject_Z z)), decide_True in Hy by done.
  injection Hy as <-. by rewrite encode_enable.
Qed.

Lemma enable_reg q : setting q = true →
  reg (after_enable Ena z d) q = if decide (q = Ena) then Some z else reg d q.
Proof.
  intros Hq. unfold after_enable. rewrite read_reg, write_reg by (done || apply enable_sendable).
  rewrite (set_cvalue_dirty _ _ _ (inject_Z z)), (set_cvalue_value _ _ _ (inject_Z z)) by done.
  cbn [covers]. case_decide as Hqe.
  - rewrite bool_decide_true by done. cbn. by rewrite encode_enable.
  - rewrite bool_decide_false by done. cbn. by apply set_cvalue_reg.
Qed.

Lemma enable_value q : value (after_enable Ena z d) q = if decide (q = Ena) then Some z else value d q.
Proof.
  unfold after_enable. rewrite read_value. cbn [covers]. case_decide as Hqe.
  - subst q. rewrite bool_decide_true by done.
    rewrite write_reg by (done || apply enable_sendable).
    rewrite (set_cvalue_dirty _ _ _ (inject_Z z)), (set_cvalue_value _ _ _ (inject_Z z)) by done.
    cbn [covers]. rewrite bool_decide_true, decide_True by done. cbn. by rewrite encode_enable.
  - rewrite bool_decide_false, write_value, (set_cvalue_value _ _ _ (inject_Z z)) by done.
    by rewrite decide_False.
Qed.

Lemma enable_dirty q : dirty (after_enable Ena z d) q = if decide (q = Ena) then false else dirty d q.
Proof.
  unfold after_enable. rewrite read_dirty. cbn [covers]. case_decide as Hqe.
  - by rewrite bool_decide_true.
  - rewrite bool_decide_false, write_dirty by done. cbn [covers]. rewrite bool_decide_false by done.
    rewrite (set_cvalue_dirty _ _ _ (inject_Z z)) by done. by rewrite decide_False.
Qed.

Lemma enable_models : model_ids_of (after_enable Ena z d) = model_ids_of d.
Proof. unfold after_enable. by rewrite read_models, write_models, set_cvalue_models. Qed.
End Enable.

Lemma update_enable_ok z (s : Core D) :
  U16 z → is_Some (value (dev s) Ena) →
  update_enable Ena (CInt z) s = (inr tt, with_dev s (after_enable Ena z (dev s))).
Proof.
  intros Hz Hs. unfold update_enable, bind at 1. rewrite (lib_set_cvalue _ _ (inject_Z z)) by done.
  unfold bind at 1. rewrite lib_write by (by apply enable_sendable).
  unfold bind at 1. rewrite lib_read. unfold bind, ask, get. rewrite !with_dev_dev.
  change ((read _ (write _ _).2).2) with (after_enable Ena z (dev s)).
  assert (py_eq (cvalue (after_enable Ena z (dev s)) Ena) (CInt z) = true) as ->.
  { unfold py_eq. rewrite cvalue_num by (apply (bool_decide_unpack _); vm_compute; exact I).
    rewrite enable_value, decide_True by done. cbn. rewrite scale_enable. apply Qeq_bool_iff.
    apply Qmult_1_r. }
  done.
Qed.

(** *** Writing the merged percent *)

Definition in_percent (q : Q) : Prop := (0 <= q)%Q ∧ (q <= 100)%Q.

Lemma encode_percent q : in_percent q → U16 (encode Pct q).
Proof.
  intros [Hlo Hhi]. pose proof (encode_nearest Pct q) as Hn. pose proof (scale_pos Pct) as Hs.
  pose proof scale_percent as Hp. split.
  - eapply nearest_ge; [exact Hs|exact Hn|]. change (inject_Z 0) with 0%Q. lra.
  - eapply nearest_le; [exact Hs|exact Hn|]. change (inject_Z 65535) with 65535%Q. lra.
Qed.

(** The 704 registers the merged limit leaves, over what was there. *)
Definition merged_reg (merged : option Q) (old : Point → option Z) (p : Point) : option Z :=
  if decide (p = Ena) then Some (if merged is Some _ then 1 else 0)
  else match merged with
       | Some q => if decide (p = Pct) then Some (encode Pct q) else old p
       | None => old p
       end.

Definition model_704_ready (d : D) : Prop :=
  704 ∈ model_ids_of d ∧ is_Some (reg d Ena) ∧ is_Some (reg d Pct).

Lemma rd_704_implemented d p : model_704_ready d → p ∈ [Ena; Pct] → is_Some (value (rd 704 d) p).
Proof.
  intros (_ & He & Hp) [->|[->|[]%elem_of_nil]%elem_of_cons]%elem_of_cons; by rewrite rd_value.
Qed.

Lemma pct_implemented d : model_704_ready d → unimplemented_points (rd 704 d) 704 ["WMaxLimPct"] = [].
Proof.
  intros Hd. unfold unimplemented_points. rewrite filter_none; [done|].
  intros x ->%list_elem_of_singleton E.
  destruct (rd_704_implemented d Pct Hd ltac:(right; left)) as [z Hz]. congruence.
Qed.

Lemma apply_inject_ok slot en pct (s : Core D) :
  model_704_ready (dev s) →
  (∀ q, compute_merged_inject_pct (set_slot slot (en, pct) (p_lim_slots s)) = Some q → in_percent q) →
  ∃ d', apply_inject_pct_slot slot en pct s =
          (inr tt, with_dev (with_slots s (set_slot slot (en, pct) (p_lim_slots s))) d') ∧
        model_ids_of d' = model_ids_of (dev s) ∧
        ∀ p, setting p = true →
             reg d' p = merged_reg (compute_merged_inject_pct (set_slot slot (en, pct) (p_lim_slots s)))
                          (reg (dev s)) p.
Proof.
  intros Hd Hr. set (l := set_slot slot (en, pct) (p_lim_slots s)) in *.
  set (d1 := rd 704 (dev s)).
  assert (is_Some (value d1 Ena)) as He by (apply rd_704_implemented; [done|left]).
  unfold apply_inject_pct_slot, bind at 1, modify. fold l.
  unfold bind at 1. rewrite get_model_ok by apply Hd. cbn [dev with_slots]. fold d1.
  unfold bind at 1, get at 1. unfold bind at 1, ask, get. cbn [dev with_dev].
  change (p_lim_slots (with_dev (with_slots s l) d1)) with l.
  assert (unimplemented_points d1 704 ["WMaxLimPct"] = []) as -> by (by apply pct_implemented).
  rewrite (bool_decide_false ([] ≠ [])) by naive_solver.
  rewrite andb_false_r. cbn [when]. unfold bind at 1, ret at 1. unfold bind at 1.
  rewrite update_enable_ok by (done || (unfold U16; by destruct (compute_merged_inject_pct l))).
  cbn [dev with_dev].
  assert (∀ p, setting p = true → reg d1 p = reg (dev s) p) as Hd1 by (intros; by apply rd_reg).
  destruct (compute_merged_inject_pct l) as [q|] eqn:Em.
  - set (d2 := after_enable Ena 1 d1).
    assert (is_Some (value d2 Pct)) as Hp.
    { unfold d2. rewrite enable_value, decide_False by done.
      apply rd_704_implemented; [done|right; left]. }
    unfold bind at 1. rewrite (lib_set_cvalue Pct (num q) q) by done.
    set (d3 := (set_cvalue Pct (num q) d2).2).
    assert (sendable (AModel 704) d3) as Hsend.
    { intros p z Hc. unfold d3. rewrite (set_cvalue_dirty _ _ _ q), (set_cvalue_value _ _ _ q) by done.
      case_decide; [intros _ [= <-]; by apply encode_percent, Hr|].
      unfold d2. rewrite enable_dirty by done. case_decide; [done|].
      unfold d1. by rewrite rd_dirty, Hc. }
    rewrite lib_write by done. eexists. split; [done|]. split.
    + cbn [dev with_dev]. rewrite write_models. fold d2. unfold d3. rewrite set_cvalue_models. unfold d2. rewrite enable_models.
      apply rd_models.
    + intros p Hs. cbn [dev with_dev]. rewrite write_reg by done.
      fold d3. unfold d3. rewrite (set_cvalue_dirty _ _ _ q), (set_cvalue_value _ _ _ q) by done.
      rewrite set_cvalue_reg by done. unfold d2. rewrite enable_dirty, enable_reg by done.
      unfold merged_reg. destruct (decide (p = Pct)) as [->|Hne]; [done|].
      destruct (decide (p = Ena)) as [->|Hne2]; [done|]. unfold d1. rewrite rd_dirty.
      destruct (covers (AModel 704) p); cbn; by apply rd_reg.
  - eexists. split; [done|]. split; [unfold d1; by rewrite enable_models, rd_models|].
    intros p Hs. rewrite enable_reg by done. unfold merged_reg. case_decide; [done|by apply Hd1].
Qed.

(** *** The percent base *)

Definition nonzero_reg (r : Point → option Z) (p : Point) : option Q :=
  match r p with Some z => if z =? 0 then None else Some (inject_Z z * scale p)%Q | None => None end.

(** The watts WMaxLimPct is a percent of: WMax, or WMaxRtg without one. *)
Definition base_of (r : Point → option Z) : option Q :=
  match nonzero_reg r WMax with Some w => Some w | None => nonzero_reg r WMaxRtg end.

Lemma nonzero_rd d n : Pt 702 n ∈ LIMIT_POINTS →
  nonzero (cvalue (rd 702 d) (Pt 702 n)) = nonzero_reg (reg d) (Pt 702 n).
Proof.
  intros Hp. unfold nonzero, nonzero_reg. rewrite cvalue_truthy, cvalue_num by done.
  rewrite rd_value. cbn [covers]. rewrite Z.eqb_refl.
  destruct (reg d (Pt 702 n)) as [z|]; [|done]. cbn. by destruct (z =? 0).
Qed.

Lemma pct_base_rd d : pct_base (rd 702 d) = base_of (reg d).
Proof.
  unfold pct_base, base_of. by rewrite !nonzero_rd by (apply (bool_decide_unpack _); vm_compute; exact I).
Qed.

Lemma nonzero_reg_pos d p q : p ∈ LIMIT_POINTS → nonzero_reg (reg d) p = Some q → (0 < q)%Q.
Proof.
  unfold nonzero_reg. intros Hp. destruct (reg d p) as [z|] eqn:E; [|done].
  destruct (Z.eqb_spec z 0) as [|Hz]; [done|]. intros [= <-].
  destruct (u16_reg _ _ _ Hp E) as [Hz0 _]. pose proof (scale_pos p).
  assert (0 < inject_Z z)%Q by (change 0%Q with (inject_Z 0); rewrite <- Zlt_Qlt; lia).
  by apply Qmult_lt_0_compat.
Qed.

Lemma base_pos d b : base_of (reg d) = Some b → (0 < b)%Q.
Proof.
  unfold base_of. destruct (nonzero_reg (reg d) WMax) as [q|] eqn:E; [intros [= <-]|intros E2];
    eapply nonzero_reg_pos; eauto; apply (bool_decide_unpack _); vm_compute; exact I.
Qed.

Lemma watts_as_pct_ok w (s : Core D) :
  702 ∈ model_ids_of (dev s) →
  watts_as_pct_of_wmax w s =
  (inr (clamped_pct w <$> base_of (reg (dev s))), with_dev s (rd 702 (dev s))).
Proof.
  intros Hm. unfold watts_as_pct_of_wmax, bind at 1. rewrite get_model_ok by done.
  unfold bind, ask, get, ret. cbn [dev with_dev]. by rewrite pct_base_rd.
Qed.

(** ** What the connector keeps true *)

Definition WRITTEN : list Point := [Ena; Pct; WMax; WDis; WCha].

Definition device_ready (d : D) : Prop :=
  702 ∈ model_ids_of d ∧ model_704_ready d ∧ reg d (Pt 702 "W_SF") = Some w_sf.

(** The device can limit its charge rate, to the nameplate rating at most. *)
Definition charge_rating (r : Point → option Z) : option Q :=
  match r WCha with Some _ => nonzero_reg r WChaRtg | None => None end.

Definition charge_ok (s : Core D) : Prop :=
  ∀ m rating, list_min (active_charges (charge_limits s)) = Some m →
    charge_rating (reg (dev s)) = Some rating →
    reg (dev s) WCha = Some (encode WCha (qmin m rating)).

(** What is not about model 704: the scanned models, the registers the limits do
    not write, the charge limits, and WMax against the device's own. *)
Record base_ok (d0 : D) (s : Core D) : Prop := {
  ok_models : model_ids_of (dev s) = model_ids_of d0;
  ok_frame p : setting p = true → p ∉ WRITTEN → reg (dev s) p = reg d0 p;
  ok_implemented p : p ∈ WRITTEN → is_Some (reg (dev s) p) ↔ is_Some (reg d0 p);
  ok_charge : charge_ok s;
  ok_charges_nonneg w : w ∈ active_charges (charge_limits s) → (0 <= w)%Q;
  ok_wmax : match wmax_baseline s with
            | None => reg (dev s) WMax = reg d0 WMax
            | Some w => ∃ z, reg d0 WMax = Some z ∧ w = (inject_Z z * scale WMax)%Q
            end;
}.

(** The slots, and model 704 against them. *)
Record slots_ok (s : Core D) : Prop := {
  ok_percent q : q ∈ candidates (p_lim_slots s) → in_percent q;
  ok_merged q : compute_merged_inject_pct (p_lim_slots s) = Some q →
    reg (dev s) Ena = Some 1 ∧ reg (dev s) Pct = Some (encode Pct q);
  ok_gen : match gen_lim_watts s with
           | None => slot_gen (p_lim_slots s) = (false, None)
           | Some w => (0 <= w)%Q ∧ ∃ q, slot_gen (p_lim_slots s) = (true, Some q)
           end;
}.

(** An active generation limit is expressed against the present base. *)
Definition gen_linked (s : Core D) : Prop :=
  ∀ w b, gen_lim_watts s = Some w → base_of (reg (dev s)) = Some b →
    slot_gen (p_lim_slots s) = (true, Some (clamped_pct w b)).

Record limits_ok (d0 : D) (s : Core D) : Prop := {
  ok_base : base_ok d0 s; ok_slots : slots_ok s; ok_linked : gen_linked s }.

Lemma base_ready d0 s : device_ready d0 → base_ok d0 s → device_ready (dev s).
Proof.
  intros (H702 & (H704 & He & Hp) & Hsf) Hb. unfold device_ready, model_704_ready.
  rewrite (ok_models _ _ Hb). split; [done|]. split; [split; [done|]|].
  - by split; apply (ok_implemented _ _ Hb); [left| |right; left|].
  - rewrite (ok_frame _ _ Hb); [done..|]. apply (bool_decide_unpack _). vm_compute. exact I.
Qed.

Lemma candidates_set slot v l q :
  q ∈ candidates (set_slot slot v l) → q ∈ candidates l ∨ active_pct v = Some q.
Proof.
  destruct l as [[ea [a|]] [ei [i|]] [eg [g|]]], v as [ev [v|]], slot;
    destruct ea, ei, eg, ev; cbn; rewrite ?elem_of_cons, ?elem_of_nil; naive_solver.
Qed.

Lemma merged_in_percent l q :
  (∀ x, x ∈ candidates l → in_percent x) → compute_merged_inject_pct l = Some q → in_percent q.
Proof.
  unfold compute_merged_inject_pct. intros Hl Hq. split.
  - eapply list_min_ge; [exact Hq|]. intros x Hx. by apply Hl.
  - destruct (candidates l) as [|x l'] eqn:E; [done|].
    assert (q <= x)%Q by (eapply list_min_le; [exact Hq|left]).
    destruct (Hl x ltac:(left)). lra.
Qed.

(** A 704 write keeps the rest. *)
Lemma base_ok_merged d0 (s s' : Core D) merged :
  device_ready d0 → base_ok d0 s →
  charge_limits s' = charge_limits s → wmax_baseline s' = wmax_baseline s →
  model_ids_of (dev s') = model_ids_of (dev s) →
  (∀ p, setting p = true → reg (dev s') p = merged_reg merged (reg (dev s)) p) →
  base_ok d0 s'.
Proof.
  intros Hd Hb Hc Hw Hm Hr.
  assert (∀ p, setting p = true → p ≠ Ena → p ≠ Pct → reg (dev s') p = reg (dev s) p) as Hk.
  { intros p Hs H1' H2'. rewrite Hr by done. unfold merged_reg. rewrite decide_False by done.
    destruct merged; [by rewrite decide_False|done]. }
  assert (is_Some (reg (dev s') Ena) ∧ is_Some (reg (dev s') Pct)) as [He Hp].
  { rewrite !Hr by done. unfold merged_reg. cbn. split; [eauto|].
    destruct merged; [eauto|]. by apply (base_ready _ _ Hd Hb). }
  constructor.
  - by rewrite Hm, (ok_models _ _ Hb).
  - intros p Hs Hp'. rewrite Hk by (done || (intros ->; apply Hp'; set_solver)).
    by apply (ok_frame _ _ Hb).
  - intros p Hw'. rewrite <- (ok_implemented _ _ Hb) by done.
    unfold WRITTEN in Hw'. rewrite !elem_of_cons, elem_of_nil in Hw'.
    destruct (base_ready _ _ Hd Hb) as (_ & (_ & He0 & Hp0) & _).
    destruct Hw' as [->|[->|[->|[->|[->|[]]]]]]; [by split..| | |]; by rewrite Hk.
  - intros m r. rewrite Hc. unfold charge_rating, nonzero_reg. rewrite !Hk by done.
    apply (ok_charge _ _ Hb).
  - rewrite Hc. apply (ok_charges_nonneg _ _ Hb).
  - rewrite Hw, Hk by done. apply (ok_wmax _ _ Hb).
Qed.

(** The merged limit is then on the device. *)
Lemma merged_on_device (s s' : Core D) q :
  (∀ p, setting p = true →
        reg (dev s') p = merged_reg (compute_merged_inject_pct (p_lim_slots s')) (reg (dev s)) p) →
  compute_merged_inject_pct (p_lim_slots s') = Some q →
  reg (dev s') Ena = Some 1 ∧ reg (dev s') Pct = Some (encode Pct q).
Proof. intros Hr Hq. rewrite !Hr by done. unfold merged_reg. by rewrite Hq. Qed.

Lemma base_of_merged (s s' : Core D) merged :
  (∀ p, setting p = true → reg (dev s') p = merged_reg merged (reg (dev s)) p) →
  base_of (reg (dev s')) = base_of (reg (dev s)).
Proof.
  intros Hr. unfold base_of, nonzero_reg. rewrite !Hr by done. unfold merged_reg. cbn.
  by destruct merged.
Qed.

Lemma base_ok_ext d0 (s s' : Core D) :
  base_ok d0 s → charge_limits s' = charge_limits s → wmax_baseline s' = wmax_baseline s →
  model_ids_of (dev s') = model_ids_of (dev s) →
  (∀ p, setting p = true → reg (dev s') p = reg (dev s) p) → base_ok d0 s'.
Proof.
  intros Hb Hc Hw Hm Hr. constructor.
  - by rewrite Hm, (ok_models _ _ Hb).
  - intros p Hs Hp. rewrite Hr by done. by apply (ok_frame _ _ Hb).
  - intros p Hp. rewrite Hr; [by apply (ok_implemented _ _ Hb)|].
    unfold WRITTEN in Hp. rewrite !elem_of_cons, elem_of_nil in Hp. naive_solver.
  - intros m r. rewrite Hc. unfold charge_rating, nonzero_reg. rewrite !Hr by done.
    apply (ok_charge _ _ Hb).
  - rewrite Hc. apply (ok_charges_nonneg _ _ Hb).
  - rewrite Hw, Hr by done. apply (ok_wmax _ _ Hb).
Qed.

Lemma slots_ok_ext (s s' : Core D) :
  slots_ok s → p_lim_slots s' = p_lim_slots s → gen_lim_watts s' = gen_lim_watts s →
  reg (dev s') Ena = reg (dev s) Ena → reg (dev s') Pct = reg (dev s) Pct → slots_ok s'.
Proof. intros [] Hl Hg He Hp. constructor; by rewrite ?Hl, ?Hg, ?He, ?Hp. Qed.

Lemma base_of_ext (r r' : Point → option Z) :
  r' WMax = r WMax → r' WMaxRtg = r WMaxRtg → base_of r' = base_of r.
Proof. intros E1 E2. unfold base_of, nonzero_reg. by rewrite E1, E2. Qed.

(** *** The slots *)

Lemma apply_slot_keeps d0 slot en pct (s : Core D) :
  slot ≠ gen → device_ready d0 → limits_ok d0 s →
  (∀ q, active_pct (en, pct) = Some q → in_percent q) →
  ∃ s', apply_inject_pct_slot slot en pct s = (inr tt, s') ∧ limits_ok d0 s' ∧
        p_lim_slots s' = set_slot slot (en, pct) (p_lim_slots s) ∧
        gen_lim_watts s' = gen_lim_watts s ∧ wmax_baseline s' = wmax_baseline s.
Proof.
  intros Hslot Hd [Hb Hs Hl] Hv. destruct (base_ready _ _ Hd Hb) as (_ & H704 & _).
  assert (∀ q, q ∈ candidates (set_slot slot (en, pct) (p_lim_slots s)) → in_percent q) as Hc.
  { intros q [Hq|Hq]%candidates_set; [by apply (ok_percent _ Hs)|by apply Hv]. }
  destruct (apply_inject_ok slot en pct s H704) as (d' & -> & Hm & Hr).
  { intros q. by apply merged_in_percent. }
  eexists. split; [done|]. split; [|done]. split.
  - by eapply (base_ok_merged _ s).
  - constructor; [done| |].
    + intros q. by apply (merged_on_device s).
    + cbn. pose proof (ok_gen _ Hs). by destruct slot, (p_lim_slots s).
  - intros w b Hw Hbase. erewrite (base_of_merged s) in Hbase by exact Hr.
    specialize (Hl w b Hw Hbase). cbn. by destruct slot, (p_lim_slots s).
Qed.

(** What a generation slot may be set to. *)
Definition gen_args (watts pct : option Q) : Prop :=
  match watts, pct with
  | None, None => True
  | Some w, Some q => (0 <= w)%Q ∧ in_percent q
  | _, _ => False
  end.

Lemma apply_gen_keeps d0 watts pct (s : Core D) :
  device_ready d0 → base_ok d0 s → (∀ q, q ∈ candidates (p_lim_slots s) → in_percent q) →
  gen_args watts pct →
  ∃ s', apply_gen_lim_slot watts pct s = (inr tt, s') ∧ base_ok d0 s' ∧ slots_ok s' ∧
        gen_lim_watts s' = watts ∧
        slot_gen (p_lim_slots s') = (bool_decide (is_Some watts), pct) ∧
        base_of (reg (dev s')) = base_of (reg (dev s)) ∧
        wmax_baseline s' = wmax_baseline s ∧ reg (dev s') WMax = reg (dev s) WMax.
Proof.
  intros Hd Hb Hp Ha. destruct (base_ready _ _ Hd Hb) as (_ & H704 & _).
  set (en := bool_decide (is_Some watts)).
  assert (∀ q, q ∈ candidates (set_slot gen (en, pct) (p_lim_slots s)) → in_percent q) as Hc.
  { intros q [Hq|Hq]%candidates_set; [by apply Hp|]. unfold en in Hq.
    destruct watts, pct; cbn in *; naive_solver. }
  destruct (apply_inject_ok gen en pct s H704) as (d' & Ho & Hm & Hr).
  { intros q. by apply merged_in_percent. }
  unfold apply_gen_lim_slot, bind at 1, get. unfold bind, caught. fold en. rewrite Ho. cbn.
  eexists. split; [done|]. split; [|split; [|repeat split]].
  - by eapply (base_ok_merged _ s).
  - constructor; [done| |].
    + intros q. by apply (merged_on_device s).
    + cbn. unfold en. destruct watts, pct; cbn in *; naive_solver.
  - by eapply (base_of_merged s).
  - cbn. rewrite Hr by done. unfold merged_reg. cbn. by destruct (compute_merged_inject_pct _).
Qed.

Lemma refresh_keeps d0 (s : Core D) :
  device_ready d0 → base_ok d0 s → slots_ok s →
  ∃ s', refresh_gen_lim_pct s = (inr tt, s') ∧ limits_ok d0 s' ∧
        wmax_baseline s' = wmax_baseline s ∧ reg (dev s') WMax = reg (dev s) WMax ∧
        gen_lim_watts s' = gen_lim_watts s.
Proof.
  intros Hd Hb Hs. unfold refresh_gen_lim_pct, bind at 1, get.
  destruct (gen_lim_watts s) as [w|] eqn:Hw.
  2:{ eexists. split; [done|]. split; [|done]. split; [done..|]. intros ? ? E. congruence. }
  pose proof (ok_gen _ Hs) as Hg. rewrite Hw in Hg. destruct Hg as [Hw0 [q0 Hq0]].
  unfold bind. rewrite watts_as_pct_ok by (apply (base_ready _ _ Hd Hb)).
  set (s1 := with_dev s (rd 702 (dev s))).
  assert (base_ok d0 s1) as Hb1.
  { apply (base_ok_ext _ s); try done; [apply rd_models|]. intros. by apply rd_reg. }
  destruct (base_of (reg (dev s))) as [b|] eqn:Eb; cbn [fmap option_fmap option_map].
  - destruct (clamped_pct_ok w b Hw0 (base_pos _ _ Eb)) as (Hlo & Hhi & _).
    destruct (apply_gen_keeps d0 (Some w) (Some (clamped_pct w b)) s1) as
      (s' & -> & Hb' & Hs' & Hw' & Hsl & Hbase & Hbl & Hx); [done|done|apply (ok_percent _ Hs)|done|].
    eexists. split; [done|]. split; [split; [done..|]|].
    + intros w' b' E1 E2. rewrite Hw' in E1. injection E1 as <-.
      rewrite Hbase in E2. unfold s1 in E2. cbn in E2.
      rewrite (base_of_ext (reg (dev s))) in E2 by (by apply rd_reg). rewrite Hsl, bool_decide_true by eauto. congruence.
    + rewrite Hbl, Hx, Hw'. split; [done|]. split; [by apply rd_reg|done].
  - eexists. split; [done|]. split; [split; [done| |]|].
    + apply (slots_ok_ext s); try done; by apply rd_reg.
    + intros w' b' _ E. unfold s1 in E. cbn in E.
      rewrite (base_of_ext (reg (dev s))) in E by (by apply rd_reg). congruence.
    + split; [done|]. split; [by apply rd_reg|done].
Qed.

(** *** Setting points of model 702 and sending them *)

Definition set_702 (n : string) (q : Q) (d : D) : D := (set_cvalue (Pt 702 n) (num q) d).2.

(** [d'] is a client of [d]'s device that has read model 702 and then set the
    points where [f] is defined. *)
Record pending (d d' : D) (f : Point → option Z) : Prop := {
  pend_models : model_ids_of d' = model_ids_of d;
  pend_reg p : setting p = true → reg d' p = reg d p;
  pend_value p : covers (AModel 702) p = true →
    value d' p = match f p with Some z => Some z | None => reg d p end;
  pend_dirty p : covers (AModel 702) p = true → dirty d' p = bool_decide (is_Some (f p));
  pend_u16 p z : f p = Some z → U16 z;
}.

Lemma pending_rd d : pending d (rd 702 d) (λ _, None).
Proof.
  constructor; [apply rd_models|intros; by apply rd_reg|intros p Hp..|done].
  - by rewrite rd_value, Hp.
  - by rewrite rd_dirty, Hp.
Qed.

Lemma pending_set d d' f n q :
  pending d d' f → is_Some (reg d (Pt 702 n)) → U16 (encode (Pt 702 n) q) →
  is_Some (value d' (Pt 702 n)) ∧
  pending d (set_702 n q d')
    (λ p, if decide (p = Pt 702 n) then Some (encode (Pt 702 n) q) else f p).
Proof.
  intros [Pm Pr Pv Pd Pu] Hi Hu.
  assert (is_Some (value d' (Pt 702 n))) as Hv.
  { rewrite Pv by done. destruct (f _); eauto. }
  split; [done|]. unfold set_702. constructor.
  - by rewrite set_cvalue_models.
  - intros p Hp. rewrite set_cvalue_reg by done. auto.
  - intros p Hp. rewrite (set_cvalue_value _ _ _ q) by done. case_decide; auto.
  - intros p Hp. rewrite (set_cvalue_dirty _ _ _ q) by done.
    case_decide; [by rewrite bool_decide_true by eauto|auto].
  - intros p z. case_decide; [by intros [= <-]|apply Pu].
Qed.

Lemma pending_write d d' f :
  pending d d' f → (∀ p, covers (AModel 702) p = false → f p = None) →
  sendable (AModel 702) d' ∧ model_ids_of (write (AModel 702) d').2 = model_ids_of d ∧
  ∀ p, setting p = true →
       reg (write (AModel 702) d').2 p = match f p with Some z => Some z | None => reg d p end.
Proof.
  intros [Pm Pr Pv Pd Pu] Hf.
  assert (sendable (AModel 702) d') as Hs.
  { intros p z Hc. rewrite Pd, Pv by done. intros [y Hy]%bool_decide_eq_true.
    rewrite Hy. intros [= <-]. eauto. }
  split; [done|]. split; [by rewrite write_models|]. intros p Hp. rewrite write_reg by done.
  destruct (covers (AModel 702) p) eqn:Hc; cbn [andb].
  - rewrite Pd, Pv, Pr by done. by destruct (f p).
  - rewrite Hf by done. auto.
Qed.

(** *** The charge limits *)

Definition charge_value (l : Charges) (rating : Q) : Q :=
  match list_min (active_charges l) with Some m => qmin m rating | None => rating end.

Lemma limit_point n : Pt 702 n ∈ LIMIT_POINTS → setting (Pt 702 n) = true ∧
  ∀ d, value (rd 702 d) (Pt 702 n) = reg d (Pt 702 n).
Proof.
  intros Hn. split; [|intros d; by rewrite rd_value].
  unfold LIMIT_POINTS in Hn. rewrite !elem_of_cons, elem_of_nil in Hn. naive_solver.
Qed.

Lemma charge_supported_rd d :
  charge_supported (rd 702 d) = bool_decide (is_Some (charge_rating (reg d))).
Proof.
  unfold charge_supported, rate_setting_is_supported, charge_rating, nonzero_reg.
  rewrite !rd_value. cbn [covers]. rewrite !Z.eqb_refl.
  destruct (reg d WCha) as [y|]; [|done]. destruct (reg d WChaRtg) as [z|]; [|done].
  by destruct (z =? 0).
Qed.

(** A value between zero and a rating of the same scale fits the register. *)
Lemma watts_fit n d z q :
  n ∈ WATT_POINTS → reg d WChaRtg = Some z → (0 <= q)%Q → (q <= inject_Z z * scale WChaRtg)%Q →
  U16 (encode (Pt 702 n) q) ∧ require_uint16_watts q (Some w_sf) = inr q.
Proof.
  intros Hn Hz Hq0 Hq.
  destruct (u16_reg d WChaRtg z ltac:(apply (bool_decide_unpack _); vm_compute; exact I) Hz) as [Hz0 Hz1].
  rewrite scale_watts in Hq by (apply (bool_decide_unpack _); vm_compute; exact I).
  assert (0 < Qpower 10 w_sf)%Q as Hs by (by apply Qpower_0_lt).
  pose proof (encode_nearest (Pt 702 n) q) as He. rewrite scale_watts in He by done. split; [split|].
  - eapply nearest_ge; [exact Hs|exact He|]. change (inject_Z 0) with 0%Q. lra.
  - etrans; [|exact Hz1]. eapply nearest_le; [exact Hs|exact He|]. lra.
  - unfold require_uint16_watts, ten_to.
    destruct (round_q_range (q / Qpower 10 w_sf) z) as [Hr0 Hr1].
    + apply Qle_shift_div_l; [done|lra].
    + apply Qle_shift_div_r; [done|lra].
    + rewrite (proj2 (Z.leb_le _ _)), (proj2 (Z.leb_le _ _)) by lia. done.
Qed.

Lemma charge_rating_Some d r :
  charge_rating (reg d) = Some r →
  ∃ z, reg d WChaRtg = Some z ∧ (r = inject_Z z * scale WChaRtg)%Q ∧ is_Some (reg d WCha).
Proof.
  unfold charge_rating, nonzero_reg. destruct (reg d WCha) as [y|]; [|done].
  destruct (reg d WChaRtg) as [z|]; [|done]. destruct (z =? 0); [done|]. intros [= <-]. eauto.
Qed.

Lemma charge_value_range d l r :
  charge_rating (reg d) = Some r → (∀ w, w ∈ active_charges l → (0 <= w)%Q) →
  (0 <= charge_value l r)%Q ∧ (charge_value l r <= r)%Q.
Proof.
  intros Er Hpos.
  assert (0 <= r)%Q as Hr0.
  { unfold charge_rating in Er. destruct (reg d WCha) as [y|]; [|done].
    apply Qlt_le_weak. eapply nonzero_reg_pos; [|exact Er]. apply (bool_decide_unpack _). vm_compute. exact I. }
  unfold charge_value. destruct (list_min _) as [m|] eqn:Em; [|split; [done|lra]].
  split; [|apply qmin_le_r]. apply qmin_ge; [|done]. by eapply list_min_ge.
Qed.

Lemma write_charge_ok d1 (s : Core D) :
  dev s = rd 702 d1 → reg d1 (Pt 702 "W_SF") = Some w_sf →
  (∀ w, w ∈ active_charges (charge_limits s) → (0 <= w)%Q) →
  ∃ d', write_charge_limit false s = (inr tt, with_dev s d') ∧
        model_ids_of d' = model_ids_of d1 ∧
        ∀ p, setting p = true →
             reg d' p = match charge_rating (reg d1) with
                        | Some r => if decide (p = WCha)
                                    then Some (encode WCha (charge_value (charge_limits s) r))
                                    else reg d1 p
                        | None => reg d1 p
                        end.
Proof.
  intros Hd Hsf Hpos. unfold write_charge_limit. cbn [when]. unfold bind at 1, ret. unfold bind at 1, ask, get.
  rewrite Hd, charge_supported_rd. destruct (charge_rating (reg d1)) as [r|] eqn:Er.
  2:{ rewrite bool_decide_false by (by intros [? [=]]). cbn. exists (dev s). destruct s; cbn in *. subst.
      split; [done|]. split; [apply rd_models|]. intros. by apply rd_reg. }
  rewrite bool_decide_true by eauto. cbn [negb].
  destruct (charge_rating_Some _ _ Er) as (z & Hz & Hr & Hcha).
  set (t := charge_value (charge_limits s) r).
  destruct (charge_value_range d1 _ _ Er Hpos) as [Ht0 Ht1]. fold t in Ht0, Ht1.
  rewrite Hr in Ht1.
  destruct (watts_fit "WChaRteMax" d1 z t) as [Hu Hq]; [|done..|].
  { apply (bool_decide_unpack _). vm_compute. exact I. }
  unfold bind at 1, get. unfold bind at 1. unfold bind at 1.
  rewrite Hd, cvalue_num by (apply (bool_decide_unpack _); vm_compute; exact I).
  rewrite rd_value. cbn [covers]. rewrite Z.eqb_refl, Hz. cbn [fmap option_fmap option_map].
  rewrite <- Hr. unfold charge_target. fold (charge_value (charge_limits s) r). fold t.
  cbn [lift]. unfold ret. unfold bind at 1. rewrite Hd, rd_value. cbn [covers]. rewrite Z.eqb_refl, Hsf.
  unfold bind at 1. rewrite Hq. cbn [lift]. unfold ret.
  destruct (pending_set d1 (dev s) (λ _, None) "WChaRteMax" t) as [Hv Hpend];
    [rewrite Hd; apply pending_rd|done..|].
  destruct (pending_write _ _ _ Hpend) as (Hsend & Hm & Hw).
  { intros p Hc. by destruct (decide (p = WCha)) as [->|]. }
  unfold bind. rewrite (lib_set_cvalue WCha (num t) t), lib_write by done.
  eexists. split; [done|]. split; [done|]. intros p Hp. cbn. rewrite Hw by done. by case_decide.
Qed.

Lemma active_charges_set slot w l x :
  x ∈ active_charges (set_charge slot w l) → x ∈ active_charges l ∨ w = Some x.
Proof.
  destruct l as [[a|] [b|]], slot, w; cbn; rewrite ?elem_of_cons, ?elem_of_nil; naive_solver.
Qed.

(** The register after a charge write, whatever it held. *)
Definition charge_written (d d' : D) (l : Charges) : Prop :=
  ∀ p, setting p = true →
    reg d' p = match charge_rating (reg d) with
               | Some r => if decide (p = WCha) then Some (encode WCha (charge_value l r)) else reg d p
               | None => reg d p
               end.

Lemma charge_written_other d d' l p :
  charge_written d d' l → setting p = true → p ≠ WCha → reg d' p = reg d p.
Proof. intros Hw Hp Hne. rewrite Hw by done. destruct (charge_rating _); [by rewrite decide_False|done]. Qed.

Lemma charge_written_implemented d d' l :
  charge_written d d' l → is_Some (reg d' WCha) ↔ is_Some (reg d WCha).
Proof.
  intros Hw. rewrite Hw by done. destruct (charge_rating _) as [r|] eqn:Er; [|done].
  rewrite decide_True by done. destruct (charge_rating_Some _ _ Er) as (_ & _ & _ & ?). split; eauto.
Qed.

Lemma charge_written_rating d d' l :
  charge_written d d' l → charge_rating (reg d') = charge_rating (reg d).
Proof.
  intros Hw. pose proof (charge_written_implemented _ _ _ Hw) as Hi. unfold charge_rating, nonzero_reg.
  rewrite (charge_written_other _ _ _ WChaRtg Hw) by done.
  destruct (reg d' WCha), (reg d WCha); try done;
    [destruct Hi as [Hi _]|destruct Hi as [_ Hi]]; by destruct (Hi ltac:(eauto)).
Qed.

Lemma charge_written_ok d0 (s : Core D) d' l :
  limits_ok d0 s → charge_written (dev s) d' l → model_ids_of d' = model_ids_of (dev s) →
  (∀ w, w ∈ active_charges l → (0 <= w)%Q) →
  limits_ok d0 (with_dev (with_charges s l) d').
Proof.
  intros [Hb Hs Hl] Hw Hm Hpos.
  assert (∀ p, setting p = true → p ≠ WCha → reg d' p = reg (dev s) p) as Hk
    by (intros; by eapply charge_written_other).
  split; [constructor|..]; cbn [dev with_dev with_charges charge_limits wmax_baseline].
  - by rewrite Hm, (ok_models _ _ Hb).
  - intros p Hp Hn. rewrite Hk by (done || (intros ->; apply Hn; set_solver)). by apply (ok_frame _ _ Hb).
  - intros p Hp. rewrite <- (ok_implemented _ _ Hb) by done.
    destruct (decide (p = WCha)) as [->|Hne]; [by eapply charge_written_implemented|].
    rewrite Hk; [done| |done]. unfold WRITTEN in Hp. rewrite !elem_of_cons, elem_of_nil in Hp. naive_solver.
  - intros m r Hmin Hr. rewrite Hw by done. cbn [dev with_dev with_charges charge_limits] in Hr, Hmin.
    erewrite charge_written_rating in Hr by done.
    rewrite Hr, decide_True by done. unfold charge_value. by rewrite Hmin.
  - done.
  - pose proof (ok_wmax _ _ Hb) as Hx. by rewrite Hk.
  - apply (slots_ok_ext s); try done; by apply Hk.
  - intros w b Hgw Hbase. cbn in Hbase. apply Hl; [done|].
    by rewrite (base_of_ext (reg (dev s))) in Hbase by (by apply Hk).
Qed.

Lemma limits_ok_rd d0 m (s : Core D) : limits_ok d0 s → limits_ok d0 (with_dev s (rd m (dev s))).
Proof.
  intros [Hb Hs Hl]. split.
  - apply (base_ok_ext _ s); try done; [apply rd_models|]. intros. by apply rd_reg.
  - apply (slots_ok_ext s); try done; by apply rd_reg.
  - intros w b Hw Hbase. cbn in Hbase. apply Hl; [done|].
    by rewrite (base_of_ext (reg (dev s))) in Hbase by (by apply rd_reg).
Qed.

(** [fresh]: model 702 was just read. *)
Lemma set_charge_keeps d0 slot w (rf : bool) (s : Core D) :
  device_ready d0 → limits_ok d0 s → (∀ x, w = Some x → (0 <= x)%Q) →
  (rf = false → ∃ s1, limits_ok d0 s1 ∧ s = with_dev s1 (rd 702 (dev s1))) →
  ∃ s', set_charge_limit slot w rf s = (inr tt, s') ∧ limits_ok d0 s' ∧
        charge_limits s' = set_charge slot w (charge_limits s) ∧
        gen_lim_watts s' = gen_lim_watts s ∧
        charge_written (dev s) (dev s') (charge_limits s').
Proof.
  intros Hd Hs Hw Hf.
  set (l := set_charge slot w (charge_limits s)).
  assert (∀ x, x ∈ active_charges l → (0 <= x)%Q) as Hpos.
  { intros x [Hx|Hx]%active_charges_set; [by apply (ok_charges_nonneg _ _ (ok_base _ _ Hs))|by apply Hw]. }
  assert (∃ d1, limits_ok d0 (with_dev s d1) ∧
    write_charge_limit rf (with_charges s l) =
    write_charge_limit false (with_dev (with_charges s l) (rd 702 d1)) ∧
    ∀ p, setting p = true → reg d1 p = reg (dev s) p) as (d1 & Hs1 & Hrun & Hreg).
  { destruct rf.
    - exists (dev s). split; [by destruct s|]. split; [|done].
      unfold write_charge_limit at 1. cbn [when]. unfold bind at 1.
      rewrite get_model_ok; [done|]. apply (base_ready _ _ Hd (ok_base _ _ Hs)).
    - destruct (Hf eq_refl) as (s1 & Hs1 & ->). exists (dev s1). cbn. split; [by destruct s1|].
      split; [by destruct s1|]. intros. by rewrite rd_reg. }
  destruct (base_ready _ _ Hd (ok_base _ _ Hs1)) as (_ & _ & Hsf).
  destruct (write_charge_ok d1 (with_dev (with_charges s l) (rd 702 d1))) as (d' & Ho & Hm & Hr);
    [done..|].
  unfold set_charge_limit, bind at 1, get. unfold bind at 1, modify. fold l.
  unfold bind, caught. rewrite Hrun, Ho. cbn.
  eexists. split; [done|]. split; [|split; [done|split; [done|]]].
  - apply (charge_written_ok d0 (with_dev s d1)); [done| |done|done].
    intros p Hp. by rewrite Hr.
  - intros p Hp. cbn. rewrite Hr by done. cbn.
    replace (charge_rating (reg d1)) with (charge_rating (reg (dev s)))
      by (unfold charge_rating, nonzero_reg; by rewrite !Hreg).
    by rewrite Hreg.
Qed.

(** *** WMax, lowered and restored *)

Lemma u16_watts n q w x :
  n ∈ WATT_POINTS → (0 <= q)%Q → (q <= w)%Q → require_uint16_watts w (Some w_sf) = inr x →
  U16 (encode (Pt 702 n) q).
Proof.
  intros Hn Hq0 Hqw. unfold require_uint16_watts, ten_to.
  destruct (_ && _) eqn:E; [|done]. intros _.
  apply andb_true_iff in E as [_ E%Z.leb_le]. apply round_q_lt in E; [|done].
  assert (0 < Qpower 10 w_sf)%Q as Hs by (by apply Qpower_0_lt).
  assert (w < (inject_Z 65535 + (1 # 2)) * Qpower 10 w_sf)%Q as Hw.
  { assert (w / Qpower 10 w_sf * Qpower 10 w_sf == w)%Q as Hm by (field; lra).
    rewrite <- Hm at 1. by apply Qmult_lt_compat_r. }
  pose proof (encode_nearest (Pt 702 n) q) as He. rewrite scale_watts in He by done. split.
  - eapply nearest_ge; [exact Hs|exact He|]. change (inject_Z 0) with 0%Q. lra.
  - eapply nearest_le; [exact Hs|exact He|]. lra.
Qed.

(** A 702 write of WMax and WDisChaRteMax keeps what is not about WMax. *)
Lemma base_ok_702 d0 (s s' : Core D) :
  base_ok d0 s → charge_limits s' = charge_limits s →
  model_ids_of (dev s') = model_ids_of (dev s) →
  (∀ p, setting p = true → p ≠ WMax → p ≠ WDis → reg (dev s') p = reg (dev s) p) →
  (∀ p, p ∈ [WMax; WDis] → is_Some (reg (dev s') p) ↔ is_Some (reg (dev s) p)) →
  match wmax_baseline s' with
  | None => reg (dev s') WMax = reg d0 WMax
  | Some w => ∃ z, reg d0 WMax = Some z ∧ w = (inject_Z z * scale WMax)%Q
  end →
  base_ok d0 s'.
Proof.
  intros Hb Hc Hm Hk Hi Hw. constructor; [by rewrite Hm, (ok_models _ _ Hb)|..]; [| | | |done].
  - intros p Hp Hn. rewrite Hk by (done || (intros ->; apply Hn; set_solver)). by apply (ok_frame _ _ Hb).
  - intros p Hp. rewrite <- (ok_implemented _ _ Hb) by done.
    unfold WRITTEN in Hp. rewrite !elem_of_cons, elem_of_nil in Hp.
    destruct Hp as [->|[->|[->|[->|[->|[]]]]]]; [by rewrite Hk..| | |by rewrite Hk];
      apply Hi; set_solver.
  - intros m r. rewrite Hc. unfold charge_rating, nonzero_reg. rewrite !Hk by done.
    apply (ok_charge _ _ Hb).
  - rewrite Hc. apply (ok_charges_nonneg _ _ Hb).
Qed.

Lemma restore_keeps d0 (s : Core D) :
  device_ready d0 → limits_ok d0 s →
  ∃ s', restore_mirrored_wmax s = (inr tt, s') ∧ limits_ok d0 s' ∧ wmax_baseline s' = None ∧
        gen_lim_watts s' = gen_lim_watts s.
Proof.
  intros Hd Hok. destruct Hok as [Hb Hs Hl]. unfold restore_mirrored_wmax, bind at 1, get.
  destruct (wmax_baseline s) as [w|] eqn:Ew; [|by eexists].
  pose proof (ok_wmax _ _ Hb) as Hw. rewrite Ew in Hw. destruct Hw as (z & Hz & ->).
  destruct (base_ready _ _ Hd Hb) as (H702 & _ & _).
  assert (is_Some (reg (dev s) WMax)) as Hi by (apply (ok_implemented _ _ Hb); [set_solver|eauto]).
  unfold bind at 1. rewrite get_model_ok by done.
  set (q := (inject_Z z * scale WMax)%Q).
  destruct (pending_set (dev s) (rd 702 (dev s)) (λ _, None) "WMax" q) as [Hv Hpend];
    [apply pending_rd|done|unfold q; rewrite encode_exact; eapply u16_reg; [|exact Hz];
     apply (bool_decide_unpack _); vm_compute; exact I|].
  destruct (pending_write _ _ _ Hpend) as (Hsend & Hm & Hr).
  { intros p Hc. by destruct (decide (p = WMax)) as [->|]. }
  unfold bind at 1. rewrite (lib_set_cvalue WMax _ q) by done.
  unfold bind at 1. rewrite lib_write by done. unfold bind.
  match goal with |- context [refresh_gen_lim_pct ?x] => set (s2 := x) end.
  assert (∀ p, setting p = true → reg (dev s2) p = if decide (p = WMax) then Some z else reg (dev s) p) as Hr2.
  { intros p Hp. cbn. rewrite Hr by done. unfold q. rewrite encode_exact. by case_decide. }
  destruct (refresh_keeps d0 s2) as (s3 & Ho & Hok & Hbl & Hx & Hg); [done| | |].
  - apply (base_ok_702 _ s); try done.
    + intros p Hp Hne _. by rewrite Hr2, decide_False.
    + intros p [->|[->|[]%elem_of_nil]%elem_of_cons]%elem_of_cons; rewrite Hr2 by done; cbn; [|done].
      split; eauto.
    + cbn. rewrite Ew. exists z. done.
  - apply (slots_ok_ext s); try done; by rewrite Hr2.
  - rewrite Ho. cbn. eexists. split; [done|]. split; [|done]. destruct Hok as [Hb3 Hs3 Hl3].
    split; [|by apply (slots_ok_ext s3)|done].
    apply (base_ok_702 _ s3); try done. cbn. by rewrite Hx, Hr2.
Qed.

(** The WMax an inject limit asks for. *)
Definition mirrored (w : Q) (r : Point → option Z) : Q :=
  match nonzero_reg r WMaxRtg with Some x => qmin w x | None => w end.

Lemma mirrored_range d w : (0 <= w)%Q → (0 <= mirrored w (reg d))%Q ∧ (mirrored w (reg d) <= w)%Q.
Proof.
  intros Hw. unfold mirrored. destruct (nonzero_reg (reg d) WMaxRtg) as [x|] eqn:E; [|split; [done|lra]].
  split; [|apply qmin_le_l]. apply qmin_ge; [done|]. apply Qlt_le_weak.
  eapply nonzero_reg_pos; [|exact E]. apply (bool_decide_unpack _). vm_compute. exact I.
Qed.

(** Mirroring on a client that has just read model 702 of [d] and set WDisChaRteMax. *)
Lemma mirror_ok w y d (s : Core D) :
  is_Some (reg d WDis) → dev s = set_702 "WDisChaRteMax" y (rd 702 d) →
  mirror_inject_onto_wmax w s =
  (inr tt, match reg d WMax with
           | None => s
           | Some z => with_dev (with_baseline s (match wmax_baseline s with
                                                  | Some b => Some b
                                                  | None => Some (inject_Z z * scale WMax)%Q
                                                  end))
                         (set_702 "WMax" (mirrored w (reg d)) (dev s))
           end).
Proof.
  intros Hdis Hs.
  assert (∀ p, p ≠ WDis → value (dev s) p = value (rd 702 d) p) as Hv.
  { intros p Hp. rewrite Hs. unfold set_702.
    rewrite (set_cvalue_value _ _ _ y) by (done || by rewrite rd_value). by rewrite decide_False. }
  unfold mirror_inject_onto_wmax, bind at 1, ask, get. rewrite Hv, rd_value by done. cbn [covers].
  rewrite Z.eqb_refl. destruct (reg d WMax) as [z|] eqn:Ez; [|done].
  assert (num_of (cvalue (dev s) WMax) = Some (inject_Z z * scale WMax)%Q) as Hn.
  { rewrite cvalue_num by (apply (bool_decide_unpack _); vm_compute; exact I).
    rewrite Hv, rd_value by done. cbn [covers]. by rewrite Z.eqb_refl, Ez. }
  assert (nonzero (cvalue (dev s) WMaxRtg) = nonzero_reg (reg d) WMaxRtg) as Hr.
  { rewrite <- nonzero_rd by (apply (bool_decide_unpack _); vm_compute; exact I). unfold nonzero.
    rewrite !cvalue_truthy, !cvalue_num by (apply (bool_decide_unpack _); vm_compute; exact I).
    by rewrite Hv. }
  unfold bind at 1, modify. rewrite Hn. unfold bind.
  match goal with |- context [nonzero (cvalue (dev ?x) _)] =>
    assert (dev x = dev s) as Hx by (by destruct (wmax_baseline s)) end.
  rewrite Hx, Hr. fold (mirrored w (reg d)).
  erewrite lib_set_cvalue; [|done|].
  - rewrite Hx. f_equal. destruct s as [? ? ? ? ? ? [b|]]; done.
  - rewrite Hx, Hv, rd_value by done. cbn. rewrite Ez. eauto.
Qed.

Lemma bind_then {A B C} (m : M A) (k : A → M B) (g : M C) (s : Core D) :
  (x <- m ;; k x ;;; g) s = ((x <- m ;; k x) ;;; g) s.
Proof. unfold bind. by destruct (m s) as [[e|a] s']. Qed.

(** The WMax to return to, once an inject limit has been written. *)
Definition captured (s : Core D) : option Q :=
  match reg (dev s) WMax, wmax_baseline s with
  | Some z, None => Some (inject_Z z * scale WMax)%Q
  | _, b => b
  end.

Lemma inject_pending (s : Core D) w x :
  (0 <= w)%Q → is_Some (reg (dev s) WDis) → require_uint16_watts w (Some w_sf) = inr x →
  ∃ d3 f, (lib (set_cvalue WDis (num w)) ;;; mirror_inject_onto_wmax w) (with_dev s (rd 702 (dev s))) =
          (inr tt, with_dev (with_baseline s (captured s)) d3) ∧
    pending (dev s) d3 f ∧ ∀ p, is_Some (f p) → p = WDis ∨ p = WMax ∧ is_Some (reg (dev s) WMax).
Proof.
  intros Hw Hdis Hu. set (d := dev s) in *. destruct (mirrored_range d w Hw) as [Hm0 Hm1].
  destruct (pending_set d (rd 702 d) (λ _, None) "WDisChaRteMax" w) as [Hv1 Hp1];
    [apply pending_rd|done|eapply u16_watts; [|done| |exact Hu]; [|lra];
     apply (bool_decide_unpack _); vm_compute; exact I|].
  unfold bind. rewrite (lib_set_cvalue WDis (num w) w) by done. rewrite (mirror_ok w w d) by done.
  unfold captured. fold d. destruct (reg d WMax) as [z|] eqn:Ez.
  - destruct (pending_set _ _ _ "WMax" (mirrored w (reg d)) Hp1) as [_ Hp2]; [by eauto| |].
    { eapply u16_watts; [|done|exact Hm1|exact Hu]. apply (bool_decide_unpack _). vm_compute. exact I. }
    eexists _, _. split; [|split; [exact Hp2|]].
    + cbn. by destruct (wmax_baseline s).
    + intros p. cbn beta. repeat case_decide; [naive_solver..|by intros [? [=]]].
  - eexists _, _. split; [|split; [exact Hp1|]]; [unfold d; by destruct s|].
    intros p. cbn beta. case_decide; [eauto|]. by intros [? [=]].
Qed.

Lemma inject_direct_keeps d0 (s : Core D) w x :
  device_ready d0 → limits_ok d0 s → (0 <= w)%Q → is_Some (reg (dev s) WDis) →
  require_uint16_watts w (Some w_sf) = inr x →
  ∃ s', (lib (set_cvalue WDis (num w)) ;;;
         mirror_inject_onto_wmax w ;;;
         lib (write (AModel 702)) ;;;
         modify (λ s, with_inj s (Some w)) ;;;
         refresh_gen_lim_pct) (with_dev s (rd 702 (dev s))) = (inr tt, s') ∧ limits_ok d0 s' ∧
        gen_lim_watts s' = gen_lim_watts s.
Proof.
  intros Hd [Hb Hs Hl] Hw Hdis Hu.
  destruct (inject_pending s w x Hw Hdis Hu) as (d3 & f & Hrun & Hpend & Hf).
  rewrite bind_then. unfold bind at 1. rewrite Hrun.
  destruct (pending_write _ _ _ Hpend) as (Hsend & Hm & Hr).
  { intros p Hc. destruct (f p) eqn:E; [|done].
    by destruct (Hf p ltac:(eauto)) as [->|[-> _]]. }
  unfold bind at 1. rewrite lib_write by done. unfold bind, modify.
  match goal with |- context [refresh_gen_lim_pct ?x] => set (s2 := x) end.
  assert (∀ p, setting p = true → p ≠ WMax → p ≠ WDis → reg (dev s2) p = reg (dev s) p) as Hk.
  { intros p Hp H1' H2'. cbn. rewrite Hr by done. destruct (f p) eqn:E; [|done].
    destruct (Hf p ltac:(eauto)); naive_solver. }
  destruct (refresh_keeps d0 s2) as (s3 & Ho & Hok & _ & _ & Hg); [done| | |by eexists].
  - apply (base_ok_702 _ s); try done.
    + intros p Hp. rewrite !elem_of_cons, elem_of_nil in Hp. cbn. rewrite Hr by naive_solver.
      destruct (f p) eqn:E; [|done]. destruct (Hf p ltac:(eauto)) as [->|[-> ?]]; split; eauto.
    + cbn. unfold captured. pose proof (ok_wmax _ _ Hb) as Hx.
      destruct (reg (dev s) WMax) as [z|] eqn:Ez; destruct (wmax_baseline s) eqn:Ew; [done| |done|].
      * exists z. by rewrite Hx in Ez.
      * rewrite Hr by done. destruct (f WMax) eqn:E; [|by rewrite Ez].
        destruct (Hf WMax ltac:(eauto)) as [|[_ [? ?]]]; congruence.
  - apply (slots_ok_ext s); try done; by apply Hk.
Qed.

(** ** Every limit control keeps it *)

Lemma limits_ok_ext d0 (s s' : Core D) :
  limits_ok d0 s → dev s' = dev s → p_lim_slots s' = p_lim_slots s →
  gen_lim_watts s' = gen_lim_watts s → charge_limits s' = charge_limits s →
  wmax_baseline s' = wmax_baseline s → limits_ok d0 s'.
Proof.
  intros [Hb Hs Hl] Hd Hp Hg Hc Hw. split.
  - apply (base_ok_ext _ s); try done; by rewrite Hd.
  - apply (slots_ok_ext s); try done; by rewrite Hd.
  - intros w b. rewrite Hg, Hd, Hp. apply Hl.
Qed.

(** It returns or refuses the control, the invariant holds after it, and the
    generation limit on record is [g]. *)
Definition settles (d0 : D) (g : option Q) (r : (SExn + unit) * Core D) : Prop :=
  limits_ok d0 r.2 ∧ gen_lim_watts r.2 = g ∧
  (r.1 = inr tt ∨ r.1 = inl refuse_value ∨ r.1 = inl (Declared ModeNotSupportedError)).

Lemma settles_ret d0 g (s : Core D) :
  limits_ok d0 s → gen_lim_watts s = g → settles d0 g (inr tt, s).
Proof. intros Hs Hg. split; [done|]. split; [done|by left]. Qed.

Lemma settles_refused d0 g (s : Core D) :
  limits_ok d0 s → gen_lim_watts s = g → settles d0 g (inl refuse_value, s).
Proof. intros Hs Hg. split; [done|]. split; [done|]. right. by left. Qed.

Lemma settles_unsupported d0 g control (s : Core D) :
  limits_ok d0 s → gen_lim_watts s = g → settles d0 g (control_unsupported control s).
Proof. intros Hs <-. split; [by apply (limits_ok_ext _ s)|]. split; [done|]. right. by right. Qed.

Lemma within_spec lo hi v :
  (∃ q, within lo hi v = inr q ∧ (lo <= q)%Q ∧ (q <= hi)%Q) ∨ within lo hi v = inl refuse_value.
Proof.
  unfold within. destruct (as_number v) as [e|q] eqn:E.
  - right. unfold as_number in E. repeat case_match; naive_solver.
  - destruct (_ && _) eqn:B; [left|by right]. apply andb_true_iff in B as [B1%Qle_bool_iff B2%Qle_bool_iff].
    eauto.
Qed.

Lemma require_watts_spec v :
  (∃ q, require_watts v = inr q ∧ (0 <= q)%Q) ∨ require_watts v = inl refuse_value.
Proof.
  unfold require_watts. destruct (as_number v) as [e|q] eqn:E.
  - right. unfold as_number in E. repeat case_match; naive_solver.
  - destruct (Qle_bool 0 q) eqn:B; [left|by right]. apply Qle_bool_iff in B. eauto.
Qed.

Lemma update_p_lim_keeps d0 params (s : Core D) :
  device_ready d0 → limits_ok d0 s → settles d0 (gen_lim_watts s) (update_p_lim params s).
Proof.
  intros Hd Hs. unfold update_p_lim.
  set (en := is_one _). set (raw := param "p_lim_w" CNone params).
  destruct (en && negb (is_none raw)) eqn:E.
  - unfold bind. destruct (within_spec 0 100 raw) as [(q & Hq & H1' & H2')|Hq]; unfold require_percent; rewrite Hq.
    + cbn [lift]. unfold ret. destruct (apply_slot_keeps d0 any en (Some q) s) as (s' & -> & Hs' & _ & Hg & _);
        [done..|by destruct en; cbn; intros ? [= <-]|by apply settles_ret].
    + by apply settles_refused.
  - destruct (apply_slot_keeps d0 any en (num_of raw) s) as (s' & -> & Hs' & _ & Hg & _); [done..| |by apply settles_ret].
    destruct en; [|done]. by destruct raw.
Qed.

Lemma update_gen_lim_keeps d0 params (s : Core D) :
  device_ready d0 → limits_ok d0 s →
  ∃ g, settles d0 g (update_gen_lim params s) ∧
    ∀ w, is_one (param "gen_lim_mode_enable" (CInt 0) params) = true →
         require_watts (param "gen_lim_w" CNone params) = inr w →
         (update_gen_lim params s).1 = inr tt → g = Some w.
Proof.
  intros Hd Hs. pose proof Hs as [Hb Hsl Hl]. unfold update_gen_lim.
  set (en := is_one _). set (raw := param "gen_lim_w" CNone params).
  destruct (en && is_none raw) eqn:En.
  { apply andb_true_iff in En as [_ En]. eexists. split; [by apply settles_ret|]. by destruct raw. }
  destruct en; cbn [negb].
  - unfold bind at 1 3. destruct (require_watts_spec raw) as [(w & -> & Hw)| ->]; cbn [lift].
    2:{ eexists. by split; [apply settles_refused|]. }
    unfold ret, bind. rewrite watts_as_pct_ok by apply (base_ready _ _ Hd Hb).
    destruct (base_of (reg (dev s))) as [b|] eqn:Eb; cbn [fmap option_fmap option_map].
    2:{ eexists. split; [apply settles_unsupported; [by apply limits_ok_rd|done]|done]. }
    destruct (clamped_pct_ok w b Hw (base_pos _ _ Eb)) as (Hlo & Hhi & _).
    destruct (limits_ok_rd d0 702 s Hs) as [Hb1 Hs1 _].
    destruct (apply_gen_keeps d0 (Some w) (Some (clamped_pct w b)) _ Hd Hb1) as
      (s' & -> & Hb' & Hs' & Hw' & Hsl' & Hbase & _); [apply (ok_percent _ Hs1)|done|].
    exists (Some w). split; [|by intros ? _ [= <-]].
    apply settles_ret; [|done]. split; [done..|]. intros w' b'. rewrite Hw', Hbase. cbn.
    rewrite (base_of_ext (reg (dev s))), Eb by (by apply rd_reg). intros [= <-] [= <-].
    by rewrite Hsl', bool_decide_true by eauto.
  - exists None. split; [|done]. unfold bind at 1, get. destruct (_ || _) eqn:Ep; cbn [when].
    + destruct (apply_gen_keeps d0 None None s) as (s' & Ho & Hb' & Hs' & Hw' & _);
        [done|done|apply (ok_percent _ Hsl)|done|].
      unfold bind. rewrite Ho. apply settles_ret; [|done].
      split; [by apply (base_ok_ext _ s')|by apply (slots_ok_ext s')|]. intros ? ? [=].
    + apply settles_ret; [|done]. apply orb_false_iff in Ep as [Ec%negb_false_iff _].
      pose proof (ok_gen _ Hsl) as Hg. split; [by apply (base_ok_ext _ s)| |intros ? ? [=]].
      destruct Hsl. constructor; cbn; [done..|].
      destruct (slot_gen (p_lim_slots s)) as [[] []]; done.
Qed.

Lemma set_charge_settles d0 g slot w (rf : bool) (s : Core D) :
  device_ready d0 → limits_ok d0 s → gen_lim_watts s = g → (∀ x, w = Some x → (0 <= x)%Q) →
  (rf = false → ∃ s1, limits_ok d0 s1 ∧ s = with_dev s1 (rd 702 (dev s1))) →
  settles d0 g (set_charge_limit slot w rf s).
Proof.
  intros Hd Hs <- Hw Hf. destruct (set_charge_keeps d0 slot w rf s) as (s' & -> & Hs' & _ & Hg & _); [done..|].
  by apply settles_ret.
Qed.

Lemma update_load_lim_keeps d0 params (s : Core D) :
  device_ready d0 → limits_ok d0 s → settles d0 (gen_lim_watts s) (update_load_lim params s).
Proof.
  intros Hd Hs. unfold update_load_lim. set (en := is_one _).
  destruct (en && _); [by apply settles_ret|]. destruct en; cbn [negb].
  2:{ by apply set_charge_settles. }
  unfold bind at 1. destruct (require_watts_spec (param "load_lim_w" CNone params)) as [(w & -> & Hw)| ->].
  2:{ by apply settles_refused. }
  cbn [lift]. unfold ret, bind. rewrite get_model_ok by apply (base_ready _ _ Hd (ok_base _ _ Hs)).
  unfold ask, get. destruct (charge_supported _); cbn [negb].
  - apply set_charge_settles; [done|by apply limits_ok_rd|done|by intros ? [= <-]|eauto].
  - apply settles_unsupported; [by apply limits_ok_rd|done].
Qed.

Lemma update_p_lim_abs_keeps d0 params (s : Core D) :
  device_ready d0 → limits_ok d0 s → settles d0 (gen_lim_watts s) (update_p_lim_abs params s).
Proof.
  intros Hd Hs. unfold update_p_lim_abs. destruct (is_one _); cbn [negb].
  2:{ unfold bind, modify. apply set_charge_settles; [done|by apply (limits_ok_ext _ s)|done..]. }
  destruct (is_none _); [by apply settles_ret|].
  unfold bind at 1. destruct (require_watts_spec (param "p_lim_watts" CNone params)) as [(w & -> & Hw)| ->].
  2:{ by apply settles_refused. }
  cbn [lift]. unfold ret, bind. rewrite get_model_ok by apply (base_ready _ _ Hd (ok_base _ _ Hs)).
  unfold ask, get. destruct (charge_supported _); cbn [negb].
  - apply set_charge_settles; [done|by apply limits_ok_rd|done|by intros ? [= <-]|eauto].
  - apply settles_ret; [|done]. eapply limits_ok_ext; [by apply (limits_ok_rd _ 702)|done..].
Qed.

Lemma update_p_lim_inj_keeps d0 params (s : Core D) :
  device_ready d0 → limits_ok d0 s → settles d0 (gen_lim_watts s) (update_p_lim_inj params s).
Proof.
  intros Hd Hs. unfold update_p_lim_inj. set (en := is_one _). destruct (_ || _).
  - unfold clear_p_lim_inj, bind at 1, modify.
    destruct (restore_keeps d0 (with_inj s None)) as (s1 & Ho & Hs1 & _ & Hg1); [done|by apply (limits_ok_ext _ s)|].
    unfold bind at 1. rewrite Ho. unfold bind, get. destruct (negb _); cbn [when]; [|by apply settles_ret].
    destruct (apply_slot_keeps d0 inj en None s1) as (s' & -> & Hs' & _ & Hg & _);
      [done..|by destruct en|apply settles_ret; [done|by rewrite Hg]].
  - unfold bind at 1. destruct (require_watts_spec (param "p_lim_watts" CNone params)) as [(w & -> & Hw)| ->].
    2:{ by apply settles_refused. }
    destruct (base_ready _ _ Hd (ok_base _ _ Hs)) as (H702 & _ & Hsf).
    cbn [lift]. unfold ret. unfold bind at 1. rewrite get_model_ok by done.
    unfold bind at 1, ask, get. cbn [dev with_dev].
    destruct (rate_setting_is_supported _ _ _) eqn:Esup; cbn [negb].
    + unfold bind at 1. cbn [dev with_dev]. rewrite rd_value. cbn [covers]. rewrite Z.eqb_refl, Hsf.
      destruct (require_uint16_watts w (Some w_sf)) as [e|y] eqn:Eu.
      * assert (e = refuse_value) as -> by (unfold require_uint16_watts in Eu; case_match; naive_solver).
        apply settles_refused; [by apply limits_ok_rd|done].
      * unfold bind at 1. cbn [lift]. unfold ret.
        destruct (inject_direct_keeps d0 s w y) as (s' & -> & Hs' & Hg); [done..| |done|by apply settles_ret].
        unfold rate_setting_is_supported in Esup. rewrite rd_value in Esup. cbn in Esup.
        destruct (reg (dev s) WDis); [eauto|done].
    + unfold apply_inj_without_register, bind at 1, modify. unfold bind at 1.
      rewrite watts_as_pct_ok by (cbn; by rewrite rd_models).
      destruct (base_of _) as [b|] eqn:Eb; cbn [fmap option_fmap option_map].
      * destruct (clamped_pct_ok w b Hw (base_pos _ _ Eb)) as (Hlo & Hhi & _).
        match goal with |- context [apply_inject_pct_slot inj true _ ?x] =>
          assert (limits_ok d0 x) as Hx by (apply limits_ok_rd; eapply limits_ok_ext;
                                            [by apply (limits_ok_rd _ 702)|done..]) end.
        destruct (apply_slot_keeps d0 inj true (Some (clamped_pct w b)) _ ltac:(done) Hd Hx)
          as (s' & -> & Hs' & _ & Hg & _); [by intros ? [= <-]|apply settles_ret; [done|by rewrite Hg]].
      * apply settles_ret; [|done]. apply limits_ok_rd. eapply limits_ok_ext; [by apply (limits_ok_rd _ 702)|done..].
Qed.

(** ** Sequences of limit controls *)

Inductive LimitControl := MaxLimW | MaxLimWInject | MaxLimWAbsorb | GenLimW | LoadLimW.

Definition limit_update (c : LimitControl) : CoreParams → M unit :=
  match c with
  | MaxLimW => update_p_lim
  | MaxLimWInject => update_p_lim_inj
  | MaxLimWAbsorb => update_p_lim_abs
  | GenLimW => update_gen_lim
  | LoadLimW => update_load_lim
  end.

Definition run_limits (calls : list (LimitControl * CoreParams)) (s : Core D) : Core D :=
  foldl (λ s call, (limit_update call.1 call.2 s).2) s calls.

Lemma run_limits_app before c params after (s : Core D) :
  run_limits (before ++ (c, params) :: after) s =
  run_limits after (limit_update c params (run_limits before s)).2.
Proof. unfold run_limits. by rewrite foldl_app. Qed.

Lemma limit_update_settles d0 c params (s : Core D) :
  device_ready d0 → limits_ok d0 s →
  ∃ g, settles d0 g (limit_update c params s) ∧ (c ≠ GenLimW → g = gen_lim_watts s).
Proof.
  intros Hd Hs. destruct c; cbn [limit_update].
  - eexists. split; [by apply update_p_lim_keeps|done].
  - eexists. split; [by apply update_p_lim_inj_keeps|done].
  - eexists. split; [by apply update_p_lim_abs_keeps|done].
  - destruct (update_gen_lim_keeps d0 params s Hd Hs) as (g & Hg & _). by exists g.
  - eexists. split; [by apply update_load_lim_keeps|done].
Qed.

Lemma run_limits_ok d0 calls (s : Core D) :
  device_ready d0 → limits_ok d0 s → limits_ok d0 (run_limits calls s).
Proof.
  intros Hd. revert s. induction calls as [|[c params] calls IH]; intros s Hs; [done|].
  cbn. apply IH. by destruct (limit_update_settles d0 c params s Hd Hs) as (g & [? _] & _).
Qed.

Lemma run_limits_gen d0 calls (s : Core D) :
  device_ready d0 → limits_ok d0 s → Forall (λ call, call.1 ≠ GenLimW) calls →
  gen_lim_watts (run_limits calls s) = gen_lim_watts s.
Proof.
  intros Hd. revert s. induction calls as [|[c params] calls IH]; intros s Hs Hc; [done|].
  apply Forall_cons in Hc as [Hc1 Hc2].
  change (run_limits ((c, params) :: calls) s) with (run_limits calls (limit_update c params s).2).
  destruct (limit_update_settles d0 c params s Hd Hs) as (g & (Hs' & Hg & _) & Hne).
  rewrite IH by done. rewrite Hg. by apply Hne.
Qed.

(** A core whose records are as the constructor leaves them. *)
Lemma new_core_ok d c h : limits_ok d (new_core d c h).
Proof.
  split; [constructor|constructor|]; cbn; try done.
  - intros w []%elem_of_nil.
  - intros q []%elem_of_nil.
Qed.

(** C20: On a reliable link, whatever sequence of limit controls (with whatever
    parameters) the connector has been given, each control either returned or was
    refused, and: while any opModMaxLimW, inject or generation limit is active the
    enable is up and WMaxLimPct holds one percent that is at most every active
    limit and is one of them; while any charge limit is active WChaRteMax holds
    the lowest of them, held to the nameplate rating; and every register the
    limits do not own is as it was. *)
Theorem limits_share_registers d0 cal hint calls control params :
  device_ready d0 →
  let s := run_limits calls (new_core d0 cal hint) in
  let r := limit_update control params s in
  (r.1 = inr tt ∨ r.1 = inl refuse_value ∨ r.1 = inl (Declared ModeNotSupportedError)) ∧
  (∀ slot x, active_pct (get_slot slot (p_lim_slots s)) = Some x →
    reg (dev s) Ena = Some 1 ∧
    ∃ q slot', reg (dev s) Pct = Some (encode Pct q) ∧ (q <= x)%Q ∧
               active_pct (get_slot slot' (p_lim_slots s)) = Some q) ∧
  (∀ w rating, w ∈ active_charges (charge_limits s) → charge_rating (reg (dev s)) = Some rating →
    ∃ m, reg (dev s) WCha = Some (encode WCha (qmin m rating)) ∧ (m <= w)%Q ∧
         m ∈ active_charges (charge_limits s)) ∧
  (∀ p, setting p = true → p ∉ WRITTEN → reg (dev s) p = reg d0 p).
Proof.
  intros Hd s r. assert (limits_ok d0 s) as Hs by (apply run_limits_ok; [done|apply new_core_ok]).
  destruct Hs as [Hb Hsl Hl] eqn:Hok. clear Hok. split; [|split; [|split]].
  - assert (limits_ok d0 s) as Hs' by done.
    by destruct (limit_update_settles d0 control params s Hd Hs') as (g & (_ & _ & ?) & _).
  - intros slot x Hx.
    assert (x ∈ candidates (p_lim_slots s)) as Hin.
    { unfold candidates. apply list_elem_of_omap. eexists. split; [|exact Hx]. destruct slot; cbn; set_solver. }
    destruct (compute_merged_inject_pct (p_lim_slots s)) as [q|] eqn:Eq.
    2:{ unfold compute_merged_inject_pct in Eq. destruct (candidates _); [by apply elem_of_nil in Hin|done]. }
    destruct (ok_merged _ Hsl q Eq) as [He Hp]. split; [done|].
    assert (q ∈ candidates (p_lim_slots s)) as Hq by (by apply list_min_elem).
    unfold candidates in Hq. apply list_elem_of_omap in Hq as (v & Hv & Hq).
    assert (∃ slot', get_slot slot' (p_lim_slots s) = v) as [slot' <-].
    { rewrite !elem_of_cons, elem_of_nil in Hv. destruct Hv as [->|[->|[->|[]]]];
        [by exists any|by exists inj|by exists gen]. }
    exists q, slot'. split; [done|]. split; [|done]. by eapply list_min_le.
  - intros w rating Hw Hr. destruct (list_min (active_charges (charge_limits s))) as [m|] eqn:Em.
    + exists m. split; [by apply (ok_charge _ _ Hb)|]. split; [by eapply list_min_le|by apply list_min_elem].
    + destruct (active_charges _); [by apply elem_of_nil in Hw|done].
  - apply (ok_frame _ _ Hb).
Qed.

(** C19: On a reliable link ([Reliable]: no read or write fails, only the client
    changes a setting, a scaled value is stored as the nearest raw value), to a
    device with models 702 and 704, a generation limit is held in watts: once
    opModGenLimW of [w] watts has been applied, whatever other limit controls follow (an inject limit lowers
    WMax, the base the percent is taken of, and its end restores it), the enable
    is up and the percent on the device, of the base then in force, allows at most
    [w] watts, up to the half unit the register rounds by. *)
Theorem gen_limit_kept_in_watts d0 cal hint before params w after b :
  device_ready d0 → Forall (λ call, call.1 ≠ GenLimW) after →
  is_one (param "gen_lim_mode_enable" (CInt 0) params) = true →
  require_watts (param "gen_lim_w" CNone params) = inr w →
  (update_gen_lim params (run_limits before (new_core d0 cal hint))).1 = inr tt →
  let s := run_limits (before ++ (GenLimW, params) :: after) (new_core d0 cal hint) in
  base_of (reg (dev s)) = Some b →
  reg (dev s) Ena = Some 1 ∧
  ∃ z, reg (dev s) Pct = Some z ∧
       (inject_Z z * scale Pct * b / 100 <= w + (1 # 2) * scale Pct * b / 100)%Q.
Proof.
  intros Hd Hafter Hon Hw Hret. cbv zeta. rewrite run_limits_app. cbn [limit_update].
  set (s0 := run_limits before (new_core d0 cal hint)) in *.
  assert (limits_ok d0 s0) as Hs0 by (apply run_limits_ok; [done|apply new_core_ok]).
  destruct (update_gen_lim_keeps d0 params s0 Hd Hs0) as (g & (Hs1 & Hg & _) & Hgw).
  rewrite (Hgw w Hon Hw Hret) in Hg. set (s := run_limits after (update_gen_lim params s0).2).
  intros Hbase.
  assert (gen_lim_watts s = Some w) as Hgs by (unfold s; by rewrite (run_limits_gen d0)).
  assert (limits_ok d0 s) as [Hb Hsl Hl] by (by apply run_limits_ok).
  specialize (Hl w b Hgs Hbase).
  pose proof (ok_gen _ Hsl) as Hwp. rewrite Hgs in Hwp. destruct Hwp as [Hw0 _].
  destruct (clamped_pct_ok w b Hw0 (base_pos _ _ Hbase)) as (_ & _ & Hle).
  assert (clamped_pct w b ∈ candidates (p_lim_slots s)) as Hin.
  { unfold candidates. apply list_elem_of_omap.
    exists (slot_gen (p_lim_slots s)). split; [set_solver|by rewrite Hl]. }
  destruct (compute_merged_inject_pct (p_lim_slots s)) as [q|] eqn:Eq.
  2:{ unfold compute_merged_inject_pct in Eq. destruct (candidates _); [by apply elem_of_nil in Hin|done]. }
  destruct (ok_merged _ Hsl q Eq) as [He Hp]. split; [done|]. eexists. split; [exact Hp|].
  pose proof (list_min_le _ _ _ Eq Hin) as Hq.
  apply (encoded_bound _ _ _ _ _ (scale_pos Pct) (base_pos _ _ Hbase) (encode_nearest Pct q)).
  assert (q * b <= clamped_pct w b * b)%Q by
    (apply Qmult_le_compat_r; [done|by apply Qlt_le_weak, (base_pos _ _ Hbase)]). lra.
Qed.

(** C22: On a reliable link ([Reliable]: no read or write fails, only the client
    changes a setting), to a device with models 702 and 704, an inject limit is
    undone when it clears: after any sequence of limit controls ending with the withdrawal of opModMaxLimWInject, the device's WMax
    register holds exactly the raw value it had before the first of them. *)
Theorem wmax_restored d0 cal hint calls params :
  device_ready d0 →
  is_one (param "p_lim_mode_enable" (CInt 0) params) = false →
  let s := run_limits (calls ++ [(MaxLimWInject, params)]) (new_core d0 cal hint) in
  reg (dev s) WMax = reg d0 WMax.
Proof.
  intros Hd Hoff. cbv zeta. rewrite run_limits_app. cbn [limit_update run_limits foldl].
  set (s0 := run_limits calls (new_core d0 cal hint)) in *. set (s := (update_p_lim_inj params s0).2).
  assert (limits_ok d0 s0) as Hs0 by (apply run_limits_ok; [done|apply new_core_ok]).
  assert (wmax_baseline s = None ∧ limits_ok d0 s) as [Hbl Hs].
  { unfold s, update_p_lim_inj. rewrite Hoff. cbn [negb orb].
    unfold clear_p_lim_inj, bind at 1 5, modify.
    destruct (restore_keeps d0 (with_inj s0 None)) as (s1 & Ho & Hs1 & Hb1 & _);
      [done|by apply (limits_ok_ext _ s0)|].
    unfold bind. rewrite Ho. unfold get. destruct (negb _); cbn [when]; [|done].
    destruct (apply_slot_keeps d0 inj false None s1) as (s2 & -> & Hs2 & _ & _ & Hb2); [done..|].
    cbn. by rewrite Hb2. }
  pose proof (ok_wmax _ _ (ok_base _ _ Hs)) as Hx. by rewrite Hbl in Hx.
Qed.
End Limits.

(** ** A device on which the statements hold *)

Definition sim_of (l : list (Point * Z)) : Sim := mkSim (list_to_map l) (list_to_map l) ∅.

(** 6 kW nameplate, set to 5 kW; charges at up to 4 kW; 0.1 % steps of WMaxLimPct. *)
Definition inverter : Sim :=
  sim_of [(Pt 702 "W_SF", 0); (WMaxRtg, 6000); (WMax, 5000); (WDisRtg, 5000); (WDis, 5000);
          (WChaRtg, 4000); (WCha, 4000); (Pct, 1000); (Ena, 0)].

Definition cal0 : Calibrator := mkCal None None 0 0 false None.
Definition core0 : Core Sim := new_core inverter cal0 false.

Definition watts_call (w : Z) : CoreParams :=
  [("p_lim_mode_enable", CInt 1); ("p_lim_watts", CInt w)].
Definition gen_call (w : Z) : CoreParams :=
  [("gen_lim_mode_enable", CInt 1); ("gen_lim_w", CInt w)].

Lemma inverter_ready : device_ready inverter.
Proof.
  unfold device_ready, model_704_ready. repeat split;
    first [apply (bool_decide_unpack _); vm_compute; exact I | vm_compute; eauto].
Qed.

(** 2 kW of generation while an inject limit has WMax at 2.5 kW is 80 percent, the
    charge limit of 9 kW is held to the rating, and clearing the inject limit
    makes the same 2 kW 40 percent of 5 kW. *)
Example limits_worked :
  let s1 := run_limits [(MaxLimWInject, watts_call 2500); (GenLimW, gen_call 2000);
                        (MaxLimWAbsorb, watts_call 9000)] core0 in
  let s2 := run_limits [(MaxLimWInject, [])] s1 in
  (reg (dev s1) WMax, reg (dev s1) Pct, reg (dev s1) Ena, reg (dev s1) WCha) =
    (Some 2500, Some 800, Some 1, Some 4000) ∧
  (reg (dev s2) WMax, reg (dev s2) Pct, reg (dev s2) Ena) = (Some 5000, Some 400, Some 1).
Proof. vm_compute. done. Qed.

Lemma limits_share_registers_witness :
  let s := run_limits [(MaxLimW, [("p_lim_mode_enable", CInt 1); ("p_lim_w", CInt 50)]);
                       (LoadLimW, [("load_lim_mode_enable", CInt 1); ("load_lim_w", CInt 900)])] core0 in
  reg (dev s) Ena = Some 1 ∧
  ∃ m, reg (dev s) WCha = Some (encode WCha (qmin m 4000)) ∧ (m <= 900)%Q.
Proof.
  pose proof (limits_share_registers inverter cal0 false
    [(MaxLimW, [("p_lim_mode_enable", CInt 1); ("p_lim_w", CInt 50)]);
     (LoadLimW, [("load_lim_mode_enable", CInt 1); ("load_lim_w", CInt 900)])]
    MaxLimW [] inverter_ready) as (_ & H1 & H2 & _).
  split.
  - apply (H1 any 50%Q). vm_compute. done.
  - destruct (H2 900%Q 4000%Q) as (m & Hm & Hle & _); [|vm_compute; done|eauto].
    vm_compute. left.
Defined.

Lemma gen_limit_kept_in_watts_witness :
  let s := run_limits ([(MaxLimWInject, watts_call 2500)] ++ (GenLimW, gen_call 2000) ::
                       [(MaxLimWInject, [])]) core0 in
  reg (dev s) Ena = Some 1 ∧
  ∃ z, reg (dev s) Pct = Some z ∧
       (inject_Z z * scale Pct * 5000 / 100 <= 2000 + (1 # 2) * scale Pct * 5000 / 100)%Q.
Proof.
  apply (gen_limit_kept_in_watts inverter cal0 false [(MaxLimWInject, watts_call 2500)] (gen_call 2000)
           2000%Q [(MaxLimWInject, [])] 5000%Q inverter_ready);
    [by repeat constructor|vm_compute; done..].
Defined.

Lemma wmax_restored_witness :
  reg (dev (run_limits ([(MaxLimWInject, watts_call 2500)] ++ [(MaxLimWInject, [])]) core0)) WMax = Some 5000.
Proof.
  etrans; [apply (wmax_restored inverter cal0 false [(MaxLimWInject, watts_call 2500)] [] inverter_ready); done|].
  vm_compute. done.
Defined.
