(* ===== verification/SunspecProps.v ===== *)
(** * Properties of the SunSpec Modbus core

    - a control the core refuses (an invalid value, an unsupported mode) changes
      no register of the device;
    - where the code does not behave as its comments say. *)

From S2P Require Import Prelude Controls Response Scaling SunspecDevice SunspecMeter SunspecCore.
From S2P Require Import SunspecLaws SunspecLimits.
From Stdlib Require Import QArith Qabs Qpower.
#[local] Open Scope Z_scope.

Create HintDb clean.

(** ** Refusals *)

Section Refusals.
Context {D : Type} `{DeviceLaws D}.
#[local] Abbreviation M A := (Comp SExn (Core D) A).

(** No register was changed. *)
Definition unwritten (s s' : Core D) : Prop :=
  ∀ p, setting p = true → reg (dev s') p = reg (dev s) p.

#[local] Instance unwritten_preorder : PreOrder unwritten.
Proof. split; [by intros s p|]. intros s1 s2 s3 H1 H2 p Hp. by rewrite H2, H1. Qed.

(** The computation never refuses a control. *)
Definition undeclared {A} (m : M A) : Prop := ∀ s e s', m s ≠ (inl (Declared e), s').

(** When it refuses one, it has changed no register. *)
Definition clean {A} (m : M A) : Prop :=
  ∀ s e s', m s = (inl (Declared e), s') → unwritten s s'.

Lemma clean_guar {A} (m : M A) : guar unwritten m → clean m.
Proof. intros Hm s e s' E. specialize (Hm s). by rewrite E in Hm. Qed.

Lemma clean_undeclared {A} (m : M A) : undeclared m → clean m.
Proof. intros Hm s e s' E. by destruct (Hm s e s'). Qed.

Lemma clean_bind_l {A B} (m : M A) (f : A → M B) :
  guar unwritten m → (∀ a, clean (f a)) → clean (bind m f).
Proof.
  intros Hm Hf s e s'. unfold bind. specialize (Hm s).
  destruct (m s) as [[e1|a] s1]; cbn in Hm; [by intros [= -> <-]|].
  intros E. etrans; [exact Hm|by eapply Hf].
Qed.

Lemma clean_bind_r {A B} (m : M A) (f : A → M B) :
  clean m → (∀ a, undeclared (f a)) → clean (bind m f).
Proof.
  intros Hm Hf s e s'. unfold bind. destruct (m s) as [[e1|a] s1] eqn:E1.
  - intros [= -> <-]. by eapply Hm.
  - intros E. by destruct (Hf a s1 e s').
Qed.

Lemma undeclared_bind {A B} (m : M A) (f : A → M B) :
  undeclared m → (∀ a, undeclared (f a)) → undeclared (bind m f).
Proof.
  intros Hm Hf s e s'. unfold bind. destruct (m s) as [[e1|a] s1] eqn:E1.
  - intros [= -> <-]. by destruct (Hm s e s1).
  - apply Hf.
Qed.

Lemma undeclared_ret {A} (a : A) : undeclared (ret a).
Proof. by intros s e s'. Qed.
Lemma undeclared_get {A} (f : Core D → A) : undeclared (get f).
Proof. by intros s e s'. Qed.
Lemma undeclared_modify (f : Core D → Core D) : undeclared (modify f).
Proof. by intros s e s'. Qed.
Lemma undeclared_lib f : undeclared (lib f).
Proof. intros s e s'. unfold lib. by repeat case_match. Qed.
Lemma undeclared_caught {A} (m : M A) : undeclared (caught m).
Proof. intros s e s'. unfold caught. by repeat case_match. Qed.
Lemma undeclared_when b (m : M unit) : undeclared m → undeclared (when b m).
Proof. destruct b; [done|]. intros _. apply undeclared_ret. Qed.

(** *** What changes no register *)

Lemma guar_lib f : (∀ d q, setting q = true → reg (f d).2 q = reg d q) → guar unwritten (lib f).
Proof. intros Hf s p Hp. unfold lib. specialize (Hf (dev s) p Hp). by destruct (f (dev s)). Qed.
Lemma guar_set_value p v : guar unwritten (lib (set_value p v)).
Proof. apply guar_lib. intros. by apply set_value_reg. Qed.
Lemma guar_set_cvalue p v : guar unwritten (lib (set_cvalue p v)).
Proof. apply guar_lib. intros. by apply set_cvalue_reg. Qed.
Lemma guar_read b : guar unwritten (lib (read b)).
Proof. apply guar_lib. intros. by apply read_reg. Qed.
Lemma guar_disconnect : guar unwritten (lib disconnect).
Proof. apply guar_lib. intros. by apply disconnect_reg. Qed.
Lemma guar_connect : guar unwritten (lib connect).
Proof. apply guar_lib. intros. by apply connect_reg. Qed.
Lemma guar_wait t : guar unwritten (wait t).
Proof. intros s p Hp. cbn. by apply sleep_reg. Qed.
Lemma guar_caught {A} (m : M A) : guar unwritten m → guar unwritten (caught m).
Proof. intros Hm s. specialize (Hm s). unfold caught. by destruct (m s). Qed.
Lemma guar_keep (f : Core D → Core D) : (∀ s, dev (f s) = dev s) → guar unwritten (modify f : M unit).
Proof. intros Hf s p Hp. cbn. by rewrite Hf. Qed.
Lemma guar_ask {A} (f : D → A) : guar unwritten (ask f).
Proof. apply guar_get, _. Qed.
Lemma guar_slift {A} (r : SExn + A) : guar unwritten (lift r).
Proof. destruct r; [apply guar_raise, _|apply guar_ret, _]. Qed.
Lemma guar_report r : guar unwritten (report r).
Proof. by apply guar_keep. Qed.
#[local] Hint Resolve guar_set_value guar_set_cvalue guar_read guar_disconnect guar_connect guar_wait
  guar_caught guar_ask guar_slift guar_report : guar.
#[local] Hint Extern 2 (guar unwritten (modify _)) =>
  apply guar_keep; intros; repeat case_match; reflexivity : guar.

Lemma guar_reconnect : guar unwritten reconnect.
Proof. unfold reconnect. guar_auto. Qed.
#[local] Hint Resolve guar_reconnect : guar.
Lemma guar_get_model m : guar unwritten (get_model m).
Proof. unfold get_model. guar_auto. Qed.
Lemma guar_unsupported {A} control : guar unwritten (control_unsupported control : M A).
Proof. unfold control_unsupported. guar_auto. Qed.
#[local] Hint Resolve guar_get_model guar_unsupported : guar.
Lemma guar_require_points c m l : guar unwritten (require_points c m l).
Proof. unfold require_points. guar_auto. Qed.
Lemma guar_watts_as_pct w : guar unwritten (watts_as_pct_of_wmax w).
Proof. unfold watts_as_pct_of_wmax. guar_auto. Qed.
Lemma guar_mirror w : guar unwritten (mirror_inject_onto_wmax w).
Proof. unfold mirror_inject_onto_wmax. guar_auto. Qed.
Lemma guar_target_route w : guar unwritten (target_route w).
Proof. unfold target_route. guar_auto. Qed.
#[local] Hint Resolve guar_require_points guar_watts_as_pct guar_mirror guar_target_route : guar.

(** *** What never refuses *)

Ltac undeclared_step :=
  match goal with
  | |- undeclared (bind _ _) => apply undeclared_bind; [|intro]
  | |- undeclared (ret _) => apply undeclared_ret
  | |- undeclared (get _) => apply undeclared_get
  | |- undeclared (ask _) => apply undeclared_get
  | |- undeclared (modify _) => apply undeclared_modify
  | |- undeclared (wait _) => apply undeclared_modify
  | |- undeclared (report _) => apply undeclared_modify
  | |- undeclared (lib _) => apply undeclared_lib
  | |- undeclared (caught _) => apply undeclared_caught
  | |- undeclared (when _ _) => apply undeclared_when
  | |- undeclared (raise _) => by intros ? ? ?
  | |- undeclared (match ?x with _ => _ end) => destruct x
  | |- undeclared _ => solve [eauto with clean]
  end.
Ltac undeclared_auto := intros; repeat undeclared_step.



Lemma undeclared_reconnect : undeclared reconnect.
Proof. unfold reconnect. undeclared_auto. Qed.
#[local] Hint Resolve undeclared_reconnect : clean.
Lemma undeclared_get_model m : undeclared (get_model m).
Proof. unfold get_model. undeclared_auto. Qed.
Lemma undeclared_update_enable p v : undeclared (update_enable p v).
Proof. unfold update_enable. undeclared_auto. Qed.
#[local] Hint Resolve undeclared_get_model undeclared_update_enable : clean.
Lemma undeclared_adopt_poll p n : undeclared (adopt_poll p n).
Proof.
  induction n as [|n IH]; cbn [adopt_poll]; [by intros s e s'|].
  apply undeclared_bind; [undeclared_auto|intros _]. apply undeclared_bind; [undeclared_auto|intros _].
  apply undeclared_bind; [undeclared_auto|intros r]. by repeat case_match; undeclared_auto.
Qed.
#[local] Hint Resolve undeclared_adopt_poll : clean.
Lemma undeclared_set_points m x y i xs ys : undeclared (set_points m x y i xs ys).
Proof. revert i ys. induction xs; intros i [|? ?]; cbn [set_points]; undeclared_auto. Qed.
Lemma undeclared_as_list v : undeclared (as_list v).
Proof. destruct v; cbn; undeclared_auto. Qed.
#[local] Hint Resolve undeclared_set_points undeclared_as_list : clean.
Lemma undeclared_capacity m n : undeclared (require_curve_capacity m n).
Proof. unfold require_curve_capacity. undeclared_auto. Qed.
Lemma undeclared_second_curve m : undeclared (second_curve m).
Proof. unfold second_curve. undeclared_auto. Qed.
Lemma undeclared_second_control m : undeclared (second_control m).
Proof. unfold second_control. undeclared_auto. Qed.
Lemma undeclared_adopt_curve m : undeclared (adopt_curve m).
Proof. unfold adopt_curve. undeclared_auto. Qed.
Lemma undeclared_adopt_control m : undeclared (adopt_control m).
Proof. unfold adopt_control. undeclared_auto. Qed.
#[local] Hint Resolve undeclared_capacity undeclared_second_curve undeclared_second_control
  undeclared_adopt_curve undeclared_adopt_control : clean.

(** *** Each control *)

Ltac clean_step :=
  match goal with
  | |- clean (bind ?m ?f) =>
      first [ apply clean_bind_l; [solve [guar_auto]|intro]
            | apply clean_bind_r; [|solve [undeclared_auto]] ]
  | |- clean (match ?x with _ => _ end) => destruct x
  | |- clean _ =>
      first [ solve [eauto with clean]
            | apply clean_undeclared; solve [undeclared_auto]
            | apply clean_guar; solve [guar_auto] ]
  end.
Ltac clean_auto := intros; repeat clean_step.

Lemma clean_apply_inject slot en pct : clean (apply_inject_pct_slot slot en pct).
Proof. unfold apply_inject_pct_slot. clean_auto. Qed.
#[local] Hint Resolve clean_apply_inject : clean.

Lemma clean_reraise {A B} (m : M A) (f : Core D → Core D) (k : A → M B) :
  clean m → (∀ s, dev (f s) = dev s) → (∀ a, undeclared (k a)) →
  clean (bind (caught m) (λ r, match r with inl e => modify f ;;; raise e | inr a => k a end)).
Proof.
  intros Hm Hf Hk s e s'. unfold bind, caught. destruct (m s) as [[e1|a] s1] eqn:E1; cbn.
  - intros [= -> <-] p Hp. rewrite Hf. by eapply Hm.
  - intros E. by destruct (Hk a s1 e s').
Qed.

Lemma clean_apply_gen w pct : clean (apply_gen_lim_slot w pct).
Proof.
  unfold apply_gen_lim_slot. apply clean_bind_l; [guar_auto|intros prev].
  intros s e s'. unfold bind, caught.
  destruct (apply_inject_pct_slot _ _ _ s) as [[e1|[]] s1] eqn:E1; cbn; [|done].
  intros [= -> <-] p Hp. cbn. by eapply clean_apply_inject.
Qed.
#[local] Hint Resolve clean_apply_gen : clean.

Lemma clean_set_charge slot w b : clean (set_charge_limit slot w b).
Proof.
  unfold set_charge_limit. apply clean_bind_l; [guar_auto|intros prev].
  apply clean_bind_l; [guar_auto|intros _]. apply clean_reraise; [|done|undeclared_auto].
  unfold write_charge_limit. clean_auto.
Qed.
#[local] Hint Resolve clean_set_charge : clean.

Lemma clean_update_qv p : clean (update_qv p).
Proof. unfold update_qv. clean_auto. Qed.
Lemma clean_update_pv p : clean (update_pv p).
Proof. unfold update_pv. clean_auto. Qed.
Lemma clean_update_qp p : clean (update_qp p).
Proof. unfold update_qp. clean_auto. Qed.
Lemma clean_update_pf p : clean (update_pf p).
Proof. unfold update_pf. clean_auto. Qed.
Lemma clean_update_p_lim p : clean (update_p_lim p).
Proof. unfold update_p_lim. clean_auto. Qed.
Lemma clean_update_p_lim_abs p : clean (update_p_lim_abs p).
Proof. unfold update_p_lim_abs, apply_abs_without_register. clean_auto. Qed.
Lemma clean_update_gen_lim p : clean (update_gen_lim p).
Proof.
  unfold update_gen_lim. destruct (_ && _); [clean_auto|]. destruct (negb _); [|clean_auto].
  apply clean_bind_l; [guar_auto|intros b]. apply clean_bind_r; [|undeclared_auto].
  destruct b; cbn [when]; clean_auto.
Qed.
Lemma clean_update_load_lim p : clean (update_load_lim p).
Proof. unfold update_load_lim. clean_auto. Qed.
Lemma clean_update_const_q p : clean (update_const_q p).
Proof. unfold update_const_q. clean_auto. Qed.
Lemma clean_update_fixed_w p : clean (update_fixed_w p).
Proof. unfold update_fixed_w. clean_auto. Qed.
Lemma clean_update_target_w p : clean (update_target_w p).
Proof. unfold update_target_w. clean_auto. Qed.
Lemma clean_update_connect p : clean (update_connect p).
Proof. unfold update_connect. clean_auto. Qed.

(** An inject limit while no generation limit is recorded: the generation limit
    is then not written again, so nothing is refused after the write. *)
Definition same_gen (s s' : Core D) : Prop := gen_lim_watts s' = gen_lim_watts s.

#[local] Instance same_gen_preorder : PreOrder same_gen.
Proof. split; [by intros s|]. intros s1 s2 s3 H1 H2. unfold same_gen in *. congruence. Qed.

Lemma same_gen_lib f : guar same_gen (lib f).
Proof. intros s. unfold lib. by destruct (f (dev s)). Qed.
Lemma same_gen_keep (f : Core D → Core D) :
  (∀ s, gen_lim_watts (f s) = gen_lim_watts s) → guar same_gen (modify f : M unit).
Proof. intros Hf s. apply Hf. Qed.
Lemma same_gen_caught {A} (m : M A) : guar same_gen m → guar same_gen (caught m).
Proof. intros Hm s. specialize (Hm s). unfold caught. by destruct (m s). Qed.
Lemma same_gen_ask {A} (f : D → A) : guar same_gen (ask f).
Proof. apply guar_get, _. Qed.
Lemma same_gen_lift {A} (r : SExn + A) : guar same_gen (lift r).
Proof. destruct r; [apply guar_raise, _|apply guar_ret, _]. Qed.
#[local] Hint Resolve same_gen_lib same_gen_caught same_gen_ask same_gen_lift : guar.
#[local] Hint Extern 2 (guar same_gen (modify _)) =>
  apply same_gen_keep; intros; repeat case_match; reflexivity : guar.
Lemma same_gen_get_model m : guar same_gen (get_model m).
Proof. unfold get_model, reconnect, report. guar_auto. Qed.
#[local] Hint Resolve same_gen_get_model : guar.
Lemma same_gen_mirror w : guar same_gen (mirror_inject_onto_wmax w).
Proof. unfold mirror_inject_onto_wmax. guar_auto. Qed.
#[local] Hint Resolve same_gen_mirror : guar.

Definition clean_no_gen {A} (m : M A) : Prop :=
  ∀ s e s', gen_lim_watts s = None → m s = (inl (Declared e), s') → unwritten s s'.

Lemma clean_no_gen_l {A B} (m : M A) (f : A → M B) :
  guar unwritten m → guar same_gen m → (∀ a, clean_no_gen (f a)) → clean_no_gen (bind m f).
Proof.
  intros Hm Hg Hf s e s' Hs. unfold bind. specialize (Hm s). specialize (Hg s).
  destruct (m s) as [[e1|a] s1]; cbn in Hm, Hg; [by intros [= -> <-]|].
  intros E. etrans; [exact Hm|]. eapply Hf; [|exact E]. by rewrite Hg.
Qed.

Lemma clean_update_p_lim_inj p :
  is_one (param "p_lim_mode_enable" (CInt 0) p) = true → param "p_lim_watts" CNone p ≠ CNone →
  clean_no_gen (update_p_lim_inj p).
Proof.
  intros Hon Hw. unfold update_p_lim_inj. rewrite Hon.
  replace (is_none _) with false by (by destruct (param "p_lim_watts" CNone p)). cbn [negb orb].
  do 3 (apply clean_no_gen_l; [guar_auto..|intro]).
  match goal with |- clean_no_gen (if negb ?b then _ else _) => destruct b end; cbn [negb].
  2:{ intros s e s' _. unfold apply_inj_without_register.
      match goal with |- ?m s = _ → _ => assert (clean m) as Hc by clean_auto end. apply Hc. }
  do 4 (apply clean_no_gen_l; [guar_auto..|intro]).
  intros s e s' Hs. unfold bind at 1.
  destruct (lib (write (AModel 702)) s) as [[e1|[]] s1] eqn:E1.
  - intros [= -> <-]. by destruct (undeclared_lib _ _ _ _ E1).
  - pose proof (same_gen_lib (write (AModel 702)) s) as Hg. rewrite E1 in Hg. cbn in Hg.
    unfold same_gen in Hg. unfold bind, modify, refresh_gen_lim_pct, get, with_inj. cbn.
    by rewrite Hg, Hs.
Qed.

(** The scope of the statement below: every control but the shared power-factor
    write, an inject limit with a value and no generation limit on record. *)
Definition single_control (method : string) (params : CoreParams) (s : Core D) : Prop :=
  method ≠ "update_const_pf" ∧
  (method = "update_p_lim_inj" →
   gen_lim_watts s = None ∧ is_one (param "p_lim_mode_enable" (CInt 0) params) = true ∧
   param "p_lim_watts" CNone params ≠ CNone).

(** C21: Whatever the device and the link do, a control the core refuses (as an
    invalid value, or as one the device does not support) has changed no setting
    of the device and raised no enable.  This covers every control method but the
    fixed power factors, which share one write, and for the watts inject limit
    every application while no generation limit has to be kept up beside it. *)
Theorem unsupported_control_changes_nothing method f params s e s' :
  core_update method = Some f → single_control method params s →
  f params s = (inl (Declared e), s') →
  ∀ p, setting p = true → reg (dev s') p = reg (dev s) p.
Proof.
  intros Hf [Hpf Hinj] Hr. change (unwritten s s'). unfold core_update in Hf.
  apply dict_get_elem in Hf.
  repeat (apply elem_of_cons in Hf as [[= -> ->]|Hf]); [..|by apply elem_of_nil in Hf]; try done.
  - by eapply clean_update_qv.
  - by eapply clean_update_pv.
  - by eapply clean_update_qp.
  - by eapply clean_update_p_lim.
  - destruct (Hinj eq_refl) as (Hg & Hon & Hw). by eapply clean_update_p_lim_inj.
  - by eapply clean_update_p_lim_abs.
  - by eapply clean_update_gen_lim.
  - by eapply clean_update_load_lim.
  - by eapply clean_update_pf.
  - by eapply clean_update_const_q.
  - by eapply clean_update_fixed_w.
  - by eapply clean_update_target_w.
  - by eapply clean_update_connect.
Qed.
End Refusals.

Lemma outcome_of {A B : Type} (r : A * B) (a : A) : r.1 = a → r = (a, r.2).
Proof. by destruct r; intros <-. Qed.

(** opModFixedW on an inverter without the WSet points is refused as unsupported. *)
Lemma unsupported_control_changes_nothing_witness :
  let r := update_fixed_w [("WSetEna", CInt 1); ("WSet", CInt 50)] core0 in
  r.1 = inl (Declared ModeNotSupportedError) ∧
  ∀ p, setting p = true → reg (dev r.2) p = reg (dev core0) p.
Proof.
  split; [vm_compute; done|]. intros p.
  apply (unsupported_control_changes_nothing "update_fixed_w" update_fixed_w
           [("WSetEna", CInt 1); ("WSet", CInt 50)] core0 ModeNotSupportedError);
    [done|by split|]. apply outcome_of. vm_compute. reflexivity.
Defined.

(** ** Where the code and its comments part *)

Definition faulty_core (d : Sim) (plan : list Fault) : Core Faulty :=
  new_core (mkFaulty d plan) cal0 false.

Definition max_lim_50 : CoreParams := [("p_lim_mode_enable", CInt 1); ("p_lim_w", CInt 50)].

(** An opModMaxLimW whose write fails is reported as failed, but stays recorded:
    an opModGenLimW that would allow the full power then puts the 50 percent on
    the device. *)
Example failed_limit_applied_later :
  let r1 := update_p_lim max_lim_50 (faulty_core inverter [FNone; FFails "timed out"]) in
  let r2 := update_gen_lim (gen_call 5000) r1.2 in
  r1.1 = inl (LibError "timed out") ∧ reg (dev r1.2) Ena = Some 0 ∧
  r2.1 = inr tt ∧ reg (dev r2.2) Ena = Some 1 ∧ reg (dev r2.2) Pct = Some 500.
Proof. vm_compute. done. Qed.

(** An inverter with a volt-var curve block of four points. *)
Definition curve_inverter : Sim :=
  sim_of [(Pt 705 "Ena", 0); (CrvPt 705 "ActPt", 4); (CrvPt 705 "DeptRef", 3)].

Definition five_points : list CoreVal := CInt <$> [90; 95; 100; 105; 110].

(** A curve with more points than the device holds is rejected only after the
    function was enabled: the enable stays up over the old curve. *)
Example curve_enabled_then_rejected :
  let r := update_qv [("qv_mode_enable", CInt 1); ("qv_curve_v_pts", CList five_points);
                      ("qv_curve_q_pts", CList five_points)] (new_core curve_inverter cal0 false) in
  r.1 = inl ConnectorWriteError ∧ reg (dev r.2) (Pt 705 "Ena") = Some 1 ∧
  reg (dev r.2) (CrvPt 705 "ActPt") = Some 4.
Proof. vm_compute. done. Qed.

(** An inverter with the reactive power setpoint of model 704. *)
Definition var_inverter : Sim :=
  sim_of [(Pt 704 "VarSetEna", 0); (Pt 704 "VarSetPct", 0); (Pt 704 "VarSetMod", 1); (Pt 704 "VarSetPri", 0)].

(** A reactive power setpoint of a reference type the device has no base for is
    said to be rejected; it returns like an applied one and changes nothing. *)
Example unmapped_ref_type_accepted :
  let r := update_const_q [("const_q_mode_enable", CInt 1); ("ref_type", CInt 1);
                           ("const_q_pct", CInt 10)] (new_core var_inverter cal0 false) in
  r.1 = inr tt ∧ reg (dev r.2) (Pt 704 "VarSetEna") = Some 0 ∧ reg (dev r.2) (Pt 704 "VarSetPct") = Some 0.
Proof. vm_compute. done. Qed.
