(* ===== verification/SunspecConvert.v ===== *)
(** * SunSpec and the IEEE 2030.5 connector contract

    connectors/sunspec/_ieee2030_5.py, which takes the Modbus core's values to
    readings, DERStatus, DERCapability and DERSettings values and each control
    element to the core's write, and [SunSpecConnector] of
    connectors/sunspec/connector.py, which puts both together. *)

From Stdlib Require Import QArith Qabs Qpower.
From S2P Require Import Prelude Controls Modes Response Scaling Mirror Dispatcher.
From S2P Require Import SunspecDevice SunspecMeter SunspecCore.
#[local] Open Scope Z_scope.

(** ** Monitoring *)

(** (uom, kind, data qualifier) of each system quantity. *)
Definition SYSTEM : dict string (Z * Z * Z) :=
  [("W", (38, 37, 12)); ("Var", (63, 37, 12)); ("Hz", (33, 37, 12)); ("V", (29, 37, 2));
   ("PF", (65, 0, 12)); ("VA", (61, 37, 12)); ("A", (5, 37, 12))].
Definition LINE_PHASE : dict Z Z := [(1, 128); (2, 64); (3, 32)].
Definition LINE_NEUTRAL_PHASE : dict Z Z := [(1, 129); (2, 65); (3, 33)].
Definition LINE_TO_LINE : dict string Z := [("VL1L2", 132); ("VL2L3", 66); ("VL3L1", 40)].
Definition AC_TYPE_LINES : dict Z Z := [(0, 1); (1, 2); (2, 3)].
Definition AC_TYPE_LINE_TO_LINE : dict Z Z := [(0, 0); (1, 1); (2, 3)].
Definition LINE_TO_LINE_PHASE : dict Z Z := [(0, 132); (1, 132); (2, 224)].
Definition TOTAL_PHASE : dict Z Z := [(0, 128); (1, 132); (2, 224)].
Definition POWER_TOTALS : list string := ["W"; "Var"; "VA"].
Definition ENERGY_FLOW : dict string Z := [("WhFwd", 1); ("WhRev", 19)].

(** [_PER_LINE_KEY]: the quantity and the line of a per-line key. *)
Definition PER_LINE : dict string (string * Z) :=
  q ← ["W"; "Var"; "V"; "PF"; "VA"; "A"];
  (λ ln : string * Z, (q +:+ "L" +:+ ln.1, (q, ln.2))) <$> [("1", 1); ("2", 2); ("3", 3)].

Definition as_int (v : CoreVal) : option Z := match v with CInt z => Some z | _ => None end.

Definition line_to_line_phase (ac_type : option Z) : option Z :=
  c ← ac_type; dict_get c LINE_TO_LINE_PHASE.
Definition total_phase (ac_type : option Z) : option Z := c ← ac_type; dict_get c TOTAL_PHASE.

(** A rational that a float can be, as the decimal [Mirror] carries: the least
    power of ten its denominator divides. *)
Fixpoint decimal_at (fuel : nat) (k p : Z) (q : Q) : Float :=
  if (p mod Zpos (Qden q) =? 0) then Fin (Qnum q * (p / Zpos (Qden q))) (- k)
  else match fuel with O => NaN | S fuel' => decimal_at fuel' (k + 1) (p * 10) q end.

Definition float_of (f : Flt) : Float :=
  match f with FFin q => decimal_at 1100 0 1 (Qred q) | FInf _ => Inf | FNaN => NaN end.

(** The wiring of a read, and what the connector was asked for. *)
Record Wiring := mkWiring { ac_type : option Z; ll_voltage : bool; phased_totals : bool }.

Definition or_0 (o : option Z) : Z := default 0 o.

(** The ReadingType of a key: uom, phase, kind, qualifier, accumulation, flow. *)
Definition key_type (c : Wiring) (key : string) : option (Z * Z * Z * Z * Z * option Z) :=
  let ac := ac_type c in
  let lines := match ac with Some t => default 1 (dict_get t AC_TYPE_LINES) | None => 1 end in
  let pairs := match ac with
               | Some t => if t =? 0 then [] else
                           take (Z.to_nat (default 0 (dict_get t AC_TYPE_LINE_TO_LINE)))
                                (dict_keys LINE_TO_LINE)
               | None => []
               end in
  let voltage_phase := if ll_voltage c then line_to_line_phase ac else None in
  let current_phase := total_phase ac in
  match dict_get key SYSTEM with
  | Some (uom, kind, dq) =>
      let phase :=
        if bool_decide (key = "V") then or_0 voltage_phase
        else if bool_decide (key = "A") || (phased_totals c && bool_decide (key ∈ POWER_TOTALS))
             then or_0 current_phase else 0 in
      Some (uom, phase, kind, dq, 12, None)
  | None =>
      match dict_get key PER_LINE with
      | Some (q, line) =>
          if (lines <? 2) || (lines <? line) then None
          else
            '(uom, kind, dq) ← dict_get q SYSTEM;
            phase ← (if bool_decide (q = "V") then dict_get line LINE_NEUTRAL_PHASE
                     else dict_get line LINE_PHASE);
            Some (uom, phase, kind, dq, 12, None)
      | None =>
          match dict_get key LINE_TO_LINE with
          | Some phase => if bool_decide (key ∈ pairs) then Some (29, phase, 37, 12, 12, None) else None
          | None =>
              if bool_decide (key = "WHAvail") then
                Some (72, if phased_totals c then or_0 current_phase else 0, 0, 12, 12, None)
              else
                flow ← dict_get key ENERGY_FLOW;
                Some (72, 0, 12, 12, 9, Some flow)
          end
      end
  end.

Definition key_reading (c : Wiring) (kv : string * CoreVal) : option Reading :=
  f ← as_flt kv.2;
  '(uom, phase, kind, dq, acc, flow) ← key_type c kv.1;
  let r := mkRead uom (float_of f) phase kind dq acc flow None None in
  if is_valid_reading r then Some r else None.

(** [readings]; [wiring] is the ACType the device last stated. *)
Definition reading_context (values : dict string CoreVal) (ll phased : bool) (wiring : option Z) : Wiring :=
  let stated := dict_get "ACType" values ≫= as_int in
  mkWiring (match stated with Some t => Some t | None => wiring end) ll phased.

Definition readings (values : dict string CoreVal) (ll phased : bool) (wiring : option Z) : list Reading :=
  omap (key_reading (reading_context values ll phased wiring)) values.

(** ** Status *)

Definition DELIVERING : list Z := [3; 4].
Definition READY : list Z := [1; 2; 3; 4].

Definition inverter_status (inv_st : CoreVal) : option Z :=
  code ← as_int inv_st; if (0 <=? code) && (code <? 8) then Some (code + 1) else None.

Definition operational_mode_status (st : CoreVal) : option Z :=
  code ← as_int st; dict_get code [(0, 1); (1, 2)].

Definition in_states (v : CoreVal) (l : list Z) : bool :=
  match as_int v with Some z => bool_decide (z ∈ l) | None => false end.

Definition connect_status (conn_st inv_st : CoreVal) : option Z :=
  connected ← as_int conn_st;
  Some (Z.lor (if connected =? 1 then 1 else 0) (if in_states inv_st DELIVERING then 2 else 0)).

Definition gen_connect_status (conn_st inv_st : CoreVal) : option Z :=
  connected ← as_int conn_st;
  Some (Z.lor (Z.lor (Z.lor (if connected =? 1 then 1 else 0) (if in_states inv_st READY then 2 else 0))
                     (if in_states inv_st DELIVERING then 4 else 0))
              (if in_states inv_st [6] then 16 else 0)).

Definition ALARM_BITS : list (Z * Z) := [(8, 3); (9, 4); (10, 1); (11, 2)].

Definition alarm_status (bits : CoreVal) : Z :=
  match as_int bits with
  | None => 0
  | Some v =>
      foldl (λ (result : Z) (sd : Z * Z),
               if Z.land v (Z.shiftl 1 sd.1) =? 0 then result else Z.lor result (Z.shiftl 1 sd.2))
        0 ALARM_BITS
  end.

(** [point(key)] of [status]: the value and the time of an entry. *)
Definition status_point (raw : dict string CoreVal) (key : string) : CoreVal * CoreVal :=
  match dict_get key raw with
  | Some (CDict entry) => (param "value" CNone entry, param "dateTime" CNone entry)
  | _ => (CNone, CNone)
  end.

Definition status_entry (reading_time : CoreVal) (result : dict string CoreVal)
    (kvw : string * (option Z * CoreVal)) : dict string CoreVal :=
  let '(key, (value, stamp)) := kvw in
  match value with
  | None => result
  | Some v =>
      let stamp := if is_none stamp then reading_time else stamp in
      dict_set key (if is_none stamp then CDict [("value", CInt v)]
                    else CDict [("dateTime", stamp); ("value", CInt v)]) result
  end.

Definition status (raw : dict string CoreVal) : dict string CoreVal :=
  match raw with
  | [] => []
  | _ =>
      let '(inv_st, stamp) := status_point raw "inverterStatus" in
      let '(conn_st, conn_stamp) := status_point raw "connectStatus" in
      let '(st, st_stamp) := status_point raw "operationalModeStatus" in
      let result := omap (λ key, (λ v, (key, v)) <$> dict_get key raw)
                         ["manufacturerStatus"; "readingTime"] in
      let result := dict_set "alarmStatus" (CInt (alarm_status (param "alarmStatus" CNone raw))) result in
      foldl (status_entry (param "readingTime" CNone raw)) result
        [("connectStatus", (connect_status conn_st inv_st, conn_stamp));
         ("genConnectStatus", (gen_connect_status conn_st inv_st, conn_stamp));
         ("inverterStatus", (inverter_status inv_st, stamp));
         ("operationalModeStatus", (operational_mode_status st, st_stamp))]
  end.

(** ** Ratings and settings *)

Definition NAMEPLATE_NAMES : dict string string :=
  [("WMaxRtg", "rtgMaxW"); ("VAMaxRtg", "rtgMaxVA"); ("VarMaxInjRtg", "rtgMaxVar");
   ("VarMaxAbsRtg", "rtgMaxVarNeg"); ("WOvrExtRtg", "rtgOverExcitedW");
   ("WOvrExtRtgPF", "rtgOverExcitedPF"); ("WUndExtRtg", "rtgUnderExcitedW");
   ("WUndExtRtgPF", "rtgUnderExcitedPF"); ("WChaRteMaxRtg", "rtgMaxChargeRateW");
   ("VAChaRteMaxRtg", "rtgMaxChargeRateVA"); ("WDisChaRteMaxRtg", "rtgMaxDischargeRateW");
   ("VNomRtg", "rtgVNom"); ("VMaxRtg", "rtgMaxV"); ("VMinRtg", "rtgMinV");
   ("ReactSusceptRtg", "rtgReactiveSusceptance"); ("NorOpCatRtg", "rtgNormalCategory");
   ("AbnOpCatRtg", "rtgAbnormalCategory"); ("CtrlModes", "modesSupported");
   ("DoeModesSupported", "doeModesSupported")].

Definition SETTING_NAMES : dict string string :=
  [("WMax", "setMaxW"); ("VAMax", "setMaxVA"); ("VarMaxInj", "setMaxVar");
   ("VarMaxAbs", "setMaxVarNeg"); ("WOvrExtPF", "setMinPFOverExcited");
   ("WUndExtPF", "setMinPFUnderExcited"); ("WChaRteMax", "setMaxChargeRateW");
   ("VAChaRteMax", "setMaxChargeRateVA"); ("WDisChaRteMax", "setMaxDischargeRateW");
   ("VNom", "setVNom"); ("VMax", "setMaxV"); ("VMin", "setMinV"); ("CtrlModes", "modesEnabled");
   ("DoeModesEnabled", "doeModesEnabled")].

Definition NEGATIVE_ELEMENTS : list string := ["rtgMaxVarNeg"; "setMaxVarNeg"].

Definition neg_abs (v : CoreVal) : CoreVal :=
  match v with
  | CInt z => CInt (- Z.abs z)
  | CFlt (FFin q) => CFlt (FFin (- Qabs q))
  | CFlt (FInf _) => CFlt (FInf true)
  | v => v
  end.

Definition negative (v : CoreVal) : CoreVal :=
  match v with
  | CDict d =>
      match dict_get "value" d with
      | Some (CInt _ as m) | Some (CFlt _ as m) => CDict (dict_set "value" (neg_abs m) d)
      | _ => CDict d
      end
  | v => neg_abs v
  end.

(** The comprehension of [_renamed]: later keys win, as in a dict display. *)
Definition renamed (values : dict string CoreVal) (names : dict string string) : dict string CoreVal :=
  foldl (λ out kv, match dict_get kv.1 names with
                   | Some n => dict_set n (if bool_decide (n ∈ NEGATIVE_ELEMENTS) then negative kv.2
                                           else kv.2) out
                   | None => out
                   end) [] values.

(** [rating] and [sf] are the raw AMaxRtg and A_SF of the read model 702. *)
Definition nameplate (values : dict string CoreVal) (rating sf : option Z) : dict string CoreVal :=
  let out := renamed values NAMEPLATE_NAMES in
  match rating, sf with
  | Some r, Some m => dict_set "rtgMaxA" (CDict [("value", CInt r); ("multiplier", CInt m)]) out
  | _, _ => out
  end.

Definition settings (values : dict string CoreVal) : dict string CoreVal := renamed values SETTING_NAMES.

(** ** Controls *)

Definition CORE_METHOD : dict string string :=
  [("opModVoltVar", "update_qv"); ("opModVoltWatt", "update_pv"); ("opModWattVar", "update_qp");
   ("opModMaxLimW", "update_p_lim"); ("opModMaxLimWInject", "update_p_lim_inj");
   ("opModMaxLimWAbsorb", "update_p_lim_abs"); ("opModFreqDroop", "update_pf");
   ("opModFixedVar", "update_const_q"); ("opModFixedPFInjectW", "update_const_pf");
   ("opModFixedPFAbsorbW", "update_const_pf"); ("opModFixedW", "update_fixed_w");
   ("opModTargetW", "update_target_w"); ("opModGenLimW", "update_gen_lim");
   ("opModLoadLimW", "update_load_lim"); ("opModConnect", "update_connect");
   ("opModEnergize", "update_connect")].

Definition DISABLE : dict string CoreParams :=
  [("update_qv", [("qv_mode_enable", CInt 0)]); ("update_pv", [("pv_mode_enable", CInt 0)]);
   ("update_qp", [("qp_mode_enable", CInt 0)]); ("update_p_lim", [("p_lim_mode_enable", CInt 0)]);
   ("update_p_lim_inj", [("p_lim_mode_enable", CInt 0)]);
   ("update_p_lim_abs", [("p_lim_mode_enable", CInt 0)]); ("update_pf", [("pf_mode_enable", CInt 0)]);
   ("update_const_q", [("const_q_mode_enable", CInt 0)]); ("update_fixed_w", [("WSetEna", CInt 0)]);
   ("update_target_w", [("mode_enable", CInt 0)]); ("update_gen_lim", [("gen_lim_mode_enable", CInt 0)]);
   ("update_load_lim", [("load_lim_mode_enable", CInt 0)])].

(** *** Plain values in arithmetic

    The numbers a control carries are integers; text where a number is expected
    is a [ValueError], anything else a [TypeError]. *)

Definition res (A : Type) : Type := SExn + A.
Definition rbind {A B} (m : res A) (f : A → res B) : res B := match m with inr a => f a | inl e => inl e end.
#[local] Notation "x <~ m ;; k" := (rbind m (λ x, k)) (at level 91, m at next level, right associativity).

Fixpoint core_of (v : Plain) : CoreVal :=
  match v with
  | PBool b => CBool b
  | PInt z => CInt z
  | PStr s => CStr s
  | PList l => CList (map core_of l)
  | PDict d => CDict (map (λ kv, (kv.1, core_of kv.2)) d)
  end.

Definition core_opt (v : option Plain) : CoreVal := from_option core_of CNone v.

Definition int_of_plain (v : Plain) : res Z :=
  match v with
  | PInt z => inr z
  | PBool b => inr (if b then 1 else 0)
  | PStr _ => inl (PyError "ValueError")
  | _ => inl (PyError "TypeError")
  end.

(** [int(value.get(key, 0) or 0)] *)
Definition int_or_0 (key : string) (d : dict string Plain) : res Z :=
  match dict_get key d with Some v => int_of_plain v | None => inr 0 end.

Definition as_map (v : option Plain) : res (dict string Plain) :=
  match v with Some (PDict d) => inr d | _ => inl (PyError "AttributeError") end.

(** [value[key]] of a mapping *)
Definition item (key : string) (d : dict string Plain) : res Plain :=
  match dict_get key d with Some v => inr v | None => inl (PyError "KeyError") end.

(** [z / n] of two integers, [0 < n]. *)
Definition true_div (z n : Z) : res CoreVal :=
  match fin (inject_Z z / inject_Z n) with
  | FFin q => inr (CFlt (FFin q))
  | _ => inl (PyError "OverflowError")
  end.

Definition div_by (n : Z) (v : Plain) : res CoreVal := z <~ int_of_plain v ;; true_div z n.

(** [float(z)] *)
Definition to_float (z : Z) : res Q :=
  match float_of_int z with Some q => inr q | None => inl (PyError "OverflowError") end.

(** [float(10 ** m)] *)
Definition power_of_ten (m : Z) : res Q := if 0 <=? m then to_float (10 ^ m) else inr (ten_to m).

(** [_scaled] *)
Definition scaled (v : option Plain) : res CoreVal :=
  match v with
  | Some (PDict d) =>
      z <~ match dict_get "value" d with Some x => int_of_plain x | None => inr 0 end ;;
      a <~ to_float z ;;
      m <~ int_or_0 "multiplier" d ;;
      b <~ power_of_ten m ;;
      inr (CFlt (fin (a * b)))
  | Some x => z <~ int_of_plain x ;; a <~ to_float z ;; inr (CFlt (FFin a))
  | None => inl (PyError "TypeError")
  end.

(** [z * (10 ** m)]: an int, or a float for a negative [m]. *)
Definition times_ten (z m : Z) : res CoreVal :=
  if 0 <=? m then inr (CInt (z * 10 ^ m))
  else a <~ to_float z ;; inr (CFlt (fin (a * ten_to m))).

Fixpoint map_res {A B} (f : A → res B) (l : list A) : res (list B) :=
  match l with [] => inr [] | x :: l' => y <~ f x ;; ys <~ map_res f l' ;; inr (y :: ys) end.

Definition curve_axis (axis : string) (mult : Z) (points : list Plain) : res (list CoreVal) :=
  map_res (λ p, d <~ as_map (Some p) ;; v <~ item axis d ;; z <~ int_of_plain v ;; times_ten z mult) points.

Definition curve_points (curve : dict string Plain) : res (list CoreVal * list CoreVal) :=
  x_mult <~ int_or_0 "xMultiplier" curve ;;
  y_mult <~ int_or_0 "yMultiplier" curve ;;
  points <~ match dict_get "CurveData" curve with
            | None => inr []
            | Some (PList l) => inr l
            | Some _ => inl (PyError "TypeError")
            end ;;
  xs <~ curve_axis "xvalue" x_mult points ;;
  ys <~ curve_axis "yvalue" y_mult points ;;
  inr (xs, ys).

Definition ramps (curve : dict string Plain) : CoreParams :=
  [("ramp_dec_tms", core_opt (dict_get "rampDecTms" curve));
   ("ramp_inc_tms", core_opt (dict_get "rampIncTms" curve));
   ("ramp_pt1_tms", core_opt (dict_get "rampPT1Tms" curve))].

Definition opt_div (n : Z) (dflt : CoreVal) (v : option Plain) : res CoreVal :=
  match v with Some x => div_by n x | None => inr dflt end.

Definition open_loop (curve : dict string Plain) : res CoreVal :=
  opt_div 100 CNone (dict_get "openLoopTms" curve).

(** [round(q, 2)] *)
Definition round2 (v : CoreVal) : CoreVal :=
  match v with
  | CFlt (FFin q) => CFlt (FFin (inject_Z (round_q (q * 100)) / 100))
  | v => v
  end.

Definition power_factor (value : dict string Plain) : res CoreParams :=
  mult <~ int_or_0 "multiplier" value ;;
  d <~ item "displacement" value ;;
  z <~ int_of_plain d ;;
  pf <~ times_ten z mult ;;
  inr [("pf", round2 pf); ("excitation", core_opt (dict_get "excitation" value)); ("mode", CInt 1)].

(** [int(value.get(key, 1))] *)
Definition int_or_1 (key : string) (d : dict string Plain) : res Z :=
  match dict_get key d with Some v => int_of_plain v | None => inr 1 end.

Definition is_true (v : option Plain) : bool := match v with Some (PBool b) => b | _ => false end.

(** The curve branch of [_core_params]. *)
Definition curve_params (method prefix : string) (value : option Plain) : res CoreParams :=
  curve <~ as_map value ;;
  xy <~ curve_points curve ;;
  olrt <~ open_loop curve ;;
  ref <~ int_or_1 "yRefType" curve ;;
  let head := [(prefix +:+ "_mode_enable", CInt 1); (prefix +:+ "_olrt", olrt)] in
  rest <~ (if bool_decide (method = "update_qv") then
             vref <~ opt_div 100 (CInt 0) (dict_get "vRef" curve) ;;
             inr [("qv_vref", vref); ("qv_pri", CInt 1);
                  ("qv_vref_auto_ena", CInt (if is_true (dict_get "autonomousVRefEnable" curve) then 1 else 0));
                  ("qv_vref_olrt", core_opt (dict_get "autonomousVRefTimeConstant" curve));
                  ("qv_deptref", CInt (ref - 1)); ("qv_curve_v_pts", CList xy.1);
                  ("qv_curve_q_pts", CList xy.2)]
           else if bool_decide (method = "update_pv") then
             inr [("pv_curve_v_pts", CList xy.1); ("pv_curve_p_pts", CList xy.2);
                  ("pv_deptref", CInt (ref - 1))]
           else
             inr [("qp_curve_p_pts", CList xy.1); ("qp_curve_q_pts", CList xy.2);
                  ("qp_deptref", CInt (ref - 1))]) ;;
  inr (head ++ rest ++ ramps curve).

Definition droop_params (value : option Plain) : res CoreParams :=
  v <~ as_map value ;;
  dbof <~ (x <~ item "dBOF" v ;; div_by 1000 x) ;;
  dbuf <~ (x <~ item "dBUF" v ;; div_by 1000 x) ;;
  kof <~ (x <~ item "kOF" v ;; div_by 1000 x) ;;
  kuf <~ (x <~ item "kUF" v ;; div_by 1000 x) ;;
  olrt <~ (x <~ item "openLoopTms" v ;; div_by 100 x) ;;
  inr [("pf_mode_enable", CInt 1); ("pf_dbof", dbof); ("pf_dbuf", dbuf); ("pf_kof", kof);
       ("pf_kuf", kuf); ("pf_olrt", olrt); ("pf_pmin", core_opt (dict_get "pMin" v))].

Definition CURVE_PREFIX : dict string string :=
  [("update_qv", "qv"); ("update_pv", "pv"); ("update_qp", "qp")].

Definition number (v : option Plain) : res Plain :=
  match v with Some x => inr x | None => inl (PyError "TypeError") end.

Definition core_params (method : string) (value : option Plain) : res CoreParams :=
  match dict_get method CURVE_PREFIX with
  | Some prefix => curve_params method prefix value
  | None =>
      if bool_decide (method = "update_p_lim") then
        pct <~ (x <~ number value ;; div_by 100 x) ;;
        inr [("p_lim_mode_enable", CInt 1); ("p_lim_w", pct)]
      else if bool_decide (method ∈ ["update_p_lim_inj"; "update_p_lim_abs"]) then
        w <~ scaled value ;; inr [("p_lim_mode_enable", CInt 1); ("p_lim_watts", w)]
      else if bool_decide (method = "update_gen_lim") then
        w <~ scaled value ;; inr [("gen_lim_mode_enable", CInt 1); ("gen_lim_w", w)]
      else if bool_decide (method = "update_load_lim") then
        w <~ scaled value ;; inr [("load_lim_mode_enable", CInt 1); ("load_lim_w", w)]
      else if bool_decide (method = "update_pf") then droop_params value
      else if bool_decide (method = "update_const_q") then
        v <~ as_map value ;;
        ref <~ int_or_1 "refType" v ;;
        pct <~ match dict_get "value" v with Some x => div_by 100 x | None => true_div 0 100 end ;;
        inr [("const_q_mode_enable", CInt 1); ("ref_type", CInt ref); ("const_q", CNone);
             ("const_q_pct", pct)]
      else if bool_decide (method = "update_fixed_w") then
        pct <~ (x <~ number value ;; div_by 100 x) ;;
        inr [("WSetEna", CInt 1); ("WSetMod", CInt 0); ("WSet", pct)]
      else if bool_decide (method = "update_target_w") then
        w <~ scaled value ;; inr [("mode_enable", CInt 1); ("watts", w)]
      else inl (PyError "KeyError")
  end.

(** *** [Controls]: the parts one write shares *)

Record Controls := mkControls {
  pf_inj : CoreParams;
  pf_abs : CoreParams;
  op_connect : bool;
  op_energize : bool;
  ramp_noted : bool;
}.

Definition PF_OFF : CoreParams := [("mode", CInt 0)].
Definition new_controls : Controls := mkControls PF_OFF PF_OFF true true false.

(** Python truth of a control's value: an empty mapping or list, zero and an
    empty text are false. *)
Definition plain_true (v : option Plain) : bool := truthy (core_opt v).

(** [translate]: the core method and its parameters, with the state it leaves;
    a raise leaves the state it had, but for the note on ramps. *)
Definition translate (element : string) (params : Params) (c : Controls)
    : res (string * CoreParams) * Controls :=
  match dict_get element CORE_METHOD with
  | None => (inl (PyError "KeyError"), c)
  | Some method =>
      let enabled := plain_true (dict_get "enabled" params) in
      let value := dict_get "value" params in
      if bool_decide (method = "update_const_pf") then
        let inject := bool_decide (element = "opModFixedPFInjectW") in
        let side := if enabled && plain_true value
                    then v <~ as_map value ;; power_factor v else inr PF_OFF in
        match side with
        | inl e => (inl e, c)
        | inr p =>
            let c' := if inject then mkControls p (pf_abs c) (op_connect c) (op_energize c) (ramp_noted c)
                      else mkControls (pf_inj c) p (op_connect c) (op_energize c) (ramp_noted c) in
            (inr (method, [("inj", CDict (pf_inj c')); ("abs", CDict (pf_abs c'))]), c')
        end
      else if bool_decide (method = "update_connect") then
        let b := if enabled then plain_true value else true in
        let c' := if bool_decide (element = "opModConnect")
                  then mkControls (pf_inj c) (pf_abs c) b (op_energize c) (ramp_noted c)
                  else mkControls (pf_inj c) (pf_abs c) (op_connect c) b (ramp_noted c) in
        (inr (method, [("connected", CBool (op_connect c' && op_energize c'))]), c')
      else if negb enabled then
        (match dict_get method DISABLE with
         | Some p => inr (method, p) | None => inl (PyError "KeyError") end, c)
      else
        let noted := ramp_noted c || bool_decide (is_Some (dict_get "rampTms" params)) in
        (p <~ core_params method value ;; inr (method, p),
         mkControls (pf_inj c) (pf_abs c) (op_connect c) (op_energize c) noted)
  end.

(** ** [SunSpecConnector] *)

Section Connector.
Context {D : Type} `{Sunspec2 D}.

Record SunSpec := mkSunSpec { ss_core : Core D; ss_controls : Controls; ss_wiring : option Z }.

#[local] Abbreviation M A := (Comp SExn SunSpec A).

(** A core operation run on the connector's core. *)
Definition on_core {A} (m : Comp SExn (Core D) A) : M A := λ s,
  let '(r, c) := m (ss_core s) in (r, mkSunSpec c (ss_controls s) (ss_wiring s)).

Definition set_controls (c : Controls) : M unit :=
  modify (λ s, mkSunSpec (ss_core s) c (ss_wiring s)).

Definition connector_monitoring (role : string) (phased : bool) : M (list Reading) :=
  values <- on_core (fetch_monitoring role) ;;
  match dict_get "ACType" values ≫= as_int with
  | Some t => modify (λ s, mkSunSpec (ss_core s) (ss_controls s) (Some t))
  | None => ret tt
  end ;;;
  get (λ s, readings values (bool_decide (role = "der")) phased (ss_wiring s)).

Definition connector_nameplate : M (dict string CoreVal) :=
  values <- on_core fetch_nameplate ;;
  get (λ s, let d := dev (ss_core s) in
            if has_model d 702 then nameplate values (value d (Pt 702 "AMaxRtg")) (value d (Pt 702 "A_SF"))
            else nameplate values None None).

Definition connector_configuration : M (dict string CoreVal) :=
  values <- on_core fetch_configuration ;; ret (settings values).

Definition connector_status : M (dict string CoreVal) :=
  raw <- on_core fetch_status ;; ret (status raw).

(** [supported_modes2], over the bits [implemented_modes2] gives. *)
Definition connector_modes2 (implemented : Z) (s : SunSpec) : Z :=
  if charge_limit_supported (dev (ss_core s)) then implemented
  else Z.ldiff implemented (Z.shiftl 1 (default 0 (dict_get "opModMaxLimWAbsorb" MODES2_BIT_OF_ELEMENT))).

(** [_apply], which the lock makes one step. *)
Definition apply_element (element : string) (params : Params) : M unit :=
  before <- get ss_controls ;;
  let '(r, after) := translate element params before in
  set_controls after ;;;
  match r with
  | inl e => raise e
  | inr (method, core_params) =>
      λ s,
        match core_update method with
        | None => (inl (PyError "AttributeError"), mkSunSpec (ss_core s) before (ss_wiring s))
        | Some f =>
            match on_core (f core_params) s with
            | (inr _, s') => (inr tt, s')
            | (inl e, s') => (inl e, mkSunSpec (ss_core s') before (ss_wiring s'))
            end
        end
  end.

(** The methods set on the class: one for each element the core has a write for. *)
Definition connector_elements : list ControlElement :=
  filter (λ e, is_Some (dict_get (element e) CORE_METHOD)) ALL_ELEMENTS.
End Connector.
Arguments SunSpec D : clear implicits.
