(* ===== verification/SunspecConvertProps.v ===== *)
(** * Properties of the SunSpec conversions, the connector and the meters

    - the readings of one monitoring read are valid and tell themselves apart;
    - every element the connector implements reaches a core method, withdrawn or
      applied; the parts that share a write hold what was last accepted; an
      envelope limit reaches the core as exactly the watts sent;
    - the alarm bits of DERStatus;
    - a meter's power sign is the first one two successive observations agree on. *)

From Stdlib Require Import QArith Qabs Qpower.
From S2P Require Import Prelude Controls Modes Response Scaling Mirror Dispatcher.
From S2P Require Import SunspecDevice SunspecMeter SunspecCore SunspecLaws SunspecLimits.
From S2P Require Import SunspecConvert.
#[local] Open Scope Z_scope.

(** ** Readings *)

Lemma dict_get_key {V} (k : string) (v : V) (d : dict string V) : dict_get k d = Some v → k ∈ dict_keys d.
Proof. intros E%dict_get_elem. apply list_elem_of_fmap. by exists (k, v). Qed.

Definition READING_KEYS : list string :=
  dict_keys SYSTEM ++ dict_keys PER_LINE ++ dict_keys LINE_TO_LINE ++ ["WHAvail"] ++ dict_keys ENERGY_FLOW.

Lemma key_type_known c k t : key_type c k = Some t → k ∈ READING_KEYS.
Proof.
  unfold key_type, READING_KEYS. rewrite !elem_of_app.
  destruct (dict_get k SYSTEM) eqn:E1; [intros _; left; eapply dict_get_key; eauto|].
  destruct (dict_get k PER_LINE) eqn:E2; [intros _; right; left; eapply dict_get_key; eauto|].
  destruct (dict_get k LINE_TO_LINE) eqn:E3; [intros _; do 2 right; left; eapply dict_get_key; eauto|].
  case_bool_decide as E4; [subst; intros _; do 3 right; left; by left|].
  destruct (dict_get k ENERGY_FLOW) eqn:E5; [|done]. intros _. do 4 right. eapply dict_get_key; eauto.
Qed.

(** The ACTypes that matter. *)
Definition AC_TYPES : list (option Z) := [None; Some 0; Some 1; Some 2].

Definition normal_ac (a : option Z) : option Z := if decide (a ∈ AC_TYPES) then a else None.

Lemma normal_ac_elem a : normal_ac a ∈ AC_TYPES.
Proof. unfold normal_ac. case_decide; [done|by left]. Qed.

Lemma key_type_normal (c : Wiring) k :
  key_type c k = key_type (mkWiring (normal_ac (ac_type c)) (ll_voltage c) (phased_totals c)) k.
Proof.
  destruct c as [a ll ph]; cbn. unfold normal_ac. case_decide as Ha; [done|].
  destruct a as [t|]; [|destruct Ha; by left].
  assert (t ≠ 0 ∧ t ≠ 1 ∧ t ≠ 2) as (H0 & H1 & H2)
    by (repeat split; intros ->; apply Ha; apply (bool_decide_unpack _); vm_compute; exact I).
  assert (∀ {V} (x y z : V), dict_get t [(0, x); (1, y); (2, z)] = None) as Hn.
  { intros V x y z. unfold dict_get. by rewrite !decide_False. }
  unfold key_type, line_to_line_phase, total_phase. cbn [ac_type ll_voltage phased_totals mbind option_bind].
  unfold AC_TYPE_LINES, AC_TYPE_LINE_TO_LINE, LINE_TO_LINE_PHASE, TOTAL_PHASE. rewrite !Hn.
  rewrite (proj2 (Z.eqb_neq t 0)) by done. done.
Qed.

Definition same_type (c : Wiring) (k k' : string) : bool :=
  match key_type c k, key_type c k' with
  | Some t, Some t' => bool_decide (t = t')
  | _, _ => false
  end.

(** Two keys never share a ReadingType: checked for each wiring over all keys. *)
Lemma key_type_inj c k k' t : key_type c k = Some t → key_type c k' = Some t → k = k'.
Proof.
  assert (forallb (λ a, forallb (λ ll, forallb (λ ph, forallb (λ k, forallb (λ k',
            implb (same_type (mkWiring a ll ph) k k') (bool_decide (k = k')))
            READING_KEYS) READING_KEYS) [true; false]) [true; false]) AC_TYPES = true) as Hall
    by (vm_compute; reflexivity).
  intros Hk Hk'. pose proof (key_type_known _ _ _ Hk) as Hin. pose proof (key_type_known _ _ _ Hk') as Hin'.
  rewrite key_type_normal in Hk, Hk'. pose proof (normal_ac_elem (ac_type c)) as Ha.
  rewrite forallb_forall in Hall. setoid_rewrite <- list_elem_of_In in Hall.
  specialize (Hall _ Ha). rewrite forallb_forall in Hall.
  specialize (Hall (ll_voltage c) ltac:(destruct (ll_voltage c); cbn; auto)).
  rewrite forallb_forall in Hall.
  specialize (Hall (phased_totals c) ltac:(destruct (phased_totals c); cbn; auto)).
  rewrite forallb_forall in Hall. specialize (Hall k ltac:(by apply list_elem_of_In)).
  rewrite forallb_forall in Hall. specialize (Hall k' ltac:(by apply list_elem_of_In)).
  unfold same_type in Hall. rewrite Hk, Hk', bool_decide_true in Hall by done. cbn in Hall.
  by apply bool_decide_eq_true in Hall.
Qed.

Definition type_of (r : Reading) : Z * Z * Z * Z * Z * option Z :=
  (rd_uom r, rd_phase r, rd_kind r, rd_qualifier r, rd_accumulation r, rd_flow r).

Lemma key_reading_Some c kv r :
  key_reading c kv = Some r →
  key_type c kv.1 = Some (type_of r) ∧ is_valid_reading r = true ∧ rd_multiplier r = None.
Proof.
  unfold key_reading. destruct (as_flt kv.2) as [f|]; cbn; [|done].
  destruct (key_type c kv.1) as [[[[[[u ph] ki] dq] ac] fl]|]; cbn; [|done].
  destruct (is_valid_reading _) eqn:E; [|done]. intros [= <-]. done.
Qed.

Lemma readings_of_keys c (values : dict string CoreVal) r :
  r ∈ omap (key_reading c) values → ∃ k, k ∈ dict_keys values ∧ key_type c k = Some (type_of r).
Proof.
  intros (kv & Hin & E)%list_elem_of_omap. exists kv.1. split; [|by apply key_reading_Some in E as []].
  apply list_elem_of_fmap. by exists kv.
Qed.

Lemma readings_distinct (values : dict string CoreVal) ll phased wiring :
  dict_wf values →
  NoDup ((λ r, reading_identity r DEFAULT_MULTIPLIER) <$> readings values ll phased wiring) ∧
  Forall (λ r, is_valid_reading r = true) (readings values ll phased wiring).
Proof.
  intros Hwf. unfold readings. set (c := reading_context _ _ _ _). clearbody c. unfold dict_wf in Hwf. split.
  - induction values as [|kv values IH]; cbn; [constructor|].
    apply NoDup_cons in Hwf as [Hk Hwf]. specialize (IH Hwf).
    destruct (key_reading c kv) as [r|] eqn:E; [|done]. cbn. constructor; [|done].
    intros (r' & Hid & Hr')%list_elem_of_fmap. apply Hk.
    destruct (readings_of_keys _ _ _ Hr') as (k & Hkin & Hkt).
    apply key_reading_Some in E as (Ht & _ & _).
    assert (type_of r = type_of r') as Htt by (unfold reading_identity in Hid; unfold type_of; congruence).
    rewrite Htt in Ht. by rewrite (key_type_inj _ _ _ _ Ht Hkt).
  - apply Forall_forall. intros r (kv & _ & E)%list_elem_of_omap. by apply key_reading_Some in E as (_ & ? & _).
Qed.

(** *** What the core hands over is a dict *)

Lemma update_with_wf new out : dict_wf out → dict_wf (update_with new out).
Proof.
  unfold update_with. revert out. induction new as [|kv new IH]; intros out Hw; cbn; [done|].
  apply IH. by apply dict_set_wf.
Qed.

Lemma add_if_any_wf out block : dict_wf out → dict_wf (add_if_any out block).
Proof. intros Hw. unfold add_if_any. destruct (existsb _ _); [by apply update_with_wf|done]. Qed.

Lemma add_if_some_wf out kv : dict_wf out → dict_wf (add_if_some out kv).
Proof. intros Hw. unfold add_if_some. destruct (is_none _); [done|by apply dict_set_wf]. Qed.

Lemma foldl_wf {A} (f : dict string CoreVal → A → dict string CoreVal) (l : list A) out :
  (∀ out a, dict_wf out → dict_wf (f out a)) → dict_wf out → dict_wf (foldl f out l).
Proof. intros Hf. revert out. induction l; intros out Hw; cbn; auto. Qed.

Lemma keys_wf (d : dict string CoreVal) : bool_decide (NoDup (dict_keys d)) = true → dict_wf d.
Proof. by intros H%bool_decide_eq_true. Qed.

Section Monitoring.
Context {D : Type} `{Sunspec2 D}.

Lemma system_wf (a b c d e f g : CoreVal) :
  dict_wf [("W", a); ("Var", b); ("Hz", c); ("V", d); ("PF", e); ("VA", f); ("A", g)].
Proof. apply keys_wf. vm_compute. done. Qed.

Lemma monitoring_701_wf (d : D) : dict_wf (monitoring_701 d).
Proof.
  unfold monitoring_701. apply foldl_wf; [apply add_if_some_wf|]. apply foldl_wf; [apply add_if_any_wf|].
  destruct (value d _); [apply dict_set_wf|]; apply system_wf.
Qed.

Lemma read_meter_wf (d : D) m role c : dict_wf (read_meter d m role c).1.
Proof.
  unfold read_meter. destruct (if bool_decide _ then _ else _) as [fw rv]. cbn [fst].
  apply foldl_wf; [apply add_if_some_wf|]. apply update_with_wf.
  destruct (dict_get m METER_AC_TYPE); [apply dict_set_wf|]; apply system_wf.
Qed.

Lemma fetch_monitoring_wf role (s s' : Core D) v :
  fetch_monitoring role s = (inr v, s') → dict_wf v.
Proof.
  unfold fetch_monitoring, or_default. intros ([m|] & s1 & _ & Hr)%bind_inr.
  - apply bind_inr in Hr as (r & s2 & _ & Hr). destruct r as [[]|[]]; try done.
    + injection Hr as <- _. apply system_wf.
    + apply bind_inr in Hr as (x & s3 & Hx & Hr). apply bind_inr in Hr as ([] & s4 & _ & Hr).
      injection Hr as <- _. injection Hx as <- _. apply read_meter_wf.
  - apply bind_inr in Hr as (r & s2 & _ & Hr). destruct r as [[]|[]]; try done.
    + injection Hr as <- _. apply system_wf.
    + apply bind_inr in Hr as (x & s3 & Hx & Hr). injection Hx as <- _. unfold add_storage in Hr.
      apply bind_inr in Hr as (due & s4 & _ & Hr). destruct due; cbn [negb] in Hr.
      * apply bind_inr in Hr as (r & s5 & _ & Hr). destruct r as [[]|[]]; try done.
        -- apply bind_inr in Hr as ([] & s6 & _ & Hr). injection Hr as <- _. apply monitoring_701_wf.
        -- injection Hr as <- _. apply add_if_some_wf, monitoring_701_wf.
      * injection Hr as <- _. apply monitoring_701_wf.
Qed.

(** C23: The readings of one monitoring read of a SunSpec device (an inverter or a
    meter, of any wiring, reading profile and register contents) are all valid and
    no two of them have the same reading identity, so the telemetry manager, which
    drops a second reading of an identity, posts every one of them under an mRID
    of its own. *)
Theorem monitoring_readings_distinct role phased (s s' : SunSpec D) rs :
  connector_monitoring role phased s = (inr rs, s') →
  NoDup ((λ r, reading_identity r DEFAULT_MULTIPLIER) <$> rs) ∧
  Forall (λ r, is_valid_reading r = true) rs.
Proof.
  intros (v & s1 & Hv & Hr)%bind_inr. apply bind_inr in Hr as ([] & s2 & _ & Hr).
  injection Hr as <- _. apply readings_distinct. unfold on_core in Hv.
  destruct (fetch_monitoring role (ss_core s)) as [[e|v'] c] eqn:E; [done|].
  injection Hv as <- _. by eapply fetch_monitoring_wf.
Qed.
End Monitoring.

(** ** Elements and the core's methods *)

Section Elements.
Context {D : Type} `{Sunspec2 D}.

Lemma core_method_exists element method :
  dict_get element CORE_METHOD = Some method → is_Some (core_update (D := D) method).
Proof.
  assert (Forall (λ em : string * string, is_Some (core_update (D := D) em.2)) CORE_METHOD) as Hall.
  { repeat constructor; cbn; eauto. }
  rewrite Forall_forall in Hall. intros E%dict_get_elem. by apply (Hall (element, method)).
Qed.

Lemma disable_exists element method :
  dict_get element CORE_METHOD = Some method →
  method ≠ "update_const_pf" → method ≠ "update_connect" → is_Some (dict_get method DISABLE).
Proof.
  assert (Forall (λ em : string * string, em.2 ≠ "update_const_pf" → em.2 ≠ "update_connect" →
            is_Some (dict_get em.2 DISABLE)) CORE_METHOD) as Hall
    by (apply (bool_decide_unpack _); vm_compute; exact I).
  rewrite Forall_forall in Hall. intros E%dict_get_elem. by apply (Hall (element, method)).
Qed.

(** Dispatch and the SunSpec connector agree on the elements: those the
    connector has a method for are control or envelope elements; a withdrawal (enabled false) of any of
    them always translates, whatever the state and the other parameters, and
    whatever an element's call translates to is a method the core has. *)
Theorem elements_reach_core (e : ControlElement) (params : Params) (c : Controls) :
  e ∈ connector_elements →
  e ∈ CONTROL_ELEMENTS ++ DOE_ELEMENTS ∧
  (plain_true (dict_get "enabled" params) = false →
   ∃ method p, (translate (element e) params c).1 = inr (method, p)) ∧
  (∀ method p, (translate (element e) params c).1 = inr (method, p) →
     dict_get (element e) CORE_METHOD = Some method ∧ is_Some (core_update (D := D) method)).
Proof.
  assert (Forall (λ e, dict_get (element e) CORE_METHOD = None) DEFAULT_CONTROL_ELEMENTS) as Hall
    by (apply (bool_decide_unpack _); vm_compute; exact I).
  rewrite Forall_forall in Hall. intros [[method Hm] He]%list_elem_of_filter. split.
  { unfold ALL_ELEMENTS in He. apply elem_of_app. rewrite !elem_of_app in He.
    destruct He as [Hc|[Hd|Hd]]; [by left|by right|]. by rewrite (Hall _ Hd) in Hm. }
  unfold translate. rewrite Hm. split.
  - intros Hoff. rewrite Hoff. cbn [andb]. case_bool_decide as E1; [by eexists _, _|].
    case_bool_decide as E2; [by eexists _, _|]. cbn [negb].
    destruct (disable_exists _ _ Hm E1 E2) as [p ->]. by eexists _, _.
  - intros m p Hr. assert (m = method) as ->; [|split; [done|by eapply core_method_exists]].
    revert Hr. case_bool_decide; [|case_bool_decide].
    + destruct (if _ && _ then _ else _); cbn; [done|by intros [= <- _]].
    + by intros [= <- _].
    + destruct (negb _); cbn.
      * destruct (dict_get method DISABLE); [by intros [= <- _]|done].
      * destruct (core_params method _); cbn; [done|by intros [= <- _]].
Qed.

(** *** The parts that share a write *)

(** What an accepted call of an element asks of its part. *)
Definition pf_part (call : option Params) : CoreParams :=
  match call with
  | None => PF_OFF
  | Some params =>
      let value := dict_get "value" params in
      if plain_true (dict_get "enabled" params) && plain_true value then
        match rbind (as_map value) power_factor with inr p => p | inl _ => PF_OFF end
      else PF_OFF
  end.

Definition connect_part (call : option Params) : bool :=
  match call with
  | None => true
  | Some params =>
      if plain_true (dict_get "enabled" params) then plain_true (dict_get "value" params) else true
  end.

(** The calls made so far that were accepted, and the last one of an element. *)
Definition last_call (element : string) (accepted : list (string * Params)) : option Params :=
  foldl (λ found call, if decide (call.1 = element) then Some call.2 else found) None accepted.

Definition call_element (sa : SunSpec D * list (string * Params)) (call : string * Params)
    : SunSpec D * list (string * Params) :=
  let '(r, s') := apply_element call.1 call.2 sa.1 in
  (s', match r with inr _ => sa.2 ++ [call] | inl _ => sa.2 end).

Record parts_agree (c : Controls) (accepted : list (string * Params)) : Prop := {
  agree_inj : pf_inj c = pf_part (last_call "opModFixedPFInjectW" accepted);
  agree_abs : pf_abs c = pf_part (last_call "opModFixedPFAbsorbW" accepted);
  agree_connect : op_connect c = connect_part (last_call "opModConnect" accepted);
  agree_energize : op_energize c = connect_part (last_call "opModEnergize" accepted);
}.

Lemma last_call_snoc element accepted call :
  last_call element (accepted ++ [call]) =
  if decide (call.1 = element) then Some call.2 else last_call element accepted.
Proof. unfold last_call. by rewrite foldl_app. Qed.

(** Translation updates the part of its element only; the other parts stay. *)
Lemma translate_parts element params c r c' accepted :
  translate element params c = (inr r, c') → parts_agree c accepted →
  parts_agree c' (accepted ++ [(element, params)]).
Proof.
  unfold translate. destruct (dict_get element CORE_METHOD) as [method|] eqn:Hm; [|done].
  assert (method = "update_const_pf" ↔ element ∈ ["opModFixedPFInjectW"; "opModFixedPFAbsorbW"]) as Hpf.
  { assert (Forall (λ em : string * string, em.2 = "update_const_pf" ↔
              em.1 ∈ ["opModFixedPFInjectW"; "opModFixedPFAbsorbW"]) CORE_METHOD) as Hall
      by (apply (bool_decide_unpack _); vm_compute; exact I).
    rewrite Forall_forall in Hall. apply (Hall (element, method)). by apply dict_get_elem. }
  assert (method = "update_connect" ↔ element ∈ ["opModConnect"; "opModEnergize"]) as Hco.
  { assert (Forall (λ em : string * string, em.2 = "update_connect" ↔
              em.1 ∈ ["opModConnect"; "opModEnergize"]) CORE_METHOD) as Hall
      by (apply (bool_decide_unpack _); vm_compute; exact I).
    rewrite Forall_forall in Hall. apply (Hall (element, method)). by apply dict_get_elem. }
  rewrite !elem_of_cons, elem_of_nil in Hpf, Hco.
  case_bool_decide as E1; [|case_bool_decide as E2].
  - destruct (if _ && _ then _ else _) as [e|p] eqn:Ep; [done|]. intros [= _ <-] [].
    assert (pf_part (Some params) = p) as Hp.
    { unfold pf_part. destruct (_ && _); [|by injection Ep]. unfold rbind in Ep.
      destruct (as_map _); [done|]. cbn [rbind]. by rewrite Ep. }
    destruct (proj1 Hpf E1) as [->|[->|[]]]; constructor; rewrite last_call_snoc; cbn; done.
  - intros [= _ <-] []. destruct (proj1 Hco E2) as [->|[->|[]]]; constructor; rewrite last_call_snoc; cbn; done.
  - assert (∀ e', e' ∈ ["opModFixedPFInjectW"; "opModFixedPFAbsorbW"; "opModConnect"; "opModEnergize"] →
              element ≠ e') as Hne.
    { intros e' He ->. rewrite !elem_of_cons, elem_of_nil in He. naive_solver. }
    intros Hr [A1 A2 A3 A4].
    assert (pf_inj c' = pf_inj c ∧ pf_abs c' = pf_abs c ∧ op_connect c' = op_connect c ∧
            op_energize c' = op_energize c) as (K1 & K2 & K3 & K4).
    { destruct (negb _); injection Hr as _ <-; done. }
    constructor; rewrite last_call_snoc; cbn [fst];
      rewrite decide_False by (apply Hne; apply (bool_decide_unpack _); vm_compute; exact I); congruence.
Qed.

Lemma translate_keeps_parts element params c e c' accepted :
  translate element params c = (inl e, c') → parts_agree c accepted → parts_agree c' accepted.
Proof.
  unfold translate. destruct (dict_get element CORE_METHOD) as [method|]; [|by intros [= _ <-]].
  case_bool_decide; [|case_bool_decide; [done|]].
  - destruct (if _ && _ then _ else _); [by intros [= _ <-]|done].
  - destruct (negb _); [by intros [= _ <-]|]. intros [= _ <-] []. by constructor.
Qed.

Lemma apply_element_parts el params (s : SunSpec D) acc :
  parts_agree (ss_controls s) acc →
  let '(r, s') := apply_element el params s in
  parts_agree (ss_controls s') (match r with inr _ => acc ++ [(el, params)] | inl _ => acc end).
Proof.
  intros Ha. unfold apply_element, bind at 1, get.
  destruct (translate el params (ss_controls s)) as [[e|[method p]] c'] eqn:Et.
  - cbn. by eapply translate_keeps_parts.
  - unfold bind, set_controls, modify. destruct (core_update method) as [f|]; [|done].
    unfold on_core. destruct (f p _) as [[e|[]] core]; cbn; [done|by eapply translate_parts].
Qed.

Lemma call_element_agrees sa call :
  parts_agree (ss_controls sa.1) sa.2 →
  parts_agree (ss_controls (call_element sa call).1) (call_element sa call).2.
Proof.
  intros Ha. pose proof (apply_element_parts call.1 call.2 sa.1 sa.2 Ha) as Hp.
  unfold call_element. destruct (apply_element call.1 call.2 sa.1) as [r s'].
  rewrite <- surjective_pairing in Hp. done.
Qed.

(** The two fixed power factors share one write and so do opModConnect and
    opModEnergize.  Whatever calls are made (of any element, with any parameters)
    and whatever the device and the link do, each of the four parts is at all
    times what the last accepted call of its own element asked for (off, or
    connected, before the first): a call that fails or is refused changes no
    part, and no element's call changes another's part. *)
Theorem shared_parts_last_accepted (calls : list (string * Params)) (core : Core D) wiring :
  let '(s, accepted) := foldl call_element (mkSunSpec core new_controls wiring, []) calls in
  parts_agree (ss_controls s) accepted.
Proof.
  assert (∀ sa, parts_agree (ss_controls sa.1) sa.2 →
            parts_agree (ss_controls (foldl call_element sa calls).1) (foldl call_element sa calls).2) as Hrun.
  { induction calls as [|call calls IH]; intros sa Ha; cbn; [done|]. by apply IH, call_element_agrees. }
  specialize (Hrun (mkSunSpec core new_controls wiring, []) ltac:(by constructor)).
  by destruct (foldl call_element _ calls).
Qed.
End Elements.

(** ** Envelope limits, end to end *)

(** The watts of a [{value, multiplier}] quantity a float can hold. *)
Definition quantity (v m : Z) : Q := (inject_Z v * ten_to m)%Q.

Definition representable (v m : Z) : Prop :=
  0 <= v < FLOAT_LIMIT ∧ m <= 300 ∧ (quantity v m < inject_Z FLOAT_LIMIT)%Q.

Lemma ten_to_pos m : (0 < ten_to m)%Q.
Proof. by apply Qpower_0_lt. Qed.

Lemma to_float_small z : 0 <= z < FLOAT_LIMIT → to_float z = inr (inject_Z z).
Proof. intros Hz. unfold to_float, float_of_int. rewrite (proj2 (Z.ltb_lt _ _)) by lia. done. Qed.

Lemma power_of_ten_small m : m <= 300 → ∃ q, power_of_ten m = inr q ∧ (q == ten_to m)%Q.
Proof.
  intros Hm. unfold power_of_ten. destruct (0 <=? m) eqn:E; [|by exists (ten_to m)].
  apply Z.leb_le in E.
  exists (inject_Z (10 ^ m)). split; [|unfold ten_to; by apply Zpower_Qpower].
  apply to_float_small. split; [by apply Z.pow_nonneg|].
  apply Z.le_lt_trans with (10 ^ 300); [by apply Z.pow_le_mono_r|]. vm_compute. done.
Qed.

Lemma fin_small q : (0 <= q)%Q → (q < inject_Z FLOAT_LIMIT)%Q → fin q = FFin q.
Proof.
  intros H0 H1. unfold fin. destruct (Qle_bool (inject_Z FLOAT_LIMIT) q) eqn:E1.
  { apply Qle_bool_iff in E1. by apply Qle_not_lt in E1. }
  destruct (Qle_bool q (inject_Z (- FLOAT_LIMIT))) eqn:E2; [|done].
  apply Qle_bool_iff in E2. exfalso. assert (0 <= inject_Z (- FLOAT_LIMIT))%Q as E3 by (by eapply Qle_trans).
  apply E3. vm_compute. done.
Qed.

Lemma scaled_quantity v m :
  representable v m →
  ∃ w, scaled (Some (PDict [("value", PInt v); ("multiplier", PInt m)])) = inr (CFlt (FFin w)) ∧
       (w == quantity v m)%Q ∧ (0 <= w)%Q.
Proof.
  intros (Hv & Hm & Hq). destruct (power_of_ten_small m Hm) as (q & Eq & Hten).
  assert (inject_Z v * q == quantity v m)%Q as Hw by (unfold quantity; by rewrite Hten).
  assert (0 <= inject_Z v * q)%Q as H0.
  { rewrite Hten. apply Qmult_le_0_compat; [|apply Qlt_le_weak, ten_to_pos].
    change 0%Q with (inject_Z 0). rewrite <- Zle_Qle. lia. }
  exists (inject_Z v * q)%Q. split; [|done].
  change (rbind (to_float v) (λ a, rbind (power_of_ten m) (λ b, inr (CFlt (fin (a * b))))) = inr (CFlt (FFin (inject_Z v * q)%Q))).
  rewrite to_float_small by done.
  cbn [rbind]. rewrite Eq. cbn [rbind]. rewrite fin_small; [done..|]. by rewrite Hw.
Qed.

Lemma translate_gen p val w c :
  dict_get "enabled" p = Some (PBool true) → dict_get "value" p = Some val → scaled (Some val) = inr w →
  (translate "opModGenLimW" p c).1 =
  inr ("update_gen_lim", [("gen_lim_mode_enable", CInt 1); ("gen_lim_w", w)]).
Proof.
  intros Hen Hval Hw. unfold translate.
  change (dict_get "opModGenLimW" CORE_METHOD) with (Some "update_gen_lim"). cbv iota beta.
  rewrite Hen, Hval. rewrite !bool_decide_false by done. cbn [plain_true core_opt from_option core_of truthy negb fst].
  change (core_params "update_gen_lim" (Some val)) with
    (rbind (scaled (Some val)) (λ w, inr [("gen_lim_mode_enable", CInt 1); ("gen_lim_w", w)]) : res CoreParams).
  by rewrite Hw.
Qed.

Lemma translate_load p val w c :
  dict_get "enabled" p = Some (PBool true) → dict_get "value" p = Some val → scaled (Some val) = inr w →
  (translate "opModLoadLimW" p c).1 =
  inr ("update_load_lim", [("load_lim_mode_enable", CInt 1); ("load_lim_w", w)]).
Proof.
  intros Hen Hval Hw. unfold translate.
  change (dict_get "opModLoadLimW" CORE_METHOD) with (Some "update_load_lim"). cbv iota beta.
  rewrite Hen, Hval. rewrite !bool_decide_false by done. cbn [plain_true core_opt from_option core_of truthy negb fst].
  change (core_params "update_load_lim" (Some val)) with
    (rbind (scaled (Some val)) (λ w, inr [("load_lim_mode_enable", CInt 1); ("load_lim_w", w)]) : res CoreParams).
  by rewrite Hw.
Qed.

(** An envelope limit reaches the device core as the watts the server sent:
    for opModGenLimW and opModLoadLimW of value [v] and multiplier [m] in a
    control, the parameters dispatch derives translate to an enabling call of the
    core's limit whose validated watts are [v * 10^m], with or without a ramp
    time beside it. *)
Theorem envelope_limit_watts `{Binding} (base : DercontrolBase) curves (e : ControlElement) v m c :
  e ∈ [elem_limit "opModGenLimW"; elem_limit "opModLoadLimW"] →
  dict_get (element e) (doe_limits base) = Some (v, m) → representable v m →
  let prefix := if bool_decide (element e = "opModGenLimW") then "gen" else "load" in
  ∃ p cp w,
    dict_get (Modes.method e) (translate_controls base curves) = Some p ∧
    (translate (element e) p c).1 = inr ("update_" +:+ prefix +:+ "_lim", cp) ∧
    is_one (param (prefix +:+ "_lim_mode_enable") (CInt 0) cp) = true ∧
    require_watts (param (prefix +:+ "_lim_w") CNone cp) = inr w ∧ (w == quantity v m)%Q.
Proof.
  intros He Hd Hr. destruct (scaled_quantity v m Hr) as (w & Ew & Hw & H0).
  set (val := PDict [("value", PInt v); ("multiplier", PInt m)]) in *.
  assert (∃ p, dict_get (Modes.method e) (translate_controls base curves) = Some p ∧
               dict_get "enabled" p = Some (PBool true) ∧ dict_get "value" p = Some val) as (p & Hp & Hen & Hval).
  { rewrite translate_controls_lookup.
    - unfold element_params. replace (ce_kind e) with DOE_LIMIT
        by (rewrite !elem_of_cons, elem_of_nil in He; by destruct He as [->|[->|[]]]).
      rewrite Hd. cbn. eexists. split; [done|]. unfold add_ramp.
      destruct (dict_get "ramp_tms" _); [|done]. match goal with |- context [params_enabled ?x] => change (params_enabled x) with true end. cbv iota. by rewrite !dict_get_set_ne.
    - apply elem_of_app. right. rewrite !elem_of_cons, elem_of_nil in He. destruct He as [->|[->|[]]];
        unfold DOE_ELEMENTS; set_solver. }
  assert (require_watts (CFlt (FFin w)) = inr w) as Hreq
    by (unfold require_watts; cbn; by rewrite (proj2 (Qle_bool_iff _ _) H0)).
  rewrite !elem_of_cons, elem_of_nil in He. destruct He as [->|[->|[]]]; cbn [element elem_limit] in *.
  - exists p, [("gen_lim_mode_enable", CInt 1); ("gen_lim_w", CFlt (FFin w))], w.
    split; [done|]. split; [by apply (translate_gen p val)|]. done.
  - exists p, [("load_lim_mode_enable", CInt 1); ("load_lim_w", CFlt (FFin w))], w.
    split; [done|]. split; [by apply (translate_load p val)|]. done.
Qed.

(** ** Alarms *)

Lemma land_bit v s : 0 <= s → (Z.land v (Z.shiftl 1 s) =? 0) = negb (Z.testbit v s).
Proof.
  intros Hs. rewrite Z.shiftl_1_l. destruct (Z.testbit v s) eqn:E; cbn.
  - apply Z.eqb_neq. intros E0. assert (Z.testbit (Z.land v (2 ^ s)) s = false) as E1 by (by rewrite E0, Z.bits_0).
    rewrite Z.land_spec, E, Z.pow2_bits_true in E1 by done. done.
  - apply Z.eqb_eq. apply Z.bits_inj'. intros n Hn. rewrite Z.land_spec, Z.bits_0, Z.pow2_bits_eqb by done.
    destruct (Z.eqb_spec s n) as [->|]; [by rewrite E|by rewrite andb_false_r].
Qed.

(** The alarmStatus of DERStatus carries bit [b] exactly when the inverter
    raises the SunSpec alarm that means the same (over and under frequency, over
    and under voltage); no other alarm of the device sets any bit, and an
    unreadable alarm field sets none. *)
Theorem alarm_status_bits (v b : Z) :
  0 <= b →
  Z.testbit (alarm_status (CInt v)) b =
  existsb (λ sd : Z * Z, (sd.2 =? b) && Z.testbit v sd.1) ALARM_BITS.
Proof.
  intros Hb. unfold alarm_status, ALARM_BITS. cbn [as_int foldl existsb fst snd].
  rewrite !land_bit by done.
  assert (∀ r d x, 0 <= d → Z.testbit (if negb x then r else Z.lor r (Z.shiftl 1 d)) b =
                            Z.testbit r b || ((d =? b) && x)) as Hstep.
  { intros r d x Hd. destruct x; cbn [negb]; [|by rewrite andb_false_r, orb_false_r].
    rewrite Z.lor_spec, Z.shiftl_1_l, Z.pow2_bits_eqb by done. by rewrite andb_true_r. }
  rewrite !Hstep by done. rewrite Z.bits_0. rewrite orb_false_l, orb_false_r, <- !orb_assoc. done.
Qed.

(** ** The power sign of a meter *)

(** The signs the observations show, in order: those of a reading whose energy
    totals moved in one direction since the reading before it. *)
Fixpoint shown (totals : option (Flt * Flt)) (obs : list (CoreVal * CoreVal * CoreVal)) : list Z :=
  match obs with
  | [] => []
  | (w, i, e) :: obs' =>
      let '(ev, c) := evidence w i e (mkCal None None 0 0 false totals) in
      match ev with Some s => s :: shown (cal_totals c) obs' | None => shown (cal_totals c) obs' end
  end.

(** The first sign that repeats the one shown before it. *)
Fixpoint first_repeat (previous : option Z) (signs : list Z) : option Z :=
  match signs with
  | [] => None
  | s :: signs' => if decide (previous = Some s) then Some s else first_repeat (Some s) signs'
  end.

Definition observe_all (obs : list (CoreVal * CoreVal * CoreVal)) (c : Calibrator) : Calibrator :=
  foldl (λ c o, observe_meter o.1.1 o.1.2 o.2 c) c obs.

Lemma evidence_totals w i e c :
  (evidence w i e c).1 = (evidence w i e (mkCal None None 0 0 false (cal_totals c))).1 ∧
  cal_totals (evidence w i e c).2 = cal_totals (evidence w i e (mkCal None None 0 0 false (cal_totals c))).2 ∧
  cal_sign (evidence w i e c).2 = cal_sign c ∧ cal_candidate (evidence w i e c).2 = cal_candidate c ∧
  cal_agreements (evidence w i e c).2 = cal_agreements c.
Proof.
  unfold evidence. cbn [cal_totals].
  destruct (as_flt i), (as_flt e); cbn; try done. destruct (cal_totals c) as [[? ?]|], (as_flt w); cbn; try done.
  by repeat (case_match; cbn).
Qed.

Lemma observe_sign_kept w i e c s : cal_sign c = Some s → cal_sign (observe_meter w i e c) = Some s.
Proof.
  intros Hs. unfold observe_meter. destruct (evidence_totals w i e c) as (_ & _ & Hk & _).
  destruct (evidence w i e c) as [[v|] c']; cbn in Hk; [|by rewrite Hk]. rewrite Hk, Hs. by destruct (v =? s).
Qed.

Lemma observe_all_kept obs c s : cal_sign c = Some s → cal_sign (observe_all obs c) = Some s.
Proof.
  revert c. induction obs as [|o obs IH]; intros c Hs; cbn; [done|]. by apply IH, observe_sign_kept.
Qed.

Lemma observe_all_learns obs c previous :
  cal_sign c = None → cal_candidate c = previous → (previous = None ∨ cal_agreements c = 1) →
  cal_sign (observe_all obs c) = first_repeat previous (shown (cal_totals c) obs).
Proof.
  revert c previous. induction obs as [|[[w i] e] obs IH]; intros c previous Hs Hc Ha; [done|].
  change (observe_all ((w, i, e) :: obs) c) with (observe_all obs (observe_meter w i e c)). cbn [shown].
  destruct (evidence_totals w i e c) as (Hev & Ht & Hs' & Hc' & Ha').
  destruct (evidence w i e (mkCal _ _ _ _ _ _)) as [ev ct]; cbn in Hev, Ht.
  unfold observe_meter.
  destruct (evidence w i e c) as [ev' c']; cbn in Hev, Ht, Hs', Hc', Ha'. subst ev'. destruct ev as [v|].
  2:{ rewrite (IH c' previous), Ht; [done|congruence..|]. destruct Ha; [by left|right; congruence]. }
  rewrite Hs', Hs. cbn [first_repeat]. unfold learn. rewrite Hc', Hc.
  case_decide as Hp.
  - subst previous. destruct Ha as [|Ha]; [congruence|]. rewrite bool_decide_true by congruence.
    apply observe_all_kept. cbn [cal_sign]. rewrite Ha', Ha. done.
  - rewrite bool_decide_false by congruence.
    rewrite (IH _ (Some v)); cbn [cal_sign cal_candidate cal_agreements cal_totals];
      [by rewrite Ht|by rewrite Hs', Hs|done|by right].
Qed.

(** The power sign a meter set to "auto" ends up with, whatever it reports,
    is the first sign that two successive observations agree on, where a reading
    shows a sign when exactly one energy total rose since the reading before while
    the power was not zero; there is no sign before that, and it never changes
    after: a single reading that straddles a change of direction decides nothing. *)
Theorem power_sign_calibrated obs more c0 :
  new_calibrator "auto" = Some c0 →
  cal_sign (observe_all obs c0) = first_repeat None (shown None obs) ∧
  ∀ s, cal_sign (observe_all obs c0) = Some s → cal_sign (observe_all (obs ++ more) c0) = Some s.
Proof.
  intros [= <-]. split; [by apply observe_all_learns; [..|left]|].
  intros s Hs. unfold observe_all. rewrite foldl_app. by apply observe_all_kept.
Qed.

(** ** Concrete instances *)

(** A three-phase inverter: 3.3 kW in total, 1.1 kW a line. *)
Definition three_phase : Sim :=
  sim_of [(Pt 701 "W", 3300); (Pt 701 "A", 14); (Pt 701 "LLV", 400); (Pt 701 "ACType", 2);
          (Pt 701 "WL1", 1100); (Pt 701 "WL2", 1100); (Pt 701 "WL3", 1100); (Pt 701 "VL1L2", 401)].

Definition three_phase_connector : SunSpec Sim :=
  mkSunSpec (new_core three_phase cal0 false) new_controls None.

Lemma monitoring_readings_distinct_witness :
  let r := connector_monitoring "der" false three_phase_connector in
  from_option (λ rs, rd_phase <$> rs) [] (match r.1 with inr rs => Some rs | inl _ => None end) =
    [0; 224; 224; 128; 64; 32; 132] ∧
  ∃ rs, r.1 = inr rs ∧ NoDup ((λ r, reading_identity r DEFAULT_MULTIPLIER) <$> rs).
Proof.
  split; [vm_compute; reflexivity|].
  destruct (connector_monitoring "der" false three_phase_connector) as [[e|rs] s'] eqn:E.
  - exfalso. apply (f_equal fst) in E. vm_compute in E. done.
  - exists rs. split; [done|]. by apply (monitoring_readings_distinct "der" false three_phase_connector s' rs).
Defined.

Lemma elements_reach_core_witness :
  ∃ method p, (translate "opModFixedW" DISABLED new_controls).1 = inr (method, p).
Proof.
  apply (elements_reach_core (D := Sim) (elem_value "opModFixedW" "op_mod_fixed_w") DISABLED new_controls);
    [|done].
  apply list_elem_of_filter. split; [vm_compute; eauto|]. unfold ALL_ELEMENTS. apply elem_of_app. left.
  vm_compute. repeat (first [left | right]).
Defined.

Definition gen_base : DercontrolBase :=
  {| base_fields := []; other_element := [TypedElement (Some "opModGenLimW") (Some 15) (Some 2)] |}.

Lemma envelope_limit_watts_witness :
  ∃ p cp w,
    dict_get "update_op_mod_gen_lim_w" (translate_controls (B := {| all_vars _ := [] |}) gen_base []) = Some p ∧
    (translate "opModGenLimW" p new_controls).1 = inr ("update_gen_lim", cp) ∧
    is_one (param "gen_lim_mode_enable" (CInt 0) cp) = true ∧
    require_watts (param "gen_lim_w" CNone cp) = inr w ∧ (w == quantity 15 2)%Q.
Proof.
  apply (envelope_limit_watts (H := {| all_vars _ := [] |}) gen_base [] (elem_limit "opModGenLimW") 15 2 new_controls);
    [left|vm_compute; done|].
  split; [vm_compute; done|]. split; [done|]. vm_compute. done.
Defined.

(** Alarm bit 8, over frequency, and bit 3, which has no counterpart. *)
Lemma alarm_status_bits_witness :
  Z.testbit (alarm_status (CInt 264)) 3 = existsb (λ sd : Z * Z, (sd.2 =? 3) && Z.testbit 264 sd.1) ALARM_BITS.
Proof. apply (alarm_status_bits 264 3). done. Defined.

(** Importing 5 kW with the import total rising: one reading shows a sign, two fix it. *)
Lemma power_sign_calibrated_witness :
  let obs := [(CInt 5000, CInt 100, CInt 7); (CInt 5000, CInt 101, CInt 7); (CInt 5000, CInt 102, CInt 7)] in
  let c0 := mkCal None None 0 0 false None in
  cal_sign (observe_all obs c0) = first_repeat None (shown None obs) ∧
  first_repeat None (shown None obs) = Some 1.
Proof.
  split; [|vm_compute; done].
  apply (proj1 (power_sign_calibrated
    [(CInt 5000, CInt 100, CInt 7); (CInt 5000, CInt 101, CInt 7); (CInt 5000, CInt 102, CInt 7)] []
    (mkCal None None 0 0 false None) eq_refl)).
Defined.
