(* ===== verification/DerModels.v ===== *)
(** * DerModels: telemetry/der_status.py, der_capability.py, der_settings.py and
      der_availability.py

    What [DerResourceManager] PUTs, built of what a connector reported.  A
    connector may report any value under any key ([CoreVal]); the builders check
    each against the type of its field, and raise where the source does.  The
    generated binding checks the types of its fields with pydantic, third-party
    code: [Pydantic] is what it makes of a value, and nothing is assumed of it
    here. *)

From S2P Require Import Prelude Controls Modes Response Scaling SunspecDevice SunspecConvert.
From Stdlib Require Import QArith.
From stdpp Require Import pretty.
#[local] Open Scope Z_scope.

#[local] Notation "x <~ m ;; k" := (rbind m (λ x, k)) (at level 91, m at next level, right associativity).

Class Pydantic := {
  int_field : CoreVal → option Z;                 (* a field of type int; None: ValidationError *)
  manufacturer_text : string → bool;              (* a text ManufacturerStatusType takes *)
  show : CoreVal → string;                        (* str() of a float, a list or a mapping *)
}.

(** ** Python values *)

(** [isinstance(v, int) and not isinstance(v, bool)] is [as_int]. *)

Definition py_str `{Pydantic} (v : CoreVal) : string :=
  match v with
  | CStr s => s
  | CNone => "None"
  | CBool b => if b then "True" else "False"
  | CInt z => pretty z
  | v => show v
  end.

(** A connector value as [get_sf] sees it: of a finite float it reads
    [round(value, 9)] and no more. *)
Fixpoint val_of (v : CoreVal) : Val :=
  match v with
  | CNone => VNone
  | CBool b => VInt (if b then 1 else 0)
  | CInt z => VInt z
  | CFlt (FFin q) => VFloat (Fin (div_round (Qnum q * 10 ^ 9) (Zpos (Qden q))) (-9))
  | CFlt (FInf _) => VFloat Inf
  | CFlt FNaN => VFloat NaN
  | CStr _ => VStr
  | CList _ => VList
  | CDict d => VDict (map (λ kv, (kv.1, val_of kv.2)) d)
  end.

Definition sf_result (r : PyErr + option ScaleFactor) : res (option ScaleFactor) :=
  match r with
  | inr o => inr o
  | inl OverflowError => inl (PyError "OverflowError")
  | inl ValueError => inl (PyError "ValueError")
  end.

(** [int(v)] of a float. *)
Definition trunc_q (q : Q) : Z := trunc (Qnum q) (Zpos (Qden q)).

(** A field of the binding. *)
Definition field `{Pydantic} (v : CoreVal) : res Z :=
  match int_field v with Some z => inr z | None => inl (PyError "ValidationError") end.

(** ** DERStatus *)

Definition ENUM_MAX : dict string Z :=
  [("inverterStatus", 10); ("operationalModeStatus", 3); ("localControlModeStatus", 1);
   ("storageModeStatus", 2); ("stateOfChargeStatus", 10000)].

Definition CONNECT_STATUS_2023_BITS : Z := 3.
Definition CONNECT_STATUS_2018_BITS : Z := 31.
Definition ALARM_STATUS_BITS : Z := Z.shiftl 1 11 - 1.

(** A [{dateTime, value}] of the binding. *)
Record Stamped (A : Type) := mkStamped { date_time : Z; stamped_value : A }.
Arguments mkStamped {A}.
Arguments date_time {A}.
Arguments stamped_value {A}.

Record Derstatus := mkDerstatus {
  reading_time : Z;
  alarm_status_field : option (list Z);
  connect_status_field : option (Stamped (list Z));        (* ConnectStatusType2 *)
  gen_connect_status_field : option (Stamped (list Z));    (* ConnectStatusType *)
  stor_connect_status_field : option (Stamped (list Z));   (* ConnectStatusType *)
  inverter_status_field : option (Stamped Z);
  local_control_mode_status : option (Stamped Z);
  manufacturer_status : option (Stamped string);
  operational_mode_status_field : option (Stamped Z);
  state_of_charge_status : option (Stamped Z);
  storage_mode_status : option (Stamped Z);
}.

Section Builders.
Context `{Pydantic}.

(** [_dt] *)
Definition dt (data : dict string CoreVal) (default_time : Z) : res Z :=
  field (param "dateTime" (CInt default_time) data).

(** [_stamped_int]: [int()] of an infinite float raises [OverflowError], which is
    not caught. *)
Definition stamped_int (data : CoreVal) : res (option Z) :=
  match data with
  | CDict d =>
      match param "value" CNone d with
      | CNone | CBool _ => inr None
      | CInt z => inr (Some z)
      | CFlt (FFin q) => inr (Some (trunc_q q))
      | CFlt (FInf _) => inl (PyError "OverflowError")
      | CFlt FNaN => inr None
      | CStr s => inr (py_int s)
      | CList _ | CDict _ => inr None
      end
  | _ => inr None
  end.

(** The mapping an entry is, where its value was taken. *)
Definition entry (data : CoreVal) : dict string CoreVal :=
  match data with CDict d => d | _ => [] end.

Definition fits_bitmap (value defined : Z) : bool :=
  negb ((value <? 0) || negb (Z.land value (Z.lnot defined) =? 0)).

(** [_bitmap], by the bits of its edition. *)
Definition bitmap (defined : Z) (data : CoreVal) : res (option (Z * dict string CoreVal)) :=
  value <~ stamped_int data ;;
  inr match value with
      | None => None
      | Some v => if fits_bitmap v defined then Some (v, entry data) else None
      end.

(** [_to_connect_status] and [_to_connect_status2]; one byte holds either. *)
Definition to_connect_status (b : option (Z * dict string CoreVal)) (default_time : Z)
    : res (option (Stamped (list Z))) :=
  match b with
  | None => inr None
  | Some (value, data) =>
      t <~ dt data default_time ;; inr (Some (mkStamped t (be_bytes 1 value)))
  end.

(** [_enum] and [_to_state_of_charge] *)
Definition enum (name : string) (status_data : dict string CoreVal) (default_time : Z)
    : res (option (Stamped Z)) :=
  let data := param name CNone status_data in
  value <~ stamped_int data ;;
  match value with
  | None => inr None
  | Some v =>
      if (0 <=? v) && (v <=? default 0 (dict_get name ENUM_MAX)) then
        t <~ dt (entry data) default_time ;; inr (Some (mkStamped t v))
      else inr None
  end.

Definition to_manufacturer_status (data : CoreVal) (default_time : Z) : res (option (Stamped string)) :=
  match data with
  | CNone => inr None
  | CDict d =>
      match param "value" CNone d with
      | CNone => inr None
      | v =>
          t <~ dt d default_time ;;
          if manufacturer_text (py_str v) then inr (Some (mkStamped t (py_str v)))
          else inl (PyError "ValidationError")
      end
  | _ => inl (PyError "AttributeError")
  end.

(** The alarm bitmap: left out when a reserved bit is set, and when it is zero,
    unless a zero is to be sent. *)
Definition alarm_bytes (status_data : dict string CoreVal) (always : bool) : option (list Z) :=
  let zero := if always then Some (be_bytes 4 0) else None in
  match as_int (param "alarmStatus" CNone status_data) with
  | Some a => if negb (fits_bitmap a ALARM_STATUS_BITS) then None
              else if negb (a =? 0) then Some (be_bytes 4 a) else zero
  | None => zero
  end.

(** [now] is [int(time.time())]. *)
Definition build_der_status (status_data : dict string CoreVal) (profile : option ServerProfile)
    (always_send_alarm_status : bool) (default_time : option Z) (now : Z) : res Derstatus :=
  let now_default := default now default_time in
  let alarm := alarm_bytes status_data always_send_alarm_status in
  connect_2023 <~ bitmap CONNECT_STATUS_2023_BITS (param "connectStatus" CNone status_data) ;;
  connect_2018 <~ bitmap CONNECT_STATUS_2018_BITS (param "genConnectStatus" CNone status_data) ;;
  rt <~ field (param "readingTime" (CInt now_default) status_data) ;;
  inv <~ enum "inverterStatus" status_data now_default ;;
  local <~ enum "localControlModeStatus" status_data now_default ;;
  manu <~ to_manufacturer_status (param "manufacturerStatus" CNone status_data) now_default ;;
  oper <~ enum "operationalModeStatus" status_data now_default ;;
  soc <~ enum "stateOfChargeStatus" status_data now_default ;;
  stor <~ enum "storageModeStatus" status_data now_default ;;
  if from_option is_2018 false profile then
    gen <~ to_connect_status connect_2018 now_default ;;
    stor_2018 <~ bitmap CONNECT_STATUS_2018_BITS (param "storConnectStatus" CNone status_data) ;;
    stor_connect <~ to_connect_status stor_2018 now_default ;;
    inr (mkDerstatus rt alarm None gen stor_connect inv local manu oper soc stor)
  else
    connect <~ to_connect_status connect_2023 now_default ;;
    inr (mkDerstatus rt alarm connect None None inv local manu oper soc stor).

(** ** DERCapability *)

Definition MAX_CONTROL_TYPE : Z := 2 ^ 32.
Definition DEFAULT_DOE_MODES_SUPPORTED : Z := 15.

Definition control_type_from (v : CoreVal) : option (list Z) :=
  match as_int v with
  | Some z => if (0 <=? z) && (z <? MAX_CONTROL_TYPE) then Some (be_bytes 4 z) else None
  | None => None
  end.

Record Dercapability := mkDercapability {
  modes_supported : list Z;
  modes_supported2_field : option (list Z);
  cap_other_element : list (list Z);              (* DoeModesSupported *)
  rtg_abnormal_category : option Z;
  rtg_normal_category : option Z;
  rtg : dict string (option ScaleFactor);         (* the rtg fields of scale-factor types *)
  type_value : Z;
}.

(** [int.to_bytes(4)] *)
Definition to_bytes4 (z : Z) : res (list Z) :=
  if (0 <=? z) && (z <? 2 ^ 32) then inr (be_bytes 4 z) else inl (PyError "OverflowError").

(** [x if isinstance(x, int) else None]; a bool is an int. *)
Definition category (v : CoreVal) : res (option Z) :=
  match v with
  | CInt _ | CBool _ => z <~ field v ;; inr (Some z)
  | _ => inr None
  end.

(** The field of each rating, and its conversion. *)
Definition RTG_FIELDS : dict string (Val → PyErr + option ScaleFactor) :=
  [("rtgMaxA", to_current_rms); ("rtgMaxAh", to_amp_hour);
   ("rtgMaxChargeRateVA", to_apparent_power); ("rtgMaxChargeRateW", to_active_power);
   ("rtgMaxDischargeRateVA", to_apparent_power); ("rtgMaxDischargeRateW", to_active_power);
   ("rtgMaxV", to_voltage_rms); ("rtgMaxVA", to_apparent_power); ("rtgMaxVar", to_reactive_power);
   ("rtgMaxVarNeg", to_reactive_power); ("rtgMaxWh", to_watt_hour); ("rtgMinV", to_voltage_rms);
   ("rtgOverExcitedPF", to_power_factor); ("rtgOverExcitedW", to_active_power);
   ("rtgReactiveSusceptance", to_reactive_susceptance); ("rtgUnderExcitedPF", to_power_factor);
   ("rtgUnderExcitedW", to_active_power); ("rtgVNom", to_voltage_rms)].

Definition SET_FIELDS : dict string (Val → PyErr + option ScaleFactor) :=
  [("setMaxAh", to_amp_hour); ("setMaxChargeRateVA", to_apparent_power);
   ("setMaxChargeRateW", to_active_power); ("setMaxDischargeRateVA", to_apparent_power);
   ("setMaxDischargeRateW", to_active_power); ("setMaxV", to_voltage_rms);
   ("setMaxVA", to_apparent_power); ("setMaxVar", to_reactive_power);
   ("setMaxVarNeg", to_reactive_power); ("setMaxWh", to_watt_hour);
   ("setMinPFOverExcited", to_power_factor); ("setMinPFUnderExcited", to_power_factor);
   ("setMinV", to_voltage_rms); ("setVNom", to_voltage_rms)].

Definition convert_field (d : dict string CoreVal) (kf : string * (Val → PyErr + option ScaleFactor))
    : res (string * option ScaleFactor) :=
  o <~ sf_result (kf.2 (val_of (param kf.1 CNone d))) ;; inr (kf.1, o).

(** The CSIP-AUS bitmap: four bits of what the connector says, or of the default. *)
Definition doe_element (dflt : Z) (v : CoreVal) : list Z :=
  be_bytes 1 (Z.land (default dflt (as_int v)) 15).

Definition build_der_capability (nameplate : dict string CoreVal) (der_type : Z) (csip_aus_mode : bool)
    (modes_supported2 : option Z) (profile : option ServerProfile) : res Dercapability :=
  w <~ sf_result (to_active_power (val_of (param "rtgMaxW" CNone nameplate))) ;;
  match w with
  | None => inl (PyError "ValueError")
  | Some rtg_max_w =>
      let modes := default (be_bytes 4 0) (control_type_from (param "modesSupported" CNone nameplate)) in
      let bits2 := default 0 modes_supported2 in
      let bits2 := match profile with Some p => mask_modes2 p bits2 | None => bits2 end in
      modes2 <~ (if 0 <? bits2 then b <~ to_bytes4 bits2 ;; inr (Some b) else inr None) ;;
      let other := if csip_aus_mode
                   then [doe_element DEFAULT_DOE_MODES_SUPPORTED (param "doeModesSupported" CNone nameplate)]
                   else [] in
      fields <~ map_res (convert_field nameplate) RTG_FIELDS ;;
      abn <~ category (param "rtgAbnormalCategory" CNone nameplate) ;;
      nor <~ category (param "rtgNormalCategory" CNone nameplate) ;;
      inr (mkDercapability modes modes2 other abn nor (("rtgMaxW", Some rtg_max_w) :: fields) der_type)
  end.

(** ** DERSettings *)

Definition DEFAULT_DOE_MODES_ENABLED : Z := 3.
Definition ALL_MODES2 : Z := 1023.

Record Dersettings := mkDersettings {
  modes_enabled : option (list Z);
  modes_enabled2_field : option (list Z);
  set_other_element : list (list Z);              (* DoeModesEnabled *)
  set_grad_w : Z;
  sets : dict string (option ScaleFactor);        (* the set fields of scale-factor types *)
  updated_time : Z;
}.

(** [int(grad_w) if isinstance(grad_w, (int, float)) else 0] *)
Definition grad_w (v : CoreVal) : res Z :=
  match v with
  | CInt z => inr z
  | CBool b => inr (if b then 1 else 0)
  | CFlt (FFin q) => inr (trunc_q q)
  | CFlt (FInf _) => inl (PyError "OverflowError")
  | CFlt FNaN => inl (PyError "ValueError")
  | _ => inr 0
  end.

(** The DERControlType2 modes available: what the device supports and the server
    permits. *)
Definition available2 (modes_supported2 : option Z) (profile : option ServerProfile) : Z :=
  let available := match modes_supported2 with Some m => Z.land m ALL_MODES2 | None => ALL_MODES2 end in
  match profile with Some p => mask_modes2 p available | None => available end.

Definition build_der_settings (configuration : dict string CoreVal) (time : option Z) (csip_aus_mode : bool)
    (modes_supported2 : option Z) (profile : option ServerProfile) (now : Z) : res Dersettings :=
  w <~ sf_result (to_active_power (val_of (param "setMaxW" CNone configuration))) ;;
  match w with
  | None => inl (PyError "ValueError")
  | Some set_max_w =>
      let enabled := control_type_from (param "modesEnabled" CNone configuration) in
      modes2 <~ match as_int (param "modesEnabled2" CNone configuration) with
                | Some enabled2 =>
                    let available := available2 modes_supported2 profile in
                    if negb (available =? 0) then
                      b <~ to_bytes4 (Z.land enabled2 available) ;; inr (Some b)
                    else inr None
                | None => inr None
                end ;;
      grad <~ grad_w (param "setGradW" (CInt 0) configuration) ;;
      let other := if csip_aus_mode
                   then [doe_element DEFAULT_DOE_MODES_ENABLED (param "doeModesEnabled" CNone configuration)]
                   else [] in
      fields <~ map_res (convert_field configuration) SET_FIELDS ;;
      inr (mkDersettings enabled modes2 other grad (("setMaxW", Some set_max_w) :: fields) (default now time))
  end.

(** ** DERAvailability *)

Record Deravailability := mkDeravailability {
  availability_duration : option Z;
  max_charge_duration : option Z;
  av_reading_time : Z;
  reserve_charge_percent : option Z;
  reserve_percent : option Z;
  stat_var_avail : option ScaleFactor;
  stat_wavail : option ScaleFactor;
}.

Definition opt_field (v : CoreVal) : res (option Z) :=
  match v with CNone => inr None | v => z <~ field v ;; inr (Some z) end.

(** [_to_active_power] and [_to_reactive_power] *)
Definition to_power (data : CoreVal) : res (option ScaleFactor) :=
  match data with
  | CNone => inr None
  | CDict d =>
      m <~ field (param "multiplier" (CInt 0) d) ;;
      v <~ field (param "value" (CInt 0) d) ;;
      inr (Some (mkSF v m))
  | _ => inl (PyError "AttributeError")
  end.

Definition build_der_availability (data : dict string CoreVal) (default_time : option Z) (now : Z)
    : res Deravailability :=
  let rt := match param "readingTime" CNone data with
            | CNone => CInt (default now default_time) | v => v end in
  t <~ field rt ;;
  charge <~ opt_field (param "reserveChargePercent" CNone data) ;;
  pct <~ opt_field (param "reservePercent" CNone data) ;;
  var <~ to_power (param "statVarAvail" CNone data) ;;
  watt <~ to_power (param "statWAvail" CNone data) ;;
  avail <~ opt_field (param "availabilityDuration" CNone data) ;;
  charge_dur <~ opt_field (param "maxChargeDuration" CNone data) ;;
  inr (mkDeravailability avail charge_dur t charge pct var watt).

End Builders.
