(* ===== verification/DerModelsProps.v ===== *)
(** * Properties of the DER resources built for the server

    - a DERStatus holds values of its schema only, the ones the connector gave,
      and the connect bitmap of the server's edition only;
    - what the SunSpec connector reports always makes a DERStatus and a
      DERCapability, with the registers of the device in their fields;
    - a mode DERSettings gives as enabled is one DERCapability gives as supported. *)

From Stdlib Require Import QArith.
From S2P Require Import Prelude Controls Modes Response Dispatcher Scaling.
From S2P Require Import SunspecDevice SunspecMeter SunspecCore SunspecLaws SunspecLimits SunspecConvert DerModels.
#[local] Open Scope Z_scope.

(** pydantic takes an int, a bool as an int, and a short text. *)
Class PydanticLaws `{Pydantic} := {
  int_field_int z : int_field (CInt z) = Some z;
  int_field_bool b : int_field (CBool b) = Some (if b then 1 else 0);
  manufacturer_no_error : manufacturer_text "NoErr" = true;
}.

(** A field bound by [rbind] that returned. *)
Lemma rbind_inr {A B} (m : res A) (f : A → res B) b : rbind m f = inr b → ∃ a, m = inr a ∧ f a = inr b.
Proof. destruct m as [e|a]; [done|]. by exists a. Qed.

Ltac returned H :=
  repeat match type of H with
         | rbind _ _ = inr _ =>
             let x := fresh "r" in let E := fresh "E" in apply rbind_inr in H as (x & E & H)
         end.

(** ** DERStatus *)

(** A bitmap of [n] bits that fits. *)
Lemma fits_bitmap_ones v n : 0 <= n → fits_bitmap v (Z.ones n) = true → 0 <= v < 2 ^ n.
Proof.
  intros Hn. unfold fits_bitmap. rewrite negb_true_iff, orb_false_iff, negb_false_iff, Z.ltb_ge, Z.eqb_eq.
  intros [H0 Hl]. split; [done|]. rewrite <- Z.ldiff_land, Z.ldiff_ones_r in Hl by done.
  apply Z.shiftl_eq_0_iff in Hl; [|done]. rewrite Z.shiftr_div_pow2 in Hl by done.
  apply Z.div_small_iff in Hl; lia.
Qed.

(** A bitmap sent is the one given, in [size] bytes and [bits] bits. *)
Definition sent_bits (size : nat) (bits : Z) (given : res (option Z)) (b : list Z) : Prop :=
  length b = size ∧ 0 <= be_int b < 2 ^ bits ∧ given = inr (Some (be_int b)).

Lemma be_bytes_sent size bits v :
  0 <= v < 2 ^ bits → bits <= 8 * Z.of_nat size →
  sent_bits size bits (inr (Some v)) (be_bytes size v).
Proof.
  intros Hv Hb. assert (2 ^ bits <= 256 ^ Z.of_nat size) as Hle.
  { change 256 with (2 ^ 8). rewrite <- Z.pow_mul_r by lia. apply Z.pow_le_mono_r; lia. }
  unfold sent_bits. rewrite length_be_bytes, be_int_be_bytes by lia. done.
Qed.

(** An enumerated value sent is the one given, and one its type defines. *)
Definition sent_enum (name : string) (d : dict string CoreVal) (o : option (Stamped Z)) : Prop :=
  ∀ s, o = Some s →
    0 <= stamped_value s <= default 0 (dict_get name ENUM_MAX) ∧
    stamped_int (param name CNone d) = inr (Some (stamped_value s)).

Definition sent_connect (bits : Z) (name : string) (d : dict string CoreVal)
    (o : option (Stamped (list Z))) : Prop :=
  ∀ s, o = Some s → sent_bits 1 bits (stamped_int (param name CNone d)) (stamped_value s).

(** What a DERStatus may hold for a server of the profile. *)
Record status_in_schema (profile : option ServerProfile) (d : dict string CoreVal) (m : Derstatus) : Prop := {
  schema_alarm b : alarm_status_field m = Some b →
    length b = 4%nat ∧ 0 <= be_int b < 2 ^ 11 ∧
    be_int b = default 0 (as_int (param "alarmStatus" CNone d));
  schema_connect : sent_connect 2 "connectStatus" d (connect_status_field m);
  schema_gen : sent_connect 5 "genConnectStatus" d (gen_connect_status_field m);
  schema_stor : sent_connect 5 "storConnectStatus" d (stor_connect_status_field m);
  schema_2018 : from_option is_2018 false profile = true → connect_status_field m = None;
  schema_2023 : from_option is_2018 false profile = false →
    gen_connect_status_field m = None ∧ stor_connect_status_field m = None;
  schema_inverter : sent_enum "inverterStatus" d (inverter_status_field m);
  schema_local : sent_enum "localControlModeStatus" d (local_control_mode_status m);
  schema_operational : sent_enum "operationalModeStatus" d (operational_mode_status_field m);
  schema_charge : sent_enum "stateOfChargeStatus" d (state_of_charge_status m);
  schema_storage : sent_enum "storageModeStatus" d (storage_mode_status m);
}.

Section Status.
Context `{Pydantic}.

Lemma enum_sent name d t o : enum name d t = inr o → sent_enum name d o.
Proof.
  unfold enum. intros E. returned E. destruct r as [v|]; [|by injection E as <-].
  destruct (_ && _) eqn:Hr; [|by injection E as <-]. returned E. injection E as <-.
  intros s [= <-]. cbn. split; [lia|done].
Qed.

Lemma connect_sent bits name d t b o :
  0 <= bits <= 8 → bitmap (Z.ones bits) (param name CNone d) = inr b → to_connect_status b t = inr o →
  sent_connect bits name d o.
Proof.
  intros Hb Eb Eo s ->. unfold bitmap in Eb. returned Eb. injection Eb as <-.
  destruct r as [v|]; [|done]. destruct (fits_bitmap _ _) eqn:Ef; [|done]. cbn in Eo. returned Eo.
  injection Eo as <-. cbn. rewrite E. apply be_bytes_sent; [|lia]. apply fits_bitmap_ones; [lia|done].
Qed.

Lemma alarm_sent d always b :
  alarm_bytes d always = Some b →
  length b = 4%nat ∧ 0 <= be_int b < 2 ^ 11 ∧ be_int b = default 0 (as_int (param "alarmStatus" CNone d)).
Proof.
  assert (sent_bits 4 11 (inr (Some 0)) (be_bytes 4 0)) as (Hl & Hb & _) by (by apply be_bytes_sent).
  unfold alarm_bytes. destruct (as_int _) as [a|]; cbn [default].
  - destruct (fits_bitmap a _) eqn:Ef; [|done]. cbn [negb]. apply (fits_bitmap_ones a 11) in Ef; [|done].
    destruct (a =? 0) eqn:Ea; cbn [negb].
    + destruct always; [|done]. intros [= <-]. apply Z.eqb_eq in Ea as ->. done.
    + intros [= <-]. destruct (be_bytes_sent 4 11 a Ef) as (H1 & H2 & [= H3]); [done|]. by rewrite <- H3.
  - destruct always; [|done]. intros [= <-]. done.
Qed.

(** C24: whatever a connector reports, a DERStatus that is built holds only values
    its schema defines, each the one the connector gave: enumerated fields within
    their range, connect bitmaps of one byte and alarm bitmaps of four with no
    reserved bit set, and the connect bitmap of the server's edition only. *)
Theorem der_status_in_schema d profile always default_time now m :
  build_der_status d profile always default_time now = inr m → status_in_schema profile d m.
Proof.
  unfold build_der_status. set (t := default now default_time). intros E. returned E.
  destruct (from_option is_2018 false profile) eqn:Hp; returned E; injection E as <-;
    split; cbn; eauto using enum_sent, alarm_sent; try done; try (intros s' [=]);
    first [congruence|eapply (connect_sent 2); [|eassumption..]; done|eapply (connect_sent 5); [|eassumption..]; done].
Qed.

End Status.

(** ** What the SunSpec connector reports *)

Section Sunspec.
Context {D : Type} `{Sunspec2 D} `{PydanticLaws}.

Lemma field_int z : field (CInt z) = inr z.
Proof. unfold field. by rewrite int_field_int. Qed.

(** The registers model 701 holds, as [fetch_status] gives them. *)
Definition raw_status (d : D) : dict string CoreVal :=
  let now := wall_time d in
  [("connectStatus", stamped now (cvalue d (Pt 701 "ConnSt")));
   ("inverterStatus", stamped now (cvalue d (Pt 701 "InvSt")));
   ("manufacturerStatus", stamped now (CStr "NoErr"));
   ("operationalModeStatus", stamped now (cvalue d (Pt 701 "St")));
   ("alarmStatus", cvalue d (Pt 701 "Alrm"));
   ("readingTime", CInt now)].

Lemma connector_status_cases (s s' : SunSpec D) st :
  connector_status s = (inr st, s') → st = [] ∨ st = status (raw_status (dev (ss_core s'))).
Proof.
  unfold connector_status, on_core, fetch_status, or_default, bind, ret, ask, get.
  destruct (caught (get_model 701) (ss_core s)) as [[e|r] c]; [done|].
  destruct r as [[]|]; cbn; intros [= <- <-]; [by left|by right].
Qed.

(** A DERStatus that holds the registers of model 701, each in its field. *)
Record reports (d : D) (profile : option ServerProfile) (always : bool) (m : Derstatus) : Prop := {
  reports_time : reading_time m = wall_time d;
  reports_inverter :
    inverter_status_field m = mkStamped (wall_time d) <$> inverter_status (cvalue d (Pt 701 "InvSt"));
  reports_operational :
    operational_mode_status_field m = mkStamped (wall_time d) <$> operational_mode_status (cvalue d (Pt 701 "St"));
  reports_connect :
    connect_status_field m =
      if from_option is_2018 false profile then None
      else (λ v, mkStamped (wall_time d) (be_bytes 1 v)) <$>
             connect_status (cvalue d (Pt 701 "ConnSt")) (cvalue d (Pt 701 "InvSt"));
  reports_gen :
    gen_connect_status_field m =
      if from_option is_2018 false profile then
        (λ v, mkStamped (wall_time d) (be_bytes 1 v)) <$>
          gen_connect_status (cvalue d (Pt 701 "ConnSt")) (cvalue d (Pt 701 "InvSt"))
      else None;
  reports_alarm :
    alarm_status_field m =
      let a := alarm_status (cvalue d (Pt 701 "Alrm")) in
      if negb (a =? 0) || always then Some (be_bytes 4 a) else None;
}.

(** The connector's codes are codes of the schema. *)
Lemma inverter_status_range v z : inverter_status v = Some z → 0 <= z <= 10.
Proof.
  unfold inverter_status. destruct (as_int v) as [c|]; [|done]. cbn.
  destruct (_ && _) eqn:E; [|done]. intros [= <-]. lia.
Qed.

Lemma operational_mode_range v z : operational_mode_status v = Some z → 0 <= z <= 3.
Proof.
  unfold operational_mode_status. destruct (as_int v) as [c|]; [|done]. cbn.
  unfold dict_get. repeat case_decide; intros [= <-] || done; lia.
Qed.

Lemma connect_status_fits c i z : connect_status c i = Some z → fits_bitmap z CONNECT_STATUS_2023_BITS = true.
Proof.
  unfold connect_status. destruct (as_int c) as [v|]; [|done]. cbn. intros [= <-].
  by destruct (v =? 1), (in_states i _).
Qed.

Lemma gen_connect_status_fits c i z :
  gen_connect_status c i = Some z → fits_bitmap z CONNECT_STATUS_2018_BITS = true.
Proof.
  unfold gen_connect_status. destruct (as_int c) as [v|]; [|done]. cbn. intros [= <-].
  by destruct (v =? 1), (in_states i READY), (in_states i DELIVERING), (in_states i [6]).
Qed.

Lemma alarm_status_fits v : fits_bitmap (alarm_status v) ALARM_STATUS_BITS = true.
Proof.
  unfold alarm_status. destruct (as_int v) as [a|]; [|done]. unfold ALARM_BITS. cbn [foldl fst snd].
  by do 4 (destruct (Z.land a _ =? 0)).
Qed.

(** The entries of the converted status. *)
Definition entry_of (t : Z) (o : option Z) : CoreVal :=
  match o with Some v => CDict [("dateTime", CInt t); ("value", CInt v)] | None => CNone end.

Definition STATUS_KEYS : list string :=
  ["connectStatus"; "genConnectStatus"; "storConnectStatus"; "inverterStatus"; "localControlModeStatus";
   "manufacturerStatus"; "operationalModeStatus"; "stateOfChargeStatus"; "storageModeStatus";
   "alarmStatus"].

Definition converted (t a : Z) (connect gen inv oper : option Z) (n : string) : CoreVal :=
  default CNone (dict_get n
    [("connectStatus", entry_of t connect); ("genConnectStatus", entry_of t gen);
     ("inverterStatus", entry_of t inv); ("operationalModeStatus", entry_of t oper);
     ("manufacturerStatus", stamped t (CStr "NoErr")); ("alarmStatus", CInt a)]).

Lemma folded_entries t a connect gen inv oper n :
  n ∈ STATUS_KEYS →
  param n CNone
    (foldl (status_entry (CInt t))
       [("manufacturerStatus", stamped t (CStr "NoErr")); ("readingTime", CInt t); ("alarmStatus", CInt a)]
       [("connectStatus", (connect, CInt t)); ("genConnectStatus", (gen, CInt t));
        ("inverterStatus", (inv, CInt t)); ("operationalModeStatus", (oper, CInt t))]) =
  converted t a connect gen inv oper n.
Proof.
  unfold STATUS_KEYS. rewrite !elem_of_cons. intros Hn.
  repeat destruct Hn as [->|Hn]; [..|by apply not_elem_of_nil in Hn];
    by destruct connect, gen, inv, oper.
Qed.

Lemma status_entries (d : D) (n : string) :
  n ∈ STATUS_KEYS →
  param n CNone (status (raw_status d)) =
    converted (wall_time d) (alarm_status (cvalue d (Pt 701 "Alrm")))
      (connect_status (cvalue d (Pt 701 "ConnSt")) (cvalue d (Pt 701 "InvSt")))
      (gen_connect_status (cvalue d (Pt 701 "ConnSt")) (cvalue d (Pt 701 "InvSt")))
      (inverter_status (cvalue d (Pt 701 "InvSt"))) (operational_mode_status (cvalue d (Pt 701 "St"))) n.
Proof. intros Hn. rewrite <- folded_entries by done. reflexivity. Qed.

Lemma status_time (d : D) dflt : param "readingTime" dflt (status (raw_status d)) = CInt (wall_time d).
Proof.
  change (status (raw_status d)) with
    (foldl (status_entry (CInt (wall_time d)))
       [("manufacturerStatus", stamped (wall_time d) (CStr "NoErr")); ("readingTime", CInt (wall_time d));
        ("alarmStatus", CInt (alarm_status (cvalue d (Pt 701 "Alrm"))))]
       [("connectStatus", (connect_status (cvalue d (Pt 701 "ConnSt")) (cvalue d (Pt 701 "InvSt")), CInt (wall_time d)));
        ("genConnectStatus", (gen_connect_status (cvalue d (Pt 701 "ConnSt")) (cvalue d (Pt 701 "InvSt")), CInt (wall_time d)));
        ("inverterStatus", (inverter_status (cvalue d (Pt 701 "InvSt")), CInt (wall_time d)));
        ("operationalModeStatus", (operational_mode_status (cvalue d (Pt 701 "St")), CInt (wall_time d)))]).
  by destruct (connect_status _ _), (gen_connect_status _ _), (inverter_status _), (operational_mode_status _).
Qed.

(** What the builders make of a converted entry. *)
Lemma enum_entry name data t t0 (o : option Z) :
  param name CNone data = entry_of t o →
  (∀ z, o = Some z → 0 <= z <= default 0 (dict_get name ENUM_MAX)) →
  enum name data t0 = inr (mkStamped t <$> o).
Proof.
  intros E Hr. unfold enum. rewrite E. destruct o as [z|]; [|done]. specialize (Hr z eq_refl).
  cbn [entry_of stamped_int rbind]. change (param "value" CNone _) with (CInt z). cbn [rbind].
  rewrite (proj2 (andb_true_iff _ _)) by lia. unfold dt. cbn [entry].
  change (param "dateTime" _ _) with (CInt t). by rewrite field_int.
Qed.

Lemma connect_entry bits t t0 (o : option Z) :
  (∀ z, o = Some z → fits_bitmap z bits = true) →
  ∃ b, bitmap bits (entry_of t o) = inr b ∧
       to_connect_status b t0 = inr ((λ v, mkStamped t (be_bytes 1 v)) <$> o).
Proof.
  intros Hf. destruct o as [z|]; [|by eexists]. unfold bitmap. cbn [entry_of stamped_int rbind].
  change (param "value" CNone _) with (CInt z). cbn [rbind]. rewrite (Hf z eq_refl).
  eexists. split; [done|]. cbn [to_connect_status]. unfold dt. cbn [entry].
  change (param "dateTime" _ _) with (CInt t). by rewrite field_int.
Qed.

Lemma manufacturer_entry t t0 :
  to_manufacturer_status (stamped t (CStr "NoErr")) t0 = inr (Some (mkStamped t "NoErr")).
Proof.
  unfold to_manufacturer_status, stamped. change (param "value" CNone _) with (CStr "NoErr").
  unfold dt. change (param "dateTime" _ _) with (CInt t). rewrite field_int. cbn.
  by rewrite manufacturer_no_error.
Qed.

Lemma alarm_entry data always v :
  param "alarmStatus" CNone data = CInt (alarm_status v) →
  alarm_bytes data always =
    let a := alarm_status v in if negb (a =? 0) || always then Some (be_bytes 4 a) else None.
Proof.
  intros E. unfold alarm_bytes. rewrite E. cbn [as_int]. rewrite alarm_status_fits. cbn [negb].
  destruct (alarm_status v =? 0) eqn:Ea; [apply Z.eqb_eq in Ea as ->|]; by destruct always.
Qed.

(** C25: what the SunSpec connector reads of a device always makes a DERStatus, and
    its fields hold the registers of model 701 in IEEE 2030.5 terms: no code the
    conversion gives is one the builder leaves out.  Without model 701 the
    DERStatus holds a time only. *)
Theorem sunspec_status_reported (s s' : SunSpec D) st profile always default_time now :
  connector_status s = (inr st, s') →
  ∃ m, build_der_status st profile always default_time now = inr m ∧
       (st = [] ∨ reports (dev (ss_core s')) profile always m).
Proof.
  intros [->|E]%connector_status_cases.
  { unfold build_der_status. change (param "readingTime" ?a []) with a. rewrite field_int. cbn.
    destruct (from_option is_2018 false profile); eexists; by split; [|left]. }
  set (d := dev (ss_core s')) in *. subst st. unfold build_der_status.
  set (t0 := default now default_time). rewrite status_time, field_int.
  pose proof (λ n H, status_entries d n (bool_decide_unpack _ H)) as Hk.
  set (conn := cvalue d (Pt 701 "ConnSt")) in *. set (invst := cvalue d (Pt 701 "InvSt")) in *.
  destruct (connect_entry CONNECT_STATUS_2023_BITS (wall_time d) t0 _ (connect_status_fits conn invst)) as (b1 & E1 & E1').
  destruct (connect_entry CONNECT_STATUS_2018_BITS (wall_time d) t0 _ (gen_connect_status_fits conn invst)) as (b2 & E2 & E2').
  rewrite (alarm_entry _ always (cvalue d (Pt 701 "Alrm")) (Hk "alarmStatus" I)).
  rewrite (Hk "connectStatus" I : _ = entry_of _ _), (Hk "genConnectStatus" I : _ = entry_of _ _), E1, E2.
  rewrite (Hk "manufacturerStatus" I : _ = stamped _ _), manufacturer_entry, (Hk "storConnectStatus" I : _ = CNone).
  rewrite (enum_entry "inverterStatus" _ (wall_time d) _ _ (Hk "inverterStatus" I) (inverter_status_range _)).
  rewrite (enum_entry "localControlModeStatus" _ (wall_time d) _ None (Hk "localControlModeStatus" I)) by done.
  rewrite (enum_entry "operationalModeStatus" _ (wall_time d) _ _ (Hk "operationalModeStatus" I) (operational_mode_range _)).
  rewrite (enum_entry "stateOfChargeStatus" _ (wall_time d) _ None (Hk "stateOfChargeStatus" I)) by done.
  rewrite (enum_entry "storageModeStatus" _ (wall_time d) _ None (Hk "storageModeStatus" I)) by done.
  cbn [rbind]. destruct (from_option is_2018 false profile) eqn:Hp; rewrite ?E1', ?E2'; cbn [rbind];
    (eexists; split; [reflexivity|right; split; cbn -[be_bytes]; rewrite ?Hp; done]).
Qed.

(** *** The nameplate *)

Definition adjusted (n : string) (v : CoreVal) : CoreVal :=
  if bool_decide (n ∈ NEGATIVE_ELEMENTS) then negative v else v.

Lemma renamed_get_from (values : dict string CoreVal) (names : dict string string) (k n : string) (out : dict string CoreVal) :
  NoDup (dict_keys values) → (∀ k', dict_get k' names = Some n ↔ k' = k) →
  dict_get n (foldl (λ out kv, match dict_get kv.1 names with
                               | Some n => dict_set n (if bool_decide (n ∈ NEGATIVE_ELEMENTS) then negative kv.2
                                                       else kv.2) out
                               | None => out
                               end) out values) =
  match dict_get k values with Some v => Some (adjusted n v) | None => dict_get n out end.
Proof.
  intros Hnd Hk. revert out. induction values as [|[k0 v0] values IH]; intros out; [done|].
  apply NoDup_cons in Hnd as [Hk0 Hnd]. cbn [foldl fst snd]. rewrite IH by done. clear IH.
  change (dict_get k ((k0, v0) :: values)) with (if decide (k = k0) then Some v0 else dict_get k values).
  destruct (decide (k = k0)) as [<-|Hne].
  - assert (dict_get k values = None) as -> by (by apply dict_get_None).
    rewrite (proj2 (Hk k) eq_refl), dict_get_set_eq. done.
  - destruct (dict_get k values); [done|]. destruct (dict_get k0 names) as [n0|] eqn:E0; [|done].
    rewrite dict_get_set_ne; [done|]. intros ->. apply Hne. symmetry. by apply Hk.
Qed.

Lemma renamed_missing (values : dict string CoreVal) (names : dict string string) (n : string) :
  (∀ k, dict_get k names ≠ Some n) → dict_get n (renamed values names) = None.
Proof.
  intros Hn. unfold renamed. assert (dict_get n ([] : dict string CoreVal) = None) as Hnil by done.
  revert Hnil. generalize ([] : dict string CoreVal). induction values as [|[k0 v0] values IH]; intros out Ho; [done|].
  cbn [foldl fst snd]. apply IH. destruct (dict_get k0 names) as [n0|] eqn:E0; [|done].
  rewrite dict_get_set_ne; [done|]. intros ->. by eapply Hn.
Qed.

(** The register pair of a rating, if it has one. *)
Definition register_of (names : dict string string) (entries : list (string * string * string)) (n : string)
    : option (string * string * string) :=
  head (filter (λ e, dict_get e.1.1 names = Some n) entries).

(** What a register pair makes of a rating: an int16 and a power of ten. *)
Definition rating (n : string) (v m : Z) : option ScaleFactor :=
  if (-128 <=? m) && (m <=? 127) then
    let '(i, k) := clamp_int16 (if bool_decide (n ∈ NEGATIVE_ELEMENTS) then - Z.abs v else v) m in Some (mkSF i k)
  else None.

Definition rating_of (d : D) (n : string) : option ScaleFactor :=
  match register_of NAMEPLATE_NAMES NAMEPLATE_ENTRIES n with
  | Some (k, _, sf) =>
      match value d (Pt 702 k), value d (Pt 702 sf) with Some v, Some m => rating n v m | _, _ => None end
  | None =>
      if bool_decide (n = "rtgMaxA") && has_model d 702 then
        match value d (Pt 702 "AMaxRtg"), value d (Pt 702 "A_SF") with Some v, Some m => rating n v m | _, _ => None end
      else None
  end.

(** Every rating is the register's value but for the digits an int16 has no room
    for. *)
Lemma rating_close n v m r :
  rating n v m = Some r →
  ∃ j, 0 <= j ∧ sf_multiplier r = m + j ∧ -32768 <= sf_value r <= 32767 ∧
       let x := if bool_decide (n ∈ NEGATIVE_ELEMENTS) then - Z.abs v else v in
       9 * Z.abs (x - sf_value r * 10 ^ j) <= 5 * (10 ^ j - 1).
Proof.
  unfold rating. destruct (_ && _); [|done]. set (x := if bool_decide _ then _ else _).
  destruct (clamp_spec x m) as (i & j & -> & Hj & Hi & He & _). intros [= <-]. exists j. cbn.
  apply fits_spec in Hi. done.
Qed.

Lemma convert_ints (d : dict string Val) (name : string) x m :
  dict_get "value" d = Some (VInt x) ∨ dict_get "value" d = None ∧ dict_get name d = Some (VInt x) →
  dict_get "multiplier" d = Some (VInt m) →
  convert_dict_sf d name =
    inr (if (-128 <=? m) && (m <=? 127) then let '(i, k) := clamp_int16 x m in Some (mkSF i k) else None).
Proof.
  intros Hx Hm. unfold convert_dict_sf. rewrite Hm.
  replace (match dict_get "value" d with Some v => Some v | None => dict_get name d end) with (Some (VInt x))
    by (by destruct Hx as [->|[-> ->]]).
  rewrite <- (negb_involutive (_ || _)), negb_orb, <- !Z.leb_antisym. destruct (_ && _); [|done].
  cbn [negb]. by destruct (clamp_int16 x m).
Qed.

Lemma convert_pair n vk v m :
  vk = "value" ∨ vk = "displacement" ∧ n ∉ NEGATIVE_ELEMENTS →
  get_sf (val_of (adjusted n (CDict [(vk, CInt v); ("multiplier", CInt m)]))) vk = inr (rating n v m).
Proof.
  intros Hvk. unfold rating, adjusted. case_bool_decide as Hn.
  - destruct Hvk as [->|[_ []]]; [|done]. cbn [negative]. apply convert_ints; [by left|done].
  - destruct Hvk as [->|[-> _]]; apply convert_ints; (by left) || (by right) || done.
Qed.

(** The read of model 702 has one entry per register pair, and keys of its own. *)
Definition pair_entry (d : D) (e : string * string * string) : option CoreVal :=
  v ← value d (Pt 702 e.1.1); m ← value d (Pt 702 e.2);
  Some (CDict [(e.1.2, CInt v); ("multiplier", CInt m)]).

Lemma sf_entries_eq d (l : list (string * string * string)) : omap (sf_entry d) l = omap (λ e, (λ p, (e.1.1, p)) <$> pair_entry d e) l.
Proof.
  induction l as [|[[k vk] sf] l IH]; [done|]. cbn [omap list_omap]. rewrite IH. unfold pair_entry. cbn [fst snd sf_entry].
  unfold sf_entry. by destruct (value d (Pt 702 k)), (value d (Pt 702 sf)).
Qed.

Definition raw_nameplate (d : D) : dict string CoreVal :=
  omap (sf_entry d) NAMEPLATE_ENTRIES ++
    [("NorOpCatRtg", cvalue d (Pt 702 "NorOpCatRtg")); ("AbnOpCatRtg", cvalue d (Pt 702 "AbnOpCatRtg"));
     ("CtrlModes", cvalue d (Pt 702 "CtrlModes")); ("DoeModesSupported", CInt (doe_modes d))].

Lemma raw_nameplate_keys d : NoDup (dict_keys (raw_nameplate d)).
Proof.
  unfold raw_nameplate. rewrite sf_entries_eq. unfold dict_keys. rewrite fmap_app.
  eapply sublist_NoDup; [|apply sublist_app; [apply omap_table_keys|reflexivity]].
  apply (bool_decide_unpack _). vm_compute. exact I.
Qed.

Lemma raw_nameplate_pair d e : e ∈ NAMEPLATE_ENTRIES → dict_get e.1.1 (raw_nameplate d) = pair_entry d e.
Proof.
  intros He. unfold raw_nameplate. rewrite sf_entries_eq, dict_get_app.
  rewrite (dict_get_omap_table (λ e, e.1.1) (pair_entry d)); [|apply (bool_decide_unpack _); vm_compute; exact I|done].
  destruct (pair_entry d e); [done|]. revert He. clear. unfold NAMEPLATE_ENTRIES. rewrite !elem_of_cons.
  intros He. repeat destruct He as [->|He]; [done..|by apply not_elem_of_nil in He].
Qed.

Lemma raw_nameplate_modes d : dict_get "CtrlModes" (raw_nameplate d) = Some (cvalue d (Pt 702 "CtrlModes")).
Proof.
  unfold raw_nameplate. rewrite sf_entries_eq, dict_get_app.
  rewrite (dict_get_sublist_None "CtrlModes" _ (map (λ e, e.1.1) NAMEPLATE_ENTRIES)); [done|apply omap_table_keys|].
  apply (bool_decide_unpack _). vm_compute. exact I.
Qed.

(** Each name is the name of one register. *)
Lemma nameplate_names k n k' :
  dict_get k NAMEPLATE_NAMES = Some n → dict_get k' NAMEPLATE_NAMES = Some n → k' = k.
Proof.
  assert (NoDup (dict_values NAMEPLATE_NAMES)) as Hnd by (apply (bool_decide_unpack _); vm_compute; exact I).
  intros (i & Hi)%dict_get_elem%list_elem_of_lookup (j & Hj)%dict_get_elem%list_elem_of_lookup.
  assert (i = j) as ->; [|congruence].
  eapply NoDup_lookup; [exact Hnd|..]; unfold dict_values; rewrite list_lookup_fmap.
  - by rewrite Hi.
  - by rewrite Hj.
Qed.

Definition reported_nameplate (d : D) : dict string CoreVal :=
  if has_model d 702 then nameplate (raw_nameplate d) (value d (Pt 702 "AMaxRtg")) (value d (Pt 702 "A_SF"))
  else nameplate (raw_nameplate d) None None.

Lemma nameplate_get values r m n :
  n ≠ "rtgMaxA" → dict_get n (nameplate values r m) = dict_get n (renamed values NAMEPLATE_NAMES).
Proof. intros Hn. unfold nameplate. destruct r, m; try done. by apply dict_get_set_ne. Qed.

Lemma reported_get d k n :
  n ≠ "rtgMaxA" → dict_get k NAMEPLATE_NAMES = Some n →
  dict_get n (reported_nameplate d) = adjusted n <$> dict_get k (raw_nameplate d).
Proof.
  intros Hn Hk. assert (dict_get n (reported_nameplate d) = dict_get n (renamed (raw_nameplate d) NAMEPLATE_NAMES)) as ->.
  { unfold reported_nameplate. destruct (has_model d 702); by apply nameplate_get. }
  unfold renamed. rewrite (renamed_get_from _ _ k); [by destruct (dict_get k _)|apply raw_nameplate_keys|].
  intros k'. split; [|by intros ->]. intros Hk'. by eapply nameplate_names.
Qed.

(** Where the fields get their values. *)
Lemma rating_fields n conv :
  (n, conv) ∈ ("rtgMaxW", to_active_power) :: RTG_FIELDS →
  match register_of NAMEPLATE_NAMES NAMEPLATE_ENTRIES n with
  | Some e => e ∈ NAMEPLATE_ENTRIES ∧ n ≠ "rtgMaxA" ∧ dict_get e.1.1 NAMEPLATE_NAMES = Some n ∧
              (e.1.2 = "value" ∨ e.1.2 = "displacement" ∧ n ∉ NEGATIVE_ELEMENTS) ∧
              conv = λ v, get_sf v e.1.2
  | None => n = "rtgMaxA" ∧ conv = to_current_rms ∨
            n ≠ "rtgMaxA" ∧ n ∉ dict_values NAMEPLATE_NAMES ∧ conv = λ v, get_sf v "value"
  end.
Proof.
  unfold RTG_FIELDS. rewrite !elem_of_cons. intros Hn.
  repeat destruct Hn as [[= -> ->]|Hn]; [..|by apply not_elem_of_nil in Hn].
  all: lazymatch goal with
       | |- context [register_of ?a ?b ?c] => let r := eval vm_compute in (register_of a b c) in
                                               change (register_of a b c) with r; cbn beta iota
       end.
  all: repeat match goal with |- _ ∧ _ => split end; try done.
  all: try (apply (bool_decide_unpack _); vm_compute; exact I).
  all: first [by left|right].
  all: repeat match goal with |- _ ∧ _ => split end; try done; apply (bool_decide_unpack _); vm_compute; exact I.
Qed.

Lemma not_a_name n : n ∉ dict_values NAMEPLATE_NAMES → ∀ k, dict_get k NAMEPLATE_NAMES ≠ Some n.
Proof. intros Hn k E%dict_get_elem. apply Hn. apply list_elem_of_fmap. by exists (k, n). Qed.

Lemma rating_field_value d n conv :
  (n, conv) ∈ ("rtgMaxW", to_active_power) :: RTG_FIELDS →
  conv (val_of (param n CNone (reported_nameplate d))) = inr (rating_of d n).
Proof.
  intros Hf%rating_fields. unfold rating_of, param.
  destruct (register_of _ _ n) as [[[k vk] sf]|]; [destruct Hf as (He & Hn & Hk & Hvk & ->)|].
  - rewrite (reported_get d k n Hn Hk), (raw_nameplate_pair d (k, vk, sf) He : dict_get k _ = _).
    unfold pair_entry. cbn [fst snd].
    destruct (value d (Pt 702 k)) as [v|]; [|done]. destruct (value d (Pt 702 sf)) as [m|]; [|done].
    by apply convert_pair.
  - unfold reported_nameplate. destruct Hf as [[-> ->]|(Hn & Hv & ->)].
    + assert (dict_get "rtgMaxA" (renamed (raw_nameplate d) NAMEPLATE_NAMES) = None) as Hr
        by (apply renamed_missing, not_a_name; apply (bool_decide_unpack _); vm_compute; exact I).
      rewrite bool_decide_eq_true_2 by done. cbn [andb].
      destruct (has_model d 702); [|cbn [nameplate]; unfold nameplate; by rewrite Hr].
      unfold nameplate. destruct (value d _) as [v|]; [|by rewrite Hr].
      destruct (value d _) as [m|]; [|by rewrite Hr]. rewrite dict_get_set_eq. cbn [default].
      apply (convert_pair "rtgMaxA" "value" v m). by left.
    + rewrite bool_decide_eq_false_2 by done. cbn [andb].
      destruct (has_model d 702); rewrite nameplate_get, renamed_missing by (done || by apply not_a_name); done.
Qed.

Lemma fetch_nameplate_reads (c c' : Core D) values :
  fetch_nameplate c = (inr values, c') →
  values = raw_nameplate (dev c') ∧ is_Some (value (dev c') (Pt 702 "WMaxRtg")) ∧ is_Some (value (dev c') (Pt 702 "W_SF")).
Proof.
  unfold fetch_nameplate, require_value, bind, ask, get.
  destruct (get_model 702 c) as [[e|[]] c1]; [intros; discriminate|]. cbn beta iota.
  destruct (value (dev c1) (Pt 702 "WMaxRtg")) as [w|] eqn:Ew; [|intros; discriminate]. unfold ret. cbn beta iota.
  destruct (value (dev c1) (Pt 702 "W_SF")) as [m|] eqn:Em; [|intros; discriminate]. cbn beta iota.
  fold (raw_nameplate (dev c1)). remember (raw_nameplate (dev c1)) as l eqn:El. intros [= <- <-].
  rewrite Ew, Em. eauto.
Qed.

Lemma connector_nameplate_reads (s s' : SunSpec D) np :
  connector_nameplate s = (inr np, s') →
  np = reported_nameplate (dev (ss_core s')) ∧
  is_Some (value (dev (ss_core s')) (Pt 702 "WMaxRtg")) ∧ is_Some (value (dev (ss_core s')) (Pt 702 "W_SF")).
Proof.
  unfold connector_nameplate, on_core, bind, get.
  destruct (fetch_nameplate (ss_core s)) as [[e|values] c] eqn:E; [intros; discriminate|].
  apply fetch_nameplate_reads in E as (-> & Hw & Hm). cbn [ss_core].
  fold (reported_nameplate (dev c)). remember (reported_nameplate (dev c)) as l eqn:El.
  intros [= <- <-]. eauto.
Qed.

Lemma map_res_all {A B} (f : A → res B) (g : A → B) (l : list A) :
  (∀ x, x ∈ l → f x = inr (g x)) → map_res f l = inr (map g l).
Proof.
  induction l as [|x l IH]; intros Hf; [done|]. cbn. rewrite Hf by left. rewrite IH; [done|].
  intros y Hy. apply Hf. by right.
Qed.

Lemma category_returns v : ∃ o, category v = inr o.
Proof.
  unfold category, field. destruct v; rewrite ?int_field_int, ?int_field_bool; eauto.
Qed.

Lemma fields_converted d :
  map_res (convert_field (reported_nameplate d)) RTG_FIELDS = inr (map (λ kf, (kf.1, rating_of d kf.1)) RTG_FIELDS).
Proof.
  apply map_res_all. intros [n conv] Hn. unfold convert_field. cbn [fst snd].
  rewrite rating_field_value; [done|by right].
Qed.

Lemma mode_bits2_bound p : 0 <= bits_of (mode_bits2 p) < 2 ^ 10.
Proof.
  apply bits_of_bound; [done|]. apply Forall_forall. intros x. unfold mode_bits2. destruct (negb _).
  - intros Hx%elem_of_seqZ. lia.
  - intros (l & Hx & (f & -> & _)%list_elem_of_fmap)%list_elem_of_join.
    destruct (dict_get f FEATURE_BITS2) as [bs|] eqn:E; [|by apply elem_of_nil in Hx].
    apply dict_get_elem in E. unfold FEATURE_BITS2 in E. apply elem_of_cons in E as [[= -> ->]|E];
      [|by apply elem_of_nil in E]. cbn in Hx. rewrite !elem_of_cons, elem_of_nil in Hx. lia.
Qed.

Lemma rtg_fields_get d n :
  n ∈ "rtgMaxW" :: dict_keys RTG_FIELDS →
  dict_get n (("rtgMaxW", rating_of d "rtgMaxW") :: map (λ kf, (kf.1, rating_of d kf.1)) RTG_FIELDS) =
    Some (rating_of d n).
Proof.
  change (dict_keys RTG_FIELDS) with (map fst RTG_FIELDS).
  cut (∀ l : list string, n ∈ l → dict_get n (map (λ k, (k, rating_of d k)) l) = Some (rating_of d n)).
  { intros Hl Hn. by apply (Hl ("rtgMaxW" :: map fst RTG_FIELDS)). }
  induction l as [|k l IH]; [by intros ?%elem_of_nil|]. intros Hn.
  change (dict_get n (map _ (k :: l))) with
    (if decide (n = k) then Some (rating_of d k) else dict_get n (map (λ k, (k, rating_of d k)) l)).
  case_decide as E; [by subst|]. apply IH. by apply elem_of_cons in Hn as [?|?].
Qed.

(** The DERControlType2 bits that are sent. *)
Definition bits2_of (modes2 : option Z) (profile : option ServerProfile) : Z :=
  match profile with Some p => mask_modes2 p (default 0 modes2) | None => default 0 modes2 end.

Lemma bits2_range modes2 profile n :
  0 <= n → (∀ z, modes2 = Some z → 0 <= z < 2 ^ n) → 0 <= bits2_of modes2 profile < 2 ^ n.
Proof.
  intros Hn Hz. assert (0 <= default 0 modes2 < 2 ^ n) as Hm.
  { destruct modes2 as [z|]; [by apply Hz|]. cbn. pose proof (Z.pow_pos_nonneg 2 n). lia. }
  destruct profile as [p|]; [|done]. apply land_bound; [done..|]. apply mode_bits2_bound.
Qed.

Lemma to_bytes4_range z : 0 <= z < 2 ^ 32 → to_bytes4 z = inr (be_bytes 4 z).
Proof. intros Hz. unfold to_bytes4. by rewrite (proj2 (andb_true_iff _ _)) by lia. Qed.

(** C26: what the SunSpec connector reads of a nameplate always makes a
    DERCapability, provided the power scale factor is a signed byte: every rating
    is the one of its registers, absent where the device does not implement them,
    and rtgMaxW is WMaxRtg times ten to W_SF, but for the digits an int16 has no
    room for. *)
Theorem sunspec_capability_reported (s s' : SunSpec D) np der_type aus modes2 profile :
  connector_nameplate s = (inr np, s') →
  let d := dev (ss_core s') in
  (∀ m, value d (Pt 702 "W_SF") = Some m → -128 <= m <= 127) →
  (∀ z, modes2 = Some z → 0 <= z < 2 ^ 32) →
  ∃ c, build_der_capability np der_type aus modes2 profile = inr c ∧
    (∀ n, n ∈ "rtgMaxW" :: dict_keys RTG_FIELDS → dict_get n (rtg c) = Some (rating_of d n)) ∧
    modes_supported c = default (be_bytes 4 0) (control_type_from (cvalue d (Pt 702 "CtrlModes"))) ∧
    ∃ v m i j, value d (Pt 702 "WMaxRtg") = Some v ∧ value d (Pt 702 "W_SF") = Some m ∧
      rating_of d "rtgMaxW" = Some (mkSF i (m + j)) ∧ 0 <= j ∧ -32768 <= i <= 32767 ∧
      9 * Z.abs (v - i * 10 ^ j) <= 5 * (10 ^ j - 1).
Proof.
  intros (-> & [v Hv] & [m Hm])%connector_nameplate_reads d Hsf Hz. subst d.
  set (d := dev (ss_core s')) in *. specialize (Hsf m Hm).
  assert (∃ r, rating_of d "rtgMaxW" = Some r ∧ rating "rtgMaxW" v m = Some r) as (r & Hr & Hr').
  { change (rating_of d "rtgMaxW") with
      (match value d (Pt 702 "WMaxRtg"), value d (Pt 702 "W_SF") with Some v, Some m => rating "rtgMaxW" v m | _, _ => None end).
    rewrite Hv, Hm. unfold rating. rewrite (proj2 (andb_true_iff _ _)) by lia. destruct (clamp_int16 _ _). eauto. }
  destruct (rating_close _ _ _ _ Hr') as (j & Hj & Hmult & Hi & He).
  unfold build_der_capability. rewrite rating_field_value by left. cbn [sf_result rbind]. rewrite Hr.
  rewrite fields_converted.
  destruct (category_returns (param "rtgAbnormalCategory" CNone (reported_nameplate d))) as [o1 ->].
  destruct (category_returns (param "rtgNormalCategory" CNone (reported_nameplate d))) as [o2 ->].
  fold (bits2_of modes2 profile). rewrite to_bytes4_range by (by apply bits2_range).
  cbn [rbind]. set (o := if 0 <? bits2_of modes2 profile then Some (be_bytes 4 (bits2_of modes2 profile)) else None).
  replace (if 0 <? _ then _ else _) with (@inr SExn _ o) by (unfold o; by destruct (0 <? _)).
  eexists. split; [reflexivity|]. cbn [rtg modes_supported]. split_and!.
  - intros n [->|Hn]%elem_of_cons; [by rewrite <- Hr|]. rewrite <- Hr. apply rtg_fields_get. by right.
  - unfold param. by rewrite (reported_get d "CtrlModes" "modesSupported"), raw_nameplate_modes by done.
  - exists v, m, (sf_value r), j. rewrite <- Hmult. destruct r. done.
Qed.
End Sunspec.

(** ** The modes of the two resources *)

Section Modes2.
Context `{Pydantic}.

Lemma modes_supported2_range (c : Connector) : 0 <= modes_supported2 c < 2 ^ 10.
Proof.
  assert (0 <= implemented_modes2 c < 2 ^ 10) as Hi.
  { apply bits_of_bound; [done|]. apply Forall_fmap, Forall_forall. intros eb (_ & Hm)%list_elem_of_filter.
    revert eb Hm. apply Forall_forall. apply (bool_decide_unpack _). vm_compute. exact I. }
  unfold modes_supported2. destruct (stated_modes2 c) as [[v|]|]; [|done..].
  change 0x3FF with (Z.ones 10). rewrite Z.land_ones by done. by apply Z.mod_pos_bound.
Qed.

Lemma available2_bits (c : Connector) profile :
  available2 (Some (modes_supported2 c)) profile = bits2_of (Some (modes_supported2 c)) profile.
Proof.
  unfold available2, bits2_of. cbn [default]. change ALL_MODES2 with (Z.ones 10).
  rewrite Z.land_ones, Z.mod_small by (done || apply modes_supported2_range). done.
Qed.

Lemma land_below a b n : 0 <= n → 0 <= a < 2 ^ n → 0 <= Z.land a b < 2 ^ n.
Proof.
  intros Hn Ha. assert (Z.land a b = Z.land a (Z.land b (Z.ones n))) as ->.
  { rewrite (Z.land_comm b), Z.land_assoc, Z.land_ones, (Z.mod_small a) by done. done. }
  apply land_bound; [done..|]. rewrite Z.land_ones by done. apply Z.mod_pos_bound. by apply Z.pow_pos_nonneg.
Qed.

Lemma bits2_testbit ms profile i :
  0 <= i → Z.testbit (bits2_of (Some ms) profile) i = true →
  Z.testbit ms i = true ∧ ∀ p, profile = Some p → i ∈ mode_bits2 p.
Proof.
  intros Hi. unfold bits2_of. destruct profile as [p|]; cbn [default]; [|done].
  unfold mask_modes2. rewrite Z.land_spec, andb_true_iff. intros [H1 H2]. split; [done|].
  intros p' [= <-]. by apply bits_of_mode_bits2.
Qed.

(** C27: a DERControlType2 mode that the DERSettings of a device give as enabled is
    one its DERCapability gives as supported, one the connector can apply, and one
    the server's profile defines. *)
Theorem enabled2_within_supported2 (c : Connector) np conf der_type aus profile time now cap st b :
  build_der_capability np der_type aus (Some (modes_supported2 c)) profile = inr cap →
  build_der_settings conf time aus (Some (modes_supported2 c)) profile now = inr st →
  modes_enabled2_field st = Some b →
  ∃ a, modes_supported2_field cap = Some a ∧
    ∀ i, 0 <= i → Z.testbit (be_int b) i = true →
      Z.testbit (be_int a) i = true ∧ Z.testbit (modes_supported2 c) i = true ∧
      (∀ p, profile = Some p → i ∈ mode_bits2 p).
Proof.
  set (ms := modes_supported2 c). pose proof (modes_supported2_range c) as Hms. fold ms in Hms.
  unfold build_der_capability, build_der_settings. fold (bits2_of (Some ms) profile).
  rewrite (available2_bits c profile : available2 (Some ms) profile = bits2_of (Some ms) profile).
  assert (0 <= bits2_of (Some ms) profile < 2 ^ 10) as Hb by (apply bits2_range; [done|]; by intros z [= <-]).
  set (bits := bits2_of (Some ms) profile) in *. intros E1 E2 Hf. returned E1. returned E2.
  destruct r as [w1|]; [|done]. destruct r0 as [w2|]; [|done]. returned E1. returned E2.
  injection E1 as <-. injection E2 as <-. cbn [modes_supported2_field modes_enabled2_field] in *. subst r3.
  destruct (as_int _) as [e|]; [|done]. destruct (bits =? 0) eqn:Hz; cbn [negb] in E7; [done|].
  apply Z.eqb_neq in Hz.
  assert (0 <= Z.land e bits < 2 ^ 10) as Hl by (rewrite Z.land_comm; apply land_below; done).
  rewrite to_bytes4_range in E7 by lia. assert (b = be_bytes 4 (Z.land e bits)) as -> by (cbn [rbind] in E7; congruence).
  rewrite (proj2 (Z.ltb_lt 0 bits)), to_bytes4_range in E3 by lia. injection E3 as <-.
  exists (be_bytes 4 bits). split; [done|]. intros i Hi. rewrite !be_int_be_bytes by (cbn; lia).
  rewrite Z.land_spec, andb_true_iff. intros [_ Hbit]. split; [done|].
  by apply bits2_testbit.
Qed.
End Modes2.

(** ** Witnesses *)

#[local] Instance pydantic0 : Pydantic := {
  int_field v := match v with CInt z => Some z | CBool b => Some (if b then 1 else 0) | _ => None end;
  manufacturer_text s := (String.length s <=? 6)%nat;
  show _ := "";
}.

#[local] Instance pydantic0_laws : PydanticLaws.
Proof. by split. Qed.

Definition ratings_device : Sim :=
  sim_of [(Pt 701 "ConnSt", 1); (Pt 701 "InvSt", 3); (Pt 701 "St", 1); (Pt 701 "Alrm", 1024);
          (Pt 702 "W_SF", 1); (Pt 702 "WMaxRtg", 50006); (Pt 702 "Var_SF", 0); (Pt 702 "VarMaxAbsRtg", 300)].

Definition ratings_connector : SunSpec Sim := mkSunSpec (new_core ratings_device cal0 false) new_controls None.

Definition out_of_range : dict string CoreVal :=
  [("inverterStatus", CDict [("value", CInt 11)]); ("connectStatus", CDict [("value", CInt 3)]);
   ("stateOfChargeStatus", CDict [("value", CFlt (FFin (19999 # 2)))]); ("alarmStatus", CInt 5)].

Lemma der_status_in_schema_witness :
  let m := mkDerstatus 7 (Some [0; 0; 0; 5]) (Some (mkStamped 7 [3])) None None None None None None
             (Some (mkStamped 7 9999)) None in
  build_der_status out_of_range None false (Some 7) 0 = inr m ∧ status_in_schema None out_of_range m.
Proof.
  intros m. assert (build_der_status out_of_range None false (Some 7) 0 = inr m) as E by (vm_compute; reflexivity).
  split; [exact E|exact (der_status_in_schema _ _ _ _ _ _ E)].
Defined.

Definition status_read : dict string CoreVal := Eval vm_compute in
  match (connector_status ratings_connector).1 with inr d => d | inl _ => [] end.

Lemma sunspec_status_reported_witness :
  ∃ m, build_der_status status_read None false None 0 = inr m ∧
       reports (dev (ss_core (connector_status ratings_connector).2)) None false m.
Proof.
  destruct (sunspec_status_reported ratings_connector (connector_status ratings_connector).2 status_read
              None false None 0) as (m & Hm & [Hnil|Hr]); [vm_compute; reflexivity|discriminate Hnil|].
  exists m. split; assumption.
Defined.

Definition nameplate_read : dict string CoreVal := Eval vm_compute in
  match (connector_nameplate ratings_connector).1 with inr d => d | inl _ => [] end.

Lemma sunspec_capability_reported_witness :
  ∃ c, build_der_capability nameplate_read 83 false (Some 0) None = inr c ∧
       dict_get "rtgMaxW" (rtg c) = Some (Some (mkSF 5001 2)) ∧
       dict_get "rtgMaxVarNeg" (rtg c) = Some (Some (mkSF (-300) 0)).
Proof.
  destruct (sunspec_capability_reported ratings_connector (connector_nameplate ratings_connector).2 nameplate_read
              83 false (Some 0) None) as (c & Hc & Hr & _).
  - vm_compute. reflexivity.
  - intros m Hm. vm_compute in Hm. injection Hm as <-. lia.
  - intros z [= <-]. lia.
  - exists c. split; [exact Hc|]. split.
    + etrans; [apply Hr; by left|]. vm_compute. reflexivity.
    + etrans; [apply Hr|vm_compute; reflexivity]. apply (bool_decide_unpack _). vm_compute. exact I.
Defined.

Definition stating_connector : Connector :=
  {| cn_id := 1; cn_name := "inverter"; cn_class := 7; class_attr := λ _, None; inst_attr := λ _, None;
     class_dir := []; native_clear := false; relay_group := None; stated_modes2 := Some (Some 0x1C1) |}.

Definition profile_2018 : ServerProfile :=
  {| profile_base := Some E2018; profile_features := {["import_export_limits"]} |}.

Definition enabled_conf : dict string CoreVal := [("setMaxW", CInt 5000); ("modesEnabled2", CInt 0x141)].

Lemma enabled2_within_supported2_witness :
  ∃ cap st, build_der_capability [("rtgMaxW", CInt 5000)] 83 false (Some (modes_supported2 stating_connector))
              (Some profile_2018) = inr cap ∧
    build_der_settings enabled_conf None false (Some (modes_supported2 stating_connector))
      (Some profile_2018) 0 = inr st ∧
    modes_enabled2_field st = Some [0; 0; 1; 0] ∧
    ∃ a, modes_supported2_field cap = Some a ∧ Z.testbit (be_int a) 8 = true.
Proof.
  destruct (build_der_capability [("rtgMaxW", CInt 5000)] 83 false (Some (modes_supported2 stating_connector))
              (Some profile_2018)) as [e|cap] eqn:E1; [vm_compute in E1; discriminate E1|].
  destruct (build_der_settings enabled_conf None false (Some (modes_supported2 stating_connector))
      (Some profile_2018) 0) as [e|st] eqn:E2; [vm_compute in E2; discriminate E2|].
  assert (modes_enabled2_field st = Some [0; 0; 1; 0]) as Hb
    by (vm_compute in E2; injection E2 as <-; reflexivity).
  exists cap, st. do 2 (split; [reflexivity|]). split; [exact Hb|].
  destruct (enabled2_within_supported2 _ _ _ _ _ _ _ _ _ _ _ E1 E2 Hb) as (a & Ha & Hi).
  exists a. split; [exact Ha|]. by apply (Hi 8).
Defined.

(** An infinite status value stops the build: [int()] raises [OverflowError], which
    [_stamped_int] does not catch. *)
Example infinite_status_stops_build :
  build_der_status [("inverterStatus", CDict [("value", CFlt (FInf false))])] None false None 0
  = inl (PyError "OverflowError").
Proof. vm_compute. reflexivity. Qed.
